(* ===== verification/_CoqProject ===== *)
-Q . S2P
Prelude.v
TypeModel.v
CallGraph.v
ObjTable.v
Ring.v
Router.v
RouterSpec.v
RouterLive.v
Fmt.v
O9Str.v
Dict.v
Registry.v
Pending.v
PendingInv.v
PendingSpec.v
Send.v
SendSpec.v
TextArray.v
Slice.v
DataStack.v
DataStackSpec.v
Mono.v
ChaCha.v
Poly1305.v
Aead.v
Blake2b.v
Primes.v
Fe25519.v
FeInvert.v
X25519.v
ModL.v
Edwards.v
EdPoint.v
EdTables.v
EdBase.v
EdSlide.v
EdDSA.v
DH.v
Crypto.v
Vault.v
FileTree.v
FileTreeSpec.v
FileTreeProps.v
Tabula.v
MountTable.v
MountProps.v
View.v
ViewSpec.v
ViewProps.v
Client.v
ClientSpec.v
MutMerge.v
MutMergeSpec.v
CText.v
CTextSpec.v
Journal.v
Sync.v
Stores.v
StoresSpec.v
Dispatch.v
Messages.v
Files.v
