(* ===== verification/Prelude.v ===== *)
(** * Objective-9C: a verification development for the native runtime

    Objective-9C is an object language for Plan 9 whose classes are actors: an
    object is a process with a dispatch channel, a method call is a message
    and a reply, and a program's objects are served over 9P.  This library
    models the C runtime that compiled programs link against, and the type
    model of the compiler.

    ** The program's parts and how they interact

    - A compiled method call enters [o9_runtime.c] through the
      [obj9_msgSend*N] functions.  They look the receiver up in the handle
      registry (one process that owns a table), record the caller and callee
      in the wait-for graph (which refuses cycles), put a reply channel into
      the pending table and send the message; a reaper process closes the
      calls whose actor went away.
    - Requests of the 9P server go through the router: an object table that
      gives out generation-counted handles, a mailbox per target with two
      rings, and worker processes that carry requests to the actor.
    - Values are counted strings, typed dictionaries, slices and text arrays;
      short-lived ones live on a data stack that frames reset.
    - [o9_filetree.c] keeps the trees of files that actors publish and mount
      over each other; [o9_view.c] serves one of them, the one its controller
      displays, to each 9P session, behind the facade of generated files.
    - Tabulae are tables with a schema that programs keep and exchange; a mount
      table is a tabula whose rows are calls on the process name space or on a
      file tree, replayed below an allowed root.  Tabulae of other machines
      are fetched and pushed by a small 9P client.
    - Objects, methods and states are recorded in tables; a client handle
      caches the addresses of fields and methods, which [o9_dispatch.c] looks
      up in one slot per hash.  Other builtins are semaphores and wait groups,
      files, the environment, channel messages, and calls given as text.
    - [grid/o9mutmerge.c] is a tool of the build grid that merges the results
      of mutation runs.  The runtime itself holds the readers and writers of
      the grid's journals and the comparison of C texts that sorts out mutants
      that differ in layout only.
    - [o9_crypto.c] offers keys, signatures, encryption and the vault on top of
      the library [monocypher.c].
    - [o9c/o9_type.c] is the compiler's view of types: their text, identity
      and Plan 9 names.

    ** Files

    Each file's own comment says which state and operations it models.  A
    definition has the name of its C function; what one C function spreads
    over a loop or a shared tail has a helper of its own.

    - [Prelude] (this file): bytes, machine integers, lists, relations.
      [Fmt]: the number formatting and parsing of the C library.
    - Calls, [o9_runtime.c]: [CallGraph] (per-process context, tid table,
      wait-for graph), [Registry], [Pending] with [PendingInv] and
      [PendingSpec] (tasks, synchronous waits, pending table, reaper), [Send]
      with [SendSpec] (the call functions themselves, which use the three).
    - Router, [o9_runtime.c] and [o9.h]: [ObjTable], [Ring], [Router] with
      [RouterSpec] (safety) and [RouterLive] (progress), which use both.
    - Values, [o9_runtime.c]: [O9Str], [Dict], [TextArray], [Slice],
      [DataStack] with [DataStackSpec].
    - Cryptography: [Mono], [ChaCha], [Poly1305], [Aead], [Blake2b] for
      [monocypher.c], each client of the ones before; for its curve,
      [Fe25519] (numbers modulo 2^255 - 19, which [Primes] shows to be a
      prime), [FeInvert] (roots and inverses), [X25519] (the ladder) and, for
      scalars, [ModL].  [Edwards] is the specification: the group of points of
      the curve and its laws.  [EdPoint] (points in four coordinates and their
      encoding), [EdTables] (the precomputed points), [EdBase] (multiples of
      the base point), [EdSlide] (the digits of a scalar) and [EdDSA]
      (signatures) implement it; [DH] relates [X25519] to it and has the
      conversions between both curves.  [Crypto] and [Vault] are
      [o9_crypto.c], over the curve and Argon2 functions as operations of the
      class [Crypto.curves] with the laws [Crypto.curves_laws] (documented
      lengths, a signature verifies, exchange commutes).
    - [FileTree], [FileTreeSpec], [FileTreeProps]: [o9_filetree.c].  [View],
      [ViewSpec], [ViewProps]: [o9_view.c], on top of [FileTree].
    - [Tabula]: [o9_tab_*] of [o9_runtime.c] over the class [Tabula.libtab] of
      the table library, with its documented laws [libtab_laws] and an
      instance, [ListTab].  [MountTable], [MountProps]: [o9_mt_*],
      [o9_mount_table_*] and [o9_filetree_apply], clients of [Tabula] and
      [FileTree].  [Client], [ClientSpec]: [o9_9p_*], [o9_connect] and the
      remote tabulae of [o9_runtime.c].
    - [MutMerge], [MutMergeSpec]: [grid/o9mutmerge.c].  [CText] and
      [CTextSpec] (with a reference tokenizer): [o9_c_*] and
      [o9_equiv_candidate_reason].  [Journal]: [o9_append_event],
      [o9_journal_split] and the other text tables of [o9_runtime.c].
    - [Sync]: [o9_sync_*] on the queues of [QLock] and [Rendez].
    - [Stores], [StoresSpec]: [o9_object_*], [o9_method_*], [o9_state_*], clients of
      [Tabula]'s class.  [Dispatch]: [o9_dispatch.c] and the caches, a client of
      [Stores].  [Messages]: [o9_chan_*] on [O9Str] and [Slice], and [o9_send],
      a client of [Send] and [Stores].  [Files]: the file and environment
      builtins, [o9_ns_*], and the vault's files, a client of [Vault].
    - [TypeModel]: [o9c/o9_type.c] and its header.

    ** Conventions

    A machine integer is a [Z] that is wrapped by [u32], [u64], [i32], [i64]
    where the code's arithmetic can wrap.  A pointer is a [positive] or an
    option of one.  State is passed explicitly; a region under one lock is one
    function.  Where processes interleave ([Router], [Pending]), a transition
    function follows an explicit list of events, one per locked region or
    channel operation, and the theorems quantify over all lists.  [Send] gives
    its environment a move at every such point.

    ** What the theorems show

    - Calls: no cycle of actors waits for each other while the graph has room
      ([CallGraph.no_call_deadlock], [call_begin_exact]); the reply channel of
      a call that the pending table holds lives exactly as long as it is used,
      and its caller is answered by the steps of actor and reaper
      ([PendingSpec]); a call's result on every path, for destinations that
      are large enough, and that it leaves no record behind, among processes
      that keep to [SendSpec.rely] ([SendSpec]).
    - Router: requests are answered at most once ([RouterSpec]), and those
      that are queued are answered by the steps of workers and actors, unless
      a worker crashed on the channel of an unregistered actor ([RouterLive]);
      rings are bounded queues ([Ring]), the object table is a finite map
      whose stale handles stay dead ([ObjTable]).
    - Values: each container refines its mathematical counterpart
      ([Dict.dict_refines_map], [Slice.slice_refines_list],
      [TextArray.array_refines_list], [Registry.registry_refines_map]);
      dictionaries whose entries have a text that can be read back survive
      their text form; strings are alive exactly while referenced; the stack's
      blocks of less than 2^61 bytes never overlap ([DataStackSpec]).  Setting
      a dictionary's cell to its own text ([o9_dict_setv] with an aliased
      value) is not modelled.
    - Cryptography: the streaming ciphers and hashes, with all their
      machine arithmetic and buffering, equal their one-pass mathematical
      definitions for every splitting of the input; decryption returns
      authentic texts only and exactly; the vault is a map of at most 64
      secrets on which a failing operation has no effect, but for an update
      that fails, which forgets the old secret ([Vault]).  The ten signed limbs of
      a field element never overflow and compute modulo the prime
      ([Fe25519]); the scalars of signatures are reduced exactly ([ModL]).
      The points of the curve are a group ([Edwards]: the laws, and that the
      formulas have no exceptional case), and all that the code does with
      points is arithmetic in it: what [crypto_eddsa_sign] makes is the
      signature of RFC 8032 and verifies, [crypto_eddsa_check] decides eight
      times the equation of the signature ([EdDSA]); [crypto_x25519] gives the
      coordinate of the scalar multiple of any point, so both sides of an
      exchange agree ([DH]).  Nothing is said of cryptographic strength or of
      timing.
    - File trees: the heap stays sound and the mounts acyclic; listing agrees
      with lookup; mount tables are all or nothing; what each operation does.
    - Views: counts of views and facade files are exact, a revoked view stays
      closed to every fid, a walk into a tree and back is the identity
      ([ViewProps]).
    - Tables: a tabula is a map of identities to columns on every table
      library that keeps its laws; a mount table is the recipe it was built
      from, validates, and its replay covers nothing outside of its root
      ([MountProps]).  What the 9P client writes it reads back, however the
      transfers are cut, if its messages fit the connection ([ClientSpec]); the merge classifies every result ([MutMergeSpec]).
    - Grid texts: two C texts count as equal exactly when they have the same
      tokens, in the terms of a tokenizer of its own, and layout between the
      same tokens that could join ([CTextSpec]); events come
      back from a journal ([Journal]).
    - No wake-up of a semaphore is lost ([Sync]); the object store is a map of
      generations ([StoresSpec]); a dispatch runs the method of its selector or
      nothing ([Dispatch]); messages and files come back as they were sent or
      written ([Messages], [Files]).
    - Types: the dump text is injective, equality is equality of canonical
      forms, every text buffer is large enough.
    - Lemmas named in the findings show reachable misbehaviour of the code.

    ** Fuel and bounds

    Fuel is always a bound that the code itself respects: the number of
    recorded edges for the graph walk ([CallGraph.walk]), the table sizes for
    the probe loops, the length of the text for path and number parsing,
    64 doublings for [Slice.grow_cap] (with the proof of when they suffice), 65
    levels for the mount search and 257 for the cycle search of [FileTree]
    (both limits are in the code), a million row identities for
    [MountTable.free_id] (the code's limit), the rows an iterator still has for
    [Tabula.drain], the length of the text for the loops of [CText], [Journal] and
    [Files].  Loops over blocks are structural.

    ** Not modelled

    - lib9p, below [View], is an environment that answers [walkfile] and the
      like; a view's tree that has been destroyed counts as closed there.
    - The server that the 9P client talks to is an environment; what a
      temporary file opens as is one, too.
    - Argon2 of [monocypher.c] is a parameter of what calls it; Elligator, the
      keys made for it and [crypto_x25519_inverse] are called by nothing.
    - libtab is a submodule whose code is not part of the repository: a class
      with laws.  [o9_tab_discard.c] is one call into it.
    - Of the builtins: process control, time, user and working directory
      (one system call each) and the dumps for diagnosis.
    - The compiler's grammar, QuickJS and its glue, the tests.
    - Failing allocation is modelled where a component handles it and the
      result depends on it ([Send], [Crypto], [Vault]), and excluded
      elsewhere, as each file says. *)
From Stdlib Require Export ZArith Lia Strings.Byte Strings.String.
From stdpp Require Export base gmap strings countable.
From stdpp Require Export list.

#[export] Set Default Goal Selector "!".

(** ** Bytes and C strings

    A [char] or [uchar] is a [byte]; a memory range is a [list byte]; a C
    string is the list of its bytes up to, and without, the terminating NUL. *)

Abbreviation byte := Byte.byte (only parsing).
Abbreviation bytes := (list Byte.byte).

#[export] Instance byte_eq_dec : EqDecision Byte.byte := Byte.byte_eq_dec.

#[export] Program Instance byte_countable : Countable Byte.byte :=
  inj_countable Byte.to_N Byte.of_N _.
Next Obligation. intros b. apply Byte.of_to_N. Qed.

(** A string literal of the source. *)
Definition str (s : string) : bytes := String.list_byte_of_string s.
Arguments str s%_string.

(** [strcmp(s, t) == 0] on C strings, [memcmp] on ranges of one length. *)
Definition streq (s t : bytes) : bool := bool_decide (s = t).
Arguments streq : simpl never.

Declare Scope c_scope.
Delimit Scope c_scope with c.
Notation "s =? t" := (streq s t) : c_scope.
Open Scope c_scope.

(** The value of a byte read through [uchar*] and through (signed) [char*]. *)
Definition uchar (b : byte) : Z := Z.of_N (Byte.to_N b).
Definition schar (b : byte) : Z := if decide (uchar b < 128)%Z then uchar b else (uchar b - 256)%Z.

(** The byte stored by [(uchar)z] or [(char)z]. *)
Definition to_byte (z : Z) : byte :=
  match Byte.of_N (Z.to_N (z mod 256)) with Some b => b | None => x00 end.

Definition NUL : byte := x00.
Definition TAB : byte := x09.
Definition NL : byte := x0a.

(** The C string that starts a buffer: its bytes up to the first NUL. *)
Fixpoint cstr (s : bytes) : bytes :=
  match s with
  | [] => []
  | b :: s' => if decide (b = NUL) then [] else b :: cstr s'
  end.

Definition is_cstr (s : bytes) : Prop := NUL ∉ s.

(** [strchr(s, c)]: the bytes before the first [c], and those after it when
    there is one. *)
Fixpoint strchr (c : byte) (s : bytes) : bytes * option bytes :=
  match s with
  | [] => ([], None)
  | b :: s' =>
      if decide (b = c) then ([], Some s')
      else let '(p, r) := strchr c s' in (b :: p, r)
  end.

(** [strncmp(s, lit, strlen(lit)) == 0]. *)
Fixpoint starts_with (p s : bytes) : bool :=
  match p, s with
  | [], _ => true
  | a :: p', b :: s' => if decide (a = b) then starts_with p' s' else false
  | _ :: _, [] => false
  end.

(** [snprint(buf, n, "%s", s)]: the C string left in [buf] (n > 0). *)
Definition snprint (n : nat) (s : bytes) : bytes := take (n - 1) s.

(** [strncpy(dst, s, sizeof dst - 1)] into a zeroed or NUL-closed buffer. *)
Definition strncpy (n : nat) (s : bytes) : bytes := take (n - 1) (cstr s).

(** [memmove(mem + i, bs, n)] inside a block of memory; [None] writes outside
    of it. *)
Definition write_at (i : nat) (bs mem : bytes) : option bytes :=
  if decide (i + length bs <= length mem) then Some (take i mem ++ bs ++ drop (i + length bs) mem) else None.

(** ** Machine integers *)

Definition wrapu (w z : Z) : Z := (z mod 2 ^ w)%Z.
Definition wraps (w z : Z) : Z :=
  let m := (z mod 2 ^ w)%Z in if decide (m < 2 ^ (w - 1))%Z then m else (m - 2 ^ w)%Z.

Abbreviation u16 := (wrapu 16).
Abbreviation u32 := (wrapu 32).
Abbreviation u64 := (wrapu 64).
Abbreviation i32 := (wraps 32).
Abbreviation i64 := (wraps 64).

(** ** Automation shared by the components *)

Create HintDb o9 discriminated.
Create Rewrite HintDb o9.

(** Splits every boolean, [decide] and [match] of the goal and closes what
    becomes trivial. *)
Ltac splitcases := repeat (case_match || case_decide); simplify_eq/=; try done.

(** Unfolds a definition in the goal and follows its branches. *)
Tactic Notation "by_cases" reference(f) := unfold f; splitcases.

(** Closes a goal between byte lists of known shape. *)
Ltac lengths :=
  repeat progress (rewrite ?length_app, ?length_take, ?length_drop, ?length_cons, ?length_nil,
                     ?length_replicate, ?length_insert; simpl).

(** ** Lemmas on bytes *)

Lemma uchar_range b : (0 <= uchar b < 256)%Z.
Proof. unfold uchar. pose proof (Byte.to_N_bounded b). lia. Qed.

Lemma uchar_inj b c : uchar b = uchar c -> b = c.
Proof.
  unfold uchar. intros H%N2Z.inj. apply (f_equal Byte.of_N) in H.
  rewrite !Byte.of_to_N in H. by simplify_eq.
Qed.

Lemma to_byte_uchar b : to_byte (uchar b) = b.
Proof.
  unfold to_byte. rewrite Z.mod_small by apply uchar_range.
  unfold uchar. by rewrite N2Z.id, Byte.of_to_N.
Qed.

Lemma uchar_to_byte z : uchar (to_byte z) = (z mod 256)%Z.
Proof.
  unfold to_byte. pose proof (Z.mod_pos_bound z 256 ltac:(lia)).
  destruct (Byte.of_N _) eqn:E.
  - apply Byte.to_of_N in E. unfold uchar. rewrite E. lia.
  - apply Byte.of_N_None_iff in E. lia.
Qed.

Lemma cstr_id s : is_cstr s -> cstr s = s.
Proof.
  unfold is_cstr. induction s as [|b s IH]; simpl; [done|].
  intros [? ?]%not_elem_of_cons. rewrite decide_False by done. f_equal; auto.
Qed.

Lemma cstr_is_cstr s : is_cstr (cstr s).
Proof.
  unfold is_cstr. induction s as [|b s IH]; simpl; [by apply not_elem_of_nil|].
  case_decide; [by apply not_elem_of_nil|]. by apply not_elem_of_cons.
Qed.

Lemma cstr_idemp s : cstr (cstr s) = cstr s.
Proof. apply cstr_id, cstr_is_cstr. Qed.

Lemma is_cstr_app s t : is_cstr (s ++ t) <-> is_cstr s /\ is_cstr t.
Proof. unfold is_cstr. rewrite elem_of_app. tauto. Qed.

Lemma is_cstr_take n s : is_cstr s -> is_cstr (take n s).
Proof. intros H Hin%elem_of_take. destruct Hin as (i & Hi & _). apply H. by eapply list_elem_of_lookup_2. Qed.

Lemma cstr_app s t : is_cstr s -> cstr (s ++ t) = s ++ cstr t.
Proof.
  unfold is_cstr. induction s as [|b s IH]; simpl; [done|].
  intros [? ?]%not_elem_of_cons. rewrite decide_False by done. f_equal; auto.
Qed.

Lemma snprint_fits n s : length s < n -> snprint n s = s.
Proof. intros. unfold snprint. apply take_ge. lia. Qed.

Lemma snprint_length n s : 0 < n -> length (snprint n s) < n.
Proof. intros. unfold snprint. rewrite length_take. lia. Qed.

Lemma strncpy_fits n s : is_cstr s -> length s < n -> strncpy n s = s.
Proof. intros. unfold strncpy. rewrite cstr_id by done. apply take_ge. lia. Qed.

Lemma strchr_none c s : c ∉ s -> strchr c s = (s, None).
Proof.
  induction s as [|b s IH]; simpl; [done|].
  intros [? ?]%not_elem_of_cons. rewrite decide_False by done. by rewrite IH.
Qed.

Lemma strchr_some c s t : c ∉ s -> strchr c (s ++ c :: t) = (s, Some t).
Proof.
  induction s as [|b s IH]; simpl; [by rewrite decide_True|].
  intros [? ?]%not_elem_of_cons. rewrite decide_False by done. by rewrite IH.
Qed.

Lemma strchr_spec c s p r :
  strchr c s = (p, r) ->
  c ∉ p /\ s = p ++ match r with Some t => c :: t | None => [] end.
Proof.
  revert p r. induction s as [|b s IH]; simpl; intros p r.
  - intros ?; simplify_eq/=. split; [by apply not_elem_of_nil|done].
  - case_decide; [(intros ?; simplify_eq/=; split; [by apply not_elem_of_nil|done])|].
    destruct (strchr c s) as [p' r'] eqn:E. intros ?; simplify_eq/=.
    destruct (IH _ _ eq_refl) as [? ->]. split; [by apply not_elem_of_cons|done].
Qed.

Lemma starts_with_spec p s : starts_with p s = true <-> exists t, s = p ++ t.
Proof.
  revert s. induction p as [|a p IH]; intros s; simpl; [naive_solver|].
  destruct s as [|b s]; [naive_solver|].
  case_decide; [rewrite IH|]; naive_solver.
Qed.

Lemma streq_eq s t : (s =? t) = true <-> s = t.
Proof. unfold streq. apply bool_decide_eq_true. Qed.

Lemma streq_neq s t : (s =? t) = false <-> s <> t.
Proof. unfold streq. apply bool_decide_eq_false. Qed.

Lemma streq_refl s : (s =? s) = true.
Proof. by apply streq_eq. Qed.

Lemma streq_spec s t : Bool.reflect (s = t) (s =? t).
Proof. unfold streq. apply bool_decide_reflect. Qed.

(** ** Lemmas on lists used as arrays *)

(** [a[i] = a[n-1]; n--]: the order of the rest may change. *)
Definition swap_remove {A} (i : nat) (l : list A) : list A :=
  match last l with
  | Some x => take (length l - 1) (<[i := x]> l)
  | None => l
  end.

Lemma insert_perm {A} (l : list A) i x y :
  l !! i = Some x -> l ++ [y] ≡ₚ x :: <[i := y]> l.
Proof.
  intros Hi. rewrite <- (take_drop_middle l i x Hi) at 1.
  rewrite insert_take_drop by (by eapply lookup_lt_Some).
  rewrite <- app_assoc. simpl. rewrite <- Permutation_middle.
  apply perm_skip, Permutation_app_head. symmetry. apply Permutation_cons_append.
Qed.

Lemma swap_remove_perm {A} (l : list A) i x :
  l !! i = Some x -> l ≡ₚ x :: swap_remove i l.
Proof.
  intros Hi. unfold swap_remove. destruct l as [|z l' _] using rev_ind; [done|].
  rewrite last_snoc, length_app, Nat.add_sub. destruct (decide (i = length l')) as [->|].
  - rewrite list_lookup_middle in Hi by done. simplify_eq.
    rewrite insert_app_r_alt, Nat.sub_diag, take_app_length by done.
    by rewrite <- Permutation_cons_append.
  - assert (i < length l') by (apply lookup_lt_Some in Hi; rewrite length_app in Hi; simpl in Hi; lia).
    rewrite insert_app_l, take_app_length' by (rewrite ?length_insert; done).
    apply insert_perm. by rewrite lookup_app_l in Hi.
Qed.

Lemma swap_remove_take {A} (l : list A) i : i < length l -> take i (swap_remove i l) = take i l.
Proof.
  intros Hi. unfold swap_remove. destruct (last l); [|done].
  rewrite take_take, Nat.min_l, take_insert_ge by lia. done.
Qed.

Lemma swap_remove_length {A} (l : list A) i : length (swap_remove i l) = length l - 1.
Proof.
  unfold swap_remove. destruct (last l) eqn:E; [rewrite length_take, length_insert; lia|].
  apply last_None in E. by subst.
Qed.

Lemma list_filter_all {A} (P : A -> Prop) `{forall x, Decision (P x)} (l : list A) :
  Forall P l -> filter P l = l.
Proof. induction 1; [done|]. rewrite filter_cons_True by done. by f_equal. Qed.

(** A list with a repeated element has it at two positions. *)
Lemma not_NoDup_positions {A} `{EqDecision A} (l : list A) :
  ~ NoDup l -> exists i j x, i < j /\ l !! i = Some x /\ l !! j = Some x.
Proof.
  induction l as [|a l IH]; intros Hn; [destruct Hn; constructor|].
  destruct (decide (a ∈ l)) as [Hin|Hin].
  - apply list_elem_of_lookup in Hin as [j Hj]. exists 0, (S j), a. auto with lia.
  - destruct IH as (i & j & x & ? & ? & ?); [intros ?; destruct Hn; by constructor|].
    exists (S i), (S j), x. auto with lia.
Qed.

(** The pigeonhole principle. *)
Lemma NoDup_length_le {A} (l k : list A) : NoDup l -> l ⊆ k -> length l <= length k.
Proof. intros ??. by apply submseteq_length, NoDup_submseteq. Qed.

(** Updates of one element of a list, and sums over it. *)
Lemma alter_none {A} (f : A -> A) (l : list A) i : l !! i = None -> alter f i l = l.
Proof.
  intros H. apply list_eq. intros j. rewrite list_lookup_alter. case_decide; [subst; by rewrite H|done].
Qed.

Lemma sum_list_alter {A} (f : A -> nat) (g : A -> A) (l : list A) i x : l !! i = Some x ->
  sum_list_with f (alter g i l) + f x = sum_list_with f l + f (g x).
Proof.
  revert i. induction l as [|y l IH]; intros [|i] H; simplify_eq/=; [lia|].
  specialize (IH i H). simpl. lia.
Qed.

Lemma sum_list_alter_same {A} (f : A -> nat) (g : A -> A) (l : list A) i :
  (forall x, f (g x) = f x) -> sum_list_with f (alter g i l) = sum_list_with f l.
Proof.
  intros H. revert i. induction l as [|y l IH]; intros [|i]; simpl; [done..| |].
  - by rewrite H.
  - f_equal. apply IH.
Qed.

Lemma sum_list_insert {A} (f : A -> nat) (l : list A) i x y : l !! i = Some x ->
  sum_list_with f (<[i := y]> l) + f x = sum_list_with f l + f y.
Proof.
  revert i. induction l as [|z l IH]; intros [|i] H; simplify_eq/=; [lia|].
  specialize (IH i H). simpl. lia.
Qed.

Lemma write_at_length i bs mem mem' : write_at i bs mem = Some mem' -> length mem' = length mem.
Proof.
  unfold write_at. case_decide; [|done]. intros [= <-]. rewrite !length_app, length_take, length_drop. lia.
Qed.

Lemma write_at_fits i bs mem : i + length bs <= length mem ->
  write_at i bs mem = Some (take i mem ++ bs ++ drop (i + length bs) mem).
Proof. intros H. unfold write_at. by rewrite decide_True. Qed.

(** ** Lemmas on machine integers *)

Lemma wrapu_range w z : (0 <= w)%Z -> (0 <= wrapu w z < 2 ^ w)%Z.
Proof. intros. apply Z.mod_pos_bound, Z.pow_pos_nonneg; lia. Qed.

Lemma wrapu_id w z : (0 <= z < 2 ^ w)%Z -> wrapu w z = z.
Proof. apply Z.mod_small. Qed.

Lemma wraps_range w z : (0 < w)%Z -> (- 2 ^ (w - 1) <= wraps w z < 2 ^ (w - 1))%Z.
Proof.
  intros Hw. unfold wraps. pose proof (Z.mod_pos_bound z (2 ^ w) ltac:(lia)).
  assert (2 ^ w = 2 * 2 ^ (w - 1))%Z by (rewrite <- Z.pow_succ_r by lia; f_equal; lia). case_decide; lia.
Qed.

Lemma wraps_id w z : (0 < w)%Z -> (- 2 ^ (w - 1) <= z < 2 ^ (w - 1))%Z -> wraps w z = z.
Proof.
  intros Hw Hz. unfold wraps. cbv zeta. assert (H2 : (2 ^ w = 2 * 2 ^ (w - 1))%Z) by (rewrite <- Z.pow_succ_r by lia; f_equal; lia).
  destruct (decide (0 <= z)%Z).
  - rewrite Z.mod_small by lia. by rewrite decide_True by lia.
  - rewrite <- (Z.mod_add z 1 (2 ^ w)%Z), Z.mod_small by lia. rewrite decide_False; lia.
Qed.

Lemma wrapu_mod w z : (0 <= w)%Z -> (wrapu w z mod 2 ^ w = wrapu w z)%Z.
Proof. intros. apply Z.mod_mod. apply Z.pow_nonzero; lia. Qed.

(** ** Relations without cycles *)

Section relations.
Context {A : Type}.
Implicit Types (R : A -> A -> Prop).

Definition acyclic R : Prop := forall a, ~ tc R a a.

Lemma tc_mono R R' x y : (forall a b, R a b -> R' a b) -> tc R x y -> tc R' x y.
Proof. intros HR. induction 1; [by apply tc_once, HR|]. eapply tc_l; eauto. Qed.

Lemma tc_rtc_or R x y : rtc R x y -> x = y \/ tc R x y.
Proof.
  induction 1 as [x|x y z Hxy Hyz IH]; [by left|]. right.
  destruct IH as [->|IH]; [by apply tc_once|]. by eapply tc_l.
Qed.

(** A path after adding one edge either avoids it or goes through it. *)
Lemma tc_add_edge R R' a b x y :
  (forall u v, R' u v -> R u v \/ (u = a /\ v = b)) ->
  tc R' x y -> tc R x y \/ (rtc R x a /\ rtc R b y).
Proof.
  intros HR. induction 1 as [x y Hxy|x y z Hxy Hyz IH].
  - destruct (HR _ _ Hxy) as [?|[-> ->]]; [left; by apply tc_once|by right].
  - destruct (HR _ _ Hxy) as [H|[-> ->]], IH as [IH|[IH1 IH2]].
    + left. by eapply tc_l.
    + right. split; [by eapply rtc_l|done].
    + right. split; [done|by apply tc_rtc].
    + by right.
Qed.
Lemma acyclic_mono R R' : (forall a b, R a b -> R' a b) -> acyclic R' -> acyclic R.
Proof. intros HR Hac a Ha. apply (Hac a). by eapply tc_mono. Qed.

Lemma acyclic_add_edge R R' a b :
  (forall u v, R' u v -> R u v \/ (u = a /\ v = b)) ->
  acyclic R -> ~ rtc R b a -> acyclic R'.
Proof.
  intros HR Hac Hba x Hx.
  destruct (tc_add_edge R R' a b x x HR Hx) as [?|[H1 H2]]; [by eapply Hac|].
  apply Hba. by etrans.
Qed.
End relations.

(** ** Sequences of operations *)

(** The results of a sequence of operations, and the final state. *)
Section trace.
Context {S Op Ret : Type} (do : S -> Op -> Ret * S).

Fixpoint trace (s : S) (ops : list Op) : list Ret * S :=
  match ops with
  | [] => ([], s)
  | op :: ops' =>
      let '(ret, s') := do s op in
      let '(rets, s'') := trace s' ops' in (ret :: rets, s'')
  end.
End trace.

(** A simulation step by step gives equal traces. *)
Lemma trace_refines {S S' Op Ret} (do : S -> Op -> Ret * S) (do' : S' -> Op -> Ret * S')
    (R : S -> S' -> Prop) :
  (forall s s' op, R s s' -> (do s op).1 = (do' s' op).1 /\ R (do s op).2 (do' s' op).2) ->
  forall ops s s', R s s' ->
    (trace do s ops).1 = (trace do' s' ops).1 /\ R (trace do s ops).2 (trace do' s' ops).2.
Proof.
  intros Hstep ops. induction ops as [|op ops IH]; intros s s' HR; simpl; [done|].
  destruct (Hstep s s' op HR) as [H1 H2].
  destruct (do s op) as [ret s1], (do' s' op) as [ret' s1']. simpl in *.
  destruct (IH s1 s1' H2) as [H3 H4].
  destruct (trace do s1 ops), (trace do' s1' ops). simpl in *. by subst.
Qed.

#[export] Hint Resolve cstr_is_cstr is_cstr_take uchar_range : o9.
#[export] Hint Rewrite streq_refl to_byte_uchar uchar_to_byte cstr_idemp : o9.
