(* ===== verification/TypeModel.v ===== *)
(** * The compiler's type model ([o9c/o9_type.c], [o9c/o9_type.h])

    The nested [Type]/[TypeList] structs, the builtin table, and the five
    renderings of a type (display, dump, C identifier, storage, Plan 9 type),
    with the [snprint] buffer each one computes.  A nil [Type*] is [TyNil]; a
    [TypeList] is a list.  Names of a [Type] are never nil (the constructors
    are called on token text); the functions that take a bare [char*] take an
    [option].  [emalloc] and [estrdup] end the process when memory runs out,
    so they do not appear. *)
From S2P Require Import Prelude.

Inductive Ty :=
  | TyNil
  | TyName (name : bytes)
  | TyParam (name : bytes)
  | TyApply (name : bytes) (args : list Ty)
  | TyPtr (base : Ty)
  | TyArray (base : Ty).

(** ** The builtin table *)

Record Builtin := MkBuiltin {
  b_name : bytes; b_plan9 : bytes; b_abi : bytes; b_fmt : bytes; b_zero : bytes }.

Definition builtin (n p a f z : string) : Builtin :=
  MkBuiltin (str n) (str p) (str a) (str f) (str z).

Definition builtins : list Builtin := [
  builtin "bool" "int" "scalar" "%d" "0";
  builtin "int64" "vlong" "scalar" "%lld" "0";
  builtin "uint64" "uvlong" "scalar" "%llud" "0";
  builtin "int32" "long" "scalar" "%ld" "0";
  builtin "uint32" "ulong" "scalar" "%lud" "0";
  builtin "int16" "short" "scalar" "%d" "0";
  builtin "uint16" "ushort" "scalar" "%ud" "0";
  builtin "int8" "char" "scalar" "%d" "0";
  builtin "uint8" "uchar" "scalar" "%ud" "0";
  builtin "byte" "uchar" "scalar" "%ud" "0";
  builtin "double" "double" "scalar" "%g" "0.0";
  builtin "void" "void" "none" "" "";
  builtin "string" "O9String*" "pointer" "%p" "nil";
  builtin "function" "void*" "pointer" "%p" "nil";
  builtin "int" "int" "scalar" "%d" "0";
  builtin "uint" "uint" "scalar" "%ud" "0";
  builtin "short" "short" "scalar" "%d" "0";
  builtin "long" "long" "scalar" "%ld" "0";
  builtin "char" "char" "scalar" "%d" "0";
  builtin "intptr" "intptr" "scalar" "%lld" "0";
  builtin "uintptr" "uintptr" "scalar" "%llud" "0";
  builtin "vlong" "vlong" "scalar" "%lld" "0";
  builtin "uvlong" "uvlong" "scalar" "%llud" "0";
  builtin "ulong" "ulong" "scalar" "%lud" "0";
  builtin "ushort" "ushort" "scalar" "%ud" "0";
  builtin "uchar" "uchar" "scalar" "%ud" "0";
  builtin "tabula" "O9Tabula*" "pointer" "%p" "nil";
  builtin "MountTable" "O9MountTable*" "pointer" "%p" "nil";
  builtin "FileTree" "O9FileTree*" "pointer" "%p" "nil";
  builtin "Vault" "O9Vault*" "pointer" "%p" "nil" ].

Definition canonical_type_name (name : bytes) : bytes :=
  if name =? str "Tabula" then str "tabula" else name.

(** [find_builtin]: the first entry with the canonical name. *)
Definition find_builtin (name : option bytes) : option Builtin :=
  match name with
  | None => None
  | Some n => snd <$> list_find (fun b => b_name b = canonical_type_name n) builtins
  end.

Definition type_builtin_count : nat := length builtins.
Definition type_builtin_name (idx : Z) : option bytes :=
  if decide (idx < 0 \/ idx >= Z.of_nat type_builtin_count)%Z then None
  else b_name <$> builtins !! Z.to_nat idx.
Definition type_is_builtin_name (name : option bytes) : bool :=
  bool_decide (is_Some (find_builtin name)).
Definition type_builtin_plan9 (name : option bytes) := b_plan9 <$> find_builtin name.
Definition type_builtin_abi (name : option bytes) := b_abi <$> find_builtin name.
Definition type_builtin_fmt (name : option bytes) := b_fmt <$> find_builtin name.
Definition type_builtin_zero (name : option bytes) := b_zero <$> find_builtin name.

(** ** Constructors *)

Definition type_name (n : bytes) : Ty := TyName (canonical_type_name n).
Definition type_param (n : bytes) : Ty := TyParam n.
Definition type_apply (n : bytes) (args : list Ty) : Ty :=
  TyApply (canonical_type_name n) args.
Definition type_ptr (base : Ty) : Ty := TyPtr base.
Definition type_array (base : Ty) : Ty := TyArray base.
Definition type_list (t : Ty) : list Ty := [t].
Fixpoint type_list_append (l : list Ty) (t : Ty) : list Ty :=
  match l with [] => type_list t | a :: l' => a :: type_list_append l' t end.
Fixpoint type_list_len (l : list Ty) : nat :=
  match l with [] => 0 | _ :: l' => S (type_list_len l') end.

(** ** Text of a type *)

(** [join2] allocates exactly [strlen(a) + strlen(b) + 1] bytes. *)
Definition join2 (a b : bytes) : bytes := snprint (length a + length b + 1) (a ++ b).

(** The character loop of [mangle_name]. *)
Fixpoint mangle_chars (s : bytes) : bytes :=
  match s with
  | [] => []
  | b :: s' =>
      if decide (b = "."%byte) then "_"%byte :: "_"%byte :: mangle_chars s'
      else if decide (b = "*"%byte) then "p"%byte :: mangle_chars s'
      else b :: mangle_chars s'
  end.

Definition mangle_name (name : option bytes) : bytes :=
  match name with None => str "nil" | Some n => mangle_chars n end.

(** The loop shared by [render_list] and [mangle_list]: [f] renders one
    element, [r] is the text so far. *)
Section join_list.
Variables (f : Ty -> bytes) (sep : bytes).

Fixpoint join_from (first : bool) (r : bytes) (l : list Ty) : bytes :=
  match l with
  | [] => r
  | t :: l' => join_from false (join2 (if first then r else join2 r sep) (f t)) l'
  end.

Definition join_list (l : list Ty) : bytes := join_from true [] l.
End join_list.
Arguments join_list : simpl never.

Fixpoint type_render (t : Ty) : bytes :=
  match t with
  | TyNil => str "<nil>"
  | TyName n | TyParam n => n
  | TyApply n args =>
      let a := join_list type_render (str ",") args in
      snprint (length n + length a + 3) (n ++ str "<" ++ a ++ str ">")
  | TyPtr b => join2 (type_render b) (str "*")
  | TyArray b => join2 (type_render b) (str "[]")
  end.

Fixpoint type_dump (t : Ty) : bytes :=
  match t with
  | TyNil => str "Nil"
  | TyName n => snprint (length n + 8) (str "Name(" ++ n ++ str ")")
  | TyParam n => snprint (length n + 9) (str "Param(" ++ n ++ str ")")
  | TyApply n args =>
      let a := join_list type_dump (str ",") args in
      snprint (length n + length a + 10) (str "Apply(" ++ n ++ str "," ++ a ++ str ")")
  | TyPtr b => let s := type_dump b in snprint (length s + 6) (str "Ptr(" ++ s ++ str ")")
  | TyArray b => let s := type_dump b in snprint (length s + 8) (str "Array(" ++ s ++ str ")")
  end.

Fixpoint type_cname (t : Ty) : bytes :=
  match t with
  | TyNil => str "nil"
  | TyName n | TyParam n => mangle_name (Some n)
  | TyApply n args =>
      let bn := mangle_name (Some n) in
      let a := join_list type_cname (str "__") args in
      snprint (length bn + length a + 3) (bn ++ str "__" ++ a)
  | TyPtr b => join2 (type_cname b) (str "_ptr")
  | TyArray b => join2 (type_cname b) (str "_arr")
  end.

Definition is_tabula (n : bytes) : bool := canonical_type_name n =? str "tabula".

Fixpoint type_storage (t : Ty) : bytes :=
  match t with
  | TyNil => str "void"
  | TyName n =>
      match type_builtin_plan9 (Some n) with Some p => p | None => type_render t end
  | TyApply n _ => if is_tabula n then str "O9Tabula*" else type_cname t
  | TyPtr b | TyArray b =>
      let p := type_storage b in snprint (length p + 2) (p ++ str "*")
  | TyParam _ => type_render t
  end.

Definition type_plan9 (t : Ty) : bytes :=
  match t with
  | TyNil => str "void"
  | TyName n =>
      match type_builtin_plan9 (Some n) with Some p => p | None => type_cname t end
  | TyParam _ => str "void*"
  | TyPtr _ => type_storage t
  | TyArray _ => str "O9Slice"
  | TyApply n _ => if is_tabula n then str "O9Tabula*" else type_cname t
  end.

Definition type_abi (t : Ty) : bytes :=
  match t with
  | TyNil => str "none"
  | TyName n => default (str "named") (type_builtin_abi (Some n))
  | TyParam _ => str "param"
  | TyPtr _ => str "pointer"
  | TyArray _ => str "slice"
  | TyApply n _ => if is_tabula n then str "pointer" else str "generic"
  end.

(** [z != nil && z[0] != 0 ? z : other] *)
Definition nonempty_or (z : option bytes) (other : bytes) : bytes :=
  match z with Some (b :: s) => b :: s | _ => other end.

Definition type_fmt (t : Ty) : bytes :=
  match t with
  | TyName n => nonempty_or (type_builtin_fmt (Some n)) (str "%p")
  | _ => str "%p"
  end.

Definition type_zero (t : Ty) : bytes :=
  match t with
  | TyName n => nonempty_or (type_builtin_zero (Some n)) (str "0")
  | TyPtr _ | TyArray _ | TyApply _ _ => str "nil"
  | _ => str "0"
  end.

(** ** Equality and assignability *)

(** The parallel walk of two argument lists. *)
Definition args_equal (eq : Ty -> Ty -> bool) : list Ty -> list Ty -> bool :=
  fix go (la lb : list Ty) : bool :=
    match la, lb with
    | a :: la', b :: lb' => if eq a b then go la' lb' else false
    | [], [] => true
    | _, _ => false
    end.

Fixpoint type_equal (a b : Ty) : bool :=
  match a, b with
  | TyNil, TyNil => true
  | TyName n, TyName m | TyParam n, TyParam m =>
      canonical_type_name n =? canonical_type_name m
  | TyApply n la, TyApply m lb =>
      if canonical_type_name n =? canonical_type_name m
      then args_equal type_equal la lb else false
  | TyPtr x, TyPtr y | TyArray x, TyArray y => type_equal x y
  | _, _ => false
  end.

Definition type_assignable (target actual : Ty) : bool := type_equal target actual.

(** ** Specification: the same texts with unbounded buffers *)

Fixpoint join_spec (sep : bytes) (l : list bytes) : bytes :=
  match l with
  | [] => []
  | [s] => s
  | s :: l' => s ++ sep ++ join_spec sep l'
  end.

Fixpoint render_spec (t : Ty) : bytes :=
  match t with
  | TyNil => str "<nil>"
  | TyName n | TyParam n => n
  | TyApply n args => n ++ str "<" ++ join_spec (str ",") (map render_spec args) ++ str ">"
  | TyPtr b => render_spec b ++ str "*"
  | TyArray b => render_spec b ++ str "[]"
  end.

Fixpoint dump_spec (t : Ty) : bytes :=
  match t with
  | TyNil => str "Nil"
  | TyName n => str "Name(" ++ n ++ str ")"
  | TyParam n => str "Param(" ++ n ++ str ")"
  | TyApply n args =>
      str "Apply(" ++ n ++ str "," ++ join_spec (str ",") (map dump_spec args) ++ str ")"
  | TyPtr b => str "Ptr(" ++ dump_spec b ++ str ")"
  | TyArray b => str "Array(" ++ dump_spec b ++ str ")"
  end.

Fixpoint cname_spec (t : Ty) : bytes :=
  match t with
  | TyNil => str "nil"
  | TyName n | TyParam n => mangle_chars n
  | TyApply n args => mangle_chars n ++ str "__" ++ join_spec (str "__") (map cname_spec args)
  | TyPtr b => cname_spec b ++ str "_ptr"
  | TyArray b => cname_spec b ++ str "_arr"
  end.

(** The type with every name in its canonical spelling. *)
Fixpoint canon (t : Ty) : Ty :=
  match t with
  | TyNil => TyNil
  | TyName n => TyName (canonical_type_name n)
  | TyParam n => TyParam (canonical_type_name n)
  | TyApply n args => TyApply (canonical_type_name n) (map canon args)
  | TyPtr b => TyPtr (canon b)
  | TyArray b => TyArray (canon b)
  end.

(** A name the lexer can produce holds none of the dump's delimiters. *)
Definition name_ok (n : bytes) : Prop :=
  Forall (fun c => c <> "("%byte /\ c <> ")"%byte /\ c <> ","%byte) n.

Fixpoint ty_ok (t : Ty) : Prop :=
  match t with
  | TyNil => True
  | TyName n | TyParam n => name_ok n
  | TyApply n args => name_ok n /\ fold_right (fun a P => ty_ok a /\ P) True args
  | TyPtr b | TyArray b => ty_ok b
  end.

(** ** Lemmas *)

Lemma Ty_rect_nested (P : Ty -> Prop) :
  P TyNil -> (forall n, P (TyName n)) -> (forall n, P (TyParam n)) ->
  (forall n args, Forall P args -> P (TyApply n args)) ->
  (forall b, P b -> P (TyPtr b)) -> (forall b, P b -> P (TyArray b)) ->
  forall t, P t.
Proof.
  intros Hn Hm Hp Ha Hptr Harr. fix IH 1. intros [|n|n|n args|b|b].
  - exact Hn.
  - apply Hm.
  - apply Hp.
  - apply Ha. induction args as [|a args IHargs]; constructor; [apply IH|apply IHargs].
  - apply Hptr, IH.
  - apply Harr, IH.
Qed.

Lemma join2_app a b : join2 a b = a ++ b.
Proof. unfold join2. apply snprint_fits. rewrite length_app. lia. Qed.

Lemma join_list_spec f g sep l :
  Forall (fun t => f t = g t) l -> join_list f sep l = join_spec sep (map g l).
Proof.
  intros HF. unfold join_list.
  assert (Hgo : forall r l, Forall (fun t => f t = g t) l ->
    join_from f sep false r l = r ++ concat (map (fun t => sep ++ g t) l)).
  { clear l HF. intros r l HF. revert r. induction HF as [|t l Ht HF IH]; intros r; simpl.
    - by rewrite app_nil_r.
    - rewrite IH, !join2_app, Ht, <- !app_assoc. done. }
  destruct HF as [|t l Ht HF]; [done|]. simpl.
  rewrite Hgo, join2_app, Ht by done. clear Ht Hgo. simpl.
  revert t. induction HF as [|u l Hu HF IH]; intros t; simpl; [by rewrite app_nil_r|].
  rewrite <- IH. by rewrite <- app_assoc.
Qed.

(** The first name of a dump ends at its delimiter. *)
Lemma name_delim c n m s t :
  name_ok n -> name_ok m -> (c = ")"%byte \/ c = ","%byte) ->
  n ++ c :: s = m ++ c :: t -> n = m /\ s = t.
Proof.
  intros Hn Hm Hc. revert m Hm. induction Hn as [|a n Ha Hn IH]; intros [|b m] Hm Heq; simplify_eq/=.
  - done.
  - apply Forall_cons in Hm as [(?&?&?) _]. destruct Hc; congruence.
  - destruct Ha as (?&?&?), Hc; congruence.
  - apply Forall_cons in Hm as [_ Hm]. by edestruct IH as [-> ->].
Qed.

Lemma args_ok args : fold_right (fun a P => ty_ok a /\ P) True args <-> Forall ty_ok args.
Proof. induction args; simpl; [by split|]. rewrite Forall_cons. naive_solver. Qed.

(** A dump is a prefix code: it can be read back from the front of any text. *)
Definition dump_code (t : Ty) : Prop :=
  ty_ok t -> forall u r s, ty_ok u -> dump_spec t ++ r = dump_spec u ++ s -> t = u /\ r = s.

Lemma dump_head_not_close t : exists c s, dump_spec t = c :: s /\ c <> ")"%byte.
Proof. destruct t; eexists _, _; split; done. Qed.

Lemma join_code l : Forall dump_code l -> Forall ty_ok l -> forall k r s, Forall ty_ok k ->
  join_spec (str ",") (map dump_spec l) ++ ")"%byte :: r =
  join_spec (str ",") (map dump_spec k) ++ ")"%byte :: s -> l = k /\ r = s.
Proof.
  intros HF. induction HF as [|t l Ht HF IH]; intros Hl [|u k] r s Hk Heq.
  - by simplify_eq/=.
  - exfalso. destruct (dump_head_not_close u) as (c & w & E & ?).
    destruct k; simpl in Heq; rewrite E in Heq; by simplify_eq/=.
  - exfalso. destruct (dump_head_not_close t) as (c & w & E & ?).
    destruct l; simpl in Heq; rewrite E in Heq; by simplify_eq/=.
  - apply Forall_cons in Hl as [Hto Hl], Hk as [Huo Hk].
    assert (Hsplit : forall (a : Ty) l r, join_spec (str ",") (map dump_spec (a :: l)) ++ ")"%byte :: r
      = dump_spec a ++ match l with [] => ")"%byte :: r
        | _ => ","%byte :: join_spec (str ",") (map dump_spec l) ++ ")"%byte :: r end).
    { intros a [|b l'] r'; [done|]. simpl. by rewrite <- !app_assoc. }
    rewrite !Hsplit in Heq. destruct (Ht Hto u _ _ Huo Heq) as [-> Hrest].
    destruct l, k; simplify_eq/=; try done.
    destruct (IH Hl _ _ _ Hk Hrest) as [? ->]. by simplify_eq.
Qed.

Lemma dump_prefix_code t : dump_code t.
Proof.
  induction t as [|n|n|n args IH|b IH|b IH] using Ty_rect_nested;
    intros Ht u r s Hu Heq; destruct u; simpl in *; simplify_eq/=; try done.
  - rewrite <- !app_assoc in Heq. apply name_delim in Heq as [-> ->]; auto.
  - rewrite <- !app_assoc in Heq. apply name_delim in Heq as [-> ->]; auto.
  - rewrite !args_ok in Ht, Hu. destruct Ht as [Hn Ht], Hu as [Hm Hu].
    rewrite <- !app_assoc in Heq. simpl in Heq. rewrite <- !app_assoc in Heq. simpl in Heq.
    apply name_delim in Heq as [-> Heq]; auto.
    by destruct (join_code args IH Ht _ _ _ Hu Heq) as [-> ->].
  - rewrite <- !app_assoc in Heq. destruct (IH Ht _ _ _ Hu Heq) as [-> ?]. by simplify_eq/=.
  - rewrite <- !app_assoc in Heq. destruct (IH Ht _ _ _ Hu Heq) as [-> ?]. by simplify_eq/=.
Qed.

Lemma args_equal_spec (f : Ty -> Ty -> bool) la :
  Forall (fun a => forall b, f a b = true <-> canon a = canon b) la ->
  forall lb, args_equal f la lb = true <-> map canon la = map canon lb.
Proof.
  induction 1 as [|a la Ha HF IH]; intros [|b lb]; simpl; try done.
  specialize (Ha b). destruct (f a b).
  - destruct Ha as [Ha _]. rewrite IH, Ha by done. split; congruence.
  - split; [done|]. intros [= Hab _]. by apply Ha in Hab.
Qed.

(** ** Theorems *)

(** Every [snprint] buffer the type model computes is large enough, so the
    displayed text, the dump and the C identifier of a type are never truncated,
    for any nesting of pointers, arrays and generic arguments. *)
Theorem type_text_not_truncated t :
  type_render t = render_spec t /\ type_dump t = dump_spec t /\ type_cname t = cname_spec t.
Proof.
  induction t as [|n|n|n args IH|b (IHr & IHd & IHc)|b (IHr & IHd & IHc)] using Ty_rect_nested;
    simpl; rewrite ?join2_app, ?snprint_fits by (lengths; lia);
    split_and?; try congruence.
  all: rewrite ?(join_list_spec type_render render_spec), ?(join_list_spec type_dump dump_spec),
    ?(join_list_spec type_cname cname_spec); [done|].
  all: eapply Forall_impl; [exact IH|]; by intros ? (?&?&?).
Qed.

(** C39: the dump identifies the type: two types whose names hold no delimiter
    and whose [type_dump] texts agree are the same type. *)
Theorem type_dump_injective t u :
  ty_ok t -> ty_ok u -> type_dump t = type_dump u -> t = u.
Proof.
  intros Ht Hu Heq.
  destruct (type_text_not_truncated t) as (_ & Et & _), (type_text_not_truncated u) as (_ & Eu & _).
  rewrite Et, Eu in Heq. destruct (dump_prefix_code t Ht u [] [] Hu); [|done].
  by rewrite !app_nil_r.
Qed.

(** [type_equal] decides equality of the canonical forms, hence it is an
    equivalence relation; nil is equal only to nil. *)
Theorem type_equal_canon a b : type_equal a b = true <-> canon a = canon b.
Proof.
  revert b. induction a as [|n|n|n args IH|t IH|t IH] using Ty_rect_nested;
    intros []; simpl; try done; rewrite ?streq_eq, ?IH; try (split; congruence).
  destruct (streq_spec (canonical_type_name n) (canonical_type_name name)) as [E|E];
    rewrite ?args_equal_spec, ?E by done; split; congruence.
Qed.

(** Two different types can share one C identifier: a generic application and
    a class whose name already holds the separator. *)
Lemma type_cname_collision : exists t u,
  t = type_apply (str "Box") [type_name (str "int")] /\ u = type_name (str "Box__int") /\
  type_equal t u = false /\ type_cname t = type_cname u.
Proof. eexists _, _. split_and!; reflexivity. Qed.

(** ** Witness *)

Lemma type_dump_injective_witness :
  let t := type_apply (str "Dict") [type_name (str "string"); type_ptr (type_name (str "int"))] in
  ty_ok t /\ t = t.
Proof.
  intros t. assert (Ht : ty_ok t) by (vm_compute; repeat (split || constructor); done).
  split; [exact Ht|]. apply (type_dump_injective t t Ht Ht). reflexivity.
Defined.
