(* ===== verification/CallGraph.v ===== *)
(** * Actor identity and the synchronous call graph ([o9_runtime.c])

    The per-proc context, the dispatch-channel-to-tid table, and the wait-for
    graph that [obj9_msgSendN] and its variants guard every synchronous actor
    call with.  A dispatch [Channel*] is a [positive], a nullable one an
    [option]; [lock]/[unlock] make each operation atomic, so an operation is
    one function.  [fmt_p] is libc's ["%p"]. *)
From S2P Require Import Prelude.

Abbreviation chan := positive.

(** ** The per-proc context ([O9ProcCtx]) *)

Record ProcCtx := MkCtx {
  cx_err : option bytes; cx_errbuf : bytes;
  cx_actor_chan : option chan; cx_actor_active : bool; cx_actor_oid : bytes;
  cx_userbuf : bytes; cx_caller : option bytes; cx_blessed : bool }.

Definition ctx0 : ProcCtx := MkCtx None [] None false [] [] None false.

Definition o9_set_call_err (e : option bytes) (c : ProcCtx) : ProcCtx :=
  MkCtx e (cx_errbuf c) (cx_actor_chan c) (cx_actor_active c) (cx_actor_oid c)
    (cx_userbuf c) (cx_caller c) (cx_blessed c).

Definition o9_get_call_err (c : ProcCtx) : option bytes := cx_err c.

(** [snprint(ctx->errbuf, sizeof ctx->errbuf, "%s", err); ctx->err = ctx->errbuf]
    after [err] itself was formatted in 192 bytes. *)
Definition set_errbuf (e : bytes) (c : ProcCtx) : ProcCtx :=
  let e' := snprint 192 (snprint 192 e) in
  MkCtx (Some e') e' (cx_actor_chan c) (cx_actor_active c) (cx_actor_oid c)
    (cx_userbuf c) (cx_caller c) (cx_blessed c).

Definition o9_set_current_request (user : option bytes) (blessed : bool) (c : ProcCtx) : ProcCtx :=
  let upd caller buf :=
    MkCtx (cx_err c) (cx_errbuf c) (cx_actor_chan c) (cx_actor_active c) (cx_actor_oid c)
      buf caller blessed in
  match user with
  | None | Some [] => upd None []
  | Some u => let b := snprint 64 u in upd (Some b) b
  end.

Definition o9_set_current_user (user : option bytes) (c : ProcCtx) : ProcCtx :=
  o9_set_current_request user false c.

(** [getuser] is the process owner, an argument here. *)
Definition o9_current_user_c (getuser : option bytes) (c : ProcCtx) : bytes :=
  match cx_caller c with
  | Some (b :: u) => b :: u
  | _ => default [] getuser
  end.

Definition o9_current_user_blessed (c : ProcCtx) : bool := cx_blessed c.

Definition o9_current_user_is (getuser : option bytes) (user : option bytes) (c : ProcCtx) : bool :=
  match user with
  | None => false
  | Some u => o9_current_user_c getuser c =? cstr u
  end.

(** ** Dispatch channel to thread id *)

Definition O9_MAX_ACTOR_TIDS : nat := 512.

(** One slot of [o9_actor_tids]; [None] is a nil channel. *)
Abbreviation tid_slot := (option chan * Z)%type.

Definition tids0 : list tid_slot := replicate O9_MAX_ACTOR_TIDS (None, 0%Z).

(** The scan stops at the channel's slot; [slot] keeps the first free one. *)
Fixpoint tid_scan (ch : chan) (i : nat) (slot : option nat) (l : list tid_slot) : option nat :=
  match l with
  | [] => slot
  | (c, _) :: l' =>
      if decide (c = Some ch) then Some i
      else tid_scan ch (S i)
             (match slot, c with None, None => Some i | _, _ => slot end) l'
  end.

Definition o9_actor_tid_put (ch : option chan) (tid : Z) (l : list tid_slot) : list tid_slot :=
  match ch with
  | None => l
  | Some c => <[default 0 (tid_scan c 0 None l) := (Some c, tid)]> l
  end.

Definition o9_actor_tid_remove (ch : option chan) (l : list tid_slot) : list tid_slot :=
  match ch with
  | None => l
  | Some c =>
      match list_find (fun s => s.1 = Some c) l with
      | Some (i, _) => <[i := (None, 0%Z)]> l
      | None => l
      end
  end.

Definition o9_tid_for_chan (ch : option chan) (l : list tid_slot) : Z :=
  match ch with
  | None => 0
  | Some c =>
      match list_find (fun s => s.1 = Some c) l with Some (_, (_, t)) => t | None => 0 end
  end.

Definition o9_actor_enter (dispatch_chan : option chan) (oid : option bytes) (threadid : Z)
    (c : ProcCtx) (l : list tid_slot) : ProcCtx * list tid_slot :=
  (MkCtx (cx_err c) (cx_errbuf c) dispatch_chan (bool_decide (is_Some dispatch_chan))
     (match oid with Some o => snprint 64 o | None => [] end)
     (cx_userbuf c) (cx_caller c) (cx_blessed c),
   o9_actor_tid_put dispatch_chan threadid l).

Definition o9_actor_channel (c : ProcCtx) : option chan := cx_actor_chan c.

(** The ownership guard of [o9_dispatch_call_checked]: may this proc run the
    object's methods directly? [obj] is the object's dispatch channel. *)
Definition dispatch_owned (obj : option chan) (c : ProcCtx) : bool :=
  match obj with
  | None => false
  | Some _ => cx_actor_active c && bool_decide (cx_actor_chan c = obj)
  end.

(** ** The wait-for graph *)

Definition O9_MAX_CALL_EDGES : nat := 1024.

Record edge := MkEdge {
  e_caller : chan; e_callee : chan;
  e_caller_oid : bytes; e_callee_oid : bytes; e_method : bytes }.

(** [o9_call_edges[0 .. o9_ncall_edges)]. *)
Abbreviation edges := (list edge).

Definition next_callee (es : edges) (c : chan) : option chan :=
  e_callee ∘ snd <$> list_find (fun e => e_caller e = c) es.

(** The hop loop: [curr] follows the first edge of each caller. *)
Fixpoint walk (es : edges) (hops : nat) (curr target : chan) : bool :=
  match hops with
  | 0 => false
  | S h =>
      match next_callee es curr with
      | None => false
      | Some c => if decide (c = target) then true else walk es h c target
      end
  end.

Definition o9_path_exists_locked (es : edges) (start target : option chan) : bool :=
  match start, target with
  | Some s, Some t => if decide (s = t) then true else walk es (length es) s t
  | _, _ => false
  end.

(** ["%s%s%s"] of the method name in an error message. *)
Definition method_suffix (sep : bytes) (method : option bytes) : bytes :=
  match method with Some m => sep ++ m ++ str "()" | None => [] end.

Section dag.
Variable fmt_p : chan -> bytes.

Definition o9_dag_call_begin (callee_chan : option chan) (callee_oid method : option bytes)
    (c : ProcCtx) (es : edges) : Z * ProcCtx * edges :=
  match callee_chan, cx_actor_chan c with
  | Some callee, Some caller =>
      if decide (caller = callee) then
        ((-1)%Z, set_errbuf (str "sync actor call to self" ++ method_suffix (str " for ") method
           ++ str "; use a direct method call") c, es)
      else if o9_path_exists_locked es callee_chan (Some caller) then
        ((-1)%Z, set_errbuf (str "actor call cycle detected" ++ method_suffix (str " on ") method) c, es)
      else if decide (length es < O9_MAX_CALL_EDGES) then
        (0%Z, c, es ++ [MkEdge caller callee
           (snprint 64 (match cx_actor_oid c with [] => fmt_p caller | o => o end))
           (snprint 64 (match callee_oid with None | Some [] => fmt_p callee | Some o => o end))
           (match method with Some m => snprint 64 m | None => [] end)])
      else (0%Z, c, es)
  | _, _ => (0%Z, c, es)
  end.

Definition o9_dag_call_end (callee_chan : option chan) (c : ProcCtx) (es : edges) : edges :=
  match callee_chan, cx_actor_chan c with
  | Some callee, Some caller =>
      match list_find (fun e => e_caller e = caller /\ e_callee e = callee) es with
      | Some (i, _) => swap_remove i es
      | None => es
      end
  | _, _ => es
  end.

(** The loop of [o9_dag_actor_exit]; [fuel] bounds [o9_ncall_edges - i]. *)
Fixpoint exit_loop (fuel : nat) (i : nat) (a : chan) (es : edges) : edges :=
  match fuel with
  | 0 => es
  | S f =>
      match es !! i with
      | None => es
      | Some e =>
          if decide (e_caller e = a \/ e_callee e = a)
          then exit_loop f i a (swap_remove i es) else exit_loop f (S i) a es
      end
  end.

Definition o9_dag_actor_exit (actor_chan : option chan) (es : edges) (l : list tid_slot)
  : edges * list tid_slot :=
  match actor_chan with
  | None => (es, l)
  | Some a => (exit_loop (length es) 0 a es, o9_actor_tid_remove actor_chan l)
  end.

Definition edge_line (e : edge) : bytes :=
  e_caller_oid e ++ [TAB] ++ e_callee_oid e ++ [TAB] ++ e_method e ++ [NL].

(** [seprint] never writes past [buf + nbuf - 1]; returns the text. *)
Definition o9_dag_dump (nbuf : nat) (es : edges) : bytes :=
  if decide (nbuf = 0) then []
  else fold_left (fun t e => snprint nbuf (t ++ edge_line e)) es
         (snprint nbuf (str "# caller" ++ [TAB] ++ str "callee" ++ [TAB] ++ str "method" ++ [NL])).

Definition o9_dag_waiting_for (caller_chan : option chan) (ncallee nmeth : nat) (es : edges)
  : option (bytes * bytes) :=
  match caller_chan with
  | None => None
  | Some c =>
      (fun p => (snprint ncallee (e_callee_oid p.2), snprint nmeth (e_method p.2))) <$>
        list_find (fun e => e_caller e = c) es
  end.

(** ** Actors making synchronous calls

    [calls] maps an actor blocked in [obj9_msgSendN] to its callee; the flag
    says that the callee still owes the reply.  An actor's proc runs one call
    at a time. *)
Record sys := MkSys { s_edges : edges; s_calls : gmap chan (chan * bool); s_dropped : bool }.

Definition actor_ctx (a : chan) : ProcCtx := MkCtx None [] (Some a) true [] [] None false.

Inductive step : sys -> sys -> Prop :=
  | StepBegin a b oid meth rc c' es' s :
      s_calls s !! a = None ->
      o9_dag_call_begin (Some b) oid meth (actor_ctx a) (s_edges s) = (rc, c', es') ->
      step s (if decide (rc = 0%Z)
              then MkSys es' (<[a := (b, true)]> (s_calls s))
                     (s_dropped s || bool_decide (O9_MAX_CALL_EDGES <= length (s_edges s)))
              else MkSys es' (s_calls s) (s_dropped s))
  (* the callee replies; the caller has not been scheduled yet *)
  | StepReply a b s :
      s_calls s !! a = Some (b, true) ->
      step s (MkSys (s_edges s) (<[a := (b, false)]> (s_calls s)) (s_dropped s))
  (* the caller returns: reply received, or the send failed *)
  | StepEnd a b o s :
      s_calls s !! a = Some (b, o) ->
      step s (MkSys (o9_dag_call_end (Some b) (actor_ctx a) (s_edges s))
                (delete a (s_calls s)) (s_dropped s))
  (* an actor that is not inside a call ends; the reaper owes the replies now *)
  | StepExit a s l :
      s_calls s !! a = None ->
      step s (MkSys (o9_dag_actor_exit (Some a) (s_edges s) l).1
                ((fun c => if decide (c.1 = a) then (c.1, false) else c) <$> s_calls s)
                (s_dropped s)).

Definition sys0 : sys := MkSys [] ∅ false.
Definition reach (s : sys) : Prop := rtc step sys0 s.

(** The recorded wait-for relation and the real one. *)
Definition edge_rel (es : edges) (a b : chan) : Prop :=
  exists e, e ∈ es /\ e_caller e = a /\ e_callee e = b.
Definition waits (s : sys) (a b : chan) : Prop := s_calls s !! a = Some (b, true).
End dag.

(** ** Lemmas *)

(** Each actor is the caller of at most one edge. *)
Definition functional (es : edges) : Prop := NoDup (map e_caller es).

Lemma edge_rel_perm es es' a b : es ≡ₚ es' -> edge_rel es a b -> edge_rel es' a b.
Proof. intros Hp (e & He & ?). exists e. by rewrite <- Hp. Qed.

Lemma edge_rel_filter (P : edge -> Prop) `{forall e, Decision (P e)} (es : edges) a b :
  edge_rel (filter P es) a b -> edge_rel es a b.
Proof. intros (e & [_ He]%list_elem_of_filter & ?). by exists e. Qed.

Lemma functional_perm es es' : es ≡ₚ es' -> functional es -> functional es'.
Proof. unfold functional. by intros ->. Qed.

Lemma functional_cons e es : functional (e :: es) -> functional es /\
  forall e', e' ∈ es -> e_caller e' <> e_caller e.
Proof.
  unfold functional. simpl. intros [Hn ?]%NoDup_cons. split; [done|].
  intros e' He' Heq. apply Hn. rewrite <- Heq. by apply list_elem_of_fmap_2.
Qed.

Lemma functional_unique es e e' :
  functional es -> e ∈ es -> e' ∈ es -> e_caller e = e_caller e' -> e = e'.
Proof.
  intros Hf [i Hi]%list_elem_of_lookup [j Hj]%list_elem_of_lookup Heq.
  assert (i = j) as ->; [|congruence].
  eapply (proj1 (NoDup_alt _) Hf i j (e_caller e)); rewrite list_lookup_fmap.
  - by rewrite Hi.
  - by rewrite Hj, Heq.
Qed.

Lemma next_callee_spec es a b : functional es -> next_callee es a = Some b <-> edge_rel es a b.
Proof.
  intros Hf. unfold next_callee. destruct (list_find _ es) as [[i e]|] eqn:E; simpl.
  - apply list_find_Some in E as (Hi & Hc & _). apply list_elem_of_lookup_2 in Hi. split.
    + intros ?; simplify_eq. by exists e.
    + intros (e' & He' & Ha & Hb). f_equal. rewrite <- Hb. f_equal.
      eapply functional_unique; [done..|]. congruence.
  - apply list_find_None in E. split; [done|]. intros (e & He & Ha & _).
    rewrite Forall_forall in E. by destruct (E e He).
Qed.

(** [k] hops along first edges. *)
Fixpoint hops (es : edges) (k : nat) (a : chan) : option chan :=
  match k with 0 => Some a | S k' => next_callee es a ≫= hops es k' end.

Lemma hops_add es i j a b : hops es i a = Some b -> hops es (i + j) a = hops es j b.
Proof.
  revert a. induction i as [|i IH]; simpl; intros a Hi; [by simplify_eq|].
  destruct (next_callee es a); simpl in *; [by apply IH|done].
Qed.

Lemma hops_none es i j a : hops es i a = None -> hops es (i + j) a = None.
Proof.
  revert a. induction i as [|i IH]; simpl; intros a; [done|].
  destruct (next_callee es a); simpl; [apply IH|done].
Qed.

Lemma walk_hops es h a t : walk es h a t = true <-> exists k, 1 <= k <= h /\ hops es k a = Some t.
Proof.
  revert a. induction h as [|h IH]; intros a; simpl; [split; [done|]; intros (?&?&?); lia|].
  destruct (next_callee es a) as [c|] eqn:E.
  2: { split; [done|]. intros ([|k] & ? & Hk); [lia|]. simpl in Hk. by rewrite E in Hk. }
  case_decide as Hct.
  - split; [|done]. intros _. exists 1. subst. simpl. rewrite E. split; [lia|done].
  - rewrite IH. split.
    + intros (k & ? & Hk). exists (S k). simpl. rewrite E. split; [lia|done].
    + intros ([|k] & ? & Hk); [lia|]. simpl in Hk. rewrite E in Hk. simpl in Hk.
      exists k. split; [|done]. destruct k; [|lia]. simpl in Hk. by simplify_eq.
Qed.

Lemma hops_tc es a t : functional es -> tc (edge_rel es) a t <-> exists k, 1 <= k /\ hops es k a = Some t.
Proof.
  intros Hf. split.
  - induction 1 as [x y H%next_callee_spec|x y z H%next_callee_spec _ (k & ? & Hk)]; [|done| |done].
    + exists 1. simpl. by rewrite H.
    + exists (S k). simpl. rewrite H. split; [lia|done].
  - intros (k & Hk1 & Hk). revert a Hk1 Hk. induction k as [|k IH]; intros a ? Hk; [lia|].
    simpl in Hk. destruct (next_callee es a) as [c|] eqn:E; [|done]. simpl in Hk.
    apply next_callee_spec in E; [|done]. destruct k as [|k].
    + simpl in Hk. simplify_eq. by apply tc_once.
    + eapply tc_l; [done|]. apply IH; [lia|done].
Qed.

(** A target reached at all is reached within one hop per edge: a longer walk
    visits some caller twice and can be cut. *)
Lemma hops_short es a t k : hops es k a = Some t -> 1 <= k ->
  exists k', 1 <= k' <= length es /\ hops es k' a = Some t.
Proof.
  induction k as [k IH] using lt_wf_ind; intros Hk Hk1.
  destruct (decide (k <= length es)); [by exists k|].
  set (l := map (fun i => hops es i a) (seq 0 (S (length es)))).
  destruct (decide (NoDup l)) as [Hnd|Hdup].
  - exfalso. assert (Hlen : length l <= length (map (Some ∘ e_caller) es)).
    { apply NoDup_length_le; [done|]. intros o (i & -> & Hi%elem_of_seq)%list_elem_of_fmap.
      destruct (hops es i a) as [c|] eqn:Ei.
      - replace k with (i + S (k - S i)) in Hk by lia. rewrite (hops_add _ _ _ _ _ Ei) in Hk.
        simpl in Hk. unfold next_callee in Hk. destruct (list_find _ es) as [[j e]|] eqn:E; [|done].
        apply list_find_Some in E as (Hj%list_elem_of_lookup_2 & <- & _).
        by apply (list_elem_of_fmap_2 (Some ∘ e_caller)).
      - replace k with (i + (k - i)) in Hk by lia. by rewrite hops_none in Hk. }
    unfold l in Hlen. rewrite !length_map, length_seq in Hlen. lia.
  - apply not_NoDup_positions in Hdup as (i & j & o & Hij & Hi & Hj).
    unfold l in Hi, Hj. rewrite list_lookup_fmap in Hi, Hj.
    apply fmap_Some in Hi as (i' & [-> Hi']%lookup_seq & ->).
    apply fmap_Some in Hj as (j' & [-> Hj']%lookup_seq & Heq). simpl in *.
    assert (Hcut : hops es (i + (k - j)) a = Some t).
    { replace k with (j + (k - j)) in Hk by lia.
      destruct (hops es j a) as [c|] eqn:Ej.
      - rewrite (hops_add _ _ _ _ _ Ej) in Hk. by rewrite (hops_add _ _ _ _ _ Heq).
      - by rewrite hops_none in Hk. }
    apply (IH (i + (k - j))); [lia|done|lia].
Qed.

(** The hop loop decides reachability in the recorded graph. *)
Lemma path_exists_spec es s t : functional es ->
  o9_path_exists_locked es (Some s) (Some t) = true <-> rtc (edge_rel es) s t.
Proof.
  intros Hf. unfold o9_path_exists_locked. case_decide as Hst; [by subst|].
  rewrite walk_hops. split.
  - intros (k & ? & Hk). apply tc_rtc, hops_tc; [done|]. exists k. split; [lia|done].
  - intros [->|Htc]%tc_rtc_or; [done|]. apply hops_tc in Htc as (k & ? & Hk); [|done].
    by eapply hops_short.
Qed.

Definition untouched (a : chan) (e : edge) : Prop := ~ (e_caller e = a \/ e_callee e = a).
#[export] Instance untouched_dec a e : Decision (untouched a e).
Proof. unfold untouched. apply _. Defined.

Lemma exit_loop_filter fuel i a es :
  length es - i <= fuel -> Forall (untouched a) (take i es) ->
  exit_loop fuel i a es ≡ₚ filter (untouched a) es.
Proof.
  assert (Hdone : forall es, length es <= i -> Forall (untouched a) (take i es) ->
    es ≡ₚ filter (untouched a) es).
  { intros l Hi HF. rewrite take_ge in HF by done. by rewrite list_filter_all. }
  revert i es Hdone. induction fuel as [|f IH]; intros i es Hdone Hf HF; simpl.
  - apply Hdone; [lia|done].
  - destruct (es !! i) as [e|] eqn:Ei; [|by apply Hdone; [apply lookup_ge_None|]].
    pose proof (lookup_lt_Some _ _ _ Ei). case_decide as He.
    + rewrite (swap_remove_perm es i e Ei) at 2. rewrite filter_cons_False by (intros Hu; by apply Hu).
      apply IH; [done|rewrite swap_remove_length; lia|by rewrite swap_remove_take].
    + apply IH; [|lia|].
      * intros l Hl HF'. rewrite take_ge in HF' by done. by rewrite list_filter_all.
      * rewrite (take_S_r _ _ _ Ei). apply Forall_app. split; [done|]. by constructor.
Qed.

Section dag_facts.
Variable fmt_p : chan -> bytes.
Notation begin := (o9_dag_call_begin fmt_p).

(** What a recording call appends. *)
Definition new_edge (caller callee : chan) (oid meth : option bytes) (c : ProcCtx) : edge :=
  MkEdge caller callee
    (snprint 64 (match cx_actor_oid c with [] => fmt_p caller | o => o end))
    (snprint 64 (match oid with None | Some [] => fmt_p callee | Some o => o end))
    (match meth with Some m => snprint 64 m | None => [] end).

Lemma begin_cases a b oid meth c es : functional es -> cx_actor_chan c = Some a ->
  (rtc (edge_rel es) b a /\ exists c', begin (Some b) oid meth c es = ((-1)%Z, c', es)) \/
  (~ rtc (edge_rel es) b a /\
   begin (Some b) oid meth c es =
     (0%Z, c, if decide (length es < O9_MAX_CALL_EDGES) then es ++ [new_edge a b oid meth c] else es)).
Proof.
  intros Hf Ha. unfold o9_dag_call_begin. rewrite Ha. case_decide as Hab.
  { left. subst. split; [done|by eexists]. }
  pose proof (path_exists_spec es b a Hf) as Hp.
  destruct (o9_path_exists_locked es (Some b) (Some a)).
  - left. split; [by apply Hp|by eexists].
  - right. split; [by rewrite <- Hp|]. by case_decide.
Qed.

Lemma call_end_perm a b c es : functional es -> cx_actor_chan c = Some a ->
  (forall e, e ∈ es -> e_caller e = a -> e_callee e = b) ->
  o9_dag_call_end (Some b) c es ≡ₚ filter (fun e => e_caller e <> a) es.
Proof.
  intros Hf Ha Hb. unfold o9_dag_call_end. rewrite Ha.
  destruct (list_find _ es) as [[i e]|] eqn:E.
  - apply list_find_Some in E as (Hi & [Hea Heb] & _).
    pose proof (swap_remove_perm es i e Hi) as Hp.
    rewrite Hp at 2. rewrite filter_cons_False by auto.
    apply (functional_perm _ _ Hp) in Hf. apply functional_cons in Hf as [_ Hne].
    rewrite list_filter_all; [done|]. apply Forall_forall. intros e' He'.
    rewrite <- Hea. auto.
  - apply list_find_None in E. rewrite Forall_forall in E.
    rewrite list_filter_all; [done|]. apply Forall_forall. intros e He Heq.
    by destruct (E e He); auto.
Qed.

Record inv (s : sys) : Prop := {
  inv_functional : functional (s_edges s);
  inv_acyclic : acyclic (edge_rel (s_edges s));
  inv_call : forall e, e ∈ s_edges s ->
    exists o, s_calls s !! e_caller e = Some (e_callee e, o);
  inv_waits : s_dropped s = false ->
    forall a b, waits s a b -> edge_rel (s_edges s) a b;
  inv_room : length (s_edges s) <= O9_MAX_CALL_EDGES }.

(** Keeping a subset of the edges, in any order. *)
Lemma shrink_functional (P : edge -> Prop) `{forall e, Decision (P e)} (es es' : edges) :
  es' ≡ₚ filter P es -> functional es -> functional es'.
Proof.
  intros Hp Hf. eapply functional_perm; [by symmetry|]. unfold functional in *.
  eapply sublist_NoDup; [done|]. apply fmap_sublist, sublist_filter.
Qed.

Lemma shrink_rel (P : edge -> Prop) `{forall e, Decision (P e)} (es es' : edges) a b :
  es' ≡ₚ filter P es -> edge_rel es' a b -> edge_rel es a b.
Proof. intros Hp He. eapply edge_rel_filter, edge_rel_perm; done. Qed.

Lemma shrink_length (P : edge -> Prop) `{forall e, Decision (P e)} (es es' : edges) :
  es' ≡ₚ filter P es -> length es' <= length es.
Proof. intros ->. apply length_filter. Qed.

Lemma inv_begin s a b oid meth rc c' es' :
  inv s -> s_calls s !! a = None ->
  begin (Some b) oid meth (actor_ctx a) (s_edges s) = (rc, c', es') ->
  inv (if decide (rc = 0%Z)
       then MkSys es' (<[a := (b, true)]> (s_calls s))
              (s_dropped s || bool_decide (O9_MAX_CALL_EDGES <= length (s_edges s)))
       else MkSys es' (s_calls s) (s_dropped s)).
Proof.
  intros [Hf Hac Hc Hw Hr] Ha Hb.
  assert (Hna : forall e, e ∈ s_edges s -> e_caller e <> a).
  { intros e (o & Ho)%Hc Hea. congruence. }
  destruct (begin_cases a b oid meth (actor_ctx a) _ Hf eq_refl) as [[_ [c Hbe]]|[Hba Hbe]];
    rewrite Hbe in Hb; simplify_eq; [by destruct s|].
  rewrite decide_True by done. case_decide as Hlt.
  - assert (Hrel : forall u v, edge_rel (s_edges s ++ [new_edge a b oid meth (actor_ctx a)]) u v ->
      edge_rel (s_edges s) u v \/ (u = a /\ v = b)).
    { intros u v (e & [He|He%list_elem_of_singleton]%elem_of_app & <- & <-);
        [left; by exists e|right; by subst]. }
    split; simpl.
    + unfold functional in *. rewrite map_app. apply NoDup_app. split_and!; [done| |apply NoDup_singleton].
      intros x (e & -> & He)%list_elem_of_fmap Hx%list_elem_of_singleton. by apply (Hna e).
    + by eapply acyclic_add_edge.
    + intros e [He| ->%list_elem_of_singleton]%elem_of_app; simpl.
      * rewrite lookup_insert_ne by (apply not_eq_sym; auto). auto.
      * rewrite lookup_insert_eq. by eexists.
    + intros [Hd _]%orb_false_iff u v. unfold waits. simpl.
      intros [[<- ?]|[? Hu]]%lookup_insert_Some; simplify_eq.
      * eexists. split; [apply elem_of_app; right; by apply list_elem_of_singleton|done].
      * destruct (Hw Hd u v Hu) as (e & ? & ?). exists e. split; [apply elem_of_app; auto|done].
    + rewrite length_app. simpl. lia.
  - split; simpl; try done.
    + intros e He. rewrite lookup_insert_ne by (apply not_eq_sym; auto). auto.
    + rewrite bool_decide_true, orb_true_r by lia. done.
Qed.

Lemma inv_shrink s (P : edge -> Prop) `{forall e, Decision (P e)} (es' : edges) calls' :
  inv s -> es' ≡ₚ filter P (s_edges s) ->
  (forall e, e ∈ s_edges s -> P e ->
     forall o, s_calls s !! e_caller e = Some (e_callee e, o) ->
     exists o', calls' !! e_caller e = Some (e_callee e, o')) ->
  (forall a b, calls' !! a = Some (b, true) -> waits s a b /\
     forall e, e_caller e = a -> e_callee e = b -> P e) ->
  inv (MkSys es' calls' (s_dropped s)).
Proof.
  intros [Hf Hac Hc Hw Hr] Hp Hcalls Hwaits. split; simpl.
  - by eapply shrink_functional.
  - eapply acyclic_mono; [|done]. intros. by eapply shrink_rel.
  - intros e. rewrite Hp. intros [HP He]%list_elem_of_filter. destruct (Hc e He) as [o Ho]. eauto.
  - intros Hd a b [Hab HP]%Hwaits. destruct (Hw Hd a b Hab) as (e & He & ? & ?).
    exists e. rewrite Hp. split; [|done]. apply list_elem_of_filter. auto.
  - apply shrink_length in Hp. lia.
Qed.

Lemma inv_step s s' : inv s -> step fmt_p s s' -> inv s'.
Proof.
  intros Hinv Hst. destruct Hst as [a b oid meth rc c' es' s Ha Hb|a b s Ha|a b o s Ha|a s l Ha].
  - by eapply inv_begin.
  - destruct Hinv as [Hf Hac Hc Hw Hr]. split; simpl; try done.
    + intros e (o & He)%Hc. destruct (decide (e_caller e = a)) as [<-|].
      * rewrite lookup_insert_eq. rewrite Ha in He. simplify_eq. by eexists.
      * rewrite lookup_insert_ne by done. by eexists.
    + intros Hd u v. unfold waits. simpl.
      intros [[<- ?]|[? Hu]]%lookup_insert_Some; simplify_eq. by apply Hw.
  - eapply inv_shrink with (P := fun e => e_caller e <> a); [done| | |].
    + apply call_end_perm; [apply Hinv|done|]. intros e He Hea.
      destruct (inv_call _ Hinv e He) as [o' Ho]. congruence.
    + intros e He Hea o' Ho. exists o'. by rewrite lookup_delete_ne by auto.
    + intros u v [? ?]%lookup_delete_Some. split; [done|]. by intros e <- _ ?.
  - eapply inv_shrink with (P := untouched a); [done| | |].
    + simpl. apply exit_loop_filter; [lia|constructor].
    + intros e He Hun o Ho. rewrite lookup_fmap, Ho. simpl. case_decide; by eexists.
    + intros u v. rewrite lookup_fmap, fmap_Some. intros ([v' o] & Huv & Heq). simpl in *.
      case_decide; simplify_eq. split; [done|]. intros e Hu Hv [?|?]; congruence.
Qed.

Lemma inv_reach s : reach fmt_p s -> inv s.
Proof.
  intros H. eapply (rtc_ind_r (R := step fmt_p) inv sys0); [|intros; by eapply inv_step|done].
  split; simpl.
  - constructor.
  - intros a Ha. by destruct Ha as [? ? (?&?%elem_of_nil&?)|? ? ? (?&?%elem_of_nil&?)].
  - by intros e ?%elem_of_nil.
  - intros _ a b. unfold waits. simpl. by rewrite lookup_empty.
  - lia.
Qed.
End dag_facts.

(** ** Theorems *)

(** C1: while no edge was dropped for lack of room, actors never wait for each
    other in a cycle: whatever synchronous calls, replies, returns and actor
    exits happen in whatever order, no chain of callers that are still owed a
    reply leads back to its start.  The recorded graph is acyclic always. *)
Theorem no_call_deadlock fmt_p s : reach fmt_p s ->
  acyclic (edge_rel (s_edges s)) /\ (s_dropped s = false -> acyclic (waits s)).
Proof.
  intros [Hf Hac Hc Hw _]%inv_reach. split; [done|].
  intros Hd. eapply acyclic_mono; [by apply Hw|done].
Qed.

(** C23: [o9_dag_call_begin] refuses a call exactly when the callee already
    leads back to the caller in the recorded graph (the caller itself
    included), and otherwise records the edge if the table has room; the
    [o9_ncall_edges]-hop search is complete. *)
Theorem call_begin_exact fmt_p s a b oid meth c : reach fmt_p s -> cx_actor_chan c = Some a ->
  let '(rc, c', es') := o9_dag_call_begin fmt_p (Some b) oid meth c (s_edges s) in
  (rc = (-1)%Z <-> rtc (edge_rel (s_edges s)) b a) /\
  (rc = (-1)%Z -> es' = s_edges s) /\
  (rc <> (-1)%Z -> rc = 0%Z /\ c' = c /\
     es' = if decide (length (s_edges s) < O9_MAX_CALL_EDGES)
           then s_edges s ++ [new_edge fmt_p a b oid meth c] else s_edges s).
Proof.
  intros Hs Ha. pose proof (inv_functional _ (inv_reach _ _ Hs)) as Hf.
  destruct (begin_cases fmt_p a b oid meth c _ Hf Ha) as [(Hr & c' & ->)|(Hr & ->)];
    split_and!; (split || intros ?); try done.
Qed.

(** An actor's exit removes exactly the edges that touch it, and a caller's
    return exactly its own edge, whatever order the swap-with-last leaves. *)
Theorem call_edges_removed fmt_p s a : reach fmt_p s ->
  (forall l, (o9_dag_actor_exit (Some a) (s_edges s) l).1 ≡ₚ filter (untouched a) (s_edges s)) /\
  (forall b o c, s_calls s !! a = Some (b, o) -> cx_actor_chan c = Some a ->
     o9_dag_call_end (Some b) c (s_edges s) ≡ₚ filter (fun e => e_caller e <> a) (s_edges s)).
Proof.
  intros Hinv%inv_reach. split; [intros l; apply exit_loop_filter; [lia|constructor]|].
  intros b o c Ha Hc. apply call_end_perm; [apply Hinv|done|]. intros e He Hea.
  destruct (inv_call _ Hinv e He) as [o' Ho]. congruence.
Qed.

(** The table is bounded and a call that finds it full is admitted without an
    edge, so two actors can then call each other and block forever. *)
Fixpoint begin_all (l : list (chan * chan)) (s : sys) : option sys :=
  match l with
  | [] => Some s
  | (a, b) :: l' =>
      match s_calls s !! a, o9_dag_call_begin (fun _ => []) (Some b) None None (actor_ctx a) (s_edges s) with
      | None, (rc, _, es') =>
          if decide (rc = 0%Z) then
            begin_all l' (MkSys es' (<[a := (b, true)]> (s_calls s))
                            (s_dropped s || bool_decide (O9_MAX_CALL_EDGES <= length (s_edges s))))
          else None
      | Some _, _ => None
      end
  end.

Lemma begin_all_reach l s s' : begin_all l s = Some s' -> rtc (step (fun _ => [])) s s'.
Proof.
  revert s. induction l as [|[a b] l IH]; cbn [begin_all]; intros s; [by intros [= ->]|].
  destruct (s_calls s !! a) eqn:Ha; [done|].
  destruct (o9_dag_call_begin (fun _ => []) (Some b) None None (actor_ctx a) (s_edges s)) as [[rc c'] es'] eqn:E. case_decide as Hrc; [|done].
  intros Hl. eapply rtc_l; [|by apply IH].
  pose proof (StepBegin (fun _ => []) a b None None rc c' es' s Ha E) as Hst.
  by rewrite decide_True in Hst.
Qed.

Definition crowd : list (chan * chan) :=
  ((fun i => (Pos.of_nat (10 + i), 3%positive)) <$> seq 0 1024) ++ [(1%positive, 2%positive); (2%positive, 1%positive)].

Lemma full_table_admits_deadlock :
  exists s, reach (fun _ => []) s /\ waits s 1%positive 2%positive /\ waits s 2%positive 1%positive.
Proof.
  assert (H : (fun s => (s_calls s !! 1%positive, s_calls s !! 2%positive)) <$> begin_all crowd sys0
    = Some (Some (2%positive, true), Some (1%positive, true))) by (vm_compute; reflexivity).
  apply fmap_Some in H as (s & Hs%begin_all_reach & Heq).
  exists s. split; [exact Hs|]. unfold waits. by simplify_eq.
Qed.

(** A callee that has replied is refused a call back to a caller that has not
    been scheduled yet, although nobody waits. *)
Lemma replied_callee_refused fmt_p : exists s, reach fmt_p s /\
  (forall a b, ~ waits s a b) /\ s_calls s !! 2%positive = None /\
  (o9_dag_call_begin fmt_p (Some 1%positive) None None (actor_ctx 2%positive) (s_edges s)).1.1 = (-1)%Z.
Proof.
  eexists. split.
  - eapply rtc_l; [eapply (StepBegin _ 1%positive 2%positive None None); [apply lookup_empty|reflexivity]|].
    eapply rtc_l; [apply (StepReply _ 1%positive 2%positive); reflexivity|apply rtc_refl].
  - split_and!; [|reflexivity..]. intros a b. unfold waits. simpl.
    rewrite insert_insert_eq. by intros [[_ ?]|[_ ?]]%lookup_insert_Some; simplify_eq.
Qed.

(** ** Witnesses *)

(** Actor 1 is blocked in a call to 2, which is blocked in a call to 3. *)
Definition two_calls : sys := default sys0 (begin_all [(1%positive, 2%positive); (2%positive, 3%positive)] sys0).

Lemma two_calls_reach : reach (fun _ => []) two_calls.
Proof. apply (begin_all_reach [(1%positive, 2%positive); (2%positive, 3%positive)]). reflexivity. Qed.

Lemma no_call_deadlock_witness :
  waits two_calls 1%positive 2%positive /\ acyclic (waits two_calls).
Proof.
  split; [reflexivity|]. apply (no_call_deadlock (fun _ => []) two_calls two_calls_reach). reflexivity.
Defined.

Lemma call_begin_exact_witness :
  (o9_dag_call_begin (fun _ => []) (Some 1%positive) None None (actor_ctx 3%positive) (s_edges two_calls)).1.1 = (-1)%Z
  /\ rtc (edge_rel (s_edges two_calls)) 1%positive 3%positive.
Proof.
  split; [reflexivity|].
  apply (call_begin_exact (fun _ => []) two_calls 3%positive 1%positive None None (actor_ctx 3%positive)
           two_calls_reach eq_refl). reflexivity.
Defined.

Lemma call_edges_removed_witness :
  s_calls two_calls !! 1%positive = Some (2%positive, true) /\
  o9_dag_call_end (Some 2%positive) (actor_ctx 1%positive) (s_edges two_calls)
    ≡ₚ filter (fun e => e_caller e <> 1%positive) (s_edges two_calls).
Proof.
  split; [reflexivity|].
  apply (proj2 (call_edges_removed (fun _ => []) two_calls 1%positive two_calls_reach)
           2%positive true (actor_ctx 1%positive)); reflexivity.
Defined.
