(* ===== verification/ObjTable.v ===== *)
(** * The router's object table ([o9_objtab_*] in [o9_runtime.c])

    A fixed array of 256 entries behind an open-addressing index of 256
    slots ([-1] never used, [-2] deleted, otherwise an entry index), and the
    [u32int] handles [(gen << 16) | index].  Each operation holds the table
    lock, so it is one function; pointers are [positive]s, nil is [None]. *)
From S2P Require Import Prelude.

Open Scope Z_scope.

Abbreviation ptr := positive.

Definition O9_MAX_OBJECTS : nat := 256.

(** [o9_hash]: [c] is an [int] read through [char*]; the result keeps 32 bits. *)
Definition o9_hash_step (h : Z) (c : byte) : Z := u32 (Z.shiftl h 5 + h + schar c).
Definition o9_hash (s : bytes) : Z := fold_left o9_hash_step (cstr s) 5381.

Record O9ObjEntry := MkEntry {
  en_gen : Z; en_active : bool; en_class : bytes; en_oid : bytes;
  en_inst : option ptr; en_chan : option ptr; en_mb : option ptr }.

Record objtab := MkTab {
  ot_entries : list O9ObjEntry; ot_hash : list Z; ot_inited : bool }.

Definition entry0 : O9ObjEntry := MkEntry 0 false [] [] None None None.

(** Static storage is zero. *)
Definition objtab0 : objtab :=
  MkTab (replicate O9_MAX_OBJECTS entry0) (replicate O9_MAX_OBJECTS 0) false.

Definition entry_at (t : objtab) (i : Z) : O9ObjEntry := default entry0 (ot_entries t !! Z.to_nat i).
Definition set_entry (i : Z) (e : O9ObjEntry) (t : objtab) : objtab :=
  MkTab (<[Z.to_nat i := e]> (ot_entries t)) (ot_hash t) (ot_inited t).
Definition set_slot (s : nat) (v : Z) (t : objtab) : objtab :=
  MkTab (ot_entries t) (<[s := v]> (ot_hash t)) (ot_inited t).

Definition objtab_init (t : objtab) : objtab :=
  if ot_inited t then t
  else MkTab (ot_entries t) (replicate O9_MAX_OBJECTS (-1)) true.

Definition hash_index (class oid : bytes) : Z :=
  Z.land (Z.lxor (o9_hash class) (o9_hash oid)) (Z.of_nat O9_MAX_OBJECTS - 1).

(** [(h + step) & (O9_MAX_OBJECTS - 1)] *)
Definition slot_idx (h : Z) (step : nat) : nat :=
  Z.to_nat (Z.land (h + Z.of_nat step) (Z.of_nat O9_MAX_OBJECTS - 1)).

(** [(gen << 16) | (u32int)(i & 0xFFFF)] in 32 bits. *)
Definition handle_of (gen i : Z) : Z := u32 (Z.lor (Z.shiftl gen 16) (Z.land i 65535)).

Definition entry_is (class oid : bytes) (e : O9ObjEntry) : bool :=
  en_active e && (en_class e =? class)%c && (en_oid e =? oid)%c.

Inductive probe_res :=
  | Found (slot : nat) (i : Z)
  | Missing (free_slot : option nat).

(** The probing loop of [o9_objtab_register]; [n] counts the steps left. *)
Fixpoint reg_probe (t : objtab) (class oid : bytes) (h : Z) (n step : nat) (free : option nat) : probe_res :=
  match n with
  | O => Missing free
  | S n' =>
      let s := slot_idx h step in
      let i := default (-1) (ot_hash t !! s) in
      let free' := match free with None => Some s | Some _ => free end in
      if decide (i = -1) then Missing free'
      else if decide (i = -2) then reg_probe t class oid h n' (S step) free'
      else if entry_is class oid (entry_at t i) then Found s i
      else reg_probe t class oid h n' (S step) free
  end.

Definition or_else {A} (new old : option A) : option A :=
  match new with Some _ => new | None => old end.

Definition o9_objtab_register (class oid : option bytes) (inst dchan : option ptr) (t : objtab) : Z * objtab :=
  match class, oid with
  | Some class, Some oid =>
      let t := objtab_init t in
      match reg_probe t class oid (hash_index class oid) O9_MAX_OBJECTS 0 None with
      | Found _ i =>
          let e := entry_at t i in
          (handle_of (en_gen e) i,
           set_entry i (MkEntry (en_gen e) (en_active e) (en_class e) (en_oid e)
                          (or_else inst (en_inst e)) (or_else dchan (en_chan e)) (en_mb e)) t)
      | Missing None => (0, t)
      | Missing (Some free_slot) =>
          match list_find (fun e => en_active e = false) (ot_entries t) with
          | None => (0, t)
          | Some (i, e) =>
              let g := u32 (en_gen e + 1) in
              let gen := if decide (g = 0) then 1 else g in
              (handle_of gen (Z.of_nat i),
               set_entry (Z.of_nat i) (MkEntry gen true (strncpy 64 class) (strncpy 64 oid) inst dchan None)
                 (set_slot free_slot (Z.of_nat i) t))
          end
      end
  | _, _ => (0, t)
  end.

Definition o9_objtab_resolve (handle : Z) (t : objtab) : option (Z * O9ObjEntry) :=
  if decide (handle = 0) then None
  else
    let i := Z.land handle 65535 in
    let gen := Z.shiftr handle 16 in
    if decide (i < 0 \/ Z.of_nat O9_MAX_OBJECTS <= i) then None
    else let e := entry_at t i in
         if en_active e && bool_decide (en_gen e = gen) then Some (i, e) else None.

(** The probing loop of [o9_objtab_unregister]. *)
Fixpoint unreg_probe (t : objtab) (class oid : bytes) (h : Z) (n step : nat) : option (nat * Z) :=
  match n with
  | O => None
  | S n' =>
      let s := slot_idx h step in
      let i := default (-1) (ot_hash t !! s) in
      if decide (i = -1) then None
      else if decide (0 <= i) then
        if entry_is class oid (entry_at t i) then Some (s, i)
        else unreg_probe t class oid h n' (S step)
      else unreg_probe t class oid h n' (S step)
  end.

Definition o9_objtab_unregister (class oid : option bytes) (t : objtab) : objtab :=
  match class, oid with
  | Some class, Some oid =>
      if ot_inited t then
        match unreg_probe t class oid (hash_index class oid) O9_MAX_OBJECTS 0 with
        | Some (s, i) =>
            let e := entry_at t i in
            set_slot s (-2)
              (set_entry i (MkEntry (u32 (en_gen e + 1)) false (en_class e) (en_oid e) None None None) t)
        | None => t
        end
      else t
  | _, _ => t
  end.

(** ** Specification *)

(** A class or object name that fits the 64-byte fields. *)
Definition short (n : bytes) : Prop := is_cstr n /\ (length n < 64)%nat.

(** The live entry of a key: the finite map the table implements. *)
Definition objtab_get (t : objtab) (class oid : bytes) : option (Z * O9ObjEntry) :=
  (fun p => (Z.of_nat p.1, p.2)) <$> list_find (fun e => entry_is class oid e = true) (ot_entries t).

Definition hash_at (t : objtab) (s : nat) : Z := default (-1) (ot_hash t !! s).

Definition en_index (e : O9ObjEntry) : Z := hash_index (en_class e) (en_oid e).

(** The generation is 32 bits wide, and never 0 on a live entry. *)
Definition gen_ok (e : O9ObjEntry) : Prop :=
  0 <= en_gen e < 2 ^ 32 /\ (en_active e = true -> en_gen e <> 0).

Record wf (t : objtab) : Prop := {
  wf_init : ot_inited t = true;
  wf_entries : length (ot_entries t) = O9_MAX_OBJECTS;
  wf_hash : length (ot_hash t) = O9_MAX_OBJECTS;
  (* a slot is empty, deleted, or names an active entry *)
  wf_slot : forall s, (s < O9_MAX_OBJECTS)%nat -> hash_at t s = -1 \/ hash_at t s = -2 \/
    exists i e, hash_at t s = Z.of_nat i /\ ot_entries t !! i = Some e /\ en_active e = true;
  wf_inj : forall s s', (s < O9_MAX_OBJECTS)%nat -> (s' < O9_MAX_OBJECTS)%nat ->
    0 <= hash_at t s -> hash_at t s = hash_at t s' -> s = s';
  (* every active entry is on its own probe path, with no gap before it *)
  wf_probe : forall i e, ot_entries t !! i = Some e -> en_active e = true ->
    exists k, (k < O9_MAX_OBJECTS)%nat /\ hash_at t (slot_idx (en_index e) k) = Z.of_nat i /\
      forall j, (j < k)%nat -> hash_at t (slot_idx (en_index e) j) <> -1;
  wf_uniq : forall i j e e', ot_entries t !! i = Some e -> ot_entries t !! j = Some e' ->
    en_active e = true -> en_active e' = true ->
    en_class e = en_class e' -> en_oid e = en_oid e' -> i = j;
  wf_gen : forall i e, ot_entries t !! i = Some e -> gen_ok e }.

(** ** Lemmas *)

Lemma slot_idx_mod h k : slot_idx h k = Z.to_nat ((h + Z.of_nat k) mod 256).
Proof. unfold slot_idx. by rewrite (Z.land_ones _ 8) by lia. Qed.

Lemma slot_idx_lt h k : (slot_idx h k < O9_MAX_OBJECTS)%nat.
Proof.
  rewrite slot_idx_mod. pose proof (Z.mod_pos_bound (h + Z.of_nat k) 256). unfold O9_MAX_OBJECTS. lia.
Qed.

(** The 256 probes visit every slot. *)
Lemma slot_idx_surj h s : (s < O9_MAX_OBJECTS)%nat ->
  exists k, (k < O9_MAX_OBJECTS)%nat /\ slot_idx h k = s.
Proof.
  intros Hs. exists (Z.to_nat ((Z.of_nat s - h) mod 256)).
  pose proof (Z.mod_pos_bound (Z.of_nat s - h) 256 ltac:(lia)).
  rewrite slot_idx_mod, Z2Nat.id, Z.add_mod_idemp_r by lia. unfold O9_MAX_OBJECTS in *.
  split; [lia|]. replace (h + (Z.of_nat s - h)) with (Z.of_nat s) by lia.
  rewrite Z.mod_small; lia.
Qed.

Lemma entry_is_spec c o e :
  entry_is c o e = true <-> en_active e = true /\ en_class e = c /\ en_oid e = o.
Proof. unfold entry_is. rewrite !andb_true_iff, !streq_eq. tauto. Qed.

Lemma entry_at_nat t i e : ot_entries t !! i = Some e -> entry_at t (Z.of_nat i) = e.
Proof. unfold entry_at. rewrite Nat2Z.id. by intros ->. Qed.

Lemma hash_at_set_slot t s v s' : (s < length (ot_hash t))%nat ->
  hash_at (set_slot s v t) s' = if decide (s = s') then v else hash_at t s'.
Proof.
  intros Hs. unfold hash_at. simpl. case_decide as E; [subst; by rewrite list_lookup_insert_eq|].
  by rewrite list_lookup_insert_ne.
Qed.

Section get.
Variable t : objtab.
Hypothesis Hwf : wf t.

Lemma get_spec c o i e : objtab_get t c o = Some (i, e) <->
  exists n, i = Z.of_nat n /\ ot_entries t !! n = Some e /\ entry_is c o e = true.
Proof.
  unfold objtab_get. rewrite fmap_Some. split.
  - intros ([n e'] & (Hn & He & _)%list_find_Some & ?). simplify_eq/=. eauto.
  - intros (n & -> & Hn & He). exists (n, e). split; [|done].
    apply list_find_Some. split_and!; [done..|]. intros j e' Hj Hlt He'.
    apply entry_is_spec in He as (?&?&?), He' as (?&?&?).
    assert (n = j); [|lia]. eapply (wf_uniq t Hwf); eauto; congruence.
Qed.

Lemma get_none c o : objtab_get t c o = None <->
  forall n e, ot_entries t !! n = Some e -> entry_is c o e = false.
Proof.
  unfold objtab_get. rewrite fmap_None, list_find_None, Forall_lookup.
  split; intros H n e He; specialize (H n e He); destruct (entry_is c o e); done.
Qed.

(** What the probe has seen before a step. *)
Record seen (c o : bytes) (h : Z) (step : nat) (free : option nat) : Prop := {
  seen_live : forall j, (j < step)%nat -> hash_at t (slot_idx h j) <> -1;
  seen_other : forall j, (j < step)%nat -> 0 <= hash_at t (slot_idx h j) ->
    entry_is c o (entry_at t (hash_at t (slot_idx h j))) = false;
  seen_none : free = None -> forall j, (j < step)%nat -> 0 <= hash_at t (slot_idx h j);
  seen_free : forall s, free = Some s ->
    exists k, (k < step)%nat /\ s = slot_idx h k /\ hash_at t s = -2 }.

Lemma seen_step c o h step free free' :
  seen c o h step free ->
  hash_at t (slot_idx h step) <> -1 ->
  (0 <= hash_at t (slot_idx h step) ->
     entry_is c o (entry_at t (hash_at t (slot_idx h step))) = false) ->
  (free' = free /\ 0 <= hash_at t (slot_idx h step) \/
   hash_at t (slot_idx h step) = -2 /\
   free' = match free with None => Some (slot_idx h step) | Some _ => free end) ->
  seen c o h (S step) free'.
Proof.
  intros [Hl Ho Hn Hf] H1 H2 Hcase.
  assert (Hj : forall j, (j < S step)%nat -> (j < step)%nat \/ j = step) by lia.
  split.
  - intros j [?| ->]%Hj; auto.
  - intros j [?| ->]%Hj; auto.
  - intros -> j Hlt. destruct Hcase as [[<- ?]|[? E]]; [|by destruct free].
    apply Hj in Hlt as [?| ->]; auto.
  - intros s ->. destruct Hcase as [[? ?]|[? E]]; [|destruct free; simplify_eq].
    + destruct (Hf s) as (k & ? & ?); [done|]. exists k. split; [lia|done].
    + destruct (Hf _ eq_refl) as (k & ? & ?). exists k. split; [lia|done].
    + exists step. split; [lia|done].
Qed.

(** No live entry of the key can sit beyond what a finished probe saw. *)
Lemma seen_absent c o step free :
  seen c o (hash_index c o) step free ->
  step = O9_MAX_OBJECTS \/ hash_at t (slot_idx (hash_index c o) step) = -1 ->
  objtab_get t c o = None.
Proof.
  intros [Hl Ho _ _] Hend. apply get_none. intros n e Hn.
  destruct (entry_is c o e) eqn:He; [|done]. pose proof He as He'.
  apply entry_is_spec in He as (Ha & <- & <-).
  destruct (wf_probe t Hwf n e Hn Ha) as (k & Hk & Hs & Hp). unfold en_index in *.
  destruct (decide (k < step)%nat) as [Hks|Hks].
  - specialize (Ho k Hks). rewrite Hs, (entry_at_nat _ _ _ Hn) in Ho. rewrite <- He', Ho; [done|lia].
  - destruct Hend as [->|Hend]; [lia|].
    destruct (decide (k = step)) as [->|]; [lia|]. destruct (Hp step); [lia|done].
Qed.

Definition probe_spec (c o : bytes) (r : probe_res) : Prop :=
  match r with
  | Found s i => (s < O9_MAX_OBJECTS)%nat /\ hash_at t s = i /\ 0 <= i /\
      objtab_get t c o = Some (i, entry_at t i)
  | Missing f => objtab_get t c o = None /\
      match f with
      | Some s => hash_at t s < 0 /\ exists k, (k < O9_MAX_OBJECTS)%nat /\ s = slot_idx (hash_index c o) k /\
          forall j, (j < k)%nat -> hash_at t (slot_idx (hash_index c o) j) <> -1
      | None => forall s, (s < O9_MAX_OBJECTS)%nat -> 0 <= hash_at t s
      end
  end.

Lemma found_spec c o s : (s < O9_MAX_OBJECTS)%nat -> 0 <= hash_at t s ->
  entry_is c o (entry_at t (hash_at t s)) = true ->
  objtab_get t c o = Some (hash_at t s, entry_at t (hash_at t s)).
Proof.
  intros Hs H0 He. destruct (wf_slot t Hwf s Hs) as [?|[?|(i & e & Hi & Hie & _)]]; [lia..|].
  apply get_spec. exists i. rewrite Hi in *. rewrite (entry_at_nat _ _ _ Hie) in *. auto.
Qed.

Lemma reg_probe_spec c o n step free :
  (n + step = O9_MAX_OBJECTS)%nat -> seen c o (hash_index c o) step free ->
  probe_spec c o (reg_probe t c o (hash_index c o) n step free).
Proof.
  revert step free. induction n as [|n IH]; intros step free Hn Hseen; simpl.
  - split; [eapply seen_absent; [done|left; lia]|]. destruct free as [s|].
    + destruct (seen_free _ _ _ _ _ Hseen s eq_refl) as (k & ? & -> & Hs).
      split; [lia|]. exists k. split_and!; [lia|done|]. intros j Hj. apply Hseen. lia.
    + intros s Hs. destruct (slot_idx_surj (hash_index c o) s Hs) as (k & ? & <-).
      apply (seen_none _ _ _ _ _ Hseen eq_refl). lia.
  - change (default (-1) (ot_hash t !! slot_idx (hash_index c o) step))
      with (hash_at t (slot_idx (hash_index c o) step)).
    pose proof (slot_idx_lt (hash_index c o) step) as Hlt.
    case_decide as H1; [|case_decide as H2; [|destruct (entry_is c o _) eqn:He]].
    + split; [by eapply seen_absent; eauto|]. destruct free as [s|].
      * destruct (seen_free _ _ _ _ _ Hseen s eq_refl) as (k & ? & -> & Hs).
        split; [lia|]. exists k. split_and!; [lia|done|]. intros j Hj. apply Hseen. lia.
      * split; [lia|]. exists step. split_and!; [lia|done|]. apply Hseen.
    + apply IH; [lia|]. eapply seen_step; eauto; lia.
    + destruct (wf_slot t Hwf _ Hlt) as [?|[?|(i & e & Hi & _)]]; [done..|].
      split_and!; [done..|lia|]. apply found_spec; [done|lia|done].
    + apply IH; [lia|]. destruct (wf_slot t Hwf _ Hlt) as [?|[?|(i & e & Hi & _)]]; [done..|].
      eapply seen_step; eauto. left. split; [done|lia].
Qed.

Lemma seen_start c o : seen c o (hash_index c o) 0 None.
Proof. split; intros; lia || done. Qed.

Lemma unreg_probe_spec c o n step free :
  (n + step = O9_MAX_OBJECTS)%nat -> seen c o (hash_index c o) step free ->
  match unreg_probe t c o (hash_index c o) n step with
  | Some (s, i) => (s < O9_MAX_OBJECTS)%nat /\ hash_at t s = i /\ 0 <= i /\
      objtab_get t c o = Some (i, entry_at t i)
  | None => objtab_get t c o = None
  end.
Proof.
  revert step free. induction n as [|n IH]; intros step free Hn Hseen; simpl.
  - eapply seen_absent; [done|left; lia].
  - change (default (-1) (ot_hash t !! slot_idx (hash_index c o) step))
      with (hash_at t (slot_idx (hash_index c o) step)).
    pose proof (slot_idx_lt (hash_index c o) step) as Hlt.
    case_decide as H1; [|case_decide as H2; [destruct (entry_is c o _) eqn:He|]].
    + by eapply seen_absent; eauto.
    + split_and!; [done..|]. by apply found_spec.
    + eapply IH; [lia|]. eapply seen_step; eauto.
    + destruct (wf_slot t Hwf _ Hlt) as [?|[?|(i & e & Hi & _)]]; [done| |lia].
      eapply IH; [lia|]. eapply seen_step; eauto; lia.
Qed.
End get.

(** Looking an entry up in an updated table. *)
Lemma entries_set t i e' n e : (i < length (ot_entries t))%nat ->
  ot_entries (set_entry (Z.of_nat i) e' t) !! n = Some e <->
  (n = i /\ e = e') \/ (n <> i /\ ot_entries t !! n = Some e).
Proof.
  intros Hi. simpl. rewrite Nat2Z.id, list_lookup_insert_Some. naive_solver.
Qed.

Section updates.
Variable t : objtab.
Hypothesis Hwf : wf t.
Variables (i : nat) (e e' : O9ObjEntry).
Hypothesis Hi : ot_entries t !! i = Some e.
Hypothesis Hgen : gen_ok e'.

Lemma idx_lt : (i < length (ot_entries t))%nat.
Proof. by eapply lookup_lt_Some. Qed.

Lemma wf_update : en_active e' = en_active e -> en_class e' = en_class e -> en_oid e' = en_oid e ->
  wf (set_entry (Z.of_nat i) e' t).
Proof.
  intros Ha Hc Ho. destruct Hwf as [W1 W2 W3 W4 W5 W6 W7 W8]. pose proof idx_lt as Hlt.
  assert (Hback : forall n x, ot_entries (set_entry (Z.of_nat i) e' t) !! n = Some x ->
    exists y, ot_entries t !! n = Some y /\ en_active x = en_active y /\
      en_class x = en_class y /\ en_oid x = en_oid y).
  { intros n x [[-> ->]|[? ?]]%entries_set; [exists e|exists x|done]; auto. }
  split.
  - done.
  - simpl. by rewrite length_insert.
  - done.
  - intros s Hs. destruct (W4 s Hs) as [?|[?|(n & x & Hn & Hx & Hxa)]]; [auto..|]. do 2 right.
    destruct (decide (n = i)) as [->|Hne].
    + exists i, e'. rewrite entries_set by done. simplify_eq. split_and!; [done|auto|congruence].
    + exists n, x. rewrite entries_set by done. auto.
  - done.
  - intros n x (y & Hy & Ea & Ec & Eo)%Hback Hxa. unfold en_index. rewrite Ec, Eo.
    apply (W6 n y); congruence.
  - intros n m x z (y & Hy & ?&?&?)%Hback (w & Hw & ?&?&?)%Hback ????.
    apply (W7 n m y w); congruence.
  - intros n x [[-> ->]|[_ ?]]%entries_set; eauto.
Qed.

Lemma wf_insert s : en_active e = false -> en_active e' = true ->
  (s < O9_MAX_OBJECTS)%nat -> hash_at t s < 0 ->
  (exists k, (k < O9_MAX_OBJECTS)%nat /\ s = slot_idx (en_index e') k /\
     forall j, (j < k)%nat -> hash_at t (slot_idx (en_index e') j) <> -1) ->
  objtab_get t (en_class e') (en_oid e') = None ->
  wf (set_entry (Z.of_nat i) e' (set_slot s (Z.of_nat i) t)).
Proof.
  intros Hea Ha Hs Hneg (k & Hk & Hsk & Hpath) Hnone.
  pose proof (proj1 (get_none t _ _) Hnone) as Hother.
  destruct Hwf as [W1 W2 W3 W4 W5 W6 W7 W8]. pose proof idx_lt as Hlt.
  set (t' := set_entry _ _ _).
  assert (Hh : forall s', hash_at t' s' = if decide (s = s') then Z.of_nat i else hash_at t s').
  { intros s'. apply hash_at_set_slot. lia. }
  assert (Hent : forall n x, ot_entries t' !! n = Some x <->
    (n = i /\ x = e') \/ (n <> i /\ ot_entries t !! n = Some x)).
  { intros. by apply (entries_set (set_slot s (Z.of_nat i) t)). }
  assert (Hfresh : forall s', (s' < O9_MAX_OBJECTS)%nat -> hash_at t s' <> Z.of_nat i).
  { intros s' Hs' E. destruct (W4 s' Hs') as [?|[?|(n & x & Hn & Hx & Hxa)]]; [lia..|].
    assert (n = i) by lia. subst. congruence. }
  split.
  - done.
  - simpl. by rewrite length_insert.
  - simpl. by rewrite length_insert.
  - intros s' Hs'. rewrite Hh. case_decide; [do 2 right; exists i, e'; rewrite Hent; auto|].
    destruct (W4 s' Hs') as [?|[?|(n & x & Hn & Hx & Hxa)]]; [auto..|]. do 2 right.
    exists n, x. rewrite Hent. split_and!; [done| |done]. right. split; [|done].
    intros ->. congruence.
  - intros s1 s2 H1 H2. rewrite !Hh. repeat case_decide; subst; try done.
    + intros _ E. by destruct (Hfresh s2).
    + intros _ E. by destruct (Hfresh s1).
    + by apply W5.
  - intros n x [[-> ->]|[Hn Hx]]%Hent Hxa.
    + exists k. rewrite Hh, decide_True by done. split_and!; [done..|].
      intros j Hj. rewrite Hh. case_decide; [lia|auto].
    + destruct (W6 n x Hx Hxa) as (k' & Hk' & Hs' & Hp'). exists k'. rewrite Hh, decide_False.
      2: { intros ->. rewrite Hs' in Hneg. lia. }
      split_and!; [done..|]. intros j Hj. rewrite Hh. case_decide; [lia|auto].
  - intros n m x y [[-> ->]|[Hn Hx]]%Hent [[-> ->]|[Hm Hy]]%Hent Hxa Hya Ec Eo; [done| | |eauto].
    + specialize (Hother m y Hy). assert (entry_is (en_class e') (en_oid e') y = true); [|congruence].
      by apply entry_is_spec.
    + specialize (Hother n x Hx). assert (entry_is (en_class e') (en_oid e') x = true); [|congruence].
      by apply entry_is_spec.
  - intros n x [[-> ->]|[_ ?]]%Hent; eauto.
Qed.

Lemma wf_delete s : en_active e' = false -> (s < O9_MAX_OBJECTS)%nat -> hash_at t s = Z.of_nat i ->
  wf (set_slot s (-2) (set_entry (Z.of_nat i) e' t)).
Proof.
  intros Ha Hs Hsi. destruct Hwf as [W1 W2 W3 W4 W5 W6 W7 W8]. pose proof idx_lt as Hlt.
  set (t' := set_slot _ _ _).
  assert (Hh : forall s', hash_at t' s' = if decide (s = s') then -2 else hash_at t s').
  { intros s'. apply (hash_at_set_slot (set_entry (Z.of_nat i) e' t)). simpl. lia. }
  assert (Hent : forall n x, ot_entries t' !! n = Some x <->
    (n = i /\ x = e') \/ (n <> i /\ ot_entries t !! n = Some x)) by (intros; by apply entries_set).
  split.
  - done.
  - simpl. by rewrite length_insert.
  - simpl. by rewrite length_insert.
  - intros s' Hs'. rewrite Hh. case_decide as Hss; [auto|].
    destruct (W4 s' Hs') as [?|[?|(n & x & Hn & Hx & Hxa)]]; [auto..|]. do 2 right.
    exists n, x. rewrite Hent. split_and!; [done| |done]. right. split; [|done].
    intros ->. destruct Hss. apply W5; [done..|lia|congruence].
  - intros s1 s2 H1 H2. rewrite !Hh. repeat case_decide; subst; try done; [lia|]. by apply W5.
  - intros n x [[-> ->]|[Hn Hx]]%Hent Hxa; [congruence|].
    destruct (W6 n x Hx Hxa) as (k' & Hk' & Hs' & Hp'). exists k'. rewrite Hh, decide_False.
    2: { intros ->. rewrite Hs' in Hsi. lia. }
    split_and!; [done..|]. intros j Hj. rewrite Hh. case_decide; [lia|auto].
  - intros n m x y [[-> ->]|[Hn Hx]]%Hent [[-> ->]|[Hm Hy]]%Hent Hxa Hya Ec Eo; [done|congruence..|eauto].
  - intros n x [[-> ->]|[_ ?]]%Hent; eauto.
Qed.

(** What the map holds after an entry changed. *)
Lemma get_set (t' : objtab) : wf t' -> ot_entries t' = ot_entries (set_entry (Z.of_nat i) e' t) ->
  forall c o, objtab_get t' c o =
    if entry_is c o e' then Some (Z.of_nat i, e')
    else if entry_is c o e then None else objtab_get t c o.
Proof.
  intros Hwf' Heq c o. pose proof idx_lt as Hlt.
  assert (Hent : forall n x, ot_entries t' !! n = Some x <->
    (n = i /\ x = e') \/ (n <> i /\ ot_entries t !! n = Some x)).
  { intros. rewrite Heq. by apply entries_set. }
  destruct (entry_is c o e') eqn:E'; [apply get_spec; [done|]; exists i; rewrite Hent; auto|].
  destruct (entry_is c o e) eqn:E.
  - apply get_none. intros n x [[-> ->]|[Hn Hx]]%Hent; [done|].
    destruct (entry_is c o x) eqn:Ex; [|done]. destruct Hn.
    apply entry_is_spec in E as (?&?&?), Ex as (?&?&?). eapply (wf_uniq t Hwf); eauto; congruence.
  - destruct (objtab_get t c o) as [[j x]|] eqn:G.
    + apply get_spec in G as (n & -> & Hn & Hx); [|done]. apply get_spec; [done|].
      exists n. rewrite Hent. split_and!; [done| |done]. right. split; [|done]. intros ->. congruence.
    + apply get_none. intros n x [[-> ->]|[Hn Hx]]%Hent; [done|].
      by apply (proj1 (get_none t c o) G n).
Qed.
End updates.

(** 256 used slots mean 256 live entries. *)
Lemma full_index t : wf t -> (forall s, (s < O9_MAX_OBJECTS)%nat -> 0 <= hash_at t s) ->
  Forall (fun e => en_active e = true) (ot_entries t).
Proof.
  intros Hwf Hfull.
  set (l := (fun s => Z.to_nat (hash_at t s)) <$> seq 0 O9_MAX_OBJECTS).
  assert (Hval : forall s, (s < O9_MAX_OBJECTS)%nat -> exists i e, hash_at t s = Z.of_nat i /\
    ot_entries t !! i = Some e /\ en_active e = true).
  { intros s Hs. pose proof (Hfull s Hs). destruct (wf_slot t Hwf s Hs) as [?|[?|?]]; [lia..|done]. }
  assert (Hnd : NoDup l).
  { apply NoDup_fmap_2_strong; [|apply NoDup_seq]. intros a b Ha%elem_of_seq Hb%elem_of_seq E.
    apply (wf_inj t Hwf); [lia..|apply Hfull; lia|].
    pose proof (Hfull a ltac:(lia)). pose proof (Hfull b ltac:(lia)). lia. }
  assert (Hp : l ≡ₚ seq 0 O9_MAX_OBJECTS).
  { apply submseteq_length_Permutation; [|unfold l; by rewrite length_fmap].
    apply NoDup_submseteq; [done|]. intros x (s & -> & Hs%elem_of_seq)%list_elem_of_fmap.
    destruct (Hval s ltac:(lia)) as (i & e & Hi & He & _). apply lookup_lt_Some in He.
    rewrite (wf_entries t Hwf) in He. apply elem_of_seq. lia. }
  apply Forall_lookup. intros i e Hi.
  assert (Hin : i ∈ l).
  { rewrite Hp. apply elem_of_seq. apply lookup_lt_Some in Hi. rewrite (wf_entries t Hwf) in Hi. lia. }
  apply list_elem_of_fmap in Hin as (s & -> & Hs%elem_of_seq).
  destruct (Hval s ltac:(lia)) as (j & e' & Hj & He' & Ha). rewrite Hj, Nat2Z.id in Hi. by simplify_eq.
Qed.

(** ** The operations refine a finite map *)

(** The table as every operation after the first sees it. *)
Definition ok (t : objtab) : Prop := wf (objtab_init t).

Definition all_live (t : objtab) : Prop := Forall (fun e => en_active e = true) (ot_entries t).

(** The next generation of an entry: never 0, which no handle carries. *)
Definition next_gen (g : Z) : Z := let g' := u32 (g + 1) in if decide (g' = 0) then 1 else g'.

Lemma next_gen_range g : 0 < next_gen g < 2 ^ 32.
Proof. unfold next_gen. pose proof (wrapu_range 32 (g + 1)). case_decide; lia. Qed.

Lemma wf_ok t : wf t -> ok t.
Proof. intros Hwf. unfold ok, objtab_init. by rewrite (wf_init t Hwf). Qed.

Lemma get_init t c o : objtab_get (objtab_init t) c o = objtab_get t c o.
Proof. unfold objtab_init. by destruct (ot_inited t). Qed.

Lemma objtab0_ok : ok objtab0.
Proof.
  assert (Hh : forall s, (s < O9_MAX_OBJECTS)%nat -> hash_at (objtab_init objtab0) s = -1).
  { intros s Hs. unfold hash_at, objtab_init, objtab0. cbn [ot_inited ot_hash]. by rewrite lookup_replicate_2. }
  assert (He : forall i e, ot_entries (objtab_init objtab0) !! i = Some e -> e = entry0).
  { intros i e Hi. unfold objtab_init, objtab0 in Hi. cbn [ot_inited ot_entries] in Hi. by apply lookup_replicate in Hi as [-> _]. }
  split.
  - done.
  - cbn [objtab_init objtab0 ot_inited ot_entries]. by rewrite length_replicate.
  - cbn [objtab_init objtab0 ot_inited ot_hash]. by rewrite length_replicate.
  - intros s Hs. left. auto.
  - intros s s' Hs Hs'. rewrite !Hh by done. done.
  - intros i e ->%He. done.
  - intros i j e e' ->%He ->%He. done.
  - intros i e ->%He. split; [done|]. discriminate.
Qed.

(** The slot a register takes: the first entry that is not active. *)
Definition fresh_entry (t : objtab) (i : nat) (e : O9ObjEntry) : Prop :=
  list_find (fun e => en_active e = false) (ot_entries t) = Some (i, e).

Lemma short_strncpy n : short n -> strncpy 64 n = n.
Proof. intros []. by apply strncpy_fits. Qed.

Inductive registered (t : objtab) (c o : bytes) (inst dc : option ptr) : Z * objtab -> Prop :=
  | reg_found i e t' : objtab_get t c o = Some (i, e) ->
      let e' := MkEntry (en_gen e) true c o (or_else inst (en_inst e)) (or_else dc (en_chan e)) (en_mb e) in
      wf t' ->
      (forall c' o', objtab_get t' c' o' = if entry_is c' o' e' then Some (i, e') else objtab_get t c' o') ->
      registered t c o inst dc (handle_of (en_gen e) i, t')
  | reg_fresh i e t' : objtab_get t c o = None -> fresh_entry t i e ->
      let e' := MkEntry (next_gen (en_gen e)) true c o inst dc None in
      wf t' ->
      (forall c' o', objtab_get t' c' o' = if entry_is c' o' e' then Some (Z.of_nat i, e') else objtab_get t c' o') ->
      registered t c o inst dc (handle_of (en_gen e') (Z.of_nat i), t')
  | reg_full : objtab_get t c o = None -> all_live t ->
      registered t c o inst dc (0, objtab_init t).

Lemma register_cases t c o inst dc :
  ok t -> short c -> short o ->
  registered t c o inst dc (o9_objtab_register (Some c) (Some o) inst dc t).
Proof.
  intros Hok Hc Ho. unfold o9_objtab_register.
  pose proof (reg_probe_spec _ Hok c o O9_MAX_OBJECTS 0 None eq_refl (seen_start _ c o)) as Hp.
  destruct (reg_probe _ c o _ _ _ _) as [s i|[s|]] eqn:E; simpl in Hp; clear E.
  - destruct Hp as (Hs & _ & _ & Hget). pose proof Hget as (n & -> & Hn & He)%get_spec; [|done].
    set (e := entry_at (objtab_init t) (Z.of_nat n)) in *.
    pose proof He as (Ha & Hec & Heo)%entry_is_spec.
    assert (Hwf' : wf (set_entry (Z.of_nat n) (MkEntry (en_gen e) (en_active e) (en_class e) (en_oid e)
                          (or_else inst (en_inst e)) (or_else dc (en_chan e)) (en_mb e)) (objtab_init t)))
      by (apply (wf_update _ Hok n e); [done|exact (wf_gen _ Hok n e Hn)|done..]).
    apply reg_found; [by rewrite <- get_init|done|]. intros c' o'.
    rewrite (get_set _ Hok n e _ Hn _ Hwf' eq_refl), get_init.
    replace (entry_is c' o' e) with (entry_is c' o' (MkEntry (en_gen e) true c o
      (or_else inst (en_inst e)) (or_else dc (en_chan e)) (en_mb e)))
      by (unfold entry_is; cbn [en_active en_class en_oid]; by rewrite Ha, Hec, Heo).
    cbn zeta. unfold entry_is. cbn [en_active en_class en_oid]. rewrite Ha, Hec, Heo. by destruct (_ && _).
  - destruct Hp as (Hnone & Hneg & Hpath). rewrite get_init in Hnone.
    destruct (list_find _ _) as [[i e]|] eqn:Hf.
    + pose proof Hf as (Hi & Hina & _)%list_find_Some.
      assert (Hs : (s < O9_MAX_OBJECTS)%nat) by (destruct Hpath as (k & _ & -> & _); apply slot_idx_lt).
      fold (next_gen (en_gen e)). rewrite !short_strncpy by done.
      set (e' := MkEntry (next_gen (en_gen e)) true c o inst dc None).
      assert (Hg : gen_ok e') by (pose proof (next_gen_range (en_gen e)); split; simpl; lia).
      assert (Hwf' : wf (set_entry (Z.of_nat i) e' (set_slot s (Z.of_nat i) (objtab_init t))))
        by (apply (wf_insert _ Hok i e); rewrite ?get_init; done).
      apply (reg_fresh t c o inst dc i e); [done| |done|].
      * unfold fresh_entry. revert Hf. unfold objtab_init. by destruct (ot_inited t).
      * intros c' o'. rewrite (get_set _ Hok i e _ Hi _ Hwf' eq_refl), get_init. fold e'.
        replace (entry_is c' o' e) with false; [done|]. unfold entry_is. by rewrite Hina.
    + apply reg_full; [done|]. apply list_find_None in Hf. unfold all_live.
      replace (ot_entries t) with (ot_entries (objtab_init t)) by (by unfold objtab_init; destruct (ot_inited t)).
      eapply Forall_impl; [exact Hf|]. intros x Hx. simpl in Hx. by destruct (en_active x).
  - destruct Hp as [Hnone Hfull]. rewrite get_init in Hnone. apply reg_full; [done|].
    apply full_index in Hfull; [|done]. revert Hfull. unfold objtab_init. by destruct (ot_inited t).
Qed.

Lemma unregister_cases t c o :
  ok t ->
  ok (o9_objtab_unregister (Some c) (Some o) t) /\
  forall c' o', objtab_get (o9_objtab_unregister (Some c) (Some o) t) c' o' =
    if decide (c' = c /\ o' = o) then None else objtab_get t c' o'.
Proof.
  intros Hok. unfold o9_objtab_unregister.
  destruct (ot_inited t) eqn:Hinit.
  2: { split; [done|]. intros c' o'. case_decide; [|done].
       apply get_none. intros n e He. destruct (entry_is c' o' e) eqn:E; [|done].
       apply entry_is_spec in E as (Ha & _). unfold ok, objtab_init in Hok. rewrite Hinit in Hok.
       destruct (wf_probe _ Hok n e He Ha) as (k & Hk & Hs & _).
       unfold hash_at in Hs. cbn [ot_hash] in Hs. rewrite lookup_replicate_2 in Hs by apply slot_idx_lt.
       simpl in Hs. lia. }
  assert (Hwf : wf t) by (unfold ok, objtab_init in Hok; by rewrite Hinit in Hok).
  pose proof (unreg_probe_spec t Hwf c o O9_MAX_OBJECTS 0 None eq_refl (seen_start t c o)) as Hp.
  destruct (unreg_probe _ _ _ _ _ _) as [[s i]|].
  2: { split; [done|]. intros c' o'. case_decide as E; [destruct E as [-> ->]|]; done. }
  destruct Hp as (Hs & Hsi & _ & Hget). pose proof Hget as (n & -> & Hn & He)%get_spec; [|done].
  set (e := entry_at t (Z.of_nat n)) in *.
  set (e' := MkEntry (u32 (en_gen e + 1)) false (en_class e) (en_oid e) None None None).
  assert (Hg : gen_ok e') by (split; [apply wrapu_range; lia|discriminate]).
  assert (Hwf' : wf (set_slot s (-2) (set_entry (Z.of_nat n) e' t))) by (eapply wf_delete; eauto).
  split; [by apply wf_ok|]. intros c' o'.
  rewrite (get_set t Hwf n e e' Hn _ Hwf' eq_refl). cbn [entry_is en_active andb e'].
  apply entry_is_spec in He as (Ha & Hec & Heo). case_decide as E.
  - destruct E as [-> ->]. destruct (entry_is c o e) eqn:E; [done|].
    assert (entry_is c o e = true) by (by apply entry_is_spec). congruence.
  - destruct (entry_is c' o' e) eqn:E'; [|done]. destruct E.
    apply entry_is_spec in E' as (_ & ? & ?). split; congruence.
Qed.

Lemma register_ok t c o inst dc : ok t -> short c -> short o ->
  ok (o9_objtab_register (Some c) (Some o) inst dc t).2.
Proof.
  intros Hok Hc Ho. destruct (register_cases t c o inst dc Hok Hc Ho) as [| |]; simpl; [by apply wf_ok..|].
  unfold ok, objtab_init in *. by destruct (ot_inited t) eqn:E; simpl; rewrite ?E.
Qed.

(** ** Handles *)

(** The parts [o9_objtab_resolve] takes a handle into: the index, and only
    the low 16 bits of the generation. *)
Lemma handle_parts g i : 0 <= g -> 0 <= i < 65536 ->
  Z.land (handle_of g i) 65535 = i /\ Z.shiftr (handle_of g i) 16 = g mod 65536.
Proof.
  intros Hg Hi. unfold handle_of, wrapu.
  change 65535 with (Z.ones 16). rewrite !Z.land_ones, (Z.mod_small i) by lia.
  rewrite Z.shiftr_div_pow2 by lia.
  assert (E : Z.lor (Z.shiftl g 16) i = g * 65536 + i).
  { pose proof (Z.add_lor_land (Z.shiftl g 16) i) as A.
    replace (Z.land (Z.shiftl g 16) i) with 0 in A.
    - rewrite Z.shiftl_mul_pow2 in A |- * by lia. change (2 ^ 16) with 65536 in *. lia.
    - symmetry. rewrite <- (Z.mod_small i (2 ^ 16)), <- Z.land_ones, Z.land_comm, <- Z.land_assoc by lia.
      replace (Z.land (Z.ones 16) (Z.shiftl g 16)) with 0; [by rewrite Z.land_0_r|].
      rewrite Z.land_comm, Z.land_ones, Z.shiftl_mul_pow2, Z.mod_mul by lia. done. }
  rewrite E. change (2 ^ 32) with (65536 * 65536). change (2 ^ 16) with 65536.
  rewrite Z.rem_mul_r by lia.
  rewrite (Z.add_comm (g * 65536)), Z.mod_add, (Z.mod_small i), Z.div_add, (Z.div_small i) by lia.
  rewrite Z.add_0_l. split.
  - rewrite (Z.mul_comm 65536), Z.mod_add, Z.mod_small by lia. done.
  - rewrite (Z.mul_comm 65536), Z.div_add, (Z.div_small i) by lia. done.
Qed.

(** The one live entry whose handle cannot be told from a failure: the first,
    under a generation whose low 16 bits are 0. *)
Lemma handle_zero g i : 0 <= g -> 0 <= i < 256 -> handle_of g i = 0 <-> i = 0 /\ g mod 65536 = 0.
Proof.
  intros Hg Hi. destruct (handle_parts g i) as [Hl Hr]; [lia..|]. split.
  - intros E. rewrite E in Hl, Hr. done.
  - intros [-> E]. rewrite E in Hr. assert (H : 0 <= handle_of g 0 < 2 ^ 32) by (apply wrapu_range; lia).
    change 65535 with (Z.ones 16) in Hl. rewrite Z.land_ones in Hl by lia. rewrite Z.shiftr_div_pow2 in Hr by lia.
    pose proof (Z.div_mod (handle_of g 0) (2 ^ 16)). lia.
Qed.

Lemma registered_zero t c o inst dc h t' : ok t -> registered t c o inst dc (h, t') ->
  h = 0 <-> (objtab_get t c o = None /\ all_live t) \/
    exists e, objtab_get t' c o = Some (0, e) /\ en_gen e mod 65536 = 0.
Proof.
  intros Hok H. assert (Hz : forall i e, wf t' -> objtab_get t' c o = Some (i, e) -> h = handle_of (en_gen e) i ->
    (objtab_get t c o = None -> ~ all_live t) -> h = 0 <-> (objtab_get t c o = None /\ all_live t) \/
      exists e, objtab_get t' c o = Some (0, e) /\ en_gen e mod 65536 = 0).
  { intros i e Hwf Hget -> Hlive. pose proof Hget as (n & -> & Hn & _)%get_spec; [|done].
    pose proof (wf_gen _ Hwf n e Hn) as [Hg _]. assert (Hlt : (n < 256)%nat) by (apply lookup_lt_Some in Hn; by rewrite (wf_entries _ Hwf) in Hn).
    rewrite handle_zero, Hget by lia. split; [intros [E E']; right; exists e; split; [by rewrite E|done]|].
    intros [[? ?]|(e1 & E & ?)]; [by destruct Hlive|]. by injection E as -> ->. }
  inversion H as [i e t1 Hget e' Hwf Hall E1|i e t1 Hget Hfree e' Hwf Hall E1|Hget Hlive E1]; subst.
  - eapply Hz; [done|rewrite Hall, (proj2 (entry_is_spec c o e')) by done; done|done|congruence].
  - eapply Hz; [done|rewrite Hall, (proj2 (entry_is_spec c o e')) by done; done|done|]. intros _ Hl.
    apply list_find_Some in Hfree as (Hi & Hf & _). unfold all_live in Hl. rewrite Forall_lookup in Hl. specialize (Hl _ _ Hi). congruence.
  - split; [intros _; by left|done].
Qed.

(** C24: On names that fit its fields the open-addressing index is a finite
    map.  A register of a known key returns the handle of its entry and
    replaces the instance and the channel that are given; of a new key it
    takes the first free entry under its next generation; when all 256
    entries are live it fails; no other key changes.  The result is 0, the
    sign of a failure, for a full table and also for one kind of success:
    the key sits in the first entry under a generation that is a multiple of
    65536.  An unregister removes its key and no other.  The table invariant
    is preserved. *)
Theorem objtab_refines_map t c o inst dc :
  ok t -> short c -> short o ->
  registered t c o inst dc (o9_objtab_register (Some c) (Some o) inst dc t) /\
  ok (o9_objtab_register (Some c) (Some o) inst dc t).2 /\
  ((o9_objtab_register (Some c) (Some o) inst dc t).1 = 0 <->
     (objtab_get t c o = None /\ all_live t) \/
     exists e, objtab_get (o9_objtab_register (Some c) (Some o) inst dc t).2 c o = Some (0, e) /\ en_gen e mod 65536 = 0) /\
  ok (o9_objtab_unregister (Some c) (Some o) t) /\
  forall c' o', objtab_get (o9_objtab_unregister (Some c) (Some o) t) c' o' =
    if decide (c' = c /\ o' = o) then None else objtab_get t c' o'.
Proof.
  intros Hok Hc Ho. pose proof (register_cases t c o inst dc Hok Hc Ho) as Hr. split; [done|]. split; [by apply register_ok|].
  split; [|by apply unregister_cases]. destruct (o9_objtab_register _ _ _ _ t) as [h t']. by apply (registered_zero t c o inst dc).
Qed.

Lemma resolve_spec t n e h : wf t -> ot_entries t !! n = Some e ->
  h = handle_of (en_gen e) (Z.of_nat n) ->
  o9_objtab_resolve h t =
    if decide (en_active e = true /\ en_gen e < 65536) then Some (Z.of_nat n, e) else None.
Proof.
  intros Hwf Hn ->. pose proof (wf_gen _ Hwf n e Hn) as [Hg Hg0].
  assert (Hlt : (n < 256)%nat) by (apply lookup_lt_Some in Hn; by rewrite (wf_entries _ Hwf) in Hn).
  destruct (handle_parts (en_gen e) (Z.of_nat n)) as [Hl Hr]; [lia..|].
  unfold o9_objtab_resolve. rewrite Hl, Hr, (entry_at_nat _ _ _ Hn).
  rewrite (decide_False (P := Z.of_nat n < 0 \/ _)) by (unfold O9_MAX_OBJECTS; lia).
  destruct (decide (handle_of _ _ = 0)) as [Hz|Hz].
  - rewrite Hz in Hr, Hl. symmetry. apply decide_False. intros [Ha Hlt']. apply Hg0; [done|].
    rewrite Z.mod_small in Hr by lia. done.
  - destruct (en_active e) eqn:Ha; [|by rewrite decide_False by naive_solver].
    simpl. case_bool_decide as E; case_decide as D; try done.
    + destruct D. split; [done|]. pose proof (Z.mod_pos_bound (en_gen e) 65536). lia.
    + destruct E. rewrite Z.mod_small by lia. done.
Qed.

(** A register of a key that is in the table afterwards returns a handle
    that resolves to the entry of that key, as long as the entry's generation
    is below 65536; from then on the handle it returns resolves to nothing,
    since a handle keeps 16 bits of the generation and the comparison is with
    all 32. *)
Theorem register_resolves t c o inst dc h t' i e :
  ok t -> short c -> short o ->
  o9_objtab_register (Some c) (Some o) inst dc t = (h, t') ->
  objtab_get t' c o = Some (i, e) ->
  o9_objtab_resolve h t' = if decide (en_gen e < 65536) then Some (i, e) else None.
Proof.
  intros Hok Hc Ho Hr Hget. pose proof (register_cases t c o inst dc Hok Hc Ho) as H.
  rewrite Hr in H. assert (Hh : wf t' /\ h = handle_of (en_gen e) i).
  { inversion H as [j x t'' Hg x' Hwf Hall Heq|j x t'' Hg Hf x' Hwf Hall Heq|Hg Hfull Heq]; subst.
    - split; [done|]. rewrite Hall, (proj2 (entry_is_spec c o x')) in Hget by done.
      by injection Hget as <- <-.
    - split; [done|]. rewrite Hall, (proj2 (entry_is_spec c o x')) in Hget by done.
      by injection Hget as <- <-.
    - rewrite get_init in Hget. congruence. }
  destruct Hh as [Hwf ->]. apply get_spec in Hget as (n & -> & Hn & He); [|done].
  rewrite (resolve_spec t' n e _ Hwf Hn eq_refl). apply entry_is_spec in He as (Ha & _).
  destruct (decide (en_gen e < 65536)); [by rewrite decide_True|].
  rewrite decide_False; [done|by intros []].
Qed.

(** ** Stale handles *)

Inductive tab_op :=
  | OpRegister (class oid : bytes) (inst dchan : option ptr)
  | OpUnregister (class oid : bytes).

Definition tab_run (op : tab_op) (t : objtab) : objtab :=
  match op with
  | OpRegister c o inst dc => (o9_objtab_register (Some c) (Some o) inst dc t).2
  | OpUnregister c o => o9_objtab_unregister (Some c) (Some o) t
  end.

Definition tab_runs (ops : list tab_op) (t : objtab) : objtab := fold_left (fun t op => tab_run op t) ops t.

(** One operation moves the generation of an entry by at most one step, and
    an entry becomes active only under a new generation. *)
Lemma tab_run_entry op t n e : ot_entries t !! n = Some e -> 0 <= en_gen e < 2 ^ 32 - 1 ->
  exists e', ot_entries (tab_run op t) !! n = Some e' /\
    (en_gen e' = en_gen e /\ (en_active e' = true -> en_active e = true) \/ en_gen e' = en_gen e + 1).
Proof.
  intros Hn Hg.
  assert (Hsame : forall t', ot_entries t' = ot_entries t -> exists e', ot_entries t' !! n = Some e' /\
    (en_gen e' = en_gen e /\ (en_active e' = true -> en_active e = true) \/ en_gen e' = en_gen e + 1)).
  { intros t' ->. eauto. }
  assert (Hset : forall t' m x, ot_entries t' = ot_entries t ->
    (m = n -> en_gen x = en_gen e /\ (en_active x = true -> en_active e = true) \/ en_gen x = en_gen e + 1) ->
    exists e', <[m := x]> (ot_entries t') !! n = Some e' /\
    (en_gen e' = en_gen e /\ (en_active e' = true -> en_active e = true) \/ en_gen e' = en_gen e + 1)).
  { intros t' m x -> Hx. destruct (decide (m = n)) as [->|Hne].
    - exists x. rewrite list_lookup_insert_eq by (by eapply lookup_lt_Some). auto.
    - exists e. rewrite list_lookup_insert_ne by done. auto. }
  assert (Hinit : ot_entries (objtab_init t) = ot_entries t) by (unfold objtab_init; by destruct (ot_inited t)).
  destruct op as [c o inst dc|c o]; unfold tab_run, o9_objtab_register, o9_objtab_unregister.
  - destruct (reg_probe _ _ _ _ _ _ _) as [s i|[s|]]; [|destruct (list_find _ _) as [[i x]|] eqn:Hf|];
      cbn [snd]; [| |by apply Hsame..].
    + apply Hset; [done|]. intros Hi. left. unfold entry_at. rewrite Hi, Hinit, Hn. done.
    + apply Hset; [done|]. rewrite Nat2Z.id. intros ->. right.
      apply list_find_Some in Hf as (Hx & _ & _). rewrite Hinit, Hn in Hx. simplify_eq/=.
      rewrite (wrapu_id 32) by lia. rewrite decide_False; lia.
  - destruct (ot_inited t); [|by apply Hsame].
    destruct (unreg_probe _ _ _ _ _ _) as [[s i]|]; [|by apply Hsame].
    simpl ot_entries. apply Hset; [done|]. intros Hi. right. simpl.
    unfold entry_at. rewrite Hi, Hn. simpl. apply wrapu_id. lia.
Qed.

Lemma tab_runs_entry ops t n e : ot_entries t !! n = Some e -> 0 <= en_gen e ->
  en_gen e + Z.of_nat (length ops) < 2 ^ 32 ->
  exists e', ot_entries (tab_runs ops t) !! n = Some e' /\
    (en_gen e' = en_gen e /\ (en_active e' = true -> en_active e = true) \/
     en_gen e < en_gen e' < 2 ^ 32).
Proof.
  revert t e. induction ops as [|op ops IH]; intros t e Hn H0 Hlen; simpl in *; [eauto|].
  destruct (tab_run_entry op t n e Hn) as (e1 & He1 & Hc1); [lia|].
  destruct (IH _ e1 He1) as (e2 & He2 & Hc2); [lia..|]. exists e2. split; [done|].
  destruct Hc1 as [[? ?]|?], Hc2 as [[? ?]|?]; [left; split; [lia|auto]|right; lia..].
Qed.

Lemma unregister_entry t c o n e : ok t -> objtab_get t c o = Some (Z.of_nat n, e) ->
  exists e', ot_entries (o9_objtab_unregister (Some c) (Some o) t) !! n = Some e' /\
    en_gen e' = u32 (en_gen e + 1).
Proof.
  intros Hok Hget. unfold o9_objtab_unregister. destruct (ot_inited t) eqn:Hinit.
  - assert (Hwf : wf t) by (unfold ok, objtab_init in Hok; by rewrite Hinit in Hok).
    pose proof (unreg_probe_spec t Hwf c o O9_MAX_OBJECTS 0 None eq_refl (seen_start t c o)) as Hp.
    destruct (unreg_probe _ _ _ _ _ _) as [[s i]|]; [|congruence].
    destruct Hp as (_ & _ & _ & Hget'). rewrite Hget in Hget'. injection Hget' as <- <-.
    apply get_spec in Hget as (m & Hm & Hn & _); [|done]. apply Nat2Z.inj in Hm as <-.
    cbn [set_slot set_entry ot_entries]. rewrite Nat2Z.id.
    rewrite list_lookup_insert_eq by (by eapply lookup_lt_Some). eauto.
  - rewrite <- get_init in Hget. pose proof (unregister_cases t c o Hok) as [_ Hu].
    specialize (Hu c o). unfold o9_objtab_unregister in Hu. rewrite Hinit, decide_True in Hu by done.
    rewrite get_init in Hget. congruence.
Qed.

(** C6: Once its object is unregistered a handle never resolves again,
    whatever is registered and unregistered afterwards, for as long as the
    32-bit generation of the entry cannot have wrapped. *)
Theorem stale_handle_dead t c o i e ops :
  ok t -> objtab_get t c o = Some (i, e) ->
  en_gen e + 1 + Z.of_nat (length ops) < 2 ^ 32 ->
  o9_objtab_resolve (handle_of (en_gen e) i)
    (tab_runs ops (o9_objtab_unregister (Some c) (Some o) t)) = None.
Proof.
  intros Hok Hget Hlen. pose proof Hget as Hg. rewrite <- get_init in Hg.
  apply get_spec in Hg as (n & -> & Hn & _); [|done].
  destruct (wf_gen _ Hok n e Hn) as [Hgen _]. assert (Hlt : (n < 256)%nat).
  { apply lookup_lt_Some in Hn. by rewrite (wf_entries _ Hok) in Hn. }
  destruct (unregister_entry t c o n e Hok Hget) as (e1 & He1 & Hg1). rewrite (wrapu_id 32) in Hg1 by lia.
  destruct (tab_runs_entry ops _ n e1 He1) as (e2 & He2 & Hg2); [lia..|].
  destruct (handle_parts (en_gen e) (Z.of_nat n)) as [Hl Hr]; [lia..|].
  unfold o9_objtab_resolve. rewrite Hl, Hr, (entry_at_nat _ _ _ He2).
  case_decide; [done|]. case_decide; [done|]. rewrite bool_decide_false; [by rewrite andb_false_r|].
  pose proof (Z.mod_le (en_gen e) 65536). lia.
Qed.

(** ** Witnesses *)

Definition w_c : bytes := str "counter".
Definition w_o : bytes := str "main".
Definition w_t : objtab := (o9_objtab_register (Some w_c) (Some w_o) (Some 1%positive) None objtab0).2.

Lemma w_short : short w_c /\ short w_o.
Proof. split; (split; [apply (bool_decide_unpack _); vm_compute; exact I|vm_compute; lia]). Qed.

Lemma w_t_ok : ok w_t.
Proof. destruct w_short as [Hc Ho]. exact (register_ok _ _ _ _ _ objtab0_ok Hc Ho). Qed.

Definition w_e : O9ObjEntry := MkEntry 1 true w_c w_o (Some 1%positive) None None.

Lemma w_get : objtab_get w_t w_c w_o = Some (0, w_e).
Proof. vm_compute. reflexivity. Qed.

Lemma objtab_refines_map_witness :
  registered w_t w_c w_o None (Some 2%positive) (o9_objtab_register (Some w_c) (Some w_o) None (Some 2%positive) w_t) /\
  objtab_get (o9_objtab_unregister (Some w_c) (Some w_o) w_t) w_c w_o = None.
Proof.
  destruct (objtab_refines_map w_t w_c w_o None (Some 2%positive) w_t_ok (proj1 w_short) (proj2 w_short))
    as (H1 & _ & _ & _ & H2).
  split; [exact H1|]. exact (H2 w_c w_o).
Defined.

Lemma register_resolves_witness :
  o9_objtab_resolve 65536 w_t = Some (0, w_e).
Proof.
  exact (register_resolves objtab0 w_c w_o (Some 1%positive) None 65536 w_t 0 w_e
    objtab0_ok (proj1 w_short) (proj2 w_short) ltac:(vm_compute; reflexivity) w_get).
Defined.

Lemma stale_handle_dead_witness :
  o9_objtab_resolve 65536 (tab_runs [OpRegister w_c w_o None None]
    (o9_objtab_unregister (Some w_c) (Some w_o) w_t)) = None.
Proof.
  exact (stale_handle_dead w_t w_c w_o 0 w_e [OpRegister w_c w_o None None]
    w_t_ok w_get ltac:(vm_compute; reflexivity)).
Defined.

(** The 65536th generation of the first entry: the registration succeeds and
    returns 0. *)
Definition old_t : objtab := set_entry 0 (MkEntry 65535 false [] [] None None None) (objtab_init objtab0).

Lemma success_reported_as_failure :
  let '(h, t) := o9_objtab_register (Some w_c) (Some w_o) (Some 1%positive) None old_t in
  h = 0 /\ objtab_get t w_c w_o = Some (0, MkEntry 65536 true w_c w_o (Some 1%positive) None None).
Proof. vm_compute. split; reflexivity. Qed.
