(* ===== verification/Ring.v ===== *)
(** * The T-ring and the R-ring ([o9_tring_*], [o9_rring_*] in [o9_runtime.c])

    A ring is an array of 64 cells with two free-running [u32int] counters.
    The two rings of a channel have the same code over [O9Slot] and [O9Comp],
    so one Section serves both; a call runs under the ring's lock and is one
    function.  The ring is shown to be a queue of at most 64 elements for
    every value of the counters, the wrap at 2^32 included. *)
From S2P Require Import Prelude.

Open Scope Z_scope.

Definition O9_RING_SIZE : Z := 64.
Definition O9_RING_MASK : Z := O9_RING_SIZE - 1.

Section ring.
Context {A : Type}.

(** [None] is a cell that was never written. *)
Record ring := MkRing { r_head : Z; r_tail : Z; r_cells : list (option A) }.

Definition ring0 : ring := MkRing 0 0 (replicate (Z.to_nat O9_RING_SIZE) None).

Definition ring_cell (n : Z) : nat := Z.to_nat (Z.land n O9_RING_MASK).

(** [o9_tring_submit] and [o9_rring_complete]. *)
Definition o9_tring_submit (r : ring) (x : A) : Z * ring :=
  if decide (u32 (r_head r - r_tail r) < O9_RING_SIZE)
  then (0, MkRing (u32 (r_head r + 1)) (r_tail r) (<[ring_cell (r_head r) := Some x]> (r_cells r)))
  else (-1, r).

(** [o9_tring_consume] and [o9_rring_poll]: 1 and the cell, or 0. *)
Definition o9_tring_consume (r : ring) : option A * ring :=
  if decide (r_tail r <> r_head r)
  then (mjoin (r_cells r !! ring_cell (r_tail r)), MkRing (r_head r) (u32 (r_tail r + 1)) (r_cells r))
  else (None, r).

Definition o9_tring_len (r : ring) : Z := i32 (u32 (r_head r - r_tail r)).

(** ** The queue a ring holds *)

Definition ring_count (r : ring) : nat := Z.to_nat (u32 (r_head r - r_tail r)).

Definition ring_nth (r : ring) (i : nat) : option A :=
  mjoin (r_cells r !! ring_cell (r_tail r + Z.of_nat i)).

Definition ring_queue (r : ring) : list A := omap (ring_nth r) (seq 0 (ring_count r)).

Record ring_wf (r : ring) : Prop := {
  rw_head : 0 <= r_head r < 2 ^ 32;
  rw_tail : 0 <= r_tail r < 2 ^ 32;
  rw_cells : length (r_cells r) = 64%nat;
  rw_count : (ring_count r <= 64)%nat;
  rw_full : forall i, (i < ring_count r)%nat -> exists x, ring_nth r i = Some x }.

Lemma ring_cell_mod n : ring_cell n = Z.to_nat (n mod 64).
Proof. unfold ring_cell, O9_RING_MASK, O9_RING_SIZE. by rewrite (Z.land_ones _ 6). Qed.

Lemma ring_cell_lt n : (ring_cell n < 64)%nat.
Proof. rewrite ring_cell_mod. pose proof (Z.mod_pos_bound n 64). lia. Qed.

Lemma ring_cell_wrap n : ring_cell (u32 n) = ring_cell n.
Proof.
  rewrite !ring_cell_mod. unfold wrapu. f_equal.
  rewrite <- Znumtheory.Zmod_div_mod; [done|lia..|]. by exists (2 ^ 26).
Qed.

(** Two of 64 consecutive counters name different cells. *)
Lemma ring_cell_inj t i j : (i < 64)%nat -> (j < 64)%nat ->
  ring_cell (t + Z.of_nat i) = ring_cell (t + Z.of_nat j) -> i = j.
Proof.
  intros Hi Hj. rewrite !ring_cell_mod. intros E.
  pose proof (Z.mod_pos_bound (t + Z.of_nat i) 64). pose proof (Z.mod_pos_bound (t + Z.of_nat j) 64).
  assert (E' : (t + Z.of_nat i) mod 64 = (t + Z.of_nat j) mod 64) by lia.
  pose proof (Z.div_mod (t + Z.of_nat i) 64). pose proof (Z.div_mod (t + Z.of_nat j) 64). lia.
Qed.

Lemma u32_sub_spec a b : 0 <= a < 2 ^ 32 -> 0 <= b < 2 ^ 32 ->
  u32 (a - b) = if decide (b <= a) then a - b else a - b + 2 ^ 32.
Proof.
  intros. unfold wrapu. case_decide; [by rewrite Z.mod_small by lia|].
  symmetry. apply (Z.mod_unique _ _ (-1)); lia.
Qed.

Lemma u32_succ_spec a : 0 <= a < 2 ^ 32 ->
  u32 (a + 1) = if decide (a + 1 = 2 ^ 32) then 0 else a + 1.
Proof. intros. unfold wrapu. case_decide as E; [by rewrite E|]. apply Z.mod_small. lia. Qed.

Lemma head_of_count r : ring_wf r ->
  ring_cell (r_head r) = ring_cell (r_tail r + Z.of_nat (ring_count r)).
Proof.
  intros [Hh Ht _ _ _]. unfold ring_count. rewrite <- (ring_cell_wrap (_ + _)). f_equal.
  rewrite u32_sub_spec by done. unfold wrapu. case_decide.
  - rewrite Z2Nat.id by lia. rewrite Z.mod_small; lia.
  - rewrite Z2Nat.id by lia. apply (Z.mod_unique _ _ 1); lia.
Qed.

Lemma omap_shift {B} (f g : nat -> option B) a n :
  (forall i, g i = f (S i)) -> omap g (seq a n) = omap f (seq (S a) n).
Proof.
  intros H. revert a. induction n as [|n IH]; intros a; csimpl; [done|]. by rewrite H, IH.
Qed.

Lemma queue_length r : ring_wf r -> length (ring_queue r) = ring_count r.
Proof.
  intros [_ _ _ _ Hf]. unfold ring_queue.
  assert (H : forall l, (forall i, i ∈ l -> exists x, ring_nth r i = Some x) ->
    length (omap (ring_nth r) l) = length l).
  { induction l as [|i l IH]; intros Hl; csimpl; [done|].
    destruct (Hl i) as [x ->]; [set_solver|]. csimpl. rewrite IH; [done|set_solver]. }
  rewrite H, length_seq; [done|]. intros i Hi%elem_of_seq. apply Hf. lia.
Qed.

Lemma ring0_wf : ring_wf ring0.
Proof. split; try done; vm_compute; lia. Qed.

Lemma ring0_queue : ring_queue ring0 = [].
Proof. done. Qed.

Lemma submit_spec r x : ring_wf r ->
  let '(ret, r') := o9_tring_submit r x in
  ring_wf r' /\
  if decide ((length (ring_queue r) < 64)%nat) then ret = 0 /\ ring_queue r' = ring_queue r ++ [x]
  else ret = -1 /\ r' = r.
Proof.
  intros Hwf. rewrite queue_length by done. unfold o9_tring_submit, O9_RING_SIZE.
  assert (Hc : u32 (r_head r - r_tail r) = Z.of_nat (ring_count r)).
  { unfold ring_count. pose proof (wrapu_range 32 (r_head r - r_tail r)). lia. }
  rewrite Hc. destruct (decide (ring_count r < 64)%nat) as [Hlt|Hge].
  2: { rewrite decide_False by lia. done. }
  rewrite decide_True by lia. pose proof (head_of_count r Hwf) as Hcell.
  destruct Hwf as [Hh Ht Hl _ Hf]. set (r' := MkRing _ _ _).
  assert (Hcount : ring_count r' = S (ring_count r)).
  { unfold ring_count in Hlt |- *. simpl. rewrite u32_succ_spec by done. rewrite u32_sub_spec in Hlt by done.
    rewrite !u32_sub_spec by (repeat case_decide; lia). repeat case_decide; lia. }
  assert (Hold : forall i, (i < ring_count r)%nat -> ring_nth r' i = ring_nth r i).
  { intros i Hi. unfold ring_nth. simpl. rewrite Hcell.
    rewrite list_lookup_insert_ne; [done|]. intros E%ring_cell_inj; lia. }
  assert (Hnew : ring_nth r' (ring_count r) = Some x).
  { unfold ring_nth. simpl. rewrite <- Hcell.
    rewrite list_lookup_insert_eq; [done|]. rewrite Hl. apply ring_cell_lt. }
  split.
  - split; [|done|simpl; by rewrite length_insert|lia|].
    + simpl. rewrite u32_succ_spec by done. case_decide; lia.
    + intros i Hi. rewrite Hcount in Hi. destruct (decide (i = ring_count r)) as [->|]; [eauto|].
      rewrite Hold by lia. apply Hf. lia.
  - split; [done|]. unfold ring_queue. rewrite Hcount, seq_S, omap_app. csimpl. rewrite Hnew. f_equal.
    apply list_omap_ext. apply Forall2_same_length_lookup_2; [done|]. intros i a b Ha Hb. simplify_eq.
    apply lookup_seq in Ha as [-> ?]. by rewrite Hold by lia.
Qed.

Lemma consume_spec r : ring_wf r ->
  let '(x, r') := o9_tring_consume r in
  ring_wf r' /\ x = head (ring_queue r) /\ ring_queue r' = tail (ring_queue r).
Proof.
  intros Hwf. unfold o9_tring_consume. pose proof Hwf as [Hh Ht Hl Hc Hf].
  case_decide as Hne.
  2: { unfold ring_queue, ring_count. replace (u32 (r_head r - r_tail r)) with 0; [done|].
       rewrite u32_sub_spec by done. case_decide; lia. }
  set (r' := MkRing _ _ _).
  assert (Hcount : ring_count r = S (ring_count r')).
  { unfold ring_count in Hc |- *. simpl. rewrite u32_succ_spec by done. rewrite u32_sub_spec in Hc by done.
    rewrite !u32_sub_spec by (repeat case_decide; lia). repeat case_decide; lia. }
  assert (Hnth : forall i, ring_nth r' i = ring_nth r (S i)).
  { intros i. unfold ring_nth. simpl. f_equal. f_equal.
    rewrite <- (ring_cell_wrap (u32 _ + _)), <- (ring_cell_wrap (_ + Z.of_nat (S i))). f_equal.
    unfold wrapu. rewrite Z.add_mod_idemp_l by done. f_equal. lia. }
  destruct (Hf 0%nat) as [x Hx]; [lia|]. split_and!.
  - split; [done| |done|lia|].
    + simpl. rewrite u32_succ_spec by done. case_decide; lia.
    + intros i Hi. rewrite Hnth. apply Hf. lia.
  - unfold ring_queue. rewrite Hcount. cbn [seq]. csimpl. rewrite Hx. csimpl.
    unfold ring_nth in Hx. by rewrite Z.add_0_r in Hx.
  - unfold ring_queue. rewrite Hcount. cbn [seq]. csimpl. rewrite Hx. csimpl.
    by apply omap_shift.
Qed.

Lemma len_spec r : ring_wf r -> o9_tring_len r = Z.of_nat (length (ring_queue r)).
Proof.
  intros Hwf. rewrite queue_length by done. pose proof (rw_count _ Hwf). unfold o9_tring_len, ring_count in *.
  pose proof (wrapu_range 32 (r_head r - r_tail r)).
  unfold i32, wraps. rewrite Z.mod_small by lia. case_decide; lia.
Qed.

(** ** Refinement *)

Inductive ring_op := OpSubmit (x : A) | OpConsume | OpLen.

(** What a call returns: the status of a submit, the cell of a consume, the
    length. *)
Inductive ring_ret := RetSubmit (ret : Z) | RetConsume (x : option A) | RetLen (n : Z).

Definition ring_do (r : ring) (op : ring_op) : ring_ret * ring :=
  match op with
  | OpSubmit x => let '(ret, r') := o9_tring_submit r x in (RetSubmit ret, r')
  | OpConsume => let '(x, r') := o9_tring_consume r in (RetConsume x, r')
  | OpLen => (RetLen (o9_tring_len r), r)
  end.

(** The specification: a first-in first-out queue of at most 64 elements. *)
Definition queue_do (q : list A) (op : ring_op) : ring_ret * list A :=
  match op with
  | OpSubmit x => if decide (length q < 64)%nat then (RetSubmit 0, q ++ [x]) else (RetSubmit (-1), q)
  | OpConsume => (RetConsume (head q), tail q)
  | OpLen => (RetLen (Z.of_nat (length q)), q)
  end.

(** An empty ring whose counters have run to [n]. *)
Definition ring_at (n : Z) : ring := MkRing (u32 n) (u32 n) (replicate (Z.to_nat O9_RING_SIZE) None).

End ring.
Arguments ring : clear implicits.
Arguments ring_op : clear implicits.
Arguments ring_ret : clear implicits.

Lemma ring_step_refines {A} (r : ring A) (q : list A) op :
  ring_wf r /\ ring_queue r = q ->
  (ring_do r op).1 = (queue_do q op).1 /\
  ring_wf (ring_do r op).2 /\ ring_queue (ring_do r op).2 = (queue_do q op).2.
Proof.
  intros [Hwf <-]. destruct op as [x| |]; simpl.
  - pose proof (submit_spec r x Hwf) as H. destruct (o9_tring_submit r x) as [ret r'].
    destruct H as [? H]. case_decide; destruct H as [-> H]; simpl; [done|by subst].
  - pose proof (consume_spec r Hwf) as H. destruct (o9_tring_consume r) as [x r'].
    destruct H as (? & ? & ?). simpl. split_and!; congruence.
  - by rewrite len_spec.
Qed.

Lemma ring_at_wf {A} n : ring_wf (@ring_at A n) /\ ring_queue (@ring_at A n) = [].
Proof.
  assert (H : ring_count (@ring_at A n) = 0%nat) by (unfold ring_count, ring_at; simpl; by rewrite Z.sub_diag).
  pose proof (wrapu_range 32 n). split; [|unfold ring_queue; by rewrite H].
  split; rewrite ?H; simpl; lia || done || by rewrite length_replicate.
Qed.

(** Whatever value the free-running 32-bit counters start from, a ring
    answers every sequence of submits, consumes and length queries as a
    first-in first-out queue of at most 64 elements does, and holds what the
    queue holds. *)
Theorem ring_refines_queue {A} (n : Z) (ops : list (ring_op A)) :
  (trace ring_do (ring_at n) ops).1 = (trace queue_do [] ops).1 /\
  ring_queue (trace ring_do (ring_at n) ops).2 = (trace queue_do [] ops).2.
Proof.
  destruct (trace_refines ring_do queue_do (fun r q => ring_wf r /\ ring_queue r = q)
    (fun r q op => ring_step_refines r q op) ops _ _ (ring_at_wf n)) as (? & _ & ?).
  done.
Qed.
