(* ===== verification/Router.v ===== *)
(** * The asynchronous request router ([o9_router_*] in [o9_runtime.c])

    Requests of the 9P server are queued on the mailbox of their target and
    carried to the actor by worker processes.  Processes run concurrently, so
    the router is a transition function on a state that holds every process's
    position: an [event] names the process that moves (and what [proccreate]
    answers it); [run] follows a list of events.  A transition is
    what one process does between two points where another can interfere: a
    locked region, a ring operation, a channel operation, or the test of an
    unlocked flag.  Mailboxes are never freed; mailbox [i] has the address
    [mb_ptr i].  Memory allocation is assumed to succeed. *)
From S2P Require Import Prelude ObjTable Ring.

Open Scope Z_scope.

(** ** Data *)

(** A request of lib9p, by identity. *)
Abbreviation req := nat.

(** A reply; [rp_for] is the request it answers and exists only in the model. *)
Record O9Reply := MkReply { rp_for : option req; rp_err : option bytes }.

Record O9Slot := MkSlot {
  sl_r : req; sl_handle : Z; sl_sel : Z; sl_tag : Z; sl_flags : Z; sl_nargs : Z;
  sl_args : list Z; sl_extra_args : option (list Z); sl_caller : bytes;
  sl_target_class : bytes; sl_target_oid : bytes;
  sl_complete : bool; (* a completion callback is given *)
  sl_aux : option ptr }.

Record O9Comp := MkComp { cp_tag : Z; cp_status : Z; cp_reply : option O9Reply }.

(** The message an actor receives; [m_for] is the slot's request. *)
Record O9Msg := MkMsg {
  m_for : req; m_sel : Z; m_args : list Z; m_nargs : Z; m_caller : bytes; m_blessed : bool }.

Record O9Mailbox := MkMb {
  mb_target_class : bytes; mb_oid : bytes; mb_handle : Z; mb_dispatch_chan : option ptr;
  mb_replyc : list O9Reply; (* a channel with a buffer of one *)
  mb_t_ring : ring O9Slot; mb_r_ring : ring O9Comp; mb_next_tag : Z;
  mb_worker_running : bool; mb_in_flight : bool; mb_closed : bool }.

(** Where [o9_router_worker] stands. *)
Inductive worker_pc :=
  | WTop                                  (* for(;;): before [if(mb->closed)] *)
  | WTry                                  (* before the first consume *)
  | WIdle (idle : nat)                    (* head of the idle loop *)
  | WSleep (idle : nat)                   (* before the consume of the idle loop *)
  | WIdled (got : option O9Slot)          (* after the idle loop *)
  | WEmpty                                (* before qlock, nothing got *)
  | WHave (slot : O9Slot)                 (* before the handle is resolved *)
  | WSend (slot : O9Slot) (ent : Z)       (* before sendp to the entry's channel *)
  | WRecv (slot : O9Slot)                 (* before recvp *)
  | WFinish (slot : O9Slot) (reply : option O9Reply)
  | WExit                                 (* before the last qlock *)
  | WFault (slot : O9Slot)                (* sendp on a nil channel *)
  | WDead.

(** A process inside [o9_router_submit] (between the registration and the
    mailbox lock) or [o9_router_unregister_actor]. *)
Inductive client_pc :=
  | CPost (slot : O9Slot) (class oid : bytes) (dc : option ptr)
  | CClose (class oid : bytes)            (* before qlock *)
  | CDrain (mb : nat)                     (* in the drain loop, holding the lock *)
  | CDone.

Record router := MkRouter {
  rt_tab : objtab;
  rt_mbs : list O9Mailbox;                (* oldest first; the list is newest first *)
  rt_workers : list (nat * worker_pc);
  rt_clients : list client_pc;
  rt_locked : bool;                       (* o9_router.lk is held between events *)
  rt_inbox : list (nat * O9Msg);          (* sent, and not answered; with the mailbox of m.replyc *)
  rt_closing : list ptr;                  (* channels for which chanclosing() >= 0 *)
  rt_done : list (req * option O9Reply)   (* the calls of the completion callbacks *) }.

Definition router0 : router := MkRouter objtab0 [] [] [] false [] [] [].

#[export] Instance reply_eq_dec : EqDecision O9Reply.
Proof. solve_decision. Defined.

(** ** Field updates *)

Definition set_tab f s := MkRouter (f (rt_tab s)) (rt_mbs s) (rt_workers s) (rt_clients s) (rt_locked s) (rt_inbox s) (rt_closing s) (rt_done s).
Definition set_mbs f s := MkRouter (rt_tab s) (f (rt_mbs s)) (rt_workers s) (rt_clients s) (rt_locked s) (rt_inbox s) (rt_closing s) (rt_done s).
Definition set_workers f s := MkRouter (rt_tab s) (rt_mbs s) (f (rt_workers s)) (rt_clients s) (rt_locked s) (rt_inbox s) (rt_closing s) (rt_done s).
Definition set_clients f s := MkRouter (rt_tab s) (rt_mbs s) (rt_workers s) (f (rt_clients s)) (rt_locked s) (rt_inbox s) (rt_closing s) (rt_done s).
Definition set_locked b s := MkRouter (rt_tab s) (rt_mbs s) (rt_workers s) (rt_clients s) b (rt_inbox s) (rt_closing s) (rt_done s).
Definition set_inbox f s := MkRouter (rt_tab s) (rt_mbs s) (rt_workers s) (rt_clients s) (rt_locked s) (f (rt_inbox s)) (rt_closing s) (rt_done s).
Definition set_closing f s := MkRouter (rt_tab s) (rt_mbs s) (rt_workers s) (rt_clients s) (rt_locked s) (rt_inbox s) (f (rt_closing s)) (rt_done s).
Definition set_done f s := MkRouter (rt_tab s) (rt_mbs s) (rt_workers s) (rt_clients s) (rt_locked s) (rt_inbox s) (rt_closing s) (f (rt_done s)).

Definition mset_replyc f m := MkMb (mb_target_class m) (mb_oid m) (mb_handle m) (mb_dispatch_chan m) (f (mb_replyc m)) (mb_t_ring m) (mb_r_ring m) (mb_next_tag m) (mb_worker_running m) (mb_in_flight m) (mb_closed m).
Definition mset_t_ring r m := MkMb (mb_target_class m) (mb_oid m) (mb_handle m) (mb_dispatch_chan m) (mb_replyc m) r (mb_r_ring m) (mb_next_tag m) (mb_worker_running m) (mb_in_flight m) (mb_closed m).
Definition mset_r_ring r m := MkMb (mb_target_class m) (mb_oid m) (mb_handle m) (mb_dispatch_chan m) (mb_replyc m) (mb_t_ring m) r (mb_next_tag m) (mb_worker_running m) (mb_in_flight m) (mb_closed m).
Definition mset_next_tag t m := MkMb (mb_target_class m) (mb_oid m) (mb_handle m) (mb_dispatch_chan m) (mb_replyc m) (mb_t_ring m) (mb_r_ring m) t (mb_worker_running m) (mb_in_flight m) (mb_closed m).
Definition mset_running b m := MkMb (mb_target_class m) (mb_oid m) (mb_handle m) (mb_dispatch_chan m) (mb_replyc m) (mb_t_ring m) (mb_r_ring m) (mb_next_tag m) b (mb_in_flight m) (mb_closed m).
Definition mset_in_flight b m := MkMb (mb_target_class m) (mb_oid m) (mb_handle m) (mb_dispatch_chan m) (mb_replyc m) (mb_t_ring m) (mb_r_ring m) (mb_next_tag m) (mb_worker_running m) b (mb_closed m).
Definition mset_open dc h c m := MkMb (mb_target_class m) (mb_oid m) h dc (mb_replyc m) (mb_t_ring m) (mb_r_ring m) (mb_next_tag m) (mb_worker_running m) (mb_in_flight m) c.

Definition upd_mb (i : nat) (f : O9Mailbox -> O9Mailbox) (s : router) : router := set_mbs (alter f i) s.
Definition upd_worker (k : nat) (pc : worker_pc) (s : router) : router :=
  set_workers (alter (fun w => (w.1, pc)) k) s.
Definition upd_client (k : nat) (pc : client_pc) (s : router) : router := set_clients (<[k := pc]>) s.

Definition mb_ptr (i : nat) : ptr := Pos.of_succ_nat i.
Definition mb_index (p : ptr) : nat := pred (Pos.to_nat p).

(** ** The operations *)

Definition o9_router_error_reply (error : bytes) : O9Reply := MkReply None (Some error).

Definition terminated : O9Reply := o9_router_error_reply (str "actor terminated").

(** [if(slot.complete != nil) slot.complete(&slot, reply)] *)
Definition complete (r : req) (cb : bool) (reply : option O9Reply) (s : router) : router :=
  if cb then set_done (fun d => d ++ [(r, reply)]) s else s.

Definition o9_router_fail_request (r : req) (cb : bool) (s : router) : router := complete r cb None s.

Definition mb_is (class oid : bytes) (m : O9Mailbox) : bool :=
  (mb_target_class m =? class)%c && (mb_oid m =? oid)%c.

(** The newest mailbox of the name, as the list is searched. *)
Fixpoint find_mb (class oid : bytes) (mbs : list O9Mailbox) (i : nat) : option nat :=
  match mbs with
  | [] => None
  | m :: mbs' =>
      match find_mb class oid mbs' (S i) with
      | Some j => Some j
      | None => if mb_is class oid m then Some i else None
      end
  end.

Definition new_mailbox (class oid : bytes) (dc : option ptr) (handle : Z) : O9Mailbox :=
  MkMb (strncpy 64 class) (strncpy 64 oid) handle dc [] ring0 ring0 0 false false false.

Definition o9_router_get_mailbox_locked (class oid : bytes) (dc : option ptr) (handle : Z)
    (s : router) : nat * router :=
  match find_mb class oid (rt_mbs s) 0 with
  | Some i =>
      (i, upd_mb i (fun m => mset_open (or_else dc (mb_dispatch_chan m))
                       (if decide (handle <> 0) then handle else mb_handle m)
                       (if decide (handle <> 0) then false else mb_closed m) m) s)
  | None => (length (rt_mbs s), set_mbs (fun l => l ++ [new_mailbox class oid dc handle]) s)
  end.

Definition chan_ok (s : router) (c : option ptr) : option ptr :=
  match c with Some p => if decide (p ∈ rt_closing s) then None else Some p | None => None end.

(** The slot that [o9_router_submit] fills in. *)
Definition make_slot (r : req) (handle sel : Z) (args : list Z) (caller : bytes) (blessed : bool)
    (class oid : bytes) (cb : bool) (aux : option ptr) : O9Slot :=
  let nargs := Z.of_nat (length args) in
  MkSlot r handle sel 0 (if blessed then 1 else 0) nargs
    (if decide (nargs <= 4) then args ++ replicate (4 - length args) 0 else replicate 4 0)
    (if decide (nargs <= 4) then None else Some args)
    (strncpy 64 caller) (strncpy 64 class) (strncpy 64 oid) cb aux.

(** [o9_router_submit] up to the mailbox lock. *)
Definition o9_router_submit (r : req) (class oid : bytes) (inst dc : option ptr) (sel : Z)
    (args : list Z) (caller : bytes) (blessed : bool) (cb : bool) (aux : option ptr) (s : router) : router :=
  match chan_ok s dc with
  | None => o9_router_fail_request r cb s
  | Some p =>
      let '(handle, t) := o9_objtab_register (Some class) (Some oid) inst (Some p) (rt_tab s) in
      let s := set_tab (fun _ => t) s in
      if decide (handle = 0) then o9_router_fail_request r cb s
      else set_clients (fun l => l ++ [CPost (make_slot r handle sel args caller blessed class oid cb aux)
                                         class oid dc]) s
  end.

Definition mb_at (s : router) (i : nat) : O9Mailbox :=
  default (new_mailbox [] [] None 0) (rt_mbs s !! i).

Definition consume_t (i : nat) (s : router) : option O9Slot * router :=
  let '(x, r) := o9_tring_consume (mb_t_ring (mb_at s i)) in (x, upd_mb i (mset_t_ring r) s).

Definition entry_mb (s : router) (idx : Z) : option ptr := en_mb (entry_at (rt_tab s) idx).
Definition set_entry_mb (idx : Z) (mb : nat) (s : router) : router :=
  set_tab (fun t => let e := entry_at t idx in
    set_entry idx (MkEntry (en_gen e) (en_active e) (en_class e) (en_oid e) (en_inst e) (en_chan e)
                     (Some (mb_ptr mb))) t) s.

(** The mailbox of a slot: the entry's, or the one found by name. *)
Definition post_mailbox (slot : O9Slot) (class oid : bytes) (dc : option ptr) (s : router) : nat * router :=
  let idx := Z.land (sl_handle slot) 65535 in
  let fresh := let '(i, s') := o9_router_get_mailbox_locked class oid dc (sl_handle slot) s in
               (i, set_entry_mb idx i s') in
  match entry_mb s idx with
  | None => fresh
  | Some p =>
      let i := mb_index p in
      if mb_closed (mb_at s i) then fresh
      else (i, upd_mb i (fun m => mset_open (or_else dc (mb_dispatch_chan m)) (sl_handle slot) (mb_closed m) m) s)
  end.

(** [o9_router_submit] under the mailbox lock; [proc_ok] is what
    [proccreate] answers. *)
Definition o9_router_post (slot : O9Slot) (class oid : bytes) (dc : option ptr) (proc_ok : bool)
    (s : router) : router :=
  let fail s := o9_router_fail_request (sl_r slot) (sl_complete slot) s in
  let '(i, s) := post_mailbox slot class oid dc s in
  if mb_closed (mb_at s i) then fail s
  else
    let tag := mb_next_tag (mb_at s i) in
    let slot := MkSlot (sl_r slot) (sl_handle slot) (sl_sel slot) tag (sl_flags slot) (sl_nargs slot)
                  (sl_args slot) (sl_extra_args slot) (sl_caller slot) (sl_target_class slot)
                  (sl_target_oid slot) (sl_complete slot) (sl_aux slot) in
    let s := upd_mb i (mset_next_tag (u16 (tag + 1))) s in
    let '(ret, ring) := o9_tring_submit (mb_t_ring (mb_at s i)) slot in
    let s := upd_mb i (mset_t_ring ring) s in
    if decide (ret < 0) then fail s
    else if mb_worker_running (mb_at s i) then s
    else if proc_ok then set_workers (fun l => l ++ [(i, WTop)]) (upd_mb i (mset_running true) s)
    else fail (consume_t i (upd_mb i (mset_running false) s)).2.

Definition msg_of_slot (slot : O9Slot) : O9Msg :=
  MkMsg (sl_r slot) (sl_sel slot)
    (match sl_extra_args slot with
     | Some x => if decide (4 < sl_nargs slot) then x else sl_args slot
     | None => sl_args slot
     end)
    (sl_nargs slot) (sl_caller slot) (bool_decide (Z.land (sl_flags slot) 1 <> 0)).

Definition reply_ok (reply : option O9Reply) : bool :=
  match reply with Some rp => bool_decide (rp_err rp = None) | None => false end.

(** [comp.tag = ...; o9_rring_complete(...); slot.complete(&slot, reply)] *)
Definition finish (i : nat) (slot : O9Slot) (status : Z) (reply : option O9Reply) (s : router) : router :=
  let '(_, r) := o9_tring_submit (mb_r_ring (mb_at s i)) (MkComp (sl_tag slot) status reply) in
  complete (sl_r slot) (sl_complete slot) reply (upd_mb i (mset_r_ring r) s).

(** One step of [o9_router_worker]; [ok] is the answer of [proccreate] where
    the step makes that call.  [sendp] fails on a closed channel. *)
Definition o9_router_worker (k i : nat) (pc : worker_pc) (ok : bool) (s : router) : option router :=
  let closed := mb_closed (mb_at s i) in
  match pc with
  | WTop => Some (upd_worker k (if closed then WExit else WTry) s)
  | WTry => let '(x, s) := consume_t i s in
            Some (upd_worker k (match x with Some slot => WHave slot | None => WIdle 0 end) s)
  | WIdle idle =>
      Some (upd_worker k (if decide (idle < 50)%nat then if closed then WIdled None else WSleep idle
                          else WIdled None) s)
  | WSleep idle => let '(x, s) := consume_t i s in
                   Some (upd_worker k (match x with Some slot => WIdled (Some slot) | None => WIdle (S idle) end) s)
  | WIdled got => Some (upd_worker k (if closed then WExit else
                          match got with Some slot => WHave slot | None => WEmpty end) s)
  | WEmpty =>
      if rt_locked s then None
      else if decide (o9_tring_len (mb_t_ring (mb_at s i)) = 0)
      then Some (upd_worker k WExit (upd_mb i (mset_running false) s))
      else Some (upd_worker k WTop s)
  | WHave slot =>
      match o9_objtab_resolve (sl_handle slot) (rt_tab s) with
      | Some (idx, ent) =>
          match chan_ok s (en_chan ent), closed with
          | Some _, false => Some (upd_worker k (WSend slot idx) (upd_mb i (mset_in_flight true) s))
          | _, _ => Some (upd_worker k WTop (finish i slot 1 (Some terminated) s))
          end
      | None => Some (upd_worker k WTop (finish i slot 1 (Some terminated) s))
      end
  | WSend slot idx =>
      match en_chan (entry_at (rt_tab s) idx) with
      | None => Some (upd_worker k (WFault slot) s)
      | Some p =>
          if decide (p ∈ rt_closing s) then Some (upd_worker k (WFinish slot (Some terminated)) s)
          else Some (upd_worker k (WRecv slot) (set_inbox (fun l => l ++ [(i, msg_of_slot slot)]) s))
      end
  | WRecv slot =>
      match mb_replyc (mb_at s i) with
      | [] => None
      | reply :: rest => Some (upd_worker k (WFinish slot (Some reply)) (upd_mb i (mset_replyc (fun _ => rest)) s))
      end
  | WFinish slot reply =>
      Some (upd_worker k WTop (finish i slot (if reply_ok reply then 0 else 1) reply (upd_mb i (mset_in_flight false) s)))
  | WExit =>
      if rt_locked s then None
      else
        let m := mb_at s i in
        let s := upd_worker k WDead (upd_mb i (mset_running false) s) in
        if decide (mb_closed m = false /\ 0 < o9_tring_len (mb_t_ring m)) then
          let s := upd_mb i (mset_running true) s in
          Some (if ok then set_workers (fun l => l ++ [(i, WTop)]) s else s)
        else Some s
  | WFault _ | WDead => None
  end.

(** [o9_router_unregister_actor]: the closing of the mailbox, after the
    object table was updated. *)
Definition o9_router_close (k : nat) (class oid : bytes) (s : router) : router :=
  match find_mb class oid (rt_mbs s) 0 with
  | None => upd_client k CDone s
  | Some i =>
      let nb := fun m => if mb_in_flight m then
                  mset_replyc (fun l => if decide (l = []) then [terminated] else l) m else m in
      set_locked true (upd_client k (CDrain i)
        (upd_mb i (fun m => nb (mset_open None (mb_handle m) true m)) s))
  end.

(** One round of its drain loop. *)
Definition o9_router_drain (k i : nat) (s : router) : router :=
  let '(x, s) := consume_t i s in
  match x with
  | Some slot => complete (sl_r slot) (sl_complete slot) (Some terminated) s
  | None => set_locked false (upd_client k CDone s)
  end.

Definition client_step (k : nat) (ok : bool) (s : router) : option router :=
  match rt_clients s !! k with
  | Some (CPost slot class oid dc) =>
      if rt_locked s then None
      else Some (o9_router_post slot class oid dc ok (upd_client k CDone s))
  | Some (CClose class oid) =>
      if rt_locked s then None else Some (o9_router_close k class oid s)
  | Some (CDrain i) => Some (o9_router_drain k i s)
  | Some CDone | None => None
  end.

(** An actor answers the [n]th message that was sent, on its [replyc]: it
    waits while the buffer is full. *)
Definition actor_reply (n : nat) (err : option bytes) (s : router) : option router :=
  match rt_inbox s !! n with
  | Some (i, m) =>
      match mb_replyc (mb_at s i) with
      | [] => Some (set_inbox (delete n) (upd_mb i (mset_replyc (fun l => l ++ [MkReply (Some (m_for m)) err])) s))
      | _ => None
      end
  | None => None
  end.

Inductive event :=
  | ESubmit (r : req) (class oid : bytes) (inst dc : option ptr) (sel : Z) (args : list Z)
      (caller : bytes) (blessed cb : bool) (aux : option ptr)
  | EUnregister (class oid : bytes)
  | EClient (k : nat) (ok : bool)
  | EWorker (k : nat) (ok : bool)
  | EReply (n : nat) (err : option bytes)
  | EChanClose (c : ptr).

Definition step (ev : event) (s : router) : option router :=
  match ev with
  | ESubmit r class oid inst dc sel args caller blessed cb aux =>
      Some (o9_router_submit r class oid inst dc sel args caller blessed cb aux s)
  | EUnregister class oid =>
      Some (set_clients (fun l => l ++ [CClose class oid])
              (set_tab (o9_objtab_unregister (Some class) (Some oid)) s))
  | EClient k ok => client_step k ok s
  | EWorker k ok => w ← rt_workers s !! k; o9_router_worker k w.1 w.2 ok s
  | EReply n err => actor_reply n err s
  | EChanClose c => Some (set_closing (fun l => c :: l) s)
  end.

Fixpoint run (evs : list event) (s : router) : option router :=
  match evs with
  | [] => Some s
  | ev :: evs' => s' ← step ev s; run evs' s'
  end.
