(* ===== verification/RouterSpec.v ===== *)
(** * What the router guarantees, and what it does not

    Invariants of every reachable state of [Router], over every interleaving
    of submitters, workers, actors and unregistrations; and three reachable
    states that break the correlation of requests and replies. *)
From S2P Require Import Prelude ObjTable Ring Router.

Open Scope nat_scope.

(** ** Schedules *)

Definition c_ : bytes := str "c".
Definition o_ : bytes := str "o".
Definition sub (r : req) : event := ESubmit r c_ o_ None (Some 1%positive) 7 [] [] false true None.
Definition rep {A} (n : nat) (l : list A) : list A := concat (replicate n l).
Definition w (k : nat) : event := EWorker k true.

(** Worker [k] from the top to after its send. *)
Definition to_recv (k : nat) : list event := rep 4 [w k].
(** Worker [k] from its receive to the top. *)
Definition to_top (k : nat) : list event := rep 2 [w k].
(** Worker [k] finds nothing to do, and gives up. *)
Definition finds_nothing (k : nat) : list event := rep 2 [w k] ++ rep 101 [w k] ++ [w k; w k].

(** Between its two locked regions a worker that gave up still runs: the
    request queued there starts a second worker, and the first one starts a
    third. *)
Definition two_workers : list event :=
  [sub 0; EClient 0 true] ++ to_recv 0 ++ [EReply 0 None] ++ to_top 0 ++ finds_nothing 0 ++
  [sub 1; EClient 1 true; w 0] ++ to_recv 1 ++
  [sub 2; EClient 2 true] ++ to_recv 2 ++
  [EReply 0 None] ++ to_top 2 ++ [EReply 0 None] ++ to_top 1.

(** An actor is unregistered while it runs a request, answers late, and a
    successor of the same name is called. *)
Definition late_reply : list event :=
  [sub 0; EClient 0 true] ++ to_recv 0 ++
  [EUnregister c_ o_; EClient 1 true; EClient 1 true] ++ to_top 0 ++ [w 0; w 0] ++
  [EReply 0 None] ++
  [sub 1; EClient 2 true] ++ to_recv 1 ++ to_top 1.

(** A mailbox is closed between the consume of a worker's idle loop and the
    test that follows the loop: the slot is gone. *)
Definition lost_request : list event :=
  [sub 0; EClient 0 true] ++ to_recv 0 ++ [EReply 0 None] ++ to_top 0 ++ rep 3 [w 0] ++
  [w 0; sub 1; EClient 1 true] ++ rep 2 [w 0] ++
  [EUnregister c_ o_; EClient 2 true; EClient 2 true; w 0; w 0].

Definition completions (s : router) : list (req * option (option req)) :=
  map (fun p : req * option O9Reply => (p.1, option_map rp_for p.2)) (rt_done s).

(** Two workers of one mailbox take each other's replies. *)
Lemma replies_swapped :
  option_map completions (run two_workers router0) =
    Some [(0, Some (Some 0)); (2, Some (Some 1)); (1, Some (Some 2))].
Proof. vm_compute. reflexivity. Qed.

(** The reply of a terminated actor answers a request to its successor. *)
Lemma late_reply_delivered :
  option_map completions (run late_reply router0) = Some [(0, Some None); (1, Some (Some 0))].
Proof. vm_compute. reflexivity. Qed.

(** Request 1 was accepted, is held nowhere and is never answered. *)
Lemma request_lost :
  option_map (fun s => (completions s, rt_workers s, rt_clients s, ring_queue (mb_t_ring (mb_at s 0))))
    (run lost_request router0) =
  Some ([(0, Some (Some 0))], [(0, WDead)], [CDone; CDone; CDone], []).
Proof. vm_compute. reflexivity. Qed.

(** ** Invariant *)

Definition queue (m : O9Mailbox) : list O9Slot := ring_queue (mb_t_ring m).

(** An unregistration empties mailbox [i] under the lock. *)
Definition draining (s : router) (i : nat) : Prop := exists k, rt_clients s !! k = Some (CDrain i).

Record inv (s : router) : Prop := {
  iv_ring : forall i m, rt_mbs s !! i = Some m -> ring_wf (mb_t_ring m);
  iv_entry : forall n e p, ot_entries (rt_tab s) !! n = Some e -> en_mb e = Some p ->
    mb_index p < length (rt_mbs s);
  iv_locked : forall k i, rt_clients s !! k = Some (CDrain i) -> rt_locked s = true;
  iv_one : forall k k' i i', rt_clients s !! k = Some (CDrain i) ->
    rt_clients s !! k' = Some (CDrain i') -> k = k';
  iv_idle : forall i m, rt_mbs s !! i = Some m ->
    mb_worker_running m = false \/ mb_closed m = true -> queue m = [] \/ draining s i }.

Lemma router_inv0 : inv router0.
Proof.
  split; try (intros; done). intros n e p Hn.
  change (replicate O9_MAX_OBJECTS entry0 !! n = Some e) in Hn. by apply lookup_replicate in Hn as [-> _].
Qed.

(** *** The updates that leave the invariant alone *)

Lemma inv_same s s' : inv s -> rt_tab s' = rt_tab s -> rt_mbs s' = rt_mbs s ->
  rt_clients s' = rt_clients s -> rt_locked s' = rt_locked s -> inv s'.
Proof. intros [] Ht Hm Hc Hl. split; unfold draining; rewrite ?Ht, ?Hm, ?Hc, ?Hl; done. Qed.

Lemma inv_tab f s : inv s ->
  (forall n e', ot_entries (f (rt_tab s)) !! n = Some e' ->
     en_mb e' = None \/ exists e, ot_entries (rt_tab s) !! n = Some e /\ en_mb e' = en_mb e) ->
  inv (set_tab f s).
Proof.
  intros [H1 H2 H3 H4 H5] Hf. split; try done. intros n e' p Hn Hp.
  destruct (Hf n e' Hn) as [?|(e & He & E)]; [congruence|]. apply (H2 n e); [done|congruence].
Qed.

(** A client that is neither in nor enters a drain loop. *)
Lemma inv_client k pc pc' s : inv s -> rt_clients s !! k = Some pc ->
  (forall i, pc <> CDrain i) -> (forall i, pc' <> CDrain i) -> inv (upd_client k pc' s).
Proof.
  intros [H1 H2 H3 H4 H5] Hk Hpc Hpc'.
  assert (E : forall k' i, rt_clients (upd_client k pc' s) !! k' = Some (CDrain i) <->
    rt_clients s !! k' = Some (CDrain i)).
  { intros k' i. simpl. rewrite list_lookup_insert_Some. split.
    - intros [(-> & E & _)|[_ ?]]; [by destruct (Hpc' i)|done].
    - intros E. right. split; [|done]. intros ->. rewrite Hk in E. injection E as E. by apply (Hpc i). }
  split; [done|done|..].
  - intros k' i ?%E. by eapply H3.
  - intros k1 k2 i1 i2 ?%E ?%E. by eapply H4.
  - intros i m Hm Hr. destruct (H5 i m Hm Hr) as [?|[k' ?]]; [by left|]. right. exists k'. by apply E.
Qed.

Lemma inv_client_new pc s : inv s -> (forall i, pc <> CDrain i) ->
  inv (set_clients (fun l => l ++ [pc]) s).
Proof.
  intros [H1 H2 H3 H4 H5] Hpc.
  assert (E : forall k' i, rt_clients (set_clients (fun l => l ++ [pc]) s) !! k' = Some (CDrain i) <->
    rt_clients s !! k' = Some (CDrain i)).
  { intros k' i. simpl. rewrite lookup_snoc_Some. split.
    - intros [[_ ?]|[_ E]]; [done|]. by destruct (Hpc i).
    - intros E. left. split; [by eapply lookup_lt_Some|done]. }
  split; [done|done|..].
  - intros k' i ?%E. by eapply H3.
  - intros k1 k2 i1 i2 ?%E ?%E. by eapply H4.
  - intros i m Hm Hr. destruct (H5 i m Hm Hr) as [?|[k' ?]]; [by left|]. right. exists k'. by apply E.
Qed.

Lemma inv_mb i f s : inv s ->
  (forall m, rt_mbs s !! i = Some m -> ring_wf (mb_t_ring (f m)) /\
     (mb_worker_running (f m) = false \/ mb_closed (f m) = true -> queue (f m) = [] \/ draining s i)) ->
  inv (upd_mb i f s).
Proof.
  intros [H1 H2 H3 H4 H5] Hf.
  assert (E : forall j m', rt_mbs (upd_mb i f s) !! j = Some m' ->
    exists m, rt_mbs s !! j = Some m /\ ((j = i /\ m' = f m) \/ (j <> i /\ m' = m))).
  { intros j m'. simpl. rewrite list_lookup_alter. case_decide; [|eauto 10].
    intros (m & ? & ?)%fmap_Some. subst. eauto 10. }
  split.
  - intros j m' (m & Hm & [[-> ->]|[_ ->]])%E; [by apply Hf|by eapply H1].
  - intros. simpl. rewrite length_alter. by eapply H2.
  - done.
  - done.
  - intros j m' (m & Hm & [[-> ->]|[_ ->]])%E; [by apply Hf|by apply H5].
Qed.

(** An update of other fields than the ring and the two flags. *)
Lemma inv_mb_same i f s : inv s ->
  (forall m, mb_t_ring (f m) = mb_t_ring m /\ mb_worker_running (f m) = mb_worker_running m /\
     mb_closed (f m) = mb_closed m) ->
  inv (upd_mb i f s).
Proof.
  intros Hi Hf. apply inv_mb; [done|]. intros m Hm. unfold queue. destruct (Hf m) as (-> & -> & ->).
  split; [by eapply iv_ring|]. by apply (iv_idle s Hi i m).
Qed.

Lemma inv_mb_new m s : inv s -> queue m = [] -> ring_wf (mb_t_ring m) ->
  inv (set_mbs (fun l => l ++ [m]) s).
Proof.
  intros [H1 H2 H3 H4 H5] Hq Hw. split; simpl; [| |done..|].
  - intros i x [[_ ?]|[_ <-]]%lookup_snoc_Some; eauto.
  - intros. rewrite length_app. apply Nat.lt_lt_add_r. by eapply H2.
  - intros i x [[_ ?]|[_ <-]]%lookup_snoc_Some; [by apply H5|by left].
Qed.

(** *** Consuming a slot *)

Lemma consume_t_spec i s : inv s ->
  (consume_t i s).1 = head (queue (mb_at s i)) /\
  (consume_t i s).2 = upd_mb i (mset_t_ring (o9_tring_consume (mb_t_ring (mb_at s i))).2) s /\
  inv (consume_t i s).2 /\
  forall m, rt_mbs s !! i = Some m ->
    queue (mset_t_ring (o9_tring_consume (mb_t_ring (mb_at s i))).2 m) = tail (queue m).
Proof.
  intros Hi. unfold consume_t, queue.
  assert (Hw : ring_wf (mb_t_ring (mb_at s i))).
  { unfold mb_at. destruct (rt_mbs s !! i) eqn:E; simpl; [by eapply iv_ring|apply ring0_wf]. }
  pose proof (consume_spec _ Hw) as Hc. destruct (o9_tring_consume _) as [x r]. simpl.
  destruct Hc as (Hr & -> & Hq). assert (Hm : forall m, rt_mbs s !! i = Some m -> mb_at s i = m).
  { intros m E. unfold mb_at. by rewrite E. }
  split_and!; [done|done| |].
  - apply inv_mb; [done|]. intros m E. split; [done|]. unfold queue. simpl. rewrite Hq, (Hm m E).
    intros Hflags. destruct (iv_idle s Hi i m E Hflags) as [E'|]; [left|by right].
    unfold queue in E'. by rewrite E'.
  - intros m E. by rewrite Hq, (Hm m E).
Qed.

(** ** Counting requests *)

Definition hits (r : req) (slot : O9Slot) : nat :=
  if sl_complete slot && bool_decide (sl_r slot = r) then 1 else 0.

Definition ohits (r : req) (x : option O9Slot) : nat := match x with Some slot => hits r slot | None => 0 end.

(** The slots that a worker, a submitter, a mailbox holds. *)
Definition whits (r : req) (w : nat * worker_pc) : nat :=
  match w.2 with
  | WIdled x => ohits r x
  | WHave slot | WSend slot _ | WRecv slot | WFinish slot _ | WFault slot => hits r slot
  | _ => 0
  end.

Definition chits (r : req) (c : client_pc) : nat :=
  match c with CPost slot _ _ _ => hits r slot | _ => 0 end.

Definition qhits (r : req) (m : O9Mailbox) : nat := sum_list_with (hits r) (queue m).

Definition ahits (r : req) (p : req * option O9Reply) : nat := if decide (p.1 = r) then 1 else 0.

(** How often the callback of [r] was called, and how many of its slots are
    somewhere in the router. *)
Definition answered (r : req) (s : router) : nat := sum_list_with (ahits r) (rt_done s).

Definition held (r : req) (s : router) : nat :=
  sum_list_with (qhits r) (rt_mbs s) + sum_list_with (whits r) (rt_workers s) +
  sum_list_with (chits r) (rt_clients s).

Definition total (r : req) (s : router) : nat := answered r s + held r s.

Lemma total_worker r k i pc pc' s : rt_workers s !! k = Some (i, pc) ->
  total r (upd_worker k pc' s) + whits r (i, pc) = total r s + whits r (i, pc').
Proof.
  intros H. pose proof (sum_list_alter (whits r) (fun w => (w.1, pc')) _ _ _ H).
  unfold total, held, answered. simpl in *. lia.
Qed.

Lemma total_worker_new r i pc s : total r (set_workers (fun l => l ++ [(i, pc)]) s) = total r s + whits r (i, pc).
Proof. unfold total, held, answered. simpl. rewrite sum_list_with_app. simpl. lia. Qed.

Lemma total_client r k pc pc' s : rt_clients s !! k = Some pc ->
  total r (upd_client k pc' s) + chits r pc = total r s + chits r pc'.
Proof.
  intros H. pose proof (sum_list_insert (chits r) _ _ _ pc' H).
  unfold total, held, answered. simpl in *. lia.
Qed.

Lemma total_client_new r pc s : total r (set_clients (fun l => l ++ [pc]) s) = total r s + chits r pc.
Proof. unfold total, held, answered. simpl. rewrite sum_list_with_app. simpl. lia. Qed.

Lemma total_mb r i f s m : rt_mbs s !! i = Some m ->
  total r (upd_mb i f s) + qhits r m = total r s + qhits r (f m).
Proof.
  intros H. pose proof (sum_list_alter (qhits r) f _ _ _ H).
  unfold total, held, answered. simpl in *. lia.
Qed.

Lemma total_mb_same r i f s : (forall m, mb_t_ring (f m) = mb_t_ring m) ->
  total r (upd_mb i f s) = total r s.
Proof.
  intros H. unfold total, held, answered. simpl.
  rewrite sum_list_alter_same; [done|]. intros m. unfold qhits, queue. by rewrite H.
Qed.

Lemma total_mb_new r m s : queue m = [] -> total r (set_mbs (fun l => l ++ [m]) s) = total r s.
Proof.
  intros H. unfold total, held, answered. simpl. rewrite sum_list_with_app. simpl.
  unfold qhits at 2. rewrite H. simpl. lia.
Qed.

Lemma total_complete r r' cb reply s :
  total r (complete r' cb reply s) = total r s + (if cb && bool_decide (r' = r) then 1 else 0).
Proof.
  unfold complete. destruct cb; [|simpl; lia].
  unfold total, held, answered. simpl. rewrite sum_list_with_app. simpl. unfold ahits. simpl.
  case_decide; case_bool_decide; lia || done.
Qed.

Lemma total_consume r i s : inv s ->
  total r (consume_t i s).2 + ohits r (consume_t i s).1 = total r s.
Proof.
  intros Hi. destruct (consume_t_spec i s Hi) as (Hx & Hs & _ & Hq). rewrite Hx, Hs.
  destruct (rt_mbs s !! i) as [m|] eqn:E.
  - specialize (Hq m eq_refl). set (r' := (o9_tring_consume _).2) in *.
    pose proof (total_mb r i (mset_t_ring r') s m E) as H. unfold qhits in H. rewrite Hq in H.
    unfold mb_at. rewrite E. simpl. destruct (queue m); simpl in *; lia.
  - unfold mb_at. rewrite E. simpl. unfold total, held, answered. simpl.
    rewrite alter_none by done. lia.
Qed.

Lemma inv_worker k pc s : inv s -> inv (upd_worker k pc s).
Proof. intros. by eapply inv_same. Qed.

Lemma inv_complete r cb reply s : inv s -> inv (complete r cb reply s).
Proof. intros. unfold complete. destruct cb; [by eapply inv_same|done]. Qed.

Lemma finish_spec i slot st reply s : inv s ->
  inv (finish i slot st reply s) /\
  (forall r, total r (finish i slot st reply s) = total r s + hits r slot) /\
  rt_workers (finish i slot st reply s) = rt_workers s.
Proof.
  intros Hi. unfold finish. destruct (o9_tring_submit _ _) as [ret r']. split_and!.
  - apply inv_complete, inv_mb_same; [done|]. done.
  - intros r. rewrite total_complete. by rewrite total_mb_same.
  - unfold complete. by destruct (sl_complete slot).
Qed.

(** What a worker step throws away. *)
Definition lost_by (r : req) (s : router) (i : nat) (pc : worker_pc) : nat :=
  match pc with
  | WIdled (Some slot) => if mb_closed (mb_at s i) then hits r slot else 0
  | _ => 0
  end.

Section worker.
Variables (k i : nat) (pc : worker_pc) (s : router).
Hypothesis Hi : inv s.
Hypothesis Hk : rt_workers s !! k = Some (i, pc).

(** The worker moves after an update that leaves the processes alone. *)
Lemma worker_move pc' s1 : inv s1 -> rt_workers s1 = rt_workers s ->
  inv (upd_worker k pc' s1) /\
  forall r, total r (upd_worker k pc' s1) + whits r (i, pc) = total r s1 + whits r (i, pc').
Proof.
  intros H1 Hw. split; [by apply inv_worker|]. intros r. apply total_worker. by rewrite Hw.
Qed.

Lemma worker_finish slot st reply s1 : inv s1 -> rt_workers s1 = rt_workers s ->
  (forall r, total r s1 = total r s) -> (forall r, whits r (i, pc) = hits r slot) ->
  inv (upd_worker k WTop (finish i slot st reply s1)) /\
  forall r, total r (upd_worker k WTop (finish i slot st reply s1)) = total r s.
Proof.
  intros H1 Hw Ht Hh. destruct (finish_spec i slot st reply s1 H1) as (H2 & Hf & Hw2).
  destruct (worker_move WTop _ H2) as [? Hm]; [congruence|]. split; [done|]. intros r.
  specialize (Hm r). rewrite Hh, Hf, Ht in Hm. unfold whits in Hm. simpl in Hm. lia.
Qed.

(** It takes a slot from the ring, or finds it empty. *)
Lemma worker_consume f : (forall r, whits r (i, pc) = 0) ->
  (forall x r, whits r (i, f x) = ohits r x) ->
  inv (upd_worker k (f (consume_t i s).1) (consume_t i s).2) /\
  forall r, total r (upd_worker k (f (consume_t i s).1) (consume_t i s).2) = total r s.
Proof.
  intros Hpc Hf. destruct (consume_t_spec i s Hi) as (_ & _ & Hci & _).
  destruct (worker_move (f (consume_t i s).1) _ Hci) as [? Hm].
  { unfold consume_t. by destruct (o9_tring_consume _). }
  split; [done|]. intros r. specialize (Hm r). rewrite Hpc, Hf in Hm.
  pose proof (total_consume r i s Hi). lia.
Qed.

(** It changes a flag of its mailbox that the queue does not depend on. *)
Lemma worker_flag pc' f :
  (forall m, mb_t_ring (f m) = mb_t_ring m /\ mb_worker_running (f m) = mb_worker_running m /\
     mb_closed (f m) = mb_closed m) ->
  (forall r, whits r (i, pc') = whits r (i, pc)) ->
  inv (upd_worker k pc' (upd_mb i f s)) /\ forall r, total r (upd_worker k pc' (upd_mb i f s)) = total r s.
Proof.
  intros Hf Hh. destruct (worker_move pc' (upd_mb i f s)) as [? Hm]; [by apply inv_mb_same|done|].
  split; [done|]. intros r. specialize (Hm r). rewrite Hh, total_mb_same in Hm by (intros m; by destruct (Hf m)).
  lia.
Qed.

(** It changes [worker_running] while it holds the lock. *)
Lemma worker_running pc' b : rt_locked s = false ->
  (b = false -> queue (mb_at s i) = []) ->
  (forall r, whits r (i, pc') = whits r (i, pc)) ->
  inv (upd_worker k pc' (upd_mb i (mset_running b) s)) /\
  forall r, total r (upd_worker k pc' (upd_mb i (mset_running b) s)) = total r s.
Proof.
  intros Hl Hb Hh. destruct (worker_move pc' (upd_mb i (mset_running b) s)) as [? Hm]; [|done|].
  - apply inv_mb; [done|]. intros m Hm. split; [exact (iv_ring s Hi i m Hm)|]. simpl. intros Hflags. left.
    unfold mb_at in Hb. rewrite Hm in Hb. simpl in Hb. unfold queue in *. simpl.
    destruct b; [|by apply Hb]. destruct Hflags as [?|Hc]; [done|].
    destruct (iv_idle s Hi i m Hm (or_intror Hc)) as [?|[k' Hk']]; [done|].
    apply (iv_locked s Hi) in Hk'. congruence.
  - split; [done|]. intros r. specialize (Hm r). rewrite Hh, total_mb_same in Hm by done. lia.
Qed.
End worker.

Lemma upd_mb_twice i f g s : upd_mb i f (upd_mb i g s) = upd_mb i (fun m => f (g m)) s.
Proof. unfold upd_mb, set_mbs. simpl. by rewrite list_alter_alter_eq. Qed.

Lemma mb_at_len s i : inv s -> o9_tring_len (mb_t_ring (mb_at s i)) = Z.of_nat (length (queue (mb_at s i))).
Proof.
  intros Hi. apply len_spec. unfold mb_at. destruct (rt_mbs s !! i) eqn:E; simpl; [by eapply iv_ring|apply ring0_wf].
Qed.

Lemma worker_exit k i (ok : bool) s : inv s -> rt_workers s !! k = Some (i, WExit) ->
  rt_locked s = false ->
  let m := mb_at s i in
  let s1 := upd_worker k WDead (upd_mb i (mset_running false) s) in
  let s2 := upd_mb i (mset_running true) s1 in
  let s' := if decide (mb_closed m = false /\ (0 < o9_tring_len (mb_t_ring m))%Z)
            then if ok then set_workers (fun l => l ++ [(i, WTop)]) s2 else s2 else s1 in
  inv s' /\ forall r, total r s' = total r s.
Proof.
  intros Hi Hk Hl m s1 s2 s'. pose proof (mb_at_len s i Hi) as Hlen. fold m in Hlen. unfold s'. rewrite Hlen. case_decide as Hd.
  - assert (E : s2 = upd_worker k WDead (upd_mb i (mset_running true) s)).
    { unfold s2, s1, upd_worker, upd_mb, set_workers, set_mbs. simpl. by rewrite list_alter_alter_eq. }
    rewrite E. destruct (worker_running k i WExit s Hi Hk WDead true Hl) as [H1 H2]; [done..|].
    destruct ok; [|done]. split; [by eapply inv_same|]. intros r. rewrite total_worker_new, H2. unfold whits. simpl. lia.
  - apply (worker_running k i WExit s Hi Hk WDead false Hl); [|done]. intros _. unfold m in *.
    unfold mb_at in *. destruct (rt_mbs s !! i) as [x|] eqn:E; simpl in *; [|done].
    destruct (mb_closed x) eqn:Hc.
    + destruct (iv_idle s Hi i x E (or_intror Hc)) as [?|[k' Hk']]; [done|]. apply (iv_locked s Hi) in Hk'. congruence.
    + destruct (queue x); [done|]. destruct Hd. split; [done|]. simpl. lia.
Qed.

Lemma worker_spec k i pc ok s s' : inv s -> rt_workers s !! k = Some (i, pc) ->
  o9_router_worker k i pc ok s = Some s' ->
  inv s' /\ forall r, total r s' + lost_by r s i pc = total r s.
Proof.
  intros Hi Hk Hstep.
  assert (Hplain : forall pc', (forall r, whits r (i, pc') = whits r (i, pc)) ->
    inv (upd_worker k pc' s) /\ forall r, total r (upd_worker k pc' s) = total r s).
  { intros pc' Hh. destruct (worker_move k i pc s Hk pc' s Hi eq_refl) as [? Hm]. split; [done|].
    intros r. specialize (Hm r). rewrite Hh in Hm. lia. }
  assert (Hnone : inv s' /\ (forall r, total r s' = total r s) -> (forall r, lost_by r s i pc = 0) ->
    inv s' /\ forall r, total r s' + lost_by r s i pc = total r s).
  { intros [? Ht] Hl. split; [done|]. intros r. rewrite Ht, Hl. lia. }
  destruct pc as [| |idle|idle|got| |slot|slot ent|slot|slot reply| |slot|]; cbn [o9_router_worker] in Hstep; try done.
  - injection Hstep as <-. apply Hnone; [|done]. apply Hplain. by destruct (mb_closed _).
  - rewrite (surjective_pairing (consume_t i s)) in Hstep. injection Hstep as <-.
    apply Hnone; [|done]. by apply (worker_consume k i WTry s Hi Hk
      (fun x => match x with Some slot => WHave slot | None => WIdle 0 end)); [|intros []].
  - injection Hstep as <-. apply Hnone; [|done]. apply Hplain. intros r.
    case_decide; [by destruct (mb_closed _)|done].
  - rewrite (surjective_pairing (consume_t i s)) in Hstep. injection Hstep as <-.
    apply Hnone; [|done]. by apply (worker_consume k i (WSleep idle) s Hi Hk
      (fun x => match x with Some slot => WIdled (Some slot) | None => WIdle (S idle) end)); [|intros []].
  - injection Hstep as <-.
    destruct (worker_move k i _ s Hk (if mb_closed (mb_at s i) then WExit else
      match got with Some slot => WHave slot | None => WEmpty end) s Hi eq_refl) as [? Hm].
    split; [done|]. intros r. specialize (Hm r). simpl. unfold whits in Hm. simpl in Hm.
    destruct (mb_closed _), got; simpl in *; lia.
  - destruct (rt_locked s) eqn:Hl; [done|]. apply Hnone; [|done].
    rewrite mb_at_len in Hstep by done. case_decide as Hd; injection Hstep as <-; [|by apply Hplain].
    apply (worker_running k i WEmpty s Hi Hk); [done| |done]. intros _. destruct (queue _); [done|simpl in Hd; lia].
  - apply Hnone; [|done].
    assert (Hfail : inv (upd_worker k WTop (finish i slot 1 (Some terminated) s)) /\
      forall r, total r (upd_worker k WTop (finish i slot 1 (Some terminated) s)) = total r s)
      by (by apply (worker_finish k i (WHave slot))).
    destruct (o9_objtab_resolve _ _) as [[idx ent]|]; [|by injection Hstep as <-].
    destruct (chan_ok _ _); [destruct (mb_closed (mb_at s i))|]; injection Hstep as <-; [done| |done].
    by apply (worker_flag k i (WHave slot) s Hi Hk).
  - apply Hnone; [|done]. destruct (en_chan _) as [p|]; [|injection Hstep as <-; by apply Hplain].
    case_decide; injection Hstep as <-; [by apply Hplain|].
    destruct (worker_move k i _ s Hk (WRecv slot) (set_inbox (fun l => l ++ [(i, msg_of_slot slot)]) s)) as [? Hm];
      [by eapply inv_same|done|]. split; [done|]. intros r. specialize (Hm r).
    change (whits r (i, WRecv slot)) with (whits r (i, WSend slot ent)) in Hm.
    change (total r (set_inbox _ s)) with (total r s) in Hm. lia.
  - apply Hnone; [|done]. destruct (mb_replyc _) as [|reply rest]; [done|]. injection Hstep as <-.
    by apply (worker_flag k i (WRecv slot) s Hi Hk).
  - apply Hnone; [|done]. injection Hstep as <-.
    apply (worker_finish k i (WFinish slot reply) s Hk); [by apply inv_mb_same|done| |done].
    intros r. by apply total_mb_same.
  - destruct (rt_locked s) eqn:Hl; [done|]. apply Hnone; [|done].
    pose proof (worker_exit k i ok s Hi Hk Hl) as Hex. cbn zeta in Hex, Hstep.
    case_decide; injection Hstep as <-; done.
Qed.

(** ** Clients *)

Lemma find_mb_lt c o l a i : find_mb c o l a = Some i -> a <= i < a + length l.
Proof.
  revert a i. induction l as [|m l IH]; intros a i; simpl; [done|].
  destruct (find_mb c o l (S a)) as [j|] eqn:E; [intros [= ->]; apply IH in E; lia|].
  destruct (mb_is c o m); intros [= <-]; lia.
Qed.

Lemma mb_index_ptr i : mb_index (mb_ptr i) = i.
Proof. unfold mb_index, mb_ptr. lia. Qed.

(** What a locked region that only prepares a mailbox keeps. *)
Record prepared (s : router) (p : nat * router) : Prop := {
  pr_inv : inv p.2;
  pr_lt : p.1 < length (rt_mbs p.2);
  pr_total : forall r, total r p.2 = total r s;
  pr_locked : rt_locked p.2 = rt_locked s }.

Lemma inv_open i dc h c s : inv s -> (c = true -> mb_closed (mb_at s i) = true) ->
  inv (upd_mb i (fun m => mset_open (dc m) (h m) c m) s).
Proof.
  intros Hi Hc. apply inv_mb; [done|]. intros m Hm. split; [exact (iv_ring s Hi i m Hm)|].
  simpl. intros Hf. apply (iv_idle s Hi i m Hm). unfold mb_at in Hc. rewrite Hm in Hc. tauto.
Qed.

Lemma get_mailbox_spec c o dc h s : inv s -> prepared s (o9_router_get_mailbox_locked c o dc h s).
Proof.
  intros Hi. unfold o9_router_get_mailbox_locked. destruct (find_mb _ _ _ _) as [i|] eqn:E.
  - apply find_mb_lt in E. split; simpl.
    + apply inv_mb; [done|]. intros m Hm. split; [exact (iv_ring s Hi i m Hm)|]. simpl. intros Hf.
      apply (iv_idle s Hi i m Hm). case_decide; destruct Hf; auto; done.
    + rewrite length_alter. lia.
    + intros r. by apply total_mb_same.
    + done.
  - split; simpl.
    + apply inv_mb_new; [done..|]. apply ring0_wf.
    + rewrite length_app. simpl. lia.
    + intros r. by apply total_mb_new.
    + done.
Qed.

Lemma inv_entry_mb idx i s : inv s -> i < length (rt_mbs s) -> inv (set_entry_mb idx i s).
Proof.
  intros [H1 H2 H3 H4 H5] Hlt. split; try done. intros n e p Hn Hp. simpl in Hn.
  apply list_lookup_insert_Some in Hn as [(<- & <- & _)|[_ Hn]]; [|by eapply H2].
  simpl in Hp. injection Hp as <-. by rewrite mb_index_ptr.
Qed.

Lemma entry_mb_lt s idx p : inv s -> entry_mb s idx = Some p -> mb_index p < length (rt_mbs s).
Proof.
  intros Hi. unfold entry_mb, entry_at. destruct (_ !! _) as [e|] eqn:E; simpl; [|done].
  by eapply (iv_entry s Hi).
Qed.

Lemma post_mailbox_spec slot c o dc s : inv s -> prepared s (post_mailbox slot c o dc s).
Proof.
  intros Hi. unfold post_mailbox.
  assert (Hfresh : prepared s (let '(i, s') := o9_router_get_mailbox_locked c o dc (sl_handle slot) s in
               (i, set_entry_mb (Z.land (sl_handle slot) 65535) i s'))).
  { destruct (get_mailbox_spec c o dc (sl_handle slot) s Hi) as [G1 G2 G3 G4].
    destruct (o9_router_get_mailbox_locked _ _ _ _ _) as [i s']. simpl in *.
    split; simpl; [by apply inv_entry_mb|done| |done]. intros r. by rewrite <- G3. }
  destruct (entry_mb _ _) as [p|] eqn:E; [|done]. destruct (mb_closed _) eqn:Hc; [done|].
  split; simpl.
  - apply inv_mb; [done|]. intros m Hm. split; [exact (iv_ring s Hi _ m Hm)|].
    apply (iv_idle s Hi _ m Hm).
  - rewrite length_alter. by eapply entry_mb_lt.
  - intros r. by apply total_mb_same.
  - done.
Qed.

Lemma fail_spec r cb s : inv s ->
  inv (o9_router_fail_request r cb s) /\
  forall r', total r' (o9_router_fail_request r cb s) = total r' s + (if cb && bool_decide (r = r') then 1 else 0).
Proof. intros Hi. split; [by apply inv_complete|]. intros r'. apply total_complete. Qed.

Lemma mb_at_upd i f s : i < length (rt_mbs s) -> mb_at (upd_mb i f s) i = f (mb_at s i).
Proof.
  intros [m Hm]%lookup_lt_is_Some_2. unfold mb_at. simpl. by rewrite list_lookup_alter_eq, Hm.
Qed.

Lemma mb_at_lookup i s : i < length (rt_mbs s) -> rt_mbs s !! i = Some (mb_at s i).
Proof. intros [m Hm]%lookup_lt_is_Some_2. unfold mb_at. by rewrite Hm. Qed.

Section post.
Variables (i : nat) (slot : O9Slot) (s : router).
Hypothesis Hi : inv s.
Hypothesis Hl : rt_locked s = false.
Hypothesis Hlt : i < length (rt_mbs s).
Hypothesis Hc : mb_closed (mb_at s i) = false.

Lemma idle_empty : mb_worker_running (mb_at s i) = false -> queue (mb_at s i) = [].
Proof.
  intros Hr. destruct (iv_idle s Hi i _ (mb_at_lookup i s Hlt) (or_introl Hr)) as [?|[k Hk]]; [done|].
  apply (iv_locked s Hi) in Hk. congruence.
Qed.

(** Any update of the mailbox that sets its ring. *)
Lemma post_ring f ring : ring_wf ring -> mb_t_ring (f (mb_at s i)) = ring ->
  (mb_worker_running (f (mb_at s i)) = false \/ mb_closed (f (mb_at s i)) = true -> ring_queue ring = []) ->
  inv (upd_mb i f s) /\
  forall r, total r (upd_mb i f s) + qhits r (mb_at s i) = total r s + sum_list_with (hits r) (ring_queue ring).
Proof.
  intros Hw Hf He. pose proof (mb_at_lookup i s Hlt) as Hm. split.
  - apply inv_mb; [done|]. intros m Hm'. rewrite Hm in Hm'. injection Hm' as <-. rewrite Hf. split; [done|].
    intros Hflags. left. unfold queue. rewrite Hf. auto.
  - intros r. rewrite (total_mb r i f s _ Hm). unfold qhits, queue. by rewrite Hf.
Qed.

(** The slot is queued for a worker, new or running, or is given back. *)
Lemma post_spec (proc_ok : bool) :
  let fail s := o9_router_fail_request (sl_r slot) (sl_complete slot) s in
  let p := o9_tring_submit (mb_t_ring (mb_at s i)) slot in
  let s1 := upd_mb i (mset_t_ring p.2) s in
  let s' := if decide (p.1 < 0)%Z then fail s1
    else if mb_worker_running (mb_at s1 i) then s1
    else if proc_ok then set_workers (fun l => l ++ [(i, WTop)]) (upd_mb i (mset_running true) s1)
    else fail (consume_t i (upd_mb i (mset_running false) s1)).2 in
  inv s' /\ forall r, total r s' = total r s + hits r slot.
Proof.
  intros fail p s1 s'. pose proof (submit_spec (mb_t_ring (mb_at s i)) slot (iv_ring s Hi i _ (mb_at_lookup i s Hlt))) as Hs.
  subst s' s1 p. destruct (o9_tring_submit _ _) as [ret ring]. simpl. destruct Hs as [Hw Hs].
  rewrite mb_at_upd by done. simpl.
  destruct (decide (length _ < 64)) as [Hd|Hd]; destruct Hs as [-> Hs];
    [rewrite decide_False by lia|rewrite decide_True by lia].
  2: { subst ring. destruct (post_ring (mset_t_ring (mb_t_ring (mb_at s i))) _ Hw eq_refl) as [H1 H2].
       { intros [Hr|Hr]; [by apply idle_empty|]. simpl in Hr. congruence. }
       destruct (fail_spec (sl_r slot) (sl_complete slot) _ H1) as [H3 H4]. split; [done|].
       intros r. unfold fail. rewrite H4. specialize (H2 r). unfold qhits, queue in H2. unfold hits. lia. }
  assert (Hq : forall r, sum_list_with (hits r) (ring_queue ring) = qhits r (mb_at s i) + hits r slot).
  { intros r. rewrite Hs, sum_list_with_app. unfold qhits, queue. simpl. lia. }
  destruct (mb_worker_running (mb_at s i)) eqn:Hr; [|destruct proc_ok].
  - destruct (post_ring (mset_t_ring ring) ring Hw eq_refl) as [H1 H2]; [simpl; intros [?|?]; congruence|].
    split; [done|]. intros r. specialize (H2 r). rewrite Hq in H2. lia.
  - rewrite upd_mb_twice.
    destruct (post_ring (fun m => mset_running true (mset_t_ring ring m)) ring Hw eq_refl) as [H1 H2];
      [simpl; intros [?|?]; congruence|].
    split; [by eapply inv_same|]. intros r. rewrite total_worker_new. specialize (H2 r). rewrite Hq in H2.
    change (whits r (i, WTop)) with 0. lia.
  - unfold consume_t. rewrite !upd_mb_twice, mb_at_upd by done. simpl.
    pose proof (consume_spec ring Hw) as Hcs. destruct (o9_tring_consume ring) as [x r']. simpl.
    destruct Hcs as (Hw' & _ & Hq'). pose proof (idle_empty Hr) as He. unfold queue in He.
    rewrite Hs, He in Hq'. simpl in Hq'. rewrite upd_mb_twice.
    destruct (post_ring (fun m => mset_t_ring r' (mset_running false (mset_t_ring ring m))) r' Hw' eq_refl)
      as [H1 H2]; [done|].
    destruct (fail_spec (sl_r slot) (sl_complete slot) _ H1) as [H3 H4]. split; [done|].
    intros r. unfold fail. rewrite H4. specialize (H2 r). unfold qhits, queue in H2. rewrite He, Hq' in H2.
    unfold hits. simpl in H2. lia.
Qed.
End post.

Lemma hits_tag r slot t : hits r (MkSlot (sl_r slot) (sl_handle slot) (sl_sel slot) t (sl_flags slot)
  (sl_nargs slot) (sl_args slot) (sl_extra_args slot) (sl_caller slot) (sl_target_class slot)
  (sl_target_oid slot) (sl_complete slot) (sl_aux slot)) = hits r slot.
Proof. done. Qed.

Lemma router_post_spec slot c o dc ok s : inv s -> rt_locked s = false ->
  inv (o9_router_post slot c o dc ok s) /\
  forall r, total r (o9_router_post slot c o dc ok s) = total r s + hits r slot.
Proof.
  intros Hi Hl. unfold o9_router_post.
  destruct (post_mailbox_spec slot c o dc s Hi) as [P1 P2 P3 P4].
  destruct (post_mailbox slot c o dc s) as [i s1]. simpl in *.
  destruct (mb_closed (mb_at s1 i)) eqn:Hc.
  { destruct (fail_spec (sl_r slot) (sl_complete slot) s1 P1) as [H1 H2]. split; [done|].
    intros r. rewrite H2, P3. done. }
  set (f := mset_next_tag _). set (slot' := MkSlot _ _ _ _ _ _ _ _ _ _ _ _ _).
  assert (Hi2 : inv (upd_mb i f s1)) by (by apply inv_mb_same).
  assert (Hlt : i < length (rt_mbs (upd_mb i f s1))) by (simpl; by rewrite length_alter).
  assert (Hc2 : mb_closed (mb_at (upd_mb i f s1) i) = false) by (by rewrite mb_at_upd).
  destruct (post_spec i slot' (upd_mb i f s1) Hi2 ltac:(simpl; congruence) Hlt Hc2 ok) as [H1 H2].
  destruct (o9_tring_submit _ _) as [ret ring]. simpl in H1, H2. split; [done|].
  intros r. rewrite H2, total_mb_same, P3 by done. done.
Qed.

(** *** Unregistration *)

Lemma close_spec k c o s : inv s -> rt_clients s !! k = Some (CClose c o) -> rt_locked s = false ->
  inv (o9_router_close k c o s) /\ forall r, total r (o9_router_close k c o s) = total r s.
Proof.
  intros Hi Hk Hl. unfold o9_router_close. destruct (find_mb _ _ _ _) as [i|] eqn:E.
  2: { split; [by eapply inv_client|]. intros r. pose proof (total_client r k _ CDone s Hk). simpl in *. lia. }
  set (f := fun m : O9Mailbox => _).
  assert (Hf : forall m, mb_t_ring (f m) = mb_t_ring m /\ mb_worker_running (f m) = mb_worker_running m).
  { intros m. unfold f. simpl. by destruct (mb_in_flight m). }
  destruct Hi as [H1 H2 H3 H4 H5].
  assert (Hno : forall k' j, rt_clients s !! k' = Some (CDrain j) -> False).
  { intros k' j Hk'. apply H3 in Hk'. congruence. }
  assert (Hone : forall k' j, (<[k := CDrain i]> (rt_clients s) !! k' = Some (CDrain j)) -> k' = k /\ j = i).
  { intros k' j [(-> & E' & _)|[_ ?]]%list_lookup_insert_Some; [by injection E'|]. by destruct (Hno k' j). }
  split; [split; simpl|].
  - intros j m. rewrite list_lookup_alter. case_decide; [|apply H1]. intros (x & Hx & ->)%fmap_Some.
    destruct (Hf x) as [-> _]. subst. by eapply H1.
  - intros. rewrite length_alter. by eapply H2.
  - done.
  - intros k1 k2 i1 i2 [-> _]%Hone [-> _]%Hone. done.
  - intros j m. rewrite list_lookup_alter. case_decide as Hij; intros Hm Hfl.
    + right. exists k. simpl. subst. rewrite list_lookup_insert_eq by (by eapply lookup_lt_Some). done.
    + left. destruct (H5 j m Hm Hfl) as [?|[k' Hk']]; [done|]. by destruct (Hno k' j).
  - intros r. change (total r (set_locked true ?x)) with (total r x).
    pose proof (total_client r k _ (CDrain i) (upd_mb i f s) Hk) as Ht. simpl in Ht.
    rewrite (total_mb_same r i f s) in Ht by (intros m; by destruct (Hf m)). lia.
Qed.

Lemma drain_spec k i s : inv s -> rt_clients s !! k = Some (CDrain i) ->
  inv (o9_router_drain k i s) /\ forall r, total r (o9_router_drain k i s) = total r s.
Proof.
  intros Hi Hk. unfold o9_router_drain.
  destruct (consume_t_spec i s Hi) as (Hx & Hs & Hci & Hq). pose proof (fun r => total_consume r i s Hi) as Ht.
  destruct (consume_t i s) as [x s1]. simpl in *. destruct x as [slot|].
  - split; [by apply inv_complete|]. intros r. rewrite total_complete. specialize (Ht r). simpl in Ht.
    unfold hits in Ht. lia.
  - assert (Hk1 : rt_clients s1 !! k = Some (CDrain i)) by (by subst s1).
    destruct Hci as [H1 H2 H3 H4 H5].
    assert (Hno : forall k' j, (<[k := CDone]> (rt_clients s1) !! k' = Some (CDrain j)) -> False).
    { intros k' j [(_ & ? & _)|[Hne Hk']]%list_lookup_insert_Some; [done|]. destruct Hne.
      by eapply H4. }
    split; [split; simpl|].
    + done.
    + done.
    + intros k' j Hk'. by destruct (Hno k' j).
    + intros k1 k2 j1 j2 Hk'. by destruct (Hno k1 j1).
    + intros j m Hm Hfl. left. destruct (H5 j m Hm Hfl) as [?|[k' Hk']]; [done|].
      assert (j = i) as ->.
      { pose proof (H4 k k' i j Hk1 Hk') as ->. rewrite Hk' in Hk1. by injection Hk1. }
      subst s1. simpl in Hm. rewrite list_lookup_alter, decide_True in Hm by done.
      apply fmap_Some in Hm as (y & Hy & ->). rewrite (Hq y Hy). unfold mb_at in Hx. rewrite Hy in Hx. simpl in Hx.
      by destruct (queue y).
    + intros r. specialize (Ht r). simpl in Ht. change (total r (set_locked false ?y)) with (total r y).
      pose proof (total_client r k _ CDone s1 Hk1) as Hc. simpl in Hc. lia.
Qed.

(** ** Every step *)

Lemma register_entry_mb c o inst dc t n e' :
  ot_entries (o9_objtab_register (Some c) (Some o) inst dc t).2 !! n = Some e' ->
  en_mb e' = None \/ exists e, ot_entries t !! n = Some e /\ en_mb e' = en_mb e.
Proof.
  assert (Hinit : ot_entries (objtab_init t) = ot_entries t) by (unfold objtab_init; by destruct (ot_inited t)).
  unfold o9_objtab_register. destruct (reg_probe _ _ _ _ _ _ _) as [sl i|[sl|]];
    [|destruct (list_find _ _) as [[i x]|]|]; cbn [snd]; try (rewrite Hinit; eauto).
  - cbn [set_entry ot_entries]. rewrite Hinit. intros [(En & <- & Hlt)|[_ ?]]%list_lookup_insert_Some; [|eauto].
    right. apply lookup_lt_is_Some_2 in Hlt as [e He]. exists e. split; [done|].
    cbn [en_mb]. unfold entry_at. rewrite Hinit, En, He. done.
  - cbn [set_entry set_slot ot_entries]. rewrite Hinit.
    intros [(_ & <- & _)|[_ ?]]%list_lookup_insert_Some; eauto.
Qed.

Lemma unregister_entry_mb c o t n e' :
  ot_entries (o9_objtab_unregister (Some c) (Some o) t) !! n = Some e' ->
  en_mb e' = None \/ exists e, ot_entries t !! n = Some e /\ en_mb e' = en_mb e.
Proof.
  unfold o9_objtab_unregister. destruct (ot_inited t); [|eauto].
  destruct (unreg_probe _ _ _ _ _ _) as [[sl i]|]; [|eauto]. cbn [set_entry set_slot ot_entries].
  intros [(_ & <- & _)|[_ ?]]%list_lookup_insert_Some; eauto.
Qed.

Definition sub_hits (r : req) (ev : event) : nat :=
  match ev with
  | ESubmit r' _ _ _ _ _ _ _ _ cb _ => if cb && bool_decide (r' = r) then 1 else 0
  | _ => 0
  end.

Definition lost_step (r : req) (ev : event) (s : router) : nat :=
  match ev with
  | EWorker k _ => match rt_workers s !! k with Some (i, pc) => lost_by r s i pc | None => 0 end
  | _ => 0
  end.

Lemma submit_event_spec r' c o inst dc sel args caller bl cb aux s : inv s ->
  let s' := o9_router_submit r' c o inst dc sel args caller bl cb aux s in
  inv s' /\ forall r, total r s' = total r s + (if cb && bool_decide (r' = r) then 1 else 0).
Proof.
  intros Hi. unfold o9_router_submit. destruct (chan_ok s dc) as [p|]; [|by apply fail_spec].
  pose proof (register_entry_mb c o inst (Some p) (rt_tab s)) as Hreg.
  destruct (o9_objtab_register _ _ _ _ _) as [h t]. simpl in Hreg.
  assert (Ht : inv (set_tab (fun _ => t) s)) by (by apply inv_tab).
  case_decide; [by apply (fail_spec r' cb _ Ht)|].
  split; [by apply inv_client_new|]. intros r. rewrite total_client_new. done.
Qed.

Lemma step_spec ev s s' : inv s -> step ev s = Some s' ->
  inv s' /\ forall r, total r s' + lost_step r ev s = total r s + sub_hits r ev.
Proof.
  intros Hi Hstep. destruct ev as [r' c o inst dc sel args caller bl cb aux|c o|k ok|k ok|n err|c];
    cbn [step lost_step sub_hits] in *.
  - injection Hstep as <-. destruct (submit_event_spec r' c o inst dc sel args caller bl cb aux s Hi) as [? Ht].
    split; [done|]. intros r. rewrite Ht. lia.
  - injection Hstep as <-. split.
    + apply inv_client_new; [|done]. apply inv_tab; [done|]. intros n e'. apply unregister_entry_mb.
    + intros r. rewrite total_client_new. change (total r (set_tab _ s)) with (total r s). simpl. lia.
  - unfold client_step in Hstep. destruct (rt_clients s !! k) as [[slot c o dc|c o|i|]|] eqn:Hk; try done.
    + destruct (rt_locked s) eqn:Hl; [done|]. injection Hstep as <-.
      destruct (router_post_spec slot c o dc ok (upd_client k CDone s)) as [? Ht]; [by eapply inv_client|done|].
      split; [done|]. intros r. rewrite Ht. pose proof (total_client r k _ CDone s Hk). simpl in *. lia.
    + destruct (rt_locked s) eqn:Hl; [done|]. injection Hstep as <-.
      destruct (close_spec k c o s Hi Hk Hl) as [? Ht]. split; [done|]. intros r. rewrite Ht. lia.
    + injection Hstep as <-. destruct (drain_spec k i s Hi Hk) as [? Ht]. split; [done|]. intros r. rewrite Ht. lia.
  - destruct (rt_workers s !! k) as [[i pc]|] eqn:Hk; [|done]. simpl in Hstep.
    destruct (worker_spec k i pc ok s s' Hi Hk Hstep) as [? Ht]. split; [done|]. intros r. rewrite Ht. lia.
  - unfold actor_reply in Hstep. destruct (rt_inbox s !! n) as [[i m]|]; [|done].
    destruct (mb_replyc _); [|done]. injection Hstep as <-. split.
    + eapply inv_same; [by apply (inv_mb_same i (mset_replyc (fun l => l ++ [MkReply (Some (m_for m)) err])))|done..].
    + intros r. change (total r (set_inbox _ ?x)) with (total r x). rewrite total_mb_same by done. lia.
  - injection Hstep as <-. split; [by eapply inv_same|]. intros r. change (total r (set_closing _ s)) with (total r s). lia.
Qed.

Definition submitted (r : req) (evs : list event) : nat := sum_list_with (sub_hits r) evs.

Lemma run_spec evs s s' : inv s -> run evs s = Some s' ->
  inv s' /\ forall r, total r s' <= total r s + submitted r evs.
Proof.
  revert s. induction evs as [|ev evs IH]; intros s Hi; cbn [run].
  - intros [= <-]. split; [done|]. unfold submitted. simpl. lia.
  - intros (s1 & Hs1 & Hrun)%bind_Some. destruct (step_spec ev s s1 Hi Hs1) as [H1 H2].
    destruct (IH s1 H1 Hrun) as [H3 H4]. split; [done|]. intros r. specialize (H2 r). specialize (H4 r).
    unfold submitted in *. simpl. lia.
Qed.

(** ** Without unregistrations nothing is closed *)

Definition plain (ev : event) : Prop := match ev with EUnregister _ _ => False | _ => True end.

Record opened (s : router) : Prop := {
  op_mb : Forall (fun m => mb_closed m = false) (rt_mbs s);
  op_cl : Forall (fun c => match c with CClose _ _ | CDrain _ => False | _ => True end) (rt_clients s) }.

Lemma opened_same s s' : opened s -> rt_mbs s' = rt_mbs s -> rt_clients s' = rt_clients s -> opened s'.
Proof. intros [] Hm Hc. split; by rewrite ?Hm, ?Hc. Qed.

Lemma opened_mb i f s : opened s -> (forall m, mb_closed m = false -> mb_closed (f m) = false) ->
  opened (upd_mb i f s).
Proof.
  intros [H1 H2] Hf. split; [|done]. simpl. apply Forall_lookup. intros j m.
  rewrite list_lookup_alter. rewrite Forall_lookup in H1. case_decide; [|by apply H1].
  intros (x & Hx & ->)%fmap_Some. eapply Hf, H1, Hx.
Qed.

Lemma opened_mb_at s i : opened s -> mb_closed (mb_at s i) = false.
Proof.
  intros [H _]. unfold mb_at. destruct (_ !! _) eqn:E; [|done]. rewrite Forall_lookup in H. by eapply H.
Qed.

Lemma opened_mbs m s : opened s -> mb_closed m = false -> opened (set_mbs (fun l => l ++ [m]) s).
Proof. intros [H1 H2] Hm. split; [|done]. simpl. apply Forall_app. auto. Qed.

Lemma opened_workers f s : opened s -> opened (set_workers f s).
Proof. intros. by eapply opened_same. Qed.

Lemma opened_inbox f s : opened s -> opened (set_inbox f s).
Proof. intros. by eapply opened_same. Qed.

Lemma opened_worker k pc s : opened s -> opened (upd_worker k pc s).
Proof. intros. by eapply opened_same. Qed.

Lemma opened_complete r cb reply s : opened s -> opened (complete r cb reply s).
Proof. intros. unfold complete. destruct cb; [by eapply opened_same|done]. Qed.

Lemma opened_consume i s : opened s -> opened (consume_t i s).2.
Proof. intros. unfold consume_t. destruct (o9_tring_consume _). by apply opened_mb. Qed.

Lemma opened_finish i slot st reply s : opened s -> opened (finish i slot st reply s).
Proof. intros. unfold finish. destruct (o9_tring_submit _ _). apply opened_complete. by apply opened_mb. Qed.

#[local] Hint Resolve opened_workers opened_inbox opened_worker opened_complete opened_consume opened_finish opened_mb : o9.

(** [let '(x, s') := p in f x s'] by the parts of [p]. *)
Ltac proj_pairs :=
  repeat match goal with
  | H : context [let '(_, _) := consume_t ?i ?s in _] |- _ => rewrite (surjective_pairing (consume_t i s)) in H
  end.

Lemma opened_worker_step k i pc ok s s' : opened s -> o9_router_worker k i pc ok s = Some s' -> opened s'.
Proof.
  intros Ho. destruct pc; cbn [o9_router_worker]; intros Hstep; proj_pairs;
    try (injection Hstep as <-; by auto 6 with o9); try done.
  - destruct (rt_locked s); [done|]. case_decide; injection Hstep as <-; auto with o9.
  - destruct (o9_objtab_resolve _ _) as [[idx ent]|]; [|injection Hstep as <-; auto with o9].
    destruct (chan_ok _ _); [destruct (mb_closed _)|]; injection Hstep as <-; auto with o9.
  - destruct (en_chan _); [|injection Hstep as <-; auto with o9].
    case_decide; injection Hstep as <-; auto with o9.
  - destruct (mb_replyc _); [done|]. injection Hstep as <-. auto with o9.
  - destruct (rt_locked s); [done|]. cbn zeta in Hstep. case_decide; injection Hstep as <-; [|auto with o9].
    assert (opened (upd_mb i (mset_running true) (upd_worker k WDead (upd_mb i (mset_running false) s))))
      by auto 6 with o9.
    destruct ok; auto with o9.
Qed.

Lemma opened_post slot c o dc ok s : opened s -> opened (o9_router_post slot c o dc ok s).
Proof.
  intros Ho. unfold o9_router_post.
  assert (Hp : opened (post_mailbox slot c o dc s).2).
  { unfold post_mailbox.
    assert (Hg : opened (o9_router_get_mailbox_locked c o dc (sl_handle slot) s).2).
    { unfold o9_router_get_mailbox_locked. destruct (find_mb _ _ _ _); simpl.
      - apply opened_mb; [done|]. intros m Hm. simpl. by case_decide.
      - by apply opened_mbs. }
    destruct (o9_router_get_mailbox_locked _ _ _ _ _) as [i s']. simpl in Hg.
    destruct (entry_mb _ _); [|by eapply opened_same].
    destruct (mb_closed _); [by eapply opened_same|]. simpl. by apply opened_mb. }
  destruct (post_mailbox _ _ _ _ _) as [i s1]. simpl in Hp. unfold o9_router_fail_request.
  destruct (mb_closed _); [by auto with o9|]. destruct (o9_tring_submit _ _) as [ret ring].
  case_decide; [by auto 6 with o9|]. destruct (mb_worker_running _); [by auto 6 with o9|].
  destruct ok; [|by auto 8 with o9].
  by auto 8 with o9.
Qed.

Lemma opened_step ev s s' : opened s -> plain ev -> step ev s = Some s' -> opened s'.
Proof.
  intros Ho Hev Hstep. destruct ev as [r' c o inst dc sel args caller bl cb aux|c o|k ok|k ok|n err|c]; cbn [step] in *.
  - injection Hstep as <-. unfold o9_router_submit, o9_router_fail_request.
    destruct (chan_ok s dc); [|by auto with o9]. destruct (o9_objtab_register _ _ _ _ _).
    assert (opened (set_tab (fun _ => o0) s)) by (by eapply opened_same).
    case_decide; [by auto with o9|]. destruct Ho. split; [done|]. simpl. apply Forall_app. auto.
  - done.
  - unfold client_step in Hstep. destruct Ho as [H1 H2]. rewrite Forall_lookup in H2.
    destruct (rt_clients s !! k) as [[slot c o dc|c o|i|]|] eqn:Hk; try done;
      try (by destruct (H2 _ _ Hk)). destruct (rt_locked s); [done|]. injection Hstep as <-.
    apply opened_post. split; [done|]. simpl. apply Forall_insert; [by apply Forall_lookup|done].
  - destruct (rt_workers s !! k) as [[i pc]|]; [|done]. by eapply opened_worker_step.
  - unfold actor_reply in Hstep. destruct (rt_inbox s !! n) as [[i m]|]; [|done].
    destruct (mb_replyc _); [|done]. injection Hstep as <-.
    by auto with o9.
  - injection Hstep as <-. by eapply opened_same.
Qed.

Lemma opened_lost r ev s : opened s -> lost_step r ev s = 0.
Proof.
  intros Ho. destruct ev; try done. simpl. destruct (_ !! _) as [[i pc]|]; [|done].
  destruct pc as [| | | |[slot|]| | | | | | | |]; try done. simpl. by rewrite opened_mb_at.
Qed.

Lemma run_exact evs s s' : inv s -> opened s -> Forall plain evs -> run evs s = Some s' ->
  forall r, total r s' = total r s + submitted r evs.
Proof.
  revert s. induction evs as [|ev evs IH]; intros s Hi Ho Hp; cbn [run].
  - intros [= <-] r. unfold submitted. simpl. lia.
  - apply Forall_cons in Hp as [Hev Hp]. intros (s1 & Hs1 & Hrun)%bind_Some r.
    destruct (step_spec ev s s1 Hi Hs1) as [H1 H2]. specialize (H2 r).
    rewrite (IH s1 H1 (opened_step _ _ _ Ho Hev Hs1) Hp Hrun r).
    rewrite opened_lost in H2 by done. unfold submitted. simpl. lia.
Qed.

(** C2: Over every interleaving, a request is answered, or waits in the
    router, at most as often as it was submitted; and as long as no actor is
    unregistered, exactly as often: a request that waits nowhere was answered. *)
Theorem request_answered_once evs s r :
  run evs router0 = Some s ->
  answered r s + held r s <= submitted r evs /\
  (Forall plain evs -> answered r s + held r s = submitted r evs).
Proof.
  intros Hrun. split.
  - apply (run_spec evs router0 s router_inv0 Hrun).
  - intros Hp. apply (run_exact evs router0 s router_inv0); [|done..]. by split.
Qed.

(** ** Witnesses *)

Lemma request_answered_once_witness :
  exists s, run two_workers router0 = Some s /\ answered 1 s + held 1 s = submitted 1 two_workers.
Proof.
  destruct (run two_workers router0) as [s|] eqn:E; [|vm_compute in E; discriminate E].
  exists s. split; [reflexivity|]. apply (request_answered_once two_workers s 1 E).
  unfold two_workers, sub, rep, w. repeat constructor.
Defined.
