(* ===== verification/RouterLive.v ===== *)
(** * The router answers the requests it accepts

    Liveness of [Router]: which mailboxes have a worker, when that worker can
    run, and that workers and actors alone answer a queue. *)
From S2P Require Import Prelude ObjTable Ring Router RouterSpec.

Open Scope nat_scope.

Lemma sum_list_zero {A} (f : A -> nat) (l : list A) : (forall x, x ∈ l -> f x = 0) -> sum_list_with f l = 0.
Proof.
  induction l as [|x l IH]; intros H; [done|]. simpl. rewrite (H x), IH; [done| |by left].
  intros y Hy. apply H. by right.
Qed.

Lemma sum_list_delete {A} (f : A -> nat) (l : list A) i x : l !! i = Some x ->
  sum_list_with f (delete i l) + f x = sum_list_with f l.
Proof.
  revert i. induction l as [|y l IH]; intros [|i] H; simplify_eq/=; [lia|].
  specialize (IH i H). lia.
Qed.

Lemma sum_list_pos {A} (f : A -> nat) (l : list A) x : x ∈ l -> f x <= sum_list_with f l.
Proof.
  induction l as [|y l IH]; [by intros ?%not_elem_of_nil|]. intros [->|H]%elem_of_cons; simpl; [lia|].
  specialize (IH H). lia.
Qed.

Lemma sum_list_nonzero {A} (f : A -> nat) (l : list A) : 0 < sum_list_with f l -> exists x, x ∈ l /\ f x <> 0.
Proof.
  induction l as [|y l IH]; simpl; [lia|]. intros H. destruct (f y) eqn:E.
  - destruct IH as (x & Hx & Hf); [lia|]. exists x. split; [by right|done].
  - exists y. split; [by left|congruence].
Qed.

(** ** A mailbox that is marked as running has a worker *)

(** A worker process that has not ended.  It may wait, or have crashed (see
    [crashing]): that it serves the queue is shown below. *)
Definition has_worker (s : router) (i : nat) : Prop :=
  exists k pc, rt_workers s !! k = Some (i, pc) /\ pc <> WDead.

(** [worker_running] is not set in vain. *)
Definition served (s : router) : Prop :=
  forall i m, rt_mbs s !! i = Some m -> mb_worker_running m = true -> has_worker s i.

Lemma served_same s s' : served s -> rt_mbs s' = rt_mbs s -> rt_workers s' = rt_workers s -> served s'.
Proof. intros H Hm Hw. unfold served, has_worker. by rewrite Hm, Hw. Qed.

Lemma served_mb i f s : served s ->
  (forall m, mb_worker_running (f m) = true -> mb_worker_running m = true) -> served (upd_mb i f s).
Proof.
  intros H Hf j m. simpl. rewrite list_lookup_alter. case_decide; [|by apply H].
  intros (x & Hx & ->)%fmap_Some Hr. subst. apply (H j x Hx). auto.
Qed.

Lemma served_stop i s : served s -> served (upd_mb i (mset_running false) s).
Proof. intros. by apply served_mb. Qed.

Lemma served_mbs m s : served s -> mb_worker_running m = false -> served (set_mbs (fun l => l ++ [m]) s).
Proof. intros H Hm i x [[_ Hx]|[_ <-]]%lookup_snoc_Some Hr; [by apply (H i x)|congruence]. Qed.

Lemma has_worker_upd k pc s j : has_worker s j -> pc <> WDead -> has_worker (upd_worker k pc s) j.
Proof.
  intros (k' & pc' & Hk & Hpc) Hd. destruct (decide (k = k')) as [->|].
  - exists k', pc. simpl. by rewrite list_lookup_alter_eq, Hk.
  - exists k', pc'. simpl. by rewrite list_lookup_alter_ne.
Qed.

Lemma served_worker k pc s : served s -> pc <> WDead -> served (upd_worker k pc s).
Proof. intros H Hd i m Hm Hr. apply has_worker_upd; [by apply (H i m)|done]. Qed.

(** A new worker serves the mailbox whose flag is set with it. *)
Lemma served_new i s : served s -> served (set_workers (fun l => l ++ [(i, WTop)]) (upd_mb i (mset_running true) s)).
Proof.
  intros H j m. simpl. rewrite list_lookup_alter. case_decide as E; intros Hm Hr.
  - exists (length (rt_workers s)), WTop. simpl. subst. by rewrite list_lookup_middle.
  - destruct (H j m Hm Hr) as (k & pc & Hk & Hpc). exists k, pc. simpl.
    by rewrite lookup_app_l by (by eapply lookup_lt_Some).
Qed.

Lemma served_complete r cb reply s : served s -> served (complete r cb reply s).
Proof. intros. unfold complete. destruct cb; [by eapply served_same|done]. Qed.

Lemma served_consume i s : served s -> served (consume_t i s).2.
Proof. intros. unfold consume_t. destruct (o9_tring_consume _). by apply served_mb. Qed.

Lemma served_finish i slot st reply s : served s -> served (finish i slot st reply s).
Proof. intros. unfold finish. destruct (o9_tring_submit _ _). apply served_complete. by apply served_mb. Qed.

Lemma served_inbox f s : served s -> served (set_inbox f s).
Proof. intros. by eapply served_same. Qed.

Lemma served_clients f s : served s -> served (set_clients f s).
Proof. intros. by eapply served_same. Qed.

Lemma served_locked b s : served s -> served (set_locked b s).
Proof. intros. by eapply served_same. Qed.

Lemma served_tab f s : served s -> served (set_tab f s).
Proof. intros. by eapply served_same. Qed.

#[local] Hint Resolve served_stop served_worker served_complete served_consume served_finish served_mb served_inbox
  served_clients served_locked served_tab served_new : o9.

(** The worker that leaves starts another, or leaves a mailbox that is not
    marked as running. *)
Lemma served_exit k i s (b : bool) : served s -> rt_workers s !! k = Some (i, WExit) ->
  served (let s1 := upd_worker k WDead (upd_mb i (mset_running false) s) in
          if b then set_workers (fun l => l ++ [(i, WTop)]) (upd_mb i (mset_running true) s1) else s1).
Proof.
  intros H Hk. cbn zeta. assert (H1 : served (upd_worker k WDead (upd_mb i (mset_running false) s))).
  { intros j m. simpl. rewrite list_lookup_alter. case_decide as E.
    - intros (x & Hx & ->)%fmap_Some. done.
    - intros Hm Hr. destruct (H j m Hm Hr) as (k' & pc & Hk' & Hpc). exists k', pc. simpl.
      rewrite list_lookup_alter_ne; [done|]. intros ->. rewrite Hk' in Hk. congruence. }
  destruct b; [by apply served_new|done].
Qed.

Lemma served_worker_step k i pc s s' : served s -> rt_workers s !! k = Some (i, pc) ->
  o9_router_worker k i pc true s = Some s' -> served s'.
Proof.
  intros Hs Hk. destruct pc; cbn [o9_router_worker]; intros Hstep; proj_pairs; try done.
  - injection Hstep as <-. apply served_worker; [done|by destruct (mb_closed _)].
  - injection Hstep as <-. apply served_worker; [auto with o9|by destruct (consume_t _ _).1].
  - injection Hstep as <-. apply served_worker; [done|]. case_decide; [by destruct (mb_closed _)|done].
  - injection Hstep as <-. apply served_worker; [auto with o9|by destruct (consume_t _ _).1].
  - injection Hstep as <-. apply served_worker; [done|]. destruct (mb_closed _), got; done.
  - destruct (rt_locked s); [done|]. case_decide; injection Hstep as <-; auto with o9.
  - destruct (o9_objtab_resolve _ _) as [[idx x]|]; [|injection Hstep as <-; auto with o9].
    destruct (chan_ok _ _); [destruct (mb_closed _)|]; injection Hstep as <-; auto with o9.
  - destruct (en_chan _); [|injection Hstep as <-; auto with o9].
    case_decide; injection Hstep as <-; auto with o9.
  - destruct (mb_replyc _); [done|]. injection Hstep as <-. auto with o9.
  - injection Hstep as <-. auto with o9.
  - destruct (rt_locked s); [done|]. cbn zeta in Hstep.
    case_decide; injection Hstep as <-; [by apply (served_exit k i s true)|by apply (served_exit k i s false)].
Qed.

Lemma served_post slot c o dc ok s : served s -> served (o9_router_post slot c o dc ok s).
Proof.
  intros Hs. unfold o9_router_post.
  assert (Hp : served (post_mailbox slot c o dc s).2).
  { unfold post_mailbox.
    assert (Hg : served (o9_router_get_mailbox_locked c o dc (sl_handle slot) s).2).
    { unfold o9_router_get_mailbox_locked. destruct (find_mb _ _ _ _); simpl; [by apply served_mb|by apply served_mbs]. }
    destruct (o9_router_get_mailbox_locked _ _ _ _ _) as [i s']. simpl in Hg.
    destruct (entry_mb _ _); [|by apply served_tab].
    destruct (mb_closed _); [by apply served_tab|]. simpl. by apply served_mb. }
  destruct (post_mailbox _ _ _ _ _) as [i s1]. simpl in Hp. unfold o9_router_fail_request.
  destruct (mb_closed _); [by auto with o9|]. destruct (o9_tring_submit _ _) as [ret ring].
  case_decide; [by auto 6 with o9|]. destruct (mb_worker_running _); [by auto 6 with o9|].
  destruct ok; [apply served_new; auto 6 with o9|]. apply served_complete, served_consume.
  apply served_mb; [by auto 6 with o9|done].
Qed.

(** [proccreate] succeeds in the workers. *)
Definition respawns (ev : event) : Prop := match ev with EWorker _ ok => ok = true | _ => True end.

Lemma served_step ev s s' : served s -> respawns ev -> step ev s = Some s' -> served s'.
Proof.
  intros Ho Hev Hstep. destruct ev as [r' c o inst dc sel args caller bl cb aux|c o|k ok|k ok|n err|c]; cbn [step] in *.
  - injection Hstep as <-. unfold o9_router_submit, o9_router_fail_request.
    destruct (chan_ok s dc); [|by auto with o9]. destruct (o9_objtab_register _ _ _ _ _).
    case_decide; auto with o9.
  - injection Hstep as <-. auto with o9.
  - unfold client_step in Hstep.
    destruct (rt_clients s !! k) as [[slot c o dc|c o|i|]|] eqn:Hk; try done.
    + destruct (rt_locked s); [done|]. injection Hstep as <-. apply served_post, served_clients, Ho.
    + destruct (rt_locked s); [done|]. injection Hstep as <-. unfold o9_router_close.
      destruct (find_mb _ _ _ _); [|by apply served_clients]. apply served_locked, served_clients.
      apply served_mb; [done|]. intros m. simpl. by destruct (mb_in_flight m).
    + injection Hstep as <-. unfold o9_router_drain. pose proof (served_consume i s Ho).
      destruct (consume_t i s) as [[slot|] s1]; simpl in *; [by apply served_complete|].
      by apply served_locked, served_clients.
  - destruct (rt_workers s !! k) as [[i pc]|] eqn:Hk; [|done]. simpl in Hev. subst ok.
    by eapply served_worker_step.
  - unfold actor_reply in Hstep. destruct (rt_inbox s !! n) as [[i m]|]; [|done].
    destruct (mb_replyc _); [|done]. injection Hstep as <-. apply served_inbox. by apply served_mb.
  - injection Hstep as <-. by eapply served_same.
Qed.

(** ** A worker that waits for a reply gets one *)

Definition is_recv (i : nat) (w : nat * worker_pc) : nat :=
  match w.2 with WRecv _ => if decide (w.1 = i) then 1 else 0 | _ => 0 end.

(** How many workers of mailbox [i] wait, and how many messages its actor
    has not answered. *)
Definition recvs (i : nat) (s : router) : nat := sum_list_with (is_recv i) (rt_workers s).

Definition msgs (i : nat) (s : router) : nat :=
  sum_list_with (fun p : nat * O9Msg => if decide (p.1 = i) then 1 else 0) (rt_inbox s).

Record fair (s : router) : Prop := {
  fr_lt : forall k i pc, rt_workers s !! k = Some (i, pc) -> i < length (rt_mbs s);
  fr_recv : forall i m, rt_mbs s !! i = Some m -> recvs i s <= msgs i s + length (mb_replyc m) }.

Lemma fair_same s s' : fair s -> rt_mbs s' = rt_mbs s -> rt_workers s' = rt_workers s ->
  rt_inbox s' = rt_inbox s -> fair s'.
Proof. intros [] Hm Hw Hb. split; unfold recvs, msgs; by rewrite ?Hm, ?Hw, ?Hb. Qed.

Lemma recvs_worker j k i pc pc' s : rt_workers s !! k = Some (i, pc) ->
  recvs j (upd_worker k pc' s) + is_recv j (i, pc) = recvs j s + is_recv j (i, pc').
Proof. intros H. apply (sum_list_alter (is_recv j) (fun w => (w.1, pc')) _ _ _ H). Qed.

Lemma fair_mb i f s : fair s -> (forall m, length (mb_replyc m) <= length (mb_replyc (f m))) -> fair (upd_mb i f s).
Proof.
  intros [H1 H2] Hf. split.
  - intros k j pc Hk. simpl. rewrite length_alter. by eapply H1.
  - intros j m. simpl. rewrite list_lookup_alter. case_decide; [|apply H2].
    intros (x & Hx & ->)%fmap_Some. subst. specialize (H2 j x Hx). specialize (Hf x).
    change (recvs j s <= msgs j s + length (mb_replyc (f x))). lia.
Qed.

Lemma fair_worker k pc s : fair s -> (forall i, is_recv i (i, pc) = 0) -> fair (upd_worker k pc s).
Proof.
  intros [H1 H2] Hpc. destruct (rt_workers s !! k) as [[i pc0]|] eqn:Hk.
  - split.
    + intros k' j pc'. simpl. rewrite list_lookup_alter. case_decide; [|apply H1].
      intros (x & Hx & [= -> ->])%fmap_Some. subst. destruct x. by eapply H1.
    + intros j m Hm. specialize (H2 j m Hm). pose proof (recvs_worker j k i pc0 pc s Hk) as E.
      assert (is_recv j (i, pc) = 0).
      { unfold is_recv in *. simpl in *. destruct pc; try done. specialize (Hpc j). rewrite decide_True in Hpc; done. }
      change (msgs j (upd_worker k pc s)) with (msgs j s). lia.
  - replace (upd_worker k pc s) with s; [by split|]. unfold upd_worker, set_workers.
    destruct s. simpl in *. by rewrite alter_none.
Qed.

Lemma fair_new i s : fair s -> i < length (rt_mbs s) -> fair (set_workers (fun l => l ++ [(i, WTop)]) s).
Proof.
  intros [H1 H2] Hi. split.
  - intros k j pc [[_ Hk]|[_ [= <- <-]]]%lookup_snoc_Some; [by eapply H1|done].
  - intros j m Hm. specialize (H2 j m Hm). unfold recvs in *. simpl. rewrite sum_list_with_app. simpl.
    change (is_recv j (i, WTop)) with 0. change (msgs j (set_workers _ s)) with (msgs j s). lia.
Qed.

Lemma fair_mbs m s : fair s -> fair (set_mbs (fun l => l ++ [m]) s).
Proof.
  intros [H1 H2]. split.
  - intros k j pc Hk. simpl. rewrite length_app. apply Nat.lt_lt_add_r. by eapply H1.
  - intros j x [[_ Hx]|[-> _]]%lookup_snoc_Some; [by apply H2|].
    change (recvs ?j (set_mbs _ s)) with (recvs j s). assert (recvs (length (rt_mbs s)) s = 0) as ->; [|lia].
    apply sum_list_zero. intros [i pc] Hin. apply list_elem_of_lookup in Hin as [k Hk]. apply H1 in Hk.
    unfold is_recv. simpl. destruct pc; try done. case_decide; [lia|done].
Qed.

Lemma fair_complete r cb reply s : fair s -> fair (complete r cb reply s).
Proof. intros. unfold complete. destruct cb; [by eapply fair_same|done]. Qed.

Lemma fair_consume i s : fair s -> fair (consume_t i s).2.
Proof. intros. unfold consume_t. destruct (o9_tring_consume _). by apply fair_mb. Qed.

Lemma fair_finish i slot st reply s : fair s -> fair (finish i slot st reply s).
Proof. intros. unfold finish. destruct (o9_tring_submit _ _). apply fair_complete. by apply fair_mb. Qed.

Lemma fair_clients f s : fair s -> fair (set_clients f s).
Proof. intros. by eapply fair_same. Qed.

Lemma fair_locked b s : fair s -> fair (set_locked b s).
Proof. intros. by eapply fair_same. Qed.

Lemma fair_tab f s : fair s -> fair (set_tab f s).
Proof. intros. by eapply fair_same. Qed.

(** The message that is sent is one to be answered ... *)
Lemma fair_send k i pc slot msg s : fair s -> rt_workers s !! k = Some (i, pc) ->
  fair (upd_worker k (WRecv slot) (set_inbox (fun l => l ++ [(i, msg)]) s)).
Proof.
  intros [H1 H2] Hk. split.
  - intros k' j pc'. simpl. rewrite list_lookup_alter. case_decide; [|apply H1].
    intros (x & Hx & [= -> ->])%fmap_Some. subst. destruct x. by eapply H1.
  - intros j m Hm. specialize (H2 j m Hm).
    pose proof (recvs_worker j k i pc (WRecv slot) (set_inbox (fun l => l ++ [(i, msg)]) s) Hk) as E.
    change (recvs j (set_inbox _ s)) with (recvs j s) in E.
    change (msgs j (upd_worker _ _ ?x)) with (msgs j x).
    unfold msgs in *. simpl. rewrite sum_list_with_app. simpl. unfold is_recv in E. simpl in E.
    case_decide; lia.
Qed.

(** ... and the answer that is received was one. *)
Lemma fair_receive k i slot reply reply' rest s : fair s -> rt_workers s !! k = Some (i, WRecv slot) ->
  mb_replyc (mb_at s i) = reply :: rest ->
  fair (upd_worker k (WFinish slot reply') (upd_mb i (mset_replyc (fun _ => rest)) s)).
Proof.
  intros [H1 H2] Hk Hr. split.
  - intros k' j pc'. simpl. rewrite list_lookup_alter, length_alter. case_decide; [|apply H1].
    intros (x & Hx & [= -> ->])%fmap_Some. subst. destruct x. by eapply H1.
  - intros j m. pose proof (recvs_worker j k i _ (WFinish slot reply') s Hk) as E.
    unfold is_recv in E. simpl in E. simpl.
    change (recvs j (upd_worker _ _ _)) with (recvs j (upd_worker k (WFinish slot reply') s)).
    change (msgs j (upd_worker _ _ _)) with (msgs j s).
    rewrite list_lookup_alter. case_decide as Hij.
    + intros (x & Hx & ->)%fmap_Some. subst j. specialize (H2 i x Hx). unfold mb_at in Hr.
      rewrite Hx in Hr. simpl in Hr. rewrite Hr in H2. simpl in *. lia.
    + intros Hm. specialize (H2 j m Hm). lia.
Qed.

Lemma fair_reply n i msg reply s : fair s -> rt_inbox s !! n = Some (i, msg) ->
  fair (set_inbox (delete n) (upd_mb i (mset_replyc (fun l => l ++ [reply])) s)).
Proof.
  intros [H1 H2] Hn. split.
  - intros k j pc Hk. simpl. rewrite length_alter. by eapply H1.
  - intros j m. simpl. rewrite list_lookup_alter.
    change (recvs j _) with (recvs j s).
    assert (E : msgs j (set_inbox (delete n) (upd_mb i (mset_replyc (fun l => l ++ [reply])) s)) +
      (if decide (i = j) then 1 else 0) = msgs j s).
    { pose proof (sum_list_delete (fun p : nat * O9Msg => if decide (p.1 = j) then 1 else 0) _ _ _ Hn). done. }
    case_decide as Hij.
    + intros (x & Hx & ->)%fmap_Some. subst j. specialize (H2 i x Hx).
      cbn [mb_replyc mset_replyc]. rewrite length_app. simpl. lia.
    + intros Hm. specialize (H2 j m Hm). lia.
Qed.

#[local] Hint Resolve fair_mb fair_worker fair_complete fair_consume fair_finish fair_clients fair_locked fair_tab : o9.

Lemma post_mailbox_fair slot c o dc s : fair s -> fair (post_mailbox slot c o dc s).2.
Proof.
  intros Hf. unfold post_mailbox.
  assert (Hg : fair (o9_router_get_mailbox_locked c o dc (sl_handle slot) s).2).
  { unfold o9_router_get_mailbox_locked. destruct (find_mb _ _ _ _); simpl; [by apply fair_mb|by apply fair_mbs]. }
  destruct (o9_router_get_mailbox_locked _ _ _ _ _) as [i s']. simpl in Hg.
  destruct (entry_mb _ _); [|by apply fair_tab].
  destruct (mb_closed _); [by apply fair_tab|]. simpl. by apply fair_mb.
Qed.

Lemma fair_post slot c o dc ok s : inv s -> fair s -> fair (o9_router_post slot c o dc ok s).
Proof.
  intros Hi Hf. unfold o9_router_post. pose proof (post_mailbox_fair slot c o dc s Hf) as Hp.
  pose proof (pr_lt _ _ (post_mailbox_spec slot c o dc s Hi)) as Hlt.
  destruct (post_mailbox _ _ _ _ _) as [i s1]. simpl in Hp, Hlt. unfold o9_router_fail_request.
  destruct (mb_closed _); [by auto with o9|]. destruct (o9_tring_submit _ _) as [ret ring].
  case_decide; [by auto 6 with o9|]. destruct (mb_worker_running _); [by auto 6 with o9|].
  destruct ok; [|by auto 8 with o9]. apply fair_new; [by auto 8 with o9|]. simpl. by rewrite !length_alter.
Qed.

Lemma fair_worker_step k i pc ok s s' : fair s -> rt_workers s !! k = Some (i, pc) ->
  o9_router_worker k i pc ok s = Some s' -> fair s'.
Proof.
  intros Hs Hk. destruct pc; cbn [o9_router_worker]; intros Hstep; proj_pairs; try done.
  - injection Hstep as <-. apply fair_worker; [done|by destruct (mb_closed _)].
  - injection Hstep as <-. apply fair_worker; [auto with o9|by destruct (consume_t _ _).1].
  - injection Hstep as <-. apply fair_worker; [done|]. case_decide; [by destruct (mb_closed _)|done].
  - injection Hstep as <-. apply fair_worker; [auto with o9|by destruct (consume_t _ _).1].
  - injection Hstep as <-. apply fair_worker; [done|]. destruct (mb_closed _), got; done.
  - destruct (rt_locked s); [done|]. case_decide; injection Hstep as <-; auto with o9.
  - destruct (o9_objtab_resolve _ _) as [[idx x]|]; [|injection Hstep as <-; auto with o9].
    destruct (chan_ok _ _); [destruct (mb_closed _)|]; injection Hstep as <-; auto with o9.
  - destruct (en_chan _); [|injection Hstep as <-; auto with o9].
    case_decide; injection Hstep as <-; [auto with o9|by eapply fair_send].
  - destruct (mb_replyc _) as [|reply rest] eqn:Hr; [done|]. injection Hstep as <-. by eapply fair_receive.
  - injection Hstep as <-. auto with o9.
  - destruct (rt_locked s); [done|]. cbn zeta in Hstep.
    case_decide; injection Hstep as <-; [destruct ok|]; [|by auto with o9..].
    apply fair_new; [by auto with o9|]. simpl. rewrite !length_alter. by eapply fr_lt.
Qed.

Lemma fair_step ev s s' : inv s -> fair s -> step ev s = Some s' -> fair s'.
Proof.
  intros Hi Hf Hstep. destruct ev as [r' c o inst dc sel args caller bl cb aux|c o|k ok|k ok|n err|c]; cbn [step] in *.
  - injection Hstep as <-. unfold o9_router_submit, o9_router_fail_request.
    destruct (chan_ok s dc); [|by auto with o9]. destruct (o9_objtab_register _ _ _ _ _).
    case_decide; auto with o9.
  - injection Hstep as <-. auto with o9.
  - unfold client_step in Hstep.
    destruct (rt_clients s !! k) as [[slot c o dc|c o|i|]|] eqn:Hk; try done.
    + destruct (rt_locked s); [done|]. injection Hstep as <-. apply fair_post; [by eapply inv_client|by apply fair_clients].
    + destruct (rt_locked s); [done|]. injection Hstep as <-. unfold o9_router_close.
      destruct (find_mb _ _ _ _); [|by apply fair_clients]. apply fair_locked, fair_clients.
      apply fair_mb; [done|]. intros m. cbn [mb_in_flight mset_open]. destruct (mb_in_flight m); [|done].
      cbn [mb_replyc mset_replyc mset_open]. case_decide as E; [rewrite E; simpl; lia|done].
    + injection Hstep as <-. unfold o9_router_drain. pose proof (fair_consume i s Hf).
      destruct (consume_t i s) as [[slot|] s1]; simpl in *; [by apply fair_complete|].
      by apply fair_locked, fair_clients.
  - destruct (rt_workers s !! k) as [[i pc]|] eqn:Hk; [|done]. by eapply fair_worker_step.
  - unfold actor_reply in Hstep. destruct (rt_inbox s !! n) as [[i m]|] eqn:Hn; [|done].
    destruct (mb_replyc _); [|done]. injection Hstep as <-. by eapply fair_reply.
  - injection Hstep as <-. by eapply fair_same.
Qed.

(** ** Crashes

    Between the test of [ent->dispatch_chan] and the [sendp] an
    unregistration clears the channel of the entry. *)

Definition crashing (s : router) (pc : worker_pc) : Prop :=
  match pc with
  | WSend _ idx => en_chan (entry_at (rt_tab s) idx) = None
  | WFault _ => True
  | _ => False
  end.

(** No worker of mailbox [i] is about to send to a nil channel. *)
Definition sound (i : nat) (s : router) : Prop :=
  forall k pc, rt_workers s !! k = Some (i, pc) -> ~ crashing s pc.

Definition crash (s : router) (i : nat) : Prop :=
  exists k pc, rt_workers s !! k = Some (i, pc) /\ crashing s pc.

(** The actor is unregistered at that moment, and the request that is sent
    to its successor waits forever: [worker_running] is still set. *)
Definition crashed_worker : list event :=
  [sub 0; EClient 0 true] ++ rep 3 [w 0] ++
  [EUnregister c_ o_; w 0; EClient 1 true; EClient 1 true; sub 1; EClient 2 true].

Lemma worker_crashes :
  option_map (fun s => (completions s,
      map (fun w : nat * worker_pc => match w.2 with WFault slot => Some (sl_r slot) | _ => None end) (rt_workers s),
      rt_clients s, map sl_r (queue (mb_at s 0)), mb_worker_running (mb_at s 0)))
    (run crashed_worker router0) =
  Some ([], [Some 0], [CDone; CDone; CDone], [1], true).
Proof. vm_compute. reflexivity. Qed.

(** *** Without unregistrations no worker crashes *)

Definition unfaulted (s : router) : Prop := forall i, sound i s.

Lemma unfaulted_workers s s' : unfaulted s ->
  (forall n, en_chan (entry_at (rt_tab s) n) <> None -> en_chan (entry_at (rt_tab s') n) <> None) ->
  rt_workers s' = rt_workers s -> unfaulted s'.
Proof.
  intros H Ht Hw i k pc. rewrite Hw. intros Hk. specialize (H i k pc Hk). destruct pc; try done.
  simpl in *. by apply Ht.
Qed.

Lemma unfaulted_same s s' : unfaulted s -> rt_tab s' = rt_tab s -> rt_workers s' = rt_workers s -> unfaulted s'.
Proof. intros H Ht Hw. eapply unfaulted_workers; [done| |done]. by rewrite Ht. Qed.

Lemma sound_worker i k pc s : sound i s -> (forall pc0, rt_workers s !! k = Some (i, pc0) -> ~ crashing s pc) ->
  sound i (upd_worker k pc s).
Proof.
  intros H Hpc k' pc'. simpl. rewrite list_lookup_alter. case_decide; [|apply H].
  intros (x & Hx & [= -> ->])%fmap_Some. subst. destruct x. by eapply Hpc.
Qed.

Lemma sound_new i j s : sound i s -> sound i (set_workers (fun l => l ++ [(j, WTop)]) s).
Proof. intros H k pc [[_ Hk]|[_ [= <- <-]]]%lookup_snoc_Some; [by eapply H|simpl; tauto]. Qed.

Lemma entry_at_set n e t m : entry_at (set_entry n e t) m = e \/ entry_at (set_entry n e t) m = entry_at t m.
Proof.
  unfold entry_at. cbn [set_entry ot_entries].
  destruct (<[_:=e]> (ot_entries t) !! Z.to_nat m) as [x|] eqn:E.
  - apply list_lookup_insert_Some in E as [(_ & <- & _)|[_ E]]; [by left|]. right. by rewrite E.
  - right. rewrite lookup_ge_None, length_insert, <- lookup_ge_None in E. by rewrite E.
Qed.

Lemma register_entry_chan c o inst p t n :
  en_chan (entry_at t n) <> None -> en_chan (entry_at (o9_objtab_register (Some c) (Some o) inst (Some p) t).2 n) <> None.
Proof.
  intros Hn. assert (Hinit : en_chan (entry_at (objtab_init t) n) <> None).
  { unfold objtab_init. by destruct (ot_inited t). }
  unfold o9_objtab_register. destruct (reg_probe _ _ _ _ _ _ _) as [sl i|[sl|]];
    [|destruct (list_find _ _) as [[i x]|]|]; cbn [snd]; try done.
  - by destruct (entry_at_set i (MkEntry (en_gen (entry_at (objtab_init t) i)) (en_active (entry_at (objtab_init t) i))
      (en_class (entry_at (objtab_init t) i)) (en_oid (entry_at (objtab_init t) i))
      (or_else inst (en_inst (entry_at (objtab_init t) i))) (or_else (Some p) (en_chan (entry_at (objtab_init t) i)))
      (en_mb (entry_at (objtab_init t) i))) (objtab_init t) n) as [->| ->].
  - match goal with |- context [set_entry ?a ?b ?c] => destruct (entry_at_set a b c n) as [-> | ->] end; [done|].
    exact Hinit.
Qed.

Lemma resolve_entry h t idx ent : o9_objtab_resolve h t = Some (idx, ent) -> ent = entry_at t idx.
Proof.
  unfold o9_objtab_resolve. case_decide; [done|]. case_decide; [done|]. cbv zeta.
  destruct (_ && _); [|done]. by intros [= <- <-].
Qed.

(** What the workers and the actors leave alone. *)
Record kept (s s' : router) : Prop := {
  kp_tab : rt_tab s' = rt_tab s;
  kp_locked : rt_locked s' = rt_locked s;
  kp_len : length (rt_mbs s') = length (rt_mbs s);
  kp_closed : forall i, mb_closed (mb_at s' i) = mb_closed (mb_at s i);
  kp_done : exists l, rt_done s' = rt_done s ++ l }.

Lemma kept_refl s : kept s s.
Proof. split; try done. exists []. by rewrite app_nil_r. Qed.

Lemma kept_trans s1 s2 s3 : kept s1 s2 -> kept s2 s3 -> kept s1 s3.
Proof.
  intros [A1 A2 A3 A4 [l A5]] [B1 B2 B3 B4 [l' B5]]. split; try congruence.
  exists (l ++ l'). by rewrite B5, A5, app_assoc.
Qed.

Lemma kept_same s0 s s' : kept s0 s -> rt_tab s' = rt_tab s -> rt_locked s' = rt_locked s ->
  rt_mbs s' = rt_mbs s -> rt_done s' = rt_done s -> kept s0 s'.
Proof. intros [] Ht Hl Hm Hd. split; unfold mb_at in *; by rewrite ?Ht, ?Hl, ?Hm, ?Hd. Qed.

Lemma kept_mb s0 i f s : kept s0 s -> (forall m, mb_closed (f m) = mb_closed m) -> kept s0 (upd_mb i f s).
Proof.
  intros [A1 A2 A3 A4 A5] Hf. split; [done..| | |done].
  - simpl. by rewrite length_alter.
  - intros j. rewrite <- A4. unfold mb_at. simpl. rewrite list_lookup_alter. case_decide; [|done]. subst j.
    destruct (rt_mbs s !! i); [apply Hf|done].
Qed.

Lemma kept_worker s0 k pc s : kept s0 s -> kept s0 (upd_worker k pc s).
Proof. intros. by eapply kept_same. Qed.

Lemma kept_workers s0 f s : kept s0 s -> kept s0 (set_workers f s).
Proof. intros. by eapply kept_same. Qed.

Lemma kept_inbox s0 f s : kept s0 s -> kept s0 (set_inbox f s).
Proof. intros. by eapply kept_same. Qed.

Lemma kept_complete s0 r cb reply s : kept s0 s -> kept s0 (complete r cb reply s).
Proof.
  intros [A1 A2 A3 A4 [l A5]]. unfold complete. destruct cb; [|by split; try done; exists l].
  split; try done. exists (l ++ [(r, reply)]). simpl. by rewrite A5, app_assoc.
Qed.

Lemma kept_consume s0 i s : kept s0 s -> kept s0 (consume_t i s).2.
Proof. intros. unfold consume_t. destruct (o9_tring_consume _). by apply kept_mb. Qed.

Lemma kept_finish s0 i slot st reply s : kept s0 s -> kept s0 (finish i slot st reply s).
Proof. intros. unfold finish. destruct (o9_tring_submit _ _). apply kept_complete. by apply kept_mb. Qed.

#[local] Hint Resolve kept_refl kept_mb kept_worker kept_workers kept_inbox kept_complete kept_consume kept_finish : o9.

Lemma worker_kept k i pc ok s s' : o9_router_worker k i pc ok s = Some s' -> kept s s'.
Proof.
  destruct pc; cbn [o9_router_worker]; intros Hstep; proj_pairs; try done;
    try (injection Hstep as <-; by auto 6 with o9).
  - destruct (rt_locked s); [done|]. case_decide; injection Hstep as <-; auto with o9.
  - destruct (o9_objtab_resolve _ _) as [[idx x]|]; [|injection Hstep as <-; auto with o9].
    destruct (chan_ok _ _); [destruct (mb_closed _)|]; injection Hstep as <-; auto with o9.
  - destruct (en_chan _); [|injection Hstep as <-; auto with o9].
    case_decide; injection Hstep as <-; auto with o9.
  - destruct (mb_replyc _); [done|]. injection Hstep as <-. auto with o9.
  - destruct (rt_locked s); [done|]. cbn zeta in Hstep.
    case_decide; injection Hstep as <-; [destruct ok|]; auto 8 with o9.
Qed.

Lemma sound_same i s s' : sound i s -> rt_tab s' = rt_tab s -> rt_workers s' = rt_workers s -> sound i s'.
Proof. intros H Ht Hw k pc. rewrite Hw. intros Hk. specialize (H k pc Hk). destruct pc; simpl in *; by rewrite ?Ht. Qed.

(** A step of a worker on the way to [pc']: the rest of the state differs
    in nothing that matters here. *)
Lemma sound_move i k pc' s s1 : sound i s -> rt_tab s1 = rt_tab s -> rt_workers s1 = rt_workers s ->
  (forall pc0, rt_workers s !! k = Some (i, pc0) -> ~ crashing s pc') -> sound i (upd_worker k pc' s1).
Proof.
  intros H Ht Hw Hpc. apply sound_worker; [by eapply sound_same|]. rewrite Hw. intros pc0 Hk.
  specialize (Hpc pc0 Hk). destruct pc'; simpl in *; by rewrite ?Ht.
Qed.

Lemma finish_parts i slot st reply s :
  rt_tab (finish i slot st reply s) = rt_tab s /\ rt_workers (finish i slot st reply s) = rt_workers s.
Proof. unfold finish, complete. destruct (o9_tring_submit _ _). by destruct (sl_complete slot). Qed.

Lemma consume_parts i s : rt_tab (consume_t i s).2 = rt_tab s /\ rt_workers (consume_t i s).2 = rt_workers s.
Proof. unfold consume_t. by destruct (o9_tring_consume _). Qed.

(** Positions other than the send do not crash. *)
Ltac calm := intros; simpl; tauto.

Lemma sound_worker_step i k j pc ok s s' : sound i s -> rt_workers s !! k = Some (j, pc) ->
  o9_router_worker k j pc ok s = Some s' -> sound i s'.
Proof.
  intros Hs Hk. destruct (consume_parts j s) as [Hct Hcw].
  assert (Hfin : forall st reply s1, rt_tab s1 = rt_tab s -> rt_workers s1 = rt_workers s ->
    forall slot, sound i (upd_worker k WTop (finish j slot st reply s1))).
  { intros st reply s1 Ht Hw slot. destruct (finish_parts j slot st reply s1) as [E1 E2].
    apply (sound_move i k WTop s); [done|congruence..|calm]. }
  destruct pc; cbn [o9_router_worker]; intros Hstep; proj_pairs; try done.
  - injection Hstep as <-. eapply sound_move; [done..|]. destruct (mb_closed _); calm.
  - injection Hstep as <-. eapply sound_move; [done..|]. destruct (consume_t _ _).1; calm.
  - injection Hstep as <-. eapply sound_move; [done..|]. case_decide; [destruct (mb_closed _)|]; calm.
  - injection Hstep as <-. eapply sound_move; [done..|]. destruct (consume_t _ _).1; calm.
  - injection Hstep as <-. eapply sound_move; [done..|]. destruct (mb_closed _), got; calm.
  - destruct (rt_locked s); [done|]. case_decide; injection Hstep as <-; (eapply sound_move; [done..|calm]).
  - destruct (o9_objtab_resolve _ _) as [[idx x]|] eqn:Hr; [|injection Hstep as <-; by apply Hfin].
    apply resolve_entry in Hr as ->. destruct (en_chan (entry_at (rt_tab s) idx)) eqn:He;
      [|injection Hstep as <-; by apply Hfin].
    destruct (chan_ok _ _); [destruct (mb_closed _)|]; injection Hstep as <-; [by apply Hfin| |by apply Hfin].
    eapply sound_move; [done..|]. intros _ _. simpl. congruence.
  - destruct (en_chan _) eqn:He.
    + case_decide; injection Hstep as <-; (eapply sound_move; [done..|calm]).
    + injection Hstep as <-. eapply sound_move; [done..|]. intros pc0 Hk'. rewrite Hk in Hk'.
      injection Hk' as -> <-. by destruct (Hs k _ Hk).
  - destruct (mb_replyc _); [done|]. injection Hstep as <-. eapply sound_move; [done..|calm].
  - injection Hstep as <-. by apply Hfin.
  - destruct (rt_locked s); [done|]. cbn zeta in Hstep.
    assert (H1 : sound i (upd_worker k WDead (upd_mb j (mset_running false) s))) by (eapply sound_move; [done..|calm]).
    case_decide; injection Hstep as <-; [destruct ok|]; [apply sound_new| |done]; by eapply sound_same.
Qed.

Lemma unfaulted_set_entry idx i s : unfaulted s -> unfaulted (set_entry_mb idx i s).
Proof.
  intros H. eapply unfaulted_workers; [done| |done]. intros n Hn. simpl.
  match goal with |- context [set_entry ?a ?b ?c] => destruct (entry_at_set a b c n) as [E|E] end; rewrite E; [|done].
  simpl. unfold entry_at in *. cbn [set_entry ot_entries] in E. destruct (decide (Z.to_nat n = Z.to_nat idx)) as [En|En].
  - by rewrite <- En.
  - rewrite list_lookup_insert_ne in E by done. by rewrite E in Hn.
Qed.

Lemma post_mailbox_unfaulted slot c o dc s : unfaulted s -> unfaulted (post_mailbox slot c o dc s).2.
Proof.
  intros Hf. unfold post_mailbox.
  assert (Hg : unfaulted (o9_router_get_mailbox_locked c o dc (sl_handle slot) s).2).
  { unfold o9_router_get_mailbox_locked. by destruct (find_mb _ _ _ _). }
  destruct (o9_router_get_mailbox_locked _ _ _ _ _) as [i s']. simpl in Hg.
  destruct (entry_mb _ _); [|by apply unfaulted_set_entry].
  by destruct (mb_closed _); [apply unfaulted_set_entry|].
Qed.

Lemma complete_parts r cb reply s :
  rt_tab (complete r cb reply s) = rt_tab s /\ rt_workers (complete r cb reply s) = rt_workers s.
Proof. by destruct cb. Qed.

Lemma unfaulted_complete r cb reply s : unfaulted s -> unfaulted (complete r cb reply s).
Proof. intros H. by destruct cb. Qed.

Lemma unfaulted_consume i s : unfaulted s -> unfaulted (consume_t i s).2.
Proof. intros H. unfold consume_t. by destruct (o9_tring_consume _). Qed.

Lemma unfaulted_post slot c o dc ok s : unfaulted s -> unfaulted (o9_router_post slot c o dc ok s).
Proof.
  intros H. unfold o9_router_post. pose proof (post_mailbox_unfaulted slot c o dc s H) as Hp.
  destruct (post_mailbox _ _ _ _ _) as [i s1]. simpl in Hp. unfold o9_router_fail_request.
  destruct (mb_closed _); [by apply unfaulted_complete|]. destruct (o9_tring_submit _ _) as [ret ring].
  case_decide; [by apply unfaulted_complete|]. destruct (mb_worker_running _); [done|].
  destruct ok; [intros j; apply sound_new, Hp|]. by apply unfaulted_complete, unfaulted_consume.
Qed.

Lemma unfaulted_step ev s s' : unfaulted s -> plain ev -> step ev s = Some s' -> unfaulted s'.
Proof.
  intros Hs Hev Hstep. destruct ev as [r' c o inst dc sel args caller bl cb aux|c o|k ok|k ok|n err|c]; cbn [step] in *.
  - injection Hstep as <-. unfold o9_router_submit, o9_router_fail_request.
    destruct (chan_ok s dc) as [p|]; [|by apply unfaulted_complete].
    pose proof (register_entry_chan c o inst p (rt_tab s)) as Ht. destruct (o9_objtab_register _ _ _ _ _) as [h t].
    assert (unfaulted (set_tab (fun _ => t) s)) by (by eapply unfaulted_workers).
    case_decide; [by apply unfaulted_complete|done].
  - done.
  - unfold client_step in Hstep.
    destruct (rt_clients s !! k) as [[slot c o dc|c o|i|]|] eqn:Hk; try done.
    + destruct (rt_locked s); [done|]. injection Hstep as <-. by apply unfaulted_post.
    + destruct (rt_locked s); [done|]. injection Hstep as <-. unfold o9_router_close. by destruct (find_mb _ _ _ _).
    + injection Hstep as <-. unfold o9_router_drain. pose proof (unfaulted_consume i s Hs).
      destruct (consume_t i s) as [[slot|] s1]; simpl in *; [by apply unfaulted_complete|done].
  - destruct (rt_workers s !! k) as [[i pc]|] eqn:Hk; [|done]. intros j. by eapply sound_worker_step.
  - unfold actor_reply in Hstep. destruct (rt_inbox s !! n) as [[i m]|]; [|done].
    destruct (mb_replyc _); [|done]. by injection Hstep as <-.
  - by injection Hstep as <-.
Qed.

(** ** Every reachable state *)

Record reach (s : router) : Prop := {
  rc_inv : inv s;
  rc_served : served s;
  rc_fair : fair s }.

Lemma reach_step ev s s' : reach s -> respawns ev -> step ev s = Some s' -> reach s'.
Proof.
  intros [Hi Hsv Hf] He Hs. split; [by apply (step_spec ev s s')|by eapply served_step|by eapply fair_step].
Qed.

Lemma reach_run evs s s' : reach s -> Forall respawns evs -> run evs s = Some s' -> reach s'.
Proof.
  revert s. induction evs as [|ev evs IH]; intros s H; cbn [run]; [by intros _ [= <-]|].
  intros [He Hev]%Forall_cons (s1 & Hs1 & Hrun)%bind_Some. by eapply (IH s1), Hrun; [eapply reach_step|].
Qed.

Lemma reach0 : reach router0.
Proof. split; [apply router_inv0|intros j x; done|]. split; [intros [|k]; done|intros i m; done]. Qed.

Lemma plain_run evs s s' : opened s -> unfaulted s -> Forall plain evs -> run evs s = Some s' -> opened s' /\ unfaulted s'.
Proof.
  revert s. induction evs as [|ev evs IH]; intros s H1 H2; cbn [run]; [by intros _ [= <-]|].
  intros [He Hev]%Forall_cons (s1 & Hs1 & Hrun)%bind_Some. by eapply (IH s1); [eapply opened_step|eapply unfaulted_step|..].
Qed.

(** ** Workers and actors make progress *)

Definition helper (ev : event) : Prop :=
  match ev with EWorker _ ok => ok = true | EReply _ _ => True | _ => False end.

(** A state from which mailbox [i] is served. *)
Record ready (i : nat) (s : router) : Prop := {
  rd_reach : reach s;
  rd_unlocked : rt_locked s = false;
  rd_open : mb_closed (mb_at s i) = false;
  rd_sound : sound i s;
  rd_lt : i < length (rt_mbs s) }.

Lemma helper_kept ev s s' : helper ev -> step ev s = Some s' -> kept s s'.
Proof.
  destruct ev as [| | |k ok|n err|]; cbn [helper step]; try done.
  - intros _ (w & _ & Hw)%bind_Some. by eapply worker_kept.
  - intros _. unfold actor_reply. destruct (rt_inbox s !! n) as [[i m]|]; [|done].
    destruct (mb_replyc _); [|done]. intros [= <-]. auto with o9.
Qed.

Lemma ready_step i ev s s' : ready i s -> helper ev -> step ev s = Some s' -> ready i s'.
Proof.
  intros [H1 H2 H3 H4 H5] He Hs. destruct (helper_kept ev s s' He Hs) as [K1 K2 K3 K4 K5].
  split; [|congruence|by rewrite K4| |congruence].
  - eapply reach_step; [done| |done]. by destruct ev.
  - destruct ev as [| | |k ok|n err|]; try done; cbn [step] in Hs.
    + apply bind_Some in Hs as ([j pc] & Hk & Hw). by eapply sound_worker_step.
    + unfold actor_reply in Hs. destruct (rt_inbox s !! n) as [[j m]|]; [|done].
      destruct (mb_replyc _); [|done]. by injection Hs as <-.
Qed.

(** [s'] is reached by at most [n] of their steps. *)
Definition steps (n : nat) (s s' : router) : Prop :=
  exists evs, Forall helper evs /\ length evs <= n /\ run evs s = Some s'.

Lemma steps_refl s : steps 0 s s.
Proof. by exists []. Qed.

Lemma run_app evs evs' s s1 : run evs s = Some s1 -> run (evs ++ evs') s = run evs' s1.
Proof.
  revert s. induction evs as [|ev evs IH]; intros s; cbn [run app]; [by intros [= ->]|].
  intros (s2 & Hs2 & Hrun)%bind_Some. rewrite Hs2. by apply IH.
Qed.

Lemma steps_trans n m s1 s2 s3 : steps n s1 s2 -> steps m s2 s3 -> steps (n + m) s1 s3.
Proof.
  intros (e1 & F1 & L1 & R1) (e2 & F2 & L2 & R2). exists (e1 ++ e2). split; [by apply Forall_app|].
  rewrite length_app, (run_app _ _ _ _ R1). split; [lia|done].
Qed.

Lemma steps_weaken n m s s' : steps n s s' -> n <= m -> steps m s s'.
Proof. intros (e & F & L & R) Hm. exists e. split; [done|]. split; [lia|done]. Qed.

Lemma steps_one ev s s' : helper ev -> step ev s = Some s' -> steps 1 s s'.
Proof. intros He Hs. exists [ev]. split; [by repeat constructor|]. split; [done|]. simpl. by rewrite Hs. Qed.

Lemma steps_keep i n s s' : ready i s -> steps n s s' -> ready i s' /\ kept s s'.
Proof.
  intros Hr (e & F & _ & R). revert s Hr R. induction e as [|ev e IH]; intros s Hr; cbn [run].
  - intros [= <-]. split; [done|apply kept_refl].
  - apply Forall_cons in F as [He F]. intros (s1 & Hs1 & Hrun)%bind_Some.
    destruct (IH F s1 (ready_step i ev s s1 Hr He Hs1) Hrun) as [? ?]. split; [done|].
    eapply kept_trans; [by eapply helper_kept|done].
Qed.

(** Worker [k] of mailbox [i] stands at [pc] and the queue is [q]. *)
Record stands (i k : nat) (pc : worker_pc) (q : list O9Slot) (s : router) : Prop := {
  sd_pc : rt_workers s !! k = Some (i, pc);
  sd_queue : queue (mb_at s i) = q;
  sd_ready : ready i s }.

Lemma go i k pc q pc' s1 s : stands i k pc q s ->
  o9_router_worker k i pc true s = Some (upd_worker k pc' s1) -> rt_workers s1 = rt_workers s ->
  steps 1 s (upd_worker k pc' s1) /\ stands i k pc' (queue (mb_at s1 i)) (upd_worker k pc' s1).
Proof.
  intros [Hk Hq Hr] Hw Hws.
  assert (Hs : step (EWorker k true) s = Some (upd_worker k pc' s1)) by (cbn [step]; by rewrite Hk).
  split; [by eapply steps_one, Hs|]. split; [|done|by eapply ready_step, Hs].
  simpl. by rewrite list_lookup_alter_eq, Hws, Hk.
Qed.

Lemma consume_queue i s : ready i s ->
  (consume_t i s).1 = head (queue (mb_at s i)) /\
  queue (mb_at (consume_t i s).2 i) = tail (queue (mb_at s i)) /\
  rt_workers (consume_t i s).2 = rt_workers s.
Proof.
  intros [[Hi _ _] _ _ _ Hlt]. destruct (consume_t_spec i s Hi) as (H1 & H2 & _ & H4).
  split; [done|]. split; [|apply consume_parts]. rewrite H2, mb_at_upd by done.
  apply H4. by apply mb_at_lookup.
Qed.

(** The slot that worker [k] is about to serve. *)
Definition serving (slot : O9Slot) (pc : worker_pc) : Prop := pc = WHave slot \/ pc = WIdled (Some slot).

Section stands.
Context (i k : nat) (s : router).

Lemma go_top q : stands i k WTop q s -> exists s', steps 1 s s' /\ stands i k WTry q s'.
Proof.
  intros H. pose proof H as [_ Hq Hr]. destruct (go i k _ q WTry s s H) as [H1 H2].
  - cbn [o9_router_worker]. by rewrite (rd_open _ _ Hr).
  - done.
  - rewrite Hq in H2. eauto.
Qed.

Lemma go_consume pc f slot q : stands i k pc (slot :: q) s ->
  o9_router_worker k i pc true s = Some (upd_worker k (f (consume_t i s).1) (consume_t i s).2) ->
  exists s', steps 1 s s' /\ stands i k (f (Some slot)) q s'.
Proof.
  intros H Hw. pose proof H as [_ Hq Hr]. destruct (consume_queue i s Hr) as (C1 & C2 & C3).
  rewrite Hq in C1, C2. simpl in C1, C2. rewrite C1 in Hw.
  destruct (go i k _ _ _ _ s H Hw C3) as [H1 H2]. rewrite C2 in H2. eauto.
Qed.

Lemma go_try slot q : stands i k WTry (slot :: q) s -> exists s', steps 1 s s' /\ stands i k (WHave slot) q s'.
Proof.
  intros H. apply (go_consume WTry (fun x => match x with Some slot => WHave slot | None => WIdle 0 end) slot q H).
  cbn [o9_router_worker]. by rewrite (surjective_pairing (consume_t i s)).
Qed.

Lemma go_sleep n slot q : stands i k (WSleep n) (slot :: q) s ->
  exists s', steps 1 s s' /\ stands i k (WIdled (Some slot)) q s'.
Proof.
  intros H. apply (go_consume (WSleep n)
    (fun x => match x with Some slot => WIdled (Some slot) | None => WIdle (S n) end) slot q H).
  cbn [o9_router_worker]. by rewrite (surjective_pairing (consume_t i s)).
Qed.

Lemma go_idled got q : stands i k (WIdled got) q s ->
  exists s', steps 1 s s' /\ stands i k (match got with Some slot => WHave slot | None => WEmpty end) q s'.
Proof.
  intros H. pose proof H as [_ Hq Hr].
  destruct (go i k _ q (match got with Some slot => WHave slot | None => WEmpty end) s s H) as [H1 H2].
  - cbn [o9_router_worker]. by rewrite (rd_open _ _ Hr).
  - done.
  - rewrite Hq in H2. eauto.
Qed.

Lemma go_idle n q : stands i k (WIdle n) q s ->
  exists s', steps 1 s s' /\ (stands i k (WSleep n) q s' \/ stands i k (WIdled None) q s').
Proof.
  intros H. pose proof H as [_ Hq Hr].
  destruct (go i k _ q (if decide (n < 50) then WSleep n else WIdled None) s s H) as [H1 H2].
  - cbn [o9_router_worker]. by rewrite (rd_open _ _ Hr).
  - done.
  - rewrite Hq in H2. case_decide; eauto.
Qed.

Lemma go_empty slot q : stands i k WEmpty (slot :: q) s -> exists s', steps 1 s s' /\ stands i k WTop (slot :: q) s'.
Proof.
  intros H. pose proof H as [_ Hq Hr]. destruct (go i k _ _ WTop s s H) as [H1 H2].
  - cbn [o9_router_worker]. rewrite (rd_unlocked _ _ Hr), (mb_at_len s i (rc_inv _ (rd_reach _ _ Hr))), Hq.
    by rewrite decide_False by (simpl; lia).
  - done.
  - rewrite Hq in H2. eauto.
Qed.

(** A worker that leaves a queue behind starts its successor. *)
Lemma go_exit slot q : stands i k WExit (slot :: q) s -> exists s' k', steps 1 s s' /\ stands i k' WTop (slot :: q) s'.
Proof.
  intros [Hk Hq Hr].
  set (s1 := upd_mb i (mset_running true) (upd_worker k WDead (upd_mb i (mset_running false) s))).
  set (s' := set_workers (fun l => l ++ [(i, WTop)]) s1).
  assert (Hs : step (EWorker k true) s = Some s').
  { cbn [step]. rewrite Hk. cbn [mbind option_bind o9_router_worker fst snd]. rewrite (rd_unlocked _ _ Hr).
    rewrite (mb_at_len s i (rc_inv _ (rd_reach _ _ Hr))), Hq, (rd_open _ _ Hr).
    rewrite decide_True by (split; [done|simpl; lia]). done. }
  exists s', (length (rt_workers s1)). split; [by eapply steps_one, Hs|]. split; [|..|by eapply ready_step, Hs].
  - simpl. by rewrite list_lookup_middle.
  - change (mb_at s' i) with (mb_at s1 i). unfold s1.
    assert (Hlt : i < length (rt_mbs s)) by apply Hr.
    rewrite !mb_at_upd; [..|simpl; by rewrite length_alter]. change (mb_at (upd_worker _ _ ?x) i) with (mb_at x i).
    by rewrite mb_at_upd.
Qed.
End stands.

(** ** One request *)

(** Its callback was called between [s] and [s']. *)
Definition answered_since (s s' : router) (slot : O9Slot) : Prop :=
  sl_complete slot = true ->
  exists l reply, rt_done s' = rt_done s ++ l /\ (sl_r slot, reply) ∈ l.

Lemma answered_since_l i n s1 s2 s3 slot : ready i s1 -> steps n s1 s2 -> answered_since s2 s3 slot ->
  answered_since s1 s3 slot.
Proof.
  intros Hr Hs H Hc. destruct (steps_keep i n s1 s2 Hr Hs) as [_ [_ _ _ _ [l1 E1]]].
  destruct (H Hc) as (l & reply & E & Hin). exists (l1 ++ l), reply. rewrite E, E1, app_assoc. split; [done|].
  apply elem_of_app. by right.
Qed.

Lemma answered_since_r i n s1 s2 s3 slot : ready i s2 -> steps n s2 s3 -> answered_since s1 s2 slot ->
  answered_since s1 s3 slot.
Proof.
  intros Hr Hs H Hc. destruct (steps_keep i n s2 s3 Hr Hs) as [_ [_ _ _ _ [l1 E1]]].
  destruct (H Hc) as (l & reply & E & Hin). exists (l ++ l1), reply. rewrite E1, E, app_assoc. split; [done|].
  apply elem_of_app. by left.
Qed.

Lemma finish_queue i j slot st reply s : queue (mb_at (finish j slot st reply s) i) = queue (mb_at s i).
Proof.
  unfold finish, complete. destruct (o9_tring_submit _ _) as [x r]. destruct (sl_complete slot);
    unfold mb_at; simpl; rewrite list_lookup_alter; case_decide; try done; subst; by destruct (rt_mbs s !! _).
Qed.

Lemma finish_answers i slot st reply s : answered_since s (finish i slot st reply s) slot.
Proof.
  intros Hc. unfold finish. destruct (o9_tring_submit _ _) as [x r]. unfold complete. rewrite Hc.
  exists [(sl_r slot, reply)], reply. split; [done|]. by apply list_elem_of_singleton.
Qed.

Lemma queue_flag i f s : i < length (rt_mbs s) -> (forall m, mb_t_ring (f m) = mb_t_ring m) ->
  queue (mb_at (upd_mb i f s) i) = queue (mb_at s i).
Proof. intros Hlt Hf. rewrite mb_at_upd by done. unfold queue. by rewrite Hf. Qed.

Section serve.
Context (i k : nat) (slot : O9Slot) (q : list O9Slot).

Lemma go_finish pc st reply s1 s : stands i k pc q s ->
  o9_router_worker k i pc true s = Some (upd_worker k WTop (finish i slot st reply s1)) ->
  rt_workers s1 = rt_workers s -> queue (mb_at s1 i) = q -> rt_done s1 = rt_done s ->
  exists s', steps 1 s s' /\ stands i k WTop q s' /\ answered_since s s' slot.
Proof.
  intros H Hw Hws Hq Hd. destruct (go i k _ q WTop _ s H Hw) as [H1 H2].
  { by rewrite <- Hws; apply finish_parts. }
  rewrite finish_queue, Hq in H2. eexists. split; [done|]. split; [done|]. intros Hc.
  destruct (finish_answers i slot st reply s1 Hc) as (l & rp & E & Hin). exists l, rp. by rewrite <- Hd.
Qed.

Lemma serve_finish reply s : stands i k (WFinish slot reply) q s ->
  exists s', steps 1 s s' /\ stands i k WTop q s' /\ answered_since s s' slot.
Proof.
  intros H. pose proof H as [_ Hq Hr]. eapply go_finish; [done|done|done| |done].
  rewrite queue_flag; [done|apply Hr|done].
Qed.

(** The actor has the message, or has answered it. *)
Lemma message_waits m s : stands i k (WRecv slot) q s -> rt_mbs s !! i = Some m -> mb_replyc m = [] ->
  exists n msg, rt_inbox s !! n = Some (i, msg).
Proof.
  intros [Hk _ Hr] Hm Hc. pose proof (fr_recv _ (rc_fair _ (rd_reach _ _ Hr)) i m Hm) as H.
  rewrite Hc in H. simpl in H.
  assert (Hin : (i, WRecv slot) ∈ rt_workers s) by (by eapply list_elem_of_lookup_2).
  pose proof (sum_list_pos (is_recv i) _ _ Hin) as Hp. unfold is_recv in Hp at 1. simpl in Hp.
  rewrite decide_True in Hp by done. fold (recvs i s) in Hp.
  destruct (sum_list_nonzero (fun p : nat * O9Msg => if decide (p.1 = i) then 1 else 0) (rt_inbox s)) as ([j msg] & Hj & Hx).
  { unfold msgs in H. lia. }
  simpl in Hx. case_decide as Hd; [|done]. simpl in Hd. subst j. apply list_elem_of_lookup in Hj as [n Hn]. eauto.
Qed.

Lemma take_reply reply rest s : stands i k (WRecv slot) q s -> mb_replyc (mb_at s i) = reply :: rest ->
  exists s', steps 1 s s' /\ stands i k (WFinish slot (Some reply)) q s'.
Proof.
  intros H Hc. pose proof H as [_ Hq Hr].
  destruct (go i k _ q (WFinish slot (Some reply)) (upd_mb i (mset_replyc (fun _ => rest)) s) s H) as [H1 H2].
  - cbn [o9_router_worker]. by rewrite Hc.
  - done.
  - rewrite queue_flag, Hq in H2; [eauto|apply Hr|done].
Qed.

Lemma serve_recv s : stands i k (WRecv slot) q s ->
  exists s' reply, steps 2 s s' /\ stands i k (WFinish slot reply) q s'.
Proof.
  intros H. pose proof H as [Hk Hq Hr]. pose proof (mb_at_lookup i s (rd_lt _ _ Hr)) as Hm.
  destruct (mb_replyc (mb_at s i)) as [|reply rest] eqn:Hc.
  - destruct (message_waits _ s H Hm Hc) as (n & msg & Hn).
    set (f := mset_replyc (fun l => l ++ [MkReply (Some (m_for msg)) None])).
    set (s1 := set_inbox (delete n) (upd_mb i f s)).
    assert (Hs : step (EReply n None) s = Some s1).
    { cbn [step]. unfold actor_reply. by rewrite Hn, Hc. }
    assert (H1 : stands i k (WRecv slot) q s1).
    { split; [done| |by eapply ready_step, Hs]. change (mb_at s1 i) with (mb_at (upd_mb i f s) i).
      rewrite queue_flag; [done|apply Hr|done]. }
    assert (Hc1 : mb_replyc (mb_at s1 i) = [MkReply (Some (m_for msg)) None]).
    { change (mb_at s1 i) with (mb_at (upd_mb i f s) i). rewrite mb_at_upd by apply Hr. unfold f. simpl. by rewrite Hc. }
    destruct (take_reply _ _ s1 H1 Hc1) as (s' & Hs1 & H2). exists s', (Some (MkReply (Some (m_for msg)) None)).
    split; [|done]. by apply (steps_trans 1 1 s s1 s'); [eapply steps_one, Hs|].
  - destruct (take_reply _ _ s H Hc) as (s' & Hs1 & H2). exists s', (Some reply). split; [|done].
    eapply steps_weaken; [done|lia].
Qed.

Lemma serve_send idx s : stands i k (WSend slot idx) q s ->
  exists s', steps 1 s s' /\
    (stands i k (WRecv slot) q s' \/ stands i k (WFinish slot (Some terminated)) q s').
Proof.
  intros H. pose proof H as [Hk Hq Hr]. pose proof (rd_sound _ _ Hr _ _ Hk) as Hc. simpl in Hc.
  destruct (en_chan (entry_at (rt_tab s) idx)) as [p|] eqn:He; [|done].
  destruct (decide (p ∈ rt_closing s)) as [Hp|Hp].
  - destruct (go i k _ q (WFinish slot (Some terminated)) s s H) as [H1 H2]; [|done|rewrite Hq in H2; eauto].
    cbn [o9_router_worker]. by rewrite He, decide_True by done.
  - destruct (go i k _ q (WRecv slot) (set_inbox (fun l => l ++ [(i, msg_of_slot slot)]) s) s H) as [H1 H2];
      [|done|change (mb_at (set_inbox _ _) i) with (mb_at s i) in H2; rewrite Hq in H2; eauto].
    cbn [o9_router_worker]. by rewrite He, decide_False by done.
Qed.

Lemma serve_have s : stands i k (WHave slot) q s ->
  (exists s', steps 1 s s' /\ stands i k WTop q s' /\ answered_since s s' slot) \/
  (exists s' idx, steps 1 s s' /\ stands i k (WSend slot idx) q s').
Proof.
  intros H. pose proof H as [Hk Hq Hr].
  assert (Hfail : o9_router_worker k i (WHave slot) true s =
      Some (upd_worker k WTop (finish i slot 1 (Some terminated) s)) ->
    exists s', steps 1 s s' /\ stands i k WTop q s' /\ answered_since s s' slot).
  { intros Hw. by eapply go_finish. }
  cbn [o9_router_worker] in Hfail. destruct (o9_objtab_resolve _ _) as [[idx ent]|] eqn:Hres; [|by left; apply Hfail].
  destruct (chan_ok s (en_chan ent)) as [p|] eqn:Hp; [|by left; apply Hfail].
  right. destruct (go i k _ q (WSend slot idx) (upd_mb i (mset_in_flight true) s) s H) as [H1 H2]; [|done|].
  - cbn [o9_router_worker]. by rewrite Hres, Hp, (rd_open _ _ Hr).
  - rewrite queue_flag, Hq in H2; [eauto|apply Hr|done].
Qed.
End serve.

(** [done1 n slot q s]: within [n] steps the slot is answered, and its worker
    is at the top again. *)
Definition done1 (i k n : nat) (slot : O9Slot) (q : list O9Slot) (s : router) : Prop :=
  exists s', steps n s s' /\ stands i k WTop q s' /\ answered_since s s' slot.

Lemma done1_after i k n m pc slot q s s' : stands i k pc q s -> steps n s s' -> done1 i k m slot q s' ->
  done1 i k (n + m) slot q s.
Proof.
  intros H Hs (s2 & Hs2 & H2 & Ha). exists s2. split; [by eapply steps_trans|]. split; [done|].
  eapply answered_since_l; [by apply H|done..].
Qed.

Lemma done_recv i k slot q s : stands i k (WRecv slot) q s -> done1 i k 3 slot q s.
Proof.
  intros H. destruct (serve_recv i k slot q s H) as (s1 & reply & Hs & H1).
  apply (done1_after i k 2 1 _ slot q s s1 H Hs). by apply serve_finish in H1.
Qed.

Lemma done1_weaken i k n m slot q s : done1 i k n slot q s -> n <= m -> done1 i k m slot q s.
Proof. intros (s' & Hs & H) Hm. exists s'. split; [by eapply steps_weaken|done]. Qed.

Lemma done_send i k slot idx q s : stands i k (WSend slot idx) q s -> done1 i k 4 slot q s.
Proof.
  intros H. destruct (serve_send i k slot q idx s H) as (s1 & Hs & H1).
  apply (done1_after i k 1 3 _ slot q s s1 H Hs). destruct H1 as [H1|H1]; [by apply done_recv|].
  apply (done1_weaken i k 1); [by apply serve_finish in H1|lia].
Qed.

Lemma done_have i k slot q s : stands i k (WHave slot) q s -> done1 i k 5 slot q s.
Proof.
  intros H. destruct (serve_have i k slot q s H) as [H1|(s1 & idx & Hs & H1)]; [by apply (done1_weaken i k 1); [|lia]|].
  apply (done1_after i k 1 4 _ slot q s s1 H Hs). by eapply done_send.
Qed.

Lemma done_serving i k slot pc q s : stands i k pc q s -> serving slot pc -> done1 i k 6 slot q s.
Proof.
  intros H [->| ->]; [by apply (done1_weaken i k 5); [apply done_have|lia]|].
  destruct (go_idled i k s _ q H) as (s1 & Hs & H1). apply (done1_after i k 1 5 _ slot q s s1 H Hs). by apply done_have.
Qed.

(** [taken n slot q s]: within [n] steps a worker serves the head of the
    queue [slot :: q]. *)
Definition taken (i n : nat) (slot : O9Slot) (q : list O9Slot) (s : router) : Prop :=
  exists s' k pc, steps n s s' /\ stands i k pc q s' /\ serving slot pc.

Lemma taken_after i n m slot q s s' : steps n s s' -> taken i m slot q s' -> taken i (n + m) slot q s.
Proof. intros Hs (s2 & k & pc & Hs2 & H). exists s2, k, pc. split; [by eapply steps_trans|done]. Qed.

Lemma taken_weaken i n m slot q s : taken i n slot q s -> n <= m -> taken i m slot q s.
Proof. intros (s2 & k & pc & Hs & H) Hm. exists s2, k, pc. split; [by eapply steps_weaken|done]. Qed.

Lemma taken_top i k slot q s : stands i k WTop (slot :: q) s -> taken i 2 slot q s.
Proof.
  intros H. destruct (go_top i k s _ H) as (s1 & Hs & H1). apply (taken_after i 1 1 slot q s s1 Hs).
  destruct (go_try i k s1 _ _ H1) as (s2 & Hs2 & H2). exists s2, k, (WHave slot). split_and!; [done..|by left].
Qed.

Lemma taken_done1 i k n x slot q s : done1 i k n x (slot :: q) s -> taken i (n + 2) slot q s.
Proof. intros (s' & Hs & H & _). eapply taken_after; [done|by eapply taken_top]. Qed.

Lemma taken_sleep i k n slot q s : stands i k (WSleep n) (slot :: q) s -> taken i 1 slot q s.
Proof.
  intros H. destruct (go_sleep i k s n _ _ H) as (s1 & Hs & H1). exists s1, k, (WIdled (Some slot)).
  split_and!; [done..|by right].
Qed.

Lemma taken_empty i k slot q s : stands i k WEmpty (slot :: q) s -> taken i 3 slot q s.
Proof.
  intros H. destruct (go_empty i k s _ _ H) as (s1 & Hs & H1). apply (taken_after i 1 2 slot q s s1 Hs).
  by eapply taken_top.
Qed.

Lemma taken_idled i k slot q s : stands i k (WIdled None) (slot :: q) s -> taken i 4 slot q s.
Proof.
  intros H. destruct (go_idled i k s None _ H) as (s1 & Hs & H1). apply (taken_after i 1 3 slot q s s1 Hs).
  by eapply taken_empty.
Qed.

(** Wherever a live worker of the mailbox stands. *)
Lemma taken_any i k pc slot q s : stands i k pc (slot :: q) s -> pc <> WDead -> taken i 8 slot q s.
Proof.
  intros H Hd. destruct pc as [| |n|n|[x|]| |x|x idx|x|x reply| |x|]; try done.
  - apply (taken_weaken i 2); [by eapply taken_top|lia].
  - destruct (go_try i k s _ _ H) as (s1 & Hs & H1). exists s1, k, (WHave slot).
    split_and!; [apply (steps_weaken 1 8); [done|lia]|done|by left].
  - destruct (go_idle i k s n _ H) as (s1 & Hs & [H1|H1]).
    + apply (taken_weaken i (1 + 1)); [|lia]. by eapply taken_after, taken_sleep.
    + apply (taken_weaken i (1 + 4)); [|lia]. by eapply taken_after, taken_idled.
  - apply (taken_weaken i 1); [by eapply taken_sleep|lia].
  - apply (taken_done1 i k 6 x). eapply done_serving; [done|by right].
  - apply (taken_weaken i 4); [by eapply taken_idled|lia].
  - apply (taken_weaken i 3); [by eapply taken_empty|lia].
  - apply (taken_weaken i (5 + 2)); [by eapply taken_done1, done_have|lia].
  - apply (taken_weaken i (4 + 2)); [by eapply taken_done1, done_send|lia].
  - apply (taken_weaken i (3 + 2)); [by eapply taken_done1, done_recv|lia].
  - apply (taken_weaken i (1 + 2)); [|lia]. apply (taken_done1 i k 1 x). by apply serve_finish in H.
  - destruct (go_exit i k s _ _ H) as (s1 & k' & Hs & H1). apply (taken_weaken i (1 + 2)); [|lia].
    by eapply taken_after, taken_top.
  - destruct H as [Hk _ Hr]. by destruct (rd_sound _ _ Hr _ _ Hk).
Qed.

(** ** The whole queue *)

Lemma ready_has_worker i s slot q : ready i s -> queue (mb_at s i) = slot :: q -> has_worker s i.
Proof.
  intros [[Hi Hsv _] Hl _ _ Hlt] Hq. pose proof (mb_at_lookup i s Hlt) as Hm.
  apply (Hsv i _ Hm). destruct (mb_worker_running _) eqn:Hr; [done|].
  destruct (iv_idle s Hi i _ Hm (or_introl Hr)) as [?|[k Hk]]; [congruence|].
  apply (iv_locked s Hi) in Hk. congruence.
Qed.

Lemma queue_answered i q s : ready i s -> queue (mb_at s i) = q ->
  exists s', steps (14 * length q) s s' /\ ready i s' /\ queue (mb_at s' i) = [] /\
    forall slot, slot ∈ q -> answered_since s s' slot.
Proof.
  revert s. induction q as [|slot q IH]; intros s Hr Hq.
  - exists s. split; [apply steps_refl|]. split; [done|]. split; [done|]. by intros slot ?%not_elem_of_nil.
  - destruct (ready_has_worker i s slot q Hr Hq) as (k & pc & Hk & Hd).
    destruct (taken_any i k pc slot q s) as (s1 & k1 & pc1 & Hs1 & H1 & Hv); [by split|done|].
    destruct (done_serving i k1 slot pc1 q s1 H1 Hv) as (s2 & Hs2 & [_ Hq2 Hr2] & Ha).
    destruct (IH s2 Hr2 Hq2) as (s3 & Hs3 & Hr3 & Hq3 & Hall). exists s3.
    assert (H12 : steps 14 s s2) by (by apply (steps_trans 8 6 s s1 s2)).
    split; [|split; [done|]; split; [done|]].
    + replace (14 * length (slot :: q)) with (14 + 14 * length q) by (simpl; lia). by eapply steps_trans.
    + intros x [->|Hx]%elem_of_cons.
      * apply (answered_since_l i 8 s s1 s3 slot Hr Hs1). by apply (answered_since_r i (14 * length q) s1 s2 s3 slot Hr2 Hs3).
      * apply (answered_since_l i 14 s s2 s3 x Hr H12). by apply Hall.
Qed.

(** *** Without unregistrations the lock is free *)

Lemma post_locked slot c o dc ok s : inv s -> rt_locked (o9_router_post slot c o dc ok s) = rt_locked s.
Proof.
  intros Hi. unfold o9_router_post. pose proof (pr_locked _ _ (post_mailbox_spec slot c o dc s Hi)) as Hp.
  destruct (post_mailbox _ _ _ _ _) as [i s1]. simpl in Hp. unfold o9_router_fail_request, complete, consume_t.
  destruct (mb_closed _); [by destruct (sl_complete slot)|]. destruct (o9_tring_submit _ _) as [ret ring].
  case_decide; [simpl; by destruct (sl_complete slot)|]. destruct (mb_worker_running _); [done|].
  destruct ok; [done|]. destruct (o9_tring_consume _) as [x r]. simpl. by destruct (sl_complete slot).
Qed.

Lemma unlocked_step ev s s' : inv s -> opened s -> plain ev -> step ev s = Some s' -> rt_locked s = false ->
  rt_locked s' = false.
Proof.
  intros Hi [_ Ho] Hp Hs Hl. destruct ev as [r' c o inst dc sel args caller bl cb aux|c o|k ok|k ok|n err|c];
    cbn [step] in Hs.
  - injection Hs as <-. unfold o9_router_submit, o9_router_fail_request, complete.
    destruct (chan_ok s dc); [|by destruct cb]. destruct (o9_objtab_register _ _ _ _ _).
    case_decide; [by destruct cb|done].
  - done.
  - unfold client_step in Hs. rewrite Forall_lookup in Ho. rewrite Hl in Hs.
    destruct (rt_clients s !! k) as [[slot c o dc|c o|i|]|] eqn:Hk; try done; try (by destruct (Ho _ _ Hk)).
    injection Hs as <-. rewrite post_locked; [done|]. by eapply inv_client.
  - apply bind_Some in Hs as ([i pc] & _ & Hw). by rewrite (kp_locked _ _ (worker_kept _ _ _ _ _ _ Hw)).
  - by rewrite (kp_locked _ _ (helper_kept (EReply n err) s s' I Hs)).
  - by injection Hs as <-.
Qed.

Lemma unlocked_run evs s s' : inv s -> opened s -> Forall plain evs -> run evs s = Some s' ->
  rt_locked s = false -> rt_locked s' = false.
Proof.
  revert s. induction evs as [|ev evs IH]; intros s Hi Ho; cbn [run]; [by intros _ [= <-]|].
  intros [He Hev]%Forall_cons (s1 & Hs1 & Hrun)%bind_Some Hl.
  apply (IH s1); [by apply (step_spec ev s s1)|by eapply opened_step|done..|by eapply unlocked_step].
Qed.


