(* ===== verification/Fmt.v ===== *)
(** * Numbers as text: [%d], [%lld], [%llux], [strtol], [strtoll]

    What the sources use of the C library's number formatting and parsing,
    with the round trips that the components rely on.  A conversion returns
    its value and the text at [end]; the text is the whole input when nothing
    was converted. *)
From S2P Require Import Prelude.

Open Scope Z_scope.

Definition digit_char (d : Z) : byte := to_byte (if decide (d < 10) then 48 + d else 87 + d).

Definition digit_val (c : byte) : option Z :=
  let v := uchar c in
  if decide (48 <= v <= 57) then Some (v - 48)
  else if decide (97 <= v <= 122) then Some (v - 87)
  else if decide (65 <= v <= 90) then Some (v - 55)
  else None.

(** The digits of [n >= 0], at most [fuel] of them. *)
Fixpoint digits (fuel : nat) (base n : Z) : bytes :=
  match fuel with
  | O => []
  | S fuel' =>
      if decide (n < base) then [digit_char n]
      else digits fuel' base (n / base) ++ [digit_char (n mod base)]
  end.

(** 64 digits are enough for any 64-bit number in any base. *)
Definition utoa (base n : Z) : bytes := digits 64 base n.

Definition itoa (n : Z) : bytes := if decide (n < 0) then x2d :: utoa 10 (- n) else utoa 10 n.

(** Reads digits: the value, and the rest. *)
Fixpoint scan (base acc : Z) (s : bytes) : Z * bytes :=
  match s with
  | c :: s' =>
      match digit_val c with
      | Some d => if decide (d < base) then scan base (acc * base + d) s' else (acc, s)
      | None => (acc, s)
      end
  | [] => (acc, [])
  end.

Definition is_digit (base : Z) (c : byte) : bool :=
  match digit_val c with Some d => bool_decide (d < base) | None => false end.

Definition head_digit (base : Z) (s : bytes) : bool :=
  match s with c :: _ => is_digit base c | [] => false end.

Definition isspace (c : byte) : bool :=
  bool_decide (c = x20) || bool_decide (9 <= uchar c <= 13).

Fixpoint skip_space (s : bytes) : bytes :=
  match s with c :: s' => if isspace c then skip_space s' else s | [] => [] end.

(** The base and the digits after the prefix that base 0 recognises. *)
Definition detect_base (base : Z) (s : bytes) : Z * bytes :=
  if decide (base = 0) then
    match s with
    | x30 :: x :: s' =>
        if bool_decide (x = x78 \/ x = x58) && head_digit 16 s' then (16, s') else (8, s)
    | [x30] => (8, s)
    | _ => (10, s)
    end
  else if decide (base = 16) then
    match s with
    | x30 :: x :: s' => if bool_decide (x = x78 \/ x = x58) && head_digit 16 s' then (16, s') else (16, s)
    | _ => (16, s)
    end
  else (base, s).

Definition clamp (lo hi v : Z) : Z := Z.max lo (Z.min hi v).

Definition strto (lo hi base : Z) (s : bytes) : Z * bytes :=
  let t := skip_space s in
  let '(neg, t) := match t with
                   | x2d :: t' => (true, t') | x2b :: t' => (false, t') | _ => (false, t)
                   end in
  let '(b, t) := detect_base base t in
  if head_digit b t then
    let '(v, rest) := scan b 0 t in (clamp lo hi (if neg : bool then - v else v), rest)
  else (0, s).

Definition strtoll : Z -> bytes -> Z * bytes := strto (- 2 ^ 63) (2 ^ 63 - 1).
(** [long] is 32 bits wide on Plan 9. *)
Definition strtol : Z -> bytes -> Z * bytes := strto (- 2 ^ 31) (2 ^ 31 - 1).

(** ** Integers in memory, little-endian *)

Fixpoint le_bytes (n : nat) (z : Z) : bytes :=
  match n with O => [] | S n' => to_byte z :: le_bytes n' (z / 256) end.

Fixpoint le_val (b : bytes) : Z :=
  match b with [] => 0 | c :: b' => uchar c + 256 * le_val b' end.

(** ** Lemmas *)

Lemma uchar_digit d : 0 <= d < 36 -> uchar (digit_char d) = if decide (d < 10) then 48 + d else 87 + d.
Proof. intros Hd. unfold digit_char. rewrite uchar_to_byte. case_decide; apply Z.mod_small; lia. Qed.

Lemma digit_val_char d : 0 <= d < 36 -> digit_val (digit_char d) = Some d.
Proof.
  intros Hd. unfold digit_val. rewrite uchar_digit by done.
  repeat case_decide; try lia; f_equal; lia.
Qed.

Lemma digits_scan fuel base n acc rest :
  2 <= base <= 36 -> 0 <= n < base ^ Z.of_nat fuel -> (0 < fuel)%nat ->
  scan base acc (digits fuel base n ++ rest) =
    scan base (acc * base ^ Z.of_nat (length (digits fuel base n)) + n) rest.
Proof.
  intros Hb. revert n acc rest. induction fuel as [|fuel IH]; intros n acc rest Hn Hf; [lia|]. simpl.
  case_decide as Hlt.
  - simpl. rewrite digit_val_char, decide_True by lia. f_equal. lia.
  - assert (Hn' : 0 <= n / base < base ^ Z.of_nat fuel).
    { split; [apply Z.div_pos; lia|]. apply Z.div_lt_upper_bound; [lia|].
      rewrite Nat2Z.inj_succ, Z.pow_succ_r in Hn by lia. lia. }
    assert (Hf' : (0 < fuel)%nat) by (destruct fuel; [change (Z.of_nat 1) with 1 in Hn; rewrite Z.pow_1_r in Hn; lia|lia]).
    pose proof (Z.mod_pos_bound n base ltac:(lia)) as Hm.
    rewrite <- app_assoc, IH by done. simpl. rewrite digit_val_char, decide_True by lia.
    f_equal. rewrite length_app. simpl. rewrite Nat2Z.inj_add, Z.pow_add_r by lia.
    change (base ^ Z.of_nat 1) with (base ^ 1). rewrite Z.pow_1_r.
    pose proof (Z.div_mod n base ltac:(lia)). nia.
Qed.

Lemma digits_head fuel base n : 2 <= base <= 36 -> 0 <= n < base ^ Z.of_nat fuel -> (0 < fuel)%nat ->
  exists d s, digits fuel base n = digit_char d :: s /\ 0 <= d < base /\ (d = 0 -> n = 0 /\ s = []).
Proof.
  intros Hb. revert n. induction fuel as [|fuel IH]; intros n Hn Hf; [lia|]. simpl.
  case_decide as Hlt; [exists n, []; split_and!; [done|lia|lia|done]|].
  assert (Hn' : 0 <= n / base < base ^ Z.of_nat fuel).
  { split; [apply Z.div_pos; lia|]. apply Z.div_lt_upper_bound; [lia|].
    rewrite Nat2Z.inj_succ, Z.pow_succ_r in Hn by lia. lia. }
  destruct (IH (n / base) Hn') as (d & s & -> & Hd & Hz); [destruct fuel; [change (Z.of_nat 1) with 1 in Hn; rewrite Z.pow_1_r in Hn; lia|lia]|].
  exists d, (s ++ [digit_char (n mod base)]). split_and!; [done|lia|lia|]. intros H0. destruct (Hz H0) as [Hz1 _].
  assert (1 <= n / base) by (apply Z.div_le_lower_bound; lia). lia.
Qed.

Lemma digit_char_inj d e : 0 <= d < 36 -> 0 <= e < 36 -> digit_char d = digit_char e -> d = e.
Proof.
  intros Hd He E. assert (Some d = Some e); [|congruence].
  by rewrite <- (digit_val_char d), <- (digit_val_char e), E.
Qed.

Lemma is_digit_char base d : 0 <= d < 36 -> is_digit base (digit_char d) = bool_decide (d < base).
Proof. intros. unfold is_digit. by rewrite digit_val_char. Qed.

(** A digit is no white space, sign or prefix. *)
Lemma digit_plain d : 0 <= d < 36 ->
  isspace (digit_char d) = false /\ digit_char d <> x2d /\ digit_char d <> x2b /\
  (d <> 0 -> digit_char d <> x30).
Proof.
  intros Hd. pose proof (uchar_digit d Hd) as Hu.
  assert (H48 : 48 <= uchar (digit_char d)) by (rewrite Hu; case_decide; lia). clear Hu.
  assert (Hne : forall b, uchar b < 48 -> digit_char d <> b) by (intros b Hlt E; rewrite E in H48; lia).
  split_and!.
  - unfold isspace. rewrite (bool_decide_false (_ = _)), (bool_decide_false (_ <= _ <= _)); [done|lia|]. apply Hne. vm_compute. reflexivity.
  - apply Hne. vm_compute. reflexivity.
  - apply Hne. vm_compute. reflexivity.
  - intros H0 E. apply H0, (digit_char_inj d 0); [lia..|]. by rewrite E.
Qed.

Lemma scan_none base acc s : head_digit base s = false -> scan base acc s = (acc, s).
Proof.
  destruct s as [|c s]; [done|]. simpl. unfold is_digit. destruct (digit_val c); [|done].
  intros H%bool_decide_eq_false. by rewrite decide_False.
Qed.

(** What a parser sees of a formatted number: a sign and digits. *)
Lemma strto_clamped (neg : bool) lo hi base n rest :
  (base = 0 /\ (n = 0 -> rest = [] \/ exists r, rest = NL :: r) \/ base = 10) ->
  0 <= n < 10 ^ 64 -> head_digit 10 rest = false ->
  strto lo hi base ((if neg then [x2d] else []) ++ utoa 10 n ++ rest) = (clamp lo hi (if neg then - n else n), rest).
Proof.
  intros Hb Hn Hh. unfold strto, utoa.
  destruct (digits_head 64 10 n) as (d & s & E & Hd & Hz); [lia..|].
  destruct (digit_plain d ltac:(lia)) as (Hsp & Hm & Hp & H0).
  set (t := digits 64 10 n ++ rest).
  assert (Et : t = digit_char d :: s ++ rest) by (unfold t; by rewrite E).
  assert (Hskip : skip_space ((if neg then [x2d] else []) ++ t) = (if neg then [x2d] else []) ++ t).
  { destruct neg; [done|]. rewrite Et. simpl. by rewrite Hsp. }
  rewrite Hskip.
  assert (Hsign : match (if neg then [x2d] else []) ++ t with
                  | x2d :: t' => (true, t') | x2b :: t' => (false, t') | _ => (false, (if neg then [x2d] else []) ++ t)
                  end = (neg, t)).
  { destruct neg; [done|]. rewrite Et. simpl. by destruct (digit_char d). }
  rewrite Hsign.
  assert (Hscan : forall b, b = 10 \/ (b = 8 /\ n = 0 /\ (rest = [] \/ exists r, rest = NL :: r)) ->
    head_digit b t = true /\ scan b 0 t = (n, rest)).
  { intros b [-> |(-> & -> & [-> |[r ->]])]; [|by vm_compute..]. split.
    - rewrite Et. simpl. rewrite is_digit_char by lia. apply bool_decide_eq_true. lia.
    - unfold t. rewrite digits_scan by lia. rewrite Z.mul_0_l, Z.add_0_l. by apply scan_none. }
  destruct (detect_base base t) as [b t'] eqn:Hdet.
  assert (Hbt : t' = t /\ (b = 10 \/ b = 8 /\ n = 0 /\ (rest = [] \/ exists r, rest = NL :: r))).
  { revert Hdet. unfold detect_base. destruct Hb as [[-> Hrest]| -> ]; [|intros [= <- <-]; auto].
    rewrite decide_True by done. destruct (decide (d = 0)) as [->|Hnz].
    - destruct (Hz eq_refl) as [Hn0 ->]. rewrite Et. specialize (Hrest Hn0).
      destruct Hrest as [-> |[r ->]]; intros [= <- <-]; (split; [done|]; right; eauto 6).
    - rewrite Et. specialize (H0 Hnz). destruct (digit_char d); try (intros [= <- <-]; by auto). done. }
  destruct Hbt as [-> Hbt]. destruct (Hscan b Hbt) as [-> ->]. done.
Qed.

Lemma strto_digits (neg : bool) lo hi base n rest :
  (base = 0 /\ (n = 0 -> rest = []) \/ base = 10) ->
  0 <= n < 10 ^ 64 -> lo <= (if neg then - n else n) <= hi -> head_digit 10 rest = false ->
  strto lo hi base ((if neg then [x2d] else []) ++ utoa 10 n ++ rest) = (if neg then - n else n, rest).
Proof.
  intros Hb Hn Hr Hh. rewrite strto_clamped by (done || (destruct Hb as [[??]|?]; auto)).
  unfold clamp. f_equal. lia.
Qed.

(** Parsing a formatted number gives it back. *)
Lemma strto_itoa lo hi base z :
  base = 0 \/ base = 10 -> - 2 ^ 63 <= lo -> hi <= 2 ^ 63 -> lo <= z <= hi ->
  strto lo hi base (itoa z) = (z, []).
Proof.
  intros Hb Hlo Hhi Hz. unfold itoa. case_decide as Hneg.
  - pose proof (strto_digits true lo hi base (- z) []) as H. cbv beta iota in H.
    rewrite app_nil_r, Z.opp_involutive in H. apply H; [tauto|lia|lia|done].
  - pose proof (strto_digits false lo hi base z []) as H. cbv beta iota in H.
    rewrite app_nil_r in H. apply H; [tauto|lia|lia|done].
Qed.

(** A number at the start of a line, read as far as it fits. *)
Lemma strto_line lo hi z rest : - 2 ^ 63 <= z < 2 ^ 63 ->
  strto lo hi 0 (itoa z ++ NL :: rest) = (clamp lo hi z, NL :: rest).
Proof.
  intros Hz. unfold itoa. case_decide as Hneg.
  - pose proof (strto_clamped true lo hi 0 (- z) (NL :: rest)) as H. cbv beta iota in H.
    rewrite Z.opp_involutive in H. apply H; [left; eauto|lia|done].
  - pose proof (strto_clamped false lo hi 0 z (NL :: rest)) as H. cbv beta iota in H.
    apply H; [left; eauto|lia|done].
Qed.

Lemma digits_length fuel n m : 0 <= n < 10 ^ Z.of_nat m -> (0 < m)%nat -> (length (digits fuel 10 n) <= m)%nat.
Proof.
  revert n m. induction fuel as [|fuel IH]; intros n m Hn Hm; simpl; [lia|].
  case_decide; [simpl; lia|]. destruct m as [|[|m]]; [lia| |].
  - change (10 ^ Z.of_nat 1) with 10 in Hn. lia.
  - rewrite length_app. simpl. assert (length (digits fuel 10 (n / 10)) <= S m)%nat; [|lia].
    apply IH; [|lia]. rewrite (Nat2Z.inj_succ (S m)), Z.pow_succ_r in Hn by lia.
    split; [apply Z.div_pos; lia|]. apply Z.div_lt_upper_bound; lia.
Qed.

(** The text of a [vlong] has at most twenty characters. *)
Lemma itoa_length z : - 2 ^ 63 <= z < 2 ^ 63 -> (length (itoa z) <= 20)%nat.
Proof.
  intros Hz.
  assert (H : forall n, 0 <= n <= 2 ^ 63 -> (length (utoa 10 n) <= 19)%nat).
  { intros n Hn. apply digits_length; [|lia]. change (10 ^ Z.of_nat 19) with 10000000000000000000. lia. }
  unfold itoa. case_decide.
  - specialize (H (- z) ltac:(lia)). cbn [length]. lia.
  - specialize (H z ltac:(lia)). lia.
Qed.

Lemma itoa_head z : - 2 ^ 63 <= z < 2 ^ 63 -> exists c s, itoa z = c :: s.
Proof.
  intros Hz. unfold itoa. case_decide; [by eexists _, _|].
  destruct (digits_head 64 10 z) as (d & s & E & _); [lia..|]. by eexists _, _.
Qed.

Lemma digits_chars fuel base n : 2 <= base <= 36 -> 0 <= n ->
  Forall (fun c => exists d, 0 <= d < base /\ c = digit_char d) (digits fuel base n).
Proof.
  intros Hb. revert n. induction fuel as [|fuel IH]; intros n Hn; simpl; [done|].
  case_decide; [by repeat constructor; exists n|]. apply Forall_app. split.
  - apply IH, Z.div_pos; lia.
  - repeat constructor. exists (n mod base). split; [apply Z.mod_pos_bound; lia|done].
Qed.

(** The text of a number has digits and a sign, nothing else. *)
Lemma itoa_chars z c : c ∈ itoa z -> c = x2d \/ 48 <= uchar c <= 57.
Proof.
  assert (H : forall n, 0 <= n -> c ∈ utoa 10 n -> 48 <= uchar c <= 57).
  { intros n Hn Hc. pose proof (digits_chars 64 10 n ltac:(lia) Hn) as Hf. rewrite Forall_forall in Hf.
    destruct (Hf c Hc) as (d & Hd & ->). rewrite uchar_digit, decide_True by lia. lia. }
  unfold itoa. case_decide.
  - intros [-> |Hc]%elem_of_cons; [by left|right]. apply (H (- z)); [lia|done].
  - intros Hc. right. apply (H z); [lia|done].
Qed.

Lemma itoa_cstr z : is_cstr (itoa z).
Proof. intros [?|H]%itoa_chars; [done|]. change (uchar NUL) with 0 in H. lia. Qed.

Lemma le_bytes_length n z : length (le_bytes n z) = n.
Proof. revert z. induction n; intros z; simpl; auto. Qed.

Lemma le_val_range b : 0 <= le_val b < 256 ^ Z.of_nat (length b).
Proof.
  induction b as [|c b IH]; [done|]. cbn [le_val length]. pose proof (uchar_range c).
  rewrite Nat2Z.inj_succ, Z.pow_succ_r by lia. lia.
Qed.

Lemma le_bytes_val b : le_bytes (length b) (le_val b) = b.
Proof.
  induction b as [|c b IH]; [done|]. cbn [le_val length le_bytes]. pose proof (uchar_range c).
  f_equal.
  - rewrite <- (to_byte_uchar c) at 2. unfold to_byte.
    by rewrite (Z.add_comm (uchar c)), Z.mul_comm, Z.add_comm, Z.mod_add by lia.
  - rewrite (Z.mul_comm 256), Z.div_add, (Z.div_small (uchar c)) by lia. exact IH.
Qed.

Lemma le_val_bytes n z : le_val (le_bytes n z) = z mod 256 ^ Z.of_nat n.
Proof.
  revert z. induction n as [|n IH]; intros z; [by rewrite Z.mod_1_r|].
  cbn [le_val le_bytes]. rewrite uchar_to_byte, IH, Nat2Z.inj_succ, Z.pow_succ_r by lia.
  rewrite Z.rem_mul_r by lia. lia.
Qed.

(** Bytes depend on the number modulo the width. *)
Lemma le_bytes_mod n z : le_bytes n (z mod 256 ^ Z.of_nat n) = le_bytes n z.
Proof. rewrite <- le_val_bytes. rewrite <- (le_bytes_length n z) at 1. apply le_bytes_val. Qed.
