(* ===== verification/O9Str.v ===== *)
(** * Strings ([o9_string_*], [o9_str_*], [o9_intstr], [o9_intvalue] in
    [o9_runtime.c])

    The operations read a string only through its bytes, so a string value is
    [option bytes], nil being [None]; the reference counts, and the table of
    interned literals, are modelled on a heap at the end.  [w] is the width
    of [ulong].  An allocation fails only for sizes above 2^62. *)
From S2P Require Import Prelude Fmt.

Open Scope Z_scope.

Abbreviation ostring := (option bytes).

Definition o9_string_data (s : ostring) : bytes := default [] s.
Definition o9_string_len (s : ostring) : Z := Z.of_nat (length (o9_string_data s)).

(** The order of [memcmp]: its sign on two ranges of one length. *)
Fixpoint memcmp (a b : bytes) : Z :=
  match a, b with
  | x :: a', y :: b' => if decide (x = y) then memcmp a' b' else if decide (uchar x < uchar y) then -1 else 1
  | _, _ => 0
  end.

(** [n] bytes at [p + i]. *)
Definition mem (p : bytes) (i n : Z) : bytes := take (Z.to_nat n) (drop (Z.to_nat i) p).

Section width.
Variable w : Z.

(** The size class: the first power of two above [len], from 32. *)
Fixpoint string_cap (fuel : nat) (cap len : Z) : Z :=
  match fuel with
  | O => cap
  | S fuel' =>
      if decide (cap <= len) then
        if decide ((2 ^ w - 1) / 2 < cap) then wrapu w (len + 1)
        else string_cap fuel' (wrapu w (cap * 2)) len
      else cap
  end.

(** The bytes reserved for a string of [len], if that many can be. *)
Definition string_room (len : Z) : option Z :=
  if decide (2 ^ w - 1 - 1 < u64 len) then None
  else let cap := string_cap 64 32 (wrapu w len) in
       if decide (2 ^ 62 < cap) then None else Some cap.

Definition o9_string_new (data : option bytes) (len : Z) : ostring :=
  let len := if decide (len < 0) then Z.of_nat (length (cstr (default [] data))) else len in
  match string_room len with
  | None => None
  | Some _ => Some (take (Z.to_nat len) (default [] data))
  end.

(** A string of [len] bytes that the caller fills. *)
Definition string_fill (content : bytes) : ostring :=
  match string_room (Z.of_nat (length content)) with None => None | Some _ => Some content end.

Definition o9_string_from_c (s : option bytes) : ostring :=
  o9_string_new (cstr <$> s) (match s with Some t => Z.of_nat (length (cstr t)) | None => 0 end).

Definition o9_string_take (s : option bytes) : ostring := cstr <$> s.

(** A heap copy of the bytes, with a NUL after them. *)
Definition o9_string_cstr (s : ostring) : bytes := o9_string_data s.

Definition o9_str_len (s : ostring) : Z := o9_string_len s.

Definition o9_str_cmp (a b : ostring) : Z :=
  let n := Z.min (o9_string_len a) (o9_string_len b) in
  let c := if decide (0 < n) then memcmp (mem (o9_string_data a) 0 n) (mem (o9_string_data b) 0 n) else 0 in
  if decide (c < 0) then -1
  else if decide (0 < c) then 1
  else if decide (o9_string_len a < o9_string_len b) then -1
  else if decide (o9_string_len b < o9_string_len a) then 1
  else 0.

Definition o9_str_cat (a b : ostring) : ostring := string_fill (o9_string_data a ++ o9_string_data b).

Definition o9_str_chr (c : Z) : ostring :=
  let c := if decide (c < 0 \/ 1114111 < c) then 65533 else c in
  let buf :=
    if decide (c < 128) then [to_byte c]
    else if decide (c < 2048) then
      [to_byte (Z.lor 192 (Z.shiftr c 6)); to_byte (Z.lor 128 (Z.land c 63))]
    else if decide (c < 65536) then
      [to_byte (Z.lor 224 (Z.shiftr c 12)); to_byte (Z.lor 128 (Z.land (Z.shiftr c 6) 63));
       to_byte (Z.lor 128 (Z.land c 63))]
    else
      [to_byte (Z.lor 240 (Z.shiftr c 18)); to_byte (Z.lor 128 (Z.land (Z.shiftr c 12) 63));
       to_byte (Z.lor 128 (Z.land (Z.shiftr c 6) 63)); to_byte (Z.lor 128 (Z.land c 63))] in
  o9_string_new (Some buf) (Z.of_nat (length buf)).

(** The search loop, from [i] on, [n] rounds. *)
Fixpoint index_from (sp np : bytes) (n : nat) (i : Z) : Z :=
  match n with
  | O => -1
  | S n' => if (mem sp i (Z.of_nat (length np)) =? np)%c then i else index_from sp np n' (i + 1)
  end.

Definition o9_string_indexof (s needle : ostring) : Z :=
  let sn := o9_string_len s in
  let nn := o9_string_len needle in
  if decide (nn = 0) then 0
  else if decide (sn < nn) then -1
  else index_from (o9_string_data s) (o9_string_data needle) (Z.to_nat (sn - nn + 1)) 0.

Definition o9_string_startswith (s prefix : ostring) : bool :=
  bool_decide (o9_string_len prefix <= o9_string_len s) &&
  (mem (o9_string_data s) 0 (o9_string_len prefix) =? o9_string_data prefix)%c.

Definition o9_string_endswith (s suffix : ostring) : bool :=
  bool_decide (o9_string_len suffix <= o9_string_len s) &&
  (mem (o9_string_data s) (o9_string_len s - o9_string_len suffix) (o9_string_len suffix) =? o9_string_data suffix)%c.

Definition o9_string_slice (s : ostring) (start count : Z) : ostring :=
  let n := o9_string_len s in
  let start := if decide (start < 0) then 0 else start in
  let start := if decide (n < start) then n else start in
  let count := if decide (count < 0) then 0 else count in
  let count := if decide (n < i64 (start + count)) then n - start else count in
  o9_string_new (Some (drop (Z.to_nat start) (o9_string_data s))) count.

Definition is_ws (c : byte) : bool := bool_decide (c = x20 \/ c = x09 \/ c = x0a \/ c = x0d).

(** [while(a < b && ws(p[a])) a++] and [while(b > a && ws(p[b-1])) b--] on
    the range that remains. *)
Fixpoint trim_left (p : bytes) : bytes :=
  match p with c :: p' => if is_ws c then trim_left p' else p | [] => [] end.
Definition trim_right (p : bytes) : bytes := rev (trim_left (rev p)).

Definition o9_string_trim (s : ostring) : ostring :=
  let r := trim_right (trim_left (o9_string_data s)) in
  o9_string_new (Some r) (Z.of_nat (length r)).

Definition tolower (c : byte) : byte :=
  if decide (65 <= schar c <= 90) then to_byte (schar c + (97 - 65)) else c.
Definition toupper (c : byte) : byte :=
  if decide (97 <= schar c <= 122) then to_byte (schar c - (97 - 65)) else c.

Definition o9_string_lower (s : ostring) : ostring := string_fill (tolower <$> o9_string_data s).
Definition o9_string_upper (s : ostring) : ostring := string_fill (toupper <$> o9_string_data s).

Definition o9_intstr (n : Z) : ostring := o9_string_take (Some (itoa n)).

Definition o9_intvalue (s : ostring) (def : Z) : Z :=
  match s with
  | None => def
  | Some _ =>
      let p := cstr (o9_string_cstr s) in
      let '(n, rest) := strtoll 0 p in
      if bool_decide (rest = p) || bool_decide (rest <> []) then def else n
  end.
End width.

(** ** Literals

    An interned literal is a constant of the program text and is never freed;
    [lt_next] names the next one that is allocated. *)

Abbreviation strptr := positive.

Record literals := MkLits { lt_tab : list (list (strptr * bytes)); lt_next : strptr }.

Definition literals0 : literals := MkLits (replicate 256 []) 1%positive.

(** FNV-1a in [ulong]s of [w] bits. *)
Definition literal_hash (w : Z) (data : bytes) : nat :=
  Z.to_nat (Z.land (fold_left (fun h c => wrapu w (Z.lxor h (uchar c) * 16777619)) data 2166136261) 255).

Definition o9_string_literal (w : Z) (data : bytes) (t : literals) : strptr * literals :=
  let h := literal_hash w data in
  let bucket := default [] (lt_tab t !! h) in
  match list_find (fun l => snd l = data) bucket with
  | Some (_, l) => (fst l, t)
  | None => (lt_next t, MkLits (<[h := (lt_next t, data) :: bucket]> (lt_tab t)) (Pos.succ (lt_next t)))
  end.

(** ** Reference counts *)

Record strobj := MkStr { so_data : bytes; so_ref : Z }.
Abbreviation strheap := (gmap strptr strobj).

Definition o9_string_retain (p : option strptr) (h : strheap) : strheap :=
  match p with
  | Some p => match h !! p with
              | Some o => if decide (0 <= so_ref o) then <[p := MkStr (so_data o) (so_ref o + 1)]> h else h
              | None => h
              end
  | None => h
  end.

Definition o9_string_release (p : option strptr) (h : strheap) : strheap :=
  match p with
  | Some p => match h !! p with
              | Some o => if decide (so_ref o < 0) then h
                          else if decide (so_ref o - 1 = 0) then delete p h
                          else <[p := MkStr (so_data o) (so_ref o - 1)]> h
              | None => h
              end
  | None => h
  end.

(** ** Lemmas *)

Lemma mem_0_all p : mem p 0 (Z.of_nat (length p)) = p.
Proof. unfold mem. rewrite Nat2Z.id. simpl. by rewrite take_ge. Qed.

(** The lexicographic order of unsigned bytes. *)
Fixpoint lexcmp (a b : bytes) : Z :=
  match a, b with
  | [], [] => 0
  | [], _ :: _ => -1
  | _ :: _, [] => 1
  | x :: a', y :: b' => if decide (x = y) then lexcmp a' b' else if decide (uchar x < uchar y) then -1 else 1
  end.

Lemma lexcmp_refl a : lexcmp a a = 0.
Proof. induction a; simpl; [done|]. by rewrite decide_True. Qed.

Lemma lexcmp_eq a b : lexcmp a b = 0 -> a = b.
Proof.
  revert b. induction a as [|x a IH]; intros [|y b]; simpl; try done.
  case_decide; [|by case_decide]. intros ?. subst. f_equal. auto.
Qed.

Lemma lexcmp_opp a b : lexcmp b a = - lexcmp a b.
Proof.
  revert b. induction a as [|x a IH]; intros [|y b]; simpl; try done.
  destruct (decide (x = y)) as [->|Hne]; [by rewrite decide_True|]. rewrite decide_False by done.
  assert (uchar x <> uchar y) by (by intros ?%uchar_inj). repeat case_decide; lia.
Qed.

Lemma lexcmp_range a b : lexcmp a b = -1 \/ lexcmp a b = 0 \/ lexcmp a b = 1.
Proof.
  revert b. induction a as [|x a IH]; intros [|y b]; simpl; auto.
  repeat case_decide; auto.
Qed.

Lemma lexcmp_trans a b c : lexcmp a b <= 0 -> lexcmp b c <= 0 -> lexcmp a c <= 0.
Proof.
  revert b c. induction a as [|x a IH]; intros [|y b] [|z c]; simpl; try lia.
  destruct (decide (x = y)) as [->|Hxy], (decide (y = z)) as [->|Hyz]; try done.
  - apply IH.
  - rewrite (decide_False (P := x = z)) by done. auto.
  - destruct (decide (x = z)) as [->|Hxz].
    + assert (uchar z <> uchar y) by (by intros ?%uchar_inj). repeat case_decide; lia.
    + repeat case_decide; lia.
Qed.

Lemma memcmp_lex a b n : n = Nat.min (length a) (length b) ->
  lexcmp a b = let c := memcmp (take n a) (take n b) in
    if decide (c = 0) then Z.sgn (Z.of_nat (length a) - Z.of_nat (length b)) else c.
Proof.
  revert b n. induction a as [|x a IH]; intros [|y b] n ->; try done.
  - cbn [length Nat.min take memcmp lexcmp].
    destruct (decide (x = y)); [|by case_decide]. rewrite (IH b _ eq_refl). cbv zeta.
    case_decide; [|done]. f_equal. lia.
Qed.

Lemma memcmp_range a b : memcmp a b = -1 \/ memcmp a b = 0 \/ memcmp a b = 1.
Proof.
  revert b. induction a as [|x a IH]; intros [|y b]; simpl; auto. repeat case_decide; auto.
Qed.

Lemma str_cmp_lex a b : o9_str_cmp a b = lexcmp (o9_string_data a) (o9_string_data b).
Proof.
  unfold o9_str_cmp, o9_string_len. set (x := o9_string_data a). set (y := o9_string_data b).
  rewrite (memcmp_lex x y _ eq_refl). cbv zeta.
  replace (Z.min (Z.of_nat (length x)) (Z.of_nat (length y)))
    with (Z.of_nat (Nat.min (length x) (length y))) by lia.
  set (n := Nat.min (length x) (length y)).
  replace (mem x 0 (Z.of_nat n)) with (take n x) by (unfold mem; by rewrite Nat2Z.id).
  replace (mem y 0 (Z.of_nat n)) with (take n y) by (unfold mem; by rewrite Nat2Z.id).
  pose proof (memcmp_range (take n x) (take n y)) as H.
  assert (H0 : n = 0%nat -> memcmp (take n x) (take n y) = 0) by (by intros ->).
  revert H H0. generalize (memcmp (take n x) (take n y)). intros c H H0.
  assert (E : (if decide (0 < Z.of_nat n) then c else 0) = c) by (case_decide; lia).
  rewrite E. repeat case_decide; lia.
Qed.

(** Comparison is a total order on the contents of strings: its sign is
    antisymmetric and transitive, and 0 exactly on equal contents. *)
Theorem str_cmp_total_order (a b c : ostring) :
  (o9_str_cmp a b = 0 <-> o9_string_data a = o9_string_data b) /\
  o9_str_cmp b a = - o9_str_cmp a b /\
  (o9_str_cmp a b <= 0 -> o9_str_cmp b c <= 0 -> o9_str_cmp a c <= 0).
Proof.
  rewrite !str_cmp_lex. split_and!.
  - split; [apply lexcmp_eq|]. intros ->. apply lexcmp_refl.
  - apply lexcmp_opp.
  - apply lexcmp_trans.
Qed.

(** *** Sizes *)

Lemma string_cap_spec w fuel k len :
  0 < w -> 0 <= k -> 0 <= len < 2 ^ w - 1 -> w <= k + Z.of_nat fuel -> 2 ^ k < 2 ^ w ->
  len < string_cap w fuel (2 ^ k) len < 2 ^ w.
Proof.
  intros Hw Hk Hlen. revert k Hk. induction fuel as [|fuel IH]; intros k Hk Hf Hlt; cbn [string_cap].
  - assert (2 ^ w <= 2 ^ k) by (apply Z.pow_le_mono_r; lia). lia.
  - case_decide; [|lia]. case_decide as Hhalf.
    + unfold wrapu. rewrite Z.mod_small by lia. lia.
    + assert (Hd : 2 ^ k * 2 < 2 ^ w).
      { pose proof (Z.div_mod (2 ^ w - 1) 2 ltac:(lia)). pose proof (Z.mod_pos_bound (2 ^ w - 1) 2). lia. }
      unfold wrapu. rewrite Z.mod_small by lia.
      replace (2 ^ k * 2) with (2 ^ (k + 1)) in * by (rewrite Z.pow_add_r by lia; lia).
      apply IH; lia.
Qed.

(** A block for a string of [len] bytes has room for the NUL, and its size
    does not wrap. *)
Lemma string_room_fits w len cap : 5 < w <= 64 -> 0 <= len < 2 ^ 63 ->
  string_room w len = Some cap -> len + 1 <= cap < 2 ^ w.
Proof.
  intros Hw Hlen. unfold string_room.
  unfold wrapu. rewrite (Z.mod_small len (2 ^ 64)) by lia. case_decide as Hbig; [done|].
  assert (Hl : 0 <= len < 2 ^ w - 1) by lia. rewrite (Z.mod_small len) by lia. case_decide; [done|].
  intros E%(inj Some). subst cap. change 32 with (2 ^ 5).
  assert (2 ^ 5 < 2 ^ w) by (apply Z.pow_lt_mono_r; lia).
  pose proof (string_cap_spec w 64 5 len ltac:(lia) ltac:(lia) Hl ltac:(lia) ltac:(lia)). lia.
Qed.

Lemma string_cap_small w fuel k len :
  0 <= k <= 62 -> 0 <= len < 2 ^ 62 -> w = 64 -> string_cap w fuel (2 ^ k) len <= 2 ^ 62.
Proof.
  intros Hk Hlen ->. revert k Hk. induction fuel as [|fuel IH]; intros k Hk; cbn [string_cap].
  - apply Z.pow_le_mono_r; lia.
  - assert (2 ^ k <= 2 ^ 62) by (apply Z.pow_le_mono_r; lia).
    change ((2 ^ 64 - 1) `div` 2) with (2 ^ 63 - 1).
    case_decide as Hle; [|done]. rewrite decide_False by lia.
    assert (k < 62) by (apply (Z.pow_lt_mono_r_iff 2); lia).
    replace (2 ^ k * 2) with (2 ^ (k + 1)) by (rewrite Z.pow_add_r by lia; lia).
    assert (2 ^ (k + 1) <= 2 ^ 62) by (apply Z.pow_le_mono_r; lia).
    unfold wrapu. rewrite Z.mod_small by (pose proof (Z.pow_pos_nonneg 2 (k + 1)); lia). apply IH. lia.
Qed.

Definition LIMIT (w : Z) : Z := Z.min (2 ^ w - 1) (2 ^ 62).

Lemma string_room_some w len : w = 32 \/ w = 64 -> 0 <= len < LIMIT w -> exists cap, string_room w len = Some cap.
Proof.
  unfold LIMIT. intros Hw Hlen. unfold string_room. unfold wrapu. rewrite (Z.mod_small len (2 ^ 64)) by lia.
  rewrite decide_False by lia. rewrite (Z.mod_small len) by lia. rewrite decide_False; [by eexists|].
  change 32 with (2 ^ 5). destruct Hw as [-> | ->].
  - pose proof (string_cap_spec 32 64 5 len ltac:(lia) ltac:(lia) ltac:(lia) ltac:(lia) ltac:(lia)). lia.
  - pose proof (string_cap_small 64 64 5 len ltac:(lia) ltac:(lia) eq_refl). lia.
Qed.

Section values.
Variable w : Z.
Hypothesis Hw : w = 32 \/ w = 64.

Lemma string_new_ok d len : 0 <= len < LIMIT w -> o9_string_new w (Some d) len = Some (take (Z.to_nat len) d).
Proof.
  intros Hlen. unfold o9_string_new. rewrite decide_False by lia.
  by destruct (string_room_some w len Hw Hlen) as [cap ->].
Qed.

Lemma string_fill_ok c : Z.of_nat (length c) < LIMIT w -> string_fill w c = Some c.
Proof.
  intros Hlen. unfold string_fill. by destruct (string_room_some w (Z.of_nat (length c)) Hw ltac:(lia)) as [cap ->].
Qed.
End values.

(** *** Searching *)

(** [np] occurs in [sp] after [k] bytes. *)
Definition occurs (sp np : bytes) (k : nat) : Prop :=
  exists a b, sp = a ++ np ++ b /\ length a = k.

Lemma mem_occurs sp np k : mem sp (Z.of_nat k) (Z.of_nat (length np)) = np <-> occurs sp np k \/ np = [].
Proof.
  unfold mem. rewrite !Nat2Z.id. split.
  - intros H. destruct (decide (np = [])) as [|Hne]; [by right|left].
    exists (take k sp), (drop (length np) (drop k sp)). rewrite <- H at 1.
    rewrite take_drop, take_drop. split; [done|]. apply length_take_le.
    destruct (decide (k <= length sp)%nat) as [|Hlt]; [done|].
    rewrite drop_ge, take_nil in H by lia. by destruct Hne.
  - intros [(a & b & -> & <-)| ->]; [|done]. rewrite drop_app_length, take_app_length. done.
Qed.

Lemma occurs_bound sp np k : occurs sp np k -> (k + length np <= length sp)%nat.
Proof. intros (a & b & -> & <-). rewrite !length_app. lia. Qed.

Lemma index_from_spec sp np n i : np <> [] ->
  (index_from sp np n (Z.of_nat i) = -1 /\ (forall k, (i <= k < i + n)%nat -> ~ occurs sp np k)) \/
  exists j, index_from sp np n (Z.of_nat i) = Z.of_nat j /\ occurs sp np j /\
    (forall k, (i <= k < j)%nat -> ~ occurs sp np k).
Proof.
  intros Hne. revert i. induction n as [|n IH]; intros i; simpl; [left; split; [done|lia]|].
  destruct (streq_spec (mem sp (Z.of_nat i) (Z.of_nat (length np))) np) as [E|E].
  - right. exists i. apply mem_occurs in E as [?|?]; [|done]. split_and!; [done..|lia].
  - assert (Hno : ~ occurs sp np i) by (intros ?; apply E, mem_occurs; by left).
    replace (Z.of_nat i + 1) with (Z.of_nat (S i)) by lia.
    assert (Hk : forall k m, (i <= k < m)%nat -> k = i \/ (S i <= k < m)%nat) by lia.
    destruct (IH (S i)) as [[-> Hall]|(j & -> & Hj & Hall)].
    + left. split; [done|]. intros k [->|?]%Hk; [done|]. apply Hall. lia.
    + right. exists j. split_and!; [done..|]. intros k [->|?]%Hk; [done|]. by apply Hall.
Qed.

(** A search returns the first position where the needle occurs, and -1
    exactly when it occurs nowhere. *)
Theorem indexof_first (s needle : ostring) :
  let r := o9_string_indexof s needle in
  let occ := occurs (o9_string_data s) (o9_string_data needle) in
  (r = -1 /\ forall k, ~ occ k) \/
  (exists j, r = Z.of_nat j /\ occ j /\ forall k, (k < j)%nat -> ~ occ k).
Proof.
  cbn zeta. unfold o9_string_indexof, o9_string_len. set (sp := o9_string_data s). set (np := o9_string_data needle).
  case_decide as H0.
  - right. exists 0%nat. assert (np = []) as -> by (destruct np; [done|simpl in H0; lia]).
    split_and!; [done|by exists [], sp|lia].
  - assert (Hne : np <> []) by (by intros E; rewrite E in H0).
    case_decide as Hlt; [left; split; [done|]; intros k ?%occurs_bound; lia|].
    set (n := Z.to_nat _). change 0 with (Z.of_nat 0).
    destruct (index_from_spec sp np n 0 Hne) as [[-> Hall]|(j & -> & Hj & Hall)].
    + left. split; [done|]. intros k Hk. pose proof (occurs_bound _ _ _ Hk). apply (Hall k); [lia|done].
    + right. exists j. split_and!; [done..|]. intros k Hk. apply Hall. lia.
Qed.

(** *** Slices *)

(** A slice clamps its start to the string and its count to what is
    left, and returns those bytes, as long as [start + count] does not pass
    2^63 (beyond that the sum wraps and the clamp is lost). *)
Theorem slice_clamps w (s : ostring) start count :
  w = 32 \/ w = 64 -> o9_string_len s < LIMIT w ->
  let a := Z.max 0 (Z.min start (o9_string_len s)) in
  let c := Z.max 0 count in
  a + c < 2 ^ 63 ->
  o9_string_slice w s start count = Some (take (Z.to_nat c) (drop (Z.to_nat a) (o9_string_data s))).
Proof.
  intros Hw Hn a c Hac. unfold o9_string_slice. set (n := o9_string_len s) in *.
  assert (Hn0 : 0 <= n) by (unfold n, o9_string_len; lia).
  assert (Ea : (let start := if decide (start < 0) then 0 else start in
                if decide (n < start) then n else start) = a).
  { unfold a. repeat case_decide; lia. }
  cbv zeta in Ea. cbv zeta. rewrite Ea. clear Ea.
  assert (Ec : (if decide (count < 0) then 0 else count) = c) by (unfold c; case_decide; lia). rewrite Ec.
  assert (Ei : i64 (a + c) = a + c).
  { unfold i64, wraps. rewrite Z.mod_small by lia. rewrite decide_True by lia. done. }
  rewrite Ei. pose proof (Z.le_max_l 0 count). assert (0 <= a <= n) by (unfold a; lia).
  assert (Hl : length (drop (Z.to_nat a) (o9_string_data s)) = Z.to_nat (n - a)).
  { rewrite length_drop. assert (n = Z.of_nat (length (o9_string_data s))) by done. lia. }
  destruct (decide (n < a + c)) as [Hgt|Hgt].
  - rewrite string_new_ok by (try done; lia). rewrite !take_ge by lia. done.
  - by rewrite string_new_ok by (try done; lia).
Qed.

(** *** Trimming *)

Definition ws_all (l : bytes) : Prop := Forall (fun c => is_ws c = true) l.
Definition no_ws_end (c : option byte) : Prop := match c with Some c => is_ws c = false | None => True end.

Lemma trim_left_spec p : exists l, p = l ++ trim_left p /\ ws_all l /\ no_ws_end (head (trim_left p)).
Proof.
  induction p as [|c p IH]; simpl; [exists []; split_and!; [done|constructor|done]|].
  destruct (is_ws c) eqn:E.
  - destruct IH as (l & Hp & Hl & Hh). exists (c :: l). split_and!; [simpl; by f_equal|by constructor|done].
  - exists []. split_and!; [done|constructor|done].
Qed.

Lemma trim_right_spec p : exists r, p = trim_right p ++ r /\ ws_all r /\ no_ws_end (last (trim_right p)).
Proof.
  destruct (trim_left_spec (rev p)) as (l & Hp & Hl & Hh). exists (rev l). unfold trim_right. split_and!.
  - rewrite <- rev_app_distr, <- Hp. by rewrite rev_involutive.
  - by apply Forall_rev.
  - destruct (trim_left (rev p)) as [|c q]; [done|]. simpl. by rewrite last_snoc.
Qed.

Lemma trim_right_of_start p : no_ws_end (head p) -> no_ws_end (head (trim_right p)).
Proof.
  intros Hp. destruct (trim_right_spec p) as (r & E & _ & _). destruct (trim_right p) as [|c q]; [done|].
  rewrite E in Hp. done.
Qed.

(** Trimming removes exactly the white space at both ends. *)
Theorem trim_strips w (s : ostring) :
  w = 32 \/ w = 64 -> o9_string_len s < LIMIT w ->
  exists l t r, o9_string_data s = l ++ t ++ r /\ ws_all l /\ ws_all r /\
    no_ws_end (head t) /\ no_ws_end (last t) /\ o9_string_trim w s = Some t.
Proof.
  intros Hw Hn. unfold o9_string_trim, o9_string_len in *. set (p := o9_string_data s) in *.
  destruct (trim_left_spec p) as (l & El & Hl & Hh). destruct (trim_right_spec (trim_left p)) as (r & Er & Hr & Hlast).
  exists l, (trim_right (trim_left p)), r. split_and!; try done.
  - by rewrite <- Er, <- El.
  - by apply trim_right_of_start.
  - rewrite string_new_ok; [by rewrite Nat2Z.id, take_ge by lia|done|].
    apply (f_equal length) in El, Er. rewrite length_app in El, Er. lia.
Qed.

(** *** UTF-8 *)

Definition cont (b : byte) : option Z :=
  if decide (128 <= uchar b < 192) then Some (uchar b - 128) else None.

(** The strict decoder: shortest forms only. *)
Definition utf8_decode (s : bytes) : option Z :=
  match s with
  | [b0] => if decide (uchar b0 < 128) then Some (uchar b0) else None
  | [b0; b1] =>
      x1 ← cont b1;
      let c := (uchar b0 - 192) * 64 + x1 in
      if decide (192 <= uchar b0 < 224 /\ 128 <= c) then Some c else None
  | [b0; b1; b2] =>
      x1 ← cont b1; x2 ← cont b2;
      let c := (uchar b0 - 224) * 4096 + x1 * 64 + x2 in
      if decide (224 <= uchar b0 < 240 /\ 2048 <= c) then Some c else None
  | [b0; b1; b2; b3] =>
      x1 ← cont b1; x2 ← cont b2; x3 ← cont b3;
      let c := (uchar b0 - 240) * 262144 + x1 * 4096 + x2 * 64 + x3 in
      if decide (240 <= uchar b0 < 248 /\ 65536 <= c <= 1114111) then Some c else None
  | _ => None
  end.

Lemma lor_high k m a : 0 <= k -> 0 <= a < 2 ^ k -> Z.lor (m * 2 ^ k) a = m * 2 ^ k + a.
Proof.
  intros Hk Ha. pose proof (Z.add_lor_land (m * 2 ^ k) a) as A.
  replace (Z.land (m * 2 ^ k) a) with 0 in A; [lia|]. symmetry.
  rewrite <- (Z.mod_small a (2 ^ k)), <- Z.land_ones by lia.
  rewrite Z.land_comm, <- Z.land_assoc, (Z.land_comm (Z.ones k)), Z.land_ones, Z.mod_mul by lia.
  apply Z.land_0_r.
Qed.

Lemma cont_byte x : 0 <= x -> cont (to_byte (Z.lor 128 (Z.land x 63))) = Some (x mod 64).
Proof.
  intros Hx. change 63 with (Z.ones 6). rewrite (Z.land_ones x 6) by lia. change (2 ^ 6) with 64.
  pose proof (Z.mod_pos_bound x 64 ltac:(lia)). change 128 with (2 * 2 ^ 6).
  rewrite lor_high by lia. unfold cont. rewrite uchar_to_byte. change (2 * 2 ^ 6) with 128.
  rewrite Z.mod_small by lia. rewrite decide_True by lia. f_equal. lia.
Qed.

Lemma lead_byte k m x : 0 <= k -> 0 <= x < 2 ^ k -> 0 <= m * 2 ^ k + x < 256 ->
  uchar (to_byte (Z.lor (m * 2 ^ k) x)) = m * 2 ^ k + x.
Proof. intros Hk Hx Hr. rewrite lor_high by done. rewrite uchar_to_byte. by apply Z.mod_small. Qed.

Lemma decode1 c : 0 <= c < 128 -> utf8_decode [to_byte c] = Some c.
Proof.
  intros Hc. cbn [utf8_decode]. rewrite uchar_to_byte, Z.mod_small by lia. by rewrite decide_True by lia.
Qed.

Lemma decode2 c : 128 <= c < 2048 ->
  utf8_decode [to_byte (Z.lor 192 (c / 64)); to_byte (Z.lor 128 (Z.land c 63))] = Some c.
Proof.
  intros Hc. assert (0 <= c / 64 < 32) by (split; [apply Z.div_pos; lia|apply Z.div_lt_upper_bound; lia]).
  pose proof (lead_byte 5 6 (c / 64) ltac:(lia) ltac:(lia) ltac:(lia)) as H0. change (6 * 2 ^ 5) with 192 in H0.
  pose proof (Z.div_mod c 64 ltac:(lia)) as Hd. cbn [utf8_decode]. rewrite cont_byte by lia. csimpl. rewrite H0.
  rewrite decide_True by lia. f_equal. lia.
Qed.

Lemma decode3 c : 2048 <= c < 65536 ->
  utf8_decode [to_byte (Z.lor 224 (c / 4096)); to_byte (Z.lor 128 (Z.land (c / 64) 63));
    to_byte (Z.lor 128 (Z.land c 63))] = Some c.
Proof.
  intros Hc. assert (0 <= c / 4096 < 16) by (split; [apply Z.div_pos; lia|apply Z.div_lt_upper_bound; lia]).
  assert (0 <= c / 64) by (apply Z.div_pos; lia).
  pose proof (lead_byte 4 14 (c / 4096) ltac:(lia) ltac:(lia) ltac:(lia)) as H1. change (14 * 2 ^ 4) with 224 in H1.
  pose proof (Z.div_mod c 64 ltac:(lia)) as Hd. pose proof (Z.div_mod (c / 64) 64 ltac:(lia)) as Hd2.
  rewrite Z.div_div in Hd2 by lia. change (64 * 64) with 4096 in Hd2.
  cbn [utf8_decode]. rewrite !cont_byte by lia. csimpl. rewrite H1.
  rewrite decide_True by lia. f_equal. lia.
Qed.

Lemma decode4 c : 65536 <= c <= 1114111 ->
  utf8_decode [to_byte (Z.lor 240 (c / 262144)); to_byte (Z.lor 128 (Z.land (c / 4096) 63));
    to_byte (Z.lor 128 (Z.land (c / 64) 63)); to_byte (Z.lor 128 (Z.land c 63))] = Some c.
Proof.
  intros Hc. assert (0 <= c / 262144 < 8) by (split; [apply Z.div_pos; lia|apply Z.div_lt_upper_bound; lia]).
  assert (0 <= c / 64) by (apply Z.div_pos; lia). assert (0 <= c / 4096) by (apply Z.div_pos; lia).
  pose proof (lead_byte 3 30 (c / 262144) ltac:(lia) ltac:(lia) ltac:(lia)) as H2. change (30 * 2 ^ 3) with 240 in H2.
  pose proof (Z.div_mod c 64 ltac:(lia)) as Hd. pose proof (Z.div_mod (c / 64) 64 ltac:(lia)) as Hd2.
  pose proof (Z.div_mod (c / 4096) 64 ltac:(lia)) as Hd3.
  rewrite Z.div_div in Hd2, Hd3 by lia. change (64 * 64) with 4096 in Hd2. change (4096 * 64) with 262144 in Hd3.
  cbn [utf8_decode]. rewrite !cont_byte by lia. csimpl. rewrite H2.
  rewrite decide_True by lia. f_equal. lia.
Qed.

(** [str_chr] encodes every code point as the UTF-8 sequence that the
    strict decoder reads back as that code point, and every other number as
    U+FFFD. *)
Theorem chr_utf8 w c : w = 32 \/ w = 64 ->
  exists s, o9_str_chr w c = Some s /\
    utf8_decode s = Some (if decide (0 <= c <= 1114111) then c else 65533).
Proof.
  intros Hw. unfold o9_str_chr. set (c' := if decide (c < 0 \/ _) then _ else c).
  replace (if decide (0 <= c <= 1114111) then c else 65533) with c' by (unfold c'; repeat case_decide; lia).
  assert (Hc : 0 <= c' <= 1114111) by (unfold c'; case_decide; lia).
  generalize dependent c'. clear c. intros c Hc. cbv zeta.
  set (buf := if decide (c < 128) then _ else _). exists buf.
  assert (Hlen : (length buf <= 4)%nat) by (unfold buf; repeat case_decide; simpl; lia).
  assert (HL : 4 < LIMIT w) by (destruct Hw as [->| ->]; done).
  split; [rewrite string_new_ok by (try done; lia); by rewrite Nat2Z.id, take_ge|].
  clear Hlen. unfold buf. clear buf. rewrite !Z.shiftr_div_pow2 by lia.
  change (2 ^ 6) with 64. change (2 ^ 12) with 4096. change (2 ^ 18) with 262144.
  repeat case_decide; [apply decode1|apply decode2|apply decode3|apply decode4]; lia.
Qed.

(** *** Numbers *)

(** [int_value] reads back what [int_str] wrote, for every [vlong]. *)
Theorem intvalue_intstr n def : - 2 ^ 63 <= n < 2 ^ 63 -> o9_intvalue (o9_intstr n) def = n.
Proof.
  intros Hn. unfold o9_intvalue. change (o9_intstr n) with (Some (cstr (itoa n))).
  change (o9_string_cstr (Some (cstr (itoa n)))) with (cstr (itoa n)).
  rewrite cstr_idemp, (cstr_id _ (itoa_cstr n)).
  unfold strtoll. rewrite strto_itoa by lia.
  rewrite bool_decide_false; [by rewrite bool_decide_false by (intros []; done)|].
  unfold itoa. case_decide; [done|]. unfold utoa.
  by destruct (digits_head 64 10 n) as (d & t & -> & _); [lia..|].
Qed.

(** *** Literals *)

Definition lit_bucket (t : literals) (h : nat) : list (strptr * bytes) := default [] (lt_tab t !! h).

Record lits_ok (w : Z) (t : literals) : Prop := {
  lo_len : length (lt_tab t) = 256%nat;
  lo_ptr : forall h p d, (p, d) ∈ lit_bucket t h -> h = literal_hash w d /\ (p < lt_next t)%positive;
  lo_fun : forall h h' p d d', (p, d) ∈ lit_bucket t h -> (p, d') ∈ lit_bucket t h' -> d = d';
  lo_inj : forall h p p' d, (p, d) ∈ lit_bucket t h -> (p', d) ∈ lit_bucket t h -> p = p' }.

Lemma literal_hash_lt w d : (literal_hash w d < 256)%nat.
Proof.
  unfold literal_hash. set (x := fold_left _ _ _). change 255 with (Z.ones 8).
  rewrite Z.land_ones by lia. pose proof (Z.mod_pos_bound x (2 ^ 8)). lia.
Qed.

Lemma literals0_ok w : lits_ok w literals0.
Proof.
  assert (H : forall h x, x ∈ lit_bucket literals0 h -> False).
  { intros h x. unfold lit_bucket. change (lt_tab literals0) with (replicate 256 ([] : list (strptr * bytes))).
    destruct (_ !! h) eqn:E; [|by intros ?%not_elem_of_nil]. apply lookup_replicate in E as [-> _].
    by intros ?%not_elem_of_nil. }
  split; [done|..]; intros; exfalso; eauto.
Qed.

(** A call finds the literal of the contents, or adds it. *)
Lemma literal_spec w d t : lits_ok w t ->
  let '(p, t') := o9_string_literal w d t in
  lits_ok w t' /\ (p, d) ∈ lit_bucket t' (literal_hash w d) /\
  forall h x, x ∈ lit_bucket t h -> x ∈ lit_bucket t' h.
Proof.
  intros Hok. unfold o9_string_literal. fold (lit_bucket t (literal_hash w d)).
  destruct (list_find _ _) as [[i [p d']]|] eqn:E.
  { apply list_find_Some in E as (Hi & Hd & _). simpl in Hd. subst d'. split_and!; [done| |done].
    by eapply list_elem_of_lookup_2. }
  apply list_find_None in E. rewrite Forall_forall in E. destruct Hok as [H1 H2 H3 H4].
  set (h := literal_hash w d) in *. set (t' := MkLits _ _).
  assert (Hb : forall h', lit_bucket t' h' = if decide (h = h') then (lt_next t, d) :: lit_bucket t h else lit_bucket t h').
  { intros h'. unfold lit_bucket at 1. simpl. case_decide as Eh.
    - subst. rewrite list_lookup_insert_eq; [done|]. rewrite H1. apply literal_hash_lt.
    - by rewrite list_lookup_insert_ne. }
  assert (Hin : forall h' x, x ∈ lit_bucket t' h' -> (h' = h /\ x = (lt_next t, d)) \/ x ∈ lit_bucket t h').
  { intros h' x. rewrite Hb. case_decide as Eh; [|by right]. subst. intros [-> |?]%elem_of_cons; auto. }
  split_and!.
  - split.
    + simpl. by rewrite length_insert.
    + intros h' p d' [[-> [= -> ->]]|[-> ?]%H2]%Hin; simpl; [split; [done|lia]|]. split; [done|lia].
    + intros h1 h2 p d1 d2 Ha Hc. apply Hin in Ha as [[-> Ea]|Ha], Hc as [[-> Ec]|Hc].
      * congruence.
      * injection Ea as -> ->. apply H2 in Hc. lia.
      * injection Ec as -> ->. apply H2 in Ha. lia.
      * by eapply H3.
    + intros h1 p p' d1 Ha Hc. apply Hin in Ha as [[-> Ea]|Ha], Hc as [[E' Ec]|Hc].
      * congruence.
      * injection Ea as -> ->. by destruct (E _ Hc).
      * injection Ec as -> ->. subst. by destruct (E _ Ha).
      * by eapply H4.
  - rewrite Hb, decide_True by done. apply elem_of_cons. by left.
  - intros h' x Hx. rewrite Hb. case_decide as Eh; [subst; apply elem_of_cons; by right|done].
Qed.

Definition literal_run (w : Z) (ds : list bytes) (t : literals) : literals :=
  fold_left (fun t d => (o9_string_literal w d t).2) ds t.

Lemma literal_run_spec w ds t : lits_ok w t ->
  lits_ok w (literal_run w ds t) /\ forall h x, x ∈ lit_bucket t h -> x ∈ lit_bucket (literal_run w ds t) h.
Proof.
  revert t. induction ds as [|d ds IH]; intros t Hok; simpl; [done|].
  pose proof (literal_spec w d t Hok) as H. destruct (o9_string_literal w d t) as [p t']. simpl.
  destruct H as (Hok' & _ & Hsub). destruct (IH t' Hok') as [? ?]. auto.
Qed.

(** Two uses of literals, whatever is interned before and between, yield
    the same pointer exactly when their contents are equal. *)
Theorem literal_interned w ds1 ds2 d d' :
  let t := literal_run w ds1 literals0 in
  let '(p, t1) := o9_string_literal w d t in
  let '(p', _) := o9_string_literal w d' (literal_run w ds2 t1) in
  p = p' <-> d = d'.
Proof.
  cbv zeta. destruct (literal_run_spec w ds1 _ (literals0_ok w)) as [Hok _].
  pose proof (literal_spec w d _ Hok) as H. destruct (o9_string_literal w d _) as [p t1].
  destruct H as (Hok1 & Hp & _). destruct (literal_run_spec w ds2 _ Hok1) as [Hok2 Hsub].
  pose proof (literal_spec w d' _ Hok2) as H. destruct (o9_string_literal w d' _) as [p' t2].
  destruct H as (Hok3 & Hp' & Hsub'). apply Hsub, Hsub' in Hp. split.
  - intros ->. by eapply (lo_fun w t2 Hok3).
  - intros ->. by eapply (lo_inj w t2 Hok3).
Qed.

(** *** Reference counts *)

Inductive ref_op := Retain | Release.

Definition ref_do (p : strptr) (op : ref_op) (h : strheap) : strheap :=
  match op with Retain => o9_string_retain (Some p) h | Release => o9_string_release (Some p) h end.

Definition ref_run (p : strptr) (ops : list ref_op) (h : strheap) : strheap :=
  fold_left (fun h op => ref_do p op h) ops h.

(** The references that are out after the operations, as long as no one
    releases a reference that is not out. *)
Fixpoint refs (n : Z) (ops : list ref_op) : option Z :=
  match ops with
  | [] => Some n
  | op :: ops' =>
      if decide (n <= 0) then None else refs (match op with Retain => n + 1 | Release => n - 1 end) ops'
  end.

(** While users release only references they hold, a counted string is
    alive with its contents exactly as long as a reference is out, and every
    other string is untouched. *)
Theorem string_lifetime p o ops n (h : strheap) :
  h !! p = Some o -> 0 < so_ref o -> refs (so_ref o) ops = Some n ->
  ref_run p ops h !! p = (if decide (0 < n) then Some (MkStr (so_data o) n) else None) /\
  forall q, q <> p -> ref_run p ops h !! q = h !! q.
Proof.
  revert o h. induction ops as [|op ops IH]; intros [d r] h Hp Hr Hn; cbn [refs so_ref so_data ref_run fold_left] in *.
  - injection Hn as <-. rewrite decide_True by done. done.
  - rewrite decide_False in Hn by lia.
    assert (Hstep : forall r', 0 < r' -> refs r' ops = Some n -> ref_do p op h = <[p := MkStr d r']> h ->
      ref_run p ops (ref_do p op h) !! p = (if decide (0 < n) then Some (MkStr d n) else None) /\
      forall q, q <> p -> ref_run p ops (ref_do p op h) !! q = h !! q).
    { intros r' Hr' Hn' Hd. rewrite Hd.
      destruct (IH (MkStr d r') (<[p := MkStr d r']> h)) as [H1 H2]; [by rewrite lookup_insert_eq|done|done|].
      split; [done|]. intros q Hq. rewrite H2 by done. by rewrite lookup_insert_ne. }
    destruct op.
    + apply (Hstep (r + 1)); [lia|done|]. simpl. rewrite Hp. simpl. by rewrite decide_True by lia.
    + destruct (decide (r = 1)) as [->|].
      * destruct ops; [|done]. injection Hn as <-. simpl. rewrite Hp. simpl.
        split; [by rewrite lookup_delete_eq|]. intros q Hq. by rewrite lookup_delete_ne.
      * apply (Hstep (r - 1)); [lia|done|]. simpl. rewrite Hp. simpl. by rewrite !decide_False by lia.
Qed.

(** ** Witnesses *)

Lemma slice_clamps_witness :
  o9_string_slice 64 (Some (str "abc")) (-5) 2 = Some (str "ab").
Proof.
  exact (slice_clamps 64 (Some (str "abc")) (-5) 2 (or_intror eq_refl)
    ltac:(vm_compute; reflexivity) ltac:(vm_compute; reflexivity)).
Defined.

Lemma trim_strips_witness :
  exists l t r, str " a " = l ++ t ++ r /\ ws_all l /\ ws_all r /\
    no_ws_end (head t) /\ no_ws_end (last t) /\ o9_string_trim 64 (Some (str " a ")) = Some t.
Proof. exact (trim_strips 64 (Some (str " a ")) (or_intror eq_refl) ltac:(vm_compute; reflexivity)). Defined.

Lemma chr_utf8_witness : exists s, o9_str_chr 64 8364 = Some s /\ utf8_decode s = Some 8364.
Proof. exact (chr_utf8 64 8364 (or_intror eq_refl)). Defined.

Lemma intvalue_intstr_witness : o9_intvalue (o9_intstr (-17)) 0 = -17.
Proof. apply (intvalue_intstr (-17) 0). lia. Defined.

Lemma string_lifetime_witness :
  ref_run 1 [Retain; Release; Release] {[ 1%positive := MkStr [] 1 ]} !! 1%positive = None.
Proof.
  exact (proj1 (string_lifetime 1 (MkStr [] 1) [Retain; Release; Release] 0 {[ 1%positive := MkStr [] 1 ]}
    eq_refl ltac:(reflexivity) eq_refl)).
Defined.

(** A count near the top of [vlong] makes the sum of [o9_string_slice] wrap:
    the clamp is lost and the result is nil. *)
Lemma slice_overflow : o9_string_slice 64 (Some (str "abc")) 1 (2 ^ 63 - 1) = None.
Proof. vm_compute. reflexivity. Qed.
