(* ===== verification/Dict.v ===== *)
(** * Typed dictionaries ([o9_dict_*] in [o9_runtime.c])

    A chained hash table of 64 buckets; new entries go to the head of their
    bucket.  A cell is the memory of a key or a value, read by the kind of
    the dictionary: a string by its contents (strings are immutable), a C
    string, or bytes; integers are little-endian.  The dictionary is not nil
    and allocation succeeds.  The C library's conversions of [double]s are
    parameters ([fmt_g] is [%g], [strtod] gives the 8 bytes). *)
From S2P Require Import Prelude Fmt.

Open Scope Z_scope.

Inductive kind := RAW | STRING | CSTR | INT | DOUBLE.

Inductive cell :=
  | CellS (s : option bytes)   (* O9String* *)
  | CellC (s : option bytes)   (* char* *)
  | CellB (b : bytes).         (* keysz or valsz bytes *)

Abbreviation entry := (cell * cell)%type.

Record O9Dict := MkDict {
  buckets : list (list entry); keysz : Z; valsz : Z; keykind : kind; valkind : kind }.

#[export] Instance kind_eq_dec : EqDecision kind.
Proof. solve_decision. Defined.
#[export] Instance cell_eq_dec : EqDecision cell.
Proof. solve_decision. Defined.

(** The width of a pointer is 8 bytes. *)
Definition PTRSZ : Z := 8.

Definition o9_dict_cell_size (n : Z) : Z := if decide (0 < n) then n else PTRSZ.

Definition o9_dict_init_typed (ks vs : Z) (kk vk : kind) : O9Dict :=
  MkDict (replicate 64 []) (o9_dict_cell_size ks) (o9_dict_cell_size vs) kk vk.

Definition o9_dict_init : O9Dict := o9_dict_init_typed PTRSZ PTRSZ STRING CSTR.

(** A dictionary that was only zeroed is initialised on first use. *)
Definition o9_dict_defaults (d : O9Dict) : O9Dict := if decide (keysz d <= 0) then o9_dict_init else d.

(** [memset(dst, 0, n)] *)
Definition zero_cell (k : kind) (n : Z) : cell :=
  match k with STRING => CellS None | CSTR => CellC None | _ => CellB (replicate (Z.to_nat n) x00) end.

(** The copy of a cell; retaining a string or duplicating a C string keeps
    the contents. *)
Definition o9_dict_cell_copy (k : kind) (src : option cell) (n : Z) : cell :=
  match src with
  | None => zero_cell k n
  | Some (CellB b) => CellB (take (Z.to_nat n) b)
  | Some c => c
  end.

(** Only the low 6 bits are kept, so the width of [ulong] does not matter. *)
Definition o9_dict_hash_bytes (s : option bytes) : nat :=
  match s with
  | None => 0%nat
  | Some p => Z.to_nat (Z.land (fold_left (fun h c => u32 (Z.shiftl h 5 + h + uchar c)) p 5381) 63)
  end.

Definition o9_dict_hash_cell (d : O9Dict) (key : cell) : nat :=
  match key with
  | CellS os => o9_dict_hash_bytes (Some (default [] os))
  | CellC cs => o9_dict_hash_bytes cs
  | CellB b => o9_dict_hash_bytes (Some (take (Z.to_nat (keysz d)) b))
  end.

Definition o9_dict_keyeq (d : O9Dict) (a b : cell) : bool :=
  match a, b with
  | CellS x, CellS y => bool_decide (length (default [] x) = length (default [] y)) && (default [] x =? default [] y)%c
  | CellC x, CellC y =>
      match x, y with Some x, Some y => (x =? y)%c | None, None => true | _, _ => false end
  | CellB x, CellB y => (take (Z.to_nat (keysz d)) x =? take (Z.to_nat (keysz d)) y)%c
  | _, _ => false
  end.

Definition bucket (d : O9Dict) (h : nat) : list entry := default [] (buckets d !! h).

(** [for(e = d->buckets[h]; e; e = e->next) if(keyeq(e->key, key)) ...] *)
Fixpoint assoc (d : O9Dict) (key : cell) (l : list entry) : option cell :=
  match l with
  | [] => None
  | (k, v) :: l' => if o9_dict_keyeq d k key then Some v else assoc d key l'
  end.

Definition o9_dict_getp (d : O9Dict) (key : option cell) : option cell :=
  match key with
  | None => None
  | Some key => let d := o9_dict_defaults d in assoc d key (bucket d (o9_dict_hash_cell d key))
  end.

(** The status, and the cell in [out]. *)
Definition o9_dict_getv (d : O9Dict) (key : option cell) : Z * cell :=
  let d := o9_dict_defaults d in
  match o9_dict_getp d key with
  | None => (0, zero_cell (valkind d) (valsz d))
  | Some v => (1, v)
  end.

Fixpoint assoc_set (d : O9Dict) (key val : cell) (l : list entry) : option (list entry) :=
  match l with
  | [] => None
  | (k, v) :: l' =>
      if o9_dict_keyeq d k key then Some ((k, val) :: l')
      else match assoc_set d key val l' with Some l'' => Some ((k, v) :: l'') | None => None end
  end.

Definition o9_dict_setv (d : O9Dict) (key val : option cell) : O9Dict :=
  match key with
  | None => d
  | Some key =>
      let d := o9_dict_defaults d in
      let h := o9_dict_hash_cell d key in
      let v := o9_dict_cell_copy (valkind d) val (valsz d) in
      let l := match assoc_set d key v (bucket d h) with
               | Some l => l
               | None => (o9_dict_cell_copy (keykind d) (Some key) (keysz d), v) :: bucket d h
               end in
      MkDict (<[h := l]> (buckets d)) (keysz d) (valsz d) (keykind d) (valkind d)
  end.

Definition o9_dict_hask (d : O9Dict) (key : option cell) : bool := bool_decide (o9_dict_getp d key <> None).

(** The key cell of an integer: its low [keysz] bytes in a zeroed buffer of
    [nout] bytes. *)
Definition o9_dict_int_key (d : O9Dict) (key : Z) (nout : Z) : cell :=
  let n := Z.min (Z.min (keysz d) 8) nout in
  CellB (le_bytes (Z.to_nat n) key ++ replicate (Z.to_nat (nout - n)) x00).

Definition o9_dict_geti (d : O9Dict) (key : Z) : option cell :=
  let d := o9_dict_defaults d in o9_dict_getp d (Some (o9_dict_int_key d key 16)).
Definition o9_dict_hasi (d : O9Dict) (key : Z) : bool := bool_decide (o9_dict_geti d key <> None).

(** The key cell of a [double], given by its 8 bytes. *)
Definition o9_dict_getd (d : O9Dict) (key : bytes) : option cell :=
  let d := o9_dict_defaults d in
  let n := Z.to_nat (Z.min (Z.min (keysz d) 8) 16) in
  o9_dict_getp d (Some (CellB (take n key ++ replicate (16 - n) x00))).
Definition o9_dict_hasd (d : O9Dict) (key : bytes) : bool := bool_decide (o9_dict_getd d key <> None).

Definition o9_dict_gets (d : O9Dict) (key : option bytes) : option cell := o9_dict_getp d (Some (CellS key)).
Definition o9_dict_sets (d : O9Dict) (key : option bytes) (val : cell) : O9Dict :=
  o9_dict_setv (o9_dict_defaults d) (Some (CellS key)) (Some val).
Definition o9_dict_hass (d : O9Dict) (key : option bytes) : bool := o9_dict_hask d (Some (CellS key)).

Definition o9_dict_get (d : O9Dict) (key : option bytes) : option cell :=
  match key with None => None | Some k => o9_dict_gets d (Some (cstr k)) end.
Definition o9_dict_set (d : O9Dict) (key : option bytes) (val : cell) : O9Dict :=
  match key with None => d | Some k => o9_dict_sets d (Some (cstr k)) val end.
Definition o9_dict_has (d : O9Dict) (key : option bytes) : bool :=
  match key with None => false | Some k => o9_dict_hass d (Some (cstr k)) end.

(** ** Text *)

Section text.
Variable fmt_g : bytes -> bytes.
Variable strtod : bytes -> bytes.

Definition hex_digit (d : Z) : byte := digit_char d.

Definition o9_dict_hex_cell (b : bytes) : bytes :=
  x30 :: x78 :: concat (map (fun c => [hex_digit (Z.shiftr (uchar c) 4); hex_digit (Z.land (uchar c) 15)]) b).

Definition o9_dict_cell_text (k : kind) (c : cell) (n : Z) : bytes :=
  match k, c with
  | STRING, CellS os => cstr (default [] os)
  | CSTR, CellC cs => cstr (default [] cs)
  | INT, CellB b => itoa (i64 (le_val (take (Z.to_nat (Z.min n 8)) b)))
  | DOUBLE, CellB b => fmt_g (take (Z.to_nat (Z.min n 8)) b)
  | RAW, CellB b => o9_dict_hex_cell (take (Z.to_nat n) b)
  | _, _ => []
  end.

Definition entry_text (d : O9Dict) (e : entry) : bytes :=
  o9_dict_cell_text (keykind d) e.1 (keysz d) ++ str ":" ++ o9_dict_cell_text (valkind d) e.2 (valsz d) ++ [NL].

Definition o9_dict_serialize (d : O9Dict) : bytes :=
  let d := o9_dict_defaults d in concat (map (entry_text d) (concat (buckets d))).

Definition o9_dict_hexval (c : byte) : Z :=
  let v := schar c in
  if decide (48 <= v <= 57) then v - 48
  else if decide (97 <= v <= 102) then v - 97 + 10
  else if decide (65 <= v <= 70) then v - 65 + 10
  else -1.

(** The bytes read from the hex digits; the cell keeps its zeros after them. *)
Fixpoint parse_hex (n : nat) (t : bytes) : bytes :=
  match n, t with
  | S n', h :: l :: t' =>
      let hi := o9_dict_hexval h in
      let lo := o9_dict_hexval l in
      if decide (hi < 0 \/ lo < 0) then []
      else to_byte (Z.lor (Z.shiftl hi 4) lo) :: parse_hex n' t'
  | _, _ => []
  end.

Definition pad (n : Z) (b : bytes) : bytes := b ++ replicate (Z.to_nat n - length b) x00.

Definition o9_dict_parse_cell (k : kind) (n : Z) (text : bytes) : cell :=
  match k with
  | STRING => CellS (Some text)
  | CSTR => CellC (Some text)
  | INT => CellB (pad n (le_bytes (Z.to_nat (Z.min n 8)) (strtoll 0 text).1))
  | DOUBLE => CellB (pad n (take (Z.to_nat (Z.min n 8)) (strtod text)))
  | RAW => CellB (pad n (parse_hex (Z.to_nat n) (if starts_with (str "0x") text then drop 2 text else text)))
  end.

Definition parse_line (d : O9Dict) (l : bytes) : O9Dict :=
  match strchr x3a l with
  | (_, None) => d
  | (k, Some p) => o9_dict_setv d (Some (o9_dict_parse_cell (keykind d) (keysz d) k))
                                  (Some (o9_dict_parse_cell (valkind d) (valsz d) p))
  end.

(** [for(l = buf; *l; l = next)]: every round consumes a byte, so the length
    of the text is fuel enough. *)
Fixpoint parse_lines (fuel : nat) (d : O9Dict) (buf : bytes) : O9Dict :=
  match fuel, buf with
  | S fuel', _ :: _ =>
      let '(l, next) := strchr NL buf in
      parse_lines fuel' (parse_line d l) (default [] next)
  | _, _ => d
  end.

Definition o9_dict_deserialize (d : O9Dict) (buf : option bytes) : O9Dict :=
  match buf with
  | None => d
  | Some buf => let buf := cstr buf in parse_lines (length buf) (o9_dict_defaults d) buf
  end.
End text.

Definition o9_dict_free (d : O9Dict) : O9Dict :=
  let d := o9_dict_defaults d in
  MkDict (replicate 64 []) (keysz d) (valsz d) (keykind d) (valkind d).

(** ** Well-formed dictionaries *)

(** A cell of a kind: the memory has the size of the dictionary's cells. *)
Definition typed (k : kind) (n : Z) (c : cell) : Prop :=
  match k, c with
  | STRING, CellS _ | CSTR, CellC _ => True
  | (RAW | INT | DOUBLE), CellB b => Z.of_nat (length b) = n
  | _, _ => False
  end.

(** What a key is compared by: nil is the empty string. *)
Definition kcanon (c : cell) : cell :=
  match c with CellS s => CellS (Some (default [] s)) | _ => c end.

Definition key_ok (d : O9Dict) (k : cell) : Prop := typed (keykind d) (keysz d) k.
Definition val_ok (d : O9Dict) (v : cell) : Prop := typed (valkind d) (valsz d) v.

Record dict_ok (d : O9Dict) : Prop := {
  dk_sz : 0 < keysz d /\ 0 < valsz d;
  dk_len : length (buckets d) = 64%nat;
  dk_typed : forall h k v, (k, v) ∈ bucket d h -> key_ok d k /\ val_ok d v /\ o9_dict_hash_cell d k = h;
  dk_uniq : forall h, NoDup (kcanon <$> (bucket d h).*1) }.

Lemma defaults_ok d : dict_ok d -> o9_dict_defaults d = d.
Proof. intros [[? _] _ _ _]. unfold o9_dict_defaults. by rewrite decide_False by lia. Qed.

Lemma keyeq_spec d a b : key_ok d a -> key_ok d b -> 0 < keysz d ->
  o9_dict_keyeq d a b = bool_decide (kcanon a = kcanon b).
Proof.
  unfold key_ok, typed. intros Ha Hb Hs.
  destruct (keykind d), a as [x|x|x], b as [y|y|y]; try done; cbn [o9_dict_keyeq kcanon].
  1,4,5: rewrite !take_ge by lia; unfold streq; apply bool_decide_ext; split; congruence.
  - destruct (streq_spec (default [] x) (default [] y)) as [E|E].
    + rewrite E, !bool_decide_true by congruence. done.
    + rewrite andb_false_r. symmetry. apply bool_decide_false. congruence.
  - destruct x as [x|], y as [y|].
    + unfold streq. apply bool_decide_ext. split; congruence.
    + by rewrite bool_decide_false.
    + by rewrite bool_decide_false.
    + by rewrite bool_decide_true.
Qed.

Lemma hash_canon d a b : kcanon a = kcanon b -> o9_dict_hash_cell d a = o9_dict_hash_cell d b.
Proof.
  destruct a as [x|x|x], b as [y|y|y]; cbn [kcanon]; intros E; try discriminate E; injection E as E;
    cbn [o9_dict_hash_cell]; by rewrite E.
Qed.

Lemma hash_lt d k : (o9_dict_hash_cell d k < 64)%nat.
Proof.
  assert (H : forall s, (o9_dict_hash_bytes s < 64)%nat).
  { intros [s|]; simpl; [|lia]. change 63 with (Z.ones 6). rewrite Z.land_ones by lia.
    set (x := fold_left _ _ _). pose proof (Z.mod_pos_bound x (2 ^ 6)). lia. }
  destruct k; apply H.
Qed.

Lemma copy_typed k n c : typed k n c -> o9_dict_cell_copy k (Some c) n = c.
Proof. unfold typed. destruct k, c; simpl; try done; intros; by rewrite take_ge by lia. Qed.

Lemma copy_ok k n v : 0 < n -> (forall c, v = Some c -> typed k n c) -> typed k n (o9_dict_cell_copy k v n).
Proof.
  intros Hn Hv. destruct v as [c|].
  - rewrite copy_typed by auto. auto.
  - unfold typed. destruct k; simpl; rewrite ?length_replicate; try done; lia.
Qed.

(** *** Chains *)

Section chains.
Variable d : O9Dict.
Hypothesis Hsz : 0 < keysz d.

(** The lookup of a chain by the canonical key. *)
Lemma assoc_cons k v l key : key_ok d k -> key_ok d key ->
  assoc d key ((k, v) :: l) = if bool_decide (kcanon k = kcanon key) then Some v else assoc d key l.
Proof. intros. simpl. by rewrite keyeq_spec. Qed.

Lemma assoc_none l key : key_ok d key -> Forall (key_ok d) l.*1 ->
  assoc d key l = None <-> kcanon key ∉ kcanon <$> l.*1.
Proof.
  intros Hk. induction l as [|[k v] l IH]; intros Hl; [split; [intros _; apply not_elem_of_nil|done]|].
  apply Forall_cons in Hl as [H1 H2]. rewrite assoc_cons by done. csimpl.
  rewrite not_elem_of_cons. case_bool_decide; [split; [done|intros [? _]; congruence]|].
  rewrite IH by done. split; [intros ?; split; [congruence|done]|tauto].
Qed.

Lemma assoc_set_spec l key v key' : key_ok d key -> key_ok d key' -> Forall (key_ok d) l.*1 ->
  match assoc_set d key v l with
  | Some l' => l'.*1 = l.*1 /\
      assoc d key' l' = (if bool_decide (kcanon key = kcanon key') then Some v else assoc d key' l) /\
      (forall e, e ∈ l' -> e ∈ l \/ exists k, e = (k, v) /\ k ∈ l.*1)
  | None => kcanon key ∉ kcanon <$> l.*1
  end.
Proof.
  intros Hk Hk'. induction l as [|[k w] l IH]; intros Hl; [apply not_elem_of_nil|].
  apply Forall_cons in Hl as [H1 H2]. cbn [assoc_set]. rewrite keyeq_spec by done.
  destruct (decide (kcanon k = kcanon key)) as [E|E];
    [rewrite (bool_decide_true (_ = kcanon key)) by done|rewrite (bool_decide_false (_ = kcanon key)) by done].
  - split; [done|split].
    + rewrite !assoc_cons by done. repeat case_bool_decide; congruence.
    + intros e [-> |?]%elem_of_cons; [right; exists k; split; [done|]; csimpl; apply elem_of_cons; by left|].
      left. apply elem_of_cons. by right.
  - specialize (IH H2). destruct (assoc_set d key v l) as [l'|].
    + destruct IH as (Hf & Ha & Hin). split; [|split].
      * csimpl. by rewrite Hf.
      * rewrite !assoc_cons, Ha by done. repeat case_bool_decide; congruence.
      * intros e [-> |?]%elem_of_cons; [left; apply elem_of_cons; by left|].
        destruct (Hin e) as [?|(k' & -> & ?)]; [done|left; apply elem_of_cons; by right|].
        right. exists k'. split; [done|]. csimpl. apply elem_of_cons. by right.
    + csimpl. apply not_elem_of_cons. split; congruence.
Qed.
End chains.

(** *** Operations *)

Lemma assoc_ext d d' key l : keysz d = keysz d' -> assoc d key l = assoc d' key l.
Proof.
  intros E. induction l as [|[k v] l IH]; simpl; [done|]. rewrite IH.
  destruct k, key; simpl; by rewrite ?E.
Qed.

Lemma hash_ext d d' key : keysz d = keysz d' -> o9_dict_hash_cell d key = o9_dict_hash_cell d' key.
Proof. intros E. destruct key; simpl; by rewrite ?E. Qed.

Lemma getp_assoc d key : dict_ok d ->
  o9_dict_getp d (Some key) = assoc d key (bucket d (o9_dict_hash_cell d key)).
Proof. intros. unfold o9_dict_getp. by rewrite defaults_ok. Qed.

Lemma bucket_keys d h : dict_ok d -> Forall (key_ok d) (bucket d h).*1.
Proof.
  intros Hd. rewrite Forall_forall. intros k (e & -> & He)%list_elem_of_fmap. destruct e as [k v].
  by eapply dk_typed in He as (? & _).
Qed.

(** Replacing a bucket by one that holds the right keys, once each. *)
Lemma dict_ok_bucket d h l : dict_ok d -> (h < 64)%nat ->
  (forall k v, (k, v) ∈ l -> key_ok d k /\ val_ok d v /\ o9_dict_hash_cell d k = h) ->
  NoDup (kcanon <$> l.*1) ->
  dict_ok (MkDict (<[h := l]> (buckets d)) (keysz d) (valsz d) (keykind d) (valkind d)).
Proof.
  intros [H1 H2 H3 H4] Hh Hl Hn. set (d' := MkDict _ _ _ _ _).
  assert (Hb : forall h', bucket d' h' = if decide (h = h') then l else bucket d h').
  { intros h'. unfold bucket at 1. simpl. case_decide as E.
    - subst. by rewrite list_lookup_insert_eq by lia.
    - by rewrite list_lookup_insert_ne. }
  split.
  - done.
  - simpl. by rewrite length_insert.
  - intros h' k v. rewrite Hb, (hash_ext d' d) by done. case_decide as E; [subst; apply Hl|apply H3].
  - intros h'. rewrite Hb. by case_decide.
Qed.

Lemma setv_spec d key val : dict_ok d -> key_ok d key -> (forall c, val = Some c -> val_ok d c) ->
  let d' := o9_dict_setv d (Some key) val in
  dict_ok d' /\
  (keysz d' = keysz d /\ valsz d' = valsz d /\ keykind d' = keykind d /\ valkind d' = valkind d) /\
  forall key', key_ok d key' -> o9_dict_getp d' (Some key') =
    if bool_decide (kcanon key = kcanon key') then Some (o9_dict_cell_copy (valkind d) val (valsz d))
    else o9_dict_getp d (Some key').
Proof.
  intros Hd Hk Hv d'. pose proof Hd as [[Hs1 Hs2] Hlen Ht Hu].
  set (h := o9_dict_hash_cell d key). set (v := o9_dict_cell_copy (valkind d) val (valsz d)).
  assert (Hvok : val_ok d v) by (by apply copy_ok).
  set (l := match assoc_set d key v (bucket d h) with Some l => l | None => (key, v) :: bucket d h end).
  assert (Ed : d' = MkDict (<[h := l]> (buckets d)) (keysz d) (valsz d) (keykind d) (valkind d)).
  { unfold d', o9_dict_setv. rewrite (defaults_ok d Hd). by rewrite copy_typed. }
  assert (Hassoc : forall key', key_ok d key' -> assoc d key' l =
    if bool_decide (kcanon key = kcanon key') then Some v else assoc d key' (bucket d h)).
  { intros key' Hk'. unfold l. pose proof (assoc_set_spec d Hs1 (bucket d h) key v key' Hk Hk' (bucket_keys d h Hd)) as Ha.
    destruct (assoc_set _ _ _ _); [apply Ha|]. by rewrite assoc_cons. }
  pose proof (assoc_set_spec d Hs1 (bucket d h) key v key Hk Hk (bucket_keys d h Hd)) as Ha.
  assert (Hd' : dict_ok d').
  { rewrite Ed. apply dict_ok_bucket; [done|apply hash_lt|..]; unfold l; destruct (assoc_set _ _ _ _) as [l'|].
    - destruct Ha as (_ & _ & Hin). intros k w Hkw. destruct (Hin _ Hkw) as [?|(k' & [= -> ->] & Hk')]; [by apply Ht|].
      apply list_elem_of_fmap in Hk' as ([k2 w2] & -> & Hk2). apply Ht in Hk2 as (? & _ & ?). done.
    - intros k w [[= -> ->]|?]%elem_of_cons; [done|by apply Ht].
    - destruct Ha as (-> & _). apply Hu.
    - csimpl. apply NoDup_cons. split; [done|apply Hu]. }
  split; [done|]. split; [by rewrite Ed|]. intros key' Hk'. rewrite !getp_assoc by done.
  rewrite (assoc_ext d' d), (hash_ext d' d) by (by rewrite Ed).
  assert (Hb : bucket d' (o9_dict_hash_cell d key') = if decide (h = o9_dict_hash_cell d key') then l
                else bucket d (o9_dict_hash_cell d key')).
  { rewrite Ed. unfold bucket. simpl. destruct (decide (h = o9_dict_hash_cell d key')) as [E|E].
    - rewrite <- E, list_lookup_insert_eq; [done|]. rewrite Hlen. apply hash_lt.
    - by rewrite list_lookup_insert_ne. }
  rewrite Hb. destruct (decide (h = _)) as [E|E]; [rewrite Hassoc by done; by rewrite E|].
  rewrite bool_decide_false; [done|]. intros Hc. by apply E, hash_canon.
Qed.

Lemma init_ok ks vs kk vk : dict_ok (o9_dict_init_typed ks vs kk vk).
Proof.
  assert (Hb : forall h, bucket (o9_dict_init_typed ks vs kk vk) h = []).
  { intros h. unfold bucket, o9_dict_init_typed. cbn [buckets].
    destruct (_ !! h) eqn:E; [|done]. by apply lookup_replicate in E as [-> _]. }
  split.
  - unfold o9_dict_init_typed, o9_dict_cell_size, PTRSZ. simpl. split; case_decide; lia.
  - done.
  - intros h k v. rewrite Hb. by intros ?%not_elem_of_nil.
  - intros h. rewrite Hb. constructor.
Qed.

Lemma init_empty ks vs kk vk key : o9_dict_getp (o9_dict_init_typed ks vs kk vk) (Some key) = None.
Proof.
  rewrite getp_assoc by apply init_ok. unfold bucket, o9_dict_init_typed at 2. cbn [buckets].
  destruct (_ !! _) eqn:E; [|done]. by apply lookup_replicate in E as [-> _].
Qed.

(** C30: The chained table is a map on the canonical keys (nil is the empty
    string): a set stores the copied value under its key and changes no other
    key, and keeps every key in its bucket, once. *)
Theorem dict_refines_map d key val key' :
  dict_ok d -> key_ok d key -> (forall c, val = Some c -> val_ok d c) -> key_ok d key' ->
  let d' := o9_dict_setv d (Some key) val in
  dict_ok d' /\
  o9_dict_getp d' (Some key') =
    if bool_decide (kcanon key = kcanon key') then Some (o9_dict_cell_copy (valkind d) val (valsz d))
    else o9_dict_getp d (Some key').
Proof.
  intros Hd Hk Hv Hk'. destruct (setv_spec d key val Hd Hk Hv) as (H1 & _ & H2). split; [done|by apply H2].
Qed.

(** ** Text *)

Section roundtrip.
Variable fmt_g : bytes -> bytes.
Variable strtod : bytes -> bytes.

(** A cell whose text can be read back: no terminator of its position inside
    ([sep]), no NUL; integers have at most 8 bytes; a nil C string is no key;
    a [double] is printed without loss. *)
Definition text_safe (sep : list byte) (k : kind) (n : Z) (c : cell) : Prop :=
  match k, c with
  | STRING, CellS s => Forall (fun b => b ∉ sep) (default [] s)
  | CSTR, CellC s => Forall (fun b => b ∉ sep) (default [] s)
  | RAW, CellB _ => True
  | INT, CellB _ => n <= 8
  | DOUBLE, CellB b => n = 8 /\ strtod (fmt_g b) = b /\ Forall (fun b => b ∉ sep) (fmt_g b)
  | _, _ => False
  end.

Definition key_safe (n : Z) (k : kind) (c : cell) : Prop :=
  text_safe [NUL; NL; x3a] k n c /\ c <> CellC None.
Definition val_safe (n : Z) (k : kind) (c : cell) : Prop := text_safe [NUL; NL] k n c.

(** The cell that is read back: nil becomes the empty string. *)
Definition tcanon (c : cell) : cell :=
  match c with
  | CellS s => CellS (Some (default [] s))
  | CellC s => CellC (Some (default [] s))
  | CellB b => CellB b
  end.

Lemma Forall_not_in (sep : list byte) b s : Forall (fun b => b ∉ sep) s -> b ∈ sep -> b ∉ s.
Proof. rewrite Forall_forall. intros H Hb Hs. by apply (H b Hs). Qed.

Lemma hexval_digit d : 0 <= d < 16 -> o9_dict_hexval (hex_digit d) = d.
Proof.
  intros Hd. unfold o9_dict_hexval, hex_digit, schar. rewrite uchar_digit by lia.
  repeat case_decide; lia.
Qed.

Lemma hex_parse b : parse_hex (length b)
  (concat (map (fun c => [hex_digit (Z.shiftr (uchar c) 4); hex_digit (Z.land (uchar c) 15)]) b)) = b.
Proof.
  induction b as [|c b IH]; [done|]. cbn [length map concat app parse_hex].
  pose proof (uchar_range c). rewrite Z.shiftr_div_pow2 by lia. change 15 with (Z.ones 4). rewrite Z.land_ones by lia.
  change (2 ^ 4) with 16.
  pose proof (Z.mod_pos_bound (uchar c) 16 ltac:(lia)).
  assert (0 <= uchar c / 16 < 16) by (split; [apply Z.div_pos; lia|apply Z.div_lt_upper_bound; lia]).
  rewrite !hexval_digit by lia. rewrite decide_False by lia. f_equal; [|exact IH].
  rewrite Z.shiftl_mul_pow2 by lia. change (2 ^ 4) with 16.
  rewrite <- (to_byte_uchar c) at 3. f_equal. pose proof (Z.div_mod (uchar c) 16 ltac:(lia)) as E.
  pose proof (Z.add_lor_land (uchar c / 16 * 16) (uchar c mod 16)) as A.
  assert (L : Z.land (uchar c / 16 * 16) (uchar c mod 16) = 0).
  { change 16 with (2 ^ 4). rewrite <- Z.land_ones by lia.
    rewrite (Z.land_comm (uchar c)), Z.land_assoc, Z.land_ones, Z.mod_mul by lia. apply Z.land_0_l. }
  lia.
Qed.

Lemma int_parse n b : Z.of_nat (length b) = n -> n <= 8 ->
  le_bytes (Z.to_nat n) (strtoll 0 (itoa (i64 (le_val b)))).1 = b.
Proof.
  intros Hl Hn. pose proof (le_val_range b) as Hr. set (v := le_val b) in *.
  assert (Hi : - 2 ^ 63 <= i64 v <= 2 ^ 63 - 1).
  { unfold i64, wraps. pose proof (Z.mod_pos_bound v (2 ^ 64) ltac:(lia)). case_decide; lia. }
  unfold strtoll. rewrite strto_itoa by lia. simpl fst.
  rewrite <- (le_bytes_mod _ (i64 v)).
  assert (Hp : 2 ^ 64 = 256 ^ Z.of_nat (Z.to_nat n) * 256 ^ (8 - n)).
  { rewrite <- Z.pow_add_r by lia. replace (_ + (8 - n)) with 8 by lia. done. }
  assert (Hm : i64 v mod 256 ^ Z.of_nat (Z.to_nat n) = v).
  { rewrite Z2Nat.id in * by lia. rewrite Hl in Hr.
    assert (v <= 2 ^ 64 - 1) by (assert (256 ^ n <= 256 ^ 8) by (apply Z.pow_le_mono_r; lia); lia).
    unfold i64, wraps. rewrite (Z.mod_small v (2 ^ 64)) by lia. case_decide; [apply Z.mod_small; lia|].
    rewrite Hp. replace (v - 256 ^ n * 256 ^ (8 - n)) with (v + - 256 ^ (8 - n) * 256 ^ n) by lia.
    rewrite Z.mod_add by lia. apply Z.mod_small. lia. }
  rewrite Hm. rewrite <- Hl, Nat2Z.id. apply le_bytes_val.
Qed.

Abbreviation text := (o9_dict_cell_text fmt_g).
Abbreviation parse := (o9_dict_parse_cell strtod).

Lemma pad_full n b : Z.of_nat (length b) = n -> pad n b = b.
Proof. intros E. unfold pad. replace (_ - _)%nat with 0%nat by lia. by rewrite app_nil_r. Qed.

(** A cell is read back from its text. *)
Lemma parse_text sep k n c : 0 < n -> typed k n c -> text_safe sep k n c -> NUL ∈ sep ->
  parse k n (text k c n) = tcanon c.
Proof.
  intros Hn Ht Hs Hnul. destruct k, c as [s|s|b]; try done; cbn [typed text_safe] in *; cbn [o9_dict_cell_text o9_dict_parse_cell tcanon].
  - change (starts_with _ _) with true. cbv iota. cbn [drop o9_dict_hex_cell].
    rewrite take_ge by lia. rewrite <- Ht, Nat2Z.id, hex_parse. by rewrite pad_full.
  - rewrite cstr_id; [done|]. by apply (Forall_not_in sep).
  - rewrite cstr_id; [done|]. by apply (Forall_not_in sep).
  - rewrite Z.min_l, take_ge by lia. rewrite int_parse by done. by rewrite pad_full.
  - destruct Hs as (-> & Hs & _). change (Z.to_nat (Z.min 8 8)) with 8%nat. rewrite !(take_ge b), Hs, take_ge by lia. by rewrite pad_full.
Qed.

(** The text of a cell holds no separator. *)
Lemma text_clean sep k n c b : typed k n c -> text_safe sep k n c -> b ∈ sep ->
  sep ⊆ [NUL; NL; x3a] -> b ∉ text k c n.
Proof.
  intros Ht Hs Hb Hsep Hin.
  assert (Hv : uchar b = 0 \/ uchar b = 10 \/ uchar b = 58).
  { apply Hsep in Hb. repeat (apply elem_of_cons in Hb as [-> |Hb]; [vm_compute; auto|]). by apply not_elem_of_nil in Hb. }
  assert (Hcs : forall s, b ∈ cstr s -> b ∈ s).
  { induction s as [|a s IH]; simpl; [done|]. case_decide; [by intros ?%not_elem_of_nil|].
    rewrite !elem_of_cons. tauto. }
  destruct k, c as [s|s|x]; try done; cbn [typed text_safe] in *; cbn [o9_dict_cell_text] in Hin.
  - unfold o9_dict_hex_cell in Hin.
    do 2 (apply elem_of_cons in Hin as [-> |Hin]; [vm_compute in Hv; lia|]).
    revert Hin. induction (take _ x) as [|a l IH]; [by intros ?%not_elem_of_nil|]. cbn [map concat app].
    pose proof (uchar_range a) as Ha. rewrite Z.shiftr_div_pow2 by lia.
    assert (0 <= uchar a / 2 ^ 4 < 36) by (split; [apply Z.div_pos; lia|apply Z.div_lt_upper_bound; lia]).
    assert (0 <= Z.land (uchar a) 15 < 36).
    { change 15 with (Z.ones 4). rewrite Z.land_ones by lia. pose proof (Z.mod_pos_bound (uchar a) (2 ^ 4)). lia. }
    intros [-> |[-> |?]%elem_of_cons]%elem_of_cons; [..|auto]; unfold hex_digit in Hv;
      rewrite uchar_digit in Hv by done; case_decide; lia.
  - apply Hcs in Hin. by apply (Forall_not_in sep b (default [] s)).
  - apply Hcs in Hin. by apply (Forall_not_in sep b (default [] s)).
  - apply itoa_chars in Hin as [-> |?]; [vm_compute in Hv|]; lia.
  - destruct Hs as (-> & _ & Hs). rewrite take_ge in Hin by lia. by apply (Forall_not_in sep b (fmt_g x)).
Qed.

Variable d : O9Dict.
Hypothesis Hd : dict_ok d.

(** An entry whose key and value can be read back. *)
Definition entry_safe (e : entry) : Prop :=
  key_ok d e.1 /\ val_ok d e.2 /\ key_safe (keysz d) (keykind d) e.1 /\ val_safe (valsz d) (valkind d) e.2.

(** [d0] has the shape of [d]. *)
Definition same_shape (d0 : O9Dict) : Prop :=
  keysz d0 = keysz d /\ valsz d0 = valsz d /\ keykind d0 = keykind d /\ valkind d0 = valkind d.

Definition put_entry (d0 : O9Dict) (e : entry) : O9Dict :=
  o9_dict_setv d0 (Some (tcanon e.1)) (Some (tcanon e.2)).

Lemma entry_line d0 e : entry_safe e -> same_shape d0 ->
  exists l, entry_text fmt_g d e = l ++ [NL] /\ l <> [] /\ NL ∉ l /\ parse_line strtod d0 l = put_entry d0 e.
Proof.
  intros (Hk & Hv & [Hks _] & Hvs) (E1 & E2 & E3 & E4). destruct (dk_sz d Hd) as [Hs1 Hs2].
  unfold entry_text. set (kt := text (keykind d) e.1 (keysz d)). set (vt := text (valkind d) e.2 (valsz d)).
  assert (Hkt : forall b, b ∈ [NUL; NL; x3a] -> b ∉ kt).
  { intros b Hb. by apply (text_clean [NUL; NL; x3a]). }
  assert (Hvt : forall b, b ∈ [NUL; NL] -> b ∉ vt).
  { intros b Hb. apply (text_clean [NUL; NL]); try done. intros x. rewrite !elem_of_cons. tauto. }
  exists (kt ++ x3a :: vt). split_and!.
  - by rewrite <- app_assoc.
  - by destruct kt.
  - rewrite elem_of_app, elem_of_cons. intros [H|[H|H]]; [|done|].
    + apply (Hkt NL); [|done]. rewrite !elem_of_cons. auto.
    + apply (Hvt NL); [|done]. rewrite !elem_of_cons. auto.
  - unfold parse_line. rewrite strchr_some by (apply Hkt; rewrite !elem_of_cons; auto).
    rewrite E1, E2, E3, E4. unfold kt, vt.
    rewrite (parse_text [NUL; NL; x3a]) by (try done; rewrite !elem_of_cons; auto).
    by rewrite (parse_text [NUL; NL]) by (try done; rewrite !elem_of_cons; auto).
Qed.

Lemma tcanon_ok k n c : typed k n c -> typed k n (tcanon c).
Proof. by destruct k, c. Qed.

Lemma put_shape d0 e : entry_safe e -> same_shape d0 -> dict_ok d0 ->
  same_shape (put_entry d0 e) /\ dict_ok (put_entry d0 e) /\
  forall key, key_ok d key -> o9_dict_getp (put_entry d0 e) (Some key) =
    if bool_decide (kcanon (tcanon e.1) = kcanon key) then Some (tcanon e.2) else o9_dict_getp d0 (Some key).
Proof.
  intros (Hk & Hv & _) (E1 & E2 & E3 & E4) H0.
  assert (Hk' : key_ok d0 (tcanon e.1)) by (unfold key_ok; rewrite E1, E3; by apply tcanon_ok).
  assert (Hv' : val_ok d0 (tcanon e.2)) by (unfold val_ok; rewrite E2, E4; by apply tcanon_ok).
  destruct (setv_spec d0 (tcanon e.1) (Some (tcanon e.2)) H0 Hk') as (H1 & (F1 & F2 & F3 & F4) & H2).
  { by intros c [= <-]. }
  unfold put_entry, same_shape. split; [split_and!; congruence|]. split; [done|]. intros key Hkey.
  rewrite H2 by (unfold key_ok; rewrite E1, E3; done). by rewrite copy_typed.
Qed.

Lemma parse_entries es d0 fuel : Forall entry_safe es -> same_shape d0 -> dict_ok d0 ->
  (length (concat (map (entry_text fmt_g d) es)) <= fuel)%nat ->
  parse_lines strtod fuel d0 (concat (map (entry_text fmt_g d) es)) = fold_left put_entry es d0.
Proof.
  intros Hes. revert d0 fuel. induction Hes as [|e es He Hes IH]; intros d0 fuel Hs H0 Hf; [by destruct fuel|].
  cbn [map concat fold_left] in *. destruct (entry_line d0 e He Hs) as (l & El & Hne & Hnl & Hp).
  rewrite El, <- app_assoc in *. cbn [app] in *. rewrite length_app in Hf. cbn [length] in Hf.
  destruct fuel as [|fuel]; [lia|]. cbn [parse_lines]. rewrite strchr_some by done.
  destruct l as [|b l]; [done|]. cbn [app default]. rewrite Hp.
  destruct (put_shape d0 e He Hs H0) as (H1 & H2 & _). apply IH; [done..|]. cbn [length] in Hf. lia.
Qed.

Lemma kcanon_tcanon c : c <> CellC None -> kcanon (tcanon c) = kcanon c.
Proof. destruct c as [s|[s|]|b]; done. Qed.

Lemma fold_lookup es d0 key : Forall entry_safe es -> same_shape d0 -> dict_ok d0 -> key_ok d key ->
  (forall e e', e ∈ es -> e' ∈ es -> kcanon e.1 = kcanon e'.1 -> e = e') ->
  o9_dict_getp (fold_left put_entry es d0) (Some key) =
    match assoc d key es with Some v => Some (tcanon v) | None => o9_dict_getp d0 (Some key) end.
Proof.
  intros Hes Hs H0 Hk. revert d0 Hs H0. induction Hes as [|e es He Hes IH]; intros d0 Hs H0 Hu; [done|].
  cbn [fold_left]. destruct (put_shape d0 e He Hs H0) as (H1 & H2 & H3).
  rewrite IH, H3 by (try done; intros; apply Hu; try done; apply elem_of_cons; by right).
  destruct e as [k v]. destruct He as (Hke & _ & [_ Hkn] & _). cbn [fst snd] in *.
  destruct (dk_sz d Hd) as [Hsz _]. rewrite assoc_cons, kcanon_tcanon by done.
  destruct (assoc d key es) as [v'|] eqn:Ea; [|by case_bool_decide].
  case_bool_decide as E; [|done].
  assert (Hin : forall l, assoc d key l = Some v' -> Forall (key_ok d) l.*1 -> exists k', (k', v') ∈ l /\ kcanon k' = kcanon key).
  { induction l as [|[k2 v2] l IHl]; [done|]. intros Hl Hok. apply Forall_cons in Hok as [Ho1 Ho2].
    rewrite assoc_cons in Hl by done. case_bool_decide.
    - injection Hl as ->. exists k2. split; [apply elem_of_cons; by left|done].
    - destruct (IHl Hl Ho2) as (k' & ? & ?). exists k'. split; [apply elem_of_cons; by right|done]. }
  destruct (Hin es Ea) as (k' & Hk' & Ek').
  { apply Forall_fmap. eapply Forall_impl; [exact Hes|]. by intros x (? & _). }
  assert (X : (k, v) = (k', v')); [|congruence].
  apply Hu; [apply elem_of_cons; by left|apply elem_of_cons; by right|]. simpl. congruence.
Qed.

(** The chains together answer as the chain of the key. *)
Lemma assoc_concat bs a key : key_ok d key ->
  (forall i l k v, bs !! i = Some l -> (k, v) ∈ l -> key_ok d k /\ o9_dict_hash_cell d k = (a + i)%nat) ->
  assoc d key (concat bs) =
    if decide (a <= o9_dict_hash_cell d key)%nat
    then assoc d key (default [] (bs !! (o9_dict_hash_cell d key - a)%nat)) else None.
Proof.
  intros Hk. destruct (dk_sz d Hd) as [Hsz _]. revert a. induction bs as [|l bs IH]; intros a Hb.
  - cbn. by case_decide.
  - cbn [concat]. assert (Happ : forall l1 l2, assoc d key (l1 ++ l2) =
      match assoc d key l1 with Some v => Some v | None => assoc d key l2 end).
    { induction l1 as [|[k v] l1 IHl]; intros l2; simpl; [done|]. by destruct (o9_dict_keyeq d k key). }
    rewrite Happ, (IH (S a)).
    2: { intros i l' k v Hi Hkv. destruct (Hb (S i) l' k v Hi Hkv) as [? ->]. split; [done|lia]. }
    assert (Hl : a <> o9_dict_hash_cell d key -> assoc d key l = None).
    { intros Hne. apply assoc_none; [done|done| |].
      - rewrite Forall_forall. intros k ([k' v] & -> & He)%list_elem_of_fmap. by apply (Hb 0%nat l k' v).
      - intros (k & Ek & ([k' v] & -> & He)%list_elem_of_fmap)%list_elem_of_fmap.
        destruct (Hb 0%nat l k' v eq_refl He) as [_ Hh]. rewrite (hash_canon d key k' Ek) in Hne. lia. }
    set (h := o9_dict_hash_cell d key) in *. destruct (decide (a = h)) as [->|Hne].
    + rewrite decide_False, decide_True, Nat.sub_diag by lia. cbn. by destruct (assoc d key l).
    + rewrite (Hl Hne). destruct (decide (S a <= h)%nat); [|by rewrite decide_False by lia].
      rewrite decide_True by lia. replace (h - a)%nat with (S (h - S a)) by lia. done.
Qed.

Lemma concat_buckets_in e : e ∈ concat (buckets d) ->
  key_ok d e.1 /\ e ∈ bucket d (o9_dict_hash_cell d e.1).
Proof.
  rewrite list_elem_of_In, in_concat. intros (l & Hl & He). apply list_elem_of_In in Hl, He.
  apply list_elem_of_lookup in Hl as [h Hh]. destruct e as [k v].
  assert (Hb : (k, v) ∈ bucket d h) by (unfold bucket; by rewrite Hh).
  destruct (dk_typed d Hd h k v Hb) as (Hk & _ & Hhash). simpl. by rewrite Hhash.
Qed.

Lemma entries_unique e e' : e ∈ concat (buckets d) -> e' ∈ concat (buckets d) ->
  kcanon e.1 = kcanon e'.1 -> e = e'.
Proof.
  intros [Hk He]%concat_buckets_in [Hk' He']%concat_buckets_in E.
  rewrite (hash_canon d _ _ E) in He. set (h := o9_dict_hash_cell d e'.1) in *.
  apply list_elem_of_lookup in He as [i Hi], He' as [j Hj].
  assert (i = j); [|congruence].
  eapply (NoDup_lookup _ i j (kcanon e.1) (dk_uniq d Hd h)).
  - by rewrite !list_lookup_fmap, Hi.
  - rewrite !list_lookup_fmap, Hj. simpl. by rewrite E.
Qed.

Lemma getp_concat key : key_ok d key -> o9_dict_getp d (Some key) = assoc d key (concat (buckets d)).
Proof.
  intros Hk. rewrite getp_assoc by done. rewrite (assoc_concat (buckets d) 0 key Hk).
  - rewrite decide_True by lia. by rewrite Nat.sub_0_r.
  - intros i l k v Hi Hkv. assert (Hb : (k, v) ∈ bucket d i) by (unfold bucket; by rewrite Hi).
    destruct (dk_typed d Hd i k v Hb) as (? & _ & ?). auto.
Qed.

Lemma serialize_cstr es : Forall entry_safe es -> is_cstr (concat (map (entry_text fmt_g d) es)).
Proof.
  induction 1 as [|e es (Hk & Hv & [Hks _] & Hvs) _ IH]; [by apply not_elem_of_nil|].
  cbn [map concat]. apply is_cstr_app. split; [|done]. destruct (dk_sz d Hd).
  unfold entry_text. rewrite !is_cstr_app. split_and!.
  - apply (text_clean [NUL; NL; x3a]); try done. rewrite !elem_of_cons. auto.
  - intros H1. apply (bool_decide_unpack (NUL ∉ str ":")); [by vm_compute|done].
  - apply (text_clean [NUL; NL]); try done; [rewrite !elem_of_cons; auto|].
    intros x. rewrite !elem_of_cons. tauto.
  - intros H1. apply (bool_decide_unpack (NUL ∉ [NL])); [by vm_compute|done].
Qed.
End roundtrip.

(** C31: A dictionary survives its text form: reading what [serialize] wrote
    into a fresh dictionary of the same types answers every lookup as before,
    when every entry has a text that can be read back: no text of a key holds
    [':'], a newline or a NUL and no key is a nil C string, no text of a value holds a
    newline or a NUL, integers have at most 8 bytes, and a double is one that
    [%g] prints without loss.  Nil strings come back empty.  ([colon_key_lost]
    shows what happens to another key.) *)
Theorem dict_text_roundtrip fmt_g strtod d key :
  dict_ok d -> Forall (entry_safe fmt_g strtod d) (concat (buckets d)) -> key_ok d key ->
  o9_dict_getp (o9_dict_deserialize strtod
      (o9_dict_init_typed (keysz d) (valsz d) (keykind d) (valkind d))
      (Some (o9_dict_serialize fmt_g d))) (Some key) =
    tcanon <$> o9_dict_getp d (Some key).
Proof.
  intros Hd Hes Hk. set (d0 := o9_dict_init_typed _ _ _ _).
  assert (H0 : dict_ok d0) by apply init_ok.
  assert (Hs : same_shape d d0).
  { destruct (dk_sz d Hd). unfold d0, same_shape, o9_dict_init_typed, o9_dict_cell_size. simpl.
    rewrite !decide_True by lia. done. }
  unfold o9_dict_deserialize, o9_dict_serialize. rewrite (defaults_ok d Hd), (defaults_ok d0 H0).
  rewrite cstr_id by (by apply (serialize_cstr fmt_g strtod)).
  rewrite (parse_entries fmt_g strtod d Hd (concat (buckets d)) d0) by done.
  rewrite (fold_lookup fmt_g strtod d Hd _ _ key Hes Hs H0 Hk (entries_unique d Hd)).
  rewrite <- getp_concat by done. destruct (o9_dict_getp d (Some key)); [done|]. apply init_empty.
Qed.

(** A colon in a key is taken for the separator. *)
Lemma colon_key_lost fmt_g strtod :
  let d := o9_dict_set o9_dict_init (Some (str "a:b")) (CellC (Some (str "v"))) in
  let d' := o9_dict_deserialize strtod o9_dict_init (Some (o9_dict_serialize fmt_g d)) in
  o9_dict_get d' (Some (str "a:b")) = None /\ o9_dict_get d' (Some (str "a")) = Some (CellC (Some (str "b:v"))).
Proof. vm_compute. done. Qed.

(** ** Witnesses *)

Definition w_d : O9Dict := o9_dict_set o9_dict_init (Some (str "key")) (CellC (Some (str "value"))).

Lemma w_d_ok : dict_ok w_d.
Proof.
  apply (setv_spec o9_dict_init (CellS (Some (str "key"))) (Some (CellC (Some (str "value"))))); [apply init_ok|done|].
  by intros c [= <-].
Qed.

Lemma dict_refines_map_witness :
  o9_dict_getp (o9_dict_setv w_d (Some (CellS (Some (str "k2")))) (Some (CellC (Some (str "v2")))))
    (Some (CellS (Some (str "key")))) = Some (CellC (Some (str "value"))).
Proof.
  exact (proj2 (dict_refines_map w_d (CellS (Some (str "k2"))) (Some (CellC (Some (str "v2"))))
    (CellS (Some (str "key"))) w_d_ok I ltac:(by intros c [= <-]) I)).
Defined.

Lemma dict_text_roundtrip_witness :
  o9_dict_getp (o9_dict_deserialize (fun b => b) (o9_dict_init_typed 8 8 STRING CSTR)
    (Some (o9_dict_serialize (fun b => b) w_d))) (Some (CellS (Some (str "key")))) = Some (CellC (Some (str "value"))).
Proof.
  refine (dict_text_roundtrip (fun b => b) (fun b => b) w_d (CellS (Some (str "key"))) w_d_ok _ I).
  change (concat (buckets w_d)) with [(CellS (Some (str "key")), CellC (Some (str "value")))].
  constructor; [|constructor]. split_and!; [exact I|exact I|split; [|discriminate]|];
    (apply (bool_decide_unpack _); vm_compute; exact I).
Defined.
