(* ===== verification/Registry.v ===== *)
(** * The handle registry ([o9_registry_*] in [o9_runtime.c])

    One process owns a table of 256 handles and serves register, lookup and
    unregister requests one at a time; a request is a round trip on a
    channel, so each is one function on the table.  The table is the list of
    its first [o9_reg_n] entries; channels and addresses are [positive]s. *)
From S2P Require Import Prelude.

Open Scope Z_scope.

Abbreviation ptr := positive.

Definition REG_MAX : nat := 256.

Record O9Handle := MkHandle {
  h_oid : bytes; h_class : bytes; h_chan : option ptr; h_addr : option ptr; h_gen : Z }.

Abbreviation reg_tab := (list O9Handle).

Inductive reg_op := O9RegRegister | O9RegLookup | O9RegUnregister.

Definition handle0 : O9Handle := MkHandle [] [] None None 0.

(** The scan that every request starts with: the entry of the oid, and the
    first free entry before it. *)
Fixpoint reg_scan (tab : reg_tab) (oid : bytes) (i : nat) (freep : option nat) : option nat * option nat :=
  match tab with
  | [] => (None, freep)
  | h :: tab' =>
      if (h_oid h =? oid)%c then (Some i, freep)
      else reg_scan tab' oid (S i)
             (match freep, h_chan h with None, None => Some i | _, _ => freep end)
  end.

Definition handle_at (tab : reg_tab) (i : nat) : O9Handle := default handle0 (tab !! i).

(** One round of [o9_registry_proc]: the reply is the handle, or nil. *)
Definition o9_registry_proc (op : reg_op) (h : O9Handle) (tab : reg_tab) : option O9Handle * reg_tab :=
  let '(found, freep) := reg_scan tab (h_oid h) 0 None in
  match op with
  | O9RegRegister =>
      let '(found, tab) :=
        match found with
        | Some i => (Some i, tab)
        | None => if decide (length tab < REG_MAX)%nat then (Some (length tab), tab ++ [handle0])
                  else (freep, tab)
        end in
      match found with
      | Some i =>
          let h' := MkHandle (h_oid h) (h_class h) (h_chan h) (h_addr h) (i64 (h_gen (handle_at tab i) + 1)) in
          (Some h', <[i := h']> tab)
      | None => (None, tab)
      end
  | O9RegLookup =>
      match found with
      | Some i => match h_chan (handle_at tab i) with
                  | Some _ => (Some (handle_at tab i), tab)
                  | None => (None, tab)
                  end
      | None => (None, tab)
      end
  | O9RegUnregister =>
      match found with
      | Some i => let h := handle_at tab i in (None, <[i := MkHandle (h_oid h) [] None None (h_gen h)]> tab)
      | None => (None, tab)
      end
  end.

(** [o9_registry_rpc] before [o9_registry_start] answers nil. *)
Definition o9_registry_rpc (started : bool) (op : reg_op) (h : O9Handle) (tab : reg_tab) : option O9Handle * reg_tab :=
  if started then o9_registry_proc op h tab else (None, tab).

Definition o9_registry_register (started : bool) (oid class : option bytes) (chan addr : option ptr)
    (tab : reg_tab) : Z * reg_tab :=
  match oid with
  | None => (-1, tab)
  | Some oid =>
      if (cstr oid =? [])%c then (-1, tab)
      else
        let h := MkHandle (strncpy 64 oid) (match class with Some c => strncpy 64 c | None => [] end) chan addr 0 in
        let '(res, tab) := o9_registry_rpc started O9RegRegister h tab in
        (match res with Some _ => 0 | None => -1 end, tab)
  end.

Definition query (oid : bytes) : O9Handle := MkHandle (strncpy 64 oid) [] None None 0.

Definition o9_registry_lookup (started : bool) (oid : option bytes) (tab : reg_tab) : Z * option O9Handle :=
  match oid with
  | None => (-1, None)
  | Some oid =>
      match (o9_registry_rpc started O9RegLookup (query oid) tab).1 with
      | None => (-1, None)
      | Some h => (0, Some h)
      end
  end.

Definition o9_registry_unregister (started : bool) (oid : option bytes) (tab : reg_tab) : Z * reg_tab :=
  match oid with
  | None => (-1, tab)
  | Some oid => (0, (o9_registry_rpc started O9RegUnregister (query oid) tab).2)
  end.

Definition o9_registry_get_gen (started : bool) (oid : option bytes) (tab : reg_tab) : Z :=
  match o9_registry_lookup started oid tab with
  | (0, Some h) => h_gen h
  | _ => 0
  end.

(** ** Specification: a map of at most 256 live handles *)

(** What a handle says apart from its generation. *)
Abbreviation live := (bytes * ptr * option ptr)%type.

Inductive req_op :=
  | Register (oid : bytes) (class : option bytes) (chan addr : option ptr)
  | Lookup (oid : bytes)
  | Unregister (oid : bytes).

Inductive reg_ret := RetStatus (r : Z) | RetHandle (h : option live).

Definition live_of (h : O9Handle) : option live :=
  match h_chan h with Some c => Some (h_class h, c, h_addr h) | None => None end.

Definition reg_do (tab : reg_tab) (op : req_op) : reg_ret * reg_tab :=
  match op with
  | Register oid class chan addr =>
      let '(r, tab') := o9_registry_register true (Some oid) class chan addr tab in (RetStatus r, tab')
  | Lookup oid => (RetHandle ((o9_registry_lookup true (Some oid) tab).2 ≫= live_of), tab)
  | Unregister oid => let '(r, tab') := o9_registry_unregister true (Some oid) tab in (RetStatus r, tab')
  end.

Definition map_do (m : gmap bytes live) (op : req_op) : reg_ret * gmap bytes live :=
  match op with
  | Register oid class chan addr =>
      let k := strncpy 64 oid in
      if decide (cstr oid = []) then (RetStatus (-1), m)
      else if decide (size m = REG_MAX /\ m !! k = None) then (RetStatus (-1), m)
      else (RetStatus 0, match chan with
                         | Some c => <[k := (match class with Some c => strncpy 64 c | None => [] end, c, addr)]> m
                         | None => delete k m
                         end)
  | Lookup oid => (RetHandle (m !! strncpy 64 oid), m)
  | Unregister oid => (RetStatus 0, delete (strncpy 64 oid) m)
  end.

(** ** Lemmas *)

Lemma reg_scan_spec tab oid i freep :
  match reg_scan tab oid i freep with
  | (Some j, _) => exists h, i <= j /\ tab !! (j - i)%nat = Some h /\ h_oid h = oid
  | (None, f) => Forall (fun h => h_oid h <> oid) tab /\
      match freep with
      | Some x => f = Some x
      | None => match f with
                | Some j => exists h, i <= j /\ tab !! (j - i)%nat = Some h /\ h_chan h = None
                | None => Forall (fun h => h_chan h <> None) tab
                end
      end
  end%nat.
Proof.
  revert i freep. induction tab as [|h tab IH]; intros i freep; cbn [reg_scan].
  - split; [constructor|]. destruct freep; [done|constructor].
  - destruct (streq_spec (h_oid h) oid) as [E|E].
    { exists h. split; [lia|]. by rewrite Nat.sub_diag. }
    assert (Hshift : forall (j : nat) (P : O9Handle -> Prop), (exists h', S i <= j /\ tab !! (j - S i)%nat = Some h' /\ P h')%nat ->
      (exists h', i <= j /\ (h :: tab) !! (j - i)%nat = Some h' /\ P h')%nat).
    { intros j P (h' & Hle & Hl & HP). exists h'. split_and!; [lia| |done].
      by replace (j - i)%nat with (S (j - S i)) by lia. }
    set (f' := match freep with Some _ => freep | None => _ end). specialize (IH (S i) f').
    destruct (reg_scan tab oid (S i) f') as [[j|] f].
    + by apply (Hshift j (fun h' => h_oid h' = oid)).
    + destruct IH as [Hall Hf]. split; [by constructor|]. unfold f' in Hf. destruct freep as [x|]; [done|].
      destruct (h_chan h) eqn:Hc.
      * destruct f as [j|]; [by apply (Hshift j (fun h' => h_chan h' = None))|]. constructor; [by rewrite Hc|done].
      * subst f. exists h. split; [lia|]. by rewrite Nat.sub_diag.
Qed.

Definition entry_of (h : O9Handle) : option (bytes * live) :=
  match live_of h with Some v => Some (h_oid h, v) | None => None end.

Definition live_list (tab : reg_tab) : list (bytes * live) := omap entry_of tab.
Definition reg_map (tab : reg_tab) : gmap bytes live := list_to_map (live_list tab).
Abbreviation oids tab := (h_oid <$> tab).

Lemma live_list_sublist tab : (live_list tab).*1 `sublist_of` oids tab.
Proof.
  unfold live_list. induction tab as [|h tab IH]; csimpl; [done|]. unfold entry_of at 1.
  destruct (live_of h); csimpl; by constructor.
Qed.

Lemma live_list_nodup tab : NoDup (oids tab) -> NoDup (live_list tab).*1.
Proof. intros H. eapply sublist_NoDup; [exact H|apply live_list_sublist]. Qed.

Lemma reg_map_spec tab k v : NoDup (oids tab) ->
  reg_map tab !! k = Some v <-> exists i h, tab !! i = Some h /\ h_oid h = k /\ live_of h = Some v.
Proof.
  intros Hn. unfold reg_map. rewrite <- elem_of_list_to_map by (by apply live_list_nodup).
  unfold live_list. rewrite list_elem_of_omap. split.
  - intros (h & Hh & E). apply list_elem_of_lookup in Hh as [i Hi]. exists i, h. split; [done|].
    unfold entry_of in E. destruct (live_of h); by simplify_eq.
  - intros (i & h & Hi & <- & E). exists h. split; [by eapply list_elem_of_lookup_2|]. unfold entry_of. by rewrite E.
Qed.

Lemma reg_map_at tab i h : NoDup (oids tab) -> tab !! i = Some h -> reg_map tab !! h_oid h = live_of h.
Proof.
  intros Hn Hi. destruct (live_of h) as [v|] eqn:E; [apply reg_map_spec; eauto|].
  destruct (reg_map tab !! h_oid h) as [v|] eqn:E'; [|done].
  apply reg_map_spec in E' as (j & h' & Hj & Ho & Hl); [|done].
  assert (i = j); [|congruence]. apply (NoDup_lookup (oids tab) i j (h_oid h)); [done|..]; rewrite list_lookup_fmap.
  - by rewrite Hi.
  - rewrite Hj. simpl. by rewrite Ho.
Qed.

Lemma reg_map_absent tab k : NoDup (oids tab) -> Forall (fun h => h_oid h <> k) tab -> reg_map tab !! k = None.
Proof.
  intros Hn Hall. destruct (reg_map tab !! k) eqn:E; [|done].
  apply reg_map_spec in E as (i & h & Hi & Ho & _); [|done]. rewrite Forall_lookup in Hall. by destruct (Hall i h Hi).
Qed.

Definition put (k : bytes) (v : option live) (m : gmap bytes live) : gmap bytes live :=
  match v with Some v => <[k := v]> m | None => delete k m end.

Lemma put_lookup k v m k' : put k v m !! k' = if decide (k = k') then v else m !! k'.
Proof.
  unfold put. case_decide as E.
  - subst. destruct v; [by rewrite lookup_insert_eq|by rewrite lookup_delete_eq].
  - destruct v; [by rewrite lookup_insert_ne|by rewrite lookup_delete_ne].
Qed.

(** Overwriting an entry of the same oid, or a free one. *)
Lemma reg_map_update tab i h h' : NoDup (oids tab) -> tab !! i = Some h ->
  (h_oid h' = h_oid h \/ Forall (fun x => h_oid x <> h_oid h') tab /\ h_chan h = None) ->
  NoDup (oids (<[i := h']> tab)) /\ reg_map (<[i := h']> tab) = put (h_oid h') (live_of h') (reg_map tab).
Proof.
  intros Hn Hi Hcase. assert (Hlt : (i < length tab)%nat) by (by eapply lookup_lt_Some).
  assert (Hn' : NoDup (oids (<[i := h']> tab))).
  { rewrite list_fmap_insert. destruct Hcase as [E|[Hall _]].
    - rewrite E, list_insert_id; [done|]. by rewrite list_lookup_fmap, Hi.
    - apply NoDup_alt. intros a b x. rewrite !list_lookup_insert_Some, !length_fmap, !list_lookup_fmap.
      rewrite Forall_lookup in Hall.
      assert (Hno : forall j, h_oid <$> tab !! j <> Some (h_oid h')).
      { intros j (y & Hy & E)%fmap_Some. by destruct (Hall j y Hy). }
      intros [(-> & <- & _)|[? Ha]] [(-> & E & _)|[? Hb]]; try done.
      + by destruct (Hno b).
      + subst x. by destruct (Hno a).
      + apply (NoDup_lookup (oids tab) a b x); [done|..]; by rewrite list_lookup_fmap. }
  split; [done|]. apply map_eq. intros k. rewrite put_lookup. case_decide as E.
  - subst k. apply (reg_map_at _ i); [done|]. by apply list_lookup_insert_eq.
  - apply option_eq. intros v. rewrite !reg_map_spec by done. split.
    + intros (j & x & Hj & Ho & Hl). apply list_lookup_insert_Some in Hj as [(-> & <- & _)|[_ Hj]]; [done|]. eauto.
    + intros (j & x & Hj & Ho & Hl). exists j, x. split; [|done]. rewrite list_lookup_insert_ne; [done|].
      intros <-. rewrite Hi in Hj. injection Hj as <-. destruct Hcase as [E'|[_ Hc]]; [congruence|].
      unfold live_of in Hl. by rewrite Hc in Hl.
Qed.

Lemma reg_map_append tab h' : NoDup (oids tab) -> Forall (fun x => h_oid x <> h_oid h') tab ->
  NoDup (oids (tab ++ [h'])) /\ reg_map (tab ++ [h']) = put (h_oid h') (live_of h') (reg_map tab).
Proof.
  intros Hn Hall. assert (Hn' : NoDup (oids (tab ++ [h']))).
  { rewrite fmap_app. apply NoDup_app. split_and!; [done| |by apply NoDup_singleton].
    intros x (y & E & Hy)%list_elem_of_fmap Hx%list_elem_of_singleton. rewrite Forall_forall in Hall.
    destruct (Hall y Hy). congruence. }
  split; [done|]. apply map_eq. intros k. rewrite put_lookup. case_decide as E.
  - subst k. apply (reg_map_at _ (length tab)); [done|]. by apply list_lookup_middle.
  - apply option_eq. intros v. rewrite !reg_map_spec by done. split.
    + intros (j & x & Hj & Ho & Hl). apply lookup_snoc_Some in Hj as [[_ Hj]|[_ <-]]; [eauto|done].
    + intros (j & x & Hj & Ho & Hl). exists j, x. split; [|done]. by apply lookup_app_l_Some.
Qed.

(** The table is full of live handles exactly when the map has 256. *)
Lemma reg_map_size tab : NoDup (oids tab) -> size (reg_map tab) = length (live_list tab).
Proof. intros. unfold reg_map. apply map_size_list_to_map. by apply live_list_nodup. Qed.

Lemma live_list_cons h tab : live_list (h :: tab) =
  match h_chan h with Some c => (h_oid h, (h_class h, c, h_addr h)) :: live_list tab | None => live_list tab end.
Proof. unfold live_list. csimpl. unfold entry_of at 1, live_of. by destruct (h_chan h). Qed.

Lemma live_list_le tab : (length (live_list tab) <= length tab)%nat.
Proof. induction tab as [|h tab IH]; [done|]. rewrite live_list_cons. destruct (h_chan h); simpl; lia. Qed.

Lemma live_list_all tab : Forall (fun h => h_chan h <> None) tab -> length (live_list tab) = length tab.
Proof.
  induction 1 as [|h tab Hh _ IH]; [done|]. rewrite live_list_cons. destruct (h_chan h); [simpl; lia|done].
Qed.

Lemma live_list_free tab i h : tab !! i = Some h -> h_chan h = None -> (length (live_list tab) < length tab)%nat.
Proof.
  revert i. induction tab as [|x tab IH]; intros [|i] Hi Hh; [done..| |]; rewrite live_list_cons.
  - simpl in Hi. injection Hi as ->. rewrite Hh. pose proof (live_list_le tab). simpl. lia.
  - specialize (IH i Hi Hh). pose proof (live_list_le tab). destruct (h_chan x); simpl; lia.
Qed.

Definition refines (tab : reg_tab) (m : gmap bytes live) : Prop :=
  NoDup (oids tab) /\ (length tab <= REG_MAX)%nat /\ m = reg_map tab.

Lemma register_refines tab m oid class chan addr : refines tab m ->
  let p := reg_do tab (Register oid class chan addr) in
  let q := map_do m (Register oid class chan addr) in
  p.1 = q.1 /\ refines p.2 q.2.
Proof.
  intros (Hn & Hlen & ->). cbn [reg_do map_do]. unfold o9_registry_register.
  destruct (streq_spec (cstr oid) []) as [E|E]; [rewrite decide_True by done; done|].
  rewrite decide_False by done. set (k := strncpy 64 oid). set (cl := match class with Some c => _ | None => [] end).
  cbn [o9_registry_rpc]. unfold o9_registry_proc. cbn [h_oid h_class h_chan h_addr].
  pose proof (reg_scan_spec tab k 0 None) as Hscan. destruct (reg_scan tab k 0 None) as [[i|] f].
  - destruct Hscan as (h & _ & Hi & Ho). rewrite Nat.sub_0_r in Hi.
    set (h' := MkHandle k cl chan addr _). destruct (reg_map_update tab i h h' Hn Hi) as [H1 H2]; [by left|].
    assert (Hfull : ~ (size (reg_map tab) = REG_MAX /\ reg_map tab !! k = None)).
    { rewrite reg_map_size by done. intros [Hs Hk]. rewrite <- Ho, (reg_map_at tab i h Hn Hi) in Hk.
      unfold live_of in Hk. destruct (h_chan h) eqn:Hc; [done|].
      pose proof (live_list_free tab i h Hi Hc). lia. }
    rewrite decide_False by done. cbn [fst snd]. split; [done|]. split_and!; [done|by rewrite length_insert|].
    rewrite H2. by destruct chan.
  - destruct Hscan as [Hall Hf]. rewrite (reg_map_absent tab k Hn Hall).
    destruct (decide (length tab < REG_MAX)%nat) as [Hlt|Hge].
    + set (h' := MkHandle k cl chan addr _). rewrite insert_app_r_alt, Nat.sub_diag by lia. cbn [insert list_insert].
      destruct (reg_map_append tab h' Hn Hall) as [H1 H2].
      rewrite decide_False by (rewrite reg_map_size by done; pose proof (live_list_le tab); lia).
      cbn [fst snd]. split; [done|]. split_and!; [done|rewrite length_app; simpl; lia|]. rewrite H2. by destruct chan.
    + destruct f as [j|].
      * destruct Hf as (h & _ & Hj & Hc). rewrite Nat.sub_0_r in Hj. set (h' := MkHandle k cl chan addr _).
        destruct (reg_map_update tab j h h' Hn Hj) as [H1 H2]; [by right|].
        rewrite decide_False by (rewrite reg_map_size by done; pose proof (live_list_free tab j h Hj Hc); lia).
        cbn [fst snd]. split; [done|]. split_and!; [done|by rewrite length_insert|]. rewrite H2. by destruct chan.
      * rewrite decide_True; [done|]. rewrite reg_map_size, live_list_all by done. split; [lia|done].
Qed.

Lemma query_refines tab m op : refines tab m ->
  match op with Register _ _ _ _ => True | _ =>
    (reg_do tab op).1 = (map_do m op).1 /\ refines (reg_do tab op).2 (map_do m op).2 end.
Proof.
  intros (Hn & Hlen & ->). destruct op as [|oid|oid]; [done|..]; cbn [reg_do map_do];
    unfold o9_registry_lookup, o9_registry_unregister; cbn [o9_registry_rpc]; unfold o9_registry_proc;
    cbn [query h_oid]; set (k := strncpy 64 oid);
    pose proof (reg_scan_spec tab k 0 None) as Hscan; destruct (reg_scan tab k 0 None) as [[i|] f].
  - destruct Hscan as (h & _ & Hi & Ho). rewrite Nat.sub_0_r in Hi. split; [|done].
    rewrite <- Ho, (reg_map_at tab i h Hn Hi). unfold handle_at. rewrite Hi. change (default handle0 (Some h)) with h.
    destruct (h_chan h) as [c|] eqn:E; [done|]. unfold live_of. by rewrite E.
  - destruct Hscan as [Hall _]. split; [|done]. by rewrite (reg_map_absent tab k Hn Hall).
  - destruct Hscan as (h & _ & Hi & Ho). rewrite Nat.sub_0_r in Hi. unfold handle_at. rewrite Hi. change (default handle0 (Some h)) with h.
    set (h' := MkHandle _ _ _ _ _). destruct (reg_map_update tab i h h' Hn Hi) as [H1 H2]; [by left|].
    split; [done|]. split_and!; [done|simpl; by rewrite length_insert|]. simpl. rewrite H2. unfold h'. simpl. by rewrite Ho.
  - destruct Hscan as [Hall _]. split; [done|]. split_and!; [done..|]. simpl.
    by rewrite delete_id by (by apply reg_map_absent).
Qed.

(** The registry process answers every sequence of registers, lookups and
    unregisters as a map of at most 256 live handles does, keyed by the first
    63 bytes of the oid: it refuses a registration exactly when 256 other
    handles are live, although the table keeps the oids of dead ones. *)
Theorem registry_refines_map (ops : list req_op) :
  (trace reg_do [] ops).1 = (trace map_do ∅ ops).1 /\
  refines (trace reg_do [] ops).2 (trace map_do ∅ ops).2.
Proof.
  apply (trace_refines reg_do map_do refines).
  - intros tab m op HR. destruct op; [by apply register_refines|by apply (query_refines tab m (Lookup oid))|
      by apply (query_refines tab m (Unregister oid))].
  - split_and!; [constructor|simpl; lia|done].
Qed.

(** ** Generations *)

Fixpoint regs (oids : list bytes) (tab : reg_tab) : reg_tab :=
  match oids with
  | [] => tab
  | o :: oids' => regs oids' (o9_registry_register true (Some o) None (Some 1%positive) None tab).2
  end.

Definition others (n : nat) : list bytes := (fun i => [to_byte (Z.of_nat i); x01]) <$> seq 1 n.

(** A slot that another oid took over keeps counting its own registrations:
    an object that moves to another slot can get a generation that it had
    before, and a handle kept from then looks current. *)
Lemma generation_reused :
  let a := str "a" in
  let b := str "b" in
  let tab1 := regs (a :: a :: others 255) [] in
  let tab2 := (o9_registry_unregister true (Some a) tab1).2 in
  let tab3 := regs [b] tab2 in
  let tab4 := (o9_registry_unregister true (Some [x01; x01]) tab3).2 in
  let tab5 := regs [a] tab4 in
  o9_registry_get_gen true (Some a) tab1 = 2 /\
  o9_registry_get_gen true (Some a) tab2 = 0 /\
  o9_registry_get_gen true (Some a) tab5 = 2.
Proof. vm_compute. done. Qed.
