(* ===== verification/Pending.v ===== *)
(** * Replies of actor calls: tasks, synchronous waits, the pending table and
    the reaper ([o9_task_*], [o9_sync_*], [o9_pending_*], [o9_reaper_proc],
    [o9_msg_reply] in [o9_runtime.c])

    Every call owns a reply channel with a buffer of one, inside an [O9Task]
    (spawn) or an [O9SyncWait] (call), counted by references.  Call [k] names
    that object, its channel and the processes that handle it: its caller,
    its actor and the reaper.  Each locked region, each channel operation and
    each counter operation is one transition; [event]s say which process
    moves, and [run] follows them.  Allocation succeeds. *)
From S2P Require Import Prelude.

Open Scope Z_scope.

Abbreviation ptr := positive.
Abbreviation call_id := nat.

Definition O9_MAX_PENDING : nat := 512.

(** ** The pending table *)

Record O9Pending := MkPend {
  pe_active : bool; pe_started : bool; pe_one_shot : bool; pe_tid : Z;
  pe_replyc : option call_id; pe_dispatch_chan : option ptr; pe_inst : option ptr;
  pe_task : option call_id; pe_sync : option call_id }.

Definition pending0 : O9Pending := MkPend false false false 0 None None None None None.
Definition pend_tab0 : list O9Pending := replicate O9_MAX_PENDING pending0.

(** [one_shot] survives the clearing of an entry. *)
Definition pending_clear (p : O9Pending) : O9Pending :=
  MkPend false false (pe_one_shot p) 0 None None None None None.

(** The slot [o9_pending_register] fills, or [-1]; [ctid] is
    [o9_tid_for_chan(dispatch_chan)]. *)
Definition o9_pending_register (ctid tid : Z) (replyc : option call_id) (dispatch_chan inst : option ptr)
    (one_shot : bool) (task sync : option call_id) (tab : list O9Pending) : Z * list O9Pending :=
  match replyc with
  | None => (-1, tab)
  | Some _ =>
      let '(tid, started) := if decide (0 < ctid) then (ctid, true) else (tid, false) in
      match list_find (fun p => pe_active p = false) tab with
      | Some (i, _) =>
          (Z.of_nat i, <[i := MkPend true started one_shot tid replyc dispatch_chan inst task sync]> tab)
      | None => (-1, tab)
      end
  end.

Definition o9_pending_take (replyc : option call_id) (tab : list O9Pending)
    : (option call_id * option call_id) * list O9Pending :=
  match replyc with
  | None => ((None, None), tab)
  | Some k =>
      match list_find (fun p => pe_active p = true /\ pe_replyc p = Some k) tab with
      | Some (i, p) => ((pe_task p, pe_sync p), <[i := pending_clear p]> tab)
      | None => ((None, None), tab)
      end
  end.

(** One pass of the reaper over the table, to the first entry whose thread is
    gone: the entry as it was, and its thread.  [tid_for_chan] and
    [threadpid] answer for the actor table and the thread library. *)
Section reaper.
Variable tid_for_chan : option ptr -> Z.
Variable threadpid : Z -> Z.

(** What the pass makes of an active entry: its thread, or 0 while unknown. *)
Definition reaper_look (p : O9Pending) : Z * O9Pending :=
  let tid := tid_for_chan (pe_dispatch_chan p) in
  if decide (0 < tid) then
    (tid, MkPend (pe_active p) true (pe_one_shot p) tid (pe_replyc p) (pe_dispatch_chan p) (pe_inst p)
            (pe_task p) (pe_sync p))
  else if pe_started p || bool_decide (pe_tid p < 0) then (pe_tid p, p)
  else (0, p).

Definition tid_dead (tid : Z) : bool :=
  bool_decide (tid < 0) || (bool_decide (0 < tid) && bool_decide (threadpid tid < 0)).

Fixpoint reaper_scan (tab : list O9Pending) : option (O9Pending * Z) * list O9Pending :=
  match tab with
  | [] => (None, [])
  | p :: tab' =>
      if pe_active p then
        let '(tid, p') := reaper_look p in
        if tid_dead tid then (Some (p', tid), pending_clear p' :: tab')
        else let '(r, tab'') := reaper_scan tab' in (r, p' :: tab'')
      else let '(r, tab'') := reaper_scan tab' in (r, p :: tab'')
  end.

(** The other calls to the same actor learn its thread. *)
Definition reaper_share (chan : option ptr) (tid : Z) (tab : list O9Pending) : list O9Pending :=
  match chan with
  | None => tab
  | Some c =>
      if decide (0 < tid) then
        (fun p => if pe_active p && bool_decide (pe_dispatch_chan p = Some c) then
            MkPend (pe_active p) true (pe_one_shot p) tid (pe_replyc p) (pe_dispatch_chan p) (pe_inst p)
              (pe_task p) (pe_sync p)
          else p) <$> tab
      else tab
  end.

Definition o9_reaper_pass (tab : list O9Pending) : option O9Pending * list O9Pending :=
  match reaper_scan tab with
  | (Some (p, tid), tab') => (Some p, reaper_share (pe_dispatch_chan p) tid tab')
  | (None, tab') => (None, tab')
  end.
End reaper.

(** ** Calls *)

(** A reply, by who sent it. *)
Inductive reply := FromActor (err : option bytes) | FromReaper.

Inductive caller_pc :=
  | CReg                  (* before o9_pending_register *)
  | CSend                 (* before sendp to the dispatch channel *)
  | CWait                 (* in recvp on the reply channel, or holding a task *)
  | CComplete             (* before o9_pending_complete (calls only) *)
  | CHold                 (* pending_complete took the table's reference *)
  | CClose                (* before its own release *)
  | CDone.

Inductive actor_pc :=
  | ANone                 (* the message is not sent *)
  | AQueued               (* the actor has the message *)
  | ASend (held : bool)   (* o9_msg_reply took the entry, or found none *)
  | ARel                  (* before the release of what it took *)
  | ADone
  | ADead.                (* the actor exited before it answered *)

Inductive reaper_pc := RNone | RSend | RRel | RDone.

Record call := MkCall {
  k_task : bool;          (* an O9Task; otherwise an O9SyncWait *)
  k_chan : ptr;           (* the actor's dispatch channel *)
  k_ref : Z; k_freed : bool;
  k_buf : list reply;     (* the reply channel *)
  k_reply : option reply; (* what the caller received *)
  k_reg : bool;           (* the pending table had room *)
  k_sent : nat;           (* replies sent so far *)
  k_caller : caller_pc; k_actor : actor_pc; k_reaper : reaper_pc }.

Record state := MkState { s_calls : list call; s_pend : list O9Pending; s_dead : list ptr }.

Definition state0 : state := MkState [] pend_tab0 [].

(** [o9_task_new] and [o9_sync_new]. *)
Definition o9_task_new (chan : ptr) : call := MkCall true chan 2 false [] None false 0 CReg ANone RNone.
Definition o9_sync_new (chan : ptr) : call := MkCall false chan 1 false [] None false 0 CReg ANone RNone.

Definition set_ref r f b c := MkCall (k_task c) (k_chan c) r f b (k_reply c) (k_reg c) (k_sent c) (k_caller c) (k_actor c) (k_reaper c).
Definition set_caller pc c := MkCall (k_task c) (k_chan c) (k_ref c) (k_freed c) (k_buf c) (k_reply c) (k_reg c) (k_sent c) pc (k_actor c) (k_reaper c).
Definition set_actor pc c := MkCall (k_task c) (k_chan c) (k_ref c) (k_freed c) (k_buf c) (k_reply c) (k_reg c) (k_sent c) (k_caller c) pc (k_reaper c).
Definition set_reaper pc c := MkCall (k_task c) (k_chan c) (k_ref c) (k_freed c) (k_buf c) (k_reply c) (k_reg c) (k_sent c) (k_caller c) (k_actor c) pc.
Definition set_reg b c := MkCall (k_task c) (k_chan c) (k_ref c) (k_freed c) (k_buf c) (k_reply c) b (k_sent c) (k_caller c) (k_actor c) (k_reaper c).
Definition set_recv r b c := MkCall (k_task c) (k_chan c) (k_ref c) (k_freed c) b (Some r) (k_reg c) (k_sent c) (k_caller c) (k_actor c) (k_reaper c).
Definition set_send r c := MkCall (k_task c) (k_chan c) (k_ref c) (k_freed c) (k_buf c ++ [r]) (k_reply c) (k_reg c) (S (k_sent c)) (k_caller c) (k_actor c) (k_reaper c).

(** [o9_sync_retain] *)
Definition o9_sync_retain (c : call) : call := set_ref (k_ref c + 1) (k_freed c) (k_buf c) c.

(** [o9_task_close] and [o9_sync_release]: the last reference drains and
    frees the channel. *)
Definition o9_release (c : call) : call :=
  if decide (k_ref c - 1 = 0) then set_ref 0 true [] c else set_ref (k_ref c - 1) (k_freed c) (k_buf c) c.

Inductive event :=
  | ECall (task : bool) (chan : ptr)
  | ECaller (k : call_id) (ctid tid : Z) (ok : bool)   (* ok: what sendp answers *)
  | EDrop (k : call_id)                                (* a task is closed without an await *)
  | EActor (k : call_id) (err : option bytes)
  | EExit (chan : ptr)                                 (* an actor's thread ends *)
  | EReaper (tid_for_chan : option ptr -> Z) (threadpid : Z -> Z)
  | EReap (k : call_id).                               (* the reaper finishes what it took *)

Definition upd (k : call_id) (f : call -> call) (s : state) : state :=
  MkState (alter f k (s_calls s)) (s_pend s) (s_dead s).
Definition set_pend (t : list O9Pending) (s : state) : state := MkState (s_calls s) t (s_dead s).

(** The registration of a call; a call that finds the table full gives its
    extra reference back, and a synchronous one is not sent. *)
Definition register_step (k : call_id) (c : call) (ctid tid : Z) (s : state) : state :=
  let task := if k_task c then Some k else None in
  let sync := if k_task c then None else Some k in
  let retain := if k_task c then id else o9_sync_retain in
  let '(slot, tab) := o9_pending_register ctid tid (Some k) (Some (k_chan c)) None (k_task c) task sync (s_pend s) in
  if decide (slot < 0)
  then upd k (fun c => set_caller (if k_task c then CSend else CClose) (o9_release (retain c))) s
  else set_pend tab (upd k (fun c => set_reg true (set_caller CSend (retain c))) s).

(** One step of the caller ([obj9_msgSendN] for calls, spawn and
    [o9_task_take] for tasks). *)
Definition caller_step (k : call_id) (c : call) (ctid tid : Z) (ok : bool) (s : state) : option state :=
  match k_caller c with
  | CReg => Some (register_step k c ctid tid s)
  | CSend =>
      if ok then Some (upd k (fun c => set_actor (if decide (k_chan c ∈ s_dead s) then ADead else AQueued)
                                         (set_caller CWait c)) s)
      else Some (upd k (set_caller (if k_task c then CWait else CComplete)) s)
  | CWait =>
      match k_buf c with
      | [] => None
      | r :: b => Some (upd k (fun c => set_caller (if k_task c then CClose else CComplete) (set_recv r b c)) s)
      end
  | CComplete =>
      let '((task, sync), tab) := o9_pending_take (Some k) (s_pend s) in
      Some (set_pend tab (upd k (set_caller (match task, sync with None, None => CClose | _, _ => CHold end)) s))
  | CHold => Some (upd k (fun c => set_caller CClose (o9_release c)) s)
  | CClose => Some (upd k (fun c => set_caller CDone (o9_release c)) s)
  | CDone => None
  end.

(** One step of the actor in [o9_msg_reply]; the send waits for room. *)
Definition actor_step (k : call_id) (c : call) (err : option bytes) (s : state) : option state :=
  match k_actor c with
  | AQueued =>
      let '((task, sync), tab) := o9_pending_take (Some k) (s_pend s) in
      Some (set_pend tab (upd k (set_actor (ASend (match task, sync with None, None => false | _, _ => true end))) s))
  | ASend held =>
      match k_buf c with
      | [] => Some (upd k (fun c => set_actor (if held then ARel else ADone) (set_send (FromActor err) c)) s)
      | _ => None
      end
  | ARel => Some (upd k (fun c => set_actor ADone (o9_release c)) s)
  | ANone | ADone | ADead => None
  end.

(** The actor is inside [o9_msg_reply]. *)
Definition in_reply (c : call) : bool := match k_actor c with ASend _ | ARel => true | _ => false end.

(** An actor ends outside [o9_msg_reply]; its unanswered messages die. *)
Definition exit_step (chan : ptr) (s : state) : option state :=
  if forallb (fun c => negb (bool_decide (k_chan c = chan) && in_reply c)) (s_calls s)
  then Some (MkState ((fun c => if decide (k_chan c = chan) then
                                  match k_actor c with AQueued => set_actor ADead c | _ => c end else c) <$> s_calls s)
               (s_pend s) (chan :: s_dead s))
  else None.

(** The reaper takes an entry; the thread library tells the truth: a thread
    that it declares gone has ended. *)
Definition reaper_step (tid_for_chan : option ptr -> Z) (threadpid : Z -> Z) (s : state) : option state :=
  let '(r, tab) := o9_reaper_pass tid_for_chan threadpid (s_pend s) in
  match r with
  | None => Some (set_pend tab s)
  | Some p =>
      match pe_dispatch_chan p, pe_replyc p with
      | Some c, Some k => if decide (c ∈ s_dead s) then Some (set_pend tab (upd k (set_reaper RSend) s)) else None
      | _, _ => None
      end
  end.

Definition reap_step (k : call_id) (c : call) (s : state) : option state :=
  match k_reaper c with
  | RSend => Some (upd k (fun c => set_reaper RRel (match k_buf c with [] => set_send FromReaper c | _ => c end)) s)
  | RRel => Some (upd k (fun c => set_reaper RDone (o9_release c)) s)
  | RNone | RDone => None
  end.

Definition step (ev : event) (s : state) : option state :=
  match ev with
  | ECall task chan => Some (MkState (s_calls s ++ [if task then o9_task_new chan else o9_sync_new chan]) (s_pend s) (s_dead s))
  | ECaller k ctid tid ok => c ← s_calls s !! k; caller_step k c ctid tid ok s
  | EDrop k =>
      c ← s_calls s !! k;
      match k_caller c with CWait => if k_task c then Some (upd k (set_caller CClose) s) else None | _ => None end
  | EActor k err => c ← s_calls s !! k; actor_step k c err s
  | EExit chan => exit_step chan s
  | EReaper f g => reaper_step f g s
  | EReap k => c ← s_calls s !! k; reap_step k c s
  end.

Fixpoint run (evs : list event) (s : state) : option state :=
  match evs with
  | [] => Some s
  | ev :: evs' => s' ← step ev s; run evs' s'
  end.

