(* ===== verification/PendingInv.v ===== *)
(** * One call through the pending table: its positions and its references

    What is true of a call at every position of its caller, its actor and the
    reaper, and that every transition of [Pending] on one call keeps it. *)
From S2P Require Import Prelude Pending.

Open Scope Z_scope.

(** ** Invariant *)

(** The entries of a call. *)
Definition is_slot (k : call_id) (p : O9Pending) : bool := pe_active p && bool_decide (pe_replyc p = Some k).

Definition slots (k : call_id) (tab : list O9Pending) : nat :=
  sum_list_with (fun p => if is_slot k p then 1%nat else 0%nat) tab.

Definition caller_refs (c : call) : Z :=
  match k_caller c with
  | CReg => if k_task c then 2 else 1
  | CHold => 2
  | CDone => 0
  | _ => 1
  end.

(** The references that are out: the caller's, the table's, the actor's, the
    reaper's. *)
Definition refs (n : nat) (c : call) : Z :=
  caller_refs c + Z.of_nat n
  + match k_actor c with ASend true | ARel => 1 | _ => 0 end
  + match k_reaper c with RSend | RRel => 1 | _ => 0 end.

Definition fresh (c : call) : bool :=
  (k_sent c =? 0)%nat && (length (k_buf c) =? 0)%nat && match k_reply c with None => true | Some _ => false end.
Definition full (c : call) : bool :=
  (length (k_buf c) =? 1)%nat && match k_reply c with None => true | Some _ => false end.
Definition got (c : call) : bool := match k_reply c with None => false | Some _ => true end.

(** A registered call with [n] entries: in the table, or taken by the actor,
    the reaper or (after a failed send) the caller. *)
Definition registered_ok (n : nat) (dead : bool) (c : call) : bool :=
  match n, k_reaper c, k_actor c with
  | 1%nat, RNone, ANone =>
      fresh c && match k_caller c with
                 | CSend => true | CComplete => negb (k_task c) | CWait | CClose | CDone => k_task c | _ => false
                 end
  | 1%nat, RNone, AQueued =>
      fresh c && negb dead && match k_caller c with CWait => true | CClose | CDone => k_task c | _ => false end
  | 1%nat, RNone, ADead =>
      fresh c && dead && match k_caller c with CWait => true | CClose | CDone => k_task c | _ => false end
  | 0%nat, RNone, ASend true =>
      fresh c && match k_caller c with CWait => true | CClose | CDone => k_task c | _ => false end
  | 0%nat, RNone, (ARel | ADone) =>
      (k_sent c =? 1)%nat &&
      match k_caller c with
      | CWait => full c
      | CComplete => negb (k_task c) && got c
      | CClose | CDone => k_task c || got c
      | _ => false
      end
  | 0%nat, RNone, ANone =>
      fresh c && negb (k_task c) && match k_caller c with CHold | CClose | CDone => true | _ => false end
  | 0%nat, RSend, (ANone | ADead) =>
      dead && fresh c && match k_caller c with CReg | CHold => false | CComplete => negb (k_task c) | _ => true end
  | 0%nat, (RRel | RDone), (ANone | ADead) =>
      dead && (k_sent c =? 1)%nat &&
      match k_caller c with
      | CSend | CWait => full c
      | CComplete => negb (k_task c)
      | CClose | CDone => true
      | _ => false
      end
  | _, _, _ => false
  end.

(** A call the table had no room for, or that is not registered yet. *)
Definition unregistered_ok (n : nat) (c : call) : bool :=
  match n, k_reaper c, k_actor c with
  | 0%nat, RNone, ANone =>
      fresh c && match k_caller c with CReg | CClose | CDone => true | CSend | CWait => k_task c | _ => false end
  | 0%nat, RNone, (AQueued | ADead | ASend false | ADone) =>
      k_task c && match k_caller c with CWait | CClose | CDone => true | _ => false end
  | _, _, _ => false
  end.

Definition call_ok (n : nat) (dead : bool) (c : call) : Prop :=
  k_ref c = refs n c /\ k_freed c = bool_decide (k_ref c = 0) /\
  (if k_reg c then registered_ok n dead c else unregistered_ok n c) = true.

(** ** The transitions of one call *)

(** Runs through the positions that the invariant allows, and computes. *)
Ltac positions c H :=
  destruct c as [task chan ref fr buf reply reg sent caller actor reaper];
  destruct H as (Href & Hfr & H); cbn in Href, Hfr, H; subst fr;
  repeat match goal with
  | E : k_caller _ = _ |- _ => cbn in E; subst caller
  | E : k_actor _ = _ |- _ => cbn in E; subst actor
  | E : k_reaper _ = _ |- _ => cbn in E; subst reaper
  | E : k_reg _ = _ |- _ => cbn in E; subst reg
  | E : k_task _ = _ |- _ => cbn in E; subst task
  | E : k_buf _ = _ |- _ => cbn in E; subst buf
  end;
  try (destruct reg); try (destruct reaper; try discriminate H);
  (try (destruct actor as [| |[]| | |]; try discriminate H));
  (try (destruct caller; try (cbn in H; rewrite ?andb_false_r in H; discriminate H)));
  (try (destruct sent as [|[|sent]]; cbn in H; try discriminate H));
  (try (destruct buf as [|? [|? buf]]; cbn in H; try discriminate H));
  (try (destruct reply; cbn in H; try discriminate H));
  (try (destruct task; cbn in H; try discriminate H));
  vm_compute in Href; subst ref.

Ltac arrive := unfold call_ok; split_and!; reflexivity.

Lemma start_ok task chan dead : call_ok 0 dead (if task : bool then o9_task_new chan else o9_sync_new chan).
Proof. by destruct task. Qed.

Lemma send_ok n (dead : bool) c : (n <= 1)%nat -> call_ok n dead c -> k_caller c = CSend ->
  call_ok n dead (set_actor (if dead then ADead else AQueued) (set_caller CWait c)) /\
  call_ok n dead (set_caller (if k_task c then CWait else CComplete) c).
Proof.
  intros Hn H Hc. destruct n as [|[|n]]; [..|lia]; destruct dead; positions c H; split; arrive.
Qed.

Lemma slots_le n dead c : call_ok n dead c -> (n <= 1)%nat.
Proof.
  intros (_ & _ & H). destruct n as [|[|n]]; [lia..|]. by destruct (k_reg c).
Qed.

(** Case analysis on the number of entries and on the life of the actor. *)
Ltac by_positions n dead c H :=
  pose proof (slots_le n dead c H) as Hn; destruct n as [|[|n]]; [..|lia];
  destruct dead; positions c H; try arrive.

Lemma reg_call_ok dead c : call_ok 0 dead c -> k_caller c = CReg ->
  let c' := if k_task c then c else o9_sync_retain c in
  call_ok 1 dead (set_reg true (set_caller CSend c')) /\
  call_ok 0 dead (set_caller (if k_task c then CSend else CClose) (o9_release c')).
Proof. intros H Hc. destruct dead; positions c H; split; arrive. Qed.

Lemma unregistered_slots n dead c : call_ok n dead c -> k_caller c = CReg -> n = 0%nat.
Proof.
  intros H Hc. pose proof (slots_le n dead c H). destruct n as [|[|n]]; [done|..|lia].
  destruct dead; positions c H.
Qed.

Lemma recv_ok n dead c r b : call_ok n dead c -> k_caller c = CWait -> k_buf c = r :: b ->
  call_ok n dead (set_caller (if k_task c then CClose else CComplete) (set_recv r b c)).
Proof. intros H Hc Hb. by_positions n dead c H. Qed.

Lemma complete_ok n dead c : call_ok n dead c -> k_caller c = CComplete ->
  call_ok 0 dead (set_caller (if decide (n = 0%nat) then CClose else CHold) c).
Proof. intros H Hc. by_positions n dead c H. Qed.

Lemma hold_ok n dead c : call_ok n dead c -> k_caller c = CHold -> call_ok n dead (set_caller CClose (o9_release c)).
Proof. intros H Hc. by_positions n dead c H. Qed.

Lemma close_ok n dead c : call_ok n dead c -> k_caller c = CClose -> call_ok n dead (set_caller CDone (o9_release c)).
Proof. intros H Hc. by_positions n dead c H. Qed.

Lemma drop_ok n dead c : call_ok n dead c -> k_caller c = CWait -> k_task c = true ->
  call_ok n dead (set_caller CClose c).
Proof. intros H Hc Ht. by_positions n dead c H. Qed.

Lemma take_ok n dead c : call_ok n dead c -> k_actor c = AQueued ->
  call_ok 0 dead (set_actor (ASend (if decide (n = 0%nat) then false else true)) c).
Proof. intros H Ha. by_positions n dead c H. Qed.

Lemma reply_ok n dead c held err : call_ok n dead c -> k_actor c = ASend held -> k_buf c = [] ->
  call_ok n dead (set_actor (if held then ARel else ADone) (set_send (FromActor err) c)).
Proof. intros H Ha Hb. destruct held; by_positions n dead c H. Qed.

Lemma rel_ok n dead c : call_ok n dead c -> k_actor c = ARel -> call_ok n dead (set_actor ADone (o9_release c)).
Proof. intros H Ha. by_positions n dead c H. Qed.

Lemma exit_ok n dead c : call_ok n dead c -> in_reply c = false ->
  call_ok n true (match k_actor c with AQueued => set_actor ADead c | _ => c end).
Proof. unfold in_reply. intros H Ha. by_positions n dead c H. Qed.

Lemma reap_take_ok n c : call_ok (S n) true c -> call_ok n true (set_reaper RSend c) /\ k_reg c = true.
Proof.
  intros H. pose proof (slots_le _ _ _ H). destruct n as [|n]; [|lia]. positions c H; split; try done; arrive.
Qed.

Lemma reap_send_ok n dead c : call_ok n dead c -> k_reaper c = RSend ->
  call_ok n dead (set_reaper RRel (match k_buf c with [] => set_send FromReaper c | _ => c end)).
Proof. intros H Hr. by_positions n dead c H. Qed.

Lemma reap_rel_ok n dead c : call_ok n dead c -> k_reaper c = RRel -> call_ok n dead (set_reaper RDone (o9_release c)).
Proof. intros H Hr. by_positions n dead c H. Qed.

