(* ===== verification/PendingSpec.v ===== *)
(** * Every call is answered once, and its channel outlives its users

    The pending table and the reaper keep the invariant of [PendingInv] for
    every call, over every interleaving. *)
From S2P Require Import Prelude Pending PendingInv.

Open Scope Z_scope.

(** ** The table *)

Lemma slots_insert k tab i p p' : tab !! i = Some p ->
  (slots k (<[i := p']> tab) + (if is_slot k p then 1 else 0) = slots k tab + (if is_slot k p' then 1 else 0))%nat.
Proof. intros Hi. exact (sum_list_insert (fun p => if is_slot k p then 1%nat else 0%nat) tab i p p' Hi). Qed.

(** An update keeps what an entry says about its call, or frees it. *)
Definition same_entry (p p' : O9Pending) : Prop :=
  pe_active p' = true ->
  pe_active p = true /\ pe_replyc p' = pe_replyc p /\ pe_dispatch_chan p' = pe_dispatch_chan p /\
  pe_task p' = pe_task p /\ pe_sync p' = pe_sync p.

Lemma same_entry_refl p : same_entry p p.
Proof. done. Qed.

Lemma same_entries_insert (tab : list O9Pending) i p p' : tab !! i = Some p -> same_entry p p' ->
  Forall2 same_entry tab (<[i := p']> tab).
Proof.
  intros Hi Hp. apply Forall2_same_length_lookup_2; [by rewrite length_insert|].
  intros j x y Hx Hy. apply list_lookup_insert_Some in Hy as [(-> & <- & _)|[_ Hy]].
  { rewrite Hi in Hx. by injection Hx as <-. }
  rewrite Hx in Hy. by injection Hy as <-.
Qed.

Lemma take_spec k tab :
  match o9_pending_take (Some k) tab with
  | (ts, tab') =>
      Forall2 same_entry tab tab' /\
      ((slots k tab = 0%nat /\ tab' = tab /\ ts = (None, None)) \/
       (exists p, p ∈ tab /\ is_slot k p = true /\ ts = (pe_task p, pe_sync p)) /\
       forall k', (slots k' tab' + (if decide (k = k') then 1 else 0) = slots k' tab)%nat)
  end.
Proof.
  unfold o9_pending_take. destruct (list_find _ _) as [[i p]|] eqn:E.
  - apply list_find_Some in E as (Hi & [Ha Hk] & _).
    split; [by eapply same_entries_insert|]. right.
    assert (Hs : is_slot k p = true) by (unfold is_slot; rewrite Ha, Hk; by rewrite bool_decide_true).
    split; [exists p; split_and!; [by eapply list_elem_of_lookup_2|done..]|].
    intros k'. pose proof (slots_insert k' tab i p (pending_clear p) Hi) as H.
    assert (Hs' : is_slot k' p = bool_decide (k = k')).
    { unfold is_slot. rewrite Ha, Hk. simpl. apply bool_decide_ext. naive_solver. }
    rewrite Hs' in H. change (is_slot k' (pending_clear p)) with false in H.
    case_bool_decide; case_decide; done || lia.
  - apply list_find_None in E. split; [apply Forall2_same_length_lookup_2; [done|]; intros; simplify_eq; apply same_entry_refl|].
    left. split_and!; [|done..]. unfold slots. induction E as [|p tab Hp _ IH]; [done|]. simpl. rewrite IH.
    unfold is_slot. destruct (pe_active p) eqn:Ha; [|done]. simpl.
    rewrite bool_decide_false; [done|]. intros Hk. by apply Hp.
Qed.

Lemma register_spec ctid tid k chan inst os task sync tab :
  let '(slot, tab') := o9_pending_register ctid tid (Some k) chan inst os task sync tab in
  if decide (slot < 0) then tab' = tab
  else (forall k', slots k' tab' = slots k' tab + (if decide (k = k') then 1 else 0))%nat /\
    forall p', p' ∈ tab' -> pe_active p' = true -> p' ∈ tab \/
      (pe_replyc p' = Some k /\ pe_dispatch_chan p' = chan /\ pe_task p' = task /\ pe_sync p' = sync).
Proof.
  unfold o9_pending_register. set (q := if decide (0 < ctid) then _ else _). destruct q as [tid' st].
  destruct (list_find _ _) as [[i p]|] eqn:E; [|done].
  rewrite decide_False by lia. apply list_find_Some in E as (Hi & Ha & _). set (p' := MkPend _ _ _ _ _ _ _ _ _).
  split.
  - intros k'. pose proof (slots_insert k' tab i p p' Hi) as H.
    assert (Hp : is_slot k' p = false) by (unfold is_slot; by rewrite Ha).
    assert (Hp' : is_slot k' p' = bool_decide (k = k')).
    { unfold is_slot, p'. simpl. apply bool_decide_ext. naive_solver. }
    rewrite Hp, Hp' in H. case_bool_decide; case_decide; done || lia.
  - intros x Hx Hact. apply list_elem_of_lookup in Hx as [j Hj].
    apply list_lookup_insert_Some in Hj as [(-> & <- & _)|[_ Hj]]; [by right|].
    left. by eapply list_elem_of_lookup_2.
Qed.

Section pass.
Variable tid_for_chan : option ptr -> Z.
Variable threadpid : Z -> Z.

Lemma look_same p : same_entry p (reaper_look tid_for_chan p).2 /\
  forall k, is_slot k (reaper_look tid_for_chan p).2 = is_slot k p.
Proof. unfold reaper_look. case_decide; [done|]. by destruct (_ || _). Qed.

Lemma scan_spec tab :
  match reaper_scan tid_for_chan threadpid tab with
  | (r, tab') =>
      Forall2 same_entry tab tab' /\
      match r with
      | None => forall k, slots k tab' = slots k tab
      | Some (p, _) => pe_active p = true /\ (exists p0, p0 ∈ tab /\ same_entry p0 p) /\
          forall k, (slots k tab' + (if is_slot k p then 1 else 0) = slots k tab)%nat
      end
  end.
Proof.
  induction tab as [|p tab IH]; [done|]. cbn [reaper_scan]. destruct (pe_active p) eqn:Ha.
  - destruct (look_same p) as [Hs Hk]. destruct (reaper_look tid_for_chan p) as [tid p'] eqn:El.
    simpl in Hs, Hk. destruct (tid_dead threadpid tid).
    + assert (Ha' : pe_active p' = true).
      { unfold reaper_look in El. case_decide; [by simplify_eq/=|]. destruct (_ || _); by simplify_eq/=. }
      split; [constructor; [done|]; apply Forall2_same_length_lookup_2; [done|]; intros; simplify_eq; apply same_entry_refl|].
      split_and!; [done|exists p; split; [apply elem_of_cons; by left|done]|].
      intros k. unfold slots. cbn [sum_list_with]. rewrite Hk. change (is_slot k (pending_clear p')) with false.
      destruct (is_slot k p); lia.
    + destruct (reaper_scan _ _ tab) as [r tab']. destruct IH as [IH1 IH2].
      split; [by constructor|]. destruct r as [[q tid']|].
      * destruct IH2 as (? & (p0 & ? & ?) & Hq). split_and!; [done|exists p0; split; [apply elem_of_cons; by right|done]|].
        intros k. specialize (Hq k). unfold slots in *. cbn [sum_list_with]. rewrite Hk. lia.
      * intros k. specialize (IH2 k). unfold slots in *. cbn [sum_list_with]. rewrite Hk. lia.
  - destruct (reaper_scan _ _ tab) as [r tab']. destruct IH as [IH1 IH2].
    split; [by constructor|]. destruct r as [[q tid']|].
    + destruct IH2 as (? & (p0 & ? & ?) & Hq). split_and!; [done|exists p0; split; [apply elem_of_cons; by right|done]|].
      intros k. specialize (Hq k). unfold slots in *. cbn [sum_list_with]. lia.
    + intros k. specialize (IH2 k). unfold slots in *. cbn [sum_list_with]. lia.
Qed.

Lemma share_spec chan tid tab : Forall2 same_entry tab (reaper_share chan tid tab) /\
  forall k, slots k (reaper_share chan tid tab) = slots k tab.
Proof.
  unfold reaper_share. destruct chan as [c|]; [case_decide|].
  2,3: split; [apply Forall2_same_length_lookup_2; [done|]; intros; simplify_eq; apply same_entry_refl|done].
  set (f := fun p : O9Pending => _). assert (Hf : forall p, same_entry p (f p) /\ forall k, is_slot k (f p) = is_slot k p).
  { intros p. unfold f. by destruct (_ && _). }
  split.
  - apply Forall2_fmap_r, Forall2_same_length_lookup_2; [done|]. intros i x y Hx Hy. simplify_eq. apply Hf.
  - intros k. unfold slots. induction tab as [|p tab IH]; csimpl; [done|]. destruct (Hf p) as [_ Hp]. by rewrite Hp, IH.
Qed.

Lemma same_entries_trans (l1 l2 l3 : list O9Pending) :
  Forall2 same_entry l1 l2 -> Forall2 same_entry l2 l3 -> Forall2 same_entry l1 l3.
Proof.
  intros H. revert l3. induction H as [|x y l1 l2 Hxy _ IH]; intros l3 H3; inversion H3 as [|? z ? l3' Hyz H3']; subst;
    [constructor|]. constructor; [|by apply IH]. intros Hz. destruct (Hyz Hz) as (Hy & ? & ? & ? & ?).
  destruct (Hxy Hy) as (? & ? & ? & ? & ?). split_and!; congruence.
Qed.

Lemma pass_spec tab :
  match o9_reaper_pass tid_for_chan threadpid tab with
  | (r, tab') =>
      Forall2 same_entry tab tab' /\
      match r with
      | None => forall k, slots k tab' = slots k tab
      | Some p => pe_active p = true /\ (exists p0, p0 ∈ tab /\ same_entry p0 p) /\
          forall k, (slots k tab' + (if is_slot k p then 1 else 0) = slots k tab)%nat
      end
  end.
Proof.
  unfold o9_reaper_pass. pose proof (scan_spec tab) as H.
  destruct (reaper_scan _ _ tab) as [[[p tid]|] tab']; [|exact H]. destruct H as (H1 & H2 & H3 & H4).
  destruct (share_spec (pe_dispatch_chan p) tid tab') as [S1 S2].
  split; [by eapply same_entries_trans|]. split_and!; [done..|]. intros k. by rewrite S2.
Qed.
End pass.

(** ** Every reachable state *)

(** An entry belongs to a call. *)
Definition entry_ok (cs : list call) (p : O9Pending) : Prop :=
  pe_active p = true -> exists k c, pe_replyc p = Some k /\ cs !! k = Some c /\
    pe_dispatch_chan p = Some (k_chan c) /\
    pe_task p = (if k_task c then Some k else None) /\ pe_sync p = (if k_task c then None else Some k).

Definition is_dead (s : state) (c : call) : bool := bool_decide (k_chan c ∈ s_dead s).

Record inv (s : state) : Prop := {
  iv_call : forall k c, s_calls s !! k = Some c -> call_ok (slots k (s_pend s)) (is_dead s c) c;
  iv_entry : forall p, p ∈ s_pend s -> entry_ok (s_calls s) p }.

Lemma entry_same cs p p' : same_entry p p' -> entry_ok cs p -> entry_ok cs p'.
Proof.
  intros Hs Hp Ha. destruct (Hs Ha) as (Ha' & E1 & E2 & E3 & E4). destruct (Hp Ha') as (k & c & ? & ? & ? & ? & ?).
  exists k, c. split_and!; congruence.
Qed.

Lemma entries_same cs (tab tab' : list O9Pending) : Forall2 same_entry tab tab' ->
  (forall p, p ∈ tab -> entry_ok cs p) -> forall p, p ∈ tab' -> entry_ok cs p.
Proof.
  intros Hs Hp p [i Hi]%list_elem_of_lookup. destruct (Forall2_lookup_r _ _ _ _ _ Hs Hi) as (p0 & Hp0 & Hsame).
  apply (entry_same cs p0 p Hsame), Hp. by eapply list_elem_of_lookup_2.
Qed.

Lemma none_slots k tab cs : (forall p, p ∈ tab -> entry_ok cs p) -> cs !! k = None -> slots k tab = 0%nat.
Proof.
  intros Hp Hk. unfold slots. induction tab as [|p tab IH]; [done|]. cbn [sum_list_with].
  rewrite IH by (intros; apply Hp, elem_of_cons; by right).
  destruct (is_slot k p) eqn:E; [|done]. unfold is_slot in E. apply andb_true_iff in E as [Ha E%bool_decide_eq_true].
  destruct (Hp p) as (k' & c & ? & ? & _); [apply elem_of_cons; by left|done|]. congruence.
Qed.

(** What a transition leaves of a call. *)
Definition same_call (c c' : call) : Prop := k_chan c' = k_chan c /\ k_task c' = k_task c.

Lemma inv_upd k f tab s : inv s ->
  (forall c, s_calls s !! k = Some c -> same_call c (f c) /\ call_ok (slots k tab) (is_dead s c) (f c)) ->
  (forall k', k' <> k -> slots k' tab = slots k' (s_pend s)) ->
  (forall p, p ∈ tab -> entry_ok (s_calls s) p) ->
  inv (set_pend tab (upd k f s)).
Proof.
  intros [H1 H2] Hf Hs He.
  assert (Hl : forall j c', s_calls (upd k f s) !! j = Some c' ->
    exists c, s_calls s !! j = Some c /\ (j = k /\ c' = f c \/ j <> k /\ c' = c)).
  { intros j c'. simpl. rewrite list_lookup_alter. case_decide as E.
    - intros (c & Hc & ->)%fmap_Some. subst. eauto.
    - intros Hc. eauto. }
  split.
  - intros j c' Hj. destruct (Hl j c' Hj) as (c & Hc & [[-> ->]|[Hne ->]]).
    + destruct (Hf c Hc) as [[Hch _] Hok]. unfold is_dead. rewrite Hch. exact Hok.
    + cbn [s_pend set_pend]. rewrite Hs by done. by apply H1.
  - intros p Hp Ha. destruct (He p Hp Ha) as (j & c & Hr & Hc & Hd & Ht & Hy).
    destruct (decide (j = k)) as [->|Hne].
    + destruct (Hf c Hc) as [[Hch Htask] _]. exists k, (f c). simpl. rewrite list_lookup_alter_eq, Hc, Hch, Htask. done.
    + exists j, c. simpl. by rewrite list_lookup_alter_ne.
Qed.

(** A transition that does not touch the table. *)
Lemma inv_local k f s : inv s ->
  (forall c, s_calls s !! k = Some c -> same_call c (f c) /\ call_ok (slots k (s_pend s)) (is_dead s c) (f c)) ->
  inv (upd k f s).
Proof.
  intros Hi Hf. change (upd k f s) with (set_pend (s_pend s) (upd k f s)).
  apply inv_upd; [done|done|done|apply (iv_entry s Hi)].
Qed.

Lemma release_same c : same_call c (o9_release c).
Proof. unfold o9_release. by case_decide. Qed.

(** Taking the entry of a call. *)
Lemma inv_take k s c (f : bool -> call -> call) : inv s -> s_calls s !! k = Some c ->
  (forall b, same_call c (f b c)) ->
  (forall b, b = bool_decide (slots k (s_pend s) <> 0%nat) -> call_ok 0 (is_dead s c) (f b c)) ->
  let '((task, sync), tab) := o9_pending_take (Some k) (s_pend s) in
  inv (set_pend tab (upd k (f (match task, sync with None, None => false | _, _ => true end)) s)).
Proof.
  intros Hi Hc Hsame Hok. pose proof (take_spec k (s_pend s)) as Ht.
  destruct (o9_pending_take (Some k) (s_pend s)) as [[task sync] tab]. destruct Ht as [H1 H2].
  assert (He : forall p, p ∈ tab -> entry_ok (s_calls s) p) by (apply (entries_same _ _ _ H1), (iv_entry s Hi)).
  destruct H2 as [(H0 & -> & [= -> ->])|[(p & Hp & Hslot & [= -> ->]) Hs]].
  - apply inv_upd; [done| |done|done]. intros c' Hc'. rewrite Hc in Hc'. injection Hc' as <-.
    split; [done|]. rewrite H0. apply Hok. by rewrite bool_decide_false by lia.
  - unfold is_slot in Hslot. apply andb_true_iff in Hslot as [Ha Hk%bool_decide_eq_true].
    destruct (iv_entry s Hi p Hp Ha) as (k' & c' & Hr & Hc' & _ & Ht & Hy).
    assert (k' = k) as -> by congruence.
    assert (Hm : match pe_task p, pe_sync p with None, None => false | _, _ => true end = true).
    { rewrite Ht, Hy. by destruct (k_task c'). }
    rewrite Hm. apply inv_upd; [done| |intros j Hj; specialize (Hs j); rewrite decide_False in Hs by done; lia|done].
    intros x Hx. rewrite Hc in Hx. injection Hx as <-. split; [done|].
    pose proof (Hs k) as Hsk. rewrite decide_True in Hsk by done.
    pose proof (slots_le _ _ _ (iv_call s Hi k c Hc)) as Hle.
    replace (slots k tab) with 0%nat by lia. apply Hok. by rewrite bool_decide_true by lia.
Qed.

Lemma inv_register k c ctid tid s : inv s -> s_calls s !! k = Some c -> k_caller c = CReg ->
  inv (register_step k c ctid tid s).
Proof.
  intros Hi Hc Hpc. pose proof (iv_call s Hi k c Hc) as Hok.
  pose proof (unregistered_slots _ _ _ Hok Hpc) as H0. rewrite H0 in Hok.
  destruct (reg_call_ok _ _ Hok Hpc) as [R1 R2]. unfold register_step.
  pose proof (register_spec ctid tid k (Some (k_chan c)) None (k_task c) (if k_task c then Some k else None)
    (if k_task c then None else Some k) (s_pend s)) as Hr.
  destruct (o9_pending_register _ _ _ _ _ _ _ _ _) as [slot tab]. case_decide as Hslot.
  - apply inv_local; [done|]. intros c' Hc'. rewrite Hc in Hc'. injection Hc' as <-. rewrite H0.
    split; [|destruct (k_task c); exact R2].
    destruct (k_task c); [exact (release_same c)|exact (release_same (o9_sync_retain c))].
  - destruct Hr as [Hs He]. apply inv_upd; [done|..].
    + intros c' Hc'. rewrite Hc in Hc'. injection Hc' as <-. rewrite Hs, decide_True, H0 by done.
      split; [|destruct (k_task c); exact R1]. unfold same_call.
      destruct (k_task c) eqn:E; split; cbn; rewrite ?E; reflexivity.
    + intros k' Hk. rewrite Hs, decide_False by done. lia.
    + intros p Hp Ha. destruct (He p Hp Ha) as [Hin|(E1 & E2 & E3 & E4)]; [by apply (iv_entry s Hi)|].
      exists k, c. done.
Qed.

Lemma inv_caller k c ctid tid ok s s' : inv s -> s_calls s !! k = Some c ->
  caller_step k c ctid tid ok s = Some s' -> inv s'.
Proof.
  intros Hi Hc Hstep. pose proof (iv_call s Hi k c Hc) as Hok. unfold caller_step in Hstep.
  assert (Hloc : forall f, same_call c (f c) -> call_ok (slots k (s_pend s)) (is_dead s c) (f c) -> inv (upd k f s)).
  { intros f Hs Hf. apply inv_local; [done|]. intros c' Hc'. rewrite Hc in Hc'. by injection Hc' as <-. }
  destruct (k_caller c) eqn:Hpc.
  - injection Hstep as <-. by apply inv_register.
  - destruct (send_ok _ _ _ (slots_le _ _ _ Hok) Hok Hpc) as [S1 S2].
    destruct ok; injection Hstep as <-; apply Hloc; try done.
    unfold is_dead in S1 |- *. by destruct (decide (k_chan c ∈ s_dead s)) as [Hd|Hd];
      [rewrite bool_decide_true in S1 |- * by done|rewrite bool_decide_false in S1 |- * by done].
  - destruct (k_buf c) as [|r b] eqn:Hb; [done|]. injection Hstep as <-. apply Hloc; [done|]. by apply recv_ok.
  - pose proof (inv_take k s c (fun b => set_caller (if b then CHold else CClose)) Hi Hc) as Ht.
    destruct (o9_pending_take (Some k) (s_pend s)) as [[task sync] tab]. injection Hstep as <-.
    assert (Hinv : inv (set_pend tab (upd k (set_caller (if match task, sync with None, None => false | _, _ => true end
       then CHold else CClose)) s))).
    { apply Ht; [done|]. intros b ->. pose proof (complete_ok _ _ _ Hok Hpc) as Hcomp.
      destruct (decide (slots k (s_pend s) = 0%nat)) as [E|E];
        [rewrite bool_decide_false by lia|rewrite bool_decide_true by lia]; exact Hcomp. }
    by destruct task, sync.
  - injection Hstep as <-. apply Hloc; [|by apply hold_ok]. apply release_same.
  - injection Hstep as <-. apply Hloc; [|by apply close_ok]. apply release_same.
  - done.
Qed.

Lemma inv_actor k c err s s' : inv s -> s_calls s !! k = Some c ->
  actor_step k c err s = Some s' -> inv s'.
Proof.
  intros Hi Hc Hstep. pose proof (iv_call s Hi k c Hc) as Hok. unfold actor_step in Hstep.
  assert (Hloc : forall f, same_call c (f c) -> call_ok (slots k (s_pend s)) (is_dead s c) (f c) -> inv (upd k f s)).
  { intros f Hs Hf. apply inv_local; [done|]. intros c' Hc'. rewrite Hc in Hc'. by injection Hc' as <-. }
  destruct (k_actor c) as [| |held| | |] eqn:Ha; try done.
  - pose proof (inv_take k s c (fun b => set_actor (ASend b)) Hi Hc) as Ht.
    destruct (o9_pending_take (Some k) (s_pend s)) as [[task sync] tab]. injection Hstep as <-.
    apply Ht; [done|]. intros b ->. pose proof (take_ok _ _ _ Hok Ha) as Hcomp.
    destruct (decide (slots k (s_pend s) = 0%nat)) as [E|E];
      [rewrite bool_decide_false by lia|rewrite bool_decide_true by lia]; exact Hcomp.
  - destruct (k_buf c) eqn:Hb; [|done]. injection Hstep as <-. apply Hloc; [done|]. by apply reply_ok.
  - injection Hstep as <-. apply Hloc; [|by apply rel_ok]. apply release_same.
Qed.

Lemma inv_exit chan s s' : inv s -> exit_step chan s = Some s' -> inv s'.
Proof.
  intros Hi Hstep. unfold exit_step in Hstep. destruct (forallb _ _) eqn:Hall; [|done]. injection Hstep as <-.
  set (f := fun c : call => _). rewrite forallb_forall in Hall.
  assert (Hf : forall c, same_call c (f c)).
  { intros c. unfold f. case_decide; [|done]. by destruct (k_actor c). }
  split.
  - intros k c'. simpl. rewrite list_lookup_fmap. intros (c & Hc & ->)%fmap_Some.
    pose proof (iv_call s Hi k c Hc) as Hok. destruct (Hf c) as [Hch _]. unfold is_dead. rewrite Hch. simpl.
    unfold f. case_decide as E.
    + rewrite bool_decide_true by (apply elem_of_cons; by left). apply (exit_ok _ (is_dead s c)); [done|].
      specialize (Hall c). rewrite <- list_elem_of_In in Hall.
      rewrite bool_decide_true in Hall by done. simpl in Hall. apply negb_true_iff, Hall.
      by eapply list_elem_of_lookup_2.
    + unfold is_dead in Hok. rewrite (bool_decide_ext (k_chan c ∈ chan :: s_dead s) (k_chan c ∈ s_dead s)); [done|].
      rewrite elem_of_cons. naive_solver.
  - intros p Hp Ha. destruct (iv_entry s Hi p Hp Ha) as (k & c & Hr & Hc & Hd & Ht & Hy).
    destruct (Hf c) as [E1 E2]. exists k, (f c). simpl. rewrite list_lookup_fmap, Hc, E1, E2. done.
Qed.

Lemma inv_reaper tf tp s s' : inv s -> reaper_step tf tp s = Some s' -> inv s'.
Proof.
  intros Hi Hstep. unfold reaper_step in Hstep. pose proof (pass_spec tf tp (s_pend s)) as Hp.
  destruct (o9_reaper_pass tf tp (s_pend s)) as [[p|] tab]; destruct Hp as [H1 H2].
  - destruct H2 as (Ha & (p0 & Hp0 & Hsame) & Hs). destruct (Hsame Ha) as (Ha0 & E1 & E2 & _ & _).
    destruct (iv_entry s Hi p0 Hp0 Ha0) as (k & c & Hr & Hc & Hd & _ & _).
    rewrite E1, E2, Hr, Hd in Hstep. case_decide as Hdead; [|done]. injection Hstep as <-.
    assert (Hslot : forall k', is_slot k' p = bool_decide (k = k')).
    { intros k'. unfold is_slot. rewrite Ha, E1, Hr. simpl. apply bool_decide_ext. naive_solver. }
    apply inv_upd; [done|..].
    + intros c' Hc'. rewrite Hc in Hc'. injection Hc' as <-. split; [done|].
      pose proof (iv_call s Hi k c Hc) as Hok. specialize (Hs k). rewrite Hslot, bool_decide_true in Hs by done.
      unfold is_dead in *. rewrite bool_decide_true in Hok |- * by done.
      replace (slots k (s_pend s)) with (S (slots k tab)) in Hok by lia. by apply reap_take_ok.
    + intros k' Hk. specialize (Hs k'). rewrite Hslot, bool_decide_false in Hs by done. lia.
    + apply (entries_same _ _ _ H1), (iv_entry s Hi).
  - injection Hstep as <-. destruct s as [cs pend dead]. split; simpl.
    + intros k c Hc. rewrite H2. apply (iv_call _ Hi k c Hc).
    + apply (entries_same _ _ _ H1), (iv_entry _ Hi).
Qed.

Lemma pending_inv_step ev s s' : inv s -> step ev s = Some s' -> inv s'.
Proof.
  intros Hi Hstep.
  assert (Hloc : forall k c f, s_calls s !! k = Some c -> same_call c (f c) ->
    call_ok (slots k (s_pend s)) (is_dead s c) (f c) -> inv (upd k f s)).
  { intros k c f Hc Hs Hf. apply inv_local; [done|]. intros c' Hc'. rewrite Hc in Hc'. by injection Hc' as <-. }
  destruct ev as [task chan|k ctid tid ok|k|k err|chan|tf tp|k]; cbn [step] in Hstep.
  - injection Hstep as <-. split; simpl.
    + intros k c [[_ Hc]|[-> <-]]%lookup_snoc_Some; [by apply (iv_call s Hi)|].
      rewrite (none_slots _ _ (s_calls s)); [apply start_ok|apply (iv_entry s Hi)|by apply lookup_ge_None].
    + intros p Hp Ha. destruct (iv_entry s Hi p Hp Ha) as (k & c & ? & Hc & ?). exists k, c.
      split; [done|]. split; [|done]. by apply lookup_app_l_Some.
  - apply bind_Some in Hstep as (c & Hc & Hstep). by eapply inv_caller.
  - apply bind_Some in Hstep as (c & Hc & Hstep). destruct (k_caller c) eqn:Hpc; try done.
    destruct (k_task c) eqn:Ht; [|done]. injection Hstep as <-. apply (Hloc k c); [done..|].
    apply drop_ok; [by apply (iv_call s Hi)|done..].
  - apply bind_Some in Hstep as (c & Hc & Hstep). by eapply inv_actor.
  - by eapply inv_exit.
  - by eapply inv_reaper.
  - apply bind_Some in Hstep as (c & Hc & Hstep). pose proof (iv_call s Hi k c Hc) as Hok.
    unfold reap_step in Hstep. destruct (k_reaper c) eqn:Hr; try done; injection Hstep as <-.
    + apply (Hloc k c); [done| |by apply reap_send_ok]. by destruct (k_buf c).
    + apply (Hloc k c); [done|apply release_same|by apply reap_rel_ok].
Qed.

Lemma pending_inv0 : inv state0.
Proof.
  split; [done|]. intros p Hp Ha. unfold state0, pend_tab0 in Hp. cbn [s_pend] in Hp.
  apply list_elem_of_lookup in Hp as [i Hi]. apply lookup_replicate in Hi as [-> _]. done.
Qed.

Lemma inv_run evs s s' : inv s -> run evs s = Some s' -> inv s'.
Proof.
  revert s. induction evs as [|ev evs IH]; intros s Hi; cbn [run]; [by intros [= <-]|].
  intros (s1 & Hs1 & Hrun)%bind_Some. by eapply IH; [eapply pending_inv_step|].
Qed.

(** ** Theorems *)

(** A process is about to use the reply channel or the counter of the call. *)
Definition uses (c : call) : bool :=
  match k_caller c with CDone => false | _ => true end ||
  match k_reaper c with RSend | RRel => true | _ => false end ||
  match k_actor c with AQueued | ASend _ | ARel => true | _ => false end.

(** A task that found the pending table full: it is not in the table, and its
    message may have been sent all the same. *)
Definition unlisted (c : call) : bool :=
  k_task c && negb (k_reg c) && match k_caller c with CReg => false | _ => true end.

Lemma call_ok_uses n dead c : call_ok n dead c -> unlisted c = false ->
  (uses c = true -> k_freed c = false) /\ (uses c = false -> n = 0%nat -> k_freed c = true) /\
  0 <= k_ref c /\ (k_sent c <= 1)%nat /\ (k_reply c <> None -> k_sent c = 1%nat).
Proof.
  intros H Hu. pose proof (slots_le n dead c H) as Hn. destruct n as [|[|n]]; [..|lia]; destruct dead;
    positions c H; try discriminate Hu; (split_and!; [vm_compute; congruence|vm_compute; congruence|vm_compute; congruence|cbn; lia|cbn; congruence]).
Qed.

(** Where the answer of a waiting call can be. *)
Lemma call_ok_waits n dead c : call_ok n dead c -> unlisted c = false -> k_caller c = CWait -> k_actor c <> ANone ->
  k_buf c <> [] \/ (k_buf c = [] /\ (exists b, k_actor c = ASend b)) \/ (k_buf c = [] /\ k_reaper c = RSend) \/
  (k_buf c = [] /\ k_actor c = AQueued) \/ (n = 1%nat /\ dead = true).
Proof.
  intros H Hu Hc Ha. pose proof (slots_le n dead c H) as Hn. destruct n as [|[|n]]; [..|lia]; destruct dead;
    positions c H; try discriminate Hu; cbn; try (by left); try (right; left; split; [done|by eexists]); try congruence; auto 8.
Qed.

(** ** The reaper gets to every entry *)

(** The entries in use. *)
Definition busy (tab : list O9Pending) : nat := length (filter (fun p => pe_active p = true) tab).

Section truthful.
Variable tid_for_chan : option ptr -> Z.
Variable threadpid : Z -> Z.

(** The verdict of the reaper on an entry. *)
Definition looks (p : O9Pending) : bool := tid_dead threadpid (reaper_look tid_for_chan p).1.

(** The actor table and the thread library know which actors have ended. *)
Definition truthful (s : state) : Prop := forall p c, p ∈ s_pend s -> pe_active p = true -> pe_dispatch_chan p = Some c ->
  looks p = true <-> c ∈ s_dead s.

Lemma look_again p : looks (reaper_look tid_for_chan p).2 = looks p /\
  pe_dispatch_chan (reaper_look tid_for_chan p).2 = pe_dispatch_chan p /\ pe_active (reaper_look tid_for_chan p).2 = pe_active p.
Proof.
  unfold looks, reaper_look. destruct (decide (0 < tid_for_chan (pe_dispatch_chan p))) as [H|H].
  - cbn. by rewrite decide_True.
  - destruct (pe_started p || bool_decide (pe_tid p < 0)) eqn:E; cbn; rewrite decide_False by done; by rewrite E.
Qed.

(** What a scan leaves of the table, and what it finds. *)
Lemma scan_finds tab :
  let '(r, tab') := reaper_scan tid_for_chan threadpid tab in
  (forall p', p' ∈ tab' -> pe_active p' = true ->
     exists p, p ∈ tab /\ pe_active p = true /\ pe_dispatch_chan p' = pe_dispatch_chan p /\ looks p' = looks p) /\
  match r with
  | Some (p', tid) => busy tab = S (busy tab') /\ (exists p, p ∈ tab /\ pe_active p = true /\ looks p = true /\
      pe_dispatch_chan p' = pe_dispatch_chan p /\ tid = (reaper_look tid_for_chan p').1 /\ tid_dead threadpid tid = true)
  | None => forall p, p ∈ tab -> pe_active p = true -> looks p = false
  end.
Proof.
  induction tab as [|p tab IH]; [split; intros p' Hp; by apply not_elem_of_nil in Hp|]. cbn [reaper_scan]. destruct (look_again p) as (L1 & L2 & L3).
  destruct (pe_active p) eqn:Ha.
  - assert (L4 : (reaper_look tid_for_chan (reaper_look tid_for_chan p).2).1 = (reaper_look tid_for_chan p).1).
    { unfold reaper_look. destruct (decide (0 < tid_for_chan (pe_dispatch_chan p))) as [H|H]; [cbn; by rewrite decide_True|].
      destruct (pe_started p || bool_decide (pe_tid p < 0)) eqn:E; cbn; rewrite decide_False by done; by rewrite E. }
    unfold looks in L1 |- *. destruct (reaper_look tid_for_chan p) as [tid q] eqn:El. cbn [fst snd] in *.
    destruct (tid_dead threadpid tid) eqn:Ed.
    + split.
      * intros p' [->|Hp]%elem_of_cons; [done|]. intros Hact. exists p'. split; [apply elem_of_cons; by right|done].
      * split; [unfold busy; rewrite filter_cons_True, (filter_cons_False (fun p => pe_active p = true)) by done; done|].
        exists p. split_and!; [apply elem_of_cons; by left|done|by rewrite El|done|by rewrite L4|done].
    + destruct (reaper_scan tid_for_chan threadpid tab) as [r tab']. destruct IH as [IH1 IH2]. unfold looks in *. split.
      * intros p' [->|Hp]%elem_of_cons Hact.
        -- exists p. split_and!; [apply elem_of_cons; by left|done|done|by rewrite L1, El].
        -- destruct (IH1 p' Hp Hact) as (p0 & Hp0 & E). exists p0. split; [apply elem_of_cons; by right|done].
      * destruct r as [[q' tid']|].
        -- destruct IH2 as (Hb & p0 & Hp0 & E). split; [unfold busy in *; rewrite !filter_cons_True by (done || congruence); simpl; lia|].
           exists p0. split; [apply elem_of_cons; by right|done].
        -- intros p' [->|Hp]%elem_of_cons Hact; [by rewrite El|by apply IH2].
  - destruct (reaper_scan tid_for_chan threadpid tab) as [r tab']. destruct IH as [IH1 IH2]. split.
    + intros p' [->|Hp]%elem_of_cons Hact; [congruence|]. destruct (IH1 p' Hp Hact) as (p0 & Hp0 & E). exists p0. split; [apply elem_of_cons; by right|done].
    + destruct r as [[q' tid']|].
      * destruct IH2 as (Hb & p0 & Hp0 & E). split; [unfold busy in *; rewrite !filter_cons_False by congruence; done|].
        exists p0. split; [apply elem_of_cons; by right|done].
      * intros p' [->|Hp]%elem_of_cons Hact; [congruence|by apply IH2].
Qed.

Lemma share_looks q tab p' : tid_dead threadpid (reaper_look tid_for_chan q).1 = true ->
  p' ∈ reaper_share (pe_dispatch_chan q) (reaper_look tid_for_chan q).1 tab -> pe_active p' = true ->
  exists p, p ∈ tab /\ pe_active p = true /\ pe_dispatch_chan p' = pe_dispatch_chan p /\
    (looks p' = looks p \/ (pe_dispatch_chan p' = pe_dispatch_chan q /\ looks p' = true)).
Proof.
  intros Hd Hin Ha. unfold reaper_share in Hin. destruct (pe_dispatch_chan q) as [c|] eqn:Hc; [|by exists p'; auto].
  assert (Hf : 0 < tid_for_chan (Some c) -> (reaper_look tid_for_chan q).1 = tid_for_chan (Some c))
    by (intros H; unfold reaper_look; by rewrite Hc, decide_True).
  revert Hd Hin Hf. generalize (reaper_look tid_for_chan q).1. intros t Hd Hin Hf. destruct (decide (0 < t)); [|by exists p'; auto].
  apply list_elem_of_fmap in Hin as (p & -> & Hp). destruct (pe_active p && bool_decide (pe_dispatch_chan p = Some c)) eqn:E; [|by exists p; auto].
  apply andb_true_iff in E as [Ep Ec%bool_decide_eq_true]. exists p. split_and!; [done|done|done|]. right. split; [by rewrite Ec|].
  unfold looks, reaper_look. cbn [pe_dispatch_chan pe_started pe_tid]. rewrite Ec.
  destruct (decide (0 < tid_for_chan (Some c))) as [H|H]; [by rewrite <- (Hf H)|exact Hd].
Qed.

Lemma busy_share chan tid tab : busy (reaper_share chan tid tab) = busy tab.
Proof.
  unfold reaper_share. destruct chan as [c|]; [|done]. case_decide; [|done]. unfold busy. induction tab as [|p tab IH]; [done|].
  csimpl. rewrite !filter_cons. destruct (pe_active p && bool_decide (pe_dispatch_chan p = Some c)) eqn:E; cbn [pe_active];
    destruct (decide (pe_active p = true)) as [Ha|Ha]; cbn [length]; rewrite ?IH; done.
Qed.

(** One pass, while an entry of an ended actor is there: it takes one out. *)
Lemma pass_takes s p c : inv s -> truthful s -> p ∈ s_pend s -> pe_active p = true -> pe_dispatch_chan p = Some c -> c ∈ s_dead s ->
  exists k x tab, s_calls s !! k = Some x /\ reaper_step tid_for_chan threadpid s = Some (set_pend tab (upd k (set_reaper RSend) s)) /\
    truthful (set_pend tab (upd k (set_reaper RSend) s)) /\ busy (s_pend s) = S (busy tab) /\ slots k (s_pend s) <> 0%nat /\
    forall j, j <> k -> slots j tab = slots j (s_pend s).
Proof.
  intros Hi Ht Hp Ha Hc Hd. pose proof (scan_finds (s_pend s)) as Hs. pose proof (pass_spec tid_for_chan threadpid (s_pend s)) as Hps.
  unfold reaper_step. unfold o9_reaper_pass in *. destruct (reaper_scan tid_for_chan threadpid (s_pend s)) as [[[q tid]|] tab].
  2:{ destruct Hs as [_ Hs]. specialize (Hs p Hp Ha). pose proof (proj2 (Ht p c Hp Ha Hc) Hd). congruence. }
  destruct Hs as [Hs1 (Hb & q0 & Hq0 & Haq & Hlq & Ecq & -> & Hdead)]. destruct Hps as (_ & Hact & (q1 & Hq1 & Hsame) & Hsl).
  destruct (Hsame Hact) as (Ha1 & E1 & E2 & _). destruct (iv_entry s Hi q1 Hq1 Ha1) as (k & x & Hr & Hx & Hch & _).
  rewrite E2, Hch, E1, Hr. assert (Hxd : k_chan x ∈ s_dead s).
  { apply (Ht q0 (k_chan x) Hq0 Haq); [by rewrite <- Ecq, E2|done]. }
  rewrite decide_True by done. assert (Hslot : forall j, is_slot j q = bool_decide (k = j)).
  { intros j. unfold is_slot. rewrite Hact, E1, Hr. simpl. apply bool_decide_ext. naive_solver. }
  exists k, x, (reaper_share (Some (k_chan x)) (reaper_look tid_for_chan q).1 tab).
  rewrite E2, Hch in Hsl. split; [done|]. split; [done|]. split_and!.
  - intros p' c' Hp' Hact' Hc'. cbn [s_pend set_pend s_dead upd] in *.
    destruct (share_looks q tab p') as (p1 & Hp1 & Ha1' & Ec1 & Hl1); [done|by rewrite E2, Hch|done|].
    destruct (Hs1 p1 Hp1 Ha1') as (p2 & Hp2 & Ha2 & Ec2 & Hl2). destruct Hl1 as [->|[Ec ->]].
    + rewrite Hl2. apply (Ht p2 c' Hp2 Ha2). congruence.
    + split; [intros _|done]. rewrite Hc', E2, Hch in Ec. by injection Ec as ->.
  - by rewrite busy_share.
  - specialize (Hsl k). rewrite Hslot, bool_decide_true in Hsl by done. lia.
  - intros j Hj. specialize (Hsl j). rewrite Hslot, bool_decide_false in Hsl by done. lia.
Qed.
End truthful.

(** ** Theorems *)

(** C3: Whatever the interleaving, the reply channel of a call is alive
    whenever its caller, its actor or the reaper is about to use it, is freed
    once none of them will and the pending table has no entry of it, and
    carries at most one reply.  This holds for every synchronous call, those
    that found the table full included, and for every task that found room;
    for a task that found none it does not ([full_table_use_after_free]). *)
Theorem reply_channel_lifetime evs s k c :
  run evs state0 = Some s -> s_calls s !! k = Some c -> unlisted c = false ->
  (uses c = true -> k_freed c = false) /\
  (uses c = false -> slots k (s_pend s) = 0%nat -> k_freed c = true) /\
  0 <= k_ref c /\ (k_sent c <= 1)%nat /\ (k_reply c <> None -> k_sent c = 1%nat).
Proof.
  intros Hrun Hc Hu. pose proof (inv_run evs state0 s pending_inv0 Hrun) as Hi.
  by apply (call_ok_uses _ _ c (iv_call s Hi k c Hc)).
Qed.

(** The steps of others that answer call [k]: its actor's and the reaper's. *)
Definition helper (tid_for_chan : option ptr -> Z) (threadpid : Z -> Z) (k : call_id) (ev : event) : Prop :=
  match ev with
  | EActor j _ => j = k
  | EReaper f g => f = tid_for_chan /\ g = threadpid
  | EReap _ => True
  | ECall _ _ | ECaller _ _ _ _ | EDrop _ | EExit _ => False
  end.

(** The caller of call [k] waits, and by helpers alone its answer comes. *)
Definition answered_by (tid_for_chan : option ptr -> Z) (threadpid : Z -> Z) (n : nat) (k : call_id) (s : state) : Prop :=
  exists evs s' c', Forall (helper tid_for_chan threadpid k) evs /\ (length evs <= n)%nat /\ run evs s = Some s' /\
    s_calls s' !! k = Some c' /\ k_caller c' = CWait /\ k_buf c' <> [].

Lemma answered_step tf tp ev n k s s1 : helper tf tp k ev -> step ev s = Some s1 -> answered_by tf tp n k s1 -> answered_by tf tp (S n) k s.
Proof.
  intros Hh Hs (evs & s' & c' & H1 & H2 & H3 & H4). exists (ev :: evs), s', c'. split; [by constructor|]. split; [simpl; lia|].
  split; [|done]. cbn [run]. by rewrite Hs.
Qed.

Lemma answered_now tf tp n k s c : s_calls s !! k = Some c -> k_caller c = CWait -> k_buf c <> [] -> answered_by tf tp n k s.
Proof. intros. exists [], s, c. split; [constructor|]. split; [simpl; lia|done]. Qed.

(** The reaper's answer, once it has the entry. *)
Lemma reap_answers tf tp n k s c : s_calls s !! k = Some c -> k_caller c = CWait -> k_reaper c = RSend -> answered_by tf tp (S n) k s.
Proof.
  intros Hc Hw Hr. eapply (answered_step tf tp (EReap k)); [done|cbn [step]; rewrite Hc; cbn [mbind option_bind]; unfold reap_step; by rewrite Hr|].
  eapply (answered_now _ _ _ _ _ (set_reaper RRel (match k_buf c with [] => set_send FromReaper c | _ => c end))).
  - cbn [upd s_calls]. by rewrite list_lookup_alter_eq, Hc.
  - by destruct (k_buf c).
  - destruct (k_buf c) eqn:E; cbn; rewrite ?E; done.
Qed.

Lemma reaped tf tp n : forall s k c, busy (s_pend s) = n -> inv s -> truthful tf tp s -> s_calls s !! k = Some c -> k_caller c = CWait ->
  slots k (s_pend s) <> 0%nat -> k_chan c ∈ s_dead s -> answered_by tf tp (3 * n) k s.
Proof.
  induction n as [n IH] using lt_wf_ind. intros s k c Hn Hi Ht Hc Hw Hsl Hd.
  assert (Hp : exists p, p ∈ s_pend s /\ is_slot k p = true).
  { unfold slots in Hsl. clear -Hsl. induction (s_pend s) as [|p tab IHt]; [done|]. cbn [sum_list_with] in Hsl.
    destruct (is_slot k p) eqn:E; [exists p; split; [apply elem_of_cons; by left|done]|]. destruct IHt as (p' & H1 & H2); [lia|].
    exists p'. split; [apply elem_of_cons; by right|done]. }
  destruct Hp as (p & Hp & Hs). unfold is_slot in Hs. apply andb_true_iff in Hs as [Ha Hk%bool_decide_eq_true].
  destruct (iv_entry s Hi p Hp Ha) as (k0 & c0 & Hr & Hc0 & Hch & _). assert (k0 = k) as -> by congruence. assert (c0 = c) as -> by congruence.
  destruct (pass_takes tf tp s p (k_chan c) Hi Ht Hp Ha Hch Hd) as (j & x & tab & Hx & Hstep & Ht1 & Hb & _ & Hother).
  destruct n as [|n]; [lia|]. replace (3 * S n)%nat with (S (S (S (3 * n)))) by lia.
  eapply (answered_step tf tp (EReaper tf tp)); [done|exact Hstep|]. pose proof (inv_reaper tf tp s _ Hi Hstep) as Hi1.
  set (s1 := set_pend tab _) in *. assert (Hx1 : s_calls s1 !! j = Some (set_reaper RSend x)) by (simpl; by rewrite list_lookup_alter_eq, Hx).
  destruct (decide (j = k)) as [->|Hne].
  { rewrite Hc in Hx. injection Hx as <-. by apply (reap_answers _ _ _ _ _ _ Hx1). }
  assert (H2 : exists s2 x2, step (EReap j) s1 = Some s2 /\ s_pend s2 = tab /\ s_dead s2 = s_dead s /\ s_calls s2 !! k = Some c /\
     s_calls s2 !! j = Some x2 /\ k_reaper x2 = RRel).
  { eexists _, _. cbn [step]. rewrite Hx1. split; [done|]. cbn [upd s_calls s_pend s_dead set_pend s1].
    split_and!; [done|done|by rewrite !list_lookup_alter_ne|by rewrite !list_lookup_alter_eq, Hx|done]. }
  destruct H2 as (s2 & x2 & Hs2 & Hp2 & Hd2 & Hc2 & Hx2 & Hr2). eapply answered_step; [|exact Hs2|]; [done|].
  assert (H3 : exists s3, step (EReap j) s2 = Some s3 /\ s_pend s3 = tab /\ s_dead s3 = s_dead s /\ s_calls s3 !! k = Some c).
  { eexists. cbn [step]. rewrite Hx2. cbn [mbind option_bind]. unfold reap_step. rewrite Hr2. split; [done|]. cbn [upd s_calls s_pend s_dead].
    split_and!; [done|done|by rewrite list_lookup_alter_ne]. }
  destruct H3 as (s3 & Hs3 & Hp3 & Hd3 & Hc3). eapply answered_step; [|exact Hs3|]; [done|].
  apply (IH n) with c; [lia|rewrite Hp3; lia| | |done|done|by rewrite Hp3, Hother by done|by rewrite Hd3].
  - eapply pending_inv_step; [|exact Hs3]. by eapply pending_inv_step; [|exact Hs2].
  - intros q c' Hq. unfold truthful in Ht1. rewrite Hp3 in Hq. rewrite Hd3. by apply Ht1.
Qed.

Lemma busy_le tab : (busy tab <= length tab)%nat.
Proof. unfold busy. apply length_filter. Qed.


(** ** A full table *)

(** A task that finds the table full has only its caller's reference: dropped
    before the actor answers, it is freed under the actor. *)
Definition full_table : list event :=
  concat ((fun k => [ECall true 1; ECaller k 0 0 true]) <$> seq 0 513) ++
  [ECaller 512 0 0 true; EDrop 512; ECaller 512 0 0 true; EActor 512 None].

Lemma full_table_use_after_free :
  option_map (fun s => (k_freed <$> s_calls s !! 512%nat, k_actor <$> s_calls s !! 512%nat)) (run full_table state0) =
  Some (Some true, Some (ASend false)).
Proof. vm_compute. reflexivity. Qed.

(** ** Witnesses *)

Definition w_evs : list event := [ECall false 7; ECaller 0 7 0 true; ECaller 0 0 0 true].

Lemma reply_channel_lifetime_witness :
  exists s c, run w_evs state0 = Some s /\ s_calls s !! 0%nat = Some c /\ uses c = true /\ k_freed c = false.
Proof.
  destruct (run w_evs state0) as [s|] eqn:E; [|vm_compute in E; discriminate E].
  assert (Hc : exists c, s_calls s !! 0%nat = Some c /\ unlisted c = false /\ uses c = true).
  { vm_compute in E. injection E as <-. eexists. split; [reflexivity|]. split; reflexivity. }
  destruct Hc as (c & Hc & Hr & Hu). exists s, c. split; [reflexivity|]. split; [exact Hc|]. split; [exact Hu|].
  exact (proj1 (reply_channel_lifetime w_evs s 0 c E Hc Hr) Hu).
Defined.

(** Then the actor ends: thread 9 is the actor's, and it is gone. *)
Definition w_dead : list event := w_evs ++ [EExit 7].
Definition w_tid (c : option ptr) : Z := if decide (c = Some 7%positive) then 9 else 0.
Definition w_pid (tid : Z) : Z := if decide (tid = 9) then -1 else 1.

