(* ===== verification/Send.v ===== *)
(** * Synchronous actor calls: [obj9_msgSendN], [obj9_msgSendDoubleN],
    [obj9_msgSendObjectN], [obj9_msgSendStructN] and the await functions
    ([o9_runtime.c])

    One process runs a call against state that all processes share: the
    handle registry, the call graph and the pending table.  The code is the
    sequence of its locked regions and channel operations; before each of
    them the other processes may move, which is the function [o_env] of
    [outside].  What the channels and the allocator answer is in [outside]
    too. *)
From S2P Require Import Prelude CallGraph Registry Pending PendingInv PendingSpec.

Open Scope Z_scope.

(** ** Data *)

(** What a client handle says to a call: [gen] 0 or an empty [oid] skips the
    registry. *)
Record o9_Object := MkObj { ob_dispatch_chan : option ptr; ob_oid : bytes; ob_gen : Z }.

(** [m_sync] names the wait; its reply channel goes with it. *)
Record O9Msg := MkMsg {
  m_sel : Z; m_args : option ptr; m_nargs : Z; m_sync : call_id; m_caller : bytes; m_blessed : bool }.

(** A double is its 64-bit pattern ([o9_double_pack]). *)
Record O9Reply := MkReply { r_ret : Z; r_dret : Z; r_retbuf : option bytes; r_err : option bytes }.

(** The process ([w_ctx], [w_errstr]), the shared tables, the references on
    the call's [O9SyncWait] and the messages that the process has sent. *)
Record world := MkWorld {
  w_ctx : ProcCtx; w_errstr : bytes; w_edges : edges; w_reg : reg_tab; w_pend : list O9Pending;
  w_ref : Z; w_sent : list (ptr * O9Msg) }.

(** The places where other processes may run. *)
Inductive point := PLookup | PBegin | PRegister | PSend | PWait | PComplete | PEnd | PRelease.

Record outside := MkOut {
  o_closing : bool;             (* chanclosing(dispatch_chan) >= 0 *)
  o_started : bool;             (* the registry process runs *)
  o_alloc : bool;               (* o9_sync_new has memory *)
  o_call : call_id;             (* the name of the new wait *)
  o_ctid : Z;                   (* o9_tid_for_chan(dispatch_chan) *)
  o_send : bool;                (* sendp(dispatch_chan) succeeds *)
  o_reply : option O9Reply;     (* what recvp(replyc) returns *)
  o_getuser : option bytes; o_fmt_p : chan -> bytes;
  o_env : point -> world -> world }.

Definition set_ctx c w := MkWorld c (w_errstr w) (w_edges w) (w_reg w) (w_pend w) (w_ref w) (w_sent w).
Definition set_edges es w := MkWorld (w_ctx w) (w_errstr w) es (w_reg w) (w_pend w) (w_ref w) (w_sent w).
Definition set_pend n t w := MkWorld (w_ctx w) (w_errstr w) (w_edges w) (w_reg w) t n (w_sent w).
Definition set_wait n w := MkWorld (w_ctx w) (w_errstr w) (w_edges w) (w_reg w) (w_pend w) n (w_sent w).
Definition set_sent c m w := MkWorld (w_ctx w) (w_errstr w) (w_edges w) (w_reg w) (w_pend w) (w_ref w) (w_sent w ++ [(c, m)]).

(** [werrstr] keeps 127 bytes. *)
Definition ERRMAX : nat := 128.

Definition werrstr (e : bytes) (w : world) : world :=
  MkWorld (w_ctx w) (snprint ERRMAX e) (w_edges w) (w_reg w) (w_pend w) (w_ref w) (w_sent w).

(** [werrstr(e); o9_set_call_err(e)] *)
Definition fail (e : bytes) (w : world) : world :=
  set_ctx (o9_set_call_err (Some e) (w_ctx w)) (werrstr e w).

Definition succeed (w : world) : world := set_ctx (o9_set_call_err None (w_ctx w)) w.

(** ** The steps of a call *)

Section send.
Variable o : outside.
Notation env := (o_env o).

(** The handle is refused when its channel closes, or when the registry no
    longer has its generation and channel under its oid. *)
Definition stale (obj : o9_Object) (chan : ptr) (w : world) : bool :=
  o_closing o ||
  match ob_oid obj with
  | [] => false
  | oid =>
      if decide (ob_gen obj = 0) then false
      else match o9_registry_lookup (o_started o) (Some oid) (w_reg w) with
           | (0, Some h) => negb (bool_decide (h_gen h = ob_gen obj /\ h_chan h = Some chan))
           | _ => true
           end
  end.

Definition call_begin (chan : ptr) (obj : o9_Object) (method : option bytes) (w : world) : Z * world :=
  let '(rc, c, es) := o9_dag_call_begin (o_fmt_p o) (Some chan) (Some (ob_oid obj)) method (w_ctx w) (w_edges w) in
  (rc, let w := set_edges es (set_ctx c w) in
       if decide (rc < 0) then werrstr (default [] (cx_err c)) w else w).

Definition call_end (chan : ptr) (w : world) : world :=
  set_edges (o9_dag_call_end (Some chan) (w_ctx w) (w_edges w)) w.

(** [o9_pending_register(0, w->replyc, chan, nil, 0, nil, w)]: the table's
    reference is given back when there is no room. *)
Definition register_wait (chan : ptr) (w : world) : Z * world :=
  let '(slot, tab) := o9_pending_register (o_ctid o) 0 (Some (o_call o)) (Some chan) None false None (Some (o_call o)) (w_pend w) in
  (slot, if decide (slot < 0) then w else set_pend (w_ref w + 1) tab w).

Definition o9_pending_complete (w : world) : world :=
  let '((_, sync), tab) := o9_pending_take (Some (o_call o)) (w_pend w) in
  set_pend (match sync with Some _ => w_ref w - 1 | None => w_ref w end) tab w.

Definition o9_sync_release (w : world) : world := set_wait (w_ref w - 1) w.

Definition make_msg (sel : Z) (args : option ptr) (nargs : Z) (w : world) : O9Msg :=
  MkMsg sel args nargs (o_call o) (o9_current_user_c (o_getuser o) (w_ctx w)) (o9_current_user_blessed (w_ctx w)).

(** The part that the four functions share, up to the reply: [inr] of what
    [recvp] returned, [inl] when the call is given up with its error set. *)
Definition send_receive (obj : o9_Object) (chan : ptr) (method : option bytes) (sel : Z)
    (args : option ptr) (nargs : Z) (w : world) : (() + option O9Reply) * world :=
  let w := env PLookup w in
  if stale obj chan w then (inl (), fail (str "stale object handle") w)
  else
    let '(rc, w) := call_begin chan obj method (env PBegin w) in
    if decide (rc < 0) then (inl (), w)
    else if negb (o_alloc o) then (inl (), fail (str "out of memory") (call_end chan (env PEnd w)))
    else
      let m := make_msg sel args nargs w in
      let '(slot, w) := register_wait chan (env PRegister (set_wait 1 w)) in
      if decide (slot < 0) then
        (inl (), fail (str "too many pending calls") (call_end chan (env PEnd (o9_sync_release w))))
      else
        let w := env PSend w in
        if negb (o_send o) then
          (inl (), fail (str "stale object handle")
             (o9_sync_release (env PRelease (o9_pending_complete (env PComplete (call_end chan (env PEnd w)))))))
        else
          let w := env PWait (set_sent chan m w) in
          (inr (o_reply o), call_end chan (env PEnd (o9_pending_complete (env PComplete w)))).

(** [o9_sync_release(w)] ends every call that was answered. *)
Definition finish {A} (p : A * world) : A * world := (p.1, o9_sync_release (env PRelease p.2)).

(** The value of an answer, or the error it is. *)
Definition value_reply (value : O9Reply -> Z) (r : option O9Reply) (w : world) : Z * world :=
  match r with
  | None => (0, fail (str "object method produced no reply") w)
  | Some r =>
      match r_err r with
      | Some e => (0, fail e w)
      | None => (value r, succeed w)
      end
  end.

Definition obj9_msgSendN (obj : o9_Object) (method : option bytes) (sel : Z) (args : option ptr)
    (nargs : Z) (w : world) : Z * world :=
  match ob_dispatch_chan obj with
  | None => (0, fail (str "object method dispatch is local-only") w)
  | Some chan =>
      match send_receive obj chan method sel args nargs w with
      | (inl _, w) => (0, w)
      | (inr r, w) =>
          finish (value_reply r_ret r w)
      end
  end.

Definition obj9_msgSendDoubleN (obj : o9_Object) (method : option bytes) (sel : Z) (args : option ptr)
    (nargs : Z) (w : world) : Z * world :=
  match ob_dispatch_chan obj with
  | None => (0, fail (str "object method dispatch is local-only") w)
  | Some chan =>
      match send_receive obj chan method sel args nargs w with
      | (inl _, w) => (0, w)
      | (inr r, w) =>
          finish (value_reply r_dret r w)
      end
  end.

(** [out] as zeroed at the start. *)
Definition zeroed (outsiz : nat) : bytes := replicate outsiz NUL.

(** [((o9_Object* )out)->table = nil]: the third word of a client handle. *)
Definition TABLE_OFF : nat := 16.
Definition clear_table (mem : bytes) : option bytes := write_at TABLE_OFF (replicate 8 NUL) mem.

(** The bytes of [retbuf] are put into [out] when they are there and fit. *)
Definition copy_reply (nodata oversized : bytes) (post : bytes -> option bytes) (outsiz : nat)
    (r : option O9Reply) (w : world) : (Z * option bytes) * world :=
  let out := zeroed outsiz in
  match r with
  | None => ((-1, Some out), fail (str "object method produced no reply") w)
  | Some r =>
      match r_err r, r_retbuf r with
      | Some e, _ => ((-1, Some out), fail e w)
      | None, None | None, Some [] => ((-1, Some out), fail nodata w)
      | None, Some buf =>
          if decide (outsiz < length buf)%nat then ((-1, Some out), fail oversized w)
          else ((0, write_at 0 buf out ≫= post), succeed w)
      end
  end.

(** [out] is the destination with what it holds, or nil; what it holds at the
    end is returned with the status. *)
Definition obj9_msgSendObjectN (obj : option o9_Object) (method : option bytes) (sel : Z)
    (args : option ptr) (nargs : Z) (out : option bytes) (w : world) : (Z * option bytes) * world :=
  match obj, out with
  | None, _ | _, None | _, Some [] => ((-1, Some (default [] out)), fail (str "bad object return destination") w)
  | Some obj, Some old =>
      let outsiz := length old in
      match ob_dispatch_chan obj with
      | None => ((-1, Some (zeroed outsiz)), fail (str "object returns are local-only") w)
      | Some chan =>
          match send_receive obj chan method sel args nargs w with
          | (inl _, w) => ((-1, Some (zeroed outsiz)), w)
          | (inr r, w) =>
              finish (copy_reply (str "object method returned no handle data")
                        (str "object method returned oversized handle") clear_table outsiz r w)
          end
      end
  end.

Definition obj9_msgSendStructN (obj : option o9_Object) (method : option bytes) (sel : Z)
    (args : option ptr) (nargs : Z) (out : option bytes) (w : world) : (Z * option bytes) * world :=
  match obj, out with
  | None, _ | _, None | _, Some [] => ((-1, Some (default [] out)), fail (str "bad struct return destination") w)
  | Some obj, Some old =>
      let outsiz := length old in
      match ob_dispatch_chan obj with
      | None => ((-1, Some (zeroed outsiz)), fail (str "struct returns are local-only") w)
      | Some chan =>
          match send_receive obj chan method sel args nargs w with
          | (inl _, w) => ((-1, Some (zeroed outsiz)), w)
          | (inr r, w) =>
              finish (copy_reply (str "object method returned no struct data")
                        (str "object method returned oversized struct") Some outsiz r w)
          end
      end
  end.
End send.

(** ** Awaiting a task *)

(** [t->reply], cached by the first await. *)
Abbreviation task_reply := (option O9Reply).

(** [recv] is what [recvp(t->done)] would return. *)
Definition o9_task_await (t : option task_reply) (recv : option O9Reply) (c : ProcCtx)
    : Z * option task_reply * ProcCtx :=
  match t with
  | None => (0, t, o9_set_call_err (Some (str "await of nil task")) c)
  | Some reply =>
      let reply := match reply with None => recv | Some _ => reply end in
      match reply with
      | None => (0, Some reply, o9_set_call_err (Some (str "task produced no result")) c)
      | Some r =>
          match r_err r with
          | Some e => (0, Some reply, o9_set_call_err (Some e) c)
          | None => (r_ret r, Some reply, o9_set_call_err None c)
          end
      end
  end.

Definition o9_task_await_double (t : option task_reply) (recv : option O9Reply) (c : ProcCtx)
    : Z * option task_reply * ProcCtx :=
  match t with
  | None => (0, t, o9_set_call_err (Some (str "await of nil task")) c)
  | Some reply =>
      let reply := match reply with None => recv | Some _ => reply end in
      match reply with
      | None => (0, Some reply, o9_set_call_err (Some (str "task produced no result")) c)
      | Some r =>
          match r_err r with
          | Some e => (0, Some reply, o9_set_call_err (Some e) c)
          | None => (r_dret r, Some reply, o9_set_call_err None c)
          end
      end
  end.
