(* ===== verification/SendSpec.v ===== *)
(** * What a synchronous call promises

    The contract of the four [obj9_msgSend*N] functions of [Send], whatever
    the other processes do at the points of [Send.point] within [rely]. *)
From S2P Require Import Prelude CallGraph Registry Pending PendingInv PendingSpec Send.

Open Scope Z_scope.

(** ** The four functions as one operation *)

Inductive variant := SendN | SendDoubleN | SendObjectN (old : bytes) | SendStructN (old : bytes).

(** [old] is what the destination held before the call.  The result is the value or the status, with the destination's bytes. *)
Definition msg_send (o : outside) (v : variant) (obj : o9_Object) (method : option bytes) (sel : Z)
    (args : option ptr) (nargs : Z) (w : world) : (Z * option bytes) * world :=
  match v with
  | SendN => let '(r, w') := obj9_msgSendN o obj method sel args nargs w in ((r, Some []), w')
  | SendDoubleN => let '(r, w') := obj9_msgSendDoubleN o obj method sel args nargs w in ((r, Some []), w')
  | SendObjectN old => obj9_msgSendObjectN o (Some obj) method sel args nargs (Some old) w
  | SendStructN old => obj9_msgSendStructN o (Some obj) method sel args nargs (Some old) w
  end.

(** The destination holds at least the client header that is cleared. *)
Definition room (v : variant) : Prop :=
  match v with SendObjectN old => (TABLE_OFF + 8 <= length old)%nat | SendStructN old => (0 < length old)%nat | _ => True end.

(** What a call gives up with. *)
Definition failed (v : variant) : Z * option bytes :=
  match v with
  | SendN | SendDoubleN => (0, Some [])
  | SendObjectN old | SendStructN old => (-1, Some (replicate (length old) NUL))
  end.

(** The reply's bytes followed by zeros; an object handle has no method table. *)
Definition filled (n : nat) (buf : bytes) : bytes := buf ++ replicate (n - length buf) NUL.
Definition untabled (mem : bytes) : bytes :=
  take TABLE_OFF mem ++ replicate 8 NUL ++ drop (TABLE_OFF + 8) mem.

(** What a reply without an error means to the caller. *)
Definition accepted (v : variant) (r : O9Reply) : option (Z * option bytes) :=
  let fits n f :=
    match r_retbuf r with
    | None | Some [] => None
    | Some buf => if decide (length buf <= n)%nat then Some (0, Some (f (filled n buf))) else None
    end in
  match v with
  | SendN => Some (r_ret r, Some [])
  | SendDoubleN => Some (r_dret r, Some [])
  | SendObjectN old => fits (length old) untabled
  | SendStructN old => fits (length old) id
  end.

(** The reply decides, when the message was sent. *)
Definition outcome (v : variant) (sent : bool) (reply : option O9Reply) : option (Z * option bytes) :=
  if sent then
    match reply with
    | Some r => match r_err r with Some _ => None | None => accepted v r end
    | None => None
    end
  else None.

(** ** The other processes *)

(** The recorded calls of the caller. *)
Definition own (a : option chan) (es : edges) : edges :=
  filter (fun e => a = Some (e_caller e)) es.

(** They have their own context and error string, do not send for the caller,
    record no calls of it (they may take some out, as [o9_dag_actor_exit] does
    for an actor that ended: [actor_exit_rely]), and never enter its wait into
    the pending table (they may take it out). *)
Record rely (k : call_id) (w w' : world) : Prop := {
  rl_ctx : w_ctx w' = w_ctx w;
  rl_errstr : w_errstr w' = w_errstr w;
  rl_sent : w_sent w' = w_sent w;
  rl_own : own (cx_actor_chan (w_ctx w)) (w_edges w') ⊆+ own (cx_actor_chan (w_ctx w)) (w_edges w);
  rl_slots : (slots k (w_pend w') <= slots k (w_pend w))%nat }.

Definition well_behaved (o : outside) : Prop := forall p w, rely (o_call o) w (o_env o p w).

(** ** Lemmas *)

Lemma submseteq_one {A} (l : list A) x : l ⊆+ [x] -> l = [] \/ l = [x].
Proof.
  intros H. pose proof (submseteq_length _ _ H) as Hl. destruct l as [|y [|z l]]; simpl in Hl; [by left| |lia].
  right. by apply singleton_submseteq in H as ->.
Qed.

(** The end of any actor, the called one included, is within [rely]. *)
Lemma actor_exit_rely k a l w : rely k w (set_edges (o9_dag_actor_exit a (w_edges w) l).1 w).
Proof.
  split; try done. cbn [w_edges set_edges]. unfold o9_dag_actor_exit. destruct a as [a|]; [|done]. cbn [fst].
  unfold own. rewrite (exit_loop_filter _ 0 a (w_edges w)) by (lia || constructor).
  rewrite list_filter_filter, (list_filter_iff _ (fun e => untouched a e /\ cx_actor_chan (w_ctx w) = Some (e_caller e))) by tauto.
  rewrite <- (list_filter_filter (untouched a)). apply sublist_submseteq, sublist_filter.
Qed.

Lemma begin_spec fp chan oid method c es :
  let '(rc, c', es') := o9_dag_call_begin fp (Some chan) oid method c es in
  cx_actor_chan c' = cx_actor_chan c /\
  (if decide (rc < 0) then is_Some (cx_err c') /\ es' = es
   else c' = c /\ (es' = es \/ exists e, es' = es ++ [e] /\ Some (e_caller e) = cx_actor_chan c /\ e_callee e = chan)).
Proof.
  unfold o9_dag_call_begin. destruct (cx_actor_chan c) as [a|] eqn:Ha.
  2:{ rewrite decide_False by lia. auto. }
  case_decide as Hself; [split; [exact Ha|]; rewrite decide_True by lia; eauto|].
  destruct (o9_path_exists_locked _ _ _); [split; [exact Ha|]; rewrite decide_True by lia; eauto|].
  destruct (decide (length es < _)%nat); (split; [done|]); rewrite decide_False by lia; [|auto].
  split; [done|]. right. eexists. split; [reflexivity|done].
Qed.

Lemma own_app a es es' : own a (es ++ es') = own a es ++ own a es'.
Proof. apply filter_app. Qed.

(** The end of a call takes the caller's only edge out. *)
Lemma end_own c chan es :
  (own (cx_actor_chan c) es = [] \/ exists e, own (cx_actor_chan c) es = [e] /\ e_callee e = chan) ->
  own (cx_actor_chan c) (o9_dag_call_end (Some chan) c es) = [].
Proof.
  unfold o9_dag_call_end. destruct (cx_actor_chan c) as [a|].
  2:{ intros _. unfold own. clear. induction es; [done|]. by rewrite filter_cons_False. }
  intros Hown. destruct (list_find _ es) as [[i e]|] eqn:E.
  - apply list_find_Some in E as (Hi & [Hc He] & _).
    pose proof (swap_remove_perm es i e Hi) as Hp.
    assert (Hq : own (Some a) es ≡ₚ e :: own (Some a) (swap_remove i es)).
    { unfold own. rewrite Hp at 1. rewrite filter_cons_True by congruence. done. }
    destruct Hown as [H0|(e' & H1 & _)].
    + rewrite H0 in Hq. by apply Permutation_nil_l in Hq.
    + rewrite H1 in Hq. apply Permutation_length in Hq. simpl in Hq. by destruct (own (Some a) (swap_remove i es)).
  - apply list_find_None in E. destruct Hown as [H0|(e & H1 & He)]; [done|].
    assert (Hin : e ∈ own (Some a) es) by (rewrite H1; by apply list_elem_of_singleton).
    apply list_elem_of_filter in Hin as [Ha Hin]. rewrite Forall_forall in E.
    destruct (E e Hin). split; congruence.
Qed.

Section send.
Variable o : outside.
Hypothesis Henv : well_behaved o.
Notation k := (o_call o).

(** Where a call is: its process's context is the one it started with, the
    caller has at most the call's own edge ([opened]), the pending table has
    at most [n] entries of the wait, and the process has sent [sent]. *)
Record follows (w0 : world) (chan : ptr) (opened : bool) (n : nat) (sent : list (ptr * O9Msg)) (w : world) : Prop := {
  f_ctx : w_ctx w = w_ctx w0;
  f_sent : w_sent w = sent;
  f_own : own (cx_actor_chan (w_ctx w0)) (w_edges w0) = [] ->
    own (cx_actor_chan (w_ctx w0)) (w_edges w) = [] \/
    (opened = true /\ exists e, own (cx_actor_chan (w_ctx w0)) (w_edges w) = [e] /\ e_callee e = chan);
  f_slots : slots k (w_pend w0) = 0%nat -> (slots k (w_pend w) <= n)%nat }.

Lemma follows_start w chan : follows w chan false 0 (w_sent w) w.
Proof. split; [done..|by left|lia]. Qed.

Lemma follows_env p w0 chan b n l w : follows w0 chan b n l w -> follows w0 chan b n l (o_env o p w).
Proof.
  intros [Hc Hs Ho Hn]. destruct (Henv p w) as [Rc _ Rs Ro Rn]. split.
  - by rewrite Rc.
  - by rewrite Rs.
  - intros H. rewrite Hc in Ro. destruct (Ho H) as [H0|(-> & e & H1 & He)].
    + left. rewrite H0 in Ro. by apply submseteq_nil_r in Ro.
    + rewrite H1 in Ro. apply submseteq_one in Ro as [-> | ->]; [by left|]. right. split; [done|]. by exists e.
  - intros H. specialize (Hn H). lia.
Qed.

Lemma follows_wait n' w0 chan b n l w : follows w0 chan b n l w -> follows w0 chan b n l (set_wait n' w).
Proof. intros [Hc Hs Ho Hn]. by split. Qed.

Lemma follows_begin w0 chan obj method n l w : follows w0 chan false n l w ->
  let '(rc, w') := call_begin o chan obj method w in
  if decide (rc < 0) then
    cx_actor_chan (w_ctx w') = cx_actor_chan (w_ctx w0) /\ is_Some (cx_err (w_ctx w')) /\
    w_edges w' = w_edges w /\ w_pend w' = w_pend w /\ w_sent w' = l
  else follows w0 chan true n l w'.
Proof.
  intros [Hc Hs Ho Hn]. unfold call_begin.
  pose proof (begin_spec (o_fmt_p o) chan (Some (ob_oid obj)) method (w_ctx w) (w_edges w)) as H.
  destruct (o9_dag_call_begin _ _ _ _ _ _) as [[rc c] es]. destruct H as [Ha H].
  destruct (decide (rc < 0)) as [Hrc|Hrc]; cbn [w_ctx w_edges w_pend w_sent werrstr set_edges set_ctx].
  - destruct H as [He ->]. by rewrite Ha, Hc.
  - destruct H as [-> H]. split; cbn [w_ctx w_edges w_pend w_sent set_edges set_ctx]; [done..| |done].
    intros H0. destruct (Ho H0) as [H1|[? _]]; [|done]. destruct H as [->|(e & -> & Hca & Hce)]; [by left|].
    right. split; [done|]. exists e. rewrite own_app, H1. split; [|done].
    unfold own. rewrite filter_cons_True by (rewrite Hca; by rewrite Hc). done.
Qed.

Lemma follows_end w0 chan b n l w : follows w0 chan b n l w -> follows w0 chan false n l (call_end chan w).
Proof.
  intros [Hc Hs Ho Hn]. split; [done..| |done]. intros H. left. unfold call_end, set_edges. cbn [w_edges].
  rewrite <- Hc. apply end_own. rewrite Hc. destruct (Ho H) as [?|(_ & ?)]; auto.
Qed.

Lemma follows_register w0 chan b l w : follows w0 chan b 0 l w ->
  let '(slot, w') := register_wait o chan w in follows w0 chan b (if decide (slot < 0) then 0 else 1) l w'.
Proof.
  intros [Hc Hs Ho Hn]. unfold register_wait.
  pose proof (register_spec (o_ctid o) 0 k (Some chan) None false None (Some k) (w_pend w)) as H.
  destruct (o9_pending_register _ _ _ _ _ _ _ _ _) as [slot tab].
  destruct (decide (slot < 0)); [by split|]. destruct H as [H _]. split; [done..|].
  intros H0. cbn [w_pend set_pend]. rewrite H, decide_True by done. specialize (Hn H0). lia.
Qed.

Lemma follows_complete w0 chan b n l w : (n <= 1)%nat -> follows w0 chan b n l w ->
  follows w0 chan b 0 l (o9_pending_complete o w).
Proof.
  intros Hle [Hc Hs Ho Hn]. unfold o9_pending_complete. pose proof (take_spec k (w_pend w)) as H.
  destruct (o9_pending_take _ _) as [[task sync] tab]. destruct H as [_ H].
  split; [done..|]. intros H0. cbn [w_pend set_pend]. specialize (Hn H0).
  destruct H as [(Hz & -> & _)|[_ H]]; [lia|]. specialize (H k). rewrite decide_True in H by done. lia.
Qed.

(** A call that has ended leaves neither an edge nor an entry. *)
Definition clean (w0 w : world) : Prop :=
  cx_actor_chan (w_ctx w) = cx_actor_chan (w_ctx w0) /\
  (own (cx_actor_chan (w_ctx w0)) (w_edges w0) = [] -> own (cx_actor_chan (w_ctx w0)) (w_edges w) = []) /\
  (slots k (w_pend w0) = 0%nat -> slots k (w_pend w) = 0%nat).

Lemma follows_clean w0 chan l w : follows w0 chan false 0 l w -> clean w0 w.
Proof.
  intros [Hc Hs Ho Hn]. split; [by rewrite Hc|]. split.
  - intros H. by destruct (Ho H) as [?|[? _]].
  - intros H. specialize (Hn H). lia.
Qed.

Lemma clean_env p w0 w : clean w0 w -> clean w0 (o_env o p w).
Proof.
  intros (Hc & Ho & Hn). destruct (Henv p w) as [Rc _ _ Ro Rn]. split; [by rewrite Rc|]. split.
  - intros H. rewrite Hc, (Ho H) in Ro. by apply submseteq_nil_r in Ro.
  - intros H. specialize (Hn H). lia.
Qed.

Lemma given_up w0 chan l e w : follows w0 chan false 0 l w ->
  clean w0 (fail e w) /\ is_Some (cx_err (w_ctx (fail e w))) /\ w_sent (fail e w) = l.
Proof.
  intros H. split; [by apply (follows_clean _ _ _ _ H)|]. split; [by eexists|]. apply H.
Qed.

Lemma send_receive_spec obj chan method sel args nargs w :
  let '(res, w') := send_receive o obj chan method sel args nargs w in
  clean w w' /\
  match res with
  | inl _ => is_Some (cx_err (w_ctx w')) /\ w_sent w' = w_sent w
  | inr r => r = o_reply o /\ stale o obj chan (o_env o PLookup w) = false /\
      w_sent w' = w_sent w ++ [(chan, make_msg o sel args nargs w)]
  end.
Proof.
  unfold send_receive. pose proof (follows_env PLookup _ _ _ _ _ _ (follows_start w chan)) as F.
  destruct (stale o obj chan (o_env o PLookup w)) eqn:Hst; [by apply (given_up w chan)|].
  apply (follows_env PBegin), (follows_begin _ _ obj method) in F.
  destruct (call_begin _ _ _ _ _) as [rc w1]. destruct (decide (rc < 0)).
  { pose proof (follows_clean _ _ _ _ (follows_env PBegin _ _ _ _ _ _ (follows_env PLookup _ _ _ _ _ _ (follows_start w chan)))) as (_ & C2 & C3).
    destruct F as (Fa & Fe & Fed & Fp & Fs). unfold clean. rewrite Fed, Fp. auto. }
  destruct (o_alloc o); cbn [negb]; [|eapply (given_up w chan), follows_end, follows_env; exact F].
  assert (Hm : make_msg o sel args nargs w1 = make_msg o sel args nargs w).
  { unfold make_msg. by rewrite (f_ctx _ _ _ _ _ _ F). }
  apply (follows_wait 1), (follows_env PRegister), follows_register in F.
  destruct (register_wait _ _ _) as [slot w2]. destruct (decide (slot < 0)).
  { eapply (given_up w chan), follows_end, follows_env, follows_wait; exact F. }
  apply (follows_env PSend) in F. destruct (o_send o); cbn [negb].
  2:{ eapply (given_up w chan), follows_wait, follows_env, (follows_complete _ _ _ 1), follows_env, follows_end, follows_env; [done|exact F]. }
  rewrite Hm. set (w3 := set_sent _ _ _).
  assert (F3 : follows w chan true 1 (w_sent w ++ [(chan, make_msg o sel args nargs w)]) w3).
  { destruct F as [Fc Fs Fo Fn]. split; try done. unfold w3. simpl. by rewrite Fs. }
  apply (follows_env PWait), (follows_env PComplete), (follows_complete _ _ _ 1) in F3; [|done].
  apply (follows_env PEnd), follows_end in F3. split; [exact (follows_clean _ _ _ _ F3)|].
  split; [done|]. split; [done|]. exact (f_sent _ _ _ _ _ _ F3).
Qed.
End send.

(** ** The outcome of a call *)

Lemma write_filled n buf : (length buf <= n)%nat -> write_at 0 buf (zeroed n) = Some (filled n buf).
Proof.
  intros H. unfold write_at, zeroed, filled. rewrite length_replicate, decide_True by lia. simpl.
  by rewrite drop_replicate.
Qed.

Lemma filled_length n buf : (length buf <= n)%nat -> length (filled n buf) = n.
Proof. intros H. unfold filled. rewrite length_app, length_replicate. lia. Qed.

Lemma cleared_table mem : (TABLE_OFF + 8 <= length mem)%nat -> clear_table mem = Some (untabled mem).
Proof. intros H. unfold clear_table, write_at, untabled. rewrite length_replicate. by rewrite decide_True. Qed.

Lemma untabled_length mem : (TABLE_OFF + 8 <= length mem)%nat -> length (untabled mem) = length mem.
Proof. intros H. unfold untabled. rewrite !length_app, length_replicate, length_take, length_drop. lia. Qed.

(** The verdict on an answered or given-up call. *)
Definition verdict (v : variant) (sent : bool) (reply : option O9Reply) (res : Z * option bytes) (w' : world) : Prop :=
  match outcome v sent reply with
  | Some res' => res = res' /\ o9_get_call_err (w_ctx w') = None
  | None => res = failed v /\ is_Some (o9_get_call_err (w_ctx w'))
  end.

(** The last part of a call changes only the process's context. *)
Definition same_tables (w w' : world) : Prop :=
  cx_actor_chan (w_ctx w') = cx_actor_chan (w_ctx w) /\ w_edges w' = w_edges w /\ w_pend w' = w_pend w /\
  w_sent w' = w_sent w.

Lemma copy_reply_spec v n nodata oversized post f r w :
  (forall buf, (length buf <= n)%nat -> post (filled n buf) = Some (f (filled n buf))) ->
  failed v = (-1, Some (zeroed n)) ->
  (forall r, accepted v r = match r_retbuf r with
     | None | Some [] => None
     | Some buf => if decide (length buf <= n)%nat then Some (0, Some (f (filled n buf))) else None
     end) ->
  let '(res, w') := copy_reply nodata oversized post n r w in
  verdict v true r res w' /\ same_tables w w'.
Proof.
  intros Hpost Hf Hacc. unfold copy_reply, verdict, outcome. rewrite Hf.
  destruct r as [r|]; [|by split; [split; [done|by eexists]|]].
  rewrite Hacc. destruct (r_err r) as [e|]; [by split; [split; [done|by eexists]|]|].
  destruct (r_retbuf r) as [[|b buf]|]; [by split; [split; [done|by eexists]|]| |by split; [split; [done|by eexists]|]].
  destruct (decide (n < length (b :: buf))%nat).
  - rewrite decide_False by lia. by split; [split; [done|by eexists]|].
  - rewrite decide_True, write_filled by lia. cbn [mbind option_bind]. rewrite Hpost by lia. done.
Qed.

Section verdicts.
Variable o : outside.
Hypothesis Henv : well_behaved o.
Variables (obj : o9_Object) (method : option bytes) (sel : Z) (args : option ptr) (nargs : Z).

(** The message left, to the channel of a handle that was current. *)
Definition delivered (sent : bool) (w w' : world) : Prop :=
  if sent then
    exists chan, ob_dispatch_chan obj = Some chan /\ stale o obj chan (o_env o PLookup w) = false /\
      w_sent w' = w_sent w ++ [(chan, make_msg o sel args nargs w)]
  else w_sent w' = w_sent w.

Definition call_ok (v : variant) (w : world) (p : (Z * option bytes) * world) : Prop :=
  clean o w p.2 /\ exists sent, delivered sent w p.2 /\ verdict v sent (o_reply o) p.1 p.2.

Lemma local_only v w e : call_ok v w (failed v, fail e w).
Proof.
  split; [by split|]. exists false. split; [done|]. unfold verdict, outcome. split; [done|by eexists].
Qed.

(** What a call does with the answer. *)
Lemma answered v w chan (f : option O9Reply -> world -> (Z * option bytes) * world) :
  ob_dispatch_chan obj = Some chan ->
  (forall r w1, verdict v true r (f r w1).1 (f r w1).2 /\ same_tables w1 (f r w1).2) ->
  call_ok v w (match send_receive o obj chan method sel args nargs w with
               | (inl _, w) => (failed v, w)
               | (inr r, w) => finish o (f r w)
               end).
Proof.
  intros Hchan Hf. pose proof (send_receive_spec o Henv obj chan method sel args nargs w) as H.
  destruct (send_receive _ _ _ _ _ _ _ _) as [[u|r] w1]; destruct H as [Hc H].
  - destruct H as [He Hs]. split; [done|]. exists false. split; [done|]. by split.
  - destruct H as (-> & Hst & Hs). destruct (Hf (o_reply o) w1) as [Hv (Ha & Hed & Hp & Hse)].
    destruct (f (o_reply o) w1) as [res w2]. cbn [fst snd] in *. unfold finish. cbn [fst snd].
    assert (Hc2 : clean o w w2).
    { destruct Hc as (C1 & C2 & C3). unfold clean. by rewrite Ha, Hed, Hp. }
    pose proof (clean_env o Henv PRelease w w2 Hc2) as Hc3. destruct (Henv PRelease w2) as [Rc _ Rs _ _].
    split; [exact Hc3|]. exists true. split.
    + exists chan. cbn [w_sent o9_sync_release set_wait snd]. rewrite Rs, Hse. auto.
    + unfold verdict in *. cbn [w_ctx o9_sync_release set_wait fst snd]. by rewrite Rc.
Qed.

(** A call whose answer is a number. *)
Lemma answered_value v value w chan :
  ob_dispatch_chan obj = Some chan -> failed v = (0, Some []) ->
  (forall r, accepted v r = Some (value r, Some [])) ->
  call_ok v w (let '(r, w') :=
      match send_receive o obj chan method sel args nargs w with
      | (inl _, w) => (0, w)
      | (inr r, w) => finish o (value_reply value r w)
      end in ((r, Some []), w')).
Proof.
  intros Hc Hf Hacc.
  pose proof (answered v w chan (fun r w1 => ((value_reply value r w1).1, Some [], (value_reply value r w1).2)) Hc) as H.
  destruct (send_receive _ _ _ _ _ _ _ _) as [[u|r] w1]; [rewrite Hf in H|]; apply H; clear H; intros r' w';
    unfold verdict, outcome, value_reply; cbn [fst snd]; rewrite Hf;
    (destruct r' as [r'|]; [rewrite Hacc; destruct (r_err r')|]); by split; [split; [done|]; try by eexists|].
Qed.

Lemma msg_send_ok v w : room v -> call_ok v w (msg_send o v obj method sel args nargs w).
Proof.
  intros Hroom. unfold msg_send, obj9_msgSendN, obj9_msgSendDoubleN, obj9_msgSendObjectN, obj9_msgSendStructN.
  destruct v as [| |old|old]; simpl in Hroom;
    try (destruct old as [|x old0]; [unfold TABLE_OFF in Hroom; simpl in Hroom; lia|set (old := x :: old0) in *]);
    destruct (ob_dispatch_chan obj) as [chan|] eqn:Hc.
  - by apply answered_value.
  - apply (local_only SendN).
  - by apply answered_value.
  - apply (local_only SendDoubleN).
  - apply (answered (SendObjectN old)); [done|]. intros r w1.
    pose proof (copy_reply_spec (SendObjectN old) (length old) (str "object method returned no handle data")
      (str "object method returned oversized handle") clear_table untabled r w1) as H.
    destruct (copy_reply _ _ _ _ _ _) as [res w2]. apply H; [|done..].
    intros buf Hb. apply cleared_table. by rewrite filled_length.
  - apply (local_only (SendObjectN old)).
  - apply (answered (SendStructN old)); [done|]. intros r w1.
    pose proof (copy_reply_spec (SendStructN old) (length old) (str "object method returned no struct data")
      (str "object method returned oversized struct") Some id r w1) as H.
    destruct (copy_reply _ _ _ _ _ _) as [res w2]. by apply H.
  - apply (local_only (SendStructN old)).
Qed.
End verdicts.

(** ** Theorems *)

(** The bytes of the destination. *)
Definition dest_size (v : variant) : nat :=
  match v with SendN | SendDoubleN => 0%nat | SendObjectN old | SendStructN old => length old end.

Lemma outcome_size v sent reply res om : room v -> outcome v sent reply = Some (res, om) ->
  exists mem, om = Some mem /\ length mem = dest_size v.
Proof.
  intros Hroom. unfold outcome. destruct sent; [|done]. destruct reply as [r|]; [|done]. destruct (r_err r); [done|].
  destruct v as [| |old|old]; simpl in *; [by intros [= _ <-]; eauto..| |];
    destruct (r_retbuf r) as [[|b buf]|]; try done; (destruct (decide (length (b :: buf) <= length old)%nat); [|done]);
    intros [= _ <-]; eexists; (split; [done|]); [rewrite untabled_length|]; rewrite ?filled_length; done.
Qed.

Lemma failed_size v : exists mem, (failed v).2 = Some mem /\ length mem = dest_size v.
Proof. destruct v; eexists; (split; [done|]); simpl; by rewrite ?length_replicate. Qed.

(** The number of messages tells whether the message left. *)
Definition sent_one (w w' : world) : bool := bool_decide (length (w_sent w') = S (length (w_sent w))).

Lemma delivered_sent_one o obj sel args nargs sent w w' :
  delivered o obj sel args nargs sent w w' -> sent_one w w' = sent.
Proof.
  unfold delivered, sent_one. destruct sent.
  - intros (? & _ & _ & ->). rewrite length_app. simpl. apply bool_decide_eq_true. lia.
  - intros ->. apply bool_decide_eq_false. lia.
Qed.

(** C4: whatever the other processes do and whichever step fails, a call whose
    destination holds at least one byte, and for an object return at least the
    24 bytes of a client header, returns the value (or the destination's
    bytes, never written out of bounds) of the reply and clears the call error
    exactly when its message was sent and the reply has no error and holds
    data that fits; otherwise it returns the failure value, a zeroed
    destination, and an error.  The other processes are free within [rely].
    ([small_destination_overrun] shows a smaller destination.) *)
Theorem call_outcome o v obj method sel args nargs w : well_behaved o -> room v ->
  let '(res, w') := msg_send o v obj method sel args nargs w in
  (exists mem, res.2 = Some mem /\ length mem = dest_size v) /\
  match outcome v (sent_one w w') (o_reply o) with
  | Some res' => res = res' /\ o9_get_call_err (w_ctx w') = None
  | None => res = failed v /\ is_Some (o9_get_call_err (w_ctx w'))
  end.
Proof.
  intros Henv Hroom. destruct (msg_send_ok o Henv obj method sel args nargs v w Hroom) as (_ & sent & Hd & Hv).
  destruct (msg_send o v obj method sel args nargs w) as [res w']. cbn [fst snd] in *.
  apply delivered_sent_one in Hd. rewrite Hd. split; [|exact Hv].
  unfold verdict in Hv. destruct (outcome v sent (o_reply o)) as [[r om]|] eqn:E; destruct Hv as [-> _].
  - by eapply outcome_size.
  - apply failed_size.
Qed.

(** C16: a call sends at most one message, the one that it made, and only to
    the channel in its handle, which was not closing at the moment of the
    check; when the handle came from the registry (it has an object id and a
    generation), the registry then had this generation and this channel under
    the id.  Handles without an id or a generation are not looked up, and
    the registry may change after the check. *)
Theorem call_sends_to_current o v obj method sel args nargs w : well_behaved o -> room v ->
  let '(_, w') := msg_send o v obj method sel args nargs w in
  w_sent w' = w_sent w \/
  exists chan, ob_dispatch_chan obj = Some chan /\ w_sent w' = w_sent w ++ [(chan, make_msg o sel args nargs w)] /\
    o_closing o = false /\
    (ob_oid obj <> [] -> ob_gen obj <> 0 -> exists h,
       o9_registry_lookup (o_started o) (Some (ob_oid obj)) (w_reg (o_env o PLookup w)) = (0, Some h) /\
       h_gen h = ob_gen obj /\ h_chan h = Some chan).
Proof.
  intros Henv Hroom. destruct (msg_send_ok o Henv obj method sel args nargs v w Hroom) as (_ & sent & Hd & _).
  destruct (msg_send o v obj method sel args nargs w) as [res w']. cbn [fst snd] in *.
  destruct sent; [right|by left]. destruct Hd as (chan & Hc & Hst & Hs). exists chan.
  unfold stale in Hst. apply orb_false_iff in Hst as [Hcl Hst]. split_and!; [done..|].
  intros Hoid Hgen. destruct (ob_oid obj) as [|b oid]; [done|]. rewrite decide_False in Hst by done.
  destruct (o9_registry_lookup _ _ _) as [[| |] [h|]]; try done. exists h.
  apply negb_false_iff, bool_decide_eq_true in Hst. split; [done|apply Hst].
Qed.

(** C22: on every path a call takes back what it recorded, also when the ends
    of other actors have taken edges of the graph or entries of the table out
    meanwhile: an actor that was in no call has no edge in the call graph when
    the call returns, and the pending table has no entry of the call's wait. *)
Theorem call_leaves_no_record o v obj method sel args nargs w : well_behaved o -> room v ->
  own (cx_actor_chan (w_ctx w)) (w_edges w) = [] -> slots (o_call o) (w_pend w) = 0%nat ->
  let '(_, w') := msg_send o v obj method sel args nargs w in
  own (cx_actor_chan (w_ctx w)) (w_edges w') = [] /\ slots (o_call o) (w_pend w') = 0%nat.
Proof.
  intros Henv Hroom Ho Hn. destruct (msg_send_ok o Henv obj method sel args nargs v w Hroom) as ((_ & H1 & H2) & _).
  destruct (msg_send o v obj method sel args nargs w). auto.
Qed.

(** A destination that is smaller than the client header is written past its
    end: only the reply's size is compared with it. *)
Lemma small_destination_overrun r w :
  r_err r = None -> r_retbuf r = Some (str "handle") ->
  (copy_reply (str "object method returned no handle data") (str "object method returned oversized handle")
     clear_table 8 (Some r) w).1 = (0, None).
Proof. intros He Hb. unfold copy_reply. rewrite He, Hb. reflexivity. Qed.

(** ** Witnesses *)

(** Actor 1 calls the object "acct" of actor 2, which takes the wait out of
    the pending table, answers with six bytes and ends. *)
Definition peer_env (k : call_id) (p : point) (w : world) : world :=
  match p with PWait => set_pend (w_ref w) (o9_pending_take (Some k) (w_pend w)).2 w
  | PComplete => set_edges (o9_dag_actor_exit (Some 2%positive) (w_edges w) []).1 w
  | _ => w
  end.

Definition peer : outside :=
  MkOut false true true 0 0 true (Some (MkReply 7 0 (Some (str "handle")) None)) None (fun _ => []) (peer_env 0).

Definition acct : o9_Object := MkObj (Some 2%positive) (str "acct") 1.

Definition caller_world : world :=
  MkWorld (actor_ctx 1%positive) [] []
    (o9_registry_register true (Some (str "acct")) (Some (str "Account")) (Some 2%positive) None []).2
    pend_tab0 0 [].

Lemma peer_well_behaved : well_behaved peer.
Proof.
  intros p w. destruct p; try by split. 2:{ apply actor_exit_rely. } split; try done. unfold peer, peer_env; cbn [o_env o_call w_pend set_pend].
  pose proof (take_spec 0 (w_pend w)) as H. destruct (o9_pending_take _ _) as [ts tab]. cbn [snd].
  destruct H as [_ [(_ & -> & _)|[_ H]]]; [done|]. specialize (H 0%nat). simpl in H. lia.
Qed.

Lemma call_outcome_witness :
  let '(res, w') := msg_send peer (SendObjectN (replicate 32 xff)) acct None 5 None 0 caller_world in
  sent_one caller_world w' = true /\
  res = (0, Some (untabled (filled 32 (str "handle")))) /\ o9_get_call_err (w_ctx w') = None.
Proof.
  pose proof (call_outcome peer (SendObjectN (replicate 32 xff)) acct None 5 None 0 caller_world peer_well_behaved ltac:(vm_compute; lia)) as H.
  assert (Hs : sent_one caller_world (msg_send peer (SendObjectN (replicate 32 xff)) acct None 5 None 0 caller_world).2 = true) by (vm_compute; reflexivity).
  destruct (msg_send peer (SendObjectN (replicate 32 xff)) acct None 5 None 0 caller_world) as [res w']. cbn [snd] in Hs.
  rewrite Hs in H. split; [exact Hs|]. apply H.
Defined.

Lemma call_sends_to_current_witness :
  let '(_, w') := msg_send peer SendN acct None 5 None 0 caller_world in
  w_sent w' <> [] /\ exists h,
    o9_registry_lookup true (Some (str "acct")) (w_reg caller_world) = (0, Some h) /\ h_gen h = 1.
Proof.
  pose proof (call_sends_to_current peer SendN acct None 5 None 0 caller_world peer_well_behaved I) as H.
  assert (Hs : sent_one caller_world (msg_send peer SendN acct None 5 None 0 caller_world).2 = true) by (vm_compute; reflexivity).
  destruct (msg_send peer SendN acct None 5 None 0 caller_world) as [res w']. cbn [snd] in Hs.
  unfold sent_one in Hs. apply bool_decide_eq_true in Hs. destruct H as [H|(chan & _ & Hw & _ & H)].
  - rewrite H in Hs. simpl in Hs. lia.
  - split; [rewrite Hw; done|]. destruct H as (h & H1 & H2 & _); [done..|]. exists h. by split.
Defined.

Lemma call_leaves_no_record_witness :
  let '(_, w') := msg_send peer SendN acct None 5 None 0 caller_world in
  own (Some 1%positive) (w_edges w') = [] /\ slots 0 (w_pend w') = 0%nat.
Proof.
  apply (call_leaves_no_record peer SendN acct None 5 None 0 caller_world peer_well_behaved I); vm_compute; reflexivity.
Defined.
