(* ===== verification/TextArray.v ===== *)
(** * Arrays of integers kept as text ([o9_array_*] in [o9_runtime.c])

    The storage of an attribute array is a C string with one number per line;
    [nil] is an array that was never set. *)
From S2P Require Import Prelude Fmt.

Open Scope Z_scope.

(** ** Operations *)

(** [p] after [n] times [strchr(p, '\n') + 1]. *)
Fixpoint skip_lines (n : nat) (p : bytes) : option bytes :=
  match n with
  | O => Some p
  | S n' => match strchr NL p with (_, Some p') => skip_lines n' p' | (_, None) => None end
  end.

(** [q] in front of the first byte that is no blank. *)
Fixpoint skip_blank (q : bytes) : bytes :=
  match q with
  | c :: q' => if decide (c = x20 \/ c = TAB) then skip_blank q' else q
  | [] => []
  end.

Definition o9_array_get (data : option bytes) (idx : Z) : Z :=
  match data with
  | None => 0
  | Some d =>
      if decide (idx < 0) then 0
      else match skip_lines (Z.to_nat idx) d with
           | None => 0
           | Some p =>
               match skip_blank p with
               | [] => 0
               | c :: _ => if decide (c = NL) then 0 else (strtol 0 p).1
               end
           end
  end.

Definition count_nl (d : bytes) : Z := Z.of_nat (length (filter (fun c => c = NL) d)).

(** The last line counts with or without its newline. *)
Definition o9_array_len (data : option bytes) : Z :=
  match data with
  | None | Some [] => 0
  | Some d => count_nl d + (if decide (last d = Some NL) then 0 else 1)
  end.

(** The loop that rebuilds the text: lines [i ..] of which [n] are left. *)
Fixpoint rebuild (n : nat) (i idx : Z) (buf p : bytes) : bytes :=
  match n with
  | O => []
  | S n' =>
      let '(line, rest) := strchr NL p in
      (if decide (i = idx) then buf else line ++ [NL]) ++ rebuild n' (i + 1) idx buf (default [] rest)
  end.

(** The text of [val] and the new data; [None] dereferences nil. *)
Definition value_line (val : Z) : bytes := snprint 32 (itoa val ++ [NL]).

Definition o9_array_set (data : option bytes) (idx val : Z) : option bytes :=
  let buf := value_line val in
  let curlen := o9_array_len data in
  if decide (idx < curlen) then
    match data with
    | None => None
    | Some dp => Some (rebuild (Z.to_nat curlen) 0 idx buf dp)
    end
  else
    let dp := default [] data in
    Some (dp ++ (if decide (dp = [] \/ last dp = Some NL) then [] else [NL])
            ++ replicate (Z.to_nat (idx - curlen)) NL ++ buf).

(** The bytes that [o9_array_set] allocates for the new text; [need] is an
    [int]. *)
Definition array_set_newsize (data : option bytes) (idx val : Z) : Z :=
  let len := Z.of_nat (length (default [] data)) in
  let curlen := o9_array_len data in
  if decide (idx < curlen) then len + Z.of_nat (length (value_line val)) + 2
  else len + i32 (i32 (idx - curlen + 1) * 2) + 32.

(** ** Specification: a list of numbers *)

Inductive arr_op := Set_ (idx : nat) (val : Z) | Get (idx : Z) | Len.
Inductive arr_ret := RNone | RVal (v : Z).

(** [strtol] reads the text of a number as a [long] of 32 bits. *)
Definition long_of (v : Z) : Z := clamp (- 2 ^ 31) (2 ^ 31 - 1) v.

Definition arr_do (d : option bytes) (op : arr_op) : arr_ret * option bytes :=
  match op with
  | Set_ i v => (RNone, o9_array_set d (Z.of_nat i) (i64 v))
  | Get i => (RVal (o9_array_get d i), d)
  | Len => (RVal (o9_array_len d), d)
  end.

(** Setting beyond the end fills up with unset elements, which read 0. *)
Definition list_do (l : list (option Z)) (op : arr_op) : arr_ret * list (option Z) :=
  match op with
  | Set_ i v =>
      (RNone, if decide (i < length l)%nat then <[i := Some (i64 v)]> l
              else l ++ replicate (i - length l) None ++ [Some (i64 v)])
  | Get i =>
      (RVal (if decide (i < 0) then 0
             else match l !! Z.to_nat i with Some (Some v) => long_of v | _ => 0 end), l)
  | Len => (RVal (Z.of_nat (length l)), l)
  end.

(** ** Lemmas *)

Definition line (x : option Z) : bytes := match x with Some v => itoa v | None => [] end.
Definition text (l : list (option Z)) : bytes := concat ((fun x => line x ++ [NL]) <$> l).

Lemma line_nl x : NL ∉ line x.
Proof.
  destruct x as [v|]; [|by apply not_elem_of_nil]. intros [?|H]%itoa_chars; [done|].
  change (uchar NL) with 10 in H. lia.
Qed.

Lemma text_cons x l : text (x :: l) = line x ++ NL :: text l.
Proof. unfold text. simpl. by rewrite <- app_assoc. Qed.

Lemma text_app l k : text (l ++ k) = text l ++ text k.
Proof. unfold text. by rewrite fmap_app, concat_app. Qed.

Lemma text_unset n : text (replicate n None) = replicate n NL.
Proof. induction n as [|n IH]; [done|]. simpl. rewrite text_cons. simpl. by rewrite IH. Qed.

Lemma skip_text n l : skip_lines n (text l) = if decide (n <= length l)%nat then Some (text (drop n l)) else None.
Proof.
  revert l. induction n as [|n IH]; intros l; [done|]. destruct l as [|x l]; [done|].
  cbn [skip_lines]. rewrite text_cons, strchr_some by apply line_nl. rewrite IH. simpl length.
  by repeat case_decide; try lia.
Qed.

Lemma count_text l : count_nl (text l) = Z.of_nat (length l).
Proof.
  unfold count_nl. f_equal. induction l as [|x l IH]; [done|]. rewrite text_cons, filter_app, length_app.
  rewrite filter_cons_True by done. simpl. rewrite IH.
  assert (H : filter (fun c => c = NL) (line x) = []).
  { pose proof (line_nl x) as Hn. induction (line x) as [|c s IHs]; [done|].
    apply not_elem_of_cons in Hn as [? ?]. rewrite filter_cons_False by auto. auto. }
  by rewrite H.
Qed.

Lemma text_last l : l <> [] -> last (text l) = Some NL.
Proof.
  intros H. destruct l as [|x l _] using rev_ind; [done|]. rewrite text_app, text_cons.
  change (text []) with (@nil byte). by rewrite app_assoc, last_snoc.
Qed.

Lemma len_text l : o9_array_len (Some (text l)) = Z.of_nat (length l).
Proof.
  destruct l as [|x l]; [done|]. unfold o9_array_len.
  destruct (text (x :: l)) eqn:E; [rewrite text_cons in E; by destruct (line x)|].
  rewrite <- E, count_text, decide_True by (by apply text_last). lia.
Qed.

Lemma value_line_all v : - 2 ^ 63 <= v < 2 ^ 63 -> value_line v = line (Some v) ++ [NL].
Proof. intros H. unfold value_line. apply snprint_fits. pose proof (itoa_length v H). rewrite length_app. simpl. lia. Qed.

(** A line reads as the number that was set, cut to 32 bits. *)
Lemma get_line x rest : match x with Some v => - 2 ^ 63 <= v < 2 ^ 63 | None => True end ->
  match skip_blank (line x ++ NL :: rest) with
  | [] => 0
  | c :: _ => if decide (c = NL) then 0 else (strtol 0 (line x ++ NL :: rest)).1
  end = match x with Some v => long_of v | None => 0 end.
Proof.
  intros Hv. destruct x as [v|]; [|done]. unfold strtol. cbn [line]. rewrite strto_line by done. cbn [fst].
  assert (H : exists c s, itoa v = c :: s /\ c <> x20 /\ c <> TAB /\ c <> NL).
  { destruct (itoa_head v Hv) as (c & s & E). exists c, s. split; [done|].
    pose proof (itoa_chars v c) as H. rewrite E in H. specialize (H (list_elem_of_here _ _)).
    split_and!; intros ->; (destruct H as [H|[H _]]; [discriminate H|by apply H]). }
  destruct H as (c & s & -> & H1 & H2 & H3). simpl. by rewrite !decide_False by tauto.
Qed.

Definition vals_ok (l : list (option Z)) : Prop :=
  Forall (fun x => match x with Some v => - 2 ^ 63 <= v < 2 ^ 63 | None => True end) l.

Lemma get_text l i : vals_ok l ->
  o9_array_get (Some (text l)) i = if decide (i < 0) then 0 else match l !! Z.to_nat i with Some (Some v) => long_of v | _ => 0 end.
Proof.
  intros Hl. unfold o9_array_get. destruct (decide (i < 0)); [done|]. rewrite skip_text.
  destruct (decide (Z.to_nat i <= length l)%nat) as [Hi|Hi].
  - destruct (drop (Z.to_nat i) l) as [|x k] eqn:E.
    + apply (f_equal length) in E. rewrite length_drop in E. rewrite lookup_ge_None_2; [done|]. simpl in E. lia.
    + assert (Hx : l !! Z.to_nat i = Some x) by (rewrite <- (Nat.add_0_r (Z.to_nat i)), <- lookup_drop; by rewrite E).
      rewrite Hx, text_cons. apply get_line. unfold vals_ok in Hl. rewrite Forall_lookup in Hl. by eapply Hl.
  - rewrite lookup_ge_None_2; [done|lia].
Qed.

(** The loop copies the lines after the index, and replaces the one at it. *)
Lemma rebuild_rest i idx buf l : idx < i -> rebuild (length l) i idx buf (text l) = text l.
Proof.
  revert i. induction l as [|x l IH]; intros i Hi; [done|]. cbn [rebuild length].
  rewrite text_cons, strchr_some by apply line_nl. cbn [default from_option id].
  rewrite decide_False, IH by lia. by rewrite <- app_assoc.
Qed.

Lemma rebuild_text i j v l : - 2 ^ 63 <= v < 2 ^ 63 -> (j < length l)%nat ->
  rebuild (length l) i (i + Z.of_nat j) (value_line v) (text l) = text (<[j := Some v]> l).
Proof.
  intros Hv. revert i j. induction l as [|x l IH]; intros i j Hj; [simpl in Hj; lia|].
  cbn [rebuild length]. rewrite text_cons, strchr_some by apply line_nl. cbn [default from_option id].
  destruct j as [|j]; cbn [insert list_insert]; rewrite text_cons.
  - rewrite decide_True, rebuild_rest, value_line_all by (lia || done). by rewrite <- app_assoc.
  - rewrite decide_False by lia. replace (i + Z.of_nat (S j)) with (i + 1 + Z.of_nat j) by lia.
    simpl in Hj. rewrite IH by lia. by rewrite <- app_assoc.
Qed.

(** nil and the text of no lines are the same array. *)
Definition arr_rel (d : option bytes) (l : list (option Z)) : Prop :=
  vals_ok l /\ (d = Some (text l) \/ (d = None /\ l = [])).

Lemma i64_range v : - 2 ^ 63 <= i64 v < 2 ^ 63.
Proof.
  unfold wraps. pose proof (Z.mod_pos_bound v (2 ^ 64) ltac:(lia)) as H. change (2 ^ (64 - 1)) with (2 ^ 63).
  cbv zeta. case_decide; lia.
Qed.

Lemma set_text d l i v : arr_rel d l -> - 2 ^ 63 <= v < 2 ^ 63 ->
  o9_array_set d (Z.of_nat i) v =
  Some (text (if decide (i < length l)%nat then <[i := Some v]> l
              else l ++ replicate (i - length l) None ++ [Some v])).
Proof.
  intros [Hl Hd] Hv. unfold o9_array_set.
  assert (Hlen : o9_array_len d = Z.of_nat (length l)).
  { destruct Hd as [-> |[-> ->]]; [apply len_text|done]. }
  rewrite Hlen. destruct (decide (i < length l)%nat) as [Hi|Hi].
  - rewrite decide_True by lia. destruct Hd as [-> |[-> ->]]; [|simpl in Hi; lia].
    rewrite Nat2Z.id. f_equal. exact (rebuild_text 0 i v l Hv Hi).
  - rewrite decide_False by lia. f_equal.
    assert (Hdp : default [] d = text l) by (by destruct Hd as [-> |[-> ->]]). rewrite Hdp.
    rewrite decide_True; [|destruct l; [by left|right; by apply text_last]].
    rewrite !text_app, text_unset, value_line_all, text_cons by done.
    replace (Z.to_nat (Z.of_nat i - Z.of_nat (length l))) with (i - length l)%nat by lia. done.
Qed.

Lemma set_vals l i v : vals_ok l -> - 2 ^ 63 <= v < 2 ^ 63 ->
  vals_ok (if decide (i < length l)%nat then <[i := Some v]> l else l ++ replicate (i - length l) None ++ [Some v]).
Proof.
  intros Hl Hv. unfold vals_ok in *. case_decide; [by apply Forall_insert|].
  rewrite !Forall_app, Forall_singleton. split; [done|]. split; [|done]. by apply Forall_replicate.
Qed.

Lemma array_step d l op : arr_rel d l ->
  (arr_do d op).1 = (list_do l op).1 /\ arr_rel (arr_do d op).2 (list_do l op).2.
Proof.
  intros Hr. pose proof Hr as [Hl Hd]. destruct op as [i v|i|]; simpl.
  - rewrite (set_text d l i _ Hr) by apply i64_range. split; [done|].
    split; [apply set_vals; [done|apply i64_range]|by left].
  - split; [|done]. f_equal. destruct Hd as [-> |[-> ->]]; [by apply get_text|]. simpl. by case_decide.
  - split; [|done]. f_equal. destruct Hd as [-> |[-> ->]]; [apply len_text|done].
Qed.

(** The lines that the loop sees: one more than the newlines when the last one
    has none. *)
Lemma count_nl_cons c d : count_nl (c :: d) = (if decide (c = NL) then 1 else 0) + count_nl d.
Proof.
  unfold count_nl. case_decide; [rewrite filter_cons_True by done|rewrite filter_cons_False by done]; simpl; lia.
Qed.

Lemma count_nl_strchr d :
  match strchr NL d with
  | (l, Some r) => d = l ++ NL :: r /\ count_nl d = 1 + count_nl r
  | (l, None) => d = l /\ count_nl d = 0
  end.
Proof.
  induction d as [|c d IH]; [done|]. cbn [strchr]. rewrite count_nl_cons. destruct (decide (c = NL)) as [->|Hc].
  - done.
  - destruct (strchr NL d) as [l [r|]]; destruct IH as [-> IH]; (split; [done|]); lia.
Qed.

Lemma rebuild_length n i idx buf p : Z.of_nat n <= count_nl p + 1 ->
  Z.of_nat (length (rebuild n i idx buf p)) <=
    Z.of_nat (length p) + 1 + (if decide (i <= idx) then Z.of_nat (length buf) else 0).
Proof.
  revert i p. induction n as [|n IH]; intros i p Hn; [simpl; case_decide; lia|]. cbn [rebuild].
  pose proof (count_nl_strchr p) as Hp. destruct (strchr NL p) as [l [r|]]; destruct Hp as [-> Hc]; cbn [default from_option id].
  - specialize (IH (i + 1) r ltac:(lia)). rewrite !length_app in *. simpl.
    destruct (decide (i = idx)); repeat case_decide; try lia; rewrite length_app; simpl; lia.
  - assert (n = 0%nat) as -> by lia. simpl. rewrite app_nil_r.
    destruct (decide (i = idx)); [rewrite decide_True by lia; lia|]. rewrite length_app. simpl. case_decide; lia.
Qed.

(** ** Theorems *)

(** Any sequence of sets, reads and length queries on an array that starts
    as nil (or as the empty string) answers as a list of numbers does: a set
    beyond the end fills up with unset elements, unset and missing elements
    read 0, and a read gives what was set, cut to the 32 bits of a [long]. *)
Theorem array_refines_list ops :
  (trace arr_do None ops).1 = (trace list_do [] ops).1 /\
  (trace arr_do (Some []) ops).1 = (trace list_do [] ops).1.
Proof.
  split; apply (trace_refines arr_do list_do arr_rel array_step);
    (split; [constructor|]); [by right|by left].
Qed.

(** The text that a set leaves, with its NUL, fits into the memory it is
    given, whatever the old text is, as long as the index is less than 2^30
    lines beyond the end. *)
Theorem array_set_in_bounds d idx val d' : 0 <= idx -> idx - o9_array_len d < 2 ^ 30 - 1 ->
  o9_array_set d idx val = Some d' -> Z.of_nat (length d') + 1 <= array_set_newsize d idx val.
Proof.
  intros Hidx Hlt. unfold o9_array_set, array_set_newsize. destruct (decide (idx < o9_array_len d)).
  - destruct d as [dp|]; [|done]. intros Hd%(inj Some). rewrite <- Hd. cbn [default from_option id].
    assert (Hn : 0 <= o9_array_len (Some dp) <= count_nl dp + 1).
    { unfold o9_array_len. destruct dp; [done|]. unfold count_nl. case_decide; lia. }
    pose proof (rebuild_length (Z.to_nat (o9_array_len (Some dp))) 0 idx (value_line val) dp ltac:(lia)) as H.
    rewrite decide_True in H by done. lia.
  - intros Hd%(inj Some). rewrite <- Hd. rewrite (wraps_id 32 (idx - _ + 1)), (wraps_id 32) by (change (2 ^ (32 - 1)) with 2147483648; lia).
    rewrite !length_app, length_replicate. pose proof (snprint_length 32 (itoa val ++ [NL]) ltac:(lia)) as Hb.
    fold (value_line val) in Hb. case_decide; simpl; lia.
Qed.

(** The length of the padding is computed as an [int]: an index 2^32 beyond
    the end is given 34 bytes and fills 2^32. *)
Lemma array_set_overflow : array_set_newsize None (2 ^ 32) 1 = 34.
Proof. reflexivity. Qed.

(** A negative index on a nil array dereferences it. *)
Lemma array_set_negative_nil val : o9_array_set None (- 1) val = None.
Proof. reflexivity. Qed.

(** A line that holds another kind of white space reads the next line. *)
Lemma array_get_next_line : o9_array_get (Some [x0d; NL; x35; NL]) 0 = 5.
Proof. reflexivity. Qed.

(** ** Witnesses *)

Lemma array_set_in_bounds_witness :
  o9_array_set (Some (str "7")) 2 (- 5) = Some (x37 :: NL :: NL :: x2d :: x35 :: [NL]) /\ 7 <= array_set_newsize (Some (str "7")) 2 (- 5).
Proof.
  split; [reflexivity|].
  apply (array_set_in_bounds (Some (str "7")) 2 (- 5) (x37 :: NL :: NL :: x2d :: x35 :: [NL])); [lia|vm_compute; reflexivity|reflexivity].
Defined.
