(* ===== verification/Slice.v ===== *)
(** * Growable slices ([o9_slice_*] in [o9_runtime.c])

    A slice owns a block of [cap * elemsize] bytes; its elements are the
    first [len] cells.  Every access to the block goes through [write_at] and
    [read_at], which answer [None] outside of it.  Offsets are computed in
    [vlong] and do not wrap for the sizes of [op_ok]; the capacity loop of
    [o9_slice_setgrow] is written with its wrap-around. *)
From S2P Require Import Prelude.

Open Scope Z_scope.

Record O9Slice := MkSlice { sl_data : bytes; sl_len : Z; sl_cap : Z; sl_elemsize : Z }.

(** ** Operations *)

Definition o9_slice_init (elemsize : Z) : O9Slice := MkSlice [] 0 0 elemsize.

Definition read_at (i n : nat) (mem : bytes) : option bytes :=
  if decide (i + n <= length mem)%nat then Some (take n (drop i mem)) else None.

Section slice.
(** What the allocator leaves in new memory. *)
Variable junk : nat -> byte.

Definition realloc (old : bytes) (n : Z) : bytes :=
  take (Z.to_nat n) old ++ (junk <$> seq (length old) (Z.to_nat n - length old)).

Definition o9_slice_append (s : O9Slice) (val : bytes) : option O9Slice :=
  let s :=
    if decide (sl_len s >= sl_cap s) then
      let cap := if decide (sl_cap s = 0) then 8 else sl_cap s * 2 in
      MkSlice (realloc (sl_data s) (cap * sl_elemsize s)) (sl_len s) cap (sl_elemsize s)
    else s in
  data ← write_at (Z.to_nat (sl_len s * sl_elemsize s)) val (sl_data s);
  Some (MkSlice data (sl_len s + 1) (sl_cap s) (sl_elemsize s)).

(** The cell is what the caller reads through the pointer. *)
Definition o9_slice_get (s : O9Slice) (idx : Z) : option (option bytes) :=
  if decide (idx < 0 \/ idx >= sl_len s) then Some None
  else Some <$> read_at (Z.to_nat (idx * sl_elemsize s)) (Z.to_nat (sl_elemsize s)) (sl_data s).

Definition o9_slice_set (s : O9Slice) (idx : Z) (val : bytes) : option O9Slice :=
  if decide (idx < 0 \/ idx >= sl_len s) then Some s
  else
    data ← write_at (Z.to_nat (idx * sl_elemsize s)) val (sl_data s);
    Some (MkSlice data (sl_len s) (sl_cap s) (sl_elemsize s)).

(** [while(idx >= newcap) newcap *= 2]; [None] does not end within [fuel]
    rounds. *)
Fixpoint grow_cap (fuel : nat) (idx newcap : Z) : option Z :=
  if decide (idx >= newcap) then
    match fuel with O => None | S fuel' => grow_cap fuel' idx (i64 (newcap * 2)) end
  else Some newcap.

Definition memset0 (off n : Z) (mem : bytes) : option bytes := write_at (Z.to_nat off) (replicate (Z.to_nat n) NUL) mem.

Definition o9_slice_setgrow (fuel : nat) (alloc : bool) (s : O9Slice) (idx : Z) (val : bytes) : option O9Slice :=
  if decide (idx < 0 \/ sl_elemsize s <= 0) then Some s
  else
    s' ← (if decide (idx >= sl_cap s) then
            let oldcap := sl_cap s in
            newcap ← grow_cap fuel idx (if decide (oldcap > 0) then oldcap else 8);
            if alloc then
              data ← memset0 (oldcap * sl_elemsize s) ((newcap - oldcap) * sl_elemsize s)
                       (realloc (sl_data s) (newcap * sl_elemsize s));
              Some (Some (MkSlice data (sl_len s) newcap (sl_elemsize s)))
            else Some None
          else Some (Some s));
    match s' with
    | None => Some s
    | Some s =>
        s ← (if decide (idx >= sl_len s) then
               data ← memset0 (sl_len s * sl_elemsize s) ((idx + 1 - sl_len s) * sl_elemsize s) (sl_data s);
               Some (MkSlice data (idx + 1) (sl_cap s) (sl_elemsize s))
             else Some s);
        data ← write_at (Z.to_nat (idx * sl_elemsize s)) val (sl_data s);
        Some (MkSlice data (sl_len s) (sl_cap s) (sl_elemsize s))
    end.

(** ** Specification: a list of cells *)

Inductive slice_op := Append (v : bytes) | Get (i : Z) | Set_ (i : Z) (v : bytes) | SetGrow (i : Z) (v : bytes) | Len.
Inductive slice_ret := RNone | RCell (c : option bytes) | RLen (n : Z).

(** [None] when an access leaves the block or the loop does not end. *)
Definition slice_do (s : option O9Slice) (op : slice_op) : option slice_ret * option O9Slice :=
  match s with
  | None => (None, None)
  | Some s =>
      match op with
      | Append v => let s' := o9_slice_append s v in ((fun _ => RNone) <$> s', s')
      | Get i => (RCell <$> o9_slice_get s i, Some s)
      | Set_ i v => let s' := o9_slice_set s i v in ((fun _ => RNone) <$> s', s')
      | SetGrow i v => let s' := o9_slice_setgrow 64 true s i v in ((fun _ => RNone) <$> s', s')
      | Len => (Some (RLen (sl_len s)), Some s)
      end
  end.

Definition zcell (es : nat) : bytes := replicate es NUL.

Definition cells_do (es : nat) (l : list bytes) (op : slice_op) : option slice_ret * list bytes :=
  match op with
  | Append v => (Some RNone, l ++ [v])
  | Get i => (Some (RCell (if decide (i < 0) then None else l !! Z.to_nat i)), l)
  | Set_ i v => (Some RNone, if decide (i < 0) then l else <[Z.to_nat i := v]> l)
  | SetGrow i v =>
      (Some RNone, if decide (i < 0) then l
                   else <[Z.to_nat i := v]> (l ++ replicate (S (Z.to_nat i) - length l) (zcell es)))
  | Len => (Some (RLen (Z.of_nat (length l))), l)
  end.

(** Cells have the slice's size; indices of [o9_slice_setgrow] are below
    2^32. *)
Definition op_ok (es : nat) (op : slice_op) : Prop :=
  match op with
  | Append v => length v = es
  | Set_ _ v => length v = es
  | SetGrow i v => length v = es /\ i < 2 ^ 32
  | Get _ | Len => True
  end.

(** ** Lemmas *)

Definition uniform (es : nat) (l : list bytes) : Prop := Forall (fun c => length c = es) l.

Lemma uniform_at es l i c : uniform es l -> l !! i = Some c -> length c = es.
Proof. unfold uniform. rewrite Forall_lookup. eauto. Qed.

Lemma concat_length es l : uniform es l -> length (concat l) = (length l * es)%nat.
Proof. induction 1 as [|c l Hc _ IH]; [done|]. simpl. rewrite length_app, IH. lia. Qed.

(** One cell of a block of cells. *)
Lemma concat_cell es l i c : uniform es l -> l !! i = Some c ->
  take es (drop (i * es) (concat l)) = c.
Proof.
  intros Hl Hi. rewrite <- (take_drop_middle l i c Hi), concat_app, drop_app_ge.
  2:{ rewrite (concat_length es) by (by apply Forall_take). rewrite length_take. nia. }
  rewrite (concat_length es), length_take by (by apply Forall_take).
  pose proof (lookup_lt_Some _ _ _ Hi). rewrite Nat.min_l, Nat.sub_diag by lia. simpl.
  apply take_app_length'. symmetry. by eapply uniform_at.
Qed.

(** Writing a cell of the block, with [rest] behind the cells. *)
Lemma write_cell es l i v rest : uniform es l -> length v = es -> (i < length l)%nat ->
  write_at (i * es) v (concat l ++ rest) = Some (concat (<[i := v]> l) ++ rest).
Proof.
  intros Hl Hv Hi. rewrite write_at_fits.
  2:{ rewrite length_app, (concat_length es) by done. nia. }
  f_equal. rewrite insert_take_drop, concat_app by done. simpl.
  destruct (lookup_lt_is_Some_2 l i Hi) as [c Hc].
  pose proof (uniform_at es l i c Hl Hc) as Hci.
  rewrite <- (take_drop_middle l i c Hc) at 1 2. rewrite !concat_app. simpl. rewrite <- !app_assoc.
  assert (Ht : length (concat (take i l)) = (i * es)%nat).
  { rewrite (concat_length es), length_take by (by apply Forall_take). nia. }
  rewrite take_app_length' by done. f_equal. f_equal.
  rewrite drop_app_ge by lia. rewrite Ht. replace (i * es + length v - i * es)%nat with es by lia.
  by rewrite drop_app_length' by done.
Qed.

Definition refines (es : nat) (s : O9Slice) (l : list bytes) : Prop :=
  (0 < es)%nat /\ sl_elemsize s = Z.of_nat es /\ uniform es l /\ sl_len s = Z.of_nat (length l) /\
  sl_len s <= sl_cap s /\ Z.of_nat (length (sl_data s)) = sl_cap s * sl_elemsize s /\
  exists rest, sl_data s = concat l ++ rest.

Lemma refines_init es : (0 < es)%nat -> refines es (o9_slice_init (Z.of_nat es)) [].
Proof. intros H. split_and!; try done; [constructor|by exists []]. Qed.

Lemma room_cell es s l v : refines es s l -> length v = es -> sl_len s < sl_cap s ->
  exists rest, write_at (Z.to_nat (sl_len s * sl_elemsize s)) v (sl_data s) = Some (concat (l ++ [v]) ++ rest).
Proof.
  intros (Hes & He & Hu & Hlen & Hle & Hsz & rest & Hd) Hv Hlt. exists (drop es rest).
  rewrite Hlen, He. replace (Z.to_nat _) with (length l * es)%nat by lia.
  assert (Hrest : (es <= length rest)%nat).
  { rewrite Hd, length_app, (concat_length es), He in Hsz by done. nia. }
  rewrite Hd, write_at_fits by (rewrite length_app, (concat_length es) by done; lia).
  rewrite concat_app. simpl. rewrite app_nil_r, <- app_assoc. f_equal.
  rewrite take_app_length' by (by rewrite (concat_length es)).
  do 2 f_equal. rewrite drop_app_ge by (rewrite (concat_length es) by done; lia).
  rewrite (concat_length es) by done. f_equal. lia.
Qed.

Lemma realloc_prefix old n k rest : old = k ++ rest -> (length k <= Z.to_nat n)%nat -> exists rest', realloc old n = k ++ rest'.
Proof.
  intros -> H. unfold realloc. rewrite take_app_ge by done. eexists. by rewrite <- app_assoc.
Qed.

Lemma realloc_length old n : Z.of_nat (length old) <= n -> Z.of_nat (length (realloc old n)) = n.
Proof. intros H. unfold realloc. rewrite length_app, length_take, length_fmap, length_seq. lia. Qed.

(** A block with a larger capacity still holds the cells. *)
Lemma refines_grown es s l cap data : refines es s l -> sl_cap s <= cap ->
  Z.of_nat (length data) = cap * sl_elemsize s -> (exists rest, data = concat l ++ rest) ->
  refines es (MkSlice data (sl_len s) cap (sl_elemsize s)) l.
Proof.
  intros (Hes & He & Hu & Hlen & Hle & Hsz & _) Hc Hd Hr. split_and!; simpl; try done. lia.
Qed.

Lemma realloc_refines es s l cap : refines es s l -> sl_cap s <= cap ->
  refines es (MkSlice (realloc (sl_data s) (cap * sl_elemsize s)) (sl_len s) cap (sl_elemsize s)) l.
Proof.
  intros Hr Hc. pose proof Hr as (Hes & He & Hu & Hlen & Hle & Hsz & rest & Hd).
  apply refines_grown; [done..| |].
  - apply realloc_length. rewrite Hsz. nia.
  - apply (realloc_prefix _ _ _ rest Hd). rewrite (concat_length es) by done. rewrite He. nia.
Qed.

Lemma append_refines es s l v : refines es s l -> length v = es ->
  exists s', o9_slice_append s v = Some s' /\ refines es s' (l ++ [v]).
Proof.
  intros Hr Hv. unfold o9_slice_append. set (s1 := if decide (sl_len s >= sl_cap s) then _ else s).
  assert (Hs1 : refines es s1 l /\ sl_len s1 < sl_cap s1).
  { unfold s1. pose proof Hr as (Hes & He & Hu & Hlen & Hle & _). destruct (decide (sl_len s >= sl_cap s)); [|split; [done|lia]].
    destruct (decide (sl_cap s = 0)); (split; [apply realloc_refines; [done|lia]|simpl; lia]). }
  destruct Hs1 as [Hr1 Hlt]. destruct (room_cell es s1 l v Hr1 Hv Hlt) as [rest Hw].
  cbv zeta. rewrite Hw. cbn [mbind option_bind]. eexists. split; [done|].
  destruct Hr1 as (Hes & He & Hu & Hlen & Hle & Hsz & _). apply write_at_length in Hw as Hl.
  split_and!; simpl; try done.
  - apply Forall_app. split; [done|]. by apply Forall_singleton.
  - rewrite length_app. simpl. lia.
  - lia.
  - by rewrite Hl.
  - by exists rest.
Qed.

(** Writing one of the cells. *)
Lemma set_refines es s l i v : refines es s l -> length v = es -> 0 <= i < sl_len s ->
  exists data, write_at (Z.to_nat (i * sl_elemsize s)) v (sl_data s) = Some data /\
    refines es (MkSlice data (sl_len s) (sl_cap s) (sl_elemsize s)) (<[Z.to_nat i := v]> l).
Proof.
  intros (Hes & He & Hu & Hlen & Hle & Hsz & rest & Hd) Hv Hi.
  pose proof (write_cell es l (Z.to_nat i) v rest Hu Hv ltac:(lia)) as Hw.
  eexists. split; [rewrite Hd, He; replace (Z.to_nat (i * Z.of_nat es)) with (Z.to_nat i * es)%nat by nia; exact Hw|].
  apply write_at_length in Hw as Hl. split_and!; simpl; try done.
  - by apply Forall_insert.
  - by rewrite length_insert.
  - by rewrite Hl, <- Hd.
  - by exists rest.
Qed.

Lemma get_refines es s l i : refines es s l -> 
  o9_slice_get s i = Some (if decide (i < 0) then None else l !! Z.to_nat i).
Proof.
  intros (Hes & He & Hu & Hlen & Hle & Hsz & rest & Hd). unfold o9_slice_get.
  destruct (decide (i < 0 \/ i >= sl_len s)) as [Ho|Ho].
  - case_decide; [done|]. rewrite lookup_ge_None_2; [done|lia].
  - rewrite decide_False by lia. destruct (lookup_lt_is_Some_2 l (Z.to_nat i)) as [c Hc]; [lia|]. rewrite Hc.
    unfold read_at. rewrite decide_True by (rewrite He in *; nia). simpl. do 2 f_equal.
    rewrite He, Hd. replace (Z.to_nat (i * Z.of_nat es)) with (Z.to_nat i * es)%nat by nia. rewrite Nat2Z.id.
    pose proof (lookup_lt_Some _ _ _ Hc).
    rewrite drop_app_le by (rewrite (concat_length es) by done; nia).
    rewrite take_app_le by (rewrite length_drop, (concat_length es) by done; nia). by apply concat_cell.
Qed.

(** The capacity loop: it doubles past the index, and without overflow below
    2^62. *)
Lemma grow_cap_bound fuel idx c : 0 < c -> 0 <= idx < 2 ^ 62 -> idx < c * 2 ^ Z.of_nat fuel ->
  exists c', grow_cap fuel idx c = Some c' /\ c <= c' /\ idx < c'.
Proof.
  intros Hc Hidx. revert c Hc. induction fuel as [|fuel IH]; intros c Hc Hb; simpl.
  - change (2 ^ Z.of_nat 0) with 1 in Hb. rewrite decide_False by lia. eexists. split; [done|lia].
  - rewrite Nat2Z.inj_succ, Z.pow_succ_r in Hb by lia. destruct (decide (idx >= c)); [|eexists; split; [done|lia]].
    rewrite wraps_id by (change (2 ^ (64 - 1)) with (2 * 2 ^ 62); lia).
    destruct (IH (c * 2)) as (c' & -> & ? & ?); [lia..|]. eexists. split; [done|lia].
Qed.

(** Its result is the least doubling that exceeds the index. *)
Lemma grow_cap_least k fuel idx c : 0 < c -> idx < c * 2 ^ Z.of_nat k < 2 ^ 63 -> (k <= fuel)%nat ->
  exists j : nat, (j <= k)%nat /\ grow_cap fuel idx c = Some (c * 2 ^ Z.of_nat j) /\
    idx < c * 2 ^ Z.of_nat j /\ forall i : nat, (i < j)%nat -> c * 2 ^ Z.of_nat i <= idx.
Proof.
  revert fuel c. induction k as [|k IH]; intros fuel c Hc Hk Hf.
  - change (2 ^ Z.of_nat 0) with 1 in Hk. exists 0%nat. destruct fuel; cbn [grow_cap]; rewrite decide_False by lia;
      (split_and!; [lia|f_equal; lia|lia|lia]).
  - destruct (decide (idx >= c)) as [Hge|Hlt].
    + destruct fuel as [|fuel]; [lia|]. cbn [grow_cap]. rewrite decide_True by done.
      rewrite Nat2Z.inj_succ, Z.pow_succ_r in Hk by lia. pose proof (Z.pow_pos_nonneg 2 (Z.of_nat k)).
      rewrite wraps_id by (change (2 ^ (64 - 1)) with (2 ^ 63); nia).
      destruct (IH fuel (c * 2) ltac:(lia) ltac:(lia) ltac:(lia)) as (j & Hj & E & Hb & Hl). exists (S j).
      assert (Ej : c * 2 ^ Z.of_nat (S j) = c * 2 * 2 ^ Z.of_nat j) by (rewrite Nat2Z.inj_succ, Z.pow_succ_r by lia; lia).
      rewrite Ej. split_and!; [lia|done|done|]. intros [|i] Hi; [change (2 ^ Z.of_nat 0) with 1; lia|].
      rewrite Nat2Z.inj_succ, Z.pow_succ_r by lia. specialize (Hl i ltac:(lia)). lia.
    + exists 0%nat. assert (E : grow_cap fuel idx c = Some c) by (destruct fuel; cbn [grow_cap]; by rewrite decide_False).
      change (2 ^ Z.of_nat 0) with 1. rewrite Z.mul_1_r. split_and!; [lia|done|lia|lia].
Qed.

Lemma grow_rounds c k idx : 0 < c -> idx < c * 2 ^ Z.of_nat k < 2 ^ 63 -> (k <= 64)%nat.
Proof.
  intros Hc Hk. destruct (decide (k <= 64)%nat); [done|]. assert (2 ^ 63 <= 2 ^ Z.of_nat k) by (apply Z.pow_le_mono_r; lia). nia.
Qed.

(** Below 2^62 some doubling exceeds the index before it leaves a [vlong]. *)
Lemma grow_reach c idx : 0 < c < 2 ^ 63 -> 0 <= idx < 2 ^ 62 -> exists k : nat, idx < c * 2 ^ Z.of_nat k < 2 ^ 63.
Proof.
  intros Hc Hidx. destruct (decide (c > idx)) as [H|H]; [exists 0%nat; change (2 ^ Z.of_nat 0) with 1; lia|].
  assert (Hn : forall n : nat, c * 2 ^ Z.of_nat n <= idx \/ exists k : nat, idx < c * 2 ^ Z.of_nat k < 2 ^ 63).
  { induction n as [|n [IH|IH]]; [left; change (2 ^ Z.of_nat 0) with 1; lia| |by right].
    rewrite Nat2Z.inj_succ, Z.pow_succ_r by lia. destruct (decide (c * (2 * 2 ^ Z.of_nat n) <= idx)); [by left|].
    right. exists (S n). rewrite Nat2Z.inj_succ, Z.pow_succ_r by lia. lia. }
  destruct (Hn 62%nat) as [Hk|Hk]; [|done]. change (2 ^ Z.of_nat 62) with (2 ^ 62) in Hk. nia.
Qed.

Lemma grow_cap_zero fuel idx : 0 <= idx -> grow_cap fuel idx 0 = None.
Proof. intros H. induction fuel as [|fuel IH]; simpl; rewrite decide_True by lia; [done|]. exact IH. Qed.

Lemma grow_cap_overflow fuel idx k : 2 ^ 62 <= idx < 2 ^ 63 -> (k <= 62)%nat -> grow_cap fuel idx (2 ^ Z.of_nat (62 - k)) = None.
Proof.
  intros Hidx. revert fuel. induction k as [|k IH]; intros fuel Hk.
  - change (2 ^ Z.of_nat (62 - 0)) with (2 ^ 62). destruct fuel as [|[|fuel]]; cbn [grow_cap]; rewrite decide_True by lia; [done|..];
      change (i64 (2 ^ 62 * 2)) with (- 2 ^ 63); rewrite decide_True by lia; [done|].
    change (i64 (- 2 ^ 63 * 2)) with 0. apply grow_cap_zero. lia.
  - assert (Hp : 2 ^ Z.of_nat (62 - S k) <= 2 ^ 61) by (apply Z.pow_le_mono_r; lia).
    destruct fuel as [|fuel]; cbn [grow_cap]; rewrite decide_True by lia; [done|].
    rewrite wraps_id by (change (2 ^ (64 - 1)) with (4 * 2 ^ 61); pose proof (Z.pow_pos_nonneg 2 (Z.of_nat (62 - S k))); lia).
    replace (2 ^ Z.of_nat (62 - S k) * 2) with (2 ^ Z.of_nat (62 - k)); [apply IH; lia|].
    replace (Z.of_nat (62 - k)) with (Z.succ (Z.of_nat (62 - S k))) by lia. rewrite Z.pow_succ_r by lia. lia.
Qed.

(** Writing behind the cells. *)
Lemma write_behind k rest i bs : (length k <= i)%nat -> (i + length bs <= length (k ++ rest))%nat ->
  exists rest', write_at i bs (k ++ rest) = Some (k ++ rest').
Proof.
  intros Hi Hb. rewrite write_at_fits by done. rewrite take_app_ge by done. eexists. by rewrite <- app_assoc.
Qed.

Lemma concat_zeros es n : concat (replicate n (zcell es)) = replicate (n * es) NUL.
Proof. induction n as [|n IH]; [done|]. simpl. rewrite IH. unfold zcell. by rewrite replicate_add. Qed.

Lemma uniform_zeros es n : uniform es (replicate n (zcell es)).
Proof. apply Forall_replicate. by apply length_replicate. Qed.

(** Room for the index: the block grows and its new part is zeroed. *)
Lemma grow_refines es s l i : refines es s l -> 0 <= i < 2 ^ 32 -> sl_cap s <= i -> exists newcap data,
  grow_cap 64 i (if decide (sl_cap s > 0) then sl_cap s else 8) = Some newcap /\ i < newcap /\
  memset0 (sl_cap s * sl_elemsize s) ((newcap - sl_cap s) * sl_elemsize s)
    (realloc (sl_data s) (newcap * sl_elemsize s)) = Some data /\
  refines es (MkSlice data (sl_len s) newcap (sl_elemsize s)) l.
Proof.
  intros Hr Hi Hc. pose proof Hr as (Hes & He & Hu & Hlen & Hle & Hsz & rest & Hd).
  destruct (grow_cap_bound 64 i (if decide (sl_cap s > 0) then sl_cap s else 8)) as (newcap & Hg & H1 & H2).
  { case_decide; lia. }
  { lia. }
  { assert (i * 1 < 2 ^ 64) by lia. case_decide; nia. }
  assert (Hge : sl_cap s <= newcap) by (destruct (decide (sl_cap s > 0)); lia).
  exists newcap. pose proof (realloc_refines es s l newcap Hr Hge) as (_ & _ & _ & _ & _ & Hsz' & rest' & Hd').
  cbn [sl_data sl_cap sl_elemsize] in Hsz', Hd'. unfold memset0. rewrite Hd' in *.
  destruct (write_behind (concat l) rest' (Z.to_nat (sl_cap s * sl_elemsize s)) (replicate (Z.to_nat ((newcap - sl_cap s) * sl_elemsize s)) NUL)) as [rest2 Hw].
  { rewrite (concat_length es) by done. rewrite He. nia. }
  { rewrite length_replicate. assert (0 <= (newcap - sl_cap s) * sl_elemsize s) by nia. nia. }
  exists (concat l ++ rest2). split_and!; [done|done|done|]. apply refines_grown; [done|done| |by exists rest2].
  apply write_at_length in Hw. by rewrite Hw.
Qed.

(** The gap up to the index is filled with zero cells. *)
Lemma fill_refines es s l i : refines es s l -> sl_len s <= i < sl_cap s -> exists data,
  memset0 (sl_len s * sl_elemsize s) ((i + 1 - sl_len s) * sl_elemsize s) (sl_data s) = Some data /\
  refines es (MkSlice data (i + 1) (sl_cap s) (sl_elemsize s)) (l ++ replicate (S (Z.to_nat i) - length l) (zcell es)).
Proof.
  intros (Hes & He & Hu & Hlen & Hle & Hsz & rest & Hd) Hi. set (n := (S (Z.to_nat i) - length l)%nat).
  assert (Hn : Z.to_nat ((i + 1 - sl_len s) * sl_elemsize s) = (n * es)%nat) by (unfold n; rewrite He, Hlen; nia).
  assert (Hoff : Z.to_nat (sl_len s * sl_elemsize s) = length (concat l)) by (rewrite (concat_length es), He, Hlen by done; nia).
  assert (Hroom : (n * es <= length rest)%nat).
  { rewrite Hd, length_app, (concat_length es), He in Hsz by done. unfold n. nia. }
  assert (Hw : memset0 (sl_len s * sl_elemsize s) ((i + 1 - sl_len s) * sl_elemsize s) (sl_data s) =
               Some (concat (l ++ replicate n (zcell es)) ++ drop (n * es) rest)).
  { unfold memset0. rewrite Hn, Hoff, Hd, <- (concat_zeros es n).
    assert (Hz : length (concat (replicate n (zcell es))) = (n * es)%nat) by (by rewrite concat_zeros, length_replicate).
    rewrite write_at_fits by (rewrite length_app; lia). rewrite take_app_length, concat_app, <- app_assoc.
    rewrite drop_app_add, Hz. done. }
  eexists. split; [exact Hw|]. apply write_at_length in Hw as Hwl.
  split_and!; simpl; [done|done| | |lia| |by eexists].
  - apply Forall_app. split; [done|apply uniform_zeros].
  - rewrite length_app, length_replicate. unfold n. lia.
  - by rewrite Hwl.
Qed.

Lemma setgrow_refines es s l i v : refines es s l -> length v = es -> i < 2 ^ 32 ->
  exists s', o9_slice_setgrow 64 true s i v = Some s' /\
    refines es s' (if decide (i < 0) then l
                   else <[Z.to_nat i := v]> (l ++ replicate (S (Z.to_nat i) - length l) (zcell es))).
Proof.
  intros Hr Hv Hi. unfold o9_slice_setgrow. pose proof Hr as (Hes & He & _).
  destruct (decide (i < 0)) as [Hneg|Hpos]; [rewrite decide_True by lia; by exists s|].
  rewrite decide_False by lia.
  (* the block has room *)
  assert (H1 : exists s1, refines es s1 l /\ i < sl_cap s1 /\ sl_len s1 = sl_len s /\ sl_elemsize s1 = sl_elemsize s /\
    (if decide (i >= sl_cap s) then
       newcap ← grow_cap 64 i (if decide (sl_cap s > 0) then sl_cap s else 8);
       data ← memset0 (sl_cap s * sl_elemsize s) ((newcap - sl_cap s) * sl_elemsize s)
                (realloc (sl_data s) (newcap * sl_elemsize s));
       Some (Some (MkSlice data (sl_len s) newcap (sl_elemsize s)))
     else Some (Some s)) = Some (Some s1)).
  { destruct (decide (i >= sl_cap s)); [|exists s; split_and!; done || lia].
    destruct (grow_refines es s l i Hr ltac:(lia) ltac:(lia)) as (newcap & data & -> & Hlt & Hm & Hr1).
    eexists. split; [exact Hr1|]. split; [done|]. cbn [mbind option_bind]. by rewrite Hm. }
  destruct H1 as (s1 & Hr1 & Hroom & Hl1 & He1 & H1). cbv zeta. rewrite H1. cbn [mbind option_bind]. clear H1.
  destruct (decide (i >= sl_len s1)) as [Hge|Hlt].
  - destruct (fill_refines es s1 l i Hr1 ltac:(lia)) as (data & Hm & Hr2). rewrite Hm. cbn [mbind option_bind sl_data sl_len sl_cap sl_elemsize].
    destruct (set_refines es _ _ i v Hr2 Hv) as (data' & Hw & Hr3); [simpl; lia|].
    cbn [sl_data sl_len sl_cap sl_elemsize] in Hw, Hr3. rewrite Hw. cbn [mbind option_bind]. eexists. by split.
  - destruct (set_refines es s1 l i v Hr1 Hv) as (data' & Hw & Hr3); [lia|]. cbn [mbind option_bind]. rewrite Hw.
    eexists. split; [done|]. destruct Hr1 as (_ & _ & _ & Hlen & _).
    replace (S (Z.to_nat i) - length l)%nat with 0%nat by lia. cbn [replicate]. by rewrite app_nil_r.
Qed.
End slice.

Lemma slice_step junk es s l op : op_ok es op -> (exists s0, s = Some s0 /\ refines es s0 l) ->
  (slice_do junk s op).1 = (cells_do es l op).1 /\
  exists s0, (slice_do junk s op).2 = Some s0 /\ refines es s0 (cells_do es l op).2.
Proof.
  intros Hop (s0 & -> & Hr). destruct op as [v|i|i v|i v|]; simpl in *.
  - destruct (append_refines junk es s0 l v Hr Hop) as (s' & -> & Hr'). eauto.
  - rewrite (get_refines es s0 l i Hr). eauto.
  - pose proof Hr as (_ & _ & _ & Hlen & _). unfold o9_slice_set. destruct (decide (i < 0 \/ i >= sl_len s0)).
    + split; [done|]. exists s0. split; [done|]. case_decide; [done|]. by rewrite list_insert_ge by lia.
    + destruct (set_refines es s0 l i v Hr Hop) as (data & -> & Hr'); [lia|]. rewrite decide_False by lia. simpl. eauto.
  - destruct Hop as [Hv Hi]. destruct (setgrow_refines junk es s0 l i v Hr Hv Hi) as (s' & -> & Hr'). eauto.
  - pose proof Hr as (_ & _ & _ & Hlen & _). rewrite Hlen. split; [done|]. by exists s0.
Qed.

(** ** Theorems *)

(** Any sequence of slice operations on cells of one size behaves as a list
    of cells does, whatever the allocator leaves in new memory: no access
    leaves the block, the cells that [o9_slice_setgrow] skips are zero, and an
    index out of range reads nil and writes nothing. *)
Theorem slice_refines_list junk es ops : (0 < es)%nat -> Forall (op_ok es) ops ->
  (trace (slice_do junk) (Some (o9_slice_init (Z.of_nat es))) ops).1 = (trace (cells_do es) [] ops).1.
Proof.
  intros Hes Hops.
  assert (H : forall s l, (exists s0, s = Some s0 /\ refines es s0 l) ->
    (trace (slice_do junk) s ops).1 = (trace (cells_do es) l ops).1).
  { induction Hops as [|op ops Hop _ IH]; intros s l Hr; [done|]. cbn [trace].
    destruct (slice_step junk es s l op Hop Hr) as [H1 H2].
    destruct (slice_do junk s op) as [r s'], (cells_do es l op) as [r' l']. cbn [fst snd] in *. subst r'.
    specialize (IH s' l' H2). destruct (trace (slice_do junk) s' ops), (trace (cells_do es) l' ops). cbn [fst] in *. by rewrite IH. }
  apply H. eexists. split; [done|]. by apply refines_init.
Qed.

(** C40: the capacity loop of [o9_slice_setgrow], started as the code starts it
    (at the old capacity when that is positive, at 8 otherwise): when some
    doubling of the start exceeds the index without leaving a [vlong], the
    loop ends within 64 rounds with the least such doubling; for every index
    below 2^62 there is one, whatever the old capacity.  For the capacities
    of slices that grew from empty ones, the powers of two, 2^62 is the exact
    limit: above it the doubling wraps to 0 and the loop never ends. *)
Theorem grow_cap_terminates oldcap idx : oldcap < 2 ^ 63 -> 0 <= idx < 2 ^ 63 ->
  let start := if decide (oldcap > 0) then oldcap else 8 in
  (forall k : nat, idx < start * 2 ^ Z.of_nat k < 2 ^ 63 ->
     exists j : nat, (j <= k)%nat /\ grow_cap 64 idx start = Some (start * 2 ^ Z.of_nat j) /\
       idx < start * 2 ^ Z.of_nat j /\ forall i : nat, (i < j)%nat -> start * 2 ^ Z.of_nat i <= idx) /\
  (idx < 2 ^ 62 -> exists k : nat, idx < start * 2 ^ Z.of_nat k < 2 ^ 63) /\
  (oldcap <= 0 \/ (exists k : nat, oldcap = 2 ^ Z.of_nat k) ->
     (exists fuel, is_Some (grow_cap fuel idx start)) <-> idx < 2 ^ 62).
Proof.
  intros Ho Hidx start. assert (Hs : 0 < start < 2 ^ 63) by (unfold start; case_decide; lia).
  assert (Hend : forall k : nat, idx < start * 2 ^ Z.of_nat k < 2 ^ 63 -> exists j : nat, (j <= k)%nat /\ grow_cap 64 idx start = Some (start * 2 ^ Z.of_nat j) /\
       idx < start * 2 ^ Z.of_nat j /\ forall i : nat, (i < j)%nat -> start * 2 ^ Z.of_nat i <= idx)
    by (intros k Hk; apply (grow_cap_least k); [lia|exact Hk|by eapply (grow_rounds start _ idx); [lia|]]).
  split_and!; [exact Hend|intros Hlt; apply grow_reach; [exact Hs|lia]|]. intros Hp. split.
  - intros [fuel [c Hc]]. destruct (decide (idx < 2 ^ 62)) as [|Hge]; [done|].
    assert (Hk : exists k, (k <= 62)%nat /\ start = 2 ^ Z.of_nat (62 - k)).
    { destruct Hp as [Hp|[k Hk]]; [exists 59%nat; split; [lia|]; unfold start; by rewrite decide_False by lia|].
      pose proof (Z.pow_pos_nonneg 2 (Z.of_nat k)). unfold start. rewrite decide_True by lia. exists (62 - k)%nat.
      destruct (decide (k <= 62)%nat); [split; [lia|]; rewrite Hk; do 2 f_equal; lia|].
      assert (2 ^ 63 <= 2 ^ Z.of_nat k) by (apply Z.pow_le_mono_r; lia). lia. }
    destruct Hk as (k & Hk & E). rewrite E in Hc. rewrite grow_cap_overflow in Hc by lia. done.
  - intros Hlt. destruct (grow_reach start idx Hs ltac:(lia)) as [k Hk]. destruct (Hend k Hk) as (j & _ & E & _). exists 64%nat. by rewrite E.
Qed.

(** ** Witnesses *)

Lemma slice_refines_list_witness :
  (trace (slice_do (fun _ => xff)) (Some (o9_slice_init 2)) [Append (str "ab"); SetGrow 9 (str "cd"); Get 3; Get 9; Get 10]).1
  = [Some RNone; Some RNone; Some (RCell (Some (zcell 2))); Some (RCell (Some (str "cd"))); Some (RCell None)].
Proof.
  etransitivity; [apply (slice_refines_list (fun _ => xff) 2); [lia|repeat constructor]|reflexivity].
Defined.

Lemma grow_cap_terminates_witness :
  (exists fuel, is_Some (grow_cap fuel (2 ^ 61) 8)) <-> 2 ^ 61 < 2 ^ 62.
Proof. apply (grow_cap_terminates 0 (2 ^ 61)); [lia|lia|by left]. Defined.
