(* ===== verification/DataStack.v ===== *)
(** * The per-process data stack and its frames ([o9_datastack_*],
    [o9_frame_*], [o9_slice_free] in [o9_runtime.c])

    A data stack is one block of memory that is handed out from the bottom;
    a frame remembers the top and resets it.  Memory is a function from
    addresses to bytes; pointers are [Z] and wrap at 64 bits; [nil] is 0.
    [sizeof(O9String)] is 24. *)
From S2P Require Import Prelude Fmt.

Open Scope Z_scope.

(** ** Memory *)

Abbreviation memory := (Z -> byte).

Definition load (m : memory) (a : Z) (n : nat) : bytes := (fun i => m (a + Z.of_nat i)) <$> seq 0 n.

Definition store (a : Z) (bs : bytes) (m : memory) : memory :=
  fun x => if decide (a <= x) then default (m x) (bs !! Z.to_nat (x - a)) else m x.

(** [strlen], on strings of at most [fuel] bytes. *)
Fixpoint strlen (fuel : nat) (m : memory) (a : Z) : Z :=
  match fuel with
  | O => 0
  | S fuel' => if decide (m a = NUL) then 0 else 1 + strlen fuel' m (a + 1)
  end.

(** ** The stack *)

Record O9DataStack := MkDs {
  ds_base : Z; ds_top : Z; ds_limit : Z; ds_is_growing : bool; ds_grow_head : option positive }.

(** A slice whose cells are on the stack, known by the name of its record. *)
Record stack_slice := MkSs { ss_data : Z; ss_len : Z; ss_cap : Z; ss_elemsize : Z }.

Definition set_top (top : Z) (ds : O9DataStack) : O9DataStack :=
  MkDs (ds_base ds) top (ds_limit ds) (ds_is_growing ds) (ds_grow_head ds).
Definition set_growing (g : option positive) (ds : O9DataStack) : O9DataStack :=
  MkDs (ds_base ds) (ds_top ds) (ds_limit ds) (bool_decide (is_Some g)) g.

Definition sizeof_O9String : Z := 24.
Definition sizeof_ptr : Z := 8.

(** [malloc] answers the base, or nil. *)
Definition o9_datastack_create (capacity : Z) (buf : option Z) : option O9DataStack :=
  let capacity := if decide (capacity < 1024) then 1024 else capacity in
  let capacity := Z.land (u64 (capacity + 7)) (u64 (Z.lnot 7)) in
  match buf with
  | None => None
  | Some base => Some (MkDs base base (base + capacity) false None)
  end.

Definition o9_datastack_mark (ds : O9DataStack) : Z := ds_top ds.

Definition o9_datastack_reset (mark : Z) (ds : O9DataStack) : O9DataStack :=
  if decide (mark = 0) then ds
  else if decide (mark < ds_base ds \/ ds_limit ds < mark) then ds
  else set_growing None (set_top mark ds).

(** [p] rounded up to a multiple of [align]. *)
Definition align_up (align p : Z) : Z :=
  let rem := p mod align in if decide (rem <> 0) then u64 (p + (align - rem)) else p.

Definition o9_datastack_alloc (size align : Z) (ds : O9DataStack) : option Z * O9DataStack :=
  if decide (size = 0) then (None, ds)
  else
    let align := if decide (align = 0) then sizeof_ptr else align in
    let p := align_up align (ds_top ds) in
    if decide (ds_limit ds < u64 (p + size)) then (None, ds)
    else
      let ds := if ds_is_growing ds then set_growing None ds else ds in
      (Some p, set_top (u64 (p + size)) ds).

(** The fields [data], [len] and [ref] (-1: never freed) of a string header. *)
Definition string_header (payload len : Z) : bytes := le_bytes 8 payload ++ le_bytes 8 len ++ le_bytes 4 (- 1).

Section strings.
Variable fuel : nat.   (* the longest C string *)

Definition data_len (m : memory) (data : option Z) (len : Z) : Z :=
  if decide (len < 0) then match data with Some a => strlen fuel m a | None => 0 end else len.

(** [memmove(payload, data, len); payload[len] = '\0'] *)
Definition put_payload (payload : Z) (data : option Z) (len : Z) (m : memory) : memory :=
  let m := match data with
           | Some a => if decide (0 < len) then store payload (load m a (Z.to_nat len)) m else m
           | None => m
           end in
  store (payload + len) [NUL] m.

Definition o9_datastack_string (data : option Z) (len : Z) (ds : O9DataStack) (m : memory)
    : option Z * O9DataStack * memory :=
  let len := data_len m data len in
  match o9_datastack_alloc (u64 (sizeof_O9String + len + 1)) sizeof_ptr ds with
  | (None, ds) => (None, ds, m)
  | (Some s, ds) =>
      let payload := s + sizeof_O9String in
      (Some s, ds, store s (string_header payload len) (put_payload payload data len m))
  end.

(** ** Slices on the stack *)

Definition o9_datastack_slice_begin (name : positive) (elemsize : Z) (s : stack_slice) (ds : O9DataStack)
    : stack_slice * O9DataStack :=
  if decide (elemsize <= 0) then (s, ds)
  else
    let p := align_up sizeof_ptr (ds_top ds) in
    (MkSs p 0 ((ds_limit ds - p) ÷ elemsize) elemsize, set_growing (Some name) (set_top p ds)).

Definition o9_datastack_slice_push (name : positive) (elem : bytes) (s : stack_slice) (ds : O9DataStack) (m : memory)
    : option Z * stack_slice * O9DataStack * memory :=
  if negb (ds_is_growing ds) || negb (bool_decide (ds_grow_head ds = Some name)) then (None, s, ds, m)
  else if decide (ds_limit ds < u64 (ds_top ds + ss_elemsize s)) then (None, s, ds, m)
  else
    let dest := ds_top ds in
    (Some dest, MkSs (ss_data s) (ss_len s + 1) (ss_cap s) (ss_elemsize s),
     set_top (dest + ss_elemsize s) ds, store dest elem m).

(** A negative capacity marks the cells as the stack's. *)
Definition o9_datastack_slice_end (name : positive) (s : stack_slice) (ds : O9DataStack) : stack_slice * O9DataStack :=
  if ds_is_growing ds && bool_decide (ds_grow_head ds = Some name)
  then (MkSs (ss_data s) (ss_len s) (- ss_len s) (ss_elemsize s), set_growing None ds)
  else (s, ds).

(** What [o9_slice_free] passes to [free]. *)
Definition o9_slice_free (s : stack_slice) : option Z := if decide (ss_cap s < 0) then None else Some (ss_data s).

(** ** Frames *)

Record O9DataFrame := MkFrame { f_mark : Z; f_sealed : bool }.

Definition o9_frame_enter (ds : O9DataStack) : O9DataFrame := MkFrame (ds_top ds) false.

Definition o9_frame_alloc (size align : Z) (ds : O9DataStack) : option Z * O9DataStack := o9_datastack_alloc size align ds.

(** The C string of an [O9String] with the given bytes; no room gives [""]. *)
Definition o9_frame_scratch_str (s : bytes) (ds : O9DataStack) (m : memory) : option Z * O9DataStack * memory :=
  match o9_frame_alloc (Z.of_nat (length s) + 1) 1 ds with
  | (None, ds) => (None, ds, m)
  | (Some p, ds) => (Some p, ds, store (p + Z.of_nat (length s)) [NUL] (store p s m))
  end.

Definition o9_frame_seal_string (data : option Z) (len : Z) (f : O9DataFrame) (ds : O9DataStack) (m : memory)
    : option Z * O9DataFrame * O9DataStack * memory :=
  let len := data_len m data len in
  let need := u64 (sizeof_O9String + len + 1) in
  if decide (ds_limit ds < u64 (f_mark f + need)) then (None, f, ds, m)
  else
    let out := f_mark f in
    let payload := out + sizeof_O9String in
    let m := if bool_decide (data = Some payload) then store (payload + len) [NUL] m
             else put_payload payload data len m in
    (Some out, MkFrame (f_mark f) true, set_top (f_mark f + need) ds, store out (string_header payload len) m).

Definition o9_frame_exit (f : O9DataFrame) (ds : O9DataStack) : O9DataStack :=
  if f_sealed f then ds else o9_datastack_reset (f_mark f) ds.
End strings.
