(* ===== verification/DataStackSpec.v ===== *)
(** * The data stack hands out disjoint memory and frames give it back

    Sequences of operations on one data stack ([DataStack]), with the blocks
    that are in use as ghost state. *)
From S2P Require Import Prelude Fmt DataStack.
From Stdlib Require Import Sorted.

Open Scope Z_scope.

(** ** Sequences of operations *)

(** A block in use: its address and what it was given. *)
Abbreviation block := (Z * bytes)%type.
Definition block_end (b : block) : Z := b.1 + Z.of_nat (length b.2).

(** The frames are nested, the innermost first. *)
Record st := MkSt {
  st_ds : O9DataStack; st_mem : memory; st_frames : list O9DataFrame;
  st_slices : gmap positive stack_slice; st_live : list block }.

Inductive ds_op :=
  | OAlloc (size align : Z)
  | OString (data : option Z) (len : Z)   (* a negative length asks for strlen *)
  | OScratch (s : bytes)
  | OBegin (name : positive) (elemsize : Z)
  | OPush (name : positive) (elem : bytes)
  | OEnd (name : positive)
  | OEnter
  | OSeal (data : option Z) (len : Z)
  | OExit
  | OReset (mark : Z).                     (* any address, that of an earlier top or not *)

(** The header and the text of a string on the stack. *)
Definition string_blocks (m : memory) (out len : Z) : list block :=
  [(out, load m out 20); (out + sizeof_O9String, load m (out + sizeof_O9String) (Z.to_nat len + 1))].

Definition slice0 : stack_slice := MkSs 0 0 0 0.

Section operations.
(** The longest C string. *)
Variable fuel : nat.

Definition op_do (s : st) (op : ds_op) : st :=
  let '(MkSt ds m fs sl live) := s in
  match op with
  | OAlloc size align =>
      match o9_datastack_alloc size align ds with
      | (Some p, ds') => MkSt ds' m fs sl (live ++ [(p, load m p (Z.to_nat size))])
      | (None, ds') => MkSt ds' m fs sl live
      end
  | OString data len =>
      match o9_datastack_string fuel data len ds m with
      | (Some p, ds', m') => MkSt ds' m' fs sl (live ++ string_blocks m' p (data_len fuel m data len))
      | (None, ds', m') => MkSt ds' m' fs sl live
      end
  | OScratch txt =>
      match o9_frame_scratch_str txt ds m with
      | (Some p, ds', m') => MkSt ds' m' fs sl (live ++ [(p, txt ++ [NUL])])
      | (None, ds', m') => MkSt ds' m' fs sl live
      end
  | OBegin name es =>
      let '(x, ds') := o9_datastack_slice_begin name es (default slice0 (sl !! name)) ds in
      MkSt ds' m fs (<[name := x]> sl) live
  | OPush name elem =>
      let x := default slice0 (sl !! name) in
      if decide (Z.of_nat (length elem) = ss_elemsize x /\ 0 < ss_elemsize x) then
        match o9_datastack_slice_push name elem x ds m with
        | (Some p, x', ds', m') => MkSt ds' m' fs (<[name := x']> sl) (live ++ [(p, elem)])
        | (None, x', ds', m') => MkSt ds' m' fs (<[name := x']> sl) live
        end
      else s
  | OEnd name =>
      let '(x, ds') := o9_datastack_slice_end name (default slice0 (sl !! name)) ds in
      MkSt ds' m fs (<[name := x]> sl) live
  | OEnter => MkSt ds m (o9_frame_enter ds :: fs) sl live
  | OSeal data len =>
      match fs with
      | [] => s
      | f :: fs' =>
          match o9_frame_seal_string fuel data len f ds m with
          | (Some p, f', ds', m') =>
              MkSt ds' m' (f' :: fs') sl
                (filter (fun b => block_end b <= f_mark f) live ++ string_blocks m' p (data_len fuel m data len))
          | (None, f', ds', m') => MkSt ds' m' (f' :: fs') sl live
          end
      end
  | OExit =>
      match fs with
      | [] => s
      | f :: fs' =>
          MkSt (o9_frame_exit f ds) m fs' sl
            (if f_sealed f then live else filter (fun b => block_end b <= f_mark f) live)
      end
  | OReset mark =>
      (* what ends above the new top is given back; a reset that the code refuses changes nothing *)
      MkSt (o9_datastack_reset mark ds) m fs sl
        (if decide (mark = 0 \/ mark < ds_base ds \/ ds_limit ds < mark) then live
         else filter (fun b => block_end b <= mark) live)
  end.

Definition run (ops : list ds_op) (s : st) : st := fold_left op_do ops s.
End operations.

(** Sizes and alignments below 2^61 do not wrap. *)
Definition op_ok (op : ds_op) : Prop :=
  match op with
  | OAlloc size align => 0 <= size < 2 ^ 61 /\ 0 <= align < 2 ^ 61
  | OString _ len | OSeal _ len => len < 2 ^ 61
  | OScratch s | OPush _ s => Z.of_nat (length s) < 2 ^ 61
  | _ => True
  end.

Definition range_ok (ds : O9DataStack) : Prop :=
  0 < ds_base ds <= ds_top ds /\ ds_top ds <= ds_limit ds < 2 ^ 62 /\ ds_limit ds mod 8 = 0.

(** ** Lemmas on memory *)

Lemma load_length m a n : length (load m a n) = n.
Proof. unfold load. by rewrite length_fmap, length_seq. Qed.

Lemma load_ext m m' a n : (forall x, a <= x < a + Z.of_nat n -> m' x = m x) -> load m' a n = load m a n.
Proof.
  intros H. unfold load. apply list_fmap_ext. intros i x Hi. apply lookup_seq in Hi as [-> ?]. apply H. lia.
Qed.

Lemma store_out a bs m x : x < a \/ a + Z.of_nat (length bs) <= x -> store a bs m x = m x.
Proof.
  intros H. unfold store. case_decide; [|done]. rewrite lookup_ge_None_2; [done|lia].
Qed.

Lemma load_store a bs m : load (store a bs m) a (length bs) = bs.
Proof.
  apply list_eq. intros i. unfold load. rewrite list_lookup_fmap.
  destruct (decide (i < length bs)%nat) as [Hi|Hi].
  - rewrite lookup_seq_lt by done. simpl. unfold store. rewrite decide_True by lia.
    replace (Z.to_nat (a + Z.of_nat i - a)) with i by lia.
    destruct (lookup_lt_is_Some_2 bs i Hi) as [x Hx]. by rewrite Hx.
  - rewrite (lookup_ge_None_2 bs), lookup_ge_None_2 by (rewrite ?length_seq; lia). done.
Qed.

(** ** The blocks in use *)

Definition blocks_ok (lo hi : Z) (m : memory) (l : list block) : Prop :=
  Forall (fun b => lo <= b.1 /\ block_end b <= hi /\ b.2 <> [] /\ load m b.1 (length b.2) = b.2) l /\
  StronglySorted (fun b c => block_end b <= c.1) l.

Lemma blocks_nil lo hi m : blocks_ok lo hi m [].
Proof. split; constructor. Qed.

(** Later writes and new blocks are above the blocks in use. *)
Lemma blocks_mono lo hi hi' m m' l : blocks_ok lo hi m l -> hi <= hi' -> (forall x, x < hi -> m' x = m x) ->
  blocks_ok lo hi' m' l.
Proof.
  intros [H1 H2] Hle Hm. split; [|done]. eapply Forall_impl; [exact H1|]. intros b (Hb & He & Hn & Hl).
  unfold block_end in *. split_and!; [lia|lia|done|]. rewrite <- Hl at 2. apply load_ext. intros x Hx. apply Hm. lia.
Qed.

Lemma blocks_app lo mid hi m l k : blocks_ok lo mid m l -> blocks_ok mid hi m k -> lo <= mid <= hi ->
  blocks_ok lo hi m (l ++ k).
Proof.
  intros [H1 H2] [K1 K2] Hle. split.
  - apply Forall_app. split; (eapply Forall_impl; [eassumption|]); intros b (? & ? & ? & ?); split_and!; (lia || done).
  - induction H2 as [|b l H2 IH Hb]; [done|]. apply Forall_cons in H1 as [Hb1 H1]. simpl. constructor; [by apply IH|].
    apply Forall_app. split; [done|]. eapply Forall_impl; [exact K1|]. intros c (? & _). destruct Hb1 as (_ & ? & _). lia.
Qed.

Lemma blocks_filter lo hi m l mark : blocks_ok lo hi m l ->
  blocks_ok lo mark m (filter (fun b => block_end b <= mark) l).
Proof.
  intros [H1 H2]. split.
  - apply Forall_forall. intros b [Hb Hin]%list_elem_of_filter. rewrite Forall_forall in H1.
    destruct (H1 b Hin) as (? & _ & ? & ?). auto.
  - clear H1. induction H2 as [|b l H2 IH Hb]; [constructor|].
    rewrite filter_cons. case_decide; [|done]. constructor; [done|].
    rewrite Forall_forall in Hb |- *. intros c [_ Hc]%list_elem_of_filter. auto.
Qed.

(** One block of bytes that are in memory. *)
Lemma blocks_one lo hi m a bs : lo <= a -> a + Z.of_nat (length bs) <= hi -> bs <> [] ->
  load m a (length bs) = bs -> blocks_ok lo hi m [(a, bs)].
Proof. intros. split; [by repeat constructor|]. by repeat constructor. Qed.

Lemma blocks_string lo m out len : lo <= out -> 0 <= len ->
  blocks_ok lo (out + (sizeof_O9String + len + 1)) m (string_blocks m out len).
Proof.
  intros Hlo Hlen. unfold string_blocks, sizeof_O9String. split.
  - repeat constructor; unfold block_end; cbn [fst snd]; rewrite ?load_length; try lia; try done.
    + intros H. apply (f_equal length) in H. rewrite load_length in H. simpl in H. lia.
  - repeat constructor; unfold block_end; cbn [fst snd]; rewrite ?load_length; lia.
Qed.

(** ** One operation *)

Lemma align_up_spec align p : 0 < align < 2 ^ 62 -> 0 <= p < 2 ^ 62 ->
  p <= align_up align p < p + align /\ align_up align p mod align = 0.
Proof.
  intros Ha Hp. unfold align_up. pose proof (Z.mod_pos_bound p align ltac:(lia)) as Hm. cbv zeta.
  destruct (decide (p mod align <> 0)) as [Hr|Hr]; [|split; [lia|lia]].
  rewrite wrapu_id by lia. split; [lia|].
  replace (p + (align - p mod align)) with ((p / align + 1) * align) by (pose proof (Z.div_mod p align); lia).
  apply Z.mod_mul. lia.
Qed.

(** The stack after [n] bytes were taken from [p]. *)
Definition taken (ds : O9DataStack) (p n : Z) (ds' : O9DataStack) : Prop :=
  ds_base ds' = ds_base ds /\ ds_limit ds' = ds_limit ds /\ ds_top ds' = p + n /\ ds_top ds <= p /\ p + n <= ds_limit ds.

Lemma alloc_cases size align ds : range_ok ds -> 0 <= size < 2 ^ 62 -> 0 <= align < 2 ^ 61 ->
  let a := if decide (align = 0) then 8 else align in
  let '(r, ds') := o9_datastack_alloc size align ds in
  match r with
  | Some p => 0 < size /\ p = align_up a (ds_top ds) /\ p mod a = 0 /\ taken ds p size ds'
  | None => ds' = ds /\ (size = 0 \/ ds_limit ds < align_up a (ds_top ds) + size)
  end.
Proof.
  intros (Hb & Ht & _) Hs Ha a. unfold o9_datastack_alloc. destruct (decide (size = 0)); [auto|]. fold a.
  assert (Hal : 0 < a < 2 ^ 62) by (unfold a; case_decide; lia).
  change (if decide (align = 0) then sizeof_ptr else align) with a. cbv zeta.
  pose proof (align_up_spec a (ds_top ds) Hal ltac:(lia)) as [H1 H2]. rewrite (wrapu_id 64) by lia.
  destruct (decide (ds_limit ds < _)); [auto|]. unfold taken.
  destruct (ds_is_growing ds); split_and!; simpl; try done; lia.
Qed.

Record inv (s : st) : Prop := {
  iv_range : range_ok (st_ds s);
  iv_live : blocks_ok (ds_base (st_ds s)) (ds_top (st_ds s)) (st_mem s) (st_live s);
  iv_marks : Forall (fun f => ds_base (st_ds s) <= f_mark f <= ds_limit (st_ds s)) (st_frames s) }.

(** What most operations do: take memory at the top and put new blocks there. *)
Definition grows (s s' : st) : Prop := exists p n new,
  taken (st_ds s) p n (st_ds s') /\ 0 <= n /\ (forall x, x < p -> st_mem s' x = st_mem s x) /\
  blocks_ok p (p + n) (st_mem s') new /\ st_live s' = st_live s ++ new /\ st_frames s' = st_frames s.

Lemma inv_grows s s' : inv s -> grows s s' -> inv s'.
Proof.
  intros [(Hr1 & Hr2 & Hr3) Hl Hf] (p & n & new & (Hb & Hlim & Ht & Hp & Hfit) & Hn & Hm & Hnew & Hlive & Hfr). split.
  - unfold range_ok. rewrite Hb, Hlim, Ht. split_and!; lia || done.
  - rewrite Hb, Ht, Hlive. eapply blocks_app; [|exact Hnew|lia].
    eapply blocks_mono; [exact Hl|done|]. intros x Hx. apply Hm. lia.
  - rewrite Hfr. eapply Forall_impl; [exact Hf|]. intros f [Hm1 Hm2]. rewrite Hb, Hlim. lia.
Qed.

(** A stack that only differs in its growing slice. *)
Lemma grows_same s s' : range_ok (st_ds s) -> ds_base (st_ds s') = ds_base (st_ds s) ->
  ds_limit (st_ds s') = ds_limit (st_ds s) -> ds_top (st_ds s') = ds_top (st_ds s) ->
  st_mem s' = st_mem s -> st_live s' = st_live s -> st_frames s' = st_frames s -> grows s s'.
Proof.
  intros (H1 & H2 & _) Hb Hlim Ht Hm Hl Hf. exists (ds_top (st_ds s)), 0, []. split_and!.
  - unfold taken. split_and!; lia || done.
  - lia.
  - intros x _. by rewrite Hm.
  - apply blocks_nil.
  - by rewrite app_nil_r.
  - done.
Qed.

Lemma grows_one s s' p n new : taken (st_ds s) p n (st_ds s') -> 0 <= n -> (forall x, x < p -> st_mem s' x = st_mem s x) ->
  blocks_ok p (p + n) (st_mem s') new -> st_live s' = st_live s ++ new -> st_frames s' = st_frames s -> grows s s'.
Proof. intros. exists p, n, new. auto 10. Qed.

(** What the strings write. *)
Lemma put_payload_low payload data len m x : x < payload -> 0 <= len -> put_payload payload data len m x = m x.
Proof.
  intros Hx Hlen. unfold put_payload. rewrite store_out by lia. destruct data; [|done]. case_decide; [|done].
  apply store_out. lia.
Qed.

Lemma header_length payload len : length (string_header payload len) = 20%nat.
Proof. unfold string_header. by rewrite !length_app, !le_bytes_length. Qed.

Lemma alloc_taken size align ds p ds' : range_ok ds -> 0 <= size < 2 ^ 62 -> 0 <= align < 2 ^ 61 ->
  o9_datastack_alloc size align ds = (Some p, ds') -> 0 < size /\ taken ds p size ds'.
Proof.
  intros Hr Hs Ha E. pose proof (alloc_cases size align ds Hr Hs Ha) as H. cbv zeta in H. rewrite E in H. tauto.
Qed.

Lemma alloc_none size align ds ds' : range_ok ds -> 0 <= size < 2 ^ 62 -> 0 <= align < 2 ^ 61 ->
  o9_datastack_alloc size align ds = (None, ds') -> ds' = ds.
Proof.
  intros Hr Hs Ha E. pose proof (alloc_cases size align ds Hr Hs Ha) as H. cbv zeta in H. rewrite E in H. tauto.
Qed.

Lemma load_app m a n k : load m a (n + k) = load m a n ++ load m (a + Z.of_nat n) k.
Proof.
  unfold load. rewrite seq_app, fmap_app. f_equal. rewrite Nat.add_comm. cbn [Nat.add].
  rewrite <- (Nat.add_0_r n) at 1. rewrite <- fmap_add_seq, <- list_fmap_compose. apply list_fmap_ext.
  intros i x _. simpl. f_equal. lia.
Qed.

Lemma scratch_cases txt ds m : range_ok ds -> Z.of_nat (length txt) < 2 ^ 61 ->
  let '(r, ds', m') := o9_frame_scratch_str txt ds m in
  match r with
  | Some p => taken ds p (Z.of_nat (length txt) + 1) ds' /\ (forall x, x < p -> m' x = m x) /\
      load m' p (length txt + 1) = txt ++ [NUL]
  | None => ds' = ds /\ m' = m
  end.
Proof.
  intros Hr Hlen. unfold o9_frame_scratch_str, o9_frame_alloc.
  pose proof (alloc_taken (Z.of_nat (length txt) + 1) 1 ds) as Hsome.
  pose proof (alloc_none (Z.of_nat (length txt) + 1) 1 ds) as Hnone.
  destruct (o9_datastack_alloc _ _ _) as [[p|] ds'].
  - destruct (Hsome p ds') as [_ Ht]; [done|lia..|done|]. split; [done|]. split.
    + intros x Hx. rewrite !store_out by lia. done.
    + rewrite load_app. f_equal; [|exact (load_store (p + Z.of_nat (length txt)) [NUL] _)].
      transitivity (load (store p txt m) p (length txt)); [|apply load_store].
      apply load_ext. intros x Hx. apply store_out. lia.
  - split; [|done]. apply Hnone; [done|lia..|done].
Qed.

(** A growing slice starts at the next word boundary, which is in the stack. *)
Lemma slice_begin_cases name es x ds : range_ok ds ->
  let '(x', ds') := o9_datastack_slice_begin name es x ds in
  (es <= 0 /\ ds' = ds /\ x' = x) \/
  (0 < es /\ taken ds (align_up 8 (ds_top ds)) 0 ds' /\ ds_is_growing ds' = true /\ ds_grow_head ds' = Some name /\
   x' = MkSs (align_up 8 (ds_top ds)) 0 ((ds_limit ds - align_up 8 (ds_top ds)) / es) es).
Proof.
  intros (Hb & Ht & Hm). unfold o9_datastack_slice_begin. destruct (decide (es <= 0)); [by left|]. right.
  unfold sizeof_ptr. destruct (align_up_spec 8 (ds_top ds)) as [H1 H2]; [lia..|].
  assert (Hle : align_up 8 (ds_top ds) <= ds_limit ds).
  { pose proof (Z.div_mod (align_up 8 (ds_top ds)) 8 ltac:(lia)). pose proof (Z.div_mod (ds_limit ds) 8 ltac:(lia)). lia. }
  cbv zeta. rewrite Z.quot_div_nonneg by lia.
  split_and!; [lia|split_and!; simpl; lia|done..].
Qed.

Lemma push_cases name elem x ds m : range_ok ds -> Z.of_nat (length elem) = ss_elemsize x -> ss_elemsize x < 2 ^ 61 ->
  let '(r, x', ds', m') := o9_datastack_slice_push name elem x ds m in
  match r with
  | Some p => p = ds_top ds /\ taken ds p (ss_elemsize x) ds' /\ m' = store p elem m /\
      ds_is_growing ds' = ds_is_growing ds /\ ds_grow_head ds' = ds_grow_head ds /\
      x' = MkSs (ss_data x) (ss_len x + 1) (ss_cap x) (ss_elemsize x)
  | None => ds' = ds /\ m' = m /\ x' = x
  end.
Proof.
  intros (Hb & Ht & Hm) Hlen Hes. unfold o9_datastack_slice_push. destruct (_ || _); [done|].
  rewrite wrapu_id by lia. destruct (decide (ds_limit ds < _)); [done|].
  split_and!; [done|unfold taken; simpl; split_and!; (done || lia)|done..].
Qed.

Section longest.
Variable fuel : nat.
Hypothesis fuel_ok : Z.of_nat fuel < 2 ^ 61.

Lemma strlen_range n m a : 0 <= strlen n m a <= Z.of_nat n.
Proof. revert a. induction n as [|n IH]; intros a; cbn [strlen]; [lia|]. case_decide; [lia|]. specialize (IH (a + 1)). lia. Qed.

Lemma data_len_range m data len : len < 2 ^ 61 -> 0 <= data_len fuel m data len < 2 ^ 61.
Proof.
  intros Hlen. unfold data_len. case_decide; [|lia]. destruct data as [a|]; [|lia]. pose proof (strlen_range fuel m a). lia.
Qed.

Lemma string_cases data len ds m : range_ok ds -> len < 2 ^ 61 ->
  let '(r, ds', m') := o9_datastack_string fuel data len ds m in
  match r with
  | Some p => taken ds p (sizeof_O9String + data_len fuel m data len + 1) ds' /\ (forall x, x < p -> m' x = m x)
  | None => ds' = ds /\ m' = m
  end.
Proof.
  intros Hr Hlen'. unfold o9_datastack_string. pose proof (data_len_range m data len Hlen') as Hlen. cbv zeta.
  revert Hlen. generalize (data_len fuel m data len). clear len Hlen'. intros len Hlen.
  unfold sizeof_O9String. rewrite wrapu_id by lia. pose proof (alloc_taken (24 + len + 1) sizeof_ptr ds) as Hsome.
  pose proof (alloc_none (24 + len + 1) sizeof_ptr ds) as Hnone. unfold sizeof_ptr in *.
  destruct (o9_datastack_alloc _ _ _) as [[p|] ds'].
  - destruct (Hsome p ds') as [_ Ht]; [done|lia..|done|]. split; [done|]. intros x Hx.
    rewrite store_out by lia. apply put_payload_low; lia.
  - split; [|done]. apply Hnone; [done|lia..|done].
Qed.

Lemma seal_cases data len f ds m : range_ok ds -> ds_base ds <= f_mark f <= ds_limit ds -> len < 2 ^ 61 ->
  let '(r, f', ds', m') := o9_frame_seal_string fuel data len f ds m in
  let len := data_len fuel m data len in
  match r with
  | Some p => p = f_mark f /\ f' = MkFrame (f_mark f) true /\
      p + (sizeof_O9String + len + 1) <= ds_limit ds /\ ds' = set_top (p + (sizeof_O9String + len + 1)) ds /\
      (forall x, x < p -> m' x = m x)
  | None => ds' = ds /\ m' = m /\ f' = f /\ ds_limit ds < f_mark f + (sizeof_O9String + len + 1)
  end.
Proof.
  intros (Hb & Ht & Hm) Hf Hlen'. unfold o9_frame_seal_string. pose proof (data_len_range m data len Hlen') as Hlen. cbv zeta.
  revert Hlen. generalize (data_len fuel m data len). clear len Hlen'. intros len Hlen.
  unfold sizeof_O9String. rewrite (wrapu_id 64 (24 + len + 1)), (wrapu_id 64 (f_mark f + _)) by lia.
  destruct (decide (ds_limit ds < _)); [split_and!; done|]. split_and!; [done|done|lia|done|].
  intros x Hx. rewrite store_out by lia. case_bool_decide; [apply store_out; lia|apply put_payload_low; lia].
Qed.

(** ** Every operation keeps the invariant *)

Definition on_frames (op : ds_op) : bool := match op with OEnter | OSeal _ _ | OExit | OReset _ => true | _ => false end.

Lemma op_grows s op : inv s -> op_ok op -> on_frames op = false -> grows s (op_do fuel s op).
Proof.
  intros Hi Hop Hno. pose proof (iv_range _ Hi) as Hr. destruct s as [ds m fs sl live]. cbn [st_ds] in Hr.
  destruct op as [size align|data len|txt|name es|name elem|name| |data len| |mark]; cbn [op_do op_ok] in *; try done.
  - pose proof (alloc_taken size align ds) as Hsome. pose proof (alloc_none size align ds) as Hnone.
    destruct (o9_datastack_alloc size align ds) as [[p|] ds'].
    + destruct (Hsome p ds') as [Hpos Ht]; [done|lia..|done|].
      eapply grows_one; [exact Ht|lia|done| |done|done]. apply blocks_one; rewrite ?load_length; [lia..| |done].
      intros H. apply (f_equal length) in H. rewrite load_length in H. simpl in H. lia.
    + rewrite (Hnone ds') by (done || lia). by apply grows_same.
  - pose proof (string_cases data len ds m Hr Hop) as H. destruct (o9_datastack_string _ _ _ _ _) as [[[p|] ds'] m'].
    + pose proof (data_len_range m data len Hop). destruct H as [Ht Hm].
      eapply grows_one; [exact Ht|unfold sizeof_O9String; lia|exact Hm| |done|done]. apply blocks_string; lia.
    + destruct H as [-> ->]. by apply grows_same.
  - pose proof (scratch_cases txt ds m Hr Hop) as H. destruct (o9_frame_scratch_str _ _ _) as [[[p|] ds'] m'].
    + destruct H as (Ht & Hm & Hl). eapply grows_one; [exact Ht|lia|exact Hm| |done|done].
      apply blocks_one; rewrite ?length_app; simpl; [lia|lia| |exact Hl]. by destruct txt.
    + destruct H as [-> ->]. by apply grows_same.
  - pose proof (slice_begin_cases name es (default slice0 (sl !! name)) ds Hr) as H.
    destruct (o9_datastack_slice_begin _ _ _ _) as [x ds']. destruct H as [(_ & -> & _)|(_ & Ht & _)]; [by apply grows_same|].
    eapply grows_one; [exact Ht|lia|done|apply blocks_nil|by rewrite app_nil_r|done].
  - destruct (decide _) as [[He Hpos]|]; [|by apply grows_same].
    pose proof (push_cases name elem (default slice0 (sl !! name)) ds m Hr He ltac:(lia)) as H.
    destruct (o9_datastack_slice_push _ _ _ _ _) as [[[[p|] x'] ds'] m'].
    + destruct H as (-> & Ht & -> & _). eapply grows_one; [exact Ht|lia| | |done|done].
      * intros y Hy. apply store_out. lia.
      * apply blocks_one; [lia|lia| |apply load_store]. intros ->. simpl in He. lia.
    + destruct H as (-> & -> & _). by apply grows_same.
  - unfold o9_datastack_slice_end. destruct (_ && _); by apply grows_same.
Qed.

Lemma inv_frames s op : inv s -> op_ok op -> on_frames op = true -> inv (op_do fuel s op).
Proof.
  intros Hi Hop Hon. pose proof (iv_range _ Hi) as Hr. destruct s as [ds m fs sl live]. cbn [st_ds] in Hr.
  pose proof Hr as (Hr1 & Hr2 & Hr3).
  destruct Hi as [_ Hl Hf]. cbn [st_ds st_mem st_live st_frames] in *.
  destruct op as [| | | | | | |data len| |mark]; try done; cbn [op_do op_ok] in *.
  - split; simpl; [done..|]. constructor; [simpl; lia|done].
  - destruct fs as [|f fs]; [done|]. apply Forall_cons in Hf as [Hf1 Hf].
    pose proof (seal_cases data len f ds m Hr Hf1 Hop) as H. pose proof (data_len_range m data len Hop) as Hlen.
    destruct (o9_frame_seal_string _ _ _ _ _ _) as [[[[p|] f'] ds'] m']; cbv zeta in H.
    + destruct H as (-> & -> & Hfit & -> & Hm). unfold sizeof_O9String in *.
      split; cbn [st_ds st_mem st_live st_frames ds_base ds_top ds_limit set_top].
      * unfold range_ok. simpl. split_and!; lia || done.
      * apply (blocks_app _ (f_mark f)); [|apply blocks_string; lia|lia].
        eapply blocks_mono; [by eapply blocks_filter|done|exact Hm].
      * by constructor.
    + destruct H as (-> & -> & -> & _). split; [done..|]. by constructor.
  - destruct fs as [|f fs]; [done|]. apply Forall_cons in Hf as [Hf1 Hf].
    unfold o9_frame_exit. destruct (f_sealed f); [by split|]. unfold o9_datastack_reset. rewrite !decide_False by lia.
    split; cbn [st_ds st_mem st_live st_frames ds_base ds_top ds_limit set_top set_growing].
    + unfold range_ok. simpl. split_and!; lia || done.
    + by eapply blocks_filter.
    + done.
  - unfold o9_datastack_reset. destruct (decide (mark = 0)); [rewrite decide_True by auto; by split|].
    destruct (decide (mark < ds_base ds \/ ds_limit ds < mark)); [rewrite decide_True by tauto; by split|].
    rewrite decide_False by tauto. split; cbn [st_ds st_mem st_live st_frames ds_base ds_top ds_limit set_top set_growing].
    + unfold range_ok. simpl. split_and!; lia || done.
    + by eapply blocks_filter.
    + done.
Qed.

Lemma stack_step s op : inv s -> op_ok op -> inv (op_do fuel s op).
Proof.
  intros Hi Hop. destruct (on_frames op) eqn:Hon; [by apply inv_frames|].
  eapply inv_grows; [exact Hi|]. by apply op_grows.
Qed.

Lemma stack_run ops s : inv s -> Forall op_ok ops -> inv (run fuel ops s).
Proof.
  intros Hi Hops. revert s Hi. induction Hops as [|op ops Hop _ IH]; intros s Hi; [done|].
  apply IH. by apply stack_step.
Qed.

(** A new stack: the capacity is rounded up to words. *)
Lemma round_up c : 0 <= c < 2 ^ 60 -> Z.land (u64 (c + 7)) (u64 (Z.lnot 7)) = (c + 7) / 8 * 8.
Proof.
  intros Hc. rewrite (wrapu_id 64 (c + 7)) by lia.
  assert (H : u64 (Z.lnot 7) = Z.land (Z.lnot 7) (Z.ones 64)) by (symmetry; apply Z.land_ones; lia).
  rewrite H, (Z.land_comm (Z.lnot 7)), Z.land_assoc, Z.land_ones, Z.mod_small, <- Z.ldiff_land by lia.
  change 7 with (Z.ones 3) at 2. rewrite Z.ldiff_ones_r, Z.shiftl_mul_pow2, Z.shiftr_div_pow2 by lia. done.
Qed.

Lemma create_range capacity base : 0 <= capacity < 2 ^ 60 -> 0 < base < 2 ^ 61 -> base mod 8 = 0 ->
  exists ds, o9_datastack_create capacity (Some base) = Some ds /\ range_ok ds /\ ds_base ds = base /\ ds_top ds = base /\
    capacity <= ds_limit ds - base.
Proof.
  intros Hc Hb Hm. unfold o9_datastack_create. set (c := if decide (capacity < 1024) then 1024 else capacity).
  assert (Hc' : capacity <= c < 2 ^ 60) by (unfold c; case_decide; lia). cbv zeta.
  rewrite round_up by (unfold c; case_decide; lia). eexists. split; [done|].
  pose proof (Z.div_mod (c + 7) 8 ltac:(lia)). pose proof (Z.mod_pos_bound (c + 7) 8 ltac:(lia)).
  unfold range_ok. simpl. split; [split_and!; try lia|split_and!; lia || done].
  rewrite Z.mod_add by lia. done.
Qed.

Definition start (ds : O9DataStack) (m : memory) : st := MkSt ds m [] ∅ [].

Lemma inv_start ds m : range_ok ds -> ds_top ds = ds_base ds -> inv (start ds m).
Proof. intros Hr Ht. split; simpl; [done|apply blocks_nil|constructor]. Qed.

(** Frames are closed in the order they were opened, [n] of them already, and
    nothing else resets the stack. *)
Fixpoint nested (n : nat) (ops : list ds_op) : Prop :=
  match ops with
  | [] => n = 0%nat
  | OEnter :: ops' => nested (S n) ops'
  | OExit :: ops' => match n with O => False | S n' => nested n' ops' end
  | OReset _ :: _ => False
  | _ :: ops' => nested n ops'
  end.

(** Inside a frame: the blocks below its mark are those of its start. *)
Record within (mark : Z) (fs : list O9DataFrame) (live : list block) (n : nat) (s : st) : Prop := {
  wi_inv : inv s;
  wi_frames : exists inner f, st_frames s = inner ++ f :: fs /\ length inner = n /\ f_mark f = mark /\
    Forall (fun g => mark <= f_mark g) inner;
  wi_top : mark <= ds_top (st_ds s);
  wi_live : filter (fun b => block_end b <= mark) (st_live s) = live }.

(** Blocks that start at the mark or above end above it. *)
Lemma filter_above lo hi m l mark : blocks_ok lo hi m l -> mark <= lo ->
  filter (fun b => block_end b <= mark) l = [].
Proof.
  intros [H _] Hle. induction H as [|b l (Hb & _ & Hn & _) _ IH]; [done|].
  rewrite filter_cons_False; [done|]. unfold block_end. destruct (b.2); [done|]. simpl. lia.
Qed.

Lemma filter_filter_le (l : list block) mark mark' : mark <= mark' ->
  filter (fun b => block_end b <= mark) (filter (fun b => block_end b <= mark') l) =
  filter (fun b => block_end b <= mark) l.
Proof.
  intros Hle. rewrite list_filter_filter_l; [done|]. intros b Hb. lia.
Qed.

Lemma within_grows mark fs live n s s' : within mark fs live n s -> inv s' -> grows s s' -> within mark fs live n s'.
Proof.
  intros [Hi Hfr Ht Hl] Hi' (p & k & new & (Hb & Hlim & Htop & Hp & Hfit) & Hk & Hm & Hnew & Hlive & Hf). split.
  - done.
  - by rewrite Hf.
  - lia.
  - by rewrite Hlive, filter_app, (filter_above p (p + k) (st_mem s') new), app_nil_r by (done || lia).
Qed.

(** A frame that is open inside is closed or sealed. *)
Lemma within_enter mark fs live n s : within mark fs live n s -> within mark fs live (S n) (op_do fuel s OEnter).
Proof.
  intros [Hi (inner & f & Hfr & Hn & Hm & Hf) Ht Hl]. split; [by apply stack_step| | |].
  - exists (o9_frame_enter (st_ds s) :: inner), f. destruct s. simpl in *. subst. split_and!; try done. by constructor.
  - by destruct s.
  - by destruct s.
Qed.

Lemma within_exit mark fs live n s : within mark fs live (S n) s -> within mark fs live n (op_do fuel s OExit).
Proof.
  intros [Hi (inner & f & Hfr & Hn & Hm & Hf) Ht Hl]. destruct inner as [|g inner]; [done|].
  apply Forall_cons in Hf as [Hg Hf]. pose proof (stack_step s OExit Hi I) as Hi'.
  pose proof (iv_range _ Hi) as (Hr1 & Hr2 & _). pose proof (iv_marks _ Hi) as Hmarks. rewrite Hfr in Hmarks.
  apply Forall_cons in Hmarks as [Hgm _]. destruct s as [ds m fs0 sl l]. cbn [st_ds st_frames st_live] in *. subst fs0.
  split; [exact Hi'|..]; cbn [op_do app st_ds st_frames st_live].
  - exists inner, f. split_and!; try done. simpl in Hn. lia.
  - unfold o9_frame_exit. destruct (f_sealed g); [done|]. unfold o9_datastack_reset.
    rewrite !decide_False by lia. done.
  - destruct (f_sealed g); [done|]. by rewrite filter_filter_le.
Qed.

Lemma within_seal mark fs live n s data len : within mark fs live n s -> len < 2 ^ 61 ->
  within mark fs live n (op_do fuel s (OSeal data len)).
Proof.
  intros [Hi (inner & f & Hfr & Hn & Hm & Hf) Ht Hl] Hlen. pose proof (stack_step s (OSeal data len) Hi Hlen) as Hi'.
  pose proof (iv_range _ Hi) as Hr. pose proof (iv_marks _ Hi) as Hmarks.
  destruct s as [ds m fs0 sl l]. cbn [st_ds st_frames st_live] in *. subst fs0.
  (* the sealed frame is the innermost one *)
  assert (Hg : exists g rest, inner ++ f :: fs = g :: rest /\ mark <= f_mark g /\
    forall g', f_mark g' = f_mark g -> exists inner' f', g' :: rest = inner' ++ f' :: fs /\ length inner' = n /\
      f_mark f' = mark /\ Forall (fun h => mark <= f_mark h) inner').
  { destruct inner as [|g inner]; simpl in *.
    - exists f, fs. split_and!; [done|lia|]. intros g' Hg'. exists [], g'. by rewrite Hg'.
    - apply Forall_cons in Hf as [Hg Hf]. exists g, (inner ++ f :: fs). split_and!; [done|done|].
      intros g' Hg'. exists (g' :: inner), f. split_and!; try done. constructor; [by rewrite Hg'|done]. }
  destruct Hg as (g & rest & Eg & Hgm & Hrest). rewrite Eg in *. apply Forall_cons in Hmarks as [Hg1 _].
  pose proof (seal_cases data len g ds m Hr Hg1 Hlen) as H. pose proof (data_len_range m data len Hlen) as Hlen'. cbn [op_do] in *.
  destruct (o9_frame_seal_string _ _ _ _ _ _) as [[[[p|] f'] ds'] m'].
  - destruct H as (-> & -> & _ & -> & _). split; [exact Hi'|..]; cbn [st_ds st_frames st_live ds_top set_top].
    + by apply Hrest.
    + unfold sizeof_O9String. lia.
    + rewrite filter_app, filter_filter_le by done.
      rewrite (filter_above (f_mark g) (f_mark g + (sizeof_O9String + data_len fuel m data len + 1)) m' (string_blocks m' (f_mark g) (data_len fuel m data len))), app_nil_r; [done| |done].
      apply blocks_string; lia.
  - destruct H as (-> & -> & -> & _). split; [exact Hi'|..]; cbn [st_ds st_frames st_live]; [by apply Hrest|done..].
Qed.

Lemma within_run mark fs live ops : forall n s, within mark fs live n s -> Forall op_ok ops -> nested n ops ->
  within mark fs live 0 (run fuel ops s).
Proof.
  induction ops as [|op ops IH]; intros n s Hw Hops Hn; [by simpl in Hn; subst|].
  apply Forall_cons in Hops as [Hop Hops].
  destruct (on_frames op) eqn:Hon.
  - destruct op; try done; cbn [nested] in Hn.
    + eapply IH; [by apply within_enter|done|done].
    + eapply IH; [by apply within_seal|done|done].
    + destruct n as [|n]; [done|]. eapply IH; [by apply within_exit|done|done].
  - assert (Hn' : nested n ops) by (by destruct op). pose proof (wi_inv _ _ _ _ _ Hw) as Hi.
    eapply IH; [|done|done]. eapply within_grows; [done|by apply stack_step|by apply op_grows].
Qed.

(** ** Theorems *)

(** C25: whatever sequence of allocations, strings, scratch copies, growing
    slices, frames, seals and resets to any address runs on a new stack, with
    sizes and alignments below 2^61 and C strings of less than 2^61 bytes, the
    blocks that are in use lie inside the stack below its top, one after the
    other without overlap, and still hold the bytes that they were given.  A
    block is in use until the end of its frame, a seal or a reset takes the
    top below its end.  ([alloc_wraps] shows what a larger size does.) *)
Theorem stack_blocks_disjoint capacity base ds m ops :
  0 <= capacity < 2 ^ 60 -> 0 < base < 2 ^ 61 -> base mod 8 = 0 ->
  o9_datastack_create capacity (Some base) = Some ds -> Forall op_ok ops ->
  let s := run fuel ops (start ds m) in
  ds_top (st_ds s) <= ds_limit (st_ds s) /\
  (forall b, b ∈ st_live s ->
     ds_base (st_ds s) <= b.1 /\ block_end b <= ds_top (st_ds s) /\ load (st_mem s) b.1 (length b.2) = b.2) /\
  (forall i j b c, (i < j)%nat -> st_live s !! i = Some b -> st_live s !! j = Some c -> block_end b <= c.1).
Proof.
  intros Hc Hb Hm Hcr Hops s. destruct (create_range capacity base Hc Hb Hm) as (ds' & Hcr' & Hr & Hbase & Htop & _).
  rewrite Hcr in Hcr'. injection Hcr' as <-.
  assert (Hi : inv s) by (apply stack_run; [apply inv_start; congruence|done]).
  destruct Hi as [(_ & H1 & _) [Hl Hs] _ _]. split; [lia|]. split.
  - intros b Hin. rewrite Forall_forall in Hl. destruct (Hl b Hin) as (? & ? & _ & ?). auto.
  - intros i j b c Hij Hi Hj. clear -Hs Hij Hi Hj. revert i j Hij Hi Hj.
    induction Hs as [|x l _ IH Hx]; intros [|i] [|j] Hij Hi Hj; try done; try lia; simpl in *.
    + simplify_eq. rewrite Forall_lookup in Hx. by eapply Hx.
    + eapply (IH i j); [lia|done..].
Qed.

(** A frame gives back what was taken inside of it: after properly nested
    operations between enter and exit, an unsealed frame leaves the stack with
    the top, the open frames and the blocks that it found; a sealed frame keeps
    the blocks that it found and ends above its mark. *)
Theorem frame_gives_back s ops : inv s -> Forall op_ok ops -> nested 0 ops ->
  exists f, head (st_frames (run fuel (OEnter :: ops) s)) = Some f /\ f_mark f = ds_top (st_ds s) /\
  let s' := run fuel (OEnter :: ops ++ [OExit]) s in
  st_frames s' = st_frames s /\
  (f_sealed f = false -> ds_top (st_ds s') = ds_top (st_ds s) /\ st_live s' = st_live s) /\
  (f_sealed f = true -> ds_top (st_ds s) <= ds_top (st_ds s') /\
     filter (fun b => block_end b <= ds_top (st_ds s)) (st_live s') = st_live s).
Proof.
  intros Hi Hops Hn.
  assert (Hl0 : filter (fun b => block_end b <= ds_top (st_ds s)) (st_live s) = st_live s).
  { apply list_filter_all. destruct (iv_live _ Hi) as [Hl _]. eapply Forall_impl; [exact Hl|]. by intros b (_ & ? & _). }
  assert (Hw : within (ds_top (st_ds s)) (st_frames s) (st_live s) 0 (op_do fuel s OEnter)).
  { split; [by apply stack_step| | |]; destruct s as [ds m fs sl l]; simpl in *; [|lia|exact Hl0].
    by exists [], (o9_frame_enter ds). }
  pose proof (within_run _ _ _ ops 0 _ Hw Hops Hn) as [Hi2 (inner & f & Hfr & Hlen & Hm & _) Ht Hl].
  apply nil_length_inv in Hlen as ->. exists f. change (run fuel (OEnter :: ops) s) with (run fuel ops (op_do fuel s OEnter)).
  rewrite Hfr. split; [done|]. split; [done|]. cbv zeta.
  assert (Hrun : run fuel (OEnter :: ops ++ [OExit]) s = op_do fuel (run fuel ops (op_do fuel s OEnter)) OExit).
  { unfold run. simpl. by rewrite fold_left_app. }
  rewrite Hrun. pose proof (iv_range _ Hi2) as (Hr1 & Hr2 & _). pose proof (iv_marks _ Hi2) as Hmarks.
  destruct (run fuel ops (op_do fuel s OEnter)) as [ds2 m2 fs2 sl2 l2]. cbn [st_ds st_frames st_live] in *. subst fs2.
  apply Forall_cons in Hmarks as [Hf _]. cbn [op_do app st_ds st_frames st_live].
  split; [done|]. unfold o9_frame_exit. split; intros ->; [|by split].
  unfold o9_datastack_reset. rewrite !decide_False by lia. simpl. by rewrite Hm.
Qed.

End longest.

(** What [o9_frame_seal_string] leaves in memory. *)
Lemma payload_stored payload data len m : 0 <= len ->
  load (put_payload payload (Some data) len m) payload (Z.to_nat len) = load m data (Z.to_nat len) /\
  put_payload payload (Some data) len m (payload + len) = NUL /\
  (forall x, x < payload \/ payload + len < x -> put_payload payload (Some data) len m x = m x).
Proof.
  intros Hlen. unfold put_payload. split_and!.
  - case_decide as Hpos; [|by replace (Z.to_nat len) with 0%nat by lia].
    transitivity (load (store payload (load m data (Z.to_nat len)) m) payload (Z.to_nat len)).
    + apply load_ext. intros x Hx. apply store_out. simpl. lia.
    + rewrite <- (load_length m data (Z.to_nat len)) at 2. apply load_store.
  - unfold store at 1. rewrite decide_True, Z.sub_diag by lia. done.
  - intros x Hx. rewrite store_out by (simpl; lia). case_decide; [|done]. apply store_out. rewrite load_length. lia.
Qed.

Lemma header_fields m out payload len : 0 <= payload < 2 ^ 64 -> 0 <= len < 2 ^ 64 ->
  let m' := store out (string_header payload len) m in
  le_val (load m' out 8) = payload /\ le_val (load m' (out + 8) 8) = len.
Proof.
  intros Hp Hl m'. pose proof (load_store out (string_header payload len) m) as H. rewrite header_length in H.
  fold m' in H. change 20%nat with (8 + (8 + 4))%nat in H. rewrite !load_app in H. unfold string_header in H.
  apply app_inj_1 in H as [H1 H]; [|by rewrite load_length, le_bytes_length].
  apply app_inj_1 in H as [H2 _]; [|by rewrite load_length, le_bytes_length].
  change (Z.of_nat 8) with 8 in H2. rewrite H1, H2, !le_val_bytes. change (256 ^ Z.of_nat 8) with (2 ^ 64).
  by rewrite !Z.mod_small.
Qed.

(** Sealing a string into a frame compacts it to the frame's mark whether
    or not the source overlaps the destination: the header at the mark points
    to a copy of the bytes that the source held before, closed by a NUL, the
    stack ends behind it, and nothing outside of it is written; when it does
    not fit, nothing changes. *)
Theorem sealed_string_intact data len f ds m : range_ok ds -> ds_base ds <= f_mark f <= ds_top ds -> 0 <= len < 2 ^ 61 ->
  let '(r, f', ds', m') := o9_frame_seal_string 0 (Some data) len f ds m in
  let text := f_mark f + sizeof_O9String in
  if decide (text + len + 1 <= ds_limit ds) then
    r = Some (f_mark f) /\ f' = MkFrame (f_mark f) true /\ ds_top ds' = text + len + 1 /\
    le_val (load m' (f_mark f) 8) = text /\ le_val (load m' (f_mark f + 8) 8) = len /\
    load m' text (Z.to_nat len) = load m data (Z.to_nat len) /\ m' (text + len) = NUL /\
    (forall x, x < f_mark f \/ text + len < x -> m' x = m x)
  else r = None /\ f' = f /\ ds' = ds /\ m' = m.
Proof.
  intros (Hb & Ht & _) Hf Hlen. unfold o9_frame_seal_string, data_len. destruct (decide (len < 0)); [lia|].
  unfold sizeof_O9String. cbv zeta. rewrite (wrapu_id 64 (24 + len + 1)), (wrapu_id 64 (f_mark f + _)) by lia.
  destruct (decide (ds_limit ds < _)); [rewrite decide_False by lia; done|]. rewrite decide_True by lia.
  set (text := f_mark f + 24).
  set (m1 := if bool_decide (Some data = Some text) then store (text + len) [NUL] m else put_payload text (Some data) len m).
  assert (H1 : load m1 text (Z.to_nat len) = load m data (Z.to_nat len) /\ m1 (text + len) = NUL /\
    (forall x, x < text \/ text + len < x -> m1 x = m x)).
  { unfold m1. destruct (bool_decide (Some data = Some text)) eqn:E; [|by apply payload_stored; lia].
    apply bool_decide_eq_true in E. injection E as ->. split_and!.
    - apply load_ext. intros x Hx. apply store_out. lia.
    - unfold store. rewrite decide_True, Z.sub_diag by lia. done.
    - intros x Hx. apply store_out. simpl. lia. }
  destruct H1 as (Hl & Hn & Ho). pose proof (header_length text len) as Hh.
  destruct (header_fields m1 (f_mark f) text len) as [Hf1 Hf2]; [unfold text; lia|lia|].
  split_and!; [done|done|simpl; unfold text; lia|exact Hf1|exact Hf2| | |].
  - rewrite <- Hl. apply load_ext. intros x Hx. apply store_out. unfold text in *. lia.
  - rewrite store_out by (unfold text in *; lia). exact Hn.
  - intros x Hx. rewrite store_out by (unfold text in *; lia). apply Ho. unfold text in *. lia.
Qed.

(** An allocation returns the lowest address at or above the top with the
    asked alignment, and fails exactly when the size is 0 or the block would
    end beyond the limit. *)
Theorem alloc_exact size align ds : range_ok ds -> 0 <= size < 2 ^ 62 -> 0 <= align < 2 ^ 61 ->
  let a := if decide (align = 0) then 8 else align in
  let '(r, ds') := o9_datastack_alloc size align ds in
  match r with
  | Some p => ds_top ds <= p /\ p mod a = 0 /\ (forall q, ds_top ds <= q -> q mod a = 0 -> p <= q) /\
      p + size = ds_top ds' /\ ds_top ds' <= ds_limit ds
  | None => ds' = ds /\ (size = 0 \/ forall q, ds_top ds <= q -> q mod a = 0 -> ds_limit ds < q + size)
  end.
Proof.
  intros Hr Hs Ha a. pose proof Hr as (Hb & Ht & _).
  assert (Hal : 0 < a < 2 ^ 62) by (unfold a; case_decide; lia).
  pose proof (align_up_spec a (ds_top ds) Hal ltac:(lia)) as [H1 H2].
  assert (Hmin : forall q, ds_top ds <= q -> q mod a = 0 -> align_up a (ds_top ds) <= q).
  { intros q Hq Hqa. pose proof (Z.div_mod (align_up a (ds_top ds)) a ltac:(lia)). pose proof (Z.div_mod q a ltac:(lia)).
    assert (align_up a (ds_top ds) / a < q / a + 1); [|nia]. apply Z.div_lt_upper_bound; nia. }
  pose proof (alloc_cases size align ds Hr Hs Ha) as H. cbv zeta in H. fold a in H.
  destruct (o9_datastack_alloc size align ds) as [[p|] ds'].
  - destruct H as (Hpos & -> & Hmod & (_ & _ & Htop & _ & Hfit)). rewrite Htop. split_and!; [lia|done|done|lia|lia].
  - destruct H as [-> [->|H]]; [auto|]. split; [done|]. right. intros q Hq Hqa. specialize (Hmin q Hq Hqa). lia.
Qed.

(** Pushing cells one after the other. *)
Fixpoint push_all (name : positive) (elems : list bytes) (x : stack_slice) (ds : O9DataStack) (m : memory)
    : option (stack_slice * O9DataStack * memory) :=
  match elems with
  | [] => Some (x, ds, m)
  | e :: elems' =>
      match o9_datastack_slice_push name e x ds m with
      | (Some _, x', ds', m') => push_all name elems' x' ds' m'
      | (None, _, _, _) => None
      end
  end.

(** The cells of a growing slice, between its start and the top. *)
Record growing (name : positive) (x : stack_slice) (ds : O9DataStack) : Prop := {
  gr_range : range_ok ds;
  gr_name : ds_is_growing ds = true /\ ds_grow_head ds = Some name;
  gr_size : 0 < ss_elemsize x < 2 ^ 61;
  gr_len : 0 <= ss_len x;
  gr_top : ds_top ds = ss_data x + ss_len x * ss_elemsize x;
  gr_cap : ss_cap x = (ds_limit ds - ss_data x) / ss_elemsize x }.

Lemma push_exact name e x ds m : growing name x ds -> Z.of_nat (length e) = ss_elemsize x ->
  let '(r, x', ds', m') := o9_datastack_slice_push name e x ds m in
  if decide (ss_len x < ss_cap x) then
    r = Some (ds_top ds) /\ x' = MkSs (ss_data x) (ss_len x + 1) (ss_cap x) (ss_elemsize x) /\
    m' = store (ds_top ds) e m /\ growing name x' ds'
  else r = None.
Proof.
  intros [(Hb & Ht & Hm) [Hg Hn] Hes Hl Htop Hcap] He. unfold o9_datastack_slice_push.
  rewrite Hg, Hn, bool_decide_eq_true_2 by done. simpl. rewrite wrapu_id by lia.
  pose proof (Z.div_mod (ds_limit ds - ss_data x) (ss_elemsize x) ltac:(lia)) as Hdm.
  pose proof (Z.mod_pos_bound (ds_limit ds - ss_data x) (ss_elemsize x) ltac:(lia)) as Hmb. rewrite <- Hcap in Hdm.
  destruct (decide (ds_limit ds < ds_top ds + ss_elemsize x)) as [Hfull|Hfull].
  - rewrite decide_False; [done|]. intros Hlt. nia.
  - rewrite decide_True by nia. split_and!; [done..|]. split; simpl; try done; try lia.
    unfold range_ok. simpl. split_and!; lia || done.
Qed.

Lemma push_all_spec name elems x ds m : growing name x ds -> Forall (fun e => Z.of_nat (length e) = ss_elemsize x) elems ->
  match push_all name elems x ds m with
  | Some (x', ds', m') => ss_len x + Z.of_nat (length elems) <= Z.max (ss_len x) (ss_cap x) /\ growing name x' ds' /\
      x' = MkSs (ss_data x) (ss_len x + Z.of_nat (length elems)) (ss_cap x) (ss_elemsize x) /\
      load m' (ds_top ds) (length (concat elems)) = concat elems /\ (forall y, y < ds_top ds -> m' y = m y)
  | None => ss_cap x < ss_len x + Z.of_nat (length elems)
  end.
Proof.
  intros Hg He. revert x ds m Hg He. induction elems as [|e elems IH]; intros x ds m Hg He; cbn [push_all].
  - destruct x. simpl. rewrite !Z.add_0_r. split_and!; (done || lia).
  - apply Forall_cons in He as [He1 He]. pose proof (push_exact name e x ds m Hg He1) as H.
    destruct (o9_datastack_slice_push _ _ _ _ _) as [[[r x1] ds1] m1]. destruct (decide (ss_len x < ss_cap x)) as [Hlt|Hge].
    + destruct H as (-> & -> & -> & Hg1). specialize (IH _ ds1 (store (ds_top ds) e m) Hg1 He).
      pose proof (gr_top _ _ _ Hg1) as Ht1. pose proof (gr_top _ _ _ Hg) as Ht. cbn [ss_data ss_len ss_cap ss_elemsize] in *.
      assert (Htop : ds_top ds1 = ds_top ds + Z.of_nat (length e)) by lia. cbn [length].
      destruct (push_all _ _ _ _ _) as [[[x' ds'] m']|]; [|lia]. destruct IH as (H1 & H2 & -> & Hl & Hlow).
      split_and!; [lia|done|f_equal; lia| |].
      * simpl. rewrite length_app, load_app. f_equal.
        -- rewrite <- (load_store (ds_top ds) e m) at 2. apply load_ext. intros y Hy. apply Hlow. lia.
        -- rewrite <- Htop. exact Hl.
      * intros y Hy. rewrite Hlow by lia. apply store_out. lia.
    + subst r. cbn [length]. lia.
Qed.

(** A slice that grows on the stack takes exactly as many cells as its
    capacity says, puts them one after the other from its start, which is word
    aligned, and [o9_datastack_slice_end] marks it with a negative capacity so
    that [o9_slice_free] leaves a non-empty one to the stack. *)
Theorem stack_slice_contiguous name es x0 ds m elems : range_ok ds -> 0 < es < 2 ^ 61 ->
  Forall (fun e => Z.of_nat (length e) = es) elems ->
  let '(x, ds1) := o9_datastack_slice_begin name es x0 ds in
  ss_data x mod 8 = 0 /\
  match push_all name elems x ds1 m with
  | Some (x', ds', m') =>
      Z.of_nat (length elems) <= ss_cap x /\ ss_len x' = Z.of_nat (length elems) /\ ss_data x' = ss_data x /\
      load m' (ss_data x) (length (concat elems)) = concat elems /\
      ds_top ds' = ss_data x + ss_len x' * es /\ ds_top ds' <= ds_limit ds' /\
      (elems <> [] -> o9_slice_free (o9_datastack_slice_end name x' ds').1 = None)
  | None => ss_cap x < Z.of_nat (length elems)
  end.
Proof.
  intros Hr Hes He. pose proof (slice_begin_cases name es x0 ds Hr) as H.
  destruct (o9_datastack_slice_begin name es x0 ds) as [x ds1].
  destruct H as [[? _]|(_ & (Hb & Hlim & Htop & Hle & Hfit) & Hg & Hn & ->)]; [lia|]. cbn [ss_data ss_cap].
  destruct Hr as (Hr1 & Hr2 & Hr3). destruct (align_up_spec 8 (ds_top ds)) as [_ Hal]; [lia..|]. split; [done|].
  set (x := MkSs _ _ _ _).
  assert (Hgr : growing name x ds1).
  { split; simpl; [|by split|done|lia|lia|by rewrite Hlim]. unfold range_ok. rewrite Hb, Hlim. split_and!; lia || done. }
  pose proof (push_all_spec name elems x ds1 m Hgr He) as H. cbn [x ss_len ss_cap ss_data ss_elemsize] in H. fold x in H.
  assert (Hcap : 0 <= (ds_limit ds - align_up 8 (ds_top ds)) / es) by (apply Z.div_pos; lia).
  destruct (push_all _ _ _ _ _) as [[[x' ds'] m']|]; [|lia]. destruct H as (H1 & H2 & Hx' & H3 & _).
  pose proof (gr_range _ _ _ H2) as (_ & ? & _). pose proof (gr_top _ _ _ H2) as Ht2. pose proof (gr_name _ _ _ H2) as [Hg2 Hn2].
  rewrite Hx' in Ht2 |- *. cbn [ss_data ss_len ss_elemsize] in *. rewrite Htop, Z.add_0_r in H3.
  split_and!; [lia|lia|done|exact H3|lia|lia|].
  intros Hne. unfold o9_datastack_slice_end. rewrite Hg2, Hn2, bool_decide_eq_true_2 by done.
  unfold o9_slice_free. cbn. rewrite decide_True; [done|]. destruct elems; [done|]. simpl. lia.
Qed.

(** An empty slice of the stack is freed as if it were malloc'd: its negated
    capacity is 0. *)
Lemma empty_stack_slice_freed name es ds : 0 < es ->
  let '(x, ds1) := o9_datastack_slice_begin name es slice0 ds in
  o9_slice_free (o9_datastack_slice_end name x ds1).1 = Some (ss_data x).
Proof.
  intros Hes. unfold o9_datastack_slice_begin. rewrite decide_False by lia. unfold o9_datastack_slice_end.
  cbn. rewrite !bool_decide_eq_true_2 by (done || by eexists). reflexivity.
Qed.

(** A size near 2^64 wraps past the test of the limit and moves the top down. *)
Lemma alloc_wraps : o9_datastack_alloc (2 ^ 64 - 8) 8 (MkDs 4096 8192 12288 false None) =
  (Some 8192, MkDs 4096 8184 12288 false None).
Proof. reflexivity. Qed.

(** ** Witnesses *)

Definition mem0 : memory := fun _ => xff.
Definition stack0 : O9DataStack := MkDs 4096 4096 (4096 + 2048) false None.

Lemma stack0_ok : range_ok stack0.
Proof. by vm_compute. Qed.

(** A scratch string, a frame with a sealed copy of it, and a slice. *)
Definition some_ops : list ds_op :=
  [OScratch (str "name"); OEnter; OAlloc 100 0; OSeal (Some 4096) (-1); OExit; OReset 4101; OBegin 1 4; OPush 1 (str "abcd"); OEnd 1].

Lemma some_ops_ok : Forall op_ok some_ops.
Proof. repeat (apply Forall_cons; split; [by vm_compute|]). constructor. Qed.

Lemma stack_blocks_disjoint_witness :
  (st_live (run 64 some_ops (start stack0 mem0))) !! 0%nat = Some (4096, str "name" ++ [NUL]) /\
  load (st_mem (run 64 some_ops (start stack0 mem0))) 4096 5 = str "name" ++ [NUL].
Proof.
  assert (E : (st_live (run 64 some_ops (start stack0 mem0))) !! 0%nat = Some (4096, str "name" ++ [NUL])) by (vm_compute; reflexivity).
  split; [exact E|].
  apply (proj1 (proj2 (stack_blocks_disjoint 64 ltac:(lia) 2048 4096 stack0 mem0 some_ops ltac:(lia) ltac:(lia) eq_refl eq_refl some_ops_ok))
           (4096, str "name" ++ [NUL])).
  by eapply list_elem_of_lookup_2.
Defined.

Lemma frame_gives_back_witness :
  let s := run 64 [OScratch (str "name")] (start stack0 mem0) in
  let s' := run 64 [OEnter; OAlloc 100 0; OScratch (str "tmp"); OExit] s in
  ds_top (st_ds s') = ds_top (st_ds s) /\ st_live s' = st_live s.
Proof.
  assert (Hi : inv (run 64 [OScratch (str "name")] (start stack0 mem0))).
  { apply stack_run; [lia|apply inv_start; [apply stack0_ok|done]|apply Forall_singleton; by vm_compute]. }
  destruct (frame_gives_back 64 ltac:(lia) _ [OAlloc 100 0; OScratch (str "tmp")] Hi) as (f & Hf & _ & _ & H & _); [repeat (apply Forall_cons; split; [by vm_compute|]); constructor|done|].
  apply H. vm_compute in Hf. injection Hf as <-. reflexivity.
Defined.

Lemma sealed_string_intact_witness :
  let '(r, _, _, m') := o9_frame_seal_string 0 (Some 4100) 40 (MkFrame 4096 false) (MkDs 4096 4200 6144 false None) mem0 in
  r = Some 4096 /\ load m' 4120 40 = load mem0 4100 40.
Proof.
  pose proof (sealed_string_intact 4100 40 (MkFrame 4096 false) (MkDs 4096 4200 6144 false None) mem0) as H.
  destruct (o9_frame_seal_string _ _ _ _ _ _) as [[[r f'] ds'] m'].
  destruct H as (H1 & _ & _ & _ & _ & H2 & _); [by vm_compute|by vm_compute|by vm_compute|]. by split.
Defined.

Lemma alloc_exact_witness : (o9_datastack_alloc 16 64 (MkDs 4096 4100 6144 false None)).1 = Some 4160 /\ 4160 mod 64 = 0.
Proof.
  pose proof (alloc_exact 16 64 (MkDs 4096 4100 6144 false None)) as H. cbv zeta in H.
  destruct (o9_datastack_alloc 16 64 (MkDs 4096 4100 6144 false None)) as [r ds'] eqn:E. vm_compute in E.
  injection E as <- _. split; [reflexivity|]. apply H; by vm_compute.
Defined.

Lemma stack_slice_contiguous_witness :
  let '(x, ds1) := o9_datastack_slice_begin 1 4 slice0 (MkDs 4096 4100 6144 false None) in
  ss_data x = 4104 /\ is_Some (push_all 1 [str "abcd"; str "efgh"] x ds1 mem0) /\ ss_data x mod 8 = 0.
Proof.
  pose proof (stack_slice_contiguous 1 4 slice0 (MkDs 4096 4100 6144 false None) mem0 [str "abcd"; str "efgh"]) as H.
  destruct (o9_datastack_slice_begin _ _ _ _) as [x ds1] eqn:E. vm_compute in E. injection E as <- <-.
  split; [reflexivity|]. split; [by eexists|]. apply H; [by vm_compute|lia|by repeat constructor].
Defined.
