(* ===== verification/Mono.v ===== *)
(** * Words and bytes of the cryptographic library ([monocypher.c]: the
    utilities)

    A [u32] or [u64] is a [Z] that is wrapped where the code's arithmetic
    wraps; a buffer is a [bytes]. *)
From S2P Require Import Prelude Fmt.
From Stdlib Require Import Zbitwise.

Open Scope Z_scope.

(** ** Loads and stores *)

Definition at_ (s : bytes) (i : nat) : Z := uchar (default NUL (s !! i)).

Definition load32_le (s : bytes) : Z :=
  Z.lor (Z.lor (Z.lor (at_ s 0) (Z.shiftl (at_ s 1) 8)) (Z.shiftl (at_ s 2) 16)) (Z.shiftl (at_ s 3) 24).

Definition load64_le (s : bytes) : Z := Z.lor (load32_le s) (Z.shiftl (load32_le (drop 4 s)) 32).

Definition store32_le (x : Z) : bytes :=
  [to_byte (Z.land x 255); to_byte (Z.land (Z.shiftr x 8) 255);
   to_byte (Z.land (Z.shiftr x 16) 255); to_byte (Z.land (Z.shiftr x 24) 255)].

Definition store64_le (x : Z) : bytes := store32_le (u32 x) ++ store32_le (Z.shiftr x 32).

Definition load32_le_buf (src : bytes) (size : nat) : list Z := (fun i => load32_le (drop (4 * i) src)) <$> seq 0 size.
Definition load64_le_buf (src : bytes) (size : nat) : list Z := (fun i => load64_le (drop (8 * i) src)) <$> seq 0 size.
Definition store32_le_buf (src : list Z) : bytes := concat (store32_le <$> src).
Definition store64_le_buf (src : list Z) : bytes := concat (store64_le <$> src).

(** The [i]th of an array of words. *)
Definition word (t : list Z) (i : nat) : Z := default 0 (t !! i).

(** ** Rotations, alignment *)

Definition rotl32 (x n : Z) : Z := Z.lxor (u32 (Z.shiftl x n)) (Z.shiftr x (32 - n)).
Definition rotr64 (x n : Z) : Z := Z.lxor (Z.shiftr x n) (u64 (Z.shiftl x (64 - n))).

Definition gap (x pow_2 : Z) : Z := Z.land (u64 (u64 (Z.lnot x) + 1)) (pow_2 - 1).

(** ** Comparison in constant time *)

Definition neq0 (diff : Z) : Z :=
  let half := Z.lor (Z.shiftr diff 32) (u32 diff) in
  Z.land 1 (Z.shiftr (u64 (half - 1)) 32) - 1.

Definition x16 (a b : bytes) : Z :=
  Z.lor (Z.lxor (load64_le a) (load64_le b)) (Z.lxor (load64_le (drop 8 a)) (load64_le (drop 8 b))).
Definition x32 (a b : bytes) : Z := Z.lor (x16 a b) (x16 (drop 16 a) (drop 16 b)).
Definition x64 (a b : bytes) : Z := Z.lor (x32 a b) (x32 (drop 32 a) (drop 32 b)).

Definition crypto_verify16 (a b : bytes) : Z := neq0 (x16 a b).
Definition crypto_verify32 (a b : bytes) : Z := neq0 (x32 a b).
Definition crypto_verify64 (a b : bytes) : Z := neq0 (x64 a b).

(** ** Lemmas *)

Lemma testbit_above n a i : 0 <= a < 2 ^ n -> 0 <= n <= i -> Z.testbit a i = false.
Proof.
  intros Ha Hi. rewrite Z.testbit_eqb, Z.div_small; [done| |lia]. split; [lia|].
  apply Z.lt_le_trans with (2 ^ n); [lia|]. apply Z.pow_le_mono_r; lia.
Qed.

(** A number of [n] bits is one without higher bits. *)
Lemma bits_range n x : 0 <= n -> (forall i, n <= i -> Z.testbit x i = false) -> 0 <= x < 2 ^ n.
Proof.
  intros Hn Hx. assert (H : x = x mod 2 ^ n); [|rewrite H; apply Z.mod_pos_bound; lia].
  rewrite <- Z.land_ones by lia. apply Z.bits_inj'. intros i Hi.
  rewrite Z.land_spec, Z.testbit_ones_nonneg by lia. destruct (Z.ltb_spec i n); [by rewrite andb_true_r|].
  rewrite Hx by lia. done.
Qed.

Lemma lor_range n a b : 0 <= n -> 0 <= a < 2 ^ n -> 0 <= b < 2 ^ n -> 0 <= Z.lor a b < 2 ^ n.
Proof.
  intros Hn Ha Hb. apply bits_range; [done|]. intros i Hi.
  by rewrite Z.lor_spec, (testbit_above n a), (testbit_above n b) by lia.
Qed.

Lemma lxor_range n a b : 0 <= n -> 0 <= a < 2 ^ n -> 0 <= b < 2 ^ n -> 0 <= Z.lxor a b < 2 ^ n.
Proof.
  intros Hn Ha Hb. apply bits_range; [done|]. intros i Hi.
  by rewrite Z.lxor_spec, (testbit_above n a), (testbit_above n b) by lia.
Qed.

(** Or-ing above a number adds. *)
Lemma land_above a b n : 0 <= n -> 0 <= a < 2 ^ n -> Z.land a (Z.shiftl b n) = 0.
Proof.
  intros Hn Ha. apply Z.bits_inj'. intros i Hi. rewrite Z.land_spec, Z.bits_0. destruct (decide (i < n)).
  - rewrite Z.shiftl_spec_low by lia. apply andb_false_r.
  - by rewrite (testbit_above n a) by lia.
Qed.

Lemma lor_add a b n : 0 <= n -> 0 <= a < 2 ^ n -> Z.lor a (Z.shiftl b n) = a + b * 2 ^ n.
Proof.
  intros Hn Ha. pose proof (Z.add_lor_land a (Z.shiftl b n)) as H. rewrite land_above in H by done.
  rewrite <- Z.shiftl_mul_pow2 by lia. lia.
Qed.

Lemma at_range s i : 0 <= at_ s i < 256.
Proof. apply uchar_range. Qed.

Lemma take_drop_at (s : bytes) i : (i < length s)%nat -> drop i s = default NUL (s !! i) :: drop (S i) s.
Proof. intros H. destruct (lookup_lt_is_Some_2 s i H) as [x Hx]. rewrite Hx. by apply drop_S. Qed.

Lemma le_val_app s t : le_val (s ++ t) = le_val s + 256 ^ Z.of_nat (length s) * le_val t.
Proof.
  induction s as [|a s IH]; [cbn [app le_val length]; change (Z.of_nat 0) with 0; lia|].
  cbn [app le_val length]. rewrite IH, Nat2Z.inj_succ, Z.pow_succ_r by lia. lia.
Qed.

Lemma le_val_zeros n : le_val (replicate n NUL) = 0.
Proof. induction n as [|n IH]; [done|]. cbn [replicate le_val]. rewrite IH. done. Qed.

Lemma load32_le_val s : (4 <= length s)%nat -> load32_le s = le_val (take 4 s).
Proof.
  intros H. destruct s as [|a [|b [|c [|d s]]]]; simpl in H; try lia. unfold load32_le, at_. simpl.
  pose proof (uchar_range a). pose proof (uchar_range b). pose proof (uchar_range c).
  rewrite (lor_add (uchar a) _ 8) by lia. rewrite (lor_add _ _ 16) by lia. rewrite (lor_add _ _ 24) by lia. lia.
Qed.

Lemma load32_le_range s : 0 <= load32_le s < 2 ^ 32.
Proof.
  unfold load32_le. pose proof (at_range s 0). pose proof (at_range s 1). pose proof (at_range s 2). pose proof (at_range s 3).
  rewrite (lor_add _ _ 8), (lor_add _ _ 16), (lor_add _ _ 24) by lia. lia.
Qed.

Lemma load64_le_val s : (8 <= length s)%nat -> load64_le s = le_val (take 8 s).
Proof.
  intros H. unfold load64_le. pose proof (load32_le_range s). rewrite lor_add by lia.
  rewrite !load32_le_val by (rewrite ?length_drop; lia).
  destruct s as [|a [|b [|c [|d [|e [|f [|g [|h s]]]]]]]]; simpl in H; try lia. simpl. lia.
Qed.

Lemma load64_le_range s : 0 <= load64_le s < 2 ^ 64.
Proof.
  unfold load64_le. pose proof (load32_le_range s). pose proof (load32_le_range (drop 4 s)).
  rewrite lor_add by lia. lia.
Qed.

Lemma to_byte_mod x : to_byte (x mod 256) = to_byte x.
Proof. unfold to_byte. by rewrite Z.mod_mod. Qed.

Lemma to_byte_land x : to_byte (Z.land x 255) = to_byte x.
Proof. change 255 with (Z.ones 8). rewrite Z.land_ones by lia. apply to_byte_mod. Qed.

Lemma store32_le_bytes x : store32_le x = le_bytes 4 x.
Proof.
  unfold store32_le. rewrite !to_byte_land, !Z.shiftr_div_pow2 by lia. cbn [le_bytes].
  rewrite !Z.div_div by lia. done.
Qed.

Lemma le_bytes_app n k x : le_bytes (n + k) x = le_bytes n x ++ le_bytes k (x / 256 ^ Z.of_nat n).
Proof.
  revert x. induction n as [|n IH]; intros x; [by rewrite Z.div_1_r|].
  cbn [Nat.add le_bytes app]. rewrite IH. do 3 f_equal. rewrite Nat2Z.inj_succ, Z.pow_succ_r by lia.
  rewrite Z.div_div; lia.
Qed.

Lemma store64_le_bytes x : store64_le x = le_bytes 8 x.
Proof.
  unfold store64_le. rewrite !store32_le_bytes. change 8%nat with (4 + 4)%nat. rewrite le_bytes_app. f_equal.
  - change (u32 x) with (x mod 256 ^ Z.of_nat 4). apply le_bytes_mod.
  - by rewrite Z.shiftr_div_pow2 by lia.
Qed.

(** ** Exclusive or of bytes *)

Definition bxor (a b : byte) : byte := to_byte (Z.lxor (uchar a) (uchar b)).
Definition xor_bytes (s t : bytes) : bytes := zip_with bxor s t.

Lemma to_byte_lxor x y : to_byte (Z.lxor x y) = bxor (to_byte x) (to_byte y).
Proof.
  unfold bxor. rewrite !uchar_to_byte, <- (to_byte_mod (Z.lxor x y)), <- (to_byte_mod (Z.lxor (x mod 256) _)).
  f_equal. change 256 with (2 ^ 8).
  rewrite <- !Z.land_ones by lia. apply Z.bits_inj'. intros i Hi.
  rewrite !Z.land_spec, !Z.lxor_spec, !Z.land_spec. by destruct (Z.testbit x i), (Z.testbit y i), (Z.testbit (Z.ones 8) i).
Qed.

Lemma le_bytes_lxor n x y : le_bytes n (Z.lxor x y) = xor_bytes (le_bytes n x) (le_bytes n y).
Proof.
  revert x y. induction n as [|n IH]; intros x y; [done|]. cbn [le_bytes xor_bytes zip_with].
  rewrite to_byte_lxor. f_equal. change 256 with (2 ^ 8). rewrite <- !Z.shiftr_div_pow2, Z.shiftr_lxor by lia. apply IH.
Qed.

Lemma bxor_cancel a b : bxor (bxor a b) b = a.
Proof.
  unfold bxor. rewrite uchar_to_byte. pose proof (uchar_range a). pose proof (uchar_range b).
  rewrite Z.mod_small by (apply (lxor_range 8); lia). rewrite Z.lxor_assoc, Z.lxor_nilpotent, Z.lxor_0_r.
  apply to_byte_uchar.
Qed.

Lemma xor_bytes_length s t : length (xor_bytes s t) = (length s `min` length t)%nat.
Proof. apply length_zip_with. Qed.

Lemma xor_bytes_cancel s t : (length s <= length t)%nat -> xor_bytes (xor_bytes s t) t = s.
Proof.
  revert t. induction s as [|a s IH]; intros [|b t] H; simpl in H; try lia; [done..|].
  unfold xor_bytes in *. cbn [zip_with]. rewrite bxor_cancel, IH by lia. done.
Qed.

(** The bytes up to the next multiple. *)
Lemma gap_spec k n : 0 <= k <= 64 -> gap n (2 ^ k) = - n mod 2 ^ k.
Proof.
  intros Hk. unfold gap. rewrite Z.sub_1_r, <- Z.ones_equiv, Z.land_ones by lia. unfold wrapu.
  rewrite Z.add_mod_idemp_l by lia. rewrite (Z.mod_mod_divide _ (2 ^ 64) (2 ^ k)).
  - f_equal. unfold Z.lnot. lia.
  - exists (2 ^ (64 - k)). rewrite <- Z.pow_add_r by lia. f_equal. lia.
Qed.

Lemma gap_nat k p i : p = 2 ^ k -> 0 <= k <= 64 -> (i mod Z.to_nat p <> 0)%nat ->
  (Z.to_nat (gap (Z.of_nat i) p) = Z.to_nat p - i mod Z.to_nat p)%nat.
Proof.
  intros -> Hk Hi. assert (Hp : 0 < 2 ^ k) by (apply Z.pow_pos_nonneg; lia).
  rewrite gap_spec by done. pose proof (Nat.div_mod i (Z.to_nat (2 ^ k)) ltac:(lia)) as D.
  pose proof (Nat.mod_upper_bound i (Z.to_nat (2 ^ k)) ltac:(lia)) as B.
  set (m := (i mod Z.to_nat (2 ^ k))%nat) in *. set (q := (i / Z.to_nat (2 ^ k))%nat) in *.
  replace (- Z.of_nat i) with (2 ^ k - Z.of_nat m + (- Z.of_nat q - 1) * 2 ^ k) by (rewrite D; nia).
  rewrite Z.mod_add, Z.mod_small by lia. lia.
Qed.

(** ** Comparison *)

Lemma neq0_spec d : 0 <= d < 2 ^ 64 -> neq0 d = if decide (d = 0) then 0 else -1.
Proof.
  intros Hd. unfold neq0. set (half := Z.lor (Z.shiftr d 32) (u32 d)).
  assert (Hr : 0 <= half < 2 ^ 32 /\ (half = 0 <-> d = 0)).
  { assert (Hh : 0 <= d / 2 ^ 32 < 2 ^ 32) by (split; [apply Z.div_pos; lia|apply Z.div_lt_upper_bound; lia]).
    pose proof (Z.mod_pos_bound d (2 ^ 32) ltac:(lia)) as Hl. pose proof (Z.div_mod d (2 ^ 32) ltac:(lia)) as Hdm.
    unfold half. rewrite Z.shiftr_div_pow2 by lia. change (u32 d) with (d mod 2 ^ 32). split.
    - by apply lor_range.
    - rewrite Z.lor_eq_0_iff. lia. }
  destruct Hr as [Hr Hz]. destruct (decide (d = 0)) as [H0|H0].
  - replace half with 0 by (symmetry; by apply Hz). reflexivity.
  - assert (half <> 0) by tauto. rewrite wrapu_id by lia.
    rewrite Z.shiftr_div_pow2, Z.div_small by lia. reflexivity.
Qed.

Lemma lxor_eq_0 x y : Z.lxor x y = 0 <-> x = y.
Proof. apply Z.lxor_eq_0_iff. Qed.

Lemma le_val_inj s t : length s = length t -> le_val s = le_val t -> s = t.
Proof. intros Hl Hv. rewrite <- (le_bytes_val s), <- (le_bytes_val t), Hl. by f_equal. Qed.

Lemma x16_range a b : 0 <= x16 a b < 2 ^ 64.
Proof.
  unfold x16. apply lor_range; [lia|..]; (apply lxor_range; [lia|apply load64_le_range..]).
Qed.

Lemma x16_zero a b : (16 <= length a)%nat -> (16 <= length b)%nat -> x16 a b = 0 <-> take 16 a = take 16 b.
Proof.
  intros Ha Hb. unfold x16. rewrite Z.lor_eq_0_iff, !lxor_eq_0, !load64_le_val by (rewrite ?length_drop; lia).
  change 16%nat with (8 + 8)%nat. rewrite <- (take_take_drop a 8 8), <- (take_take_drop b 8 8). split.
  - intros [H1 H2]. apply le_val_inj in H1, H2; rewrite ?length_take, ?length_drop; try lia. by rewrite H1, H2.
  - intros H. apply app_inj_1 in H as [-> ->]; [done|]. rewrite !length_take. lia.
Qed.

(** The comparison decides equality. *)
Lemma verify16_spec a b : length a = 16%nat -> length b = 16%nat ->
  crypto_verify16 a b = if decide (a = b) then 0 else -1.
Proof.
  intros Ha Hb. unfold crypto_verify16. rewrite neq0_spec by apply x16_range.
  assert (H : x16 a b = 0 <-> a = b); [|by repeat case_decide; tauto].
  rewrite x16_zero, !take_ge by lia. done.
Qed.

Lemma verify32_spec a b : length a = 32%nat -> length b = 32%nat ->
  crypto_verify32 a b = if decide (a = b) then 0 else -1.
Proof.
  intros Ha Hb. unfold crypto_verify32, x32. rewrite neq0_spec by (apply lor_range; [lia|apply x16_range..]).
  assert (H : Z.lor (x16 a b) (x16 (drop 16 a) (drop 16 b)) = 0 <-> a = b); [|by repeat case_decide; tauto].
  rewrite Z.lor_eq_0_iff, !x16_zero by (rewrite ?length_drop; lia). rewrite !(take_ge (drop _ _)) by (rewrite length_drop; lia).
  split; [|by intros ->]. intros [H1 H2]. by rewrite <- (take_drop 16 a), H1, H2, take_drop.
Qed.

(** ** Arrays of words *)

(** The value of an array of 32-bit limbs. *)
Fixpoint limbs (h : list Z) : Z :=
  match h with [] => 0 | x :: h => x + 2 ^ 32 * limbs h end.

Definition limb (x : Z) : Prop := 0 <= x < 2 ^ 32.

Lemma load32_le_buf_cons s n : load32_le_buf s (S n) = load32_le s :: load32_le_buf (drop 4 s) n.
Proof.
  unfold load32_le_buf. cbn [seq fmap list_fmap]. change (4 * 0)%nat with 0%nat. rewrite drop_0. f_equal.
  rewrite <- seq_shift. change (map S (seq 0 n)) with (S <$> seq 0 n). rewrite <- list_fmap_compose. apply list_fmap_ext.
  intros i j _. simpl. rewrite drop_drop. do 2 f_equal. lia.
Qed.

Lemma limbs_load s n : (4 * n <= length s)%nat -> limbs (load32_le_buf s n) = le_val (take (4 * n) s).
Proof.
  revert s. induction n as [|n IH]; intros s H; [done|].
  rewrite load32_le_buf_cons. cbn [limbs]. rewrite IH by (rewrite length_drop; lia).
  rewrite load32_le_val by lia. replace (4 * S n)%nat with (4 + 4 * n)%nat by lia.
  rewrite <- take_take_drop, le_val_app, length_take, Nat.min_l by lia. change (256 ^ Z.of_nat 4) with (2 ^ 32). lia.
Qed.

Lemma load32_le_buf_limb s n : Forall limb (load32_le_buf s n).
Proof. unfold load32_le_buf. apply Forall_fmap, Forall_true. intros i. apply load32_le_range. Qed.

Lemma le_bytes_join n w x : 0 <= w < 2 ^ 32 -> le_bytes 4 w ++ le_bytes n x = le_bytes (4 + n) (w + 2 ^ 32 * x).
Proof.
  intros Hw. rewrite le_bytes_app. change (256 ^ Z.of_nat 4) with (2 ^ 32). f_equal.
  - rewrite <- (le_bytes_mod 4 (w + _)). change (256 ^ Z.of_nat 4) with (2 ^ 32). f_equal. rewrite Z.mul_comm, Z.mod_add, Z.mod_small by lia. done.
  - f_equal. rewrite Z.mul_comm, Z.div_add, Z.div_small by lia. done.
Qed.

Lemma store_limbs s : Forall limb s -> store32_le_buf s = le_bytes (4 * length s) (limbs s).
Proof.
  unfold store32_le_buf. induction 1 as [|a s Ha _ IH]; [done|]. cbn [fmap list_fmap concat limbs length]. change (list_fmap _ _ ?f s) with (f <$> s).
  rewrite IH, store32_le_bytes, le_bytes_join by done. f_equal. lia.
Qed.
