(* ===== verification/ChaCha.v ===== *)
(** * ChaCha20 ([crypto_chacha20_*] in [monocypher.c])

    The block function on sixteen words, and the stream cipher that xors
    whole blocks word by word and the last one byte by byte.  A nil plain
    text ([None]) writes the key stream itself. *)
From S2P Require Import Prelude Fmt Mono.

Open Scope Z_scope.

(** ** The block function *)

Definition QUARTERROUND (a b c d : nat) (t : list Z) : list Z :=
  let t := <[a := u32 (word t a + word t b)]> t in
  let t := <[d := rotl32 (Z.lxor (word t d) (word t a)) 16]> t in
  let t := <[c := u32 (word t c + word t d)]> t in
  let t := <[b := rotl32 (Z.lxor (word t b) (word t c)) 12]> t in
  let t := <[a := u32 (word t a + word t b)]> t in
  let t := <[d := rotl32 (Z.lxor (word t d) (word t a)) 8]> t in
  let t := <[c := u32 (word t c + word t d)]> t in
  <[b := rotl32 (Z.lxor (word t b) (word t c)) 7]> t.

Definition double_round (t : list Z) : list Z :=
  let t := QUARTERROUND 0 4 8 12 t in
  let t := QUARTERROUND 1 5 9 13 t in
  let t := QUARTERROUND 2 6 10 14 t in
  let t := QUARTERROUND 3 7 11 15 t in
  let t := QUARTERROUND 0 5 10 15 t in
  let t := QUARTERROUND 1 6 11 12 t in
  let t := QUARTERROUND 2 7 8 13 t in
  QUARTERROUND 3 4 9 14 t.

Definition chacha20_rounds (inp : list Z) : list Z := Nat.iter 10 double_round inp.

Definition chacha20_constant : bytes := str "expand 32-byte k".

Definition crypto_chacha20_h (key inp : bytes) : bytes :=
  let block := load32_le_buf chacha20_constant 4 ++ load32_le_buf key 8 ++ load32_le_buf inp 4 in
  let block := chacha20_rounds block in
  store32_le_buf (take 4 block) ++ store32_le_buf (drop 12 block).

(** ** The stream cipher *)

Definition djb_input (key nonce : bytes) (ctr : Z) : list Z :=
  load32_le_buf chacha20_constant 4 ++ load32_le_buf key 8 ++ [u32 ctr; u32 (Z.shiftr ctr 32)]
    ++ load32_le_buf nonce 2.

(** [input[12]++; if(input[12] == 0) input[13]++] *)
Definition next_input (input : list Z) : list Z :=
  let input := <[12%nat := u32 (word input 12 + 1)]> input in
  if decide (word input 12 = 0) then <[13%nat := u32 (word input 13 + 1)]> input else input.

(** A whole block, word by word. *)
Definition whole_block (input : list Z) (plain_text : option bytes) : bytes :=
  let pool := chacha20_rounds input in
  concat ((fun j =>
    let p := u32 (word pool j + word input j) in
    match plain_text with
    | Some pt => store32_le (Z.lxor p (load32_le (drop (4 * j) pt)))
    | None => store32_le p
    end) <$> seq 0 16).

Fixpoint whole_blocks (nb_blocks : nat) (input : list Z) (plain_text : option bytes)
    : bytes * list Z * option bytes :=
  match nb_blocks with
  | O => ([], input, plain_text)
  | S nb =>
      let out := whole_block input plain_text in
      let '(rest, input', plain') := whole_blocks nb (next_input input) (drop 64 <$> plain_text) in
      (out ++ rest, input', plain')
  end.

(** The last block, byte by byte. *)
Definition last_block (text_size : nat) (input : list Z) (plain_text : bytes) : bytes :=
  let pool := chacha20_rounds input in
  let tmp := concat ((fun i => store32_le (u32 (word pool i + word input i))) <$> seq 0 16) in
  (fun i => bxor (default NUL (tmp !! i)) (default NUL (plain_text !! i))) <$> seq 0 text_size.

Definition zero : bytes := replicate 128 NUL.

(** The cipher text and the next counter. *)
Definition crypto_chacha20_djb (plain_text : option bytes) (text_size : nat) (key nonce : bytes) (ctr : Z)
    : bytes * Z :=
  let input := djb_input key nonce ctr in
  let '(out, input, plain_text) := whole_blocks (text_size / 64) input plain_text in
  let text_size := (text_size mod 64)%nat in
  let out := if decide (0 < text_size)%nat
             then out ++ last_block text_size input (default zero plain_text) else out in
  (out, u64 (word input 12 + Z.shiftl (word input 13) 32 + (if decide (0 < text_size)%nat then 1 else 0))).

Definition crypto_chacha20_ietf (plain_text : option bytes) (text_size : nat) (key nonce : bytes) (ctr : Z)
    : bytes * Z :=
  let big_ctr := u64 (ctr + Z.shiftl (load32_le nonce) 32) in
  let '(out, c) := crypto_chacha20_djb plain_text text_size key (drop 4 nonce) big_ctr in (out, u32 c).

Definition crypto_chacha20_x (plain_text : option bytes) (text_size : nat) (key nonce : bytes) (ctr : Z)
    : bytes * Z :=
  let sub_key := crypto_chacha20_h key nonce in
  crypto_chacha20_djb plain_text text_size sub_key (drop 16 nonce) ctr.

(** ** Test vectors (RFC 8439, 2.1.1 and 2.3.2) *)

Example quarter_round_vector :
  QUARTERROUND 0 1 2 3 [0x11111111; 0x01020304; 0x9b8d6f43; 0x01234567] = [0xea2a92f4; 0xcb1cf8ce; 0x4581472e; 0x5881c4bb].
Proof. vm_compute. reflexivity. Qed.

Definition rfc_key : bytes := (fun i => to_byte (Z.of_nat i)) <$> seq 0 32.

Example block_vector :
  take 16 (crypto_chacha20_ietf None 64 rfc_key (x00 :: x00 :: x00 :: x09 :: x00 :: x00 :: x00 :: x4a :: replicate 4 x00) 1).1
  = [x10; xf1; xe7; xe4; xd1; x3b; x59; x15; x50; x0f; xdd; x1f; xa3; x20; x71; xc4].
Proof. vm_compute. reflexivity. Qed.

(** ** Specification: xor with a key stream *)

Definition block (input : list Z) : bytes :=
  let pool := chacha20_rounds input in
  concat ((fun i => store32_le (u32 (word pool i + word input i))) <$> seq 0 16).

Fixpoint keystream (nb : nat) (key nonce : bytes) (ctr : Z) : bytes :=
  match nb with
  | O => []
  | S nb => block (djb_input key nonce ctr) ++ keystream nb key nonce (u64 (ctr + 1))
  end.

(** The blocks that [n] bytes take. *)
Definition nb_blocks (n : nat) : nat := (n / 64 + if decide (0 < n mod 64) then 1 else 0)%nat.

(** ** Lemmas *)

Lemma store32_le_length x : length (store32_le x) = 4%nat.
Proof. done. Qed.

Lemma concat_words_length (f : nat -> Z) i n : length (concat ((fun j => store32_le (f j)) <$> seq i n)) = (4 * n)%nat.
Proof.
  revert i. induction n as [|n IH]; intros i; [done|]. cbn [seq fmap list_fmap concat]. rewrite length_app, IH, store32_le_length. lia.
Qed.

Lemma block_length input : length (block input) = 64%nat.
Proof. unfold block. by rewrite concat_words_length. Qed.

Lemma keystream_length nb key nonce ctr : length (keystream nb key nonce ctr) = (64 * nb)%nat.
Proof. revert ctr. induction nb as [|nb IH]; intros ctr; [done|]. cbn [keystream]. rewrite length_app, block_length, IH. lia. Qed.

Lemma bxor_comm a b : bxor a b = bxor b a.
Proof. unfold bxor. by rewrite Z.lxor_comm. Qed.

Lemma bxor_nul a : bxor a NUL = a.
Proof. unfold bxor. change (uchar NUL) with 0. rewrite Z.lxor_0_r. apply to_byte_uchar. Qed.

Lemma xor_bytes_comm s t : xor_bytes s t = xor_bytes t s.
Proof.
  revert t. induction s as [|a s IH]; intros [|b t]; try done. unfold xor_bytes in *. cbn [zip_with].
  by rewrite bxor_comm, IH.
Qed.

Lemma xor_bytes_app s s' t t' : length s = length t -> xor_bytes (s ++ s') (t ++ t') = xor_bytes s t ++ xor_bytes s' t'.
Proof. intros H. unfold xor_bytes. by apply zip_with_app. Qed.

Lemma xor_bytes_take_l s t : (length t <= length s)%nat -> xor_bytes (take (length t) s) t = xor_bytes s t.
Proof.
  revert t. induction s as [|a s IH]; intros [|b t] H; try done. simpl in H.
  unfold xor_bytes in *. cbn [length take zip_with]. f_equal. apply IH. lia.
Qed.

(** A word of the plain text is xored as its four bytes. *)
Lemma xor_word p pt : (4 <= length pt)%nat ->
  store32_le (Z.lxor p (load32_le pt)) = xor_bytes (take 4 pt) (store32_le p).
Proof.
  intros H. rewrite !store32_le_bytes, le_bytes_lxor, xor_bytes_comm. f_equal.
  rewrite load32_le_val by done. rewrite <- (le_bytes_val (take 4 pt)) at 2. rewrite length_take. f_equal. lia.
Qed.

Lemma xor_words (f : nat -> Z) i n pt : (4 * (i + n) <= length pt)%nat ->
  concat ((fun j => store32_le (Z.lxor (f j) (load32_le (drop (4 * j) pt)))) <$> seq i n) =
  xor_bytes (take (4 * n) (drop (4 * i) pt)) (concat ((fun j => store32_le (f j)) <$> seq i n)).
Proof.
  revert i. induction n as [|n IH]; intros i H; [done|]. cbn [seq fmap list_fmap concat].
  replace (4 * S n)%nat with (4 + 4 * n)%nat by lia. rewrite <- take_take_drop, drop_drop, xor_bytes_app.
  2:{ rewrite length_take, length_drop, store32_le_length. lia. }
  rewrite xor_word by (rewrite length_drop; lia). f_equal.
  rewrite IH by lia. by replace (4 * S i)%nat with (4 * i + 4)%nat by lia.
Qed.

Lemma whole_block_xor input pt : (64 <= length pt)%nat ->
  whole_block input (Some pt) = xor_bytes (take 64 pt) (block input).
Proof. intros H. unfold whole_block, block. by rewrite xor_words. Qed.

(** The counter of the next block, in the two words. *)
Lemma djb_input_split key nonce c :
  djb_input key nonce c = (load32_le_buf chacha20_constant 4 ++ load32_le_buf key 8) ++ [u32 c; u32 (Z.shiftr c 32)] ++ load32_le_buf nonce 2.
Proof. unfold djb_input. by rewrite <- app_assoc. Qed.

Lemma next_input_djb key nonce c : 0 <= c < 2 ^ 64 -> next_input (djb_input key nonce c) = djb_input key nonce (u64 (c + 1)).
Proof.
  intros Hc. rewrite !djb_input_split. set (pre := load32_le_buf chacha20_constant 4 ++ load32_le_buf key 8).
  assert (Hp : length pre = 12%nat) by done. unfold next_input.
  assert (Hw : forall l i, word (pre ++ l) (12 + i) = word l i).
  { intros l i. unfold word. rewrite lookup_app_r by lia. by rewrite Hp, Nat.add_comm, Nat.add_sub. }
  assert (Hi : forall l i (x : Z), <[(12 + i)%nat := x]> (pre ++ l) = pre ++ <[i := x]> l).
  { intros l i x. rewrite insert_app_r_alt by lia. by rewrite Hp, Nat.add_comm, Nat.add_sub. }
  assert (Hw0 : forall l, word (pre ++ l) 12 = word l 0) by (intros l; exact (Hw l 0%nat)).
  assert (Hw1 : forall l, word (pre ++ l) 13 = word l 1) by (intros l; exact (Hw l 1%nat)).
  assert (Hi0 : forall l x, <[12%nat := x]> (pre ++ l) = pre ++ <[0%nat := x]> l) by (intros l x; exact (Hi l 0%nat x)).
  assert (Hi1 : forall l x, <[13%nat := x]> (pre ++ l) = pre ++ <[1%nat := x]> l) by (intros l x; exact (Hi l 1%nat x)).
  rewrite Hi0, !Hw0, Hw1, Hi1. cbn [app insert list_insert word lookup list_lookup default from_option id].
  rewrite !Z.shiftr_div_pow2 by lia.
  pose proof (Z.div_mod c (2 ^ 32) ltac:(lia)) as Hdm. pose proof (Z.mod_pos_bound c (2 ^ 32) ltac:(lia)) as Hm.
  assert (Hd : 0 <= c / 2 ^ 32 < 2 ^ 32) by (split; [apply Z.div_pos; lia|apply Z.div_lt_upper_bound; lia]).
  assert (Hlow : u32 (u32 c + 1) = u32 (u64 (c + 1))).
  { unfold wrapu. rewrite Z.add_mod_idemp_l by lia.
    rewrite (Z.mod_mod_divide (c + 1) (2 ^ 64) (2 ^ 32)); [done|]. by exists (2 ^ 32). }
  assert (Hlv : u32 (u32 c + 1) = if decide (c mod 2 ^ 32 = 2 ^ 32 - 1) then 0 else c mod 2 ^ 32 + 1).
  { unfold wrapu. case_decide as Hx; [rewrite Hx; reflexivity|]. apply Z.mod_small. lia. }
  assert (Hhigh : u32 (u64 (c + 1) / 2 ^ 32) = if decide (c mod 2 ^ 32 = 2 ^ 32 - 1) then u32 (c / 2 ^ 32 + 1) else c / 2 ^ 32).
  { unfold wrapu. destruct (decide (c + 1 = 2 ^ 64)) as [Hov|Hov].
    - rewrite Hov. rewrite decide_True by lia. replace (c / 2 ^ 32) with (2 ^ 32 - 1) by lia. reflexivity.
    - rewrite (Z.mod_small (c + 1)) by lia. case_decide as Hx.
      + replace (c + 1) with ((c / 2 ^ 32 + 1) * 2 ^ 32) by lia. rewrite Z.div_mul by lia. done.
      + replace (c + 1) with (c mod 2 ^ 32 + 1 + (c / 2 ^ 32) * 2 ^ 32) by lia.
        rewrite Z.div_add, Z.div_small, Z.mod_small by lia. lia. }
  f_equal. rewrite Hhigh, <- Hlow, Hlv.
  assert (Hu : u32 (c / 2 ^ 32) = c / 2 ^ 32) by (apply wrapu_id; lia).
  destruct (decide (c mod 2 ^ 32 = 2 ^ 32 - 1)); [rewrite decide_True by done|rewrite decide_False by lia]; cbn; by rewrite Hu.
Qed.

(** The counter after [n] blocks. *)
Lemma u64_range z : 0 <= u64 z < 2 ^ 64.
Proof. apply wrapu_range. lia. Qed.

Lemma u64_add a b : u64 (u64 a + b) = u64 (a + b).
Proof. unfold wrapu. by rewrite Z.add_mod_idemp_l by lia. Qed.

Lemma whole_blocks_input nb key nonce c plain : 0 <= c < 2 ^ 64 ->
  (whole_blocks nb (djb_input key nonce c) plain).1.2 = djb_input key nonce (u64 (c + Z.of_nat nb)).
Proof.
  revert c plain. induction nb as [|nb IH]; intros c plain Hc; cbn [whole_blocks].
  - simpl. by rewrite Z.add_0_r, wrapu_id by lia.
  - rewrite next_input_djb by done. specialize (IH (u64 (c + 1)) (drop 64 <$> plain) (u64_range _)).
    destruct (whole_blocks nb _ _) as [[rest inp] pl]. cbn [fst snd] in *. rewrite IH, u64_add. do 2 f_equal. lia.
Qed.

Lemma whole_blocks_xor nb key nonce c pt : 0 <= c < 2 ^ 64 -> (64 * nb <= length pt)%nat ->
  (whole_blocks nb (djb_input key nonce c) (Some pt)).1.1 = xor_bytes (take (64 * nb) pt) (keystream nb key nonce c) /\
  (whole_blocks nb (djb_input key nonce c) (Some pt)).2 = Some (drop (64 * nb) pt).
Proof.
  revert c pt. induction nb as [|nb IH]; intros c pt Hc Hl; cbn [whole_blocks keystream].
  - split; [done|]. by rewrite drop_0.
  - rewrite next_input_djb by done. cbn [fmap option_fmap option_map].
    specialize (IH (u64 (c + 1)) (drop 64 pt) (u64_range _)). rewrite length_drop in IH. specialize (IH ltac:(lia)).
    destruct (whole_blocks nb _ _) as [[rest inp] pl]. cbn [fst snd] in *. destruct IH as [-> ->].
    rewrite whole_block_xor by lia. replace (64 * S nb)%nat with (64 + 64 * nb)%nat by lia.
    rewrite <- take_take_drop, xor_bytes_app, drop_drop; [done|]. rewrite block_length, length_take. lia.
Qed.

Lemma whole_blocks_key nb key nonce c : 0 <= c < 2 ^ 64 ->
  (whole_blocks nb (djb_input key nonce c) None).1.1 = keystream nb key nonce c /\
  (whole_blocks nb (djb_input key nonce c) None).2 = None.
Proof.
  revert c. induction nb as [|nb IH]; intros c Hc; cbn [whole_blocks keystream]; [done|].
  rewrite next_input_djb by done. specialize (IH (u64 (c + 1)) (u64_range _)). cbn [fmap option_fmap option_map].
  destruct (whole_blocks nb _ _) as [[rest inp] pl]. cbn [fst snd] in *. by destruct IH as [-> ->].
Qed.

(** The bytes of the last block. *)
Lemma index_zip (s t : bytes) n : (n <= length s)%nat -> (n <= length t)%nat ->
  ((fun i => bxor (default NUL (s !! i)) (default NUL (t !! i))) <$> seq 0 n) = xor_bytes (take n t) (take n s).
Proof.
  intros Hs Ht. apply list_eq. intros i. rewrite list_lookup_fmap. unfold xor_bytes.
  destruct (decide (i < n)%nat) as [Hi|Hi].
  - rewrite lookup_seq_lt by done. simpl. rewrite lookup_zip_with, !lookup_take_lt by done.
    destruct (lookup_lt_is_Some_2 s i) as [a Ha]; [lia|]. destruct (lookup_lt_is_Some_2 t i) as [b Hb]; [lia|].
    rewrite Ha, Hb. simpl. by rewrite bxor_comm.
  - rewrite !lookup_ge_None_2; [done| |]; rewrite ?length_zip_with, ?length_take, ?length_fmap, ?length_seq; lia.
Qed.

Lemma last_block_xor n input pt : (n <= 64)%nat -> (n <= length pt)%nat ->
  last_block n input pt = xor_bytes (take n pt) (take n (block input)).
Proof.
  intros Hn Hp. apply (index_zip (block input) pt n); [|done]. by rewrite block_length.
Qed.

Lemma keystream_snoc nb key nonce c : 0 <= c < 2 ^ 64 ->
  keystream (S nb) key nonce c = keystream nb key nonce c ++ block (djb_input key nonce (u64 (c + Z.of_nat nb))).
Proof.
  revert c. induction nb as [|nb IH]; intros c Hc.
  - cbn [keystream app]. change (Z.of_nat 0) with 0. rewrite app_nil_r, Z.add_0_r, wrapu_id by lia. exact eq_refl.
  - change (keystream (S (S nb)) key nonce c) with (block (djb_input key nonce c) ++ keystream (S nb) key nonce (u64 (c + 1))).
    rewrite IH by apply u64_range. cbn [keystream]. rewrite <- app_assoc, u64_add.
    replace (c + 1 + Z.of_nat nb) with (c + Z.of_nat (S nb)) by lia. exact eq_refl.
Qed.

(** The counter that is returned. *)
Lemma djb_counter key nonce c : 0 <= c < 2 ^ 64 ->
  word (djb_input key nonce c) 12 + Z.shiftl (word (djb_input key nonce c) 13) 32 = c.
Proof.
  intros Hc. change (word (djb_input key nonce c) 12) with (u32 c).
  change (word (djb_input key nonce c) 13) with (u32 (Z.shiftr c 32)).
  rewrite Z.shiftl_mul_pow2, Z.shiftr_div_pow2 by lia. unfold wrapu.
  assert (0 <= c / 2 ^ 32 < 2 ^ 32) by (split; [apply Z.div_pos; lia|apply Z.div_lt_upper_bound; lia]).
  rewrite (Z.mod_small (c / 2 ^ 32)) by lia. pose proof (Z.div_mod c (2 ^ 32)). lia.
Qed.

Lemma djb_spec plain n key nonce ctr : 0 <= ctr < 2 ^ 64 -> match plain with Some pt => length pt = n | None => True end ->
  crypto_chacha20_djb plain n key nonce ctr =
  (match plain with
   | Some pt => xor_bytes pt (keystream (nb_blocks n) key nonce ctr)
   | None => take n (keystream (nb_blocks n) key nonce ctr)
   end, u64 (ctr + Z.of_nat (nb_blocks n))).
Proof.
  intros Hc Hn. unfold crypto_chacha20_djb, nb_blocks.
  pose proof (Nat.div_mod n 64 ltac:(lia)) as Hdm. pose proof (Nat.mod_upper_bound n 64 ltac:(lia)) as Hm.
  set (q := (n / 64)%nat) in *. set (r := (n mod 64)%nat) in *.
  pose proof (whole_blocks_input q key nonce ctr plain Hc) as Hi.
  assert (Hctr : forall e, u64 (word (djb_input key nonce (u64 (ctr + Z.of_nat q))) 12 +
      Z.shiftl (word (djb_input key nonce (u64 (ctr + Z.of_nat q))) 13) 32 + e) = u64 (ctr + Z.of_nat q + e)).
  { intros e. rewrite djb_counter by apply u64_range. apply u64_add. }
  destruct plain as [pt|].
  - destruct (whole_blocks_xor q key nonce ctr pt Hc ltac:(lia)) as [Ho Hr].
    destruct (whole_blocks q _ _) as [[out inp] pl]. cbn [fst snd default from_option id] in *. subst out pl inp. rewrite Hctr.
    destruct (decide (0 < r)%nat) as [Hr|Hr].
    + f_equal; [|f_equal; lia]. cbn [default from_option id]. rewrite last_block_xor by (rewrite ?length_drop; lia).
      rewrite Nat.add_1_r, keystream_snoc by done. rewrite <- (take_drop (64 * q) pt) at 3.
      rewrite xor_bytes_app by (rewrite length_take, keystream_length; lia). f_equal.
      rewrite (take_ge (drop _ pt)) by (rewrite length_drop; lia).
      assert (Hl : length (drop (64 * q) pt) = r) by (rewrite length_drop; lia). rewrite <- Hl at 1.
      rewrite (xor_bytes_comm _ (take _ _)), (xor_bytes_comm _ (block _)). apply xor_bytes_take_l.
      rewrite block_length. lia.
    + f_equal; [|f_equal; lia]. by rewrite Nat.add_0_r, (take_ge pt) by lia.
  - destruct (whole_blocks_key q key nonce ctr Hc) as [Ho Hr].
    destruct (whole_blocks q _ _) as [[out inp] pl]. cbn [fst snd] in *. subst out pl inp. rewrite Hctr.
    destruct (decide (0 < r)%nat) as [Hr|Hr].
    + f_equal; [|f_equal; lia]. cbn [default from_option id]. rewrite last_block_xor by (unfold zero; rewrite ?length_replicate; lia).
      rewrite Nat.add_1_r, keystream_snoc by done. rewrite take_app, (take_ge (keystream q _ _ _)) by (rewrite keystream_length; lia). f_equal.
      rewrite keystream_length. replace (n - 64 * q)%nat with r by lia.
      unfold zero. rewrite take_replicate, Nat.min_l by lia. apply list_eq. intros i.
      unfold xor_bytes. rewrite lookup_zip_with. destruct (decide (i < r)%nat).
      * rewrite lookup_replicate_2 by done. simpl. destruct (take r _ !! i) as [b|]; [|done]. simpl.
        by rewrite bxor_comm, bxor_nul.
      * rewrite (lookup_ge_None_2 (replicate _ _)), lookup_ge_None_2; [done| |]; rewrite ?length_take, ?length_replicate; lia.
    + f_equal; [|f_equal; lia]. rewrite Nat.add_0_r, take_ge; [done|]. rewrite keystream_length. lia.
Qed.

Lemma keystream_covers n key nonce ctr : (n <= length (keystream (nb_blocks n) key nonce ctr))%nat.
Proof.
  rewrite keystream_length. unfold nb_blocks. pose proof (Nat.div_mod n 64 ltac:(lia)).
  pose proof (Nat.mod_upper_bound n 64 ltac:(lia)). case_decide; lia.
Qed.

(** ** Properties *)

(** For every key, nonce and 64-bit counter, encrypting [text_size] bytes
    xors them with the key stream of the consecutive blocks, whole blocks
    and the last partial one alike; without a plain text the key stream
    itself is written; the counter that is returned is the one after the
    last block used; and encrypting the cipher text gives the text back. *)
Theorem chacha20_stream pt key nonce ctr : 0 <= ctr < 2 ^ 64 ->
  let n := length pt in
  let ks := keystream (nb_blocks n) key nonce ctr in
  let next := u64 (ctr + Z.of_nat (nb_blocks n)) in
  crypto_chacha20_djb None n key nonce ctr = (take n ks, next) /\
  crypto_chacha20_djb (Some pt) n key nonce ctr = (xor_bytes pt ks, next) /\
  crypto_chacha20_djb (Some (xor_bytes pt ks)) n key nonce ctr = (pt, next).
Proof.
  intros Hc n ks next. pose proof (keystream_covers n key nonce ctr) as Hk.
  rewrite !djb_spec by (done || by (rewrite xor_bytes_length; unfold ks, n in *; lia)).
  split_and!; [done..|]. by rewrite xor_bytes_cancel by done.
Qed.

Lemma chacha20_stream_witness :
  0 <= 2 ^ 32 - 1 < 2 ^ 64 /\
  (crypto_chacha20_djb None (length (replicate 65 x41)) rfc_key (replicate 8 x00) (2 ^ 32 - 1)).2 = 2 ^ 32 + 1.
Proof.
  assert (H : 0 <= 2 ^ 32 - 1 < 2 ^ 64) by lia. split; [done|].
  destruct (chacha20_stream (replicate 65 x41) rfc_key (replicate 8 x00) (2 ^ 32 - 1) H) as [E _].
  rewrite E. reflexivity.
Defined.
