(* ===== verification/Poly1305.v ===== *)
(** * Poly1305 ([crypto_poly1305_*] in [monocypher.c])

    The hash is kept in five 32-bit limbs and multiplied by the clamped key
    without carry propagation; a message is fed in pieces of any size. *)
From S2P Require Import Prelude Fmt Mono.

Open Scope Z_scope.

(** ** The context *)

Record poly_ctx := PolyCtx {
  p_c : bytes;        (* chunk of the message *)
  p_c_idx : nat;      (* how many bytes are in the chunk *)
  p_r : list Z;       (* constant multiplier *)
  p_pad : list Z;     (* added at the end *)
  p_h : list Z;       (* accumulated hash *)
}.

(** [x += a * b] on a [u64]. *)
Definition addmul (x a b : Z) : Z := u64 (x + u64 (a * b)).

Definition mask : Z := 0xffffffff.

(** One turn of the loop of [poly_blocks]. *)
Definition poly_block (r : list Z) (end_ : Z) (h : list Z) (inp : bytes) : list Z :=
  let r0 := word r 0 in let r1 := word r 1 in let r2 := word r 2 in let r3 := word r 3 in
  let rr0 := u32 (Z.shiftr r0 2 * 5) in
  let rr1 := u32 (Z.shiftr r1 2 + r1) in
  let rr2 := u32 (Z.shiftr r2 2 + r2) in
  let rr3 := u32 (Z.shiftr r3 2 + r3) in
  let rr4 := Z.land r0 3 in
  (* h + c, without carry propagation *)
  let s0 := u64 (word h 0 + load32_le inp) in
  let s1 := u64 (word h 1 + load32_le (drop 4 inp)) in
  let s2 := u64 (word h 2 + load32_le (drop 8 inp)) in
  let s3 := u64 (word h 3 + load32_le (drop 12 inp)) in
  let s4 := u32 (word h 4 + end_) in
  (* (h + c) * r, without carry propagation *)
  let x0 := addmul (addmul (addmul (addmul (u64 (s0 * r0)) s1 rr3) s2 rr2) s3 rr1) s4 rr0 in
  let x1 := addmul (addmul (addmul (addmul (u64 (s0 * r1)) s1 r0) s2 rr3) s3 rr2) s4 rr1 in
  let x2 := addmul (addmul (addmul (addmul (u64 (s0 * r2)) s1 r1) s2 r0) s3 rr3) s4 rr2 in
  let x3 := addmul (addmul (addmul (addmul (u64 (s0 * r3)) s1 r2) s2 r1) s3 r0) s4 rr3 in
  let x4 := u32 (s4 * rr4) in
  (* partial reduction modulo 2^130 - 5 *)
  let u5 := u32 (x4 + Z.shiftr x3 32) in
  let u0 := u64 (u64 (Z.shiftr u5 2 * 5) + Z.land x0 mask) in
  let u1 := u64 (u64 (Z.shiftr u0 32 + Z.land x1 mask) + Z.shiftr x0 32) in
  let u2 := u64 (u64 (Z.shiftr u1 32 + Z.land x2 mask) + Z.shiftr x1 32) in
  let u3 := u64 (u64 (Z.shiftr u2 32 + Z.land x3 mask) + Z.shiftr x2 32) in
  let u4 := u32 (Z.shiftr u3 32 + Z.land u5 3) in
  [Z.land u0 mask; Z.land u1 mask; Z.land u2 mask; Z.land u3 mask; u4].

Fixpoint blocks_loop (r : list Z) (end_ : Z) (h : list Z) (inp : bytes) (nb_blocks : nat) : list Z :=
  match nb_blocks with
  | O => h
  | S n => blocks_loop r end_ (poly_block r end_ h inp) (drop 16 inp) n
  end.

Definition poly_blocks (ctx : poly_ctx) (inp : bytes) (nb_blocks : nat) (end_ : Z) : poly_ctx :=
  PolyCtx (p_c ctx) (p_c_idx ctx) (p_r ctx) (p_pad ctx) (blocks_loop (p_r ctx) end_ (p_h ctx) inp nb_blocks).

Definition crypto_poly1305_init (c : bytes) (key : bytes) : poly_ctx :=
  let r := load32_le_buf key 4 in
  let pad := load32_le_buf (drop 16 key) 4 in
  let r := alter (fun x => Z.land x 0x0fffffff) 0%nat r in
  let r := foldl (fun r i => alter (fun x => Z.land x 0x0ffffffc) i r) r (seq 1 3) in
  PolyCtx c 0 r pad (replicate 5 0).

(** [ctx->c[ctx->c_idx] = b; ctx->c_idx++] for each byte. *)
Definition push_byte (ctx : poly_ctx) (b : byte) : poly_ctx :=
  PolyCtx (<[p_c_idx ctx := b]> (p_c ctx)) (p_c_idx ctx + 1) (p_r ctx) (p_pad ctx) (p_h ctx).

Definition set_idx (i : nat) (ctx : poly_ctx) : poly_ctx :=
  PolyCtx (p_c ctx) i (p_r ctx) (p_pad ctx) (p_h ctx).

(** [message_size] is the length of [message]. *)
Definition crypto_poly1305_update (ctx : poly_ctx) (message : bytes) : poly_ctx :=
  match message with
  | [] => ctx
  | _ =>
    (* align ourselves with block boundaries *)
    let aligned := Nat.min (Z.to_nat (gap (Z.of_nat (p_c_idx ctx)) 16)) (length message) in
    let ctx := foldl push_byte ctx (take aligned message) in
    let message := drop aligned message in
    (* if the block is complete, process it *)
    let ctx := if decide (p_c_idx ctx = 16)%nat then set_idx 0 (poly_blocks ctx (p_c ctx) 1 1) else ctx in
    (* process the message block by block *)
    let nb_blocks := (length message / 16)%nat in
    let ctx := poly_blocks ctx message nb_blocks 1 in
    (* remaining bytes *)
    foldl push_byte ctx (drop (16 * nb_blocks) message)
  end.

(** The carry of [h + 5], which tells whether to subtract [2^130 - 5]. *)
Definition final_carry (h : list Z) : Z :=
  let c := foldl (fun c i => Z.shiftr (u64 (c + word h i)) 32) 5 (seq 0 4) in
  let c := u64 (c + word h 4) in
  u64 (Z.shiftr c 2 * 5).

Fixpoint add_pad (c : Z) (h pad : list Z) (n i : nat) : bytes :=
  match n with
  | O => []
  | S n =>
      let c := u64 (c + u64 (word h i + word pad i)) in
      store32_le (u32 c) ++ add_pad (Z.shiftr c 32) h pad n (i + 1)
  end.

Definition crypto_poly1305_final (ctx : poly_ctx) : bytes :=
  let i := p_c_idx ctx in
  let ctx := if decide (i = 0)%nat then ctx else
    let c := <[i := x01]> (take i (p_c ctx) ++ replicate (16 - i) NUL) in
    poly_blocks (PolyCtx c i (p_r ctx) (p_pad ctx) (p_h ctx)) c 1 0 in
  add_pad (final_carry (p_h ctx)) (p_h ctx) (p_pad ctx) 4 0.

Definition crypto_poly1305 (c message key : bytes) : bytes :=
  crypto_poly1305_final (crypto_poly1305_update (crypto_poly1305_init c key) message).

(** ** Test vector (RFC 8439, 2.5.2) *)

Example poly1305_vector :
  crypto_poly1305 (replicate 16 NUL) (str "Cryptographic Forum Research Group")
    [x85; xd6; xbe; x78; x57; x55; x6d; x33; x7f; x44; x52; xfe; x42; xd5; x06; xa8;
     x01; x03; x80; x8a; xfb; x0d; xb2; xfd; x4a; xbf; xf6; xaf; x41; x49; xf5; x1b]
  = [xa8; x06; x1d; xc1; x30; x51; x36; xc6; xc2; x2b; x8b; xaf; x0c; x01; x27; xa9].
Proof. vm_compute. reflexivity. Qed.

(** ** Specification: a polynomial over the integers modulo [2^130 - 5] *)

Definition prime : Z := 2 ^ 130 - 5.

Definition clamped (key : bytes) : Z := Z.land (le_val (take 16 key)) 0x0ffffffc0ffffffc0ffffffc0fffffff.

Fixpoint absorb (R a : Z) (nb : nat) (m : bytes) : Z :=
  match nb with
  | O => a
  | S nb => absorb R ((a + le_val (take 16 m ++ [x01])) * R mod prime) nb (drop 16 m)
  end.

Definition poly1305 (key m : bytes) : bytes :=
  le_bytes 16 (absorb (clamped key) 0 ((length m + 15) / 16) m + le_val (take 16 (drop 16 key))).

(** ** Multiplication without overflow *)

Section multiply.
(** The limbs of the key: [r0 = 4 q0 + e], the others multiples of four. *)
Context (q0 q1 q2 q3 e : Z).
Context (He : 0 <= e < 4) (Hq0 : 0 <= q0 < 2 ^ 26) (Hq1 : 0 <= q1 < 2 ^ 26) (Hq2 : 0 <= q2 < 2 ^ 26) (Hq3 : 0 <= q3 < 2 ^ 26).
(** The sums of the limbs of the hash and the block. *)
Context (s0 s1 s2 s3 s4 : Z).
Context (Hs0 : 0 <= s0 < 2 ^ 33) (Hs1 : 0 <= s1 < 2 ^ 33) (Hs2 : 0 <= s2 < 2 ^ 33) (Hs3 : 0 <= s3 < 2 ^ 33)
  (Hs4 : 0 <= s4 <= 5).

Lemma mul_bound a b A B : 0 <= a < A -> 0 <= b < B -> 0 <= a * b < A * B.
Proof. nia. Qed.

Lemma addmul_id x a b m : 0 <= x -> 0 <= a * b < m -> x + m <= 2 ^ 64 -> addmul x a b = x + a * b.
Proof. intros. unfold addmul. rewrite (wrapu_id 64 (a * b)) by lia. apply wrapu_id. lia. Qed.

(** A sum of five products that fits 64 bits is computed exactly. *)
Definition small (a : Z) : Prop := 0 <= a < 5 * 2 ^ 26.

Lemma sum_products a b c d f : small a -> small b -> small c -> small d -> small f ->
  addmul (addmul (addmul (addmul (u64 (s0 * a)) s1 b) s2 c) s3 d) s4 f = s0 * a + s1 * b + s2 * c + s3 * d + s4 * f /\
  0 <= s0 * a + s1 * b + s2 * c + s3 * d + s4 * f <= 2 ^ 63 + 2 ^ 62.
Proof.
  unfold small. intros Ha Hb Hc Hd Hf.
  pose proof (mul_bound s0 a _ _ Hs0 Ha) as B0. pose proof (mul_bound s1 b _ _ Hs1 Hb) as B1.
  pose proof (mul_bound s2 c _ _ Hs2 Hc) as B2. pose proof (mul_bound s3 d _ _ Hs3 Hd) as B3.
  assert (B4 : 0 <= s4 * f < 6 * (5 * 2 ^ 26)) by (apply mul_bound; lia).
  split; [|lia]. unfold addmul.
  rewrite (wrapu_id 64 (s0 * a)), (wrapu_id 64 (s1 * b)), (wrapu_id 64 (s2 * c)), (wrapu_id 64 (s3 * d)), (wrapu_id 64 (s4 * f)) by lia.
  rewrite (wrapu_id 64 (s0 * a + s1 * b)) by lia. rewrite (wrapu_id 64 (s0 * a + s1 * b + s2 * c)) by lia.
  rewrite (wrapu_id 64 (s0 * a + s1 * b + s2 * c + s3 * d)) by lia. apply wrapu_id. lia.
Qed.
End multiply.

(** The partial reduction: five 64-bit columns become five limbs of the same
    value modulo the prime. *)
Definition reduce (x0 x1 x2 x3 x4 : Z) : list Z :=
  let u5 := u32 (x4 + Z.shiftr x3 32) in
  let u0 := u64 (u64 (Z.shiftr u5 2 * 5) + Z.land x0 mask) in
  let u1 := u64 (u64 (Z.shiftr u0 32 + Z.land x1 mask) + Z.shiftr x0 32) in
  let u2 := u64 (u64 (Z.shiftr u1 32 + Z.land x2 mask) + Z.shiftr x1 32) in
  let u3 := u64 (u64 (Z.shiftr u2 32 + Z.land x3 mask) + Z.shiftr x2 32) in
  let u4 := u32 (Z.shiftr u3 32 + Z.land u5 3) in
  [Z.land u0 mask; Z.land u1 mask; Z.land u2 mask; Z.land u3 mask; u4].

Definition hash_ok (h : list Z) : Prop :=
  exists h0 h1 h2 h3 h4, h = [h0; h1; h2; h3; h4] /\ limb h0 /\ limb h1 /\ limb h2 /\ limb h3 /\ 0 <= h4 <= 4.

Lemma land_mask x : Z.land x mask = x mod 2 ^ 32.
Proof. change mask with (Z.ones 32). apply Z.land_ones. lia. Qed.

Lemma split32 x : 0 <= x < 2 ^ 64 -> exists hi lo, x = hi * 2 ^ 32 + lo /\ limb lo /\ limb hi /\
  Z.land x mask = lo /\ Z.shiftr x 32 = hi.
Proof.
  intros H. exists (x / 2 ^ 32), (x mod 2 ^ 32). rewrite land_mask, Z.shiftr_div_pow2 by lia. unfold limb.
  pose proof (Z.div_mod x (2 ^ 32)). pose proof (Z.mod_pos_bound x (2 ^ 32)).
  pose proof (Z.div_pos x (2 ^ 32)). pose proof (Z.div_lt_upper_bound x (2 ^ 32) (2 ^ 32)). split_and!; lia.
Qed.

Lemma split4 x : 0 <= x -> exists hi lo, x = hi * 4 + lo /\ 0 <= lo < 4 /\ 0 <= hi /\ Z.land x 3 = lo /\ Z.shiftr x 2 = hi.
Proof.
  intros H. exists (x / 4), (x mod 4). change 3 with (Z.ones 2). rewrite Z.land_ones, Z.shiftr_div_pow2 by lia.
  change (2 ^ 2) with 4. pose proof (Z.div_mod x 4). pose proof (Z.mod_pos_bound x 4). pose proof (Z.div_pos x 4).
  split_and!; lia.
Qed.

Lemma reduce_spec x0 x1 x2 x3 x4 :
  0 <= x0 < 2 ^ 64 -> 0 <= x1 < 2 ^ 64 -> 0 <= x2 < 2 ^ 64 -> 0 <= x3 <= 2 ^ 63 + 2 ^ 62 -> 0 <= x4 <= 15 ->
  hash_ok (reduce x0 x1 x2 x3 x4) /\
  exists k, limbs (reduce x0 x1 x2 x3 x4) = limbs [x0; x1; x2; x3; x4] - k * prime.
Proof.
  intros H0 H1 H2 H3 H4. unfold reduce.
  destruct (split32 x0 H0) as (a0 & b0 & E0 & Hb0 & Ha0 & -> & ->).
  destruct (split32 x1 H1) as (a1 & b1 & E1 & Hb1 & Ha1 & -> & ->).
  destruct (split32 x2 H2) as (a2 & b2 & E2 & Hb2 & Ha2 & -> & ->).
  destruct (split32 x3 ltac:(lia)) as (a3 & b3 & E3 & Hb3 & Ha3 & -> & ->).
  unfold limb in *. assert (Ha3' : a3 <= 2 ^ 31 + 2 ^ 30) by lia. clear H0 H1 H2 H3.
  rewrite (wrapu_id 32 (x4 + a3)) by lia.
  destruct (split4 (x4 + a3) ltac:(lia)) as (k & l & E5 & Hl & Hk & -> & ->).
  cbv zeta. rewrite (wrapu_id 64 (k * 5)) by lia. rewrite (wrapu_id 64 (k * 5 + b0)) by lia.
  destruct (split32 (k * 5 + b0) ltac:(lia)) as (c0 & d0 & F0 & Hd0 & Hc0 & -> & ->). unfold limb in *.
  rewrite (wrapu_id 64 (c0 + b1)) by lia. rewrite (wrapu_id 64 (c0 + b1 + a0)) by lia.
  destruct (split32 (c0 + b1 + a0) ltac:(lia)) as (c1 & d1 & F1 & Hd1 & Hc1 & -> & ->). unfold limb in *.
  rewrite (wrapu_id 64 (c1 + b2)) by lia. rewrite (wrapu_id 64 (c1 + b2 + a1)) by lia.
  destruct (split32 (c1 + b2 + a1) ltac:(lia)) as (c2 & d2 & F2 & Hd2 & Hc2 & -> & ->). unfold limb in *.
  rewrite (wrapu_id 64 (c2 + b3)) by lia. rewrite (wrapu_id 64 (c2 + b3 + a2)) by lia.
  destruct (split32 (c2 + b3 + a2) ltac:(lia)) as (c3 & d3 & F3 & Hd3 & Hc3 & -> & ->). unfold limb in *.
  rewrite (wrapu_id 32 (c3 + l)) by lia.
  split; [exists d0, d1, d2, d3, (c3 + l); unfold limb; split_and!; (done || lia)|].
  exists k. unfold prime. cbn [limbs]. lia.
Qed.

(** The product of the key and the sums, in columns, modulo the prime. *)
Lemma columns q0 q1 q2 q3 e s0 s1 s2 s3 s4 :
  limbs [4 * q0 + e; 4 * q1; 4 * q2; 4 * q3] * limbs [s0; s1; s2; s3; s4] =
  limbs [s0 * (4 * q0 + e) + s1 * (5 * q3) + s2 * (5 * q2) + s3 * (5 * q1) + s4 * (5 * q0);
         s0 * (4 * q1) + s1 * (4 * q0 + e) + s2 * (5 * q3) + s3 * (5 * q2) + s4 * (5 * q1);
         s0 * (4 * q2) + s1 * (4 * q1) + s2 * (4 * q0 + e) + s3 * (5 * q3) + s4 * (5 * q2);
         s0 * (4 * q3) + s1 * (4 * q2) + s2 * (4 * q1) + s3 * (4 * q0 + e) + s4 * (5 * q3);
         s4 * e] +
  prime * limbs [s1 * q3 + s2 * q2 + s3 * q1 + s4 * q0; s2 * q3 + s3 * q2 + s4 * q1; s3 * q3 + s4 * q2; s4 * q3].
Proof. unfold prime. cbn [limbs]. ring. Qed.

(** A clamped key. *)
Definition key_ok (r : list Z) : Prop :=
  exists q0 q1 q2 q3 e, r = [4 * q0 + e; 4 * q1; 4 * q2; 4 * q3] /\ 0 <= e < 4 /\
    0 <= q0 < 2 ^ 26 /\ 0 <= q1 < 2 ^ 26 /\ 0 <= q2 < 2 ^ 26 /\ 0 <= q3 < 2 ^ 26.

(** The limbs of a block of sixteen bytes. *)
Definition block_limbs (inp : bytes) (end_ : Z) : list Z :=
  [load32_le inp; load32_le (drop 4 inp); load32_le (drop 8 inp); load32_le (drop 12 inp); end_].

Lemma shiftr2 q e : 0 <= e < 4 -> Z.shiftr (4 * q + e) 2 = q.
Proof. intros H. rewrite Z.shiftr_div_pow2 by lia. change (2 ^ 2) with 4. symmetry. by apply Z.div_unique with e; [lia|]. Qed.

Lemma land3 q e : 0 <= e < 4 -> Z.land (4 * q + e) 3 = e.
Proof. intros H. change 3 with (Z.ones 2). rewrite Z.land_ones by lia. change (2 ^ 2) with 4. symmetry. apply Z.mod_unique with q; lia. Qed.

Lemma poly_block_spec r end_ h inp : key_ok r -> hash_ok h -> 0 <= end_ <= 1 ->
  hash_ok (poly_block r end_ h inp) /\
  exists k, limbs (poly_block r end_ h inp) = (limbs h + limbs (block_limbs inp end_)) * limbs r - k * prime.
Proof.
  intros (q0 & q1 & q2 & q3 & e & -> & He & Hq0 & Hq1 & Hq2 & Hq3) (h0 & h1 & h2 & h3 & h4 & -> & Hh0 & Hh1 & Hh2 & Hh3 & Hh4) Hend.
  unfold limb in *. unfold block_limbs. pose proof (load32_le_range inp) as C0. pose proof (load32_le_range (drop 4 inp)) as C1.
  pose proof (load32_le_range (drop 8 inp)) as C2. pose proof (load32_le_range (drop 12 inp)) as C3.
  unfold poly_block. cbn [word lookup list_lookup default from_option id].
  revert C0 C1 C2 C3. generalize (load32_le inp) (load32_le (drop 4 inp)) (load32_le (drop 8 inp)) (load32_le (drop 12 inp)).
  intros c0 c1 c2 c3 C0 C1 C2 C3.
  assert (Hsh : forall q, Z.shiftr (4 * q) 2 = q) by (intros q; replace (4 * q) with (4 * q + 0) by lia; by apply shiftr2).
  rewrite (shiftr2 q0 e He), !Hsh, (land3 q0 e He).
  rewrite (wrapu_id 64 (h0 + c0)), (wrapu_id 64 (h1 + c1)), (wrapu_id 64 (h2 + c2)), (wrapu_id 64 (h3 + c3)), (wrapu_id 32 (h4 + end_)) by lia.
  rewrite (wrapu_id 32 (q0 * 5)), (wrapu_id 32 (q1 + 4 * q1)), (wrapu_id 32 (q2 + 4 * q2)), (wrapu_id 32 (q3 + 4 * q3)) by lia.
  replace (q0 * 5) with (5 * q0) by lia. replace (q1 + 4 * q1) with (5 * q1) by lia.
  replace (q2 + 4 * q2) with (5 * q2) by lia. replace (q3 + 4 * q3) with (5 * q3) by lia.
  assert (Hx4 : 0 <= (h4 + end_) * e <= 15) by nia. rewrite (wrapu_id 32 ((h4 + end_) * e)) by lia.
  assert (Hr : small (4 * q0 + e) /\ small (4 * q1) /\ small (4 * q2) /\ small (4 * q3) /\
      small (5 * q0) /\ small (5 * q1) /\ small (5 * q2) /\ small (5 * q3)) by (unfold small; lia).
  destruct Hr as (R0 & R1 & R2 & R3 & R5 & R6 & R7 & R8).
  pose proof (sum_products (h0 + c0) (h1 + c1) (h2 + c2) (h3 + c3) (h4 + end_) ltac:(lia) ltac:(lia) ltac:(lia) ltac:(lia) ltac:(lia)) as S.
  destruct (S _ _ _ _ _ R0 R8 R7 R6 R5) as [-> B0]. destruct (S _ _ _ _ _ R1 R0 R8 R7 R6) as [-> B1].
  destruct (S _ _ _ _ _ R2 R1 R0 R8 R7) as [-> B2]. destruct (S _ _ _ _ _ R3 R2 R1 R0 R8) as [-> B3].
  pose proof (columns q0 q1 q2 q3 e (h0 + c0) (h1 + c1) (h2 + c2) (h3 + c3) (h4 + end_)) as Hcol.
  match type of Hcol with _ = limbs [?x0; ?x1; ?x2; ?x3; ?x4] + prime * ?k =>
    destruct (reduce_spec x0 x1 x2 x3 x4 ltac:(lia) ltac:(lia) ltac:(lia) ltac:(lia) Hx4) as [Hok [k' Hk]];
    unfold reduce in Hok, Hk; cbv zeta in Hok, Hk |- *; split; [exact Hok|]; exists (k + k'); rewrite Hk end.
  assert (Hsum : limbs [h0; h1; h2; h3; h4] + limbs [c0; c1; c2; c3; end_] = limbs [h0 + c0; h1 + c1; h2 + c2; h3 + c3; h4 + end_]) by (cbn [limbs]; lia).
  rewrite Hsum, (Z.mul_comm (limbs [h0 + c0; _; _; _; _])), Hcol. lia.
Qed.

(** ** Limbs and bytes *)

Lemma block_limbs_full inp : (16 <= length inp)%nat -> limbs (block_limbs inp 1) = le_val (take 16 inp ++ [x01]).
Proof.
  intros H. rewrite le_val_app, length_take, Nat.min_l by lia. change (le_val [x01]) with 1.
  pose proof (limbs_load inp 4 ltac:(lia)) as E. change (4 * 4)%nat with 16%nat in E. rewrite <- E. change (256 ^ Z.of_nat 16) with (2 ^ 128).
  change (load32_le_buf inp 4) with [load32_le (drop 0 inp); load32_le (drop 4 inp); load32_le (drop 8 inp); load32_le (drop 12 inp)].
  rewrite drop_0. cbn [limbs block_limbs]. lia.
Qed.

Lemma block_limbs_last inp : length inp = 16%nat -> limbs (block_limbs inp 0) = le_val inp.
Proof.
  intros H. rewrite <- (take_ge inp 16) at 2 by lia. pose proof (limbs_load inp 4 ltac:(lia)) as E. change (4 * 4)%nat with 16%nat in E. rewrite <- E.
  change (load32_le_buf inp 4) with [load32_le (drop 0 inp); load32_le (drop 4 inp); load32_le (drop 8 inp); load32_le (drop 12 inp)].
  rewrite drop_0. cbn [limbs block_limbs]. lia.
Qed.

(** ** The key *)

Lemma land_limbs a b c d n : 0 <= n -> 0 <= a < 2 ^ n -> 0 <= c < 2 ^ n ->
  Z.land (a + b * 2 ^ n) (c + d * 2 ^ n) = Z.land a c + Z.land b d * 2 ^ n.
Proof.
  intros Hn Ha Hc. rewrite <- !lor_add by done.
  assert (Hac : 0 <= Z.land a c < 2 ^ n).
  { apply bits_range; [done|]. intros i Hi. by rewrite Z.land_spec, (testbit_above n a) by lia. }
  rewrite <- lor_add by done. apply Z.bits_inj'. intros i Hi.
  rewrite !Z.land_spec, !Z.lor_spec, !Z.land_spec. destruct (decide (i < n)).
  - rewrite !Z.shiftl_spec_low by lia. by rewrite !orb_false_r.
  - rewrite !Z.shiftl_spec, Z.land_spec, (testbit_above n a), (testbit_above n c) by lia. by rewrite !orb_false_l.
Qed.

Lemma limbs_land h m : length h = length m -> Forall limb h -> Forall limb m ->
  limbs (zip_with Z.land h m) = Z.land (limbs h) (limbs m).
Proof.
  intros Hl Hh. revert m Hl. induction Hh as [|x h Hx Hh IH]; intros [|y m] Hl Hm; try done.
  inversion Hm as [|? ? Hy Hm']; subst. injection Hl as Hl. unfold limb in *.
  cbn [limbs zip_with]. rewrite (IH m Hl Hm'), !(Z.mul_comm (2 ^ 32)), land_limbs by lia. done.
Qed.

Definition clamp_mask : list Z := [0x0fffffff; 0x0ffffffc; 0x0ffffffc; 0x0ffffffc].

Lemma init_r c key : p_r (crypto_poly1305_init c key) = zip_with Z.land (load32_le_buf key 4) clamp_mask.
Proof. done. Qed.

Lemma clamp_first x : exists q e, Z.land x 0x0fffffff = 4 * q + e /\ 0 <= e < 4 /\ 0 <= q < 2 ^ 26.
Proof.
  change 0x0fffffff with (Z.ones 28). rewrite Z.land_ones by lia. exists (x mod 2 ^ 28 / 4), (x mod 2 ^ 28 mod 4).
  pose proof (Z.mod_pos_bound x (2 ^ 28)). pose proof (Z.div_mod (x mod 2 ^ 28) 4).
  pose proof (Z.mod_pos_bound (x mod 2 ^ 28) 4). lia.
Qed.

Lemma clamp_other x : exists q, Z.land x 0x0ffffffc = 4 * q /\ 0 <= q < 2 ^ 26.
Proof.
  exists (Z.land (Z.shiftr x 2) (Z.ones 26)). split.
  - rewrite Z.mul_comm. change 4 with (2 ^ 2). rewrite <- Z.shiftl_mul_pow2 by lia.
    change 0x0ffffffc with (Z.shiftl (Z.ones 26) 2). rewrite Z.shiftl_land. apply Z.bits_inj'. intros i Hi.
    rewrite !Z.land_spec. destruct (decide (i < 2)); [by rewrite !(Z.shiftl_spec_low (Z.ones 26)), !andb_false_r by lia|].
    rewrite (Z.shiftl_spec (Z.shiftr x 2)), Z.shiftr_spec by lia. by replace (i - 2 + 2) with i by lia.
  - rewrite Z.land_ones by lia. apply Z.mod_pos_bound. lia.
Qed.

Lemma init_key_ok c key : key_ok (p_r (crypto_poly1305_init c key)).
Proof.
  rewrite init_r. unfold load32_le_buf, clamp_mask. cbn [seq fmap list_fmap zip_with].
  destruct (clamp_first (load32_le (drop (4 * 0) key))) as (q0 & e & -> & He & Hq0).
  destruct (clamp_other (load32_le (drop (4 * 1) key))) as (q1 & -> & Hq1).
  destruct (clamp_other (load32_le (drop (4 * 2) key))) as (q2 & -> & Hq2).
  destruct (clamp_other (load32_le (drop (4 * 3) key))) as (q3 & -> & Hq3).
  by exists q0, q1, q2, q3, e.
Qed.

Lemma init_clamped c key : (16 <= length key)%nat -> limbs (p_r (crypto_poly1305_init c key)) = clamped key.
Proof.
  intros H. rewrite init_r, limbs_land; [|done|apply load32_le_buf_limb|].
  - rewrite limbs_load by lia. done.
  - unfold clamp_mask, limb. repeat constructor; by vm_compute.
Qed.

(** ** The end: one subtraction of the prime, and the pad *)

Lemma prime_range z : 0 <= z mod prime < prime.
Proof. apply Z.mod_pos_bound. done. Qed.

Lemma final_carry_spec h : hash_ok h -> exists k, 0 <= k <= 1 /\ final_carry h = 5 * k /\ limbs h mod prime = limbs h - k * prime.
Proof.
  intros (h0 & h1 & h2 & h3 & h4 & -> & Hh0 & Hh1 & Hh2 & Hh3 & Hh4). unfold limb in *.
  unfold final_carry. cbn [seq foldl word lookup list_lookup default from_option id].
  rewrite (wrapu_id 64 (5 + h0)) by lia. destruct (split32 (5 + h0) ltac:(lia)) as (a0 & b0 & E0 & Hb0 & Ha0 & _ & ->).
  unfold limb in *. rewrite (wrapu_id 64 (a0 + h1)) by lia.
  destruct (split32 (a0 + h1) ltac:(lia)) as (a1 & b1 & E1 & Hb1 & Ha1 & _ & ->).
  unfold limb in *. rewrite (wrapu_id 64 (a1 + h2)) by lia.
  destruct (split32 (a1 + h2) ltac:(lia)) as (a2 & b2 & E2 & Hb2 & Ha2 & _ & ->).
  unfold limb in *. rewrite (wrapu_id 64 (a2 + h3)) by lia.
  destruct (split32 (a2 + h3) ltac:(lia)) as (a3 & b3 & E3 & Hb3 & Ha3 & _ & ->).
  unfold limb in *. rewrite (wrapu_id 64 (a3 + h4)) by lia.
  destruct (split4 (a3 + h4) ltac:(lia)) as (k & l & E4 & Hl & Hk & _ & ->).
  exists k. rewrite wrapu_id by lia. split_and!; [lia..|].
  symmetry. apply Z.mod_unique with k; unfold prime; cbn [limbs]; lia.
Qed.

(** The sums of the words of the hash and the pad. *)
Fixpoint pad_sum (h pad : list Z) (n i : nat) : Z :=
  match n with O => 0 | S n => word h i + word pad i + 2 ^ 32 * pad_sum h pad n (i + 1) end.

Lemma word_limb l i : Forall limb l -> limb (word l i).
Proof.
  intros H. unfold word. destruct (l !! i) as [x|] eqn:E; [by eapply Forall_lookup_1|]. unfold limb. simpl. lia.
Qed.

Lemma add_pad_spec n c h pad i : limb c -> (forall j, (j < i + n)%nat -> limb (word h j)) -> Forall limb pad ->
  add_pad c h pad n i = le_bytes (4 * n) (c + pad_sum h pad n i).
Proof.
  unfold limb at 1. revert c i. induction n as [|n IH]; intros c i Hc Hh Hp; [done|]. cbn [add_pad pad_sum].
  pose proof (word_limb pad i Hp) as Hpi. pose proof (Hh i ltac:(lia)) as Hhi. unfold limb in Hpi, Hhi.
  rewrite (wrapu_id 64 (word h i + word pad i)) by lia. rewrite (wrapu_id 64 (c + _)) by lia.
  destruct (split32 (c + (word h i + word pad i)) ltac:(lia)) as (hi & lo & E & Hlo & Hhi' & _ & Es).
  rewrite Es. unfold limb in *. rewrite IH; [|lia|intros j Hj; apply Hh; lia|done].
  replace (4 * S n)%nat with (4 + 4 * n)%nat by lia. rewrite le_bytes_app, store32_le_bytes, E.
  set (rest := pad_sum h pad n (i + 1)).
  replace (c + (word h i + word pad i + 2 ^ 32 * rest)) with (lo + (hi + rest) * 2 ^ 32) by lia.
  change (256 ^ Z.of_nat 4) with (2 ^ 32). rewrite Z.div_add, (Z.div_small lo), Z.add_0_l by lia. f_equal.
  rewrite <- (le_bytes_mod 4 (lo + _)). f_equal. change (256 ^ Z.of_nat 4) with (2 ^ 32). unfold wrapu.
  rewrite Z.mod_add, Z.add_comm, Z.mod_add by lia. done.
Qed.

(** What [final] writes for a hash of the value [h]. *)
Lemma poly_finish_spec h pad : hash_ok h -> Forall limb pad -> length pad = 4%nat ->
  add_pad (final_carry h) h pad 4 0 = le_bytes 16 (limbs h mod prime + limbs pad).
Proof.
  intros Hh Hp Hl. destruct (final_carry_spec h Hh) as (k & Hk & Hc & Hm).
  destruct Hh as (h0 & h1 & h2 & h3 & h4 & -> & Hh0 & Hh1 & Hh2 & Hh3 & Hh4).
  rewrite Hc. rewrite add_pad_spec; [|unfold limb; lia| |done].
  2:{ intros [|[|[|[|j]]]] Hj; try done. lia. }
  destruct pad as [|p0 [|p1 [|p2 [|p3 [|]]]]]; try done.
  cbn [pad_sum word lookup list_lookup default from_option id Nat.add]. rewrite Hm.
  change (4 * 4)%nat with 16%nat. rewrite <- (le_bytes_mod 16), <- (le_bytes_mod 16 (_ - _ + _)). f_equal.
  change (256 ^ Z.of_nat 16) with (2 ^ 128). cbn [limbs]. unfold prime.
  rewrite <- (Z.mod_add _ (h4 - 4 * k) (2 ^ 128)) by lia. f_equal. lia.
Qed.

(** ** Absorbing *)

Lemma absorb_app R a n k m : absorb R a (n + k) m = absorb R (absorb R a n m) k (drop (16 * n) m).
Proof.
  revert a m. induction n as [|n IH]; intros a m; [by rewrite drop_0|]. cbn [Nat.add absorb].
  rewrite IH, drop_drop. by replace (16 * S n)%nat with (16 + 16 * n)%nat by lia.
Qed.

Lemma absorb_prefix R a n m t : (16 * n <= length m)%nat -> absorb R a n (m ++ t) = absorb R a n m.
Proof.
  revert a m. induction n as [|n IH]; intros a m H; [done|]. cbn [absorb].
  rewrite take_app_le by lia. rewrite drop_app_le by lia. apply IH. rewrite length_drop. lia.
Qed.

Lemma absorb_congr R a b n m : a mod prime = b mod prime -> absorb R a n m mod prime = absorb R b n m mod prime.
Proof.
  revert a b m. induction n as [|n IH]; intros a b m H; [done|]. cbn [absorb]. apply IH.
  rewrite !Z.mod_mod by done. rewrite Z.mul_mod, (Z.mul_mod (b + _)), (Z.add_mod a), (Z.add_mod b), H by done. done.
Qed.

Lemma absorb_range R a n m : 0 <= a < prime -> 0 <= absorb R a n m < prime.
Proof. revert a m. induction n as [|n IH]; intros a m H; [done|]. cbn [absorb]. apply IH, prime_range. Qed.

Lemma blocks_loop_spec r h m n : key_ok r -> hash_ok h -> (16 * n <= length m)%nat ->
  hash_ok (blocks_loop r 1 h m n) /\ limbs (blocks_loop r 1 h m n) mod prime = absorb (limbs r) (limbs h) n m mod prime.
Proof.
  intros Hr. revert h m. induction n as [|n IH]; intros h m Hh Hm; [done|]. cbn [blocks_loop absorb].
  destruct (poly_block_spec r 1 h m Hr Hh ltac:(lia)) as [Hok [k Hk]].
  destruct (IH _ (drop 16 m) Hok) as [Hok' Heq]; [rewrite length_drop; lia|]. split; [done|].
  rewrite Heq. apply absorb_congr. rewrite Hk, block_limbs_full by lia. rewrite Z.mod_mod by done.
  rewrite <- (Z.mod_add _ k) by done. f_equal. lia.
Qed.

(** ** The streaming invariant: the context holds the message [m] *)

Section held.
Context (key : bytes) (Hkey : length key = 32%nat).

Record held (ctx : poly_ctx) (m : bytes) (q : nat) : Prop := Held {
  held_r : key_ok (p_r ctx) /\ limbs (p_r ctx) = clamped key;
  held_pad : p_pad ctx = load32_le_buf (drop 16 key) 4;
  held_h : hash_ok (p_h ctx);
  held_c : length (p_c ctx) = 16%nat;
  held_length : length m = (16 * q + p_c_idx ctx)%nat;
  held_idx : (p_c_idx ctx <= 16)%nat;
  held_hash : limbs (p_h ctx) mod prime = absorb (clamped key) 0 q m mod prime;
  held_tail : take (p_c_idx ctx) (p_c ctx) = drop (16 * q) m;
}.

Lemma held_init c : length c = 16%nat -> held (crypto_poly1305_init c key) [] 0.
Proof.
  intros Hc. split; try done; [split; [apply init_key_ok|apply init_clamped; lia]| |simpl; lia].
  exists 0, 0, 0, 0, 0. split_and!; (done || by vm_compute).
Qed.

Lemma held_push ctx m q b : held ctx m q -> (p_c_idx ctx < 16)%nat -> held (push_byte ctx b) (m ++ [b]) q.
Proof.
  intros [Hr Hp Hh Hc Hl Hi Hv Ht] Hlt. split; cbn [push_byte p_r p_pad p_h p_c p_c_idx]; try done.
  - by rewrite length_insert.
  - rewrite length_app, Hl. simpl. lia.
  - lia.
  - rewrite absorb_prefix by lia. done.
  - rewrite drop_app_le, <- Ht by lia. rewrite Nat.add_1_r, (take_S_r _ _ b) by (apply list_lookup_insert_eq; lia).
    by rewrite take_insert_ge by lia.
Qed.

Lemma push_idx bs ctx : p_c_idx (foldl push_byte ctx bs) = (p_c_idx ctx + length bs)%nat.
Proof. revert ctx. induction bs as [|b bs IH]; intros ctx; simpl; [lia|]. rewrite IH. simpl. lia. Qed.

Lemma held_pushes bs ctx m q : held ctx m q -> (p_c_idx ctx + length bs <= 16)%nat -> held (foldl push_byte ctx bs) (m ++ bs) q.
Proof.
  revert ctx m. induction bs as [|b bs IH]; intros ctx m H Hl; simpl in *; [by rewrite app_nil_r|].
  rewrite (cons_middle b m bs), (assoc app). apply IH; [|simpl; lia]. apply held_push; [done|lia].
Qed.

Lemma held_blocks ctx m q msg n : held ctx m q -> p_c_idx ctx = 0%nat -> (16 * n <= length msg)%nat ->
  held (poly_blocks ctx msg n 1) (m ++ take (16 * n) msg) (q + n).
Proof.
  intros [[Hr Hv] Hp Hh Hc Hl Hi Ha Ht] H0 Hn. rewrite H0, Nat.add_0_r in Hl.
  destruct (blocks_loop_spec (p_r ctx) (p_h ctx) msg n Hr Hh Hn) as [Hok Heq].
  split; cbn [poly_blocks p_r p_pad p_h p_c p_c_idx]; try done.
  - rewrite length_app, length_take, H0. lia.
  - rewrite Heq, Hv, absorb_app, absorb_prefix by lia. rewrite <- Hl, drop_app_length.
    rewrite <- (take_drop (16 * n) msg) at 1. rewrite absorb_prefix by (rewrite length_take; lia). by apply absorb_congr.
  - rewrite H0, drop_ge; [done|]. rewrite length_app, length_take. lia.
Qed.

Lemma held_complete ctx m q : held ctx m q -> p_c_idx ctx = 16%nat -> held (set_idx 0 (poly_blocks ctx (p_c ctx) 1 1)) m (q + 1).
Proof.
  intros [[Hr Hv] Hp Hh Hc Hl Hi Ha Ht] H0. rewrite H0 in *.
  destruct (blocks_loop_spec (p_r ctx) (p_h ctx) (p_c ctx) 1 Hr Hh ltac:(lia)) as [Hok Heq].
  split; cbn [set_idx poly_blocks p_r p_pad p_h p_c p_c_idx]; try done; try lia.
  - rewrite Heq, Hv, absorb_app. rewrite <- Ht, take_ge by lia. by apply absorb_congr.
  - rewrite take_0, drop_ge; [done|lia].
Qed.

Lemma gap16 i : (i < 16)%nat -> gap (Z.of_nat i) 16 = if decide (i = 0)%nat then 0 else 16 - Z.of_nat i.
Proof. intros H. do 16 (destruct i as [|i]; [reflexivity|]). lia. Qed.

Lemma held_update ctx m q t : held ctx m q -> (p_c_idx ctx < 16)%nat ->
  exists q', held (crypto_poly1305_update ctx t) (m ++ t) q' /\ (p_c_idx (crypto_poly1305_update ctx t) < 16)%nat.
Proof.
  intros H Hi. destruct t as [|b t']; [exists q; by rewrite app_nil_r|].
  unfold crypto_poly1305_update. set (t := b :: t'). set (al := Nat.min _ _).
  assert (Hal : (p_c_idx ctx + al <= 16)%nat /\ (al <= length t)%nat /\
      (p_c_idx ctx + al = 0 \/ p_c_idx ctx + al = 16 \/ al = length t)%nat).
  { unfold al. rewrite gap16 by done. case_decide; lia. }
  clearbody t al. destruct Hal as (Hal & Hle & Hcase).
  pose proof (held_pushes (take al t) ctx m q H) as H1. rewrite length_take in H1. specialize (H1 ltac:(lia)).
  pose proof (push_idx (take al t) ctx) as Hidx. rewrite length_take, Nat.min_l in Hidx by done.
  set (ctx1 := foldl push_byte ctx (take al t)) in *. clearbody ctx1.
  assert (exists q', let ctx2 := if decide (p_c_idx ctx1 = 16)%nat then set_idx 0 (poly_blocks ctx1 (p_c ctx1) 1 1) else ctx1 in
    held ctx2 (m ++ take al t) q' /\ (p_c_idx ctx2 < 16)%nat /\ (p_c_idx ctx2 = 0 \/ al = length t)%nat) as (q2 & H2).
  { case_decide as D; [exists (q + 1)%nat; split_and!; [by apply held_complete|simpl; lia|by left]|].
    exists q. split_and!; [done|lia|lia]. }
  cbv zeta in H2. destruct H2 as (H2 & Hlt & Hz). set (ctx2 := if decide _ then _ else _) in *. clearbody ctx2.
  set (rest := drop al t) in *. set (n := (length rest / 16)%nat).
  pose proof (Nat.div_mod (length rest) 16 ltac:(lia)) as Hdm. pose proof (Nat.mod_upper_bound (length rest) 16 ltac:(lia)) as Hm.
  fold n in Hdm. set (r := (length rest mod 16)%nat) in *.
  assert (Hrl : length (drop (16 * n) rest) = r) by (rewrite length_drop; lia).
  rewrite push_idx, Hrl. cbn [poly_blocks p_c_idx].
  assert (Hm' : m ++ t = (m ++ take al t) ++ take (16 * n) rest ++ drop (16 * n) rest) by (unfold rest; by rewrite take_drop, <- (assoc app), take_drop).
  rewrite Hm'. destruct Hz as [Hz|Hz].
  - exists (q2 + n)%nat. split; [|lia]. rewrite (assoc app). apply held_pushes; [|cbn [poly_blocks p_c_idx]; lia].
    apply held_blocks; [done..|lia].
  - assert (Hrest : length rest = 0%nat) by (unfold rest; rewrite length_drop; lia).
    assert (n = 0%nat /\ r = 0%nat) as [-> ->] by lia. apply nil_length_inv in Hrest. rewrite Hrest.
    exists q2. simpl. rewrite app_nil_r. split; [by destruct ctx2|lia].
Qed.

Lemma held_updates ctx m q ts : held ctx m q -> (p_c_idx ctx < 16)%nat ->
  exists q', held (foldl crypto_poly1305_update ctx ts) (m ++ concat ts) q' /\
    (p_c_idx (foldl crypto_poly1305_update ctx ts) < 16)%nat.
Proof.
  revert ctx m q. induction ts as [|t ts IH]; intros ctx m q H Hi; simpl; [exists q; by rewrite app_nil_r|].
  destruct (held_update ctx m q t H Hi) as (q' & H' & Hi'). destruct (IH _ _ _ H' Hi') as (q'' & H'' & Hi'').
  exists q''. by rewrite (assoc app).
Qed.

(** The chunk that [final] completes with a one and zeros. *)
Lemma last_chunk c i : length c = 16%nat -> (i < 16)%nat ->
  <[i := x01]> (take i c ++ replicate (16 - i) NUL) = (take i c ++ [x01]) ++ replicate (15 - i) NUL.
Proof.
  intros Hc Hi. rewrite insert_app_r_alt, length_take, Nat.min_l, Nat.sub_diag by (rewrite ?length_take; lia).
  replace (16 - i)%nat with (S (15 - i)) by lia. rewrite <- (assoc app). done.
Qed.

Lemma pad_words : Forall limb (load32_le_buf (drop 16 key) 4) /\ limbs (load32_le_buf (drop 16 key) 4) = le_val (take 16 (drop 16 key)).
Proof. split; [apply load32_le_buf_limb|]. apply (limbs_load (drop 16 key) 4). rewrite length_drop. lia. Qed.

Lemma held_final ctx m q : held ctx m q -> (p_c_idx ctx < 16)%nat -> crypto_poly1305_final ctx = poly1305 key m.
Proof.
  intros [[Hr Hv] Hp Hh Hc Hl Hi Ha Ht] Hlt. destruct pad_words as [Hpl Hpv]. unfold crypto_poly1305_final, poly1305.
  pose proof (absorb_range (clamped key) 0 q m ltac:(done)) as Hrange.
  destruct (decide (p_c_idx ctx = 0)%nat) as [H0|H0].
  - rewrite Hp, poly_finish_spec by done. rewrite Hpv, Ha. rewrite Z.mod_small by done. do 3 f_equal.
    apply Nat.div_unique with 15%nat; lia.
  - rewrite last_chunk by done. cbn [poly_blocks p_h p_r p_pad blocks_loop].
    set (c := (take (p_c_idx ctx) (p_c ctx) ++ [x01]) ++ replicate (15 - p_c_idx ctx) NUL).
    assert (Hcl : length c = 16%nat) by (unfold c; rewrite !length_app, length_take, length_replicate; simpl; lia).
    destruct (poly_block_spec (p_r ctx) 0 (p_h ctx) c Hr Hh ltac:(lia)) as [Hok [k Hk]].
    rewrite Hp, poly_finish_spec by done. rewrite Hpv. do 2 f_equal.
    replace ((length m + 15) / 16)%nat with (q + 1)%nat by (apply Nat.div_unique with (p_c_idx ctx - 1)%nat; lia).
    rewrite absorb_app. cbn [absorb]. rewrite <- Ht, (take_ge (take _ _)) by (rewrite length_take; lia).
    rewrite Hk, block_limbs_last, Hv by done. unfold c. rewrite (le_val_app (take _ _ ++ _)), le_val_zeros, Z.mul_0_r, Z.add_0_r.
    rewrite <- (Z.mod_add _ k) by done. rewrite Z.sub_add. rewrite Z.mul_mod, (Z.mul_mod (absorb _ _ _ _ + _)) by done.
    do 2 f_equal. rewrite Z.add_mod, (Z.add_mod (absorb _ _ _ _)), Ha by done. done.
Qed.
End held.

(** ** Properties *)

(** C11: whatever the pieces a message is fed in, and whatever their sizes,
    the streaming hash returns the polynomial of the message's blocks
    evaluated at the clamped key modulo [2^130 - 5], plus the pad modulo
    [2^128]: no product, sum or carry of the 32- and 64-bit arithmetic is
    lost, and the buffering never drops, repeats or reorders a byte. *)
Theorem poly1305_streams key c pieces : length key = 32%nat -> length c = 16%nat ->
  crypto_poly1305_final (foldl crypto_poly1305_update (crypto_poly1305_init c key) pieces) =
  poly1305 key (concat pieces).
Proof.
  intros Hk Hc. destruct (held_updates key Hk _ [] 0 pieces (held_init key Hk c Hc)) as (q & H & Hi); [simpl; lia|].
  by apply (held_final key Hk _ _ q).
Qed.

Lemma poly1305_streams_witness :
  length (str "0123456789abcdef0123456789ABCDEF") = 32%nat /\
  crypto_poly1305_final (foldl crypto_poly1305_update
    (crypto_poly1305_init (replicate 16 x00) (str "0123456789abcdef0123456789ABCDEF"))
    [str "Cryptographic"; []; str " Forum Research "; str "Group"]) =
  poly1305 (str "0123456789abcdef0123456789ABCDEF") (str "Cryptographic Forum Research Group").
Proof.
  assert (Hk : length (str "0123456789abcdef0123456789ABCDEF") = 32%nat) by reflexivity. split; [done|].
  exact (poly1305_streams _ (replicate 16 x00)
    [str "Cryptographic"; []; str " Forum Research "; str "Group"] Hk eq_refl).
Defined.

(** C38: the limbs stay within the bounds that the comment of [poly_blocks]
    gives as its pre- and postcondition (the first four below [2^32], the
    last at most four), for every clamped key and every block. *)
Theorem poly_blocks_bounds c key ctx inp nb end_ : 0 <= end_ <= 1 ->
  p_r ctx = p_r (crypto_poly1305_init c key) -> hash_ok (p_h ctx) -> hash_ok (p_h (poly_blocks ctx inp nb end_)).
Proof.
  intros Hend Hr Hh. cbn [poly_blocks p_h]. revert inp Hh. generalize (p_h ctx). induction nb as [|nb IH]; intros h inp Hh; [done|].
  cbn [blocks_loop]. apply IH, poly_block_spec; [|done..]. rewrite Hr. apply init_key_ok.
Qed.

Lemma poly_blocks_bounds_witness :
  hash_ok [2 ^ 32 - 1; 2 ^ 32 - 1; 2 ^ 32 - 1; 2 ^ 32 - 1; 4] /\
  hash_ok (p_h (poly_blocks (PolyCtx (replicate 16 xff) 0 (p_r (crypto_poly1305_init (replicate 16 xff) (replicate 32 xff)))
    [] [2 ^ 32 - 1; 2 ^ 32 - 1; 2 ^ 32 - 1; 2 ^ 32 - 1; 4]) (replicate 16 xff) 1 1)).
Proof.
  assert (H : hash_ok [2 ^ 32 - 1; 2 ^ 32 - 1; 2 ^ 32 - 1; 2 ^ 32 - 1; 4]).
  { exists (2 ^ 32 - 1), (2 ^ 32 - 1), (2 ^ 32 - 1), (2 ^ 32 - 1), 4. unfold limb. split_and!; (done || lia). }
  split; [done|]. apply (poly_blocks_bounds (replicate 16 xff) (replicate 32 xff)); [lia|reflexivity|exact H].
Defined.
