(* ===== verification/Aead.v ===== *)
(** * Authenticated encryption ([crypto_aead_*] in [monocypher.c])

    XChaCha20 with Poly1305: the first block of a message's key stream gives
    the key of the authenticator and the next key of the stream, the text is
    encrypted from the second block on. *)
From S2P Require Import Prelude Fmt Mono ChaCha Poly1305.

Open Scope Z_scope.

(** ** The authenticator *)

(** The chunk of a hash context before it is initialised: memory of the
    stack, which the hash never reads ([Poly1305.poly1305_streams]). *)
Definition uninit : bytes := replicate 16 NUL.

Definition lock_auth (auth_key ad cipher_text : bytes) : bytes :=
  let ad_size := Z.of_nat (length ad) in
  let text_size := Z.of_nat (length cipher_text) in
  let sizes := store64_le ad_size ++ store64_le text_size in
  let poly_ctx := crypto_poly1305_init uninit auth_key in
  let poly_ctx := crypto_poly1305_update poly_ctx ad in
  let poly_ctx := crypto_poly1305_update poly_ctx (take (Z.to_nat (gap ad_size 16)) zero) in
  let poly_ctx := crypto_poly1305_update poly_ctx cipher_text in
  let poly_ctx := crypto_poly1305_update poly_ctx (take (Z.to_nat (gap text_size 16)) zero) in
  let poly_ctx := crypto_poly1305_update poly_ctx sizes in
  crypto_poly1305_final poly_ctx.

(** ** Authenticated streams *)

Record aead_ctx := AeadCtx { a_counter : Z; a_key : bytes; a_nonce : bytes }.

Definition crypto_aead_init_x (key nonce : bytes) : aead_ctx :=
  AeadCtx 0 (crypto_chacha20_h key nonce) (take 8 (drop 16 nonce)).

Definition crypto_aead_init_djb (key nonce : bytes) : aead_ctx := AeadCtx 0 (take 32 key) (take 8 nonce).

Definition crypto_aead_init_ietf (key nonce : bytes) : aead_ctx :=
  AeadCtx (u64 (Z.shiftl (load32_le nonce) 32)) (take 32 key) (take 8 (drop 4 nonce)).

(** The next context, the cipher text and the tag. *)
Definition crypto_aead_write (ctx : aead_ctx) (ad plain_text : bytes) : aead_ctx * bytes * bytes :=
  let auth_key := (crypto_chacha20_djb None 64 (a_key ctx) (a_nonce ctx) (a_counter ctx)).1 in
  let cipher_text := (crypto_chacha20_djb (Some plain_text) (length plain_text) (a_key ctx) (a_nonce ctx)
                        (u64 (a_counter ctx + 1))).1 in
  let mac := lock_auth (take 32 auth_key) ad cipher_text in
  (AeadCtx (a_counter ctx) (take 32 (drop 32 auth_key)) (a_nonce ctx), cipher_text, mac).

(** The next context, the result, and what is written to [plain_text]
    ([None]: nothing). *)
Definition crypto_aead_read (ctx : aead_ctx) (mac ad cipher_text : bytes) : aead_ctx * Z * option bytes :=
  let auth_key := (crypto_chacha20_djb None 64 (a_key ctx) (a_nonce ctx) (a_counter ctx)).1 in
  let real_mac := lock_auth (take 32 auth_key) ad cipher_text in
  let mismatch := crypto_verify16 mac real_mac in
  if decide (mismatch = 0) then
    let plain_text := (crypto_chacha20_djb (Some cipher_text) (length cipher_text) (a_key ctx) (a_nonce ctx)
                         (u64 (a_counter ctx + 1))).1 in
    (AeadCtx (a_counter ctx) (take 32 (drop 32 auth_key)) (a_nonce ctx), mismatch, Some plain_text)
  else (ctx, mismatch, None).

Definition crypto_aead_lock (key nonce ad plain_text : bytes) : bytes * bytes :=
  let '(_, cipher_text, mac) := crypto_aead_write (crypto_aead_init_x key nonce) ad plain_text in
  (cipher_text, mac).

Definition crypto_aead_unlock (mac key nonce ad cipher_text : bytes) : Z * option bytes :=
  let '(_, mismatch, plain_text) := crypto_aead_read (crypto_aead_init_x key nonce) mac ad cipher_text in
  (mismatch, plain_text).

(** ** Test vector (the draft of XChaCha20-Poly1305, A.3.1) *)

Example aead_vector :
  let nonce := (fun i => to_byte (64 + Z.of_nat i)) <$> seq 0 24 in
  let key := (fun i => to_byte (128 + Z.of_nat i)) <$> seq 0 32 in
  let ad := [x50; x51; x52; x53; xc0; xc1; xc2; xc3; xc4; xc5; xc6; xc7] in
  (crypto_aead_lock key nonce ad (str "Ladies and Gentlemen of the class of '99: If I could offer you only one tip for the future, sunscreen would be it.")).2
  = [xc0; x87; x59; x24; xc1; xc7; x98; x79; x47; xde; xaf; xd8; x78; x0a; xcf; x49].
Proof. vm_compute. reflexivity. Qed.

(** ** Specification *)

Definition pad16 (s : bytes) : bytes := replicate (Z.to_nat (- Z.of_nat (length s) mod 16)) NUL.

(** The bytes that are authenticated. *)
Definition auth_data (ad ct : bytes) : bytes :=
  ad ++ pad16 ad ++ ct ++ pad16 ct ++ le_bytes 8 (Z.of_nat (length ad)) ++ le_bytes 8 (Z.of_nat (length ct)).

(** The keys a context stands for: of the authenticator, and the next one. *)
Definition block0 (ctx : aead_ctx) : bytes := keystream 1 (a_key ctx) (a_nonce ctx) (a_counter ctx).
Definition text_stream (ctx : aead_ctx) (n : nat) : bytes :=
  keystream (nb_blocks n) (a_key ctx) (a_nonce ctx) (u64 (a_counter ctx + 1)).
Definition next_ctx (ctx : aead_ctx) : aead_ctx := AeadCtx (a_counter ctx) (drop 32 (block0 ctx)) (a_nonce ctx).

Definition tag (ctx : aead_ctx) (ad ct : bytes) : bytes := poly1305 (take 32 (block0 ctx)) (auth_data ad ct).

(** ** Lemmas *)

Lemma take_zero n : (n <= 128)%nat -> take n zero = replicate n NUL.
Proof. intros H. unfold zero. rewrite take_replicate. f_equal. lia. Qed.

Definition size_ok (s : bytes) : Prop := Z.of_nat (length s) < 2 ^ 64.

Lemma gap_zero s : size_ok s -> take (Z.to_nat (gap (Z.of_nat (length s)) 16)) zero = pad16 s.
Proof.
  intros H. unfold size_ok in H. rewrite (gap_spec 4) by lia. change (2 ^ 4) with 16.
  pose proof (Z.mod_pos_bound (- Z.of_nat (length s)) 16 ltac:(lia)). rewrite take_zero by lia. done.
Qed.

Lemma lock_auth_spec key ad ct : length key = 32%nat -> size_ok ad -> size_ok ct ->
  lock_auth key ad ct = poly1305 key (auth_data ad ct).
Proof.
  intros Hk Ha Hc. unfold lock_auth. rewrite !gap_zero, !store64_le_bytes by done.
  destruct (held_updates key Hk (crypto_poly1305_init uninit key) [] 0
    [ad; pad16 ad; ct; pad16 ct; le_bytes 8 (Z.of_nat (length ad)) ++ le_bytes 8 (Z.of_nat (length ct))])
    as (q & H & Hi); [by apply held_init|simpl; lia|].
  cbn [foldl concat app] in H, Hi. rewrite app_nil_r in H. exact (held_final key Hk _ _ q H Hi).
Qed.

Lemma xor_bytes_size s t : (length s <= length t)%nat -> length (xor_bytes s t) = length s.
Proof. rewrite xor_bytes_length. lia. Qed.

Lemma verify16_tag mac t : length mac = 16%nat -> length t = 16%nat ->
  crypto_verify16 mac t = if decide (mac = t) then 0 else -1.
Proof. apply verify16_spec. Qed.

Lemma tag_length ctx ad ct : length (tag ctx ad ct) = 16%nat.
Proof. apply le_bytes_length. Qed.

Lemma block0_length ctx : length (block0 ctx) = 64%nat.
Proof. apply keystream_length. Qed.

Definition ctx_ok (ctx : aead_ctx) : Prop := 0 <= a_counter ctx < 2 ^ 64.

Section context.
Context (ctx : aead_ctx) (Hctx : ctx_ok ctx).

Lemma auth_key_spec : (crypto_chacha20_djb None 64 (a_key ctx) (a_nonce ctx) (a_counter ctx)).1 = block0 ctx.
Proof.
  rewrite djb_spec by done. change (nb_blocks 64) with 1%nat. cbn [fst]. apply take_ge.
  by rewrite block0_length.
Qed.

Lemma text_spec s : (crypto_chacha20_djb (Some s) (length s) (a_key ctx) (a_nonce ctx) (u64 (a_counter ctx + 1))).1 =
  xor_bytes s (text_stream ctx (length s)).
Proof. by rewrite djb_spec by (done || apply u64_range). Qed.

Lemma text_length s : length (xor_bytes s (text_stream ctx (length s))) = length s.
Proof. apply xor_bytes_size, keystream_covers. Qed.

Lemma text_twice s : let t := xor_bytes s (text_stream ctx (length s)) in xor_bytes t (text_stream ctx (length t)) = s.
Proof. cbv zeta. rewrite text_length. apply xor_bytes_cancel, keystream_covers. Qed.

Lemma auth_spec ad ct : size_ok ad -> size_ok ct -> lock_auth (take 32 (block0 ctx)) ad ct = tag ctx ad ct.
Proof. intros Ha Hc. by rewrite lock_auth_spec by (rewrite ?length_take, ?block0_length; done). Qed.

Lemma next_key : take 32 (drop 32 (block0 ctx)) = drop 32 (block0 ctx).
Proof. apply take_ge. rewrite length_drop, block0_length. lia. Qed.

Lemma write_spec ad pt : size_ok ad -> size_ok pt ->
  let ct := xor_bytes pt (text_stream ctx (length pt)) in
  crypto_aead_write ctx ad pt = (next_ctx ctx, ct, tag ctx ad ct).
Proof.
  intros Ha Hp. unfold crypto_aead_write. rewrite auth_key_spec, text_spec, next_key, auth_spec; [done..|].
  unfold size_ok. by rewrite text_length.
Qed.

Lemma read_spec mac ad ct : length mac = 16%nat -> size_ok ad -> size_ok ct ->
  crypto_aead_read ctx mac ad ct =
  if decide (mac = tag ctx ad ct) then (next_ctx ctx, 0, Some (xor_bytes ct (text_stream ctx (length ct))))
  else (ctx, -1, None).
Proof.
  intros Hm Ha Hc. unfold crypto_aead_read. rewrite auth_key_spec, text_spec, next_key, auth_spec by done.
  rewrite verify16_spec by (done || apply tag_length). destruct (decide (mac = _)); done.
Qed.

Lemma read_written ad pt : size_ok ad -> size_ok pt ->
  let '(ctx', ct, mac) := crypto_aead_write ctx ad pt in crypto_aead_read ctx mac ad ct = (ctx', 0, Some pt).
Proof.
  intros Ha Hp. rewrite write_spec by done. cbv zeta.
  rewrite read_spec; [|apply tag_length|done|unfold size_ok; by rewrite text_length].
  rewrite decide_True by done. do 3 f_equal. apply text_twice.
Qed.
End context.

Lemma init_x_ok key nonce : ctx_ok (crypto_aead_init_x key nonce).
Proof. done. Qed.

(** A sequence of messages written, or read, on one context. *)
Fixpoint write_all (ctx : aead_ctx) (ms : list (bytes * bytes)) : aead_ctx * list (bytes * bytes * bytes) :=
  match ms with
  | [] => (ctx, [])
  | (ad, pt) :: ms =>
      let '(ctx, ct, mac) := crypto_aead_write ctx ad pt in
      let '(ctx, out) := write_all ctx ms in (ctx, (ad, ct, mac) :: out)
  end.

Fixpoint read_all (ctx : aead_ctx) (ms : list (bytes * bytes * bytes)) : aead_ctx * list (option bytes) :=
  match ms with
  | [] => (ctx, [])
  | (ad, ct, mac) :: ms =>
      let '(ctx, _, pt) := crypto_aead_read ctx mac ad ct in
      let '(ctx, out) := read_all ctx ms in (ctx, pt :: out)
  end.

Lemma read_written_all ctx ms : ctx_ok ctx -> Forall (fun m => size_ok m.1 /\ size_ok m.2) ms ->
  let '(ctx', out) := write_all ctx ms in read_all ctx out = (ctx', Some ∘ snd <$> ms).
Proof.
  intros Hc Hms. revert ctx Hc. induction Hms as [|[ad pt] ms [Ha Hp] _ IH]; intros ctx Hc; [done|].
  cbn [write_all fst snd] in *. pose proof (read_written ctx Hc ad pt Ha Hp) as Hr.
  pose proof (write_spec ctx Hc ad pt Ha Hp) as Hw. cbv zeta in Hw. rewrite Hw in *.
  specialize (IH (next_ctx ctx) Hc). destruct (write_all (next_ctx ctx) ms) as [ctx' out].
  cbn [read_all]. rewrite Hr, IH. done.
Qed.

Lemma aead_lock_opens key nonce ad pt : size_ok ad -> size_ok pt ->
  let '(ct, mac) := crypto_aead_lock key nonce ad pt in crypto_aead_unlock mac key nonce ad ct = (0, Some pt).
Proof.
  intros Ha Hp. unfold crypto_aead_lock, crypto_aead_unlock. pose proof (read_written _ (init_x_ok key nonce) ad pt Ha Hp) as H.
  destruct (crypto_aead_write _ ad pt) as [[ctx' ct] mac]. by rewrite H.
Qed.

(** The authenticated bytes determine both parts. *)
Lemma auth_data_split ad ct :
  auth_data ad ct = (ad ++ pad16 ad ++ ct ++ pad16 ct) ++ le_bytes 8 (Z.of_nat (length ad)) ++ le_bytes 8 (Z.of_nat (length ct)).
Proof. unfold auth_data. by rewrite <- !(assoc app). Qed.

Lemma size_bytes_inj s t : size_ok s -> size_ok t -> le_bytes 8 (Z.of_nat (length s)) = le_bytes 8 (Z.of_nat (length t)) -> length s = length t.
Proof.
  unfold size_ok. intros Hs Ht E. apply (f_equal le_val) in E. rewrite !le_val_bytes in E.
  change (256 ^ Z.of_nat 8) with (2 ^ 64) in E. rewrite !Z.mod_small in E by lia. lia.
Qed.

Lemma auth_data_inj ad ct ad' ct' : size_ok ad -> size_ok ct -> size_ok ad' -> size_ok ct' ->
  auth_data ad ct = auth_data ad' ct' -> ad = ad' /\ ct = ct'.
Proof.
  intros Ha Hc Ha' Hc'. rewrite !auth_data_split. intros [E1 E2]%app_inj_2; [|by rewrite !length_app, !le_bytes_length].
  apply app_inj_1 in E2 as [Ea Ec]; [|by rewrite !le_bytes_length].
  apply size_bytes_inj in Ea, Ec; [|done..]. apply app_inj_1 in E1 as [-> E1]; [|done]. split; [done|].
  apply app_inj_1 in E1 as [_ E1]; [|done]. by apply app_inj_1 in E1 as [-> _].
Qed.

(** ** Properties *)

(** C20: unlocking is exact.  With the key, nonce and additional data of the
    lock, the cipher text and its tag give back the plain text with the
    result 0; for any other input, the plain text is written if and only if
    the given tag is the Poly1305 of the padded data, the padded cipher text
    and their sizes, under the one-time key of the stream's first block: on
    a mismatch the result is -1 and nothing is written. *)
Theorem aead_unlock_exact key nonce ad pt : size_ok ad -> size_ok pt ->
  (let '(ct, mac) := crypto_aead_lock key nonce ad pt in crypto_aead_unlock mac key nonce ad ct = (0, Some pt)) /\
  forall mac ct, length mac = 16%nat -> size_ok ct ->
    crypto_aead_unlock mac key nonce ad ct =
    if decide (mac = tag (crypto_aead_init_x key nonce) ad ct)
    then (0, Some (xor_bytes ct (text_stream (crypto_aead_init_x key nonce) (length ct)))) else (-1, None).
Proof.
  intros Ha Hp. split.
  - by apply aead_lock_opens.
  - intros mac ct Hm Hc. unfold crypto_aead_unlock. rewrite read_spec by (done || apply init_x_ok).
    by destruct (decide (mac = _)).
Qed.

Lemma aead_unlock_exact_witness :
  size_ok (str "ad") /\ size_ok (str "secret") /\
  crypto_aead_unlock (replicate 16 x00) (replicate 32 x01) (replicate 24 x02) (str "ad") (str "cipher") = (-1, None).
Proof.
  assert (H : size_ok (str "ad") /\ size_ok (str "secret") /\ size_ok (str "cipher")) by (unfold size_ok; by vm_compute).
  destruct H as (H1 & H2 & H3). split_and!; [done..|].
  rewrite (proj2 (aead_unlock_exact (replicate 32 x01) (replicate 24 x02) (str "ad") (str "secret") H1 H2)
    (replicate 16 x00) (str "cipher") eq_refl H3). vm_compute. reflexivity.
Defined.

(** A stream of messages read in the order in which they were written,
    on a context with the same key, gives back every message and leaves both
    ends with the same next key; a message whose tag does not verify leaves
    the reader's context as it was, so that a forgery never puts the reader
    out of step. *)
Theorem aead_stream_in_step ctx ms : ctx_ok ctx -> Forall (fun m => size_ok m.1 /\ size_ok m.2) ms ->
  (let '(ctx', out) := write_all ctx ms in read_all ctx out = (ctx', Some ∘ snd <$> ms)) /\
  (forall mac ad ct, length mac = 16%nat -> size_ok ad -> size_ok ct -> mac <> tag ctx ad ct ->
     crypto_aead_read ctx mac ad ct = (ctx, -1, None)).
Proof.
  intros Hc Hms. split; [by apply read_written_all|]. intros mac ad ct Hm Ha Ht Hne.
  rewrite read_spec by done. by rewrite decide_False.
Qed.

Lemma aead_stream_in_step_witness :
  let ctx := crypto_aead_init_ietf (replicate 32 x01) (replicate 12 x02) in
  let '(ctx', out) := write_all ctx [(str "a", str "one"); ([], str "two")] in
  read_all ctx out = (ctx', [Some (str "one"); Some (str "two")]).
Proof.
  intros ctx. assert (Hc : ctx_ok ctx) by (split; by vm_compute).
  apply (aead_stream_in_step ctx [(str "a", str "one"); ([], str "two")] Hc).
  repeat constructor; unfold size_ok; by vm_compute.
Defined.

(** The authenticated bytes are unambiguous: no two pairs of additional
    data and cipher text are ever authenticated as the same bytes, so that
    moving bytes from one part to the other, or into the padding, changes
    what the tag covers. *)
Theorem auth_data_injective ad ct ad' ct' : size_ok ad -> size_ok ct -> size_ok ad' -> size_ok ct' ->
  (forall key, length key = 32%nat -> lock_auth key ad ct = poly1305 key (auth_data ad ct)) /\
  (auth_data ad ct = auth_data ad' ct' <-> ad = ad' /\ ct = ct').
Proof.
  intros Ha Hc Ha' Hc'. split; [intros key Hk; by apply lock_auth_spec|]. split; [by apply auth_data_inj|].
  by intros [-> ->].
Qed.

Lemma auth_data_injective_witness :
  size_ok (str "a") /\ size_ok (str "bc") /\ size_ok (str "ab") /\ size_ok (str "c") /\
  lock_auth (replicate 32 x07) (str "a") (str "bc") = poly1305 (replicate 32 x07) (auth_data (str "a") (str "bc")).
Proof.
  assert (H : size_ok (str "a") /\ size_ok (str "bc") /\ size_ok (str "ab") /\ size_ok (str "c")) by (unfold size_ok; by vm_compute).
  destruct H as (H1 & H2 & H3 & H4). split_and!; [done..|].
  exact (proj1 (auth_data_injective _ _ _ _ H1 H2 H3 H4) (replicate 32 x07) eq_refl).
Defined.
