(* ===== verification/Blake2b.v ===== *)
(** * BLAKE2b ([crypto_blake2b_*] in [monocypher.c])

    A message is fed in pieces into sixteen 64-bit words, by words where it
    can and by bytes where it must; a full block is compressed only when more
    input follows it. *)
From S2P Require Import Prelude Fmt Mono.

Open Scope Z_scope.

(** ** The context and the compression function *)

Record blake_ctx := BlakeCtx {
  b_hash : list Z;
  b_input_offset : list Z;
  b_input : list Z;
  b_input_idx : nat;
  b_hash_size : nat;
}.

Definition iv : list Z :=
  [0x6a09e667f3bcc908; 0xbb67ae8584caa73b; 0x3c6ef372fe94f82b; 0xa54ff53a5f1d36f1;
   0x510e527fade682d1; 0x9b05688c2b3e6c1f; 0x1f83d9abfb41bd6b; 0x5be0cd19137e2179].

Definition sigma : list (list nat) := [
  [0; 1; 2; 3; 4; 5; 6; 7; 8; 9; 10; 11; 12; 13; 14; 15];
  [14; 10; 4; 8; 9; 15; 13; 6; 1; 12; 0; 2; 11; 7; 5; 3];
  [11; 8; 12; 0; 5; 2; 15; 13; 10; 14; 3; 6; 7; 1; 9; 4];
  [7; 9; 3; 1; 13; 12; 11; 14; 2; 6; 5; 10; 4; 0; 15; 8];
  [9; 0; 5; 7; 2; 4; 10; 15; 14; 1; 11; 12; 6; 8; 3; 13];
  [2; 12; 6; 10; 0; 11; 8; 3; 4; 13; 7; 5; 15; 14; 1; 9];
  [12; 5; 1; 15; 14; 13; 4; 10; 0; 7; 6; 3; 9; 2; 8; 11];
  [13; 11; 7; 14; 12; 1; 3; 9; 5; 0; 15; 4; 8; 6; 2; 10];
  [6; 15; 14; 9; 11; 3; 0; 8; 12; 2; 13; 7; 1; 4; 10; 5];
  [10; 2; 8; 4; 7; 6; 1; 5; 15; 11; 9; 14; 3; 12; 13; 0];
  [0; 1; 2; 3; 4; 5; 6; 7; 8; 9; 10; 11; 12; 13; 14; 15];
  [14; 10; 4; 8; 9; 15; 13; 6; 1; 12; 0; 2; 11; 7; 5; 3]]%nat.

Definition BLAKE2_G (a b c d : nat) (x y : Z) (v : list Z) : list Z :=
  let v := <[a := u64 (word v a + u64 (word v b + x))]> v in
  let v := <[d := rotr64 (Z.lxor (word v d) (word v a)) 32]> v in
  let v := <[c := u64 (word v c + word v d)]> v in
  let v := <[b := rotr64 (Z.lxor (word v b) (word v c)) 24]> v in
  let v := <[a := u64 (word v a + u64 (word v b + y))]> v in
  let v := <[d := rotr64 (Z.lxor (word v d) (word v a)) 16]> v in
  let v := <[c := u64 (word v c + word v d)]> v in
  <[b := rotr64 (Z.lxor (word v b) (word v c)) 63]> v.

Definition BLAKE2_ROUND (input : list Z) (v : list Z) (s : list nat) : list Z :=
  let inp := fun i => word input (default 0%nat (s !! i)) in
  let v := BLAKE2_G 0 4 8 12 (inp 0%nat) (inp 1%nat) v in
  let v := BLAKE2_G 1 5 9 13 (inp 2%nat) (inp 3%nat) v in
  let v := BLAKE2_G 2 6 10 14 (inp 4%nat) (inp 5%nat) v in
  let v := BLAKE2_G 3 7 11 15 (inp 6%nat) (inp 7%nat) v in
  let v := BLAKE2_G 0 5 10 15 (inp 8%nat) (inp 9%nat) v in
  let v := BLAKE2_G 1 6 11 12 (inp 10%nat) (inp 11%nat) v in
  let v := BLAKE2_G 2 7 8 13 (inp 12%nat) (inp 13%nat) v in
  BLAKE2_G 3 4 9 14 (inp 14%nat) (inp 15%nat) v.

(** The work vector mangled and folded into the hash. *)
Definition mangle (hash input : list Z) (x0 x1 is_last_block : Z) : list Z :=
  let v := take 8 hash ++
    [word iv 0; word iv 1; word iv 2; word iv 3; Z.lxor (word iv 4) x0; Z.lxor (word iv 5) x1;
     Z.lxor (word iv 6) (u64 (Z.lnot (is_last_block - 1))); word iv 7] in
  let v := foldl (BLAKE2_ROUND input) v sigma in
  (fun i => Z.lxor (word hash i) (Z.lxor (word v i) (word v (i + 8)))) <$> seq 0 8.

Definition blake2b_compress (ctx : blake_ctx) (is_last_block : Z) : blake_ctx :=
  (* increment input offset *)
  let y := Z.of_nat (b_input_idx ctx) in
  let x0 := u64 (word (b_input_offset ctx) 0 + y) in
  let x1 := if decide (x0 < y) then u64 (word (b_input_offset ctx) 1 + 1) else word (b_input_offset ctx) 1 in
  BlakeCtx (mangle (b_hash ctx) (b_input ctx) x0 x1 is_last_block) [x0; x1] (b_input ctx) (b_input_idx ctx) (b_hash_size ctx).

(** ** Initialisation *)

Definition crypto_blake2b_keyed_init (hash_size : nat) (key : bytes) : blake_ctx :=
  let key_size := Z.of_nat (length key) in
  let hash := alter (fun x => Z.lxor x (Z.lxor (Z.lxor 0x01010000 (u64 (Z.shiftl key_size 8))) (Z.of_nat hash_size))) 0%nat iv in
  if decide (0 < key_size) then
    let key_block := take (length key) key ++ replicate (128 - length key) NUL in
    BlakeCtx hash [0; 0] (load64_le_buf key_block 16) 128 hash_size
  else BlakeCtx hash [0; 0] (replicate 16 0) 0 hash_size.

Definition crypto_blake2b_init (hash_size : nat) : blake_ctx := crypto_blake2b_keyed_init hash_size [].

(** ** Update *)

Definition set_input (input : list Z) (idx : nat) (ctx : blake_ctx) : blake_ctx :=
  BlakeCtx (b_hash ctx) (b_input_offset ctx) input idx (b_hash_size ctx).

(** [ctx->input[word] |= (u64)b << (byte << 3)], [input_idx++]. *)
Definition or_byte (ctx : blake_ctx) (b : byte) : blake_ctx :=
  let w := (b_input_idx ctx / 8)%nat in
  let j := (b_input_idx ctx mod 8)%nat in
  set_input (alter (fun x => Z.lor x (u64 (Z.shiftl (uchar b) (8 * Z.of_nat j)))) w (b_input ctx)) (b_input_idx ctx + 1) ctx.

(** [load64_le_buf(ctx->input + w, message, n)], [idx += n << 3]. *)
Definition load_words (ctx : blake_ctx) (w : nat) (message : bytes) (n : nat) : blake_ctx :=
  set_input (take w (b_input ctx) ++ load64_le_buf message n ++ drop (w + n) (b_input ctx)) (b_input_idx ctx + 8 * n) ctx.

(** The loop that processes block by block. *)
Fixpoint block_loop (n : nat) (ctx : blake_ctx) (message : bytes) : blake_ctx :=
  match n with
  | O => ctx
  | S n =>
      let ctx := if decide (b_input_idx ctx = 128)%nat then blake2b_compress ctx 0 else ctx in
      block_loop n (set_input (load64_le_buf message 16) 128 ctx) (drop 128 message)
  end.

(** The end of [update]: what is left after the whole blocks. *)
Definition fill_rest (ctx : blake_ctx) (message : bytes) : blake_ctx :=
  match message with
  | [] => ctx
  | _ =>
    let ctx := if decide (b_input_idx ctx = 128)%nat then let ctx := blake2b_compress ctx 0 in set_input (b_input ctx) 0 ctx else ctx in
    let ctx := if decide (b_input_idx ctx = 0)%nat then set_input (replicate 16 0) 0 ctx else ctx in
    let nb_words := (length message / 8)%nat in
    let ctx := load_words ctx 0 message nb_words in
    foldl or_byte ctx (drop (8 * nb_words) message)
  end.

(** Its beginning: bytes up to a word boundary, and words up to a block
    boundary. *)
Definition align_word (ctx : blake_ctx) (message : bytes) : blake_ctx * bytes :=
  if decide (b_input_idx ctx mod 8 <> 0)%nat then
    let nb_bytes := Nat.min (Z.to_nat (gap (Z.of_nat (b_input_idx ctx)) 8)) (length message) in
    (foldl or_byte ctx (take nb_bytes message), drop nb_bytes message)
  else (ctx, message).

Definition align_block (ctx : blake_ctx) (message : bytes) : blake_ctx * bytes :=
  if decide (b_input_idx ctx mod 128 <> 0)%nat then
    let nb_words := (Nat.min (Z.to_nat (gap (Z.of_nat (b_input_idx ctx)) 128)) (length message) / 8)%nat in
    (load_words ctx (b_input_idx ctx / 8) message nb_words, drop (8 * nb_words) message)
  else (ctx, message).

Definition crypto_blake2b_update (ctx : blake_ctx) (message : bytes) : blake_ctx :=
  match message with
  | [] => ctx
  | _ =>
    let '(ctx, message) := align_word ctx message in
    let '(ctx, message) := align_block ctx message in
    let nb_blocks := (length message / 128)%nat in
    fill_rest (block_loop nb_blocks ctx message) (drop (128 * nb_blocks) message)
  end.

(** ** Final *)

Definition crypto_blake2b_final (ctx : blake_ctx) : bytes :=
  let ctx := blake2b_compress ctx 1 in
  let hash_size := Nat.min (b_hash_size ctx) 64 in
  let nb_words := (hash_size / 8)%nat in
  store64_le_buf (take nb_words (b_hash ctx)) ++
  ((fun i => to_byte (Z.land (Z.shiftr (word (b_hash ctx) (i / 8)) (8 * Z.of_nat (i mod 8))) 255))
     <$> seq (8 * nb_words) (hash_size - 8 * nb_words)).

Definition crypto_blake2b_keyed (hash_size : nat) (key message : bytes) : bytes :=
  crypto_blake2b_final (crypto_blake2b_update (crypto_blake2b_keyed_init hash_size key) message).

Definition crypto_blake2b (hash_size : nat) (msg : bytes) : bytes := crypto_blake2b_keyed hash_size [] msg.

(** ** Test vector (RFC 7693, appendix A) *)

Example blake2b_vector : take 8 (crypto_blake2b 64 (str "abc")) = [xba; x80; xa5; x3f; x98; x1c; x4d; x0d].
Proof. vm_compute. reflexivity. Qed.

(** ** Specification: one pass over the padded blocks *)

Definition pad128 (s : bytes) : bytes := s ++ replicate (128 - length s) NUL.

(** The compression of one block, [t] bytes having been counted. *)
Definition F (h : list Z) (block : bytes) (t : Z) (is_last : Z) : list Z :=
  mangle h (load64_le_buf block 16) (u64 t) (u64 (Z.shiftr t 64)) is_last.

Fixpoint blocks (n : nat) (h : list Z) (t : Z) (d : bytes) : list Z :=
  match n with
  | O => h
  | S n => blocks n (F h (take 128 d) (t + 128) 0) (t + 128) (drop 128 d)
  end.

(** The data that is hashed: the padded key, if there is one, first. *)
Definition keyed_data (key m : bytes) : bytes := (match key with [] => [] | _ => pad128 key end) ++ m.

Definition blake2b (hash_size : nat) (key m : bytes) : bytes :=
  let d := keyed_data key m in
  let q := ((length d - 1) / 128)%nat in
  let h0 := b_hash (crypto_blake2b_keyed_init hash_size key) in
  let h := blocks q h0 0 d in
  take hash_size (store64_le_buf (F h (pad128 (drop (128 * q) d)) (Z.of_nat (length d)) 1)).

(** ** The buffer as bytes *)

Lemma load64_le_buf_app s t n m : length s = (8 * n)%nat ->
  load64_le_buf (s ++ t) (n + m) = load64_le_buf s n ++ load64_le_buf t m.
Proof.
  intros Hs. unfold load64_le_buf. rewrite seq_app, fmap_app. f_equal.
  - apply list_fmap_ext. intros i j [-> Hj]%lookup_seq. rewrite drop_app_le by lia.
    rewrite !load64_le_val by (rewrite ?length_app, length_drop; lia). rewrite take_app_le by (rewrite length_drop; lia). done.
  - rewrite Nat.add_0_l. rewrite <- (Nat.add_0_r n) at 1. rewrite <- fmap_add_seq, <- list_fmap_compose.
    apply list_fmap_ext. intros i j _. cbn [compose]. f_equal. rewrite drop_app_ge by lia. f_equal. lia.
Qed.

Lemma load64_take s n : (8 * n <= length s)%nat -> load64_le_buf (take (8 * n) s) n = load64_le_buf s n.
Proof.
  intros H. assert (Hl : length (take (8 * n) s) = (8 * n)%nat) by (rewrite length_take; lia).
  pose proof (load64_le_buf_app _ (drop (8 * n) s) n 0 Hl) as E. rewrite take_drop, Nat.add_0_r, app_nil_r in E. done.
Qed.

Lemma load64_zeros n k : (8 * n <= k)%nat -> load64_le_buf (replicate k NUL) n = replicate n 0.
Proof.
  revert k. induction n as [|n IH]; intros k H; [done|].
  replace k with (8 + (k - 8))%nat by lia. rewrite replicate_add. change (S n) with (1 + n)%nat.
  rewrite load64_le_buf_app by done. rewrite IH by lia. done.
Qed.

Definition words (b : bytes) : list Z := load64_le_buf (pad128 b) 16.

Lemma load64_length s n : length (load64_le_buf s n) = n.
Proof. unfold load64_le_buf. by rewrite length_fmap, length_seq. Qed.

Lemma words_nil : words [] = replicate 16 0.
Proof. reflexivity. Qed.

Lemma words_split b w : length b = (8 * w)%nat -> (w <= 16)%nat -> words b = load64_le_buf b w ++ replicate (16 - w) 0.
Proof.
  intros Hb Hw. unfold words, pad128. assert (Hz : (8 * (16 - w) <= 128 - length b)%nat) by lia.
  revert Hz. generalize (128 - length b)%nat. intros k Hz. replace 16%nat with (w + (16 - w))%nat at 1 by lia.
  rewrite load64_le_buf_app by done. f_equal. by apply load64_zeros.
Qed.

(** A block's worth of bytes: only the first 128 count. *)
Lemma words_full s t : length s = 128%nat -> load64_le_buf (s ++ t) 16 = words s.
Proof.
  intros Hs. rewrite (words_split s 16) by lia. rewrite app_nil_r. change 16%nat with (16 + 0)%nat.
  rewrite load64_le_buf_app by lia. by rewrite app_nil_r.
Qed.

(** One word of the buffer, while it is filled byte by byte. *)
Lemma load64_or s x j : length s = j -> (j < 8)%nat ->
  load64_le ((s ++ [x]) ++ replicate (7 - j) NUL) =
  Z.lor (load64_le (s ++ replicate (8 - j) NUL)) (u64 (Z.shiftl (uchar x) (8 * Z.of_nat j))).
Proof.
  intros Hs Hj. pose proof (uchar_range x) as Hx. pose proof (le_val_range s) as Hr. rewrite Hs in Hr.
  assert (E : 256 ^ Z.of_nat j = 2 ^ (8 * Z.of_nat j)) by (change 256 with (2 ^ 8); rewrite <- Z.pow_mul_r by lia; done).
  rewrite !load64_le_val by (rewrite !length_app, ?length_replicate; simpl; lia).
  rewrite !take_ge by (rewrite !length_app, ?length_replicate; simpl; lia).
  rewrite !le_val_app, !le_val_zeros, !Z.mul_0_r, !Z.add_0_r, Hs. cbn [le_val]. rewrite Z.mul_0_r, Z.add_0_r.
  rewrite E in *. rewrite wrapu_id.
  - rewrite lor_add by lia. lia.
  - rewrite Z.shiftl_mul_pow2 by lia. split; [lia|]. apply Z.lt_le_trans with (2 ^ 8 * 2 ^ (8 * Z.of_nat j)).
    + apply Z.mul_lt_mono_pos_r; [apply Z.pow_pos_nonneg; lia|lia].
    + rewrite <- Z.pow_add_r by lia. apply Z.pow_le_mono_r; lia.
Qed.

Lemma words_push (b : bytes) x : (length b < 128)%nat ->
  words (b ++ [x]) = alter (fun y => Z.lor y (u64 (Z.shiftl (uchar x) (8 * Z.of_nat (length b mod 8))))) (length b / 8)%nat (words b).
Proof.
  intros Hb. pose proof (Nat.div_mod (length b) 8 ltac:(lia)) as Hdm. pose proof (Nat.mod_upper_bound (length b) 8 ltac:(lia)) as Hm.
  set (w := (length b / 8)%nat) in *. set (j := (length b mod 8)%nat) in *.
  rewrite <- (take_drop (8 * w) b) at 1 2. set (b1 := take (8 * w) b). set (b2 := drop (8 * w) b).
  assert (H1 : length b1 = (8 * w)%nat) by (unfold b1; rewrite length_take; lia).
  assert (H2 : length b2 = j) by (unfold b2; rewrite length_drop; lia). clearbody b1 b2 w j.
  assert (Hsplit : forall s, length s = 8%nat -> words (b1 ++ s) = load64_le_buf b1 w ++ load64_le s :: replicate (15 - w) 0).
  { intros s Hs. rewrite (words_split _ (w + 1)) by (rewrite ?length_app; lia). rewrite load64_le_buf_app by done.
    rewrite <- (assoc app). cbn [app]. f_equal. replace (16 - (w + 1))%nat with (15 - w)%nat by lia.
    unfold load64_le_buf. cbn [seq fmap list_fmap app]. by rewrite drop_0. }
  assert (Hpad : forall s, (length s <= 8)%nat -> words (b1 ++ s) = words (b1 ++ s ++ replicate (8 - length s) NUL)).
  { intros s Hs. unfold words, pad128. f_equal. rewrite <- !(assoc app). do 2 f_equal.
    rewrite !length_app, length_replicate, <- replicate_add. f_equal. lia. }
  rewrite <- (assoc app), (Hpad (b2 ++ [x])), (Hpad b2) by (rewrite ?length_app; simpl; lia).
  rewrite !Hsplit by (rewrite !length_app, length_replicate; simpl; lia).
  assert (Hw : length (load64_le_buf b1 w) = w) by apply load64_length.
  rewrite alter_app_r_alt, Hw, Nat.sub_diag by lia. f_equal. cbn [alter list_alter]. f_equal.
  rewrite length_app, H2. cbn [length]. replace (8 - (j + 1))%nat with (7 - j)%nat by lia. apply load64_or; [done|lia].
Qed.

Lemma words_load (b m : bytes) n : (length b mod 8 = 0)%nat -> (length b + 8 * n <= 128)%nat -> (8 * n <= length m)%nat ->
  words (b ++ take (8 * n) m) =
  take (length b / 8) (words b) ++ load64_le_buf m n ++ drop (length b / 8 + n) (words b).
Proof.
  intros Hb Hl Hm. pose proof (Nat.div_mod (length b) 8 ltac:(lia)) as Hdm. set (w := (length b / 8)%nat) in *.
  assert (Hw : length b = (8 * w)%nat) by lia. clearbody w.
  rewrite (words_split (b ++ _) (w + n)), (words_split b w) by (rewrite ?length_app, ?length_take; lia).
  rewrite load64_le_buf_app by done. rewrite <- (assoc app).
  rewrite take_app_length' by (by rewrite load64_length). f_equal.
  rewrite drop_app_ge by (rewrite load64_length; lia). rewrite load64_length.
  replace (w + n - w)%nat with n by lia. rewrite drop_replicate. f_equal; [|f_equal; lia].
  by apply load64_take.
Qed.

(** ** The streaming invariant *)

Lemma blocks_snoc n h t d : blocks (S n) h t d = F (blocks n h t d) (take 128 (drop (128 * n) d)) (t + 128 * Z.of_nat (S n)) 0.
Proof.
  revert h t d. induction n as [|n IH]; intros h t d.
  - cbn [blocks]. rewrite Nat.mul_0_r, drop_0. change (128 * Z.of_nat 1) with 128. exact eq_refl.
  - change (blocks (S (S n)) h t d) with (blocks (S n) (F h (take 128 d) (t + 128) 0) (t + 128) (drop 128 d)).
    rewrite IH. cbn [blocks]. rewrite drop_drop. replace (128 * S n)%nat with (128 + 128 * n)%nat by lia.
    replace (t + 128 * Z.of_nat (S (S n))) with (t + 128 + 128 * Z.of_nat (S n)) by lia. exact eq_refl.
Qed.

Lemma blocks_prefix n h t d e : (128 * n <= length d)%nat -> blocks n h t (d ++ e) = blocks n h t d.
Proof.
  revert h t d. induction n as [|n IH]; intros h t d H; [done|]. cbn [blocks].
  rewrite take_app_le, drop_app_le by lia. apply IH. rewrite length_drop. lia.
Qed.

(** The 128-bit count of the bytes, in two words. *)
Definition count (t : Z) : list Z := [u64 t; u64 (Z.shiftr t 64)].

Lemma count_add t y : 0 <= t -> 0 <= y < 2 ^ 64 ->
  let x0 := u64 (word (count t) 0 + y) in
  [x0; if decide (x0 < y) then u64 (word (count t) 1 + 1) else word (count t) 1] = count (t + y).
Proof.
  intros Ht Hy. unfold count. cbn [word lookup list_lookup default from_option id]. rewrite !Z.shiftr_div_pow2 by lia.
  assert (E0 : u64 (u64 t + y) = u64 (t + y)) by (unfold wrapu; by rewrite Z.add_mod_idemp_l by lia). rewrite E0.
  f_equal. unfold wrapu. pose proof (Z.div_mod t (2 ^ 64) ltac:(lia)) as D. pose proof (Z.mod_pos_bound t (2 ^ 64) ltac:(lia)) as B.
  set (q := t / 2 ^ 64) in *. set (r := t mod 2 ^ 64) in *. replace (t + y) with (r + y + q * 2 ^ 64) by lia.
  rewrite Z.mod_add, Z.div_add by lia. destruct (decide (r + y < 2 ^ 64)) as [C|C].
  - rewrite Z.mod_small, Z.div_small by lia. by rewrite decide_False by lia.
  - replace (r + y) with (r + y - 2 ^ 64 + 1 * 2 ^ 64) by lia. rewrite Z.mod_add, Z.div_add by lia.
    rewrite (Z.mod_small (r + y - 2 ^ 64)), (Z.div_small (r + y - 2 ^ 64)) by lia. rewrite decide_True by lia.
    rewrite Z.add_mod_idemp_l by lia. f_equal. f_equal. lia.
Qed.

Section fed.
Context (h0 : list Z) (hash_size : nat).

(** The context has been fed [d]: [pre] is compressed, [b] is in the buffer. *)
Record fed (ctx : blake_ctx) (pre b : bytes) : Prop := Fed {
  fed_pre : exists q, length pre = (128 * q)%nat /\ b_hash ctx = blocks q h0 0 pre;
  fed_count : b_input_offset ctx = count (Z.of_nat (length pre));
  fed_words : b_input ctx = words b;
  fed_idx : b_input_idx ctx = length b;
  fed_length : (length b <= 128)%nat;
  fed_size : b_hash_size ctx = hash_size;
}.

Lemma compress_hash ctx pre b last : fed ctx pre b ->
  b_hash (blake2b_compress ctx last) = F (b_hash ctx) (pad128 b) (Z.of_nat (length pre + length b)) last /\
  b_input_offset (blake2b_compress ctx last) = count (Z.of_nat (length pre + length b)).
Proof.
  intros [_ Hc Hw Hi Hl _]. unfold blake2b_compress. rewrite Hi, Hw, Hc.
  pose proof (count_add (Z.of_nat (length pre)) (Z.of_nat (length b)) ltac:(lia) ltac:(lia)) as E. cbv zeta in E |- *.
  rewrite <- Nat2Z.inj_add in E. cbn [b_hash b_input_offset]. rewrite E. split; [|done].
  injection E as E1 E2. rewrite E2, E1. exact eq_refl.
Qed.

(** Compressing a full block, when more input follows. *)
Lemma fed_compress ctx pre b s idx : fed ctx pre b -> length b = 128%nat -> (length s <= 128)%nat -> idx = length s ->
  fed (set_input (words s) idx (blake2b_compress ctx 0)) (pre ++ b) s.
Proof.
  intros H Hb Hl ->. destruct (compress_hash ctx pre b 0 H) as [Eh Ec]. destruct H as [(q & Hq & Hh) Hc Hw Hi _ Hz].
  constructor; cbn [set_input b_hash b_input_offset b_input b_input_idx b_hash_size].
  - exists (S q). rewrite length_app. split; [lia|]. rewrite Eh, blocks_snoc, blocks_prefix, <- Hq, drop_app_length by lia. rewrite Hh.
    unfold pad128. rewrite Hb, Nat.sub_diag, app_nil_r, (take_ge b) by lia.
    replace (Z.of_nat (length pre + 128)) with (0 + 128 * Z.of_nat (S q)) by lia. exact eq_refl.
  - by rewrite Ec, length_app.
  - exact eq_refl.
  - exact eq_refl.
  - exact Hl.
  - exact Hz.
Qed.

Lemma fed_bytes ctx pre b s : fed ctx pre b -> (length b + length s <= 128)%nat ->
  fed (foldl or_byte ctx s) pre (b ++ s).
Proof.
  revert ctx b. induction s as [|x s IH]; intros ctx b H Hl; [by rewrite app_nil_r|]. cbn [foldl length] in *.
  rewrite (cons_middle x b s), (assoc app). apply IH; [|rewrite length_app; simpl; lia].
  destruct H as [Hp Hc Hw Hi Hb Hz]. unfold or_byte.
  split; cbn [set_input b_hash b_input_offset b_input b_input_idx b_hash_size]; try done.
  - by rewrite words_push, Hw, Hi by lia.
  - by rewrite length_app, Hi.
  - rewrite length_app. simpl. lia.
Qed.

Lemma fed_words_load ctx pre b m n : fed ctx pre b -> (length b mod 8 = 0)%nat -> (length b + 8 * n <= 128)%nat ->
  (8 * n <= length m)%nat -> fed (load_words ctx (length b / 8) m n) pre (b ++ take (8 * n) m).
Proof.
  intros [Hp Hc Hw Hi Hb Hz] H8 Hl Hm. unfold load_words.
  split; cbn [set_input b_hash b_input_offset b_input b_input_idx b_hash_size]; try done.
  - by rewrite Hw, words_load by done.
  - rewrite length_app, length_take, Hi. lia.
  - rewrite length_app, length_take. lia.
Qed.

Lemma load_none ctx w m : load_words ctx w m 0 = ctx.
Proof.
  unfold load_words, set_input. change (load64_le_buf m 0) with (@nil Z). rewrite app_nil_l, !Nat.add_0_r, take_drop.
  by destruct ctx.
Qed.

(** The buffer is empty only at the very beginning. *)
Definition lazy (pre b : bytes) : Prop := b = [] -> pre = [].

(** Whole blocks. *)
Lemma fed_blocks n ctx pre b m : fed ctx pre b -> lazy pre b -> length b = 128%nat \/ b = [] -> (128 * n <= length m)%nat ->
  exists pre' b', fed (block_loop n ctx m) pre' b' /\ lazy pre' b' /\ pre' ++ b' = pre ++ b ++ take (128 * n) m /\
    (length b' = 128%nat \/ b' = []).
Proof.
  revert ctx pre b m. induction n as [|n IH]; intros ctx pre b m H Hz Hb Hm; [exists pre, b; by rewrite !app_nil_r|].
  set (s := take 128 m). assert (Hs : length s = 128%nat) by (unfold s; rewrite length_take; lia).
  assert (Hw : load64_le_buf m 16 = words s) by (rewrite <- (take_drop 128 m); by apply words_full).
  assert (Hstep : fed (set_input (load64_le_buf m 16) 128 (if decide (b_input_idx ctx = 128%nat) then blake2b_compress ctx 0 else ctx)) (pre ++ b) s).
  { rewrite Hw, (fed_idx _ _ _ H). destruct Hb as [Hb| ->].
    - rewrite decide_True by done. apply fed_compress; (done || lia).
    - rewrite decide_False by done. rewrite (Hz eq_refl) in *. destruct H as [Hp Hc _ _ _ Hsz].
      constructor; cbn [set_input b_hash b_input_offset b_input b_input_idx b_hash_size app]; [done|done|exact eq_refl|done|lia|done]. }
  cbn [block_loop]. destruct (IH _ _ _ (drop 128 m) Hstep) as (pre' & b' & H1 & H2 & H3 & H4).
  { intros E. by rewrite E in Hs. }
  { by left. }
  { rewrite length_drop. lia. }
  exists pre', b'. split_and!; [done|done| |done]. rewrite H3, <- (assoc app). do 2 f_equal.
  replace (128 * S n)%nat with (128 + 128 * n)%nat by lia. by rewrite <- take_take_drop.
Qed.

(** What is left after them. *)
Lemma fed_rest ctx pre b m : fed ctx pre b -> lazy pre b -> (length m < 128)%nat ->
  length b = 128%nat \/ b = [] \/ (length b mod 8 = 0 /\ length m < 8 /\ length b + length m <= 128)%nat \/ m = [] ->
  exists pre' b', fed (fill_rest ctx m) pre' b' /\ lazy pre' b' /\ pre' ++ b' = pre ++ b ++ m.
Proof.
  intros H Hz Hm Hcase. destruct m as [|x m']; [exists pre, b; by rewrite app_nil_r|].
  unfold fill_rest. set (m := x :: m') in *. assert (Hne : m <> []) by done. clearbody m.
  pose proof (Nat.div_mod (length m) 8 ltac:(lia)) as Hdm. set (n := (length m / 8)%nat) in *.
  assert (Hfill : forall ctx pre b, fed ctx pre b -> (length b mod 8 = 0)%nat -> (length b + length m <= 128)%nat -> (length b = 0 \/ n = 0)%nat ->
    fed (foldl or_byte (load_words ctx 0 m n) (drop (8 * n) m)) pre (b ++ m)).
  { intros ctx1 pre1 b1 H1 H8 Hl1 H0. rewrite <- (take_drop (8 * n) m) at 3. rewrite (assoc app).
    apply fed_bytes; [|rewrite length_app, length_take, length_drop; lia]. destruct H0 as [H0|H0].
    - apply nil_length_inv in H0 as ->. apply (fed_words_load _ _ []); (done || simpl; lia).
    - rewrite H0, load_none. by rewrite app_nil_r. }
  rewrite (fed_idx _ _ _ H). destruct (decide (length b = 128)%nat) as [Hb|Hb].
  - rewrite decide_True by done. exists (pre ++ b), m. split_and!; [|by intros ->|by rewrite (assoc app)].
    assert (He : fed (set_input (words []) 0 (blake2b_compress ctx 0)) (pre ++ b) []) by (apply fed_compress; (done || simpl; lia)).
    refine (Hfill _ _ _ He _ _ _); (done || simpl; lia).
  - rewrite (fed_idx _ _ _ H). exists pre, (b ++ m). split_and!; [|intros E; by destruct b|done].
    destruct (decide (length b = 0)%nat) as [H0|H0].
    + apply nil_length_inv in H0 as ->. assert (He : fed (set_input (replicate 16 0) 0 ctx) pre []).
      { rewrite (Hz eq_refl) in *. destruct H as [Hp Hc _ _ _ Hsz]. constructor; [done..|exact eq_refl|done|simpl; lia|done]. }
      refine (Hfill _ _ _ He _ _ _); (done || simpl; lia).
    + destruct Hcase as [?|[->|[(H8 & Hlt & Hle)|?]]]; [done|done| |done].
      apply Hfill; [done|done|lia|right; unfold n; by apply Nat.div_small].
Qed.

(** The ways in which a piece can meet the boundaries. *)
Definition at_block (b m : bytes) : Prop :=
  length b = 128%nat \/ b = [] \/ (length b mod 8 = 0 /\ length m < 8 /\ length b + length m <= 128)%nat \/ m = [].

Lemma fed_word ctx pre b m : fed ctx pre b -> lazy pre b ->
  exists ctx1 b1 m1, align_word ctx m = (ctx1, m1) /\ fed ctx1 pre b1 /\ lazy pre b1 /\ b1 ++ m1 = b ++ m /\
    (length b1 mod 8 = 0 \/ m1 = [])%nat.
Proof.
  intros H Hz. pose proof (fed_length _ _ _ H) as Hb. unfold align_word. rewrite (fed_idx _ _ _ H).
  destruct (decide _) as [D|D]; [|exists ctx, b, m; split_and!; (done || lia)].
  rewrite (gap_nat 3 8) by (done || lia). change (Z.to_nat 8) with 8%nat.
  pose proof (Nat.div_mod (length b) 8 ltac:(lia)) as Hdm. pose proof (Nat.mod_upper_bound (length b) 8 ltac:(lia)) as Hmm.
  set (nb := Nat.min _ _). exists (foldl or_byte ctx (take nb m)), (b ++ take nb m), (drop nb m). split; [done|].
  split_and!; [apply fed_bytes; [done|rewrite length_take; lia]|intros E; by destruct b|by rewrite <- (assoc app), take_drop|].
  destruct (decide (8 - length b mod 8 <= length m)%nat) as [C|C].
  - left. rewrite length_app, length_take. replace (length b + _)%nat with ((length b / 8 + 1) * 8)%nat by lia. apply Nat.Div0.mod_mul.
  - right. apply nil_length_inv. rewrite length_drop. lia.
Qed.

Lemma fed_block ctx1 pre b1 m1 : fed ctx1 pre b1 -> lazy pre b1 -> (length b1 mod 8 = 0 \/ m1 = [])%nat ->
  exists ctx2 b2 m2, align_block ctx1 m1 = (ctx2, m2) /\ fed ctx2 pre b2 /\ lazy pre b2 /\ b2 ++ m2 = b1 ++ m1 /\ at_block b2 m2.
Proof.
  intros H1 Hz1 C1. pose proof (fed_length _ _ _ H1) as Hb1. unfold align_block, at_block. rewrite (fed_idx _ _ _ H1).
  pose proof (Nat.div_mod (length b1) 128 ltac:(lia)) as Hdm.
  destruct (decide _) as [D|D].
  2:{ exists ctx1, b1, m1. split_and!; try done. destruct (decide (length b1 = 0)%nat); [right; left; by apply nil_length_inv|left; lia]. }
  rewrite (gap_nat 7 128) by (done || lia). change (Z.to_nat 128) with 128%nat.
  assert (Hlt : (length b1 < 128)%nat) by (destruct (decide (length b1 = 128)%nat) as [E|]; [by rewrite E in D|lia]).
  rewrite (Nat.mod_small (length b1) 128) in * by done.
  destruct C1 as [C1| ->].
  2:{ rewrite Nat.min_0_r. change (0 / 8)%nat with 0%nat. rewrite load_none. exists ctx1, b1, []. split_and!; try done. by do 3 right. }
  set (t := Nat.min _ _). pose proof (Nat.div_mod t 8 ltac:(lia)) as Ht. pose proof (Nat.mod_upper_bound t 8 ltac:(lia)) as Htm.
  pose proof (Nat.div_mod (length b1) 8 ltac:(lia)) as Hb8.
  set (n := (t / 8)%nat) in *. exists (load_words ctx1 (length b1 / 8) m1 n), (b1 ++ take (8 * n) m1), (drop (8 * n) m1).
  split; [done|]. split_and!; [apply fed_words_load; (done || lia)|intros E; by destruct b1|by rewrite <- (assoc app), take_drop|].
  assert (Hl : length (b1 ++ take (8 * n) m1) = (length b1 + 8 * n)%nat) by (rewrite length_app, length_take; lia). rewrite Hl.
  destruct (decide (length m1 < 128 - length b1)%nat) as [C|C].
  - right; right; left. rewrite length_drop. split_and!; [|lia|lia]. rewrite (Nat.mul_comm 8), Nat.Div0.mod_add. done.
  - left. assert (t = 128 - length b1)%nat by lia. lia.
Qed.

Lemma fed_update ctx pre b m : fed ctx pre b -> lazy pre b ->
  exists pre' b', fed (crypto_blake2b_update ctx m) pre' b' /\ lazy pre' b' /\ pre' ++ b' = pre ++ b ++ m.
Proof.
  intros H Hz. destruct m as [|x m']; [exists pre, b; by rewrite app_nil_r|].
  unfold crypto_blake2b_update. generalize (x :: m'). clear x m'. intros m.
  destruct (fed_word ctx pre b m H Hz) as (ctx1 & b1 & m1 & -> & H1 & Hz1 & E1 & C1).
  destruct (fed_block ctx1 pre b1 m1 H1 Hz1 C1) as (ctx2 & b2 & m2 & -> & H2 & Hz2 & E2 & C2). unfold at_block in C2.
  pose proof (Nat.div_mod (length m2) 128 ltac:(lia)) as Hdm. pose proof (Nat.mod_upper_bound (length m2) 128 ltac:(lia)) as Hmm.
  set (n := (length m2 / 128)%nat) in *.
  assert (H3 : exists pre3 b3, fed (block_loop n ctx2 m2) pre3 b3 /\ lazy pre3 b3 /\ pre3 ++ b3 = pre ++ b2 ++ take (128 * n) m2 /\
      at_block b3 (drop (128 * n) m2)).
  { destruct (decide (n = 0)%nat) as [Hn|Hn].
    - rewrite Hn, Nat.mul_0_r, drop_0, take_0, app_nil_r. exists pre, b2. done.
    - destruct (fed_blocks n ctx2 pre b2 m2 H2 Hz2) as (pre3 & b3 & H3 & Hz3 & E3 & C3); [|lia|].
      + destruct C2 as [?|[?|[(_ & ? & _)|?]]]; [by left|by right|lia|subst m2; simpl in *; lia].
      + exists pre3, b3. split_and!; try done. unfold at_block. destruct C3; auto. }
  destruct H3 as (pre3 & b3 & H3 & Hz3 & E3 & C3).
  destruct (fed_rest _ pre3 b3 (drop (128 * n) m2) H3 Hz3) as (pre4 & b4 & H4 & Hz4 & E4); [rewrite length_drop; lia|done|].
  exists pre4, b4. split_and!; [done|done|]. rewrite E4, (assoc app), E3, <- !(assoc app), take_drop. by rewrite E2, E1.
Qed.

Lemma fed_updates ctx pre b ms : fed ctx pre b -> lazy pre b ->
  exists pre' b', fed (foldl crypto_blake2b_update ctx ms) pre' b' /\ lazy pre' b' /\ pre' ++ b' = pre ++ b ++ concat ms.
Proof.
  revert ctx pre b. induction ms as [|m ms IH]; intros ctx pre b H Hz; [exists pre, b; by rewrite app_nil_r|]. cbn [foldl concat].
  destruct (fed_update ctx pre b m H Hz) as (pre1 & b1 & H1 & Hz1 & E1). destruct (IH _ _ _ H1 Hz1) as (pre2 & b2 & H2 & Hz2 & E2).
  exists pre2, b2. split_and!; [done|done|]. by rewrite E2, (assoc app pre1), E1, <- !(assoc app).
Qed.
End fed.

(** ** The output *)

Lemma le_bytes_lookup n z j : (j < n)%nat -> le_bytes n z !! j = Some (to_byte (z / 256 ^ Z.of_nat j)).
Proof.
  revert n z. induction j as [|j IH]; intros [|n] z H; try lia; cbn [le_bytes lookup list_lookup].
  - by rewrite Z.div_1_r.
  - change (list_lookup j (le_bytes n (z / 256))) with (le_bytes n (z / 256) !! j). rewrite IH by lia.
    rewrite Nat2Z.inj_succ, Z.pow_succ_r, Z.div_div by lia. done.
Qed.

Lemma store64_length h : length (store64_le_buf h) = (8 * length h)%nat.
Proof.
  unfold store64_le_buf. induction h as [|x h IH]; [done|]. cbn [fmap list_fmap concat length].
  rewrite length_app, IH, store64_le_bytes, le_bytes_length. lia.
Qed.

Lemma store64_app h k : store64_le_buf (h ++ k) = store64_le_buf h ++ store64_le_buf k.
Proof. unfold store64_le_buf. by rewrite fmap_app, concat_app. Qed.

Lemma store64_lookup h i : (i < 8 * length h)%nat ->
  store64_le_buf h !! i = Some (to_byte (Z.land (Z.shiftr (word h (i / 8)) (8 * Z.of_nat (i mod 8))) 255)).
Proof.
  intros Hi. pose proof (Nat.div_mod i 8 ltac:(lia)) as Hdm. pose proof (Nat.mod_upper_bound i 8 ltac:(lia)) as Hm.
  set (w := (i / 8)%nat) in *. set (j := (i mod 8)%nat) in *. destruct (lookup_lt_is_Some_2 h w) as [x Hx]; [lia|].
  assert (Hw : word h w = x) by (unfold word; by rewrite Hx). rewrite Hw, to_byte_land.
  rewrite <- (take_drop_middle h w x Hx), store64_app. pose proof (lookup_lt_Some _ _ _ Hx) as Hl.
  rewrite lookup_app_r by (rewrite store64_length, length_take; lia). rewrite store64_length, length_take.
  replace (i - 8 * (w `min` length h))%nat with j by lia. change (x :: drop (S w) h) with ([x] ++ drop (S w) h).
  rewrite store64_app. rewrite lookup_app_l by (rewrite store64_length; simpl; lia).
  unfold store64_le_buf. cbn [fmap list_fmap concat]. rewrite app_nil_r, store64_le_bytes, le_bytes_lookup by lia.
  rewrite Z.shiftr_div_pow2, Z.pow_mul_r by lia. done.
Qed.

Lemma output_spec h n : length h = 8%nat ->
  store64_le_buf (take (Nat.min n 64 / 8) h) ++
    ((fun i => to_byte (Z.land (Z.shiftr (word h (i / 8)) (8 * Z.of_nat (i mod 8))) 255))
       <$> seq (8 * (Nat.min n 64 / 8)) (Nat.min n 64 - 8 * (Nat.min n 64 / 8))) =
  take n (store64_le_buf h).
Proof.
  intros Hh. assert (Hl : length (store64_le_buf h) = 64%nat) by (rewrite store64_length, Hh; done).
  assert (Hn : take n (store64_le_buf h) = take (Nat.min n 64) (store64_le_buf h)).
  { destruct (decide (n <= 64)%nat); [by rewrite Nat.min_l|]. rewrite Nat.min_r by lia. rewrite !take_ge by lia. done. }
  rewrite Hn. set (m := Nat.min n 64). assert (Hm : (m <= 64)%nat) by (unfold m; lia). clearbody m. clear n Hn.
  pose proof (Nat.div_mod m 8 ltac:(lia)) as Hdm. pose proof (Nat.mod_upper_bound m 8 ltac:(lia)) as Hmm. set (w := (m / 8)%nat) in *.
  assert (Hw : store64_le_buf (take w h) = take (8 * w) (store64_le_buf h)).
  { rewrite <- (take_drop w h) at 2. rewrite store64_app, take_app_length'; [done|]. rewrite store64_length, length_take. lia. }
  rewrite Hw. apply list_eq. intros i. destruct (decide (i < 8 * w)%nat) as [C|C].
  - rewrite lookup_app_l by (rewrite length_take; lia). by rewrite !lookup_take_lt by lia.
  - rewrite lookup_app_r, length_take, Nat.min_l by (rewrite ?length_take; lia). rewrite list_lookup_fmap.
    destruct (decide (i < m)%nat) as [D|D].
    + rewrite lookup_seq_lt by lia. rewrite lookup_take_lt, store64_lookup by lia. cbn [fmap option_fmap option_map].
      do 2 f_equal. do 2 f_equal; [do 2 f_equal; lia|]. do 2 f_equal. f_equal. lia.
    + rewrite (lookup_take_ge _ m) by lia. rewrite lookup_seq_ge by lia. done.
Qed.

Lemma fed_final hash_size key ctx pre b : fed (b_hash (crypto_blake2b_keyed_init hash_size key)) hash_size ctx pre b -> lazy pre b ->
  forall m, pre ++ b = keyed_data key m -> crypto_blake2b_final ctx = blake2b hash_size key m.
Proof.
  intros H Hz m Hm. destruct (compress_hash _ _ ctx pre b 1 H) as [Eh _]. destruct H as [(q & Hq & Hh) Hc Hw Hi Hb Hs].
  assert (Hlen : length (b_hash (blake2b_compress ctx 1)) = 8%nat) by (rewrite Eh; exact eq_refl).
  unfold crypto_blake2b_final. cbv zeta. assert (Hs' : b_hash_size (blake2b_compress ctx 1) = hash_size) by exact Hs.
  rewrite Hs', output_spec by exact Hlen. unfold blake2b. rewrite <- Hm, Eh, Hh, length_app.
  assert (Hq' : ((length pre + length b - 1) / 128)%nat = q).
  { destruct (decide (b = [])) as [E|E].
    - pose proof (Hz E) as E'. rewrite E, E' in *. cbn [length] in *. change ((0 + 0 - 1) / 128)%nat with 0%nat. lia.
    - assert (0 < length b)%nat by (clear -E; destruct b; [congruence|simpl; lia]). rewrite Hq. symmetry.
      apply Nat.div_unique with (length b - 1)%nat; lia. }
  rewrite Hq', blocks_prefix, <- Hq, drop_app_length by lia. exact eq_refl.
Qed.

Lemma fed_init hash_size key : (length key <= 128)%nat ->
  exists b, fed (b_hash (crypto_blake2b_keyed_init hash_size key)) hash_size (crypto_blake2b_keyed_init hash_size key) [] b /\
    forall m, b ++ m = keyed_data key m.
Proof.
  intros Hk. unfold keyed_data, crypto_blake2b_keyed_init. destruct key as [|x key'].
  - exists []. split; [|done]. constructor; [by exists 0%nat|exact eq_refl|exact eq_refl|done|simpl; lia|done].
  - set (key := x :: key') in *. assert (Hp : 0 < Z.of_nat (length key)) by (simpl; lia). rewrite decide_True by done.
    clearbody key. exists (pad128 key). assert (Hl : length (pad128 key) = 128%nat) by (unfold pad128; rewrite length_app, length_replicate; lia).
    split; [|done]. constructor; cbn [b_hash b_input_offset b_input b_input_idx b_hash_size].
    + by exists 0%nat.
    + exact eq_refl.
    + rewrite (take_ge key) by lia. rewrite <- (words_full (pad128 key) []) by done. by rewrite app_nil_r.
    + by rewrite Hl.
    + lia.
    + done.
Qed.

Lemma blake2b_fed hash_size key pieces : (length key <= 128)%nat ->
  crypto_blake2b_final (foldl crypto_blake2b_update (crypto_blake2b_keyed_init hash_size key) pieces) =
  blake2b hash_size key (concat pieces).
Proof.
  intros Hk. destruct (fed_init hash_size key Hk) as (b & H & Hb).
  assert (Hz : lazy [] b) by done.
  destruct (fed_updates _ _ _ _ _ pieces H Hz) as (pre' & b' & H' & Hz' & E).
  apply (fed_final hash_size key _ _ _ H' Hz'). by rewrite E, <- Hb.
Qed.

(** ** Properties *)

(** C26: whatever the pieces a message is fed in, the streaming hash, with its
    buffer filled by words and by bytes, its lazy compression of full blocks
    and its counter of 128 bits, returns the first [hash_size] bytes of the
    one-pass BLAKE2b of the whole message: the padded key block when there
    is a key, then the message, cut into blocks of 128 bytes of which the
    last, zero-padded, one is flagged. *)
Theorem blake2b_streams hash_size key pieces : (length key <= 128)%nat ->
  crypto_blake2b_final (foldl crypto_blake2b_update (crypto_blake2b_keyed_init hash_size key) pieces) =
  blake2b hash_size key (concat pieces).
Proof. apply blake2b_fed. Qed.

Lemma blake2b_streams_witness :
  (length (replicate 32 x07) <= 128)%nat /\
  crypto_blake2b_final (foldl crypto_blake2b_update (crypto_blake2b_keyed_init 32 (replicate 32 x07))
    [str "abc"; replicate 127 x01; []; replicate 9 x02; replicate 300 x03]) =
  blake2b 32 (replicate 32 x07) (str "abc" ++ replicate 127 x01 ++ replicate 9 x02 ++ replicate 300 x03).
Proof.
  assert (H : (length (replicate 32 x07) <= 128)%nat) by (rewrite length_replicate; lia). split; [done|].
  exact (blake2b_streams 32 (replicate 32 x07) [str "abc"; replicate 127 x01; []; replicate 9 x02; replicate 300 x03] H).
Defined.
