(* ===== verification/Primes.v ===== *)
(** * The prime 2^255 - 19

    Pocklington's criterion with certificates, on the modular arithmetic of
    the Standard Library, and the certificate of the field of [Fe25519]. *)
From S2P Require Import Prelude.
From Stdlib Require Import Znumtheory Zdivisibility Zcong Zmod Zpow_facts.

Open Scope Z_scope.

(** Fermat's theorem on integers. *)
Lemma fermat_Z q a : Z.prime q -> a mod q <> 0 -> a ^ (q - 1) mod q = 1.
Proof.
  intros Hq Ha. pose proof (Z.prime_ge_2 q Hq) as H2.
  assert (Hnz : Zmod.of_Z q a <> Zmod.zero).
  { intros H. apply (f_equal Zmod.to_Z) in H. by rewrite Zmod.to_Z_of_Z, Zmod.to_Z_0 in H. }
  pose proof (Zmod.fermat_nz _ Hnz Hq) as H. apply (f_equal Zmod.to_Z) in H.
  rewrite Zmod.to_Z_pow_nonneg_r, Zmod.to_Z_of_Z, Zmod.to_Z_1 in H by lia.
  rewrite Z.mod_pow_l in H. rewrite <- Z.sub_1_r in H. rewrite H. apply Z.mod_small. lia.
Qed.

(** ** Exponents that give 1 *)

Lemma pow_one_mul q a m k : 1 < q -> 0 <= m -> 0 <= k -> a ^ m mod q = 1 -> a ^ (m * k) mod q = 1.
Proof. intros Hq Hm Hk H. rewrite Z.pow_mul_r, <- Z.mod_pow_l, H, Z.pow_1_l by done. apply Z.mod_small. lia. Qed.

Lemma pow_one_gcd q a m n : 1 < q -> 0 <= m -> 0 <= n -> a ^ m mod q = 1 -> a ^ n mod q = 1 -> a ^ Z.gcd m n mod q = 1.
Proof.
  intros Hq. revert m. induction n as [n IH] using (well_founded_induction (Z.lt_wf 0)). intros m Hm Hn H1 H2.
  destruct (decide (n = 0)) as [->|Hz]; [by rewrite Z.gcd_0_r_nonneg|].
  pose proof (Z.mod_pos_bound m n ltac:(lia)) as Hb.
  rewrite Z.gcd_comm, <- Z.gcd_mod, Z.gcd_comm by done. apply IH; [lia|lia|lia|done|].
  rewrite (Z.div_mod m n Hz) in H1. rewrite Z.pow_add_r, Z.mul_mod, pow_one_mul, Z.mul_1_l, Z.mod_mod in H1 by (try apply Z.mul_nonneg_nonneg; try apply Z.div_pos; lia).
  done.
Qed.

(** ** The criterion *)

(** A prime divisor of an integer above 1. *)
Lemma prime_divisor n : 1 < n -> exists q, Z.prime q /\ (q | n).
Proof.
  induction n as [n IH] using (well_founded_induction (Z.lt_wf 0)). intros Hn.
  destruct (prime_dec n) as [Hp|Hp]; [exists n; split; [by apply prime_alt|apply Z.divide_refl]|].
  destruct (not_prime_divide n Hn Hp) as (m & Hm & Hd).
  destruct (IH m) as (q & Hq & Hqm); [lia|lia|]. exists q. split; [done|]. by etransitivity.
Qed.

(** A number that is not prime has a prime divisor up to its root. *)
Lemma small_divisor n : 1 < n -> ~ Z.prime n -> exists q, Z.prime q /\ (q | n) /\ q * q <= n.
Proof.
  intros Hn Hp. rewrite prime_alt in Hp. destruct (not_prime_divide n Hn Hp) as (m & Hm & [k ->]).
  assert (Hk : 1 < k) by nia. destruct (decide (m <= k)).
  - destruct (prime_divisor m) as (q & Hq & Hd); [lia|]. pose proof (Z.divide_pos_le q m ltac:(lia) Hd). pose proof (Z.prime_ge_2 q Hq).
    exists q. split_and!; [done|by apply Z.divide_mul_r|nia].
  - destruct (prime_divisor k) as (q & Hq & Hd); [lia|]. pose proof (Z.divide_pos_le q k ltac:(lia) Hd). pose proof (Z.prime_ge_2 q Hq).
    exists q. split_and!; [done|by apply Z.divide_mul_l|nia].
Qed.

Definition product (fs : list Z) : Z := foldr Z.mul 1 fs.

Lemma product_pos fs : Forall Z.prime fs -> 0 < product fs.
Proof. induction 1 as [|f fs Hf _ IH]; [done|]. pose proof (Z.prime_ge_2 f Hf). unfold product in *. simpl. nia. Qed.

Lemma product_divides fs m : Forall Z.prime fs -> NoDup fs -> Forall (fun f => (f | m)) fs -> (product fs | m).
Proof.
  induction fs as [|f fs IH]; [intros; apply Z.divide_1_l|]. rewrite !Forall_cons, NoDup_cons. intros [Hf Hfs] [Hn Hnd] [Hd Hds].
  destruct (IH Hfs Hnd Hds) as [k ->]. cbn [product foldr]. fold (product fs) in *.
  assert (Hc : Z.coprime f (product fs)).
  { clear - Hf Hfs Hn. induction fs as [|g fs IH]; [apply Z.coprime_1_r|]. apply Forall_cons in Hfs as [Hg Hfs].
    cbn [product foldr]. apply Z.coprime_mul_r; [|apply IH; set_solver]. apply Z.coprime_prime_l; [done|].
    intros ->%Z.divide_prime_prime; [set_solver|done|done]. }
  apply Z.mul_divide_mono_r. apply (Z.gauss _ (product fs)); [by rewrite Z.mul_comm|done].
Qed.

(** [a] proves [n] prime, given distinct primes [fs] that divide [n - 1]. *)
Definition certified (n a : Z) (fs : list Z) : bool :=
  bool_decide (1 < n) && bool_decide (Zpow_mod a (n - 1) n = 1) && bool_decide (n < product fs * product fs) && bool_decide (NoDup fs) &&
  forallb (fun f => bool_decide (1 < f) && bool_decide ((n - 1) mod f = 0) && bool_decide (Z.gcd (Zpow_mod a ((n - 1) / f) n - 1) n = 1)) fs.

(** Each of the primes divides [q - 1] for every prime divisor [q] of [n]. *)
Lemma factor_divides n a f q : 1 < n -> Z.prime f -> ((n - 1) mod f = 0) -> a ^ (n - 1) mod n = 1 ->
  Z.gcd (a ^ ((n - 1) / f) mod n - 1) n = 1 -> Z.prime q -> (q | n) -> (f | q - 1).
Proof.
  intros Hn Hf Hdiv Ha Hg Hq Hqn. pose proof (Z.prime_ge_2 q Hq) as H2. pose proof (Z.prime_ge_2 f Hf) as Hf2.
  assert (Hmod : forall x, x mod n mod q = x mod q) by (intros x; by apply Z.mod_mod_divide).
  assert (H1 : a ^ (n - 1) mod q = 1) by (rewrite <- Hmod, Ha; apply Z.mod_small; lia).
  assert (Haq : a mod q <> 0).
  { intros H0. rewrite <- Z.mod_pow_l, H0, Z.pow_0_l, Z.mod_0_l in H1 by lia. done. }
  pose proof (fermat_Z q a Hq Haq) as Hfer.
  pose proof (pow_one_gcd q a (n - 1) (q - 1) ltac:(lia) ltac:(lia) ltac:(lia) H1 Hfer) as Hgcd.
  destruct (Z.gcd_divide_l (n - 1) (q - 1)) as [h Hh]. destruct (Z.gcd_divide_r (n - 1) (q - 1)) as [h' Hh'].
  set (g := Z.gcd (n - 1) (q - 1)) in *. assert (Hg0 : 0 <= g) by apply Z.gcd_nonneg.
  destruct (Z.BoolSpec_divide f (q - 1)) as [|Hnd]; [done|]. exfalso.
  assert (Hfh : (f | h)).
  { apply Z.mod_divide in Hdiv; [|lia]. rewrite Hh in Hdiv. apply Z.divide_prime_mul in Hdiv; [|done]. destruct Hdiv as [|Hd]; [done|].
    destruct Hnd. rewrite Hh'. by apply Z.divide_mul_r. }
  destruct Hfh as [k ->].
  assert (Hx : a ^ ((n - 1) / f) mod q = 1).
  { rewrite Hh. replace (k * f * g) with (g * k * f) by ring. rewrite Z.div_mul by lia. apply pow_one_mul; [lia|done|nia|done]. }
  assert (Hd : (q | a ^ ((n - 1) / f) mod n - 1)).
  { apply Z.mod_divide; [lia|]. rewrite Zminus_mod, Hmod, Hx. rewrite (Z.mod_small 1) by lia. done. }
  assert (Hdg : (q | 1)) by (rewrite <- Hg; by apply Z.gcd_greatest). apply Z.divide_1_r in Hdg. lia.
Qed.

Theorem pocklington n a fs : Forall Z.prime fs -> certified n a fs = true -> Z.prime n.
Proof.
  unfold certified. rewrite !andb_true_iff, !bool_decide_eq_true, forallb_forall. intros Hfs ((((Hn & Ha) & Hsq) & Hnd) & Hc).
  rewrite Zpow_mod_correct in Ha by lia. destruct (prime_dec n) as [Hp|Hp]; [by apply prime_alt|]. rewrite <- prime_alt in Hp.
  destruct (small_divisor n Hn Hp) as (q & Hq & Hqn & Hqq). pose proof (Z.prime_ge_2 q Hq).
  assert (Hd : (product fs | q - 1)).
  { apply product_divides; [done|done|]. rewrite Forall_forall in Hfs |- *. intros f Hf. specialize (Hc f (proj1 (list_elem_of_In _ _) Hf)).
    rewrite !andb_true_iff, !bool_decide_eq_true in Hc. destruct Hc as ((H1 & H3) & H4). rewrite Zpow_mod_correct in H4 by lia.
    by apply (factor_divides n a f q); auto. }
  apply Z.divide_pos_le in Hd; [|lia]. pose proof (product_pos fs Hfs). nia.
Qed.

(** Trial division, for the small primes at the end. *)
Fixpoint no_divisor (k : nat) (d n : Z) : bool :=
  match k with O => bool_decide (n < d * d) | S k => bool_decide (n < d * d) || bool_decide (n mod d <> 0) && no_divisor k (d + 1) n end.

Lemma no_divisor_spec k d n : 2 <= d -> no_divisor k d n = true -> forall q, d <= q -> q * q <= n -> ~ (q | n).
Proof.
  revert d. induction k as [|k IH]; intros d Hd; cbn [no_divisor].
  - rewrite bool_decide_eq_true. intros H q Hq Hs. nia.
  - rewrite orb_true_iff, andb_true_iff, !bool_decide_eq_true. intros [H|[H1 H2]] q Hq Hs Hqn; [nia|].
    destruct (decide (q = d)) as [->|]; [|by apply (IH (d + 1) ltac:(lia) H2 q); [lia|..]].
    destruct H1. by apply Z.mod_divide; [lia|].
Qed.

Lemma trial k n : 1 < n -> no_divisor k 2 n = true -> Z.prime n.
Proof.
  intros Hn H. destruct (prime_dec n) as [Hp|Hp]; [by apply prime_alt|]. rewrite <- prime_alt in Hp.
  destruct (small_divisor n Hn Hp) as (q & Hq & Hqn & Hqq). pose proof (Z.prime_ge_2 q Hq).
  by destruct (no_divisor_spec k 2 n ltac:(lia) H q ltac:(lia) Hqq).
Qed.

(** ** The certificate *)

Ltac certify fs := apply (pocklington _ 2 fs); [repeat (constructor; [assumption|]); constructor|vm_compute; reflexivity].

Theorem prime_25519 : Z.prime (2 ^ 255 - 19).
Proof.
  assert (Z.prime 127) by (by apply (trial 12)). assert (Z.prime 4153) by (by apply (trial 70)).
  assert (Z.prime 430751) by (by apply (trial 700)). assert (Z.prime 8574133) by (by apply (trial 3000)).
  assert (Z.prime 569003) by (by apply (trial 800)).
  assert (Z.prime 2773320623) by certify [569003].
  assert (Z.prime 72106336199) by certify [2773320623].
  assert (Z.prime 31757755568855353) by certify [430751; 4153].
  assert (Z.prime 1919519569386763) by certify [8574133; 127].
  assert (Z.prime 75445702479781427272750846543864801) by certify [1919519569386763; 72106336199].
  assert (Z.prime 74058212732561358302231226437062788676166966415465897661863160754340907)
    by certify [75445702479781427272750846543864801; 31757755568855353].
  certify [74058212732561358302231226437062788676166966415465897661863160754340907].
Qed.
