(* ===== verification/Fe25519.v ===== *)
(** * Arithmetic modulo 2^255 - 19 ([fe_*] in [monocypher.c])

    A field element is ten signed limbs of alternately 26 and 25 bits.  Sums
    and differences are not carried; a product of two sums is.  The theorems
    say that no intermediate value leaves its integer type and which residue
    each result stands for. *)
From S2P Require Import Prelude Fmt Mono Primes.
From Stdlib Require Import Zbitwise Zdivisibility.

Open Scope Z_scope.

(** ** Field elements *)

Record fe := Fe { h0 : Z; h1 : Z; h2 : Z; h3 : Z; h4 : Z; h5 : Z; h6 : Z; h7 : Z; h8 : Z; h9 : Z }.

Definition fe_map (o : Z -> Z) (f : fe) : fe :=
  Fe (o (h0 f)) (o (h1 f)) (o (h2 f)) (o (h3 f)) (o (h4 f)) (o (h5 f)) (o (h6 f)) (o (h7 f)) (o (h8 f)) (o (h9 f)).
Definition fe_map2 (o : Z -> Z -> Z) (f g : fe) : fe :=
  Fe (o (h0 f) (h0 g)) (o (h1 f) (h1 g)) (o (h2 f) (h2 g)) (o (h3 f) (h3 g)) (o (h4 f) (h4 g))
     (o (h5 f) (h5 g)) (o (h6 f) (h6 g)) (o (h7 f) (h7 g)) (o (h8 f) (h8 g)) (o (h9 f) (h9 g)).

Definition fe_one : fe := Fe 1 0 0 0 0 0 0 0 0 0.
Definition sqrtm1 : fe :=
  Fe (-32595792) (-7943725) 9377950 3500415 12389472 (-272473) (-25146209) (-2005654) 326686 11406482.
Definition d : fe :=
  Fe (-10913610) 13857413 (-15372611) 6949391 114729 (-8787816) (-6275908) (-3247719) (-18696448) (-12055116).
Definition D2 : fe :=
  Fe (-21827239) (-5839606) (-30745221) 13898782 229458 15978800 (-12551817) (-6495438) 29715968 9444199.

Definition fe_0 : fe := Fe 0 0 0 0 0 0 0 0 0 0.
Definition fe_1 : fe := Fe 1 0 0 0 0 0 0 0 0 0.
Definition fe_neg (f : fe) : fe := fe_map (fun x => i32 (- x)) f.
Definition fe_add (f g : fe) : fe := fe_map2 (fun x y => i32 (x + y)) f g.
Definition fe_sub (f g : fe) : fe := fe_map2 (fun x y => i32 (x - y)) f g.

(** The swap of two limbs under a mask of no or all ones. *)
Definition fe_cswap (f g : fe) (b : Z) : fe * fe :=
  let mask := - b in
  let x := fe_map2 (fun x y => Z.land (Z.lxor x y) mask) f g in
  (fe_map2 Z.lxor f x, fe_map2 Z.lxor g x).

Definition fe_ccopy (f g : fe) (b : Z) : fe := (fe_cswap f g b).1.

(** ** Carrying *)

(** [c = (t + 2^(n-1)) >> n; t -= c * 2^n; u += c]. *)
Definition carry (n t u : Z) : Z * Z :=
  let c := Z.shiftr (i64 (t + 2 ^ (n - 1))) n in
  (i64 (t - i64 (c * 2 ^ n)), i64 (u + c)).

Definition FE_CARRY (t0 t1 t2 t3 t4 t5 t6 t7 t8 t9 : Z) : fe :=
  let '(t0, t1) := carry 26 t0 t1 in
  let '(t4, t5) := carry 26 t4 t5 in
  let '(t1, t2) := carry 25 t1 t2 in
  let '(t5, t6) := carry 25 t5 t6 in
  let '(t2, t3) := carry 26 t2 t3 in
  let '(t6, t7) := carry 26 t6 t7 in
  let '(t3, t4) := carry 25 t3 t4 in
  let '(t7, t8) := carry 25 t7 t8 in
  let '(t4, t5) := carry 26 t4 t5 in
  let '(t8, t9) := carry 26 t8 t9 in
  let c := Z.shiftr (i64 (t9 + 2 ^ 24)) 25 in
  let t9 := i64 (t9 - i64 (c * 2 ^ 25)) in
  let t0 := i64 (t0 + i64 (c * 19)) in
  let '(t0, t1) := carry 26 t0 t1 in
  fe_map i32 (Fe t0 t1 t2 t3 t4 t5 t6 t7 t8 t9).

(** ** Bytes *)

Definition load24_le (s : bytes) : Z :=
  Z.lor (Z.lor (at_ s 0) (Z.shiftl (at_ s 1) 8)) (Z.shiftl (at_ s 2) 16).

Definition fe_frombytes_mask (s : bytes) (nb_mask : Z) : fe :=
  let mask := Z.shiftr 0xffffff nb_mask in
  let t0 := load32_le s in
  let t1 := u32 (Z.shiftl (load24_le (drop 4 s)) 6) in
  let t2 := u32 (Z.shiftl (load24_le (drop 7 s)) 5) in
  let t3 := u32 (Z.shiftl (load24_le (drop 10 s)) 3) in
  let t4 := u32 (Z.shiftl (load24_le (drop 13 s)) 2) in
  let t5 := load32_le (drop 16 s) in
  let t6 := u32 (Z.shiftl (load24_le (drop 20 s)) 7) in
  let t7 := u32 (Z.shiftl (load24_le (drop 23 s)) 5) in
  let t8 := u32 (Z.shiftl (load24_le (drop 26 s)) 4) in
  let t9 := u32 (Z.shiftl (Z.land (load24_le (drop 29 s)) mask) 2) in
  FE_CARRY t0 t1 t2 t3 t4 t5 t6 t7 t8 t9.

Definition fe_frombytes (s : bytes) : fe := fe_frombytes_mask s 1.

(** [q += t; q >>= n]. *)
Definition down (n q t : Z) : Z := Z.shiftr (i32 (q + t)) n.
(** [t += q; q = t >> n; t -= q * 2^n]: the digit and the carry. *)
Definition digit (n q t : Z) : Z * Z :=
  let t := i32 (t + q) in let q := Z.shiftr t n in (i32 (t - i32 (q * 2 ^ n)), q).

(** The digits of the least residue. *)
Definition reduced (h : fe) : fe :=
  let '(Fe t0 t1 t2 t3 t4 t5 t6 t7 t8 t9) := h in
  let q := Z.shiftr (i32 (i32 (19 * t9) + 2 ^ 24)) 25 in
  let q := down 25 (down 26 q t0) t1 in
  let q := down 25 (down 26 q t2) t3 in
  let q := down 25 (down 26 q t4) t5 in
  let q := down 25 (down 26 q t6) t7 in
  let q := down 25 (down 26 q t8) t9 in
  let q := i32 (q * 19) in
  let '(t0, q) := digit 26 q t0 in let '(t1, q) := digit 25 q t1 in
  let '(t2, q) := digit 26 q t2 in let '(t3, q) := digit 25 q t3 in
  let '(t4, q) := digit 26 q t4 in let '(t5, q) := digit 25 q t5 in
  let '(t6, q) := digit 26 q t6 in let '(t7, q) := digit 25 q t7 in
  let '(t8, q) := digit 26 q t8 in let '(t9, q) := digit 25 q t9 in
  Fe t0 t1 t2 t3 t4 t5 t6 t7 t8 t9.

(** [((u32)t >> r) | ((u32)u << l)]. *)
Definition pack (t r u l : Z) : bytes := store32_le (Z.lor (Z.shiftr (u32 t) r) (u32 (Z.shiftl (u32 u) l))).

Definition fe_tobytes (h : fe) : bytes :=
  let '(Fe t0 t1 t2 t3 t4 t5 t6 t7 t8 t9) := reduced h in
  pack t0 0 t1 26 ++ pack t1 6 t2 19 ++ pack t2 13 t3 13 ++ pack t3 19 t4 6 ++
  pack t5 0 t6 25 ++ pack t6 7 t7 19 ++ pack t7 13 t8 12 ++ pack t8 20 t9 6.

(** ** Products *)

Definition fe_mul_small (f : fe) (g : Z) : fe :=
  let '(Fe t0 t1 t2 t3 t4 t5 t6 t7 t8 t9) := fe_map (fun x => i64 (x * g)) f in
  FE_CARRY t0 t1 t2 t3 t4 t5 t6 t7 t8 t9.

(** The [i64] sums are wrapped once, at the end. *)
Definition fe_mul (f g : fe) : fe :=
  let '(Fe f0 f1 f2 f3 f4 f5 f6 f7 f8 f9) := f in
  let '(Fe g0 g1 g2 g3 g4 g5 g6 g7 g8 g9) := g in
  let F1 := i32 (f1 * 2) in let F3 := i32 (f3 * 2) in let F5 := i32 (f5 * 2) in
  let F7 := i32 (f7 * 2) in let F9 := i32 (f9 * 2) in
  let G1 := i32 (g1 * 19) in let G2 := i32 (g2 * 19) in let G3 := i32 (g3 * 19) in
  let G4 := i32 (g4 * 19) in let G5 := i32 (g5 * 19) in let G6 := i32 (g6 * 19) in
  let G7 := i32 (g7 * 19) in let G8 := i32 (g8 * 19) in let G9 := i32 (g9 * 19) in
  let t0 := i64 (f0 * g0 + F1 * G9 + f2 * G8 + F3 * G7 + f4 * G6 + F5 * G5 + f6 * G4 + F7 * G3 + f8 * G2 + F9 * G1) in
  let t1 := i64 (f0 * g1 + f1 * g0 + f2 * G9 + f3 * G8 + f4 * G7 + f5 * G6 + f6 * G5 + f7 * G4 + f8 * G3 + f9 * G2) in
  let t2 := i64 (f0 * g2 + F1 * g1 + f2 * g0 + F3 * G9 + f4 * G8 + F5 * G7 + f6 * G6 + F7 * G5 + f8 * G4 + F9 * G3) in
  let t3 := i64 (f0 * g3 + f1 * g2 + f2 * g1 + f3 * g0 + f4 * G9 + f5 * G8 + f6 * G7 + f7 * G6 + f8 * G5 + f9 * G4) in
  let t4 := i64 (f0 * g4 + F1 * g3 + f2 * g2 + F3 * g1 + f4 * g0 + F5 * G9 + f6 * G8 + F7 * G7 + f8 * G6 + F9 * G5) in
  let t5 := i64 (f0 * g5 + f1 * g4 + f2 * g3 + f3 * g2 + f4 * g1 + f5 * g0 + f6 * G9 + f7 * G8 + f8 * G7 + f9 * G6) in
  let t6 := i64 (f0 * g6 + F1 * g5 + f2 * g4 + F3 * g3 + f4 * g2 + F5 * g1 + f6 * g0 + F7 * G9 + f8 * G8 + F9 * G7) in
  let t7 := i64 (f0 * g7 + f1 * g6 + f2 * g5 + f3 * g4 + f4 * g3 + f5 * g2 + f6 * g1 + f7 * g0 + f8 * G9 + f9 * G8) in
  let t8 := i64 (f0 * g8 + F1 * g7 + f2 * g6 + F3 * g5 + f4 * g4 + F5 * g3 + f6 * g2 + F7 * g1 + f8 * g0 + F9 * G9) in
  let t9 := i64 (f0 * g9 + f1 * g8 + f2 * g7 + f3 * g6 + f4 * g5 + f5 * g4 + f6 * g3 + f7 * g2 + f8 * g1 + f9 * g0) in
  FE_CARRY t0 t1 t2 t3 t4 t5 t6 t7 t8 t9.

Definition fe_sq (f : fe) : fe :=
  let '(Fe f0 f1 f2 f3 f4 f5 f6 f7 f8 f9) := f in
  let f0_2 := i32 (f0 * 2) in let f1_2 := i32 (f1 * 2) in let f2_2 := i32 (f2 * 2) in let f3_2 := i32 (f3 * 2) in
  let f4_2 := i32 (f4 * 2) in let f5_2 := i32 (f5 * 2) in let f6_2 := i32 (f6 * 2) in let f7_2 := i32 (f7 * 2) in
  let f5_38 := i32 (f5 * 38) in let f6_19 := i32 (f6 * 19) in let f7_38 := i32 (f7 * 38) in
  let f8_19 := i32 (f8 * 19) in let f9_38 := i32 (f9 * 38) in
  let t0 := i64 (f0 * f0 + f1_2 * f9_38 + f2_2 * f8_19 + f3_2 * f7_38 + f4_2 * f6_19 + f5 * f5_38) in
  let t1 := i64 (f0_2 * f1 + f2 * f9_38 + f3_2 * f8_19 + f4 * f7_38 + f5_2 * f6_19) in
  let t2 := i64 (f0_2 * f2 + f1_2 * f1 + f3_2 * f9_38 + f4_2 * f8_19 + f5_2 * f7_38 + f6 * f6_19) in
  let t3 := i64 (f0_2 * f3 + f1_2 * f2 + f4 * f9_38 + f5_2 * f8_19 + f6 * f7_38) in
  let t4 := i64 (f0_2 * f4 + f1_2 * f3_2 + f2 * f2 + f5_2 * f9_38 + f6_2 * f8_19 + f7 * f7_38) in
  let t5 := i64 (f0_2 * f5 + f1_2 * f4 + f2_2 * f3 + f6 * f9_38 + f7_2 * f8_19) in
  let t6 := i64 (f0_2 * f6 + f1_2 * f5_2 + f2_2 * f4 + f3_2 * f3 + f7_2 * f9_38 + f8 * f8_19) in
  let t7 := i64 (f0_2 * f7 + f1_2 * f6 + f2_2 * f5 + f3_2 * f4 + f8 * f9_38) in
  let t8 := i64 (f0_2 * f8 + f1_2 * f7_2 + f2_2 * f6 + f3_2 * f5_2 + f4 * f4 + f9 * f9_38) in
  let t9 := i64 (f0_2 * f9 + f1_2 * f8 + f2_2 * f7 + f3_2 * f6 + f4 * f5_2) in
  FE_CARRY t0 t1 t2 t3 t4 t5 t6 t7 t8 t9.

(** ** Tests, inverses *)

Definition fe_isodd (f : fe) : Z := Z.land (at_ (fe_tobytes f) 0) 1.
Definition fe_isequal (f g : fe) : Z := 1 + crypto_verify32 (fe_tobytes f) (fe_tobytes g).

(** [n] squarings. *)
Fixpoint sq_loop (n : nat) (f : fe) : fe := match n with O => f | S n => sq_loop n (fe_sq f) end.

(** [x^((p-5)/8)]. *)
Definition pow_252_3 (x : fe) : fe :=
  let t0 := fe_sq x in
  let t1 := fe_sq t0 in
  let t1 := fe_sq t1 in
  let t1 := fe_mul x t1 in
  let t0 := fe_mul t0 t1 in
  let t0 := fe_sq t0 in
  let t0 := fe_mul t1 t0 in
  let t1 := sq_loop 4 (fe_sq t0) in
  let t0 := fe_mul t1 t0 in
  let t1 := sq_loop 9 (fe_sq t0) in
  let t1 := fe_mul t1 t0 in
  let t2 := sq_loop 19 (fe_sq t1) in
  let t1 := fe_mul t2 t1 in
  let t1 := sq_loop 9 (fe_sq t1) in
  let t0 := fe_mul t1 t0 in
  let t1 := sq_loop 49 (fe_sq t0) in
  let t1 := fe_mul t1 t0 in
  let t2 := sq_loop 99 (fe_sq t1) in
  let t1 := fe_mul t2 t1 in
  let t1 := sq_loop 49 (fe_sq t1) in
  let t0 := fe_mul t1 t0 in
  let t0 := sq_loop 1 (fe_sq t0) in
  fe_mul t0 x.

(** The result, and the inverse square root. *)
Definition invsqrt (x : fe) : Z * fe :=
  let t0 := pow_252_3 x in
  let quartic := fe_mul (fe_sq t0) x in
  let z0 := fe_isequal x fe_0 in
  let p1 := fe_isequal quartic fe_1 in
  let m1 := fe_isequal quartic (fe_neg fe_1) in
  let ms := fe_isequal quartic (fe_neg sqrtm1) in
  let isr := fe_ccopy (fe_mul t0 sqrtm1) t0 (1 - Z.lor m1 ms) in
  (Z.lor (Z.lor p1 m1) z0, isr).

Definition fe_invert (x : fe) : fe := fe_mul (fe_sq (invsqrt (fe_sq x)).2) x.

(** ** What a field element stands for *)

Definition p : Z := 2 ^ 255 - 19.

Definition fe_val (f : fe) : Z :=
  h0 f + 2 ^ 26 * h1 f + 2 ^ 51 * h2 f + 2 ^ 77 * h3 f + 2 ^ 102 * h4 f +
  2 ^ 128 * h5 f + 2 ^ 153 * h6 f + 2 ^ 179 * h7 f + 2 ^ 204 * h8 f + 2 ^ 230 * h9 f.

(** The residue. *)
Definition F (f : fe) : Z := fe_val f mod p.

Definition bounded (e o : Z) (f : fe) : Prop :=
  (- e <= h0 f <= e /\ - e <= h2 f <= e /\ - e <= h4 f <= e /\ - e <= h6 f <= e /\ - e <= h8 f <= e) /\
  (- o <= h1 f <= o /\ - o <= h3 f <= o /\ - o <= h5 f <= o /\ - o <= h7 f <= o /\ - o <= h9 f <= o).

(** The bounds that the comments state: 1.1 * 2^25 and 1.1 * 2^24 for what has
    been carried, one and a half times as much twice for a factor. *)
Definition tight : fe -> Prop := bounded 36909875 18454937.
Definition loose : fe -> Prop := bounded 110729625 55364812.

#[export] Instance bounded_dec e o f : Decision (bounded e o f).
Proof. unfold bounded. apply _. Defined.

Ltac fe_unfold := unfold tight, loose, bounded in *; cbn [h0 h1 h2 h3 h4 h5 h6 h7 h8 h9 fe_map fe_map2] in *.

Lemma tight_loose f : tight f -> loose f.
Proof. fe_unfold. lia. Qed.
#[export] Hint Resolve tight_loose : fe.

(** ** Machine integers that do not wrap *)

Lemma i32_id z : - 2 ^ 31 <= z < 2 ^ 31 -> i32 z = z.
Proof. intros. apply wraps_id; [lia|]. change (2 ^ (32 - 1)) with (2 ^ 31). lia. Qed.

Lemma i64_id z : - 2 ^ 63 <= z < 2 ^ 63 -> i64 z = z.
Proof. intros. apply wraps_id; [lia|]. change (2 ^ (64 - 1)) with (2 ^ 63). lia. Qed.

(** ** Sums *)

Lemma add_exact e1 o1 e2 o2 f g : e1 + e2 < 2 ^ 31 -> o1 + o2 < 2 ^ 31 -> bounded e1 o1 f -> bounded e2 o2 g ->
  bounded (e1 + e2) (o1 + o2) (fe_add f g) /\ fe_val (fe_add f g) = fe_val f + fe_val g.
Proof.
  intros He Ho Hf Hg. unfold fe_val, fe_add. fe_unfold. rewrite !i32_id by lia. split; [lia|]. ring.
Qed.

Lemma sub_exact e1 o1 e2 o2 f g : e1 + e2 < 2 ^ 31 -> o1 + o2 < 2 ^ 31 -> bounded e1 o1 f -> bounded e2 o2 g ->
  bounded (e1 + e2) (o1 + o2) (fe_sub f g) /\ fe_val (fe_sub f g) = fe_val f - fe_val g.
Proof.
  intros He Ho Hf Hg. unfold fe_val, fe_sub. fe_unfold. rewrite !i32_id by lia. split; [lia|]. ring.
Qed.

Lemma neg_exact e o f : e < 2 ^ 31 -> o < 2 ^ 31 -> bounded e o f -> bounded e o (fe_neg f) /\ fe_val (fe_neg f) = - fe_val f.
Proof.
  intros He Ho Hf. unfold fe_val, fe_neg. fe_unfold. rewrite !i32_id by lia. split; [lia|]. ring.
Qed.

(** ** Carrying *)

Lemma round_spec h t : 0 < h -> - h <= t - (t + h) / (2 * h) * (2 * h) < h.
Proof.
  intros Hh. pose proof (Z.mul_div_le (t + h) (2 * h) ltac:(lia)). pose proof (Z.mul_succ_div_gt (t + h) (2 * h) ltac:(lia)). lia.
Qed.

Lemma carry_spec n t u : n = 25 \/ n = 26 -> - (2 ^ 62 + 2 ^ 45) <= t <= 2 ^ 62 + 2 ^ 45 -> - (2 ^ 62 + 2 ^ 45) <= u <= 2 ^ 62 + 2 ^ 45 ->
  exists c, carry n t u = (t - c * 2 ^ n, u + c) /\ - 2 ^ (n - 1) <= t - c * 2 ^ n < 2 ^ (n - 1).
Proof.
  intros Hn Ht Hu. exists ((t + 2 ^ (n - 1)) / 2 ^ n). unfold carry.
  assert (H1 : 2 ^ n = 2 * 2 ^ (n - 1) /\ 2 ^ 24 <= 2 ^ (n - 1) <= 2 ^ 25) by (destruct Hn; subst n; done).
  set (h := 2 ^ (n - 1)) in *. rewrite (i64_id (t + h)), Z.shiftr_div_pow2 by lia.
  destruct H1 as [-> Hh]. set (c := (t + h) / (2 * h)).
  pose proof (round_spec h t ltac:(lia)) as Hc. fold c in Hc. assert (- 2 ^ 41 <= c <= 2 ^ 41) by nia.
  rewrite (i64_id (c * (2 * h))), !i64_id by lia. split; [done|lia].
Qed.

(** [|t_i| <= 2^62] is enough for the result to be tight, and it stands for
    the same residue. *)
Lemma carry_exact t0 t1 t2 t3 t4 t5 t6 t7 t8 t9 :
  Forall (fun t => - 2 ^ 62 <= t <= 2 ^ 62) [t0; t1; t2; t3; t4; t5; t6; t7; t8; t9] ->
  tight (FE_CARRY t0 t1 t2 t3 t4 t5 t6 t7 t8 t9) /\
  exists c, fe_val (FE_CARRY t0 t1 t2 t3 t4 t5 t6 t7 t8 t9) = fe_val (Fe t0 t1 t2 t3 t4 t5 t6 t7 t8 t9) - c * p.
Proof.
  rewrite !Forall_cons. intros (H0 & H1 & H2 & H3 & H4 & H5 & H6 & H7 & H8 & H9 & _). unfold FE_CARRY.
  destruct (carry_spec 26 t0 t1) as (c0 & -> & B0); [lia..|].
  destruct (carry_spec 26 t4 t5) as (c4 & -> & B4); [lia..|].
  destruct (carry_spec 25 (t1 + c0) t2) as (c1 & -> & B1); [lia..|].
  destruct (carry_spec 25 (t5 + c4) t6) as (c5 & -> & B5); [lia..|].
  destruct (carry_spec 26 (t2 + c1) t3) as (c2 & -> & B2); [lia..|].
  destruct (carry_spec 26 (t6 + c5) t7) as (c6 & -> & B6); [lia..|].
  destruct (carry_spec 25 (t3 + c2) (t4 - c4 * 2 ^ 26)) as (c3 & -> & B3); [lia..|].
  destruct (carry_spec 25 (t7 + c6) t8) as (c7 & -> & B7); [lia..|].
  destruct (carry_spec 26 (t4 - c4 * 2 ^ 26 + c3) (t5 + c4 - c5 * 2 ^ 25)) as (c4' & -> & B4'); [lia..|].
  destruct (carry_spec 26 (t8 + c7) t9) as (c8 & -> & B8); [lia..|].
  cbv beta iota zeta.
  set (c9 := Z.shiftr (i64 (t9 + c8 + 2 ^ 24)) 25).
  assert (H9c : - 2 ^ 24 <= t9 + c8 - c9 * 2 ^ 25 < 2 ^ 24).
  { unfold c9. rewrite i64_id, Z.shiftr_div_pow2 by lia. apply (round_spec (2 ^ 24)). lia. }
  rewrite (i64_id (c9 * 2 ^ 25)), (i64_id (t9 + c8 - _)), (i64_id (c9 * 19)), (i64_id (t0 - _ + _)) by lia.
  destruct (carry_spec 26 (t0 - c0 * 2 ^ 26 + c9 * 19) (t1 + c0 - c1 * 2 ^ 25)) as (c0' & -> & B0'); [lia..|].
  cbv beta iota zeta. unfold fe_val, p. fe_unfold.
  rewrite !i32_id by lia. split; [lia|]. exists c9. ring.
Qed.

(** ** Products *)

Definition lim (b x : Z) : Prop := - b <= x <= b.

Lemma lim_add a b x y : lim a x -> lim b y -> lim (a + b) (x + y).
Proof. unfold lim. lia. Qed.

Lemma lim_mul a b x y : lim a x -> lim b y -> lim (a * b) (x * y).
Proof. unfold lim. intros. nia. Qed.

Lemma lim_scale a c x : 0 <= c -> lim a x -> lim (a * c) (x * c).
Proof. unfold lim. intros. nia. Qed.

Lemma lim_weaken a b x : lim a x -> a <= b -> lim b x.
Proof. unfold lim. lia. Qed.

Lemma lim_i32 a x : a < 2 ^ 31 -> lim a x -> i32 x = x.
Proof. unfold lim. intros. apply i32_id. lia. Qed.

Lemma lim_i64 a x : a < 2 ^ 63 -> lim a x -> i64 x = x.
Proof. unfold lim. intros. apply i64_id. lia. Qed.

(** The bound of a sum of products, from the bounds of its factors. *)
Ltac lims := repeat first [eassumption | eapply lim_scale; [done|] | eapply lim_add | eapply lim_mul].
(** One factor [x * c] of 32 bits. *)
Ltac narrow x c :=
  match goal with H : lim ?b x |- _ => rewrite (lim_i32 (b * c) (x * c) ltac:(reflexivity) (lim_scale b c x ltac:(discriminate) H)) end.

Lemma carry_wrapped t0 t1 t2 t3 t4 t5 t6 t7 t8 t9 :
  Forall (lim (2 ^ 62)) [t0; t1; t2; t3; t4; t5; t6; t7; t8; t9] ->
  let r := FE_CARRY (i64 t0) (i64 t1) (i64 t2) (i64 t3) (i64 t4) (i64 t5) (i64 t6) (i64 t7) (i64 t8) (i64 t9) in
  tight r /\ exists c, fe_val r = fe_val (Fe t0 t1 t2 t3 t4 t5 t6 t7 t8 t9) - c * p.
Proof.
  intros H. pose proof (carry_exact t0 t1 t2 t3 t4 t5 t6 t7 t8 t9 H) as Hc. rewrite !Forall_cons in H. unfold lim in H.
  rewrite !i64_id by lia. exact Hc.
Qed.

Lemma mul_small_exact f g : loose f -> 0 <= g < 2 ^ 31 ->
  tight (fe_mul_small f g) /\ exists k, fe_val (fe_mul_small f g) = fe_val f * g - k * p.
Proof.
  destruct f as [f0 f1 f2 f3 f4 f5 f6 f7 f8 f9]. intros Hf Hg. unfold fe_mul_small. fe_unfold.
  destruct (carry_wrapped (f0 * g) (f1 * g) (f2 * g) (f3 * g) (f4 * g) (f5 * g) (f6 * g) (f7 * g) (f8 * g) (f9 * g)) as [H1 [c H2]].
  - unfold lim. repeat (constructor; [nia|]). constructor.
  - split; [done|]. exists c. rewrite H2. unfold fe_val. cbn [h0 h1 h2 h3 h4 h5 h6 h7 h8 h9]. ring.
Qed.

(** The value of the ten sums of [fe_mul], less a multiple of [p]. *)
Definition mul_excess (f g : fe) : Z :=
  let '(Fe f0 f1 f2 f3 f4 f5 f6 f7 f8 f9) := f in
  let '(Fe g0 g1 g2 g3 g4 g5 g6 g7 g8 g9) := g in
  (2 * f1 * g9 + f2 * g8 + 2 * f3 * g7 + f4 * g6 + 2 * f5 * g5 + f6 * g4 + 2 * f7 * g3 + f8 * g2 + 2 * f9 * g1) + 2 ^ 26 * (f2 * g9 + f3 * g8 + f4 * g7 + f5 * g6 + f6 * g5 + f7 * g4 + f8 * g3 + f9 * g2) + 2 ^ 51 * (2 * f3 * g9 + f4 * g8 + 2 * f5 * g7 + f6 * g6 + 2 * f7 * g5 + f8 * g4 + 2 * f9 * g3) + 2 ^ 77 * (f4 * g9 + f5 * g8 + f6 * g7 + f7 * g6 + f8 * g5 + f9 * g4) + 2 ^ 102 * (2 * f5 * g9 + f6 * g8 + 2 * f7 * g7 + f8 * g6 + 2 * f9 * g5) + 2 ^ 128 * (f6 * g9 + f7 * g8 + f8 * g7 + f9 * g6) + 2 ^ 153 * (2 * f7 * g9 + f8 * g8 + 2 * f9 * g7) + 2 ^ 179 * (f8 * g9 + f9 * g8) + 2 ^ 204 * (2 * f9 * g9).

Lemma mul_exact f g : loose f -> loose g ->
  tight (fe_mul f g) /\ exists k, fe_val (fe_mul f g) = fe_val f * fe_val g - k * p.
Proof.
  destruct f as [f0 f1 f2 f3 f4 f5 f6 f7 f8 f9]. destruct g as [g0 g1 g2 g3 g4 g5 g6 g7 g8 g9].
  intros ((F0 & F2 & F4 & F6 & F8) & F1 & F3 & F5 & F7 & F9) ((G0 & G2 & G4 & G6 & G8) & G1 & G3 & G5 & G7 & G9).
  cbn [h0 h1 h2 h3 h4 h5 h6 h7 h8 h9] in *. unfold fe_mul.
  repeat match goal with H : - ?a <= ?x <= ?a |- _ => change (lim a x) in H end.
  cbv zeta. narrow f1 2. narrow f3 2. narrow f5 2. narrow f7 2. narrow f9 2.
  narrow g1 19. narrow g2 19. narrow g3 19. narrow g4 19. narrow g5 19. narrow g6 19. narrow g7 19. narrow g8 19. narrow g9 19.
  match goal with |- tight (FE_CARRY (i64 ?t0) (i64 ?t1) (i64 ?t2) (i64 ?t3) (i64 ?t4) (i64 ?t5) (i64 ?t6) (i64 ?t7) (i64 ?t8) (i64 ?t9)) /\ _ =>
    destruct (carry_wrapped t0 t1 t2 t3 t4 t5 t6 t7 t8 t9) as [H1 [c H2]] end.
  - repeat (constructor; [eapply lim_weaken; [lims|discriminate]|]). constructor.
  - split; [done|]. exists (c + mul_excess (Fe f0 f1 f2 f3 f4 f5 f6 f7 f8 f9) (Fe g0 g1 g2 g3 g4 g5 g6 g7 g8 g9)). rewrite H2.
    unfold fe_val, mul_excess, p. cbn [h0 h1 h2 h3 h4 h5 h6 h7 h8 h9]. ring.
Qed.

Lemma sq_exact f : loose f -> tight (fe_sq f) /\ exists k, fe_val (fe_sq f) = fe_val f * fe_val f - k * p.
Proof.
  destruct f as [f0 f1 f2 f3 f4 f5 f6 f7 f8 f9]. intros ((F0 & F2 & F4 & F6 & F8) & F1 & F3 & F5 & F7 & F9).
  cbn [h0 h1 h2 h3 h4 h5 h6 h7 h8 h9] in *. unfold fe_sq.
  repeat match goal with H : - ?a <= ?x <= ?a |- _ => change (lim a x) in H end.
  cbv zeta. narrow f0 2. narrow f1 2. narrow f2 2. narrow f3 2. narrow f4 2. narrow f5 2. narrow f6 2. narrow f7 2.
  narrow f5 38. narrow f6 19. narrow f7 38. narrow f8 19. narrow f9 38.
  match goal with |- tight (FE_CARRY (i64 ?t0) (i64 ?t1) (i64 ?t2) (i64 ?t3) (i64 ?t4) (i64 ?t5) (i64 ?t6) (i64 ?t7) (i64 ?t8) (i64 ?t9)) /\ _ =>
    destruct (carry_wrapped t0 t1 t2 t3 t4 t5 t6 t7 t8 t9) as [H1 [c H2]] end.
  - repeat (constructor; [eapply lim_weaken; [lims|discriminate]|]). constructor.
  - split; [done|]. exists (c + mul_excess (Fe f0 f1 f2 f3 f4 f5 f6 f7 f8 f9) (Fe f0 f1 f2 f3 f4 f5 f6 f7 f8 f9)). rewrite H2.
    unfold fe_val, mul_excess, p. cbn [h0 h1 h2 h3 h4 h5 h6 h7 h8 h9]. ring.
Qed.

(** ** Residues *)

(** Equality modulo [p], with which sums and products are compatible. *)
Definition eqp (x y : Z) : Prop := x mod p = y mod p.
Infix "≡p" := eqp (at level 70) : Z_scope.

#[export] Instance eqp_equiv : Equivalence eqp.
Proof. unfold eqp. split; [by intros x|by intros x y|intros x y z; congruence]. Qed.
#[export] Instance add_eqp : Proper (eqp ==> eqp ==> eqp) Z.add.
Proof. unfold eqp. intros x x' Hx y y' Hy. by rewrite Z.add_mod, Hx, Hy, <- Z.add_mod. Qed.
#[export] Instance mul_eqp : Proper (eqp ==> eqp ==> eqp) Z.mul.
Proof. unfold eqp. intros x x' Hx y y' Hy. by rewrite Z.mul_mod, Hx, Hy, <- Z.mul_mod. Qed.
#[export] Instance opp_eqp : Proper (eqp ==> eqp) Z.opp.
Proof. intros x y H. rewrite (Z.opp_eq_mul_m1 x), (Z.opp_eq_mul_m1 y). by rewrite H. Qed.
#[export] Instance sub_eqp : Proper (eqp ==> eqp ==> eqp) Z.sub.
Proof. intros x x' Hx y y' Hy. unfold Z.sub. by rewrite Hx, Hy. Qed.
#[export] Instance mod_eqp : Proper (eqp ==> eq) (fun x => x mod p).
Proof. by intros x y H. Qed.

Lemma eqp_add_p x k : x - k * p ≡p x.
Proof. unfold eqp. rewrite <- Z.add_opp_r, <- Z.mul_opp_l. by rewrite Z.mod_add. Qed.

Lemma eqp_mod x : x mod p ≡p x.
Proof. unfold eqp. by rewrite Z.mod_mod. Qed.

Lemma p_pos : 0 < p.
Proof. done. Qed.

Lemma F_range f : 0 <= F f < p.
Proof. by apply Z.mod_pos_bound. Qed.

(** What each operation promises on its domain. *)
Lemma fe_mul_val f g : loose f -> loose g -> tight (fe_mul f g) /\ fe_val (fe_mul f g) ≡p fe_val f * fe_val g.
Proof. intros Hf Hg. destruct (mul_exact f g Hf Hg) as [H [k ->]]. split; [done|apply eqp_add_p]. Qed.

Lemma fe_sq_val f : loose f -> tight (fe_sq f) /\ fe_val (fe_sq f) ≡p fe_val f * fe_val f.
Proof. intros Hf. destruct (sq_exact f Hf) as [H [k ->]]. split; [done|apply eqp_add_p]. Qed.

Lemma fe_mul_small_val f g : loose f -> 0 <= g < 2 ^ 31 -> tight (fe_mul_small f g) /\ fe_val (fe_mul_small f g) ≡p fe_val f * g.
Proof. intros Hf Hg. destruct (mul_small_exact f g Hf Hg) as [H [k ->]]. split; [done|apply eqp_add_p]. Qed.

Lemma fe_add_val f g : tight f -> tight g -> loose (fe_add f g) /\ fe_val (fe_add f g) = fe_val f + fe_val g.
Proof.
  intros Hf Hg. destruct (add_exact 36909875 18454937 36909875 18454937 f g ltac:(done) ltac:(done) Hf Hg) as [H1 H2]. split; [|done]. fe_unfold. lia.
Qed.

Lemma fe_sub_val f g : tight f -> tight g -> loose (fe_sub f g) /\ fe_val (fe_sub f g) = fe_val f - fe_val g.
Proof.
  intros Hf Hg. destruct (sub_exact 36909875 18454937 36909875 18454937 f g ltac:(done) ltac:(done) Hf Hg) as [H1 H2]. split; [|done]. fe_unfold. lia.
Qed.

Lemma fe_neg_val f : tight f -> tight (fe_neg f) /\ fe_val (fe_neg f) = - fe_val f.
Proof. by apply neg_exact. Qed.

(** ** Swapping *)

Lemma lxor_swap x y : Z.lxor x (Z.lxor x y) = y.
Proof. by rewrite <- Z.lxor_assoc, Z.lxor_nilpotent, Z.lxor_0_l. Qed.

Lemma fe_cswap_spec f g (b : bool) : fe_cswap f g (Z.b2z b) = if b then (g, f) else (f, g).
Proof.
  assert (Hm : forall a, Z.land a (- (1)) = a) by apply Z.land_m1_r.
  destruct f, g, b; unfold fe_cswap, fe_map2; cbn [Z.b2z h0 h1 h2 h3 h4 h5 h6 h7 h8 h9]; fe_unfold.
  - rewrite !Hm. f_equal; f_equal; try apply lxor_swap; rewrite (Z.lxor_comm _ (Z.lxor _ _)), Z.lxor_assoc, Z.lxor_nilpotent; apply Z.lxor_0_r.
  - change (- 0) with 0. by rewrite !Z.land_0_r, !Z.lxor_0_r.
Qed.

Lemma fe_ccopy_spec f g (b : bool) : fe_ccopy f g (Z.b2z b) = if b then g else f.
Proof. unfold fe_ccopy. rewrite fe_cswap_spec. by destruct b. Qed.

(** ** Bytes *)

Lemma load24_le_val s : (3 <= length s)%nat -> load24_le s = le_val (take 3 s).
Proof.
  intros H. destruct s as [|a [|b [|c s]]]; simpl in H; try lia. unfold load24_le, at_. simpl.
  pose proof (uchar_range a). pose proof (uchar_range b).
  rewrite (lor_add (uchar a) _ 8) by lia. rewrite (lor_add _ _ 16) by lia. lia.
Qed.

Lemma le_split n s : (n <= length s)%nat -> le_val s = le_val (take n s) + 256 ^ Z.of_nat n * le_val (drop n s).
Proof. intros H. rewrite <- (take_drop n s) at 1. rewrite le_val_app, length_take, Nat.min_l by done. done. Qed.

Lemma le_val_take n s : 0 <= le_val (take n s) < 256 ^ Z.of_nat n.
Proof.
  pose proof (le_val_range (take n s)). rewrite length_take in H. split; [lia|].
  eapply Z.lt_le_trans; [apply H|]. apply Z.pow_le_mono_r; lia.
Qed.

Lemma le_step k n m s : (k + n)%nat = m -> (m <= length s)%nat ->
  le_val (drop k s) = le_val (take n (drop k s)) + 256 ^ Z.of_nat n * le_val (drop m s).
Proof. intros <- H. rewrite (le_split n (drop k s)), drop_drop by (rewrite length_drop; lia). done. Qed.

(** The ten loads of [fe_frombytes_mask] are the bytes. *)
Lemma le_val_fields s : length s = 32%nat ->
  le_val s = load32_le s + 2 ^ 32 * load24_le (drop 4 s) + 2 ^ 56 * load24_le (drop 7 s) + 2 ^ 80 * load24_le (drop 10 s) +
    2 ^ 104 * load24_le (drop 13 s) + 2 ^ 128 * load32_le (drop 16 s) + 2 ^ 160 * load24_le (drop 20 s) +
    2 ^ 184 * load24_le (drop 23 s) + 2 ^ 208 * load24_le (drop 26 s) + 2 ^ 232 * load24_le (drop 29 s).
Proof.
  intros Hs. rewrite !load24_le_val, !load32_le_val by (rewrite ?length_drop; lia).
  rewrite (le_split 4 s), (le_step 4 3 7), (le_step 7 3 10), (le_step 10 3 13), (le_step 13 3 16),
    (le_step 16 4 20), (le_step 20 3 23), (le_step 23 3 26), (le_step 26 3 29), (take_ge (drop 29 s)) by (rewrite ?length_drop; lia).
  change (256 ^ Z.of_nat 4) with (2 ^ 32). change (256 ^ Z.of_nat 3) with (2 ^ 24). ring.
Qed.

Lemma load24_le_range s : 0 <= load24_le s < 2 ^ 24.
Proof.
  unfold load24_le. pose proof (at_range s 0). pose proof (at_range s 1). pose proof (at_range s 2).
  rewrite (lor_add (at_ s 0) _ 8), (lor_add _ _ 16) by lia. lia.
Qed.

Lemma frombytes_mask_val s k : length s = 32%nat -> 1 <= k <= 2 ->
  tight (fe_frombytes_mask s k) /\ fe_val (fe_frombytes_mask s k) ≡p le_val s mod 2 ^ (256 - k).
Proof.
  intros Hs Hk. unfold fe_frombytes_mask. rewrite (le_val_fields s Hs).
  pose proof (load32_le_range s) as R0. pose proof (load24_le_range (drop 4 s)) as R1. pose proof (load24_le_range (drop 7 s)) as R2.
  pose proof (load24_le_range (drop 10 s)) as R3. pose proof (load24_le_range (drop 13 s)) as R4. pose proof (load32_le_range (drop 16 s)) as R5.
  pose proof (load24_le_range (drop 20 s)) as R6. pose proof (load24_le_range (drop 23 s)) as R7. pose proof (load24_le_range (drop 26 s)) as R8.
  pose proof (load24_le_range (drop 29 s)) as R9.
  replace (Z.shiftr 0xffffff k) with (Z.ones (24 - k)) by (assert (k = 1 \/ k = 2) as [-> | ->] by lia; reflexivity).
  rewrite Z.land_ones by lia. set (x9 := load24_le (drop 29 s)) in *.
  assert (H9 : 0 <= x9 mod 2 ^ (24 - k) < 2 ^ 23).
  { pose proof (Z.mod_pos_bound x9 (2 ^ (24 - k)) ltac:(by apply Z.pow_pos_nonneg; lia)).
    assert (2 ^ (24 - k) <= 2 ^ 23) by (apply Z.pow_le_mono_r; lia). lia. }
  rewrite !Z.shiftl_mul_pow2, !wrapu_id by lia.
  match goal with |- tight (FE_CARRY ?t0 ?t1 ?t2 ?t3 ?t4 ?t5 ?t6 ?t7 ?t8 ?t9) /\ _ =>
    destruct (carry_exact t0 t1 t2 t3 t4 t5 t6 t7 t8 t9) as [H1 [c H2]] end; [repeat (constructor; [lia|]); constructor|].
  split; [done|]. rewrite H2. rewrite eqp_add_p. apply (f_equal (fun x => x mod p)).
  assert (Hp : 2 ^ (256 - k) = 2 ^ 232 * 2 ^ (24 - k)) by (rewrite <- Z.pow_add_r by lia; f_equal; lia).
  apply (Z.mod_unique_pos _ _ (x9 / 2 ^ (24 - k))).
  - rewrite Hp. pose proof (Z.mod_pos_bound x9 (2 ^ (24 - k)) ltac:(by apply Z.pow_pos_nonneg; lia)). unfold fe_val. fe_unfold. lia.
  - pose proof (Z.div_mod x9 (2 ^ (24 - k)) ltac:(pose proof (Z.pow_pos_nonneg 2 (24 - k)); lia)) as D.
    rewrite Hp. unfold fe_val. fe_unfold. rewrite D at 1. ring.
Qed.

(** [q], the quotient of a digit and the carry into it. *)
Lemma down_spec n q t : 1 <= n -> - 2 ^ 31 <= q + t < 2 ^ 31 -> exists q', down n q t = q' /\ 0 <= q + t - q' * 2 ^ n < 2 ^ n.
Proof.
  intros Hn Hr. unfold down. rewrite i32_id, Z.shiftr_div_pow2 by lia. eexists. split; [done|].
  pose proof (Z.div_mod (q + t) (2 ^ n)). pose proof (Z.mod_pos_bound (q + t) (2 ^ n)). pose proof (Z.pow_pos_nonneg 2 n). lia.
Qed.

Lemma digit_spec n q t : n = 25 \/ n = 26 -> - 2 ^ 30 <= q + t < 2 ^ 30 ->
  exists q', digit n q t = (t + q - q' * 2 ^ n, q') /\ 0 <= t + q - q' * 2 ^ n < 2 ^ n.
Proof.
  intros Hn Hr. unfold digit. rewrite (i32_id (t + q)), Z.shiftr_div_pow2 by lia. eexists. 
  pose proof (Z.div_mod (t + q) (2 ^ n)) as D. pose proof (Z.mod_pos_bound (t + q) (2 ^ n)) as B.
  assert (2 ^ n = 2 ^ 25 \/ 2 ^ n = 2 ^ 26) by (destruct Hn as [-> | ->]; auto).
  set (c := (t + q) / 2 ^ n) in *. set (w := 2 ^ n) in *.
  assert (0 <= t + q - c * w < w) by lia. rewrite (i32_id (c * w)), i32_id by lia. done.
Qed.

Definition in_digits (f : fe) : Prop :=
  (0 <= h0 f < 2 ^ 26 /\ 0 <= h2 f < 2 ^ 26 /\ 0 <= h4 f < 2 ^ 26 /\ 0 <= h6 f < 2 ^ 26 /\ 0 <= h8 f < 2 ^ 26) /\
  (0 <= h1 f < 2 ^ 25 /\ 0 <= h3 f < 2 ^ 25 /\ 0 <= h5 f < 2 ^ 25 /\ 0 <= h7 f < 2 ^ 25 /\ 0 <= h9 f < 2 ^ 25).

Lemma reduced_spec h : tight h -> in_digits (reduced h) /\ fe_val (reduced h) = F h.
Proof.
  destruct h as [t0 t1 t2 t3 t4 t5 t6 t7 t8 t9]. intros Ht. unfold reduced. fe_unfold.
  rewrite (i32_id (19 * t9)), (i32_id (19 * t9 + 2 ^ 24)), Z.shiftr_div_pow2 by lia.
  assert (Hq : exists q, (19 * t9 + 2 ^ 24) / 2 ^ 25 = q /\ - 2 ^ 24 <= 19 * t9 - q * 2 ^ 25 < 2 ^ 24).
  { eexists. split; [done|]. apply (round_spec (2 ^ 24)). done. }
  destruct Hq as (q & -> & Hq).
  destruct (down_spec 26 q t0) as (a0 & -> & A0); [lia..|]. destruct (down_spec 25 a0 t1) as (a1 & -> & A1); [lia..|].
  destruct (down_spec 26 a1 t2) as (a2 & -> & A2); [lia..|]. destruct (down_spec 25 a2 t3) as (a3 & -> & A3); [lia..|].
  destruct (down_spec 26 a3 t4) as (a4 & -> & A4); [lia..|]. destruct (down_spec 25 a4 t5) as (a5 & -> & A5); [lia..|].
  destruct (down_spec 26 a5 t6) as (a6 & -> & A6); [lia..|]. destruct (down_spec 25 a6 t7) as (a7 & -> & A7); [lia..|].
  destruct (down_spec 26 a7 t8) as (a8 & -> & A8); [lia..|]. destruct (down_spec 25 a8 t9) as (a9 & -> & A9); [lia..|].
  set (v := fe_val (Fe t0 t1 t2 t3 t4 t5 t6 t7 t8 t9)).
  assert (Hv : a9 = if decide (0 <= v) then 0 else -1).
  { unfold v, fe_val. cbn [h0 h1 h2 h3 h4 h5 h6 h7 h8 h9]. case_decide; lia. }
  rewrite (i32_id (a9 * 19)) by lia.
  destruct (digit_spec 26 (a9 * 19) t0) as (b0 & -> & B0); [lia..|]. destruct (digit_spec 25 b0 t1) as (b1 & -> & B1); [lia..|].
  destruct (digit_spec 26 b1 t2) as (b2 & -> & B2); [lia..|]. destruct (digit_spec 25 b2 t3) as (b3 & -> & B3); [lia..|].
  destruct (digit_spec 26 b3 t4) as (b4 & -> & B4); [lia..|]. destruct (digit_spec 25 b4 t5) as (b5 & -> & B5); [lia..|].
  destruct (digit_spec 26 b5 t6) as (b6 & -> & B6); [lia..|]. destruct (digit_spec 25 b6 t7) as (b7 & -> & B7); [lia..|].
  destruct (digit_spec 26 b7 t8) as (b8 & -> & B8); [lia..|]. destruct (digit_spec 25 b8 t9) as (b9 & -> & B9); [lia..|].
  split; [unfold in_digits; cbn [h0 h1 h2 h3 h4 h5 h6 h7 h8 h9]; lia|].
  unfold F. apply (Z.mod_unique_pos _ _ a9); unfold fe_val, p in *; cbn [h0 h1 h2 h3 h4 h5 h6 h7 h8 h9] in *.
  - case_decide; lia.
  - case_decide; lia.
Qed.

Lemma pack_spec t r u l : 0 <= r -> 0 < l < 32 -> 0 <= t < 2 ^ (r + l) -> 0 <= t < 2 ^ 32 -> 0 <= u < 2 ^ 32 ->
  pack t r u l = le_bytes 4 (t / 2 ^ r + 2 ^ l * (u mod 2 ^ (32 - l))) /\ 0 <= t / 2 ^ r + 2 ^ l * (u mod 2 ^ (32 - l)) < 2 ^ 32.
Proof.
  intros Hr Hl Ht Ht' Hu. unfold pack. rewrite (wrapu_id 32 t), (wrapu_id 32 u) by lia. rewrite store32_le_bytes, Z.shiftr_div_pow2 by lia.
  assert (Hp : 2 ^ 32 = 2 ^ l * 2 ^ (32 - l)) by (rewrite <- Z.pow_add_r by lia; f_equal; lia).
  assert (Hlo : 0 <= t / 2 ^ r < 2 ^ l).
  { rewrite Z.pow_add_r in Ht by lia. pose proof (Z.pow_pos_nonneg 2 r). split; [apply Z.div_pos; lia|apply Z.div_lt_upper_bound; lia]. }
  assert (Hm : u32 (Z.shiftl u l) = Z.shiftl (u mod 2 ^ (32 - l)) l).
  { unfold wrapu. rewrite !Z.shiftl_mul_pow2 by lia. rewrite Hp, (Z.mul_comm u), (Z.mul_comm (_ mod _)). apply Z.mul_mod_distr_l; pose proof (Z.pow_pos_nonneg 2 l); pose proof (Z.pow_pos_nonneg 2 (32 - l)); lia. }
  pose proof (Z.mod_pos_bound u (2 ^ (32 - l)) ltac:(apply Z.pow_pos_nonneg; lia)).
  rewrite Hm, (lor_add _ _ l), (Z.mul_comm (2 ^ l)) by lia. split; [done|]. rewrite Hp. nia.
Qed.

(** The bytes are those of the least residue. *)
Lemma tobytes_val h : tight h -> fe_tobytes h = le_bytes 32 (F h).
Proof.
  intros Ht. destruct (reduced_spec h Ht) as [Hd <-]. unfold fe_tobytes.
  destruct (reduced h) as [t0 t1 t2 t3 t4 t5 t6 t7 t8 t9]. unfold in_digits, fe_val in *. cbn [h0 h1 h2 h3 h4 h5 h6 h7 h8 h9] in *.
  destruct (pack_spec t0 0 t1 26) as [-> B0]; [lia..|]. destruct (pack_spec t1 6 t2 19) as [-> B1]; [lia..|].
  destruct (pack_spec t2 13 t3 13) as [-> B2]; [lia..|]. destruct (pack_spec t3 19 t4 6) as [-> B3]; [lia..|].
  destruct (pack_spec t5 0 t6 25) as [-> B4]; [lia..|]. destruct (pack_spec t6 7 t7 19) as [-> B5]; [lia..|].
  destruct (pack_spec t7 13 t8 12) as [-> B6]; [lia..|]. destruct (pack_spec t8 20 t9 6) as [-> B7]; [lia..|].
  rewrite !le_bytes_join by done. cbn [Nat.add]. f_equal.
  pose proof (Z.div_mod t1 (2 ^ 6) ltac:(done)). pose proof (Z.div_mod t2 (2 ^ 13) ltac:(done)). pose proof (Z.div_mod t3 (2 ^ 19) ltac:(done)).
  pose proof (Z.div_mod t6 (2 ^ 7) ltac:(done)). pose proof (Z.div_mod t7 (2 ^ 13) ltac:(done)). pose proof (Z.div_mod t8 (2 ^ 20) ltac:(done)).
  rewrite !Z.pow_0_r, !Z.div_1_r, (Z.mod_small t4), (Z.mod_small t9) by lia.
  change (32 - 26) with 6. change (32 - 19) with 13. change (32 - 13) with 19. change (32 - 25) with 7. change (32 - 12) with 20. lia.
Qed.

(** ** Tests *)

Lemma F_eqp f g : F f = F g <-> fe_val f ≡p fe_val g.
Proof. done. Qed.

Lemma le_bytes_inj n x y : 0 <= x < 256 ^ Z.of_nat n -> 0 <= y < 256 ^ Z.of_nat n -> le_bytes n x = le_bytes n y -> x = y.
Proof. intros Hx Hy H. apply (f_equal le_val) in H. rewrite !le_val_bytes, !Z.mod_small in H by done. done. Qed.

Lemma isequal_spec f g : tight f -> tight g -> fe_isequal f g = Z.b2z (bool_decide (F f = F g)).
Proof.
  intros Hf Hg. unfold fe_isequal. rewrite !tobytes_val by done.
  rewrite verify32_spec by apply le_bytes_length. pose proof (F_range f) as Rf. pose proof (F_range g) as Rg.
  assert (p < 256 ^ Z.of_nat 32) by done. case_decide as Hd.
  - apply le_bytes_inj in Hd; [|lia..]. by rewrite bool_decide_true.
  - rewrite bool_decide_false; [done|]. intros H'. by rewrite H' in Hd.
Qed.

Lemma isodd_spec f : tight f -> fe_isodd f = F f mod 2.
Proof.
  intros Hf. unfold fe_isodd. rewrite tobytes_val by done. change (at_ (le_bytes 32 (F f)) 0) with (uchar (to_byte (F f))).
  change 1 with (Z.ones 1). rewrite Z.land_ones, uchar_to_byte by lia. change (2 ^ 1) with 2.
  apply (Z.mod_mod_divide _ 256 2). by exists 128.
Qed.

(** ** Powers *)

Section powers.
Context (v : Z).

(** [f] is carried and stands for the [e]th power of [v]. *)
Definition is_pow (e : Z) (f : fe) : Prop := 0 <= e /\ tight f /\ fe_val f ≡p v ^ e.

Lemma pow_mul a b f g : is_pow a f -> is_pow b g -> is_pow (a + b) (fe_mul f g).
Proof.
  intros (Ha & Tf & Vf) (Hb & Tg & Vg). destruct (fe_mul_val f g) as [T V]; [by apply tight_loose..|]. split_and!; [lia|done|].
  by rewrite V, Vf, Vg, Z.pow_add_r.
Qed.

Lemma pow_sq a f : is_pow a f -> is_pow (a + a) (fe_sq f).
Proof.
  intros (Ha & Tf & Vf). destruct (fe_sq_val f) as [T V]; [by apply tight_loose|]. split_and!; [lia|done|]. by rewrite V, Vf, Z.pow_add_r.
Qed.

Lemma pow_sq_loop n a f : is_pow a f -> is_pow (a * 2 ^ Z.of_nat n) (sq_loop n f).
Proof.
  revert a f. induction n as [|n IH]; intros a f Hf; [by rewrite Z.mul_1_r|]. cbn [sq_loop].
  rewrite Nat2Z.inj_succ, Z.pow_succ_r by lia. replace (a * (2 * 2 ^ Z.of_nat n)) with ((a + a) * 2 ^ Z.of_nat n) by lia.
  by apply IH, pow_sq.
Qed.

Lemma pow_let a e b (k : fe -> fe) : is_pow a b -> (forall t, is_pow a t -> is_pow e (k t)) -> is_pow e (let t := b in k t).
Proof. auto. Qed.

Lemma pow_eq a e f : is_pow a f -> a = e -> is_pow e f.
Proof. by intros ? <-. Qed.

(** Follows a chain of products and squarings. *)
Ltac power := lazymatch goal with
  | |- is_pow ?e (let t := ?b in @?k t) => eapply (pow_let _ e b k); [power|cbv beta; intros ? ?; power]
  | |- is_pow _ (fe_mul _ _) => eapply pow_mul; power
  | |- is_pow _ (fe_sq _) => eapply pow_sq; power
  | |- is_pow _ (sq_loop _ _) => eapply pow_sq_loop; power
  | |- _ => eassumption end.

Lemma pow_252_3_spec x : is_pow 1 x -> is_pow (2 ^ 252 - 3) (pow_252_3 x).
Proof. intros Hx. unfold pow_252_3. eapply pow_eq; [power|reflexivity]. Qed.
End powers.

(** ** The field *)

Lemma eqp_divide x y : x ≡p y <-> (p | x - y).
Proof.
  unfold eqp. rewrite <- Z.mod_divide by done. split; intros H.
  - by rewrite Zminus_mod, H, Z.sub_diag.
  - replace x with (x - y + y) by ring. by rewrite Z.add_mod, H, Z.add_0_l, Z.mod_mod.
Qed.

Lemma eqp_mul_0 x y : x * y ≡p 0 -> x ≡p 0 \/ y ≡p 0.
Proof. rewrite !eqp_divide, !Z.sub_0_r. apply Z.divide_prime_mul, prime_25519. Qed.

Lemma eqp_fermat x : ~ x ≡p 0 -> x ^ (p - 1) ≡p 1.
Proof. intros H. apply fermat_Z; [apply prime_25519|]. intros H0. by apply H. Qed.

Lemma eqp_pow x y n : x ≡p y -> x ^ n ≡p y ^ n.
Proof. intros H. unfold eqp in *. rewrite <- (Z.mod_pow_l x), H. apply Z.mod_pow_l. Qed.

Definition root : Z := fe_val sqrtm1.

Lemma root_sq : root * root ≡p -1.
Proof. vm_compute. reflexivity. Qed.

Lemma sqrtm1_tight : tight sqrtm1.
Proof. by apply (bool_decide_unpack _); vm_compute. Qed.

(** The fourth roots of one. *)
Lemma fourth_roots q : q ^ 4 ≡p 1 -> q ≡p 1 \/ q ≡p -1 \/ q ≡p root \/ q ≡p - root.
Proof.
  intros H. assert (H0 : (q - 1) * ((q + 1) * ((q - root) * (q + root))) ≡p 0).
  { replace ((q - 1) * ((q + 1) * ((q - root) * (q + root)))) with ((q * q - 1) * (q * q - root * root)) by ring. rewrite root_sq.
    replace ((q * q - 1) * (q * q - -1)) with (q ^ 4 - 1) by ring. by rewrite H. }
  assert (Hm : forall x y, x - y ≡p 0 -> x ≡p y) by (intros x y Hxy; apply eqp_divide; apply eqp_divide in Hxy; by rewrite Z.sub_0_r in Hxy).
  apply eqp_mul_0 in H0 as [H0|H0]; [left; by apply Hm|]. apply eqp_mul_0 in H0 as [H0|H0]; [right; left; by apply Hm|].
  apply eqp_mul_0 in H0 as [H0|H0]; right; right; [left; by apply Hm|right; apply Hm; by rewrite Z.sub_opp_r].
Qed.

Lemma fe_0_tight : tight fe_0. Proof. by apply (bool_decide_unpack _); vm_compute. Qed.
Lemma fe_1_tight : tight fe_1. Proof. by apply (bool_decide_unpack _); vm_compute. Qed.
