(* ===== verification/FeInvert.v ===== *)
(** * Inverses and square roots modulo 2^255 - 19 ([invsqrt], [fe_invert])

    The power [(p-5)/8] that [invsqrt] computes, the choice between its two
    candidates, and the inverse that is made of it; all from the primality of
    [p] in [Primes]. *)
From S2P Require Import Prelude Fmt Mono Primes Fe25519.
From Stdlib Require Import Zbitwise Zdivisibility Zpow_facts.
Open Scope Z_scope.

#[export] Instance eqp_dec x y : Decision (x ≡p y).
Proof. unfold eqp. apply _. Defined.

Lemma F_val f x : fe_val f ≡p x -> F f = x mod p.
Proof. done. Qed.

(** The flags of [invsqrt] as comparisons of residues. *)
Lemma invsqrt_flags x : tight x -> tight (pow_252_3 x) -> tight (fe_mul (fe_sq (pow_252_3 x)) x) ->
  let q := F (fe_mul (fe_sq (pow_252_3 x)) x) in
  invsqrt x = (Z.b2z (bool_decide (q = 1) || bool_decide (q = p - 1) || bool_decide (F x = 0)),
               if bool_decide (q = p - 1) || bool_decide (q = p - F sqrtm1) then fe_mul (pow_252_3 x) sqrtm1 else pow_252_3 x).
Proof.
  intros Hx Ht Hq. unfold invsqrt. set (t := pow_252_3 x) in *. clearbody t. set (f := fe_mul (fe_sq t) x) in *. clearbody f. cbv zeta.
  rewrite !isequal_spec by (try done; try apply fe_0_tight; try apply fe_1_tight; apply fe_neg_val; apply fe_1_tight || apply sqrtm1_tight).
  change (F fe_1) with 1. change (F (fe_neg fe_1)) with (p - 1). change (F (fe_neg sqrtm1)) with (p - F sqrtm1). change (F fe_0) with 0.
  replace (1 - Z.lor _ _) with (Z.b2z (negb (bool_decide (F f = p - 1) || bool_decide (F f = p - F sqrtm1))))
    by (destruct (bool_decide (F f = p - 1)), (bool_decide (F f = p - F sqrtm1)); reflexivity).
  rewrite fe_ccopy_spec. f_equal; [|by destruct (_ || _)].
  by destruct (bool_decide (F f = 1)), (bool_decide (F f = p - 1)), (bool_decide (F x = 0)).
Qed.

(** Powers with an exponent that is not computed. *)
Lemma fermat_quartic v t e : 0 <= e -> 4 * (2 * e + 1) = p - 1 -> t ≡p v ^ e -> ~ v ≡p 0 -> (t * t * v) ^ 4 ≡p 1.
Proof.
  intros He Hp Ht Hv. assert (H : t * t * v ≡p v ^ (2 * e + 1)).
  { rewrite Ht. replace (2 * e + 1) with (e + e + 1) by lia. by rewrite !Z.pow_add_r, Z.pow_1_r by lia. }
  rewrite (eqp_pow _ _ 4 H), <- Z.pow_mul_r by lia. replace ((2 * e + 1) * 4) with (p - 1) by lia. by apply eqp_fermat.
Qed.

Lemma pow_zero v t e : 0 < e -> t ≡p v ^ e -> v ≡p 0 -> t ≡p 0.
Proof. intros He Ht Hv. rewrite Ht, (eqp_pow v 0 e Hv), Z.pow_0_l by done. done. Qed.

Lemma eq_eqp x y : x = y -> x ≡p y.
Proof. by intros ->. Qed.

Lemma eqp_rewrite_l q x y : q ≡p x -> q ≡p y <-> x ≡p y.
Proof. unfold eqp. by intros ->. Qed.

Lemma F_cases f x : 0 <= x < p -> F f = x <-> fe_val f ≡p x.
Proof. intros Hx. unfold F, eqp. by rewrite (Z.mod_small x) by done. Qed.

Lemma power_facts x : tight x -> let v := fe_val x in let t := pow_252_3 x in
  tight t /\ (v ≡p 0 -> fe_val t ≡p 0) /\ (~ v ≡p 0 -> (fe_val t * fe_val t * v) ^ 4 ≡p 1).
Proof.
  intros Hx v t. destruct (pow_252_3_spec v x) as (_ & Ht & Hv).
  { split_and!; [done|done|by rewrite Z.pow_1_r]. }
  split_and!; [exact Ht| |].
  - apply (pow_zero v _ (2 ^ 252 - 3)); [reflexivity|exact Hv].
  - apply (fermat_quartic v _ (2 ^ 252 - 3)); [discriminate|reflexivity|exact Hv].
Qed.

(** The choice between [a] and [a * sqrt(-1)] by the flags. *)
Lemma quartic_choice v a b q : (a * a * v) ^ 4 ≡p 1 -> b ≡p a * root -> q ≡p a * a * v ->
  let p1 := bool_decide (q ≡p 1) in let m1 := bool_decide (q ≡p p - 1) in let ms := bool_decide (q ≡p p - F sqrtm1) in
  let r := if m1 || ms then b else a in r * r * v ≡p if p1 || m1 then 1 else root.
Proof.
  intros H4 Hb Hq. assert (Hg : b * b * v ≡p - q).
  { rewrite Hb, Hq. replace (a * root * (a * root) * v) with (a * a * v * (root * root)) by ring. rewrite root_sq. apply eq_eqp. ring. }
  assert (H4' : q ^ 4 ≡p 1) by (by rewrite (eqp_pow _ _ 4 Hq)). clear H4 Hb.
  destruct (fourth_roots q H4') as [E|[E|[E|E]]]; rewrite !(bool_decide_ext (q ≡p _) _ (eqp_rewrite_l q _ _ E)).
  - rewrite (bool_decide_true (1 ≡p 1)), (bool_decide_false (1 ≡p p - 1)), (bool_decide_false (1 ≡p p - F sqrtm1)) by (by vm_compute).
    cbv zeta. cbn [orb]. by rewrite <- Hq.
  - rewrite (bool_decide_false (-1 ≡p 1)), (bool_decide_true (-1 ≡p p - 1)) by (by vm_compute).
    cbv zeta. cbn [orb]. rewrite Hg, E. reflexivity.
  - rewrite (bool_decide_false (root ≡p 1)), (bool_decide_false (root ≡p p - 1)), (bool_decide_false (root ≡p p - F sqrtm1)) by (by vm_compute).
    cbv zeta. cbn [orb]. by rewrite <- Hq.
  - rewrite (bool_decide_false (- root ≡p 1)), (bool_decide_false (- root ≡p p - 1)), (bool_decide_true (- root ≡p p - F sqrtm1)) by (by vm_compute).
    cbv zeta. cbn [orb]. rewrite Hg, E. apply eq_eqp. ring.
Qed.

(** The inverse square root as the code's comment promises it: [isr], and
    whether [x] is a square. *)
Lemma invsqrt_spec x : tight x -> let v := fe_val x in
  exists s isr, invsqrt x = (s, isr) /\ tight isr /\
    ((v ≡p 0 /\ s = 1 /\ fe_val isr ≡p 0) \/
     (~ v ≡p 0 /\ s = 1 /\ fe_val isr * fe_val isr * v ≡p 1) \/
     (~ v ≡p 0 /\ s = 0 /\ fe_val isr * fe_val isr * v ≡p root)).
Proof.
  intros Hx v. destruct (power_facts x Hx) as (Ht & H0 & H1). fold v in H0, H1.
  destruct (fe_sq_val (pow_252_3 x)) as [_ Hs]; [by apply tight_loose|]. destruct (fe_sq_val (pow_252_3 x)) as [Hs' _]; [by apply tight_loose|].
  destruct (fe_mul_val (fe_sq (pow_252_3 x)) x) as [Hq Hqv]; [by apply tight_loose..|]. rewrite Hs in Hqv. fold v in Hqv.
  destruct (fe_mul_val (pow_252_3 x) sqrtm1) as [Hg Hgv]; [by apply tight_loose|apply tight_loose, sqrtm1_tight|]. fold root in Hgv.
  rewrite (invsqrt_flags x Hx Ht Hq). clear Hs Hs'.
  set (f := fe_mul (fe_sq (pow_252_3 x)) x) in *. set (g := fe_mul (pow_252_3 x) sqrtm1) in *. set (t := pow_252_3 x) in *. clearbody f g t.
  assert (Hc : forall y, 0 <= y < p -> bool_decide (F f = y) = bool_decide (fe_val f ≡p y)).
  { intros y Hy. apply bool_decide_ext. by apply F_cases. }
  rewrite (Hc 1), (Hc (p - 1)), (Hc (p - F sqrtm1)) by (by vm_compute).
  eexists _, _. split; [reflexivity|]. split; [by destruct (_ || _)|].
  destruct (decide (v ≡p 0)) as [Hz|Hz].
  - left. split; [exact Hz|]. rewrite (bool_decide_true (F x = 0)), orb_true_r by (by apply (F_cases x 0)). split; [reflexivity|].
    specialize (H0 Hz). destruct (_ || _); [|exact H0]. by rewrite Hgv, H0.
  - right. rewrite (bool_decide_false (F x = 0)), orb_false_r by (by intros H%(F_cases x 0)).
    pose proof (quartic_choice v (fe_val t) (fe_val g) (fe_val f) (H1 Hz) Hgv Hqv) as Hc'. cbv zeta in Hc'.
    destruct (bool_decide (fe_val f ≡p p - 1) || bool_decide (fe_val f ≡p p - F sqrtm1)) eqn:Er,
      (bool_decide (fe_val f ≡p 1) || bool_decide (fe_val f ≡p p - 1)) eqn:Es; rewrite ?Er in Hc'; rewrite ?Es in Hc';
      first [left; split; [exact Hz|split; [reflexivity|exact Hc']] | right; split; [exact Hz|split; [reflexivity|exact Hc']]].
Qed.

(** [sqrt(-1)] is not a square: its square roots would have order 8, which
    does not divide [p - 1]. *)
Lemma no_eighth_root y k : 0 <= k -> p - 1 = 4 * (2 * k + 1) -> ~ y * y ≡p root.
Proof.
  intros Hk Hp Hy. assert (Hz : ~ y ≡p 0) by (intros Hz; rewrite Hz in Hy; by vm_compute in Hy).
  pose proof (eqp_fermat y Hz) as H. rewrite Hp, Z.pow_mul_r in H by lia.
  assert (H4 : y ^ 4 ≡p -1) by (replace (y ^ 4) with (y * y * (y * y)) by ring; rewrite Hy; apply root_sq).
  rewrite (eqp_pow _ _ _ H4), Z.pow_add_r, Z.pow_mul_r, Z.pow_1_r in H by lia.
  change ((-1) ^ 2) with 1 in H. rewrite Z.pow_1_l in H by done. by vm_compute in H.
Qed.

Lemma root_not_square y : ~ y * y ≡p root.
Proof. apply (no_eighth_root y (2 ^ 252 - 3)); [discriminate|reflexivity]. Qed.

Lemma pow_inverse x o e : 0 < e -> e = p - 2 -> (x ≡p 0 -> o ≡p 0) -> (~ x ≡p 0 -> o * x ≡p 1) -> o ≡p x ^ e.
Proof.
  intros He Hp H0 H1. destruct (decide (x ≡p 0)) as [Hz|Hz].
  - rewrite (H0 Hz), (eqp_pow _ _ e Hz), Z.pow_0_l by done. done.
  - rewrite <- (Z.mul_1_l (x ^ e)), <- (H1 Hz), <- Z.mul_assoc, <- Z.pow_succ_r by lia.
    replace (Z.succ e) with (p - 1) by lia. by rewrite (eqp_fermat x Hz), Z.mul_1_r.
Qed.

(** Inversion is the power [p - 2]. *)
Lemma invert_spec x : loose x -> tight (fe_invert x) /\ fe_val (fe_invert x) ≡p fe_val x ^ (p - 2).
Proof.
  intros Hx. unfold fe_invert. destruct (fe_sq_val x Hx) as [Hs Hsv]. destruct (invsqrt_spec (fe_sq x) Hs) as (s & r & -> & Hr & Hcase).
  cbn [snd]. destruct (fe_sq_val r) as [Hr2 Hr2v]; [by apply tight_loose|].
  destruct (fe_mul_val (fe_sq r) x) as [Ho Hov]; [by apply tight_loose|exact Hx|]. split; [exact Ho|]. rewrite Hr2v in Hov. clear Hr2v.
  apply (pow_inverse _ _ (p - 2)); [reflexivity|reflexivity| |]; intros Hz; rewrite Hov.
  - by rewrite Hz, Z.mul_0_r.
  - assert (Hm : fe_val r * fe_val r * fe_val x * fe_val x ≡p fe_val r * fe_val r * fe_val (fe_sq x)) by (rewrite Hsv; apply eq_eqp; ring).
    rewrite Hm. destruct Hcase as [(H1 & _)|[(_ & _ & H2)|(_ & _ & H2)]].
    + rewrite Hsv in H1. by apply eqp_mul_0 in H1 as [?|?].
    + exact H2.
    + destruct (root_not_square (fe_val r * fe_val x)). rewrite <- H2, Hsv. apply eq_eqp. ring.
Qed.

(** ** Values of expressions *)

Definition is_val (f : fe) (v : Z) : Prop := tight f /\ fe_val f ≡p v.
Definition lo_val (f : fe) (v : Z) : Prop := loose f /\ fe_val f ≡p v.

Lemma lo_of_is f v : is_val f v -> lo_val f v.
Proof. intros [H1 H2]. split; [by apply tight_loose|done]. Qed.

Lemma is_mul f g v w : lo_val f v -> lo_val g w -> is_val (fe_mul f g) (v * w).
Proof. intros [H1 H2] [H3 H4]. destruct (fe_mul_val f g H1 H3) as [H5 H6]. split; [done|by rewrite H6, H2, H4]. Qed.
Lemma is_sq f v : lo_val f v -> is_val (fe_sq f) (v * v).
Proof. intros [H1 H2]. destruct (fe_sq_val f H1) as [H5 H6]. split; [done|by rewrite H6, H2]. Qed.
Lemma is_small f v c : 0 <= c < 2 ^ 31 -> lo_val f v -> is_val (fe_mul_small f c) (v * c).
Proof. intros Hc [H1 H2]. destruct (fe_mul_small_val f c H1 Hc) as [H5 H6]. split; [done|by rewrite H6, H2]. Qed.
Lemma lo_add f g v w : is_val f v -> is_val g w -> lo_val (fe_add f g) (v + w).
Proof. intros [H1 H2] [H3 H4]. destruct (fe_add_val f g H1 H3) as [H5 H6]. split; [done|by rewrite H6, H2, H4]. Qed.
Lemma lo_sub f g v w : is_val f v -> is_val g w -> lo_val (fe_sub f g) (v - w).
Proof. intros [H1 H2] [H3 H4]. destruct (fe_sub_val f g H1 H3) as [H5 H6]. split; [done|by rewrite H6, H2, H4]. Qed.
Lemma is_neg f v : is_val f v -> is_val (fe_neg f) (- v).
Proof. intros [H1 H2]. destruct (fe_neg_val f H1) as [H5 H6]. split; [done|by rewrite H6, H2]. Qed.
Lemma is_eqp f v w : v ≡p w -> is_val f v -> is_val f w.
Proof. intros H [H1 H2]. split; [done|by rewrite H2]. Qed.

Lemma is_const f : bool_decide (tight f) = true -> is_val f (fe_val f).
Proof. intros H%bool_decide_eq_true. by split. Qed.
Lemma is_0 : is_val fe_0 0. Proof. by apply (is_const fe_0). Qed.
Lemma is_1 : is_val fe_1 1. Proof. by apply (is_const fe_1). Qed.
