(* ===== verification/X25519.v ===== *)
(** * Key exchange on Curve25519 ([crypto_x25519] in [monocypher.c])

    The Montgomery ladder with its delayed swaps, on the field elements of
    [Fe25519], against the ladder of the textbook formulas on residues. *)
From S2P Require Import Prelude Fmt Mono Primes Fe25519 FeInvert.
From Stdlib Require Import Zbitwise Zdivisibility Zpow_facts.

Open Scope Z_scope.

(** ** Scalars *)

Definition crypto_eddsa_trim_scalar (inp : bytes) : bytes :=
  let out := alter (fun b => to_byte (Z.land (uchar b) 248)) 0%nat inp in
  let out := alter (fun b => to_byte (Z.land (uchar b) 127)) 31%nat out in
  alter (fun b => to_byte (Z.lor (uchar b) 64)) 31%nat out.

Definition scalar_bit (s : bytes) (i : Z) : Z :=
  if decide (i < 0) then 0
  else Z.land (Z.shiftr (at_ s (Z.to_nat (Z.shiftr i 3))) (Z.land i 7)) 1.

(** ** The ladder *)

(** [x2], [z2], [x3], [z3]. *)
Definition rungs : Type := fe * fe * fe * fe.

(** Replaces (P2, P3) by (P2*2, P2+P3), where [x1] is their difference. *)
Definition ladder_step (x1 : fe) (s : rungs) : rungs :=
  let '(x2, z2, x3, z3) := s in
  let t0 := fe_sub x3 z3 in
  let t1 := fe_sub x2 z2 in
  let x2 := fe_add x2 z2 in
  let z2 := fe_add x3 z3 in
  let z3 := fe_mul t0 x2 in
  let z2 := fe_mul z2 t1 in
  let t0 := fe_sq t1 in
  let t1 := fe_sq x2 in
  let x3 := fe_add z3 z2 in
  let z2 := fe_sub z3 z2 in
  let x2 := fe_mul t1 t0 in
  let t1 := fe_sub t1 t0 in
  let z2 := fe_sq z2 in
  let z3 := fe_mul_small t1 121666 in
  let x3 := fe_sq x3 in
  let t0 := fe_add t0 z3 in
  let z3 := fe_mul x1 z2 in
  let z2 := fe_mul t1 t0 in
  (x2, z2, x3, z3).

Definition swap_rungs (s : rungs) (swap : Z) : rungs :=
  let '(x2, z2, x3, z3) := s in
  let '(x2, x3) := fe_cswap x2 x3 swap in
  let '(z2, z3) := fe_cswap z2 z3 swap in
  (x2, z2, x3, z3).

(** [for(pos = n - 1; pos >= 0; --pos)]; the state and the pending swap. *)
Fixpoint ladder_loop (n : nat) (scalar : bytes) (x1 : fe) (s : rungs) (swap : Z) : rungs * Z :=
  match n with
  | O => (s, swap)
  | S pos =>
      let b := scalar_bit scalar (Z.of_nat pos) in
      let swap := Z.lxor swap b in
      ladder_loop pos scalar x1 (ladder_step x1 (swap_rungs s swap)) b
  end.

Definition scalarmult (scalar p : bytes) (nb_bits : nat) : bytes :=
  let x1 := fe_frombytes p in
  let '(s, swap) := ladder_loop nb_bits scalar x1 (fe_1, fe_0, x1, fe_1) 0 in
  let '(x2, z2, _, _) := swap_rungs s swap in
  fe_tobytes (fe_mul x2 (fe_invert z2)).

Definition crypto_x25519 (your_secret_key their_public_key : bytes) : bytes :=
  scalarmult (crypto_eddsa_trim_scalar your_secret_key) their_public_key 255.

Definition base_point : bytes := x09 :: replicate 31 NUL.
Definition crypto_x25519_public_key (secret_key : bytes) : bytes := crypto_x25519 secret_key base_point.

(** ** Specification: the Montgomery curve [y^2 = x^3 + 486662 x^2 + x] *)

(** A point by its x-coordinate [X/Z], on residues; infinity is [Z = 0]. *)
Definition mont_double (P : Z * Z) : Z * Z :=
  let '(X, Z) := P in
  ((X * X - Z * Z) * (X * X - Z * Z) mod p, 4 * X * Z * (X * X + 486662 * X * Z + Z * Z) mod p).

(** The sum of two points whose difference has x-coordinate [x]. *)
Definition mont_add (x : Z) (P Q : Z * Z) : Z * Z :=
  let '(X2, Z2) := P in
  let '(X3, Z3) := Q in
  (4 * ((X2 * X3 - Z2 * Z3) * (X2 * X3 - Z2 * Z3)) mod p, 4 * x * ((X2 * Z3 - Z2 * X3) * (X2 * Z3 - Z2 * X3)) mod p).

(** From (nP, (n+1)P) to (2nP, (2n+1)P) or ((2n+1)P, (2n+2)P). *)
Definition mont_step (x : Z) (b : bool) (PQ : (Z * Z) * (Z * Z)) : (Z * Z) * (Z * Z) :=
  let '(P, Q) := PQ in
  if b then (mont_add x P Q, mont_double Q) else (mont_double P, mont_add x P Q).

(** Over the [n] lowest bits of [k], the highest first. *)
Fixpoint mont_ladder (n : nat) (k x : Z) (PQ : (Z * Z) * (Z * Z)) : (Z * Z) * (Z * Z) :=
  match n with O => PQ | S i => mont_ladder i k x (mont_step x (Z.testbit k (Z.of_nat i)) PQ) end.

(** The x-coordinate of [k] times the point of x-coordinate [x]; 0 stands for
    infinity. *)
Definition mont_mul (n : nat) (k x : Z) : Z :=
  let '(X, Z) := (mont_ladder n k x ((1, 0), (x, 1))).1 in X * Zpow_mod Z (p - 2) p mod p.

(** RFC 7748: a scalar with its lowest three bits cleared and bit 254 the
    highest, a coordinate without its highest bit. *)
Definition decode_scalar (s : bytes) : Z := 2 ^ 254 + (le_val s mod 2 ^ 254 - le_val s mod 8).
Definition decode_u (s : bytes) : Z := le_val s mod 2 ^ 255.
Definition x25519 (sk u : bytes) : bytes := le_bytes 32 (mont_mul 255 (decode_scalar sk) (decode_u u mod p)).

(** ** Bits of a scalar *)

Lemma at_testbit s k j : 0 <= j < 8 -> Z.testbit (at_ s k) j = Z.testbit (le_val s) (8 * Z.of_nat k + j).
Proof.
  revert k. induction s as [|a s IH]; intros k Hj; [by destruct k; rewrite !Z.testbit_0_l|].
  pose proof (uchar_range a) as Ha. cbn [le_val]. destruct k as [|k].
  - change (at_ (a :: s) 0) with (uchar a). change (8 * Z.of_nat 0 + j) with j.
    rewrite <- (Z.mod_pow2_bits_low (uchar a + _) 8) by lia. change (2 ^ 8) with 256. rewrite (Z.mul_comm 256), Z.mod_add, Z.mod_small by lia. done.
  - change (at_ (a :: s) (S k)) with (at_ s k). rewrite IH by done. replace (8 * Z.of_nat (S k) + j) with (8 * Z.of_nat k + j + 8) by lia.
    rewrite <- (Z.div_pow2_bits (uchar a + _) 8) by lia. change (2 ^ 8) with 256. rewrite (Z.mul_comm 256), Z.div_add, Z.div_small by lia. done.
Qed.

Lemma scalar_bit_testbit s i : 0 <= i -> scalar_bit s i = Z.b2z (Z.testbit (le_val s) i).
Proof.
  intros Hi. unfold scalar_bit. rewrite decide_False by lia. change 7 with (Z.ones 3). change 1 with (Z.ones 1) at 1.
  rewrite !Z.land_ones, !Z.shiftr_div_pow2 by (try apply Z.land_nonneg; lia || (apply Z.mod_pos_bound; done)).
  pose proof (Z.div_mod i (2 ^ 3) ltac:(done)) as D. pose proof (Z.mod_pos_bound i (2 ^ 3) ltac:(done)) as B.
  pose proof (Z.div_pos i (2 ^ 3) Hi ltac:(done)).
  change (2 ^ 1) with 2. rewrite <- Z.testbit_spec' by lia.
  rewrite at_testbit by (change (2 ^ 3) with 8 in *; lia). do 2 f_equal. rewrite Z2Nat.id by done. change (2 ^ 3) with 8 in *. lia.
Qed.

Lemma trim_low b : uchar (to_byte (Z.land (uchar b) 248)) = uchar b - uchar b mod 8.
Proof. by destruct b. Qed.
Lemma trim_high b : uchar (to_byte (Z.lor (uchar (to_byte (Z.land (uchar b) 127))) 64)) = 64 + uchar b mod 64.
Proof. by destruct b. Qed.

Lemma alter_last (f : byte -> byte) m y : alter f (length m) (m ++ [y]) = m ++ [f y].
Proof. induction m as [|a m IH]; [done|]. cbn [length app]. change (a :: alter f (length m) (m ++ [y]) = a :: m ++ [f y]). by rewrite IH. Qed.

Lemma trim_spec s : length s = 32%nat -> le_val (crypto_eddsa_trim_scalar s) = decode_scalar s.
Proof.
  intros Hs. destruct s as [|a s]; [done|]. destruct (exists_last (l := s)) as (m & b & ->); [by intros ->|].
  assert (Hm : length m = 30%nat) by (simpl in Hs; rewrite length_app in Hs; simpl in Hs; lia).
  assert (Ha' : forall (f : byte -> byte) x y, alter f 31%nat (x :: m ++ [y]) = x :: m ++ [f y]).
  { intros f x y. change (x :: alter f 30%nat (m ++ [y]) = x :: m ++ [f y]). f_equal. rewrite <- Hm. apply alter_last. }
  unfold crypto_eddsa_trim_scalar, decode_scalar. cbv zeta. change (alter (fun b => to_byte (Z.land (uchar b) 248)) 0%nat (a :: m ++ [b])) with (to_byte (Z.land (uchar a) 248) :: m ++ [b]).
  rewrite !Ha'. cbn [le_val]. rewrite !le_val_app. cbn [le_val]. rewrite Hm, trim_low, trim_high.
  change (256 ^ Z.of_nat 30) with (2 ^ 240). pose proof (uchar_range a) as Ra. pose proof (uchar_range b) as Rb.
  pose proof (le_val_range m) as Rm. rewrite Hm in Rm. change (256 ^ Z.of_nat 30) with (2 ^ 240) in Rm.
  pose proof (Z.div_mod (uchar b) 64 ltac:(done)) as Db. pose proof (Z.mod_pos_bound (uchar b) 64 ltac:(done)) as Bb.
  pose proof (Z.div_mod (uchar a) 8 ltac:(done)) as Da. pose proof (Z.mod_pos_bound (uchar a) 8 ltac:(done)) as Ba.
  set (v := uchar a + 256 * (le_val m + 2 ^ 240 * (uchar b + 256 * 0))).
  assert (H1 : v mod 8 = uchar a mod 8).
  { symmetry. apply (Z.mod_unique_pos _ _ (uchar a / 8 + 32 * (le_val m + 2 ^ 240 * uchar b))); unfold v; lia. }
  assert (H2 : v mod 2 ^ 254 = uchar a + 256 * (le_val m + 2 ^ 240 * (uchar b mod 64))).
  { symmetry. apply (Z.mod_unique_pos _ _ (uchar b / 64)); unfold v; lia. }
  rewrite H1, H2. lia.
Qed.

(** ** The ladder *)

Definition rungs_val (s : rungs) (PQ : (Z * Z) * (Z * Z)) : Prop :=
  let '(x2, z2, x3, z3) := s in
  is_val x2 PQ.1.1 /\ is_val z2 PQ.1.2 /\ is_val x3 PQ.2.1 /\ is_val z3 PQ.2.2.

(** Follows an expression of field operations. *)
Ltac vals := lazymatch goal with
  | |- lo_val (fe_add _ _) _ => apply lo_add; vals
  | |- lo_val (fe_sub _ _) _ => apply lo_sub; vals
  | |- lo_val _ _ => apply lo_of_is; vals
  | |- is_val (fe_mul _ _) _ => apply is_mul; vals
  | |- is_val (fe_sq _) _ => apply is_sq; vals
  | |- is_val (fe_mul_small _ _) _ => apply is_small; [done|vals]
  | |- is_val _ _ => eassumption end.

(** [f] has a value that is equal to [v] as a polynomial. *)
Ltac by_vals := eapply is_eqp; [|vals]; rewrite ?eqp_mod; apply eq_eqp; ring.

Lemma ladder_step_spec x1 x s P Q : is_val x1 x -> rungs_val s (P, Q) -> rungs_val (ladder_step x1 s) (mont_step x false (P, Q)).
Proof.
  destruct s as [[[x2 z2] x3] z3], P as [X2 Z2], Q as [X3 Z3]. unfold rungs_val. cbn [fst snd]. intros Hx (H1 & H2 & H3 & H4).
  unfold ladder_step. cbv zeta. unfold mont_step, mont_double, mont_add. cbn [fst snd]. split_and!; by_vals.
Qed.

Definition swapped {A} (b : bool) (PQ : A * A) : A * A := if b then (PQ.2, PQ.1) else PQ.

Lemma swap_rungs_spec s b PQ : rungs_val s PQ -> rungs_val (swap_rungs s (Z.b2z b)) (swapped b PQ).
Proof.
  destruct s as [[[x2 z2] x3] z3], PQ as [P Q]. unfold swap_rungs. rewrite !fe_cswap_spec. destruct b; cbn; tauto.
Qed.

Lemma mont_add_comm x P Q : mont_add x P Q = mont_add x Q P.
Proof. destruct P as [X2 Z2], Q as [X3 Z3]. unfold mont_add. f_equal; f_equal; ring. Qed.

Lemma mont_step_swapped x b PQ : mont_step x false (swapped b PQ) = swapped b (mont_step x b PQ).
Proof. destruct PQ as [P Q], b; [|done]. cbn. by rewrite (mont_add_comm x Q P). Qed.

Lemma ladder_loop_spec n scalar x1 x s sw PQ : is_val x1 x -> rungs_val s (swapped sw PQ) ->
  exists s' sw', ladder_loop n scalar x1 s (Z.b2z sw) = (s', Z.b2z sw') /\ rungs_val s' (swapped sw' (mont_ladder n (le_val scalar) x PQ)).
Proof.
  intros Hx. revert s sw PQ. induction n as [|n IH]; intros s sw PQ Hs; [by exists s, sw|].
  cbn [ladder_loop mont_ladder]. rewrite scalar_bit_testbit by lia. set (b := Z.testbit (le_val scalar) (Z.of_nat n)).
  replace (Z.lxor (Z.b2z sw) (Z.b2z b)) with (Z.b2z (xorb sw b)) by (by destruct sw, b).
  apply IH. rewrite <- mont_step_swapped. destruct (swapped b PQ) as [P Q] eqn:E.
  apply ladder_step_spec; [done|]. rewrite <- E. replace (swapped b PQ) with (swapped (xorb sw b) (swapped sw PQ)) by (by destruct sw, b, PQ).
  by apply swap_rungs_spec.
Qed.

Lemma scalarmult_spec scalar u n : length u = 32%nat ->
  scalarmult scalar u n = le_bytes 32 (mont_mul n (le_val scalar) (decode_u u mod p)).
Proof.
  intros Hu. unfold scalarmult, fe_frombytes. destruct (frombytes_mask_val u 1 Hu ltac:(lia)) as [T V].
  assert (Hx : is_val (fe_frombytes_mask u 1) (decode_u u mod p)) by (split; [done|by rewrite eqp_mod]).
  change 0 with (Z.b2z false). destruct (ladder_loop_spec n scalar _ _ (fe_1, fe_0, fe_frombytes_mask u 1, fe_1) false ((1, 0), (decode_u u mod p, 1)) Hx) as (s & sw & -> & Hs).
  { cbn. auto using is_0, is_1. }
  apply (swap_rungs_spec _ sw) in Hs. replace (swapped sw (swapped sw _)) with (mont_ladder n (le_val scalar) (decode_u u mod p) (1, 0, (decode_u u mod p, 1))) in Hs by (by destruct sw, (mont_ladder _ _ _ _)).
  unfold mont_mul. destruct (swap_rungs s (Z.b2z sw)) as [[[x2 z2] x3] z3]. destruct (mont_ladder _ _ _ _) as [[X Z] Q]. destruct Hs as (H1 & H2 & _). cbn [fst snd] in *.
  destruct (invert_spec z2) as [H3 H4]; [apply tight_loose, H2|]. destruct (fe_mul_val x2 (fe_invert z2)) as [H5 H6]; [apply tight_loose, H1|by apply tight_loose|].
  rewrite tobytes_val by done. f_equal. unfold F. rewrite Zpow_mod_correct by done.
  change (fe_val (fe_mul x2 (fe_invert z2)) ≡p X * (Z ^ (p - 2) mod p)). destruct H1 as [_ H1], H2 as [_ H2].
  by rewrite H6, H4, H1, (eqp_pow _ _ _ H2), eqp_mod.
Qed.

(** [crypto_x25519] is the function of RFC 7748 for every secret key and
    every public value: the scalar is clamped, the highest bit of the
    coordinate is ignored, and the result is the x-coordinate that the ladder
    over the curve's double and differential add formulas gives modulo
    2^255 - 19, 0 for the point at infinity. *)
Lemma x25519_ladder sk u : length sk = 32%nat -> length u = 32%nat -> crypto_x25519 sk u = x25519 sk u.
Proof. intros Hs Hu. unfold crypto_x25519, x25519. by rewrite scalarmult_spec, trim_spec. Qed.
