(* ===== verification/ModL.v ===== *)
(** * Arithmetic modulo the order of Curve25519's subgroup ([monocypher.c]:
    [multiply] .. [crypto_eddsa_mul_add])

    Numbers are arrays of 32-bit words, products are schoolbook, and the
    reduction is Barrett's. *)
From S2P Require Import Prelude Fmt Mono.

Open Scope Z_scope.

Definition L : list Z :=
  [0x5cf5d3ed; 0x5812631a; 0xa2f79cd6; 0x14def9de; 0x00000000; 0x00000000; 0x00000000; 0x10000000].

(** The inner loop of a product: [p[i+j] += a * b[j]] for the [n] words of
    [b]; the last carry, and [p]. *)
Definition mul_row (i : nat) (a : Z) (n : nat) (b p : list Z) : Z * list Z :=
  foldl (fun '(carry, p) j =>
    let carry := u64 (carry + u64 (word p (i + j) + u64 (a * word b j))) in
    (Z.shiftr carry 32, <[(i + j)%nat := u32 carry]> p)) (0, p) (seq 0 n).

(** The outer loop: [m] words of [a] by [n] words of [b], added to [p]. *)
Definition rows (m : nat) (a : list Z) (n : nat) (b p : list Z) : list Z :=
  foldl (fun p i => let '(carry, p) := mul_row i (word a i) n b p in <[(i + n)%nat := u32 carry]> p) p (seq 0 m).

(** [p = a*b + p]. *)
Definition multiply (p a b : list Z) : list Z := rows 8 a 8 b p.

Definition is_above_l (x : list Z) : Z :=
  foldl (fun carry i => Z.shiftr (u64 (carry + (word x i + Z.land (u32 (Z.lnot (word L i))) 0xffffffff))) 32) 1 (seq 0 8).

(** [carry += x[i] + (~y[i] & mask); r[i] = carry; carry >>= 32]. *)
Definition sub_words (carry : Z) (x y : list Z) (mask : Z) : list Z :=
  (foldl (fun '(carry, r) i =>
    let carry := u64 (carry + (word x i + Z.land (u32 (Z.lnot (word y i))) mask)) in
    (Z.shiftr carry 32, r ++ [u32 carry])) (carry, []) (seq 0 8)).2.

Definition remove_l (x : list Z) : list Z :=
  let carry := is_above_l x in
  let mask := u32 (u32 (Z.lnot carry) + 1) in
  sub_words carry x L mask.

Definition barrett_r : list Z :=
  [0x0a2c131b; 0xed9ce5a3; 0x086329a7; 0x2106215d; 0xffffffeb; 0xffffffff; 0xffffffff; 0xffffffff; 0xf].

(** [xr = floor(xr / 2^512) * L], of which only the first 256 bits. *)
Definition low_rows (xr : list Z) : list Z :=
  foldl (fun xr i => (mul_row i (word xr (i + 16)) (8 - i) L xr).2) xr (seq 0 8).

(** [xr = x * r], then its quotient times [L], then [x - xr]. *)
Definition mod_l (x : list Z) : bytes :=
  let xr := rows 9 barrett_r 16 x (replicate 25 0) in
  let xr := low_rows (replicate 8 0 ++ drop 8 xr) in
  let xr := sub_words 1 x xr 0xffffffff in
  store32_le_buf (remove_l xr).

Definition crypto_eddsa_reduce (expanded : bytes) : bytes := mod_l (load32_le_buf expanded 16).

(** [(a * b) + c]. *)
Definition crypto_eddsa_mul_add (a b c : bytes) : bytes :=
  let A := load32_le_buf a 8 in
  let B := load32_le_buf b 8 in
  let p := load32_le_buf c 8 ++ replicate 8 0 in
  mod_l (multiply p A B).

(** ** The order *)

Definition order : Z := 2 ^ 252 + 27742317777372353535851937790883648493.

Lemma L_val : limbs L = order.
Proof. reflexivity. Qed.

Lemma barrett_val : limbs barrett_r = 2 ^ 512 / order.
Proof. vm_compute. reflexivity. Qed.

(** ** Arrays of words *)

Lemma limbs_app s t : limbs (s ++ t) = limbs s + 2 ^ (32 * Z.of_nat (length s)) * limbs t.
Proof.
  induction s as [|a s IH]; [by rewrite Z.mul_1_l|]. cbn [app limbs length]. rewrite IH, Nat2Z.inj_succ.
  replace (32 * Z.succ (Z.of_nat (length s))) with (32 + 32 * Z.of_nat (length s)) by lia. rewrite Z.pow_add_r by lia. lia.
Qed.

Lemma limbs_range s : Forall limb s -> 0 <= limbs s < 2 ^ (32 * Z.of_nat (length s)).
Proof.
  induction 1 as [|a s Ha _ IH]; [done|]. cbn [limbs length]. rewrite Nat2Z.inj_succ. unfold limb in Ha.
  replace (32 * Z.succ (Z.of_nat (length s))) with (32 + 32 * Z.of_nat (length s)) by lia. rewrite Z.pow_add_r by lia.
  pose proof (Z.pow_pos_nonneg 2 (32 * Z.of_nat (length s))). nia.
Qed.

Lemma word_lookup s i : (i < length s)%nat -> s !! i = Some (word s i).
Proof. intros H. unfold word. destruct (lookup_lt_is_Some_2 s i H) as [x ->]. done. Qed.

Lemma word_is_limb s i : Forall limb s -> limb (word s i).
Proof. intros H. unfold word. destruct (s !! i) eqn:E; [by apply (Forall_lookup_1 _ _ _ _ H E)|done]. Qed.

Lemma limbs_insert s i v : (i < length s)%nat -> limbs (<[i := v]> s) = limbs s + (v - word s i) * 2 ^ (32 * Z.of_nat i).
Proof.
  revert i. induction s as [|a s IH]; intros i H; [simpl in H; lia|]. destruct i as [|i].
  - change (<[0%nat := v]> (a :: s)) with (v :: s). change (word (a :: s) 0) with a. cbn [limbs]. change (2 ^ (32 * Z.of_nat 0)) with 1. lia.
  - change (<[S i := v]> (a :: s)) with (a :: <[i := v]> s). change (word (a :: s) (S i)) with (word s i). cbn [limbs].
    rewrite IH by (simpl in H; lia). replace (32 * Z.of_nat (S i)) with (32 + 32 * Z.of_nat i) by lia. rewrite Z.pow_add_r by lia. lia.
Qed.

Lemma word_insert s i v j : (i < length s)%nat -> word (<[i := v]> s) j = if decide (j = i) then v else word s j.
Proof.
  intros H. unfold word. case_decide as E; [subst; by rewrite list_lookup_insert_eq|by rewrite list_lookup_insert_ne].
Qed.

Lemma limbs_take_S s n : (n < length s)%nat -> limbs (take (S n) s) = limbs (take n s) + word s n * 2 ^ (32 * Z.of_nat n).
Proof.
  intros H. rewrite (take_S_r _ _ _ (word_lookup s n H)), limbs_app, length_take, Nat.min_l by lia. cbn [limbs]. lia.
Qed.

(** ** Products *)

(** One row adds [a * b] at the [i]th word; what does not fit in its words is
    the carry. *)
Lemma mul_row_spec i a n b p : limb a -> Forall limb b -> Forall limb p -> (n <= length b)%nat -> (i + n <= length p)%nat ->
  exists c p', mul_row i a n b p = (c, p') /\ limb c /\ Forall limb p' /\ length p' = length p /\
    limbs p' + c * 2 ^ (32 * Z.of_nat (i + n)) = limbs p + a * limbs (take n b) * 2 ^ (32 * Z.of_nat i) /\
    (forall k, (k < i \/ i + n <= k)%nat -> word p' k = word p k).
Proof.
  intros Ha Hb Hp. induction n as [|n IH]; intros Hn Hl.
  - exists 0, p. split_and!; [done|done|done|done| |done]. change (limbs (take 0 b)) with 0. ring.
  - destruct IH as (c & p' & E & Hc & Hp' & Hlen & Hval & Hsame); [lia..|].
    unfold mul_row in *. rewrite seq_S, foldl_app, E. cbn [foldl Nat.add].
    pose proof (word_is_limb b n Hb) as Hbn. pose proof (word_is_limb p' (i + n) Hp') as Hpn. unfold limb in *.
    assert (Hs : 0 <= a * word b n <= (2 ^ 32 - 1) * (2 ^ 32 - 1)) by nia.
    rewrite (wrapu_id 64 (a * _)), (wrapu_id 64 (word p' _ + _)), (wrapu_id 64 (c + _)) by lia.
    set (s := c + (word p' (i + n) + a * word b n)). assert (Hs' : 0 <= s < 2 ^ 64) by (unfold s; lia).
    pose proof (Z.div_mod s (2 ^ 32) ltac:(done)) as D. pose proof (Z.mod_pos_bound s (2 ^ 32) ltac:(done)) as B.
    eexists _, _. split; [reflexivity|]. rewrite Z.shiftr_div_pow2 by lia. split_and!.
    + apply Z.div_pos; lia.
    + apply Z.div_lt_upper_bound; lia.
    + apply Forall_insert; [done|]. exact B.
    + by rewrite length_insert.
    + rewrite limbs_insert, limbs_take_S by lia. change (u32 s) with (s mod 2 ^ 32).
      replace (32 * Z.of_nat (i + S n)) with (32 + (32 * Z.of_nat n + 32 * Z.of_nat i)) by lia.
      replace (32 * Z.of_nat (i + n)) with (32 * Z.of_nat n + 32 * Z.of_nat i) in * by lia.
      rewrite (Z.pow_add_r 2 32) by lia. rewrite Z.pow_add_r in * by lia.
      set (w := 2 ^ (32 * Z.of_nat n)) in *. set (w' := 2 ^ (32 * Z.of_nat i)) in *. 
      transitivity (limbs p' + (2 ^ 32 * (s / 2 ^ 32) + s mod 2 ^ 32 - word p' (i + n)) * (w * w')); [ring|]. rewrite <- D. unfold s.
      transitivity (limbs p' + c * (w * w') + a * word b n * (w * w')); [ring|]. rewrite Hval. ring.
    + intros k Hk. rewrite word_insert by lia. rewrite decide_False by lia. apply Hsame. lia.
Qed.

(** The rows of a product into words that are zero where the carries go. *)
Lemma rows_spec m a n b p : Forall limb a -> Forall limb b -> Forall limb p -> (m <= length a)%nat -> length b = n -> (m + n <= length p)%nat ->
  (forall k, (n <= k)%nat -> word p k = 0) ->
  Forall limb (rows m a n b p) /\ length (rows m a n b p) = length p /\
  limbs (rows m a n b p) = limbs p + limbs (take m a) * limbs b /\ (forall k, (m + n <= k)%nat -> word (rows m a n b p) k = 0).
Proof.
  intros Ha Hb Hp Hm Hn Hl Hz. induction m as [|m IH].
  - change (rows 0 a n b p) with p. split_and!; [done|done| |done]. change (limbs (take 0 a)) with 0. ring.
  - destruct IH as (H1 & H2 & H3 & H4); [lia..|]. unfold rows in *. rewrite seq_S, foldl_app. set (q := foldl _ p (seq 0 m)) in *.
    cbn [foldl Nat.add]. destruct (mul_row_spec m (word a m) n b q) as (c & q' & -> & Hc & Hq' & Hlen & Hval & Hsame); [by apply word_is_limb|done|done|lia|lia|].
    unfold limb in Hc. rewrite wrapu_id by lia. split_and!.
    + by apply Forall_insert.
    + by rewrite length_insert, Hlen.
    + rewrite limbs_insert by lia. rewrite Hsame, H4 by lia. rewrite limbs_take_S by lia. rewrite (take_ge b) in Hval by lia.
      rewrite H3 in Hval. replace ((c - 0) * 2 ^ (32 * Z.of_nat (m + n))) with (c * 2 ^ (32 * Z.of_nat (m + n))) by ring. rewrite Hval. ring.
    + intros k Hk. rewrite word_insert by lia. rewrite decide_False by lia. rewrite Hsame by lia. apply H4. lia.
Qed.

(** ** Sums *)

Section sums.
Context (x z : list Z) (Hx : Forall limb x) (Hz : Forall limb z) (Hlx : (8 <= length x)%nat) (Hlz : (8 <= length z)%nat).
(** What is added to each word. *)
Context (g : nat -> Z) (Hg : forall i, (i < 8)%nat -> g i = word z i) (c0 : Z) (Hc0 : 0 <= c0 <= 1).

Lemma carry_sum n : (n <= 8)%nat ->
  exists c, foldl (fun carry i => Z.shiftr (u64 (carry + (word x i + g i))) 32) c0 (seq 0 n) = c /\
  exists r, foldl (fun '(carry, r) i => let carry := u64 (carry + (word x i + g i)) in (Z.shiftr carry 32, r ++ [u32 carry])) (c0, []) (seq 0 n) = (c, r) /\
    0 <= c <= 1 /\ Forall limb r /\ length r = n /\ limbs r + c * 2 ^ (32 * Z.of_nat n) = c0 + limbs (take n x) + limbs (take n z).
Proof.
  induction n as [|n IH]; intros Hn.
  - exists c0. split; [done|]. exists []. split_and!; [done|lia|lia|done|done|]. change (limbs (take 0 x)) with 0. change (limbs (take 0 z)) with 0. cbn [limbs]. change (2 ^ (32 * Z.of_nat 0)) with 1. lia.
  - destruct IH as (c & E & r & E' & Hc & Hr & Hlr & Hval); [lia|]. rewrite seq_S, !foldl_app, E, E'. cbn [foldl Nat.add].
    rewrite Hg by lia. pose proof (word_is_limb x n Hx) as Hxn. pose proof (word_is_limb z n Hz) as Hzn. unfold limb in Hxn, Hzn.
    rewrite wrapu_id by lia. set (s := c + (word x n + word z n)). rewrite Z.shiftr_div_pow2 by lia.
    pose proof (Z.div_mod s (2 ^ 32) ltac:(done)) as D. pose proof (Z.mod_pos_bound s (2 ^ 32) ltac:(done)) as B.
    eexists. split; [reflexivity|]. eexists. split; [reflexivity|]. split_and!.
    + apply Z.div_pos; lia.
    + assert (s / 2 ^ 32 < 2); [apply Z.div_lt_upper_bound; lia|lia].
    + apply Forall_app. split; [done|]. by repeat constructor; apply B.
    + rewrite length_app. simpl. lia.
    + rewrite limbs_app, Hlr, !limbs_take_S by lia. cbn [limbs]. change (u32 s) with (s mod 2 ^ 32).
      replace (32 * Z.of_nat (S n)) with (32 + 32 * Z.of_nat n) by lia. rewrite Z.pow_add_r by lia. set (w := 2 ^ (32 * Z.of_nat n)) in *.
      transitivity (limbs r + (2 ^ 32 * (s / 2 ^ 32) + s mod 2 ^ 32) * w); [ring|]. rewrite <- D. unfold s.
      transitivity (limbs r + c * w + (word x n + word z n) * w); [ring|]. rewrite Hval. ring.
Qed.
End sums.

Lemma limbs_complement y : limbs ((fun v => 2 ^ 32 - 1 - v) <$> y) = 2 ^ (32 * Z.of_nat (length y)) - 1 - limbs y.
Proof.
  induction y as [|a y IH]; [done|]. cbn [fmap list_fmap limbs length]. change (list_fmap _ _ ?f y) with (f <$> y). rewrite IH.
  replace (32 * Z.of_nat (S (length y))) with (32 + 32 * Z.of_nat (length y)) by lia. rewrite Z.pow_add_r by lia. lia.
Qed.

Lemma complement_limb y : Forall limb y -> Forall limb ((fun v => 2 ^ 32 - 1 - v) <$> y).
Proof. intros H. apply Forall_fmap. eapply Forall_impl; [exact H|]. unfold limb. simpl. lia. Qed.

Lemma land_ones32 v : limb v -> Z.land (u32 (Z.lnot v)) 0xffffffff = 2 ^ 32 - 1 - v.
Proof.
  intros H. unfold limb in H. change 0xffffffff with (Z.ones 32). rewrite Z.land_ones by lia. unfold wrapu. rewrite Z.mod_mod by done.
  symmetry. apply (Z.mod_unique_pos _ _ (-1)); unfold Z.lnot; lia.
Qed.

Lemma word_complement y i : (i < length y)%nat -> word ((fun v => 2 ^ 32 - 1 - v) <$> y) i = 2 ^ 32 - 1 - word y i.
Proof. intros H. unfold word at 1. rewrite list_lookup_fmap, (word_lookup y i H). done. Qed.

Lemma word_take y n i : (i < n)%nat -> word (take n y) i = word y i.
Proof. intros H. unfold word. by rewrite lookup_take_lt. Qed.

(** [x - y - 1 + carry]. *)
Lemma sub_words_spec c0 x y : Forall limb x -> Forall limb y -> (8 <= length x)%nat -> (8 <= length y)%nat -> 0 <= c0 <= 1 ->
  let r := sub_words c0 x y 0xffffffff in
  Forall limb r /\ length r = 8%nat /\ limbs r = (limbs (take 8 x) - limbs (take 8 y) - 1 + c0) mod 2 ^ 256.
Proof.
  intros Hx Hy Hlx Hly Hc. assert (Hl8 : length (take 8 y) = 8%nat) by (rewrite length_take; lia).
  destruct (carry_sum x ((fun v => 2 ^ 32 - 1 - v) <$> take 8 y) Hx (complement_limb _ (Forall_take _ _ _ Hy)) Hlx ltac:(rewrite length_fmap; lia)
    (fun i => Z.land (u32 (Z.lnot (word y i))) 0xffffffff)) with (c0 := c0) (n := 8%nat) as (c & _ & r & E & Hc' & Hr & Hlr & Hval).
  { intros i Hi. rewrite word_complement, word_take by lia. apply land_ones32. by apply word_is_limb. }
  { done. } { done. }
  assert (E' : sub_words c0 x y 0xffffffff = r) by exact (f_equal snd E). rewrite E'. split_and!; [done|done|].
  rewrite (take_ge (_ <$> _)), limbs_complement, Hl8 in Hval by (rewrite length_fmap; lia).
  change (32 * Z.of_nat 8) with 256 in Hval. pose proof (limbs_range r Hr) as Rr. rewrite Hlr in Rr. change (32 * Z.of_nat 8) with 256 in Rr.
  apply (Z.mod_unique_pos _ _ (c - 1)); lia.
Qed.

Lemma limbs_inj s t : Forall limb s -> Forall limb t -> length s = length t -> limbs s = limbs t -> s = t.
Proof.
  intros Hs. revert t. induction Hs as [|a s Ha Hs IH]; intros [|b t] Ht Hl H; try done. apply Forall_cons in Ht as [Hb Ht].
  cbn [limbs] in H. unfold limb in *. assert (a = b /\ limbs s = limbs t) as [-> E] by lia. f_equal. apply IH; [done| |done]. by injection Hl.
Qed.

Lemma sub_words_zero x y : Forall limb x -> length x = 8%nat -> sub_words 0 x y 0 = x.
Proof.
  intros Hx Hlx.
  destruct (carry_sum x (replicate 8 0) Hx ltac:(by repeat constructor) ltac:(lia) ltac:(done)
    (fun i => Z.land (u32 (Z.lnot (word y i))) 0)) with (c0 := 0) (n := 8%nat) as (c & _ & r & E & Hc' & Hr & Hlr & Hval).
  { intros i Hi. rewrite Z.land_0_r. do 8 (destruct i as [|i]; [done|]). lia. }
  { done. } { done. }
  assert (E' : sub_words 0 x y 0 = r) by exact (f_equal snd E). rewrite E'. rewrite take_ge in Hval by lia. change (limbs (take 8 (replicate 8 0))) with 0 in Hval.
  pose proof (limbs_range r Hr) as Rr. rewrite Hlr in Rr. pose proof (limbs_range x Hx) as Rx. rewrite Hlx in Rx.
  change (32 * Z.of_nat 8) with 256 in *. apply limbs_inj; [done|done|lia|lia].
Qed.

(** ** The reduction *)

Lemma is_above_spec x : Forall limb x -> length x = 8%nat -> is_above_l x = Z.b2z (bool_decide (order <= limbs x)).
Proof.
  intros Hx Hlx. assert (HL : Forall limb L) by (repeat constructor; done).
  destruct (carry_sum x ((fun v => 2 ^ 32 - 1 - v) <$> L) Hx (complement_limb L HL) ltac:(lia) ltac:(done)
    (fun i => Z.land (u32 (Z.lnot (word L i))) 0xffffffff)) with (c0 := 1) (n := 8%nat) as (c & E & r & _ & Hc & Hr & Hlr & Hval).
  { intros i Hi. rewrite word_complement by done. apply land_ones32. by apply word_is_limb. }
  { done. } { done. }
  assert (E' : is_above_l x = c) by exact E. rewrite E'. rewrite (take_ge x), (take_ge (_ <$> L)), limbs_complement, L_val in Hval by (try rewrite length_fmap; simpl; lia).
  pose proof (limbs_range r Hr) as Rr. rewrite Hlr in Rr. pose proof (limbs_range x Hx) as Rx. rewrite Hlx in Rx.
  change (32 * Z.of_nat 8) with 256 in *. change (32 * Z.of_nat (length L)) with 256 in Hval.
  assert (Ho : 0 < order < 2 ^ 256) by done. case_bool_decide; simpl; lia.
Qed.

Lemma remove_l_spec x : Forall limb x -> length x = 8%nat -> limbs x < 2 * order ->
  Forall limb (remove_l x) /\ length (remove_l x) = 8%nat /\ limbs (remove_l x) = limbs x mod order.
Proof.
  intros Hx Hlx Hlt. unfold remove_l. rewrite is_above_spec by done. pose proof (limbs_range x Hx) as Rx. rewrite Hlx in Rx. change (32 * Z.of_nat 8) with 256 in Rx.
  case_bool_decide as Hd; cbn [Z.b2z].
  - change (u32 (u32 (Z.lnot 1) + 1)) with 0xffffffff.
    destruct (sub_words_spec 1 x L Hx ltac:(repeat constructor; done) ltac:(lia) ltac:(done) ltac:(lia)) as (H1 & H2 & H3).
    split_and!; [done|done|]. rewrite H3, !take_ge, L_val by (simpl; lia). assert (Ho : 0 < order < 2 ^ 256) by done.
    rewrite Z.mod_small by lia. apply (Z.mod_unique_pos _ _ 1); lia.
  - change (u32 (u32 (Z.lnot 0) + 1)) with 0. rewrite sub_words_zero by done. split_and!; [done|done|]. rewrite Z.mod_small by lia. done.
Qed.

(** The quotient estimate is at most one too small. *)
Lemma barrett_quotient x : 0 <= x < 2 ^ 512 -> let q := x * (2 ^ 512 / order) / 2 ^ 512 in 0 <= q /\ 0 <= x - q * order < 2 * order.
Proof.
  intros Hx q. assert (Ho : 0 < order < 2 ^ 253) by done. set (R := 2 ^ 512 / order) in *.
  pose proof (Z.div_mod (2 ^ 512) order ltac:(lia)) as DR. pose proof (Z.mod_pos_bound (2 ^ 512) order ltac:(lia)) as BR. fold R in DR.
  pose proof (Z.div_mod (x * R) (2 ^ 512) ltac:(done)) as Dq. pose proof (Z.mod_pos_bound (x * R) (2 ^ 512) ltac:(done)) as Bq. fold q in Dq.
  set (e := 2 ^ 512 mod order) in *. set (f := (x * R) mod 2 ^ 512) in *. set (M := 2 ^ 512) in *.
  assert (HM : 0 < M) by done. assert (HR : 0 <= R) by (apply Z.div_pos; lia).
  split; [apply Z.div_pos; nia|].
  (* M * (x - q*order) = x * e + f * order *)
  assert (E : M * (x - q * order) = x * e + f * order).
  { transitivity (x * M - (M * q) * order); [ring|]. replace (M * q) with (x * R - f) by lia. rewrite DR at 1. ring. }
  clearbody M e f q R. split; nia.
Qed.

(** The product with [L] up to [2^256], from the quotient in the words above. *)
Lemma low_product xr : Forall limb xr -> length xr = 25%nat -> limbs (take 8 xr) = 0 ->
  let r := low_rows xr in
  Forall limb r /\ length r = 25%nat /\ limbs (take 8 r) = limbs (take 8 (drop 16 xr)) * order mod 2 ^ 256.
Proof.
  intros Hx Hlx H0. assert (HL : Forall limb L) by (repeat constructor; done).
  assert (Hn : forall n, (n <= 8)%nat ->
    let r := foldl (fun xr i => (mul_row i (word xr (i + 16)) (8 - i) L xr).2) xr (seq 0 n) in
    Forall limb r /\ length r = 25%nat /\ (forall k, (8 <= k)%nat -> word r k = word xr k) /\
    exists m, limbs (take 8 r) = limbs (take n (drop 16 xr)) * order - m * 2 ^ 256).
  { induction n as [|n IH]; intros Hn; [cbn [seq foldl]; split_and!; [done|done|done|]; exists 0; rewrite H0; done|].
    destruct IH as (H1 & H2 & H3 & m & H4); [lia|]. cbv zeta. rewrite seq_S, foldl_app. set (q := foldl _ xr (seq 0 n)) in *. cbn [foldl Nat.add].
    destruct (mul_row_spec n (word q (n + 16)) (8 - n) L q) as (c & q' & -> & Hc & Hq' & Hlen & Hval & Hsame); [by apply word_is_limb|done|done|simpl; lia|lia|].
    cbn [snd]. replace (n + (8 - n))%nat with 8%nat in * by lia. split_and!; [done|lia|intros k Hk; rewrite Hsame by lia; by apply H3|].
    assert (Hdrop : drop 8 q' = drop 8 q).
    { apply list_eq. intros k. rewrite !lookup_drop. destruct (decide (8 + k < 25)%nat).
      - rewrite !word_lookup by lia. f_equal. apply Hsame. lia.
      - rewrite !lookup_ge_None_2 by lia. done. }
    rewrite H3 in Hval by lia. rewrite <- (take_drop 8 q'), <- (take_drop 8 q), !limbs_app, Hdrop, !length_take, !Nat.min_l in Hval by lia.
    change (32 * Z.of_nat 8) with 256 in Hval.
    assert (HLn : exists k, limbs (take (8 - n) L) * 2 ^ (32 * Z.of_nat n) = order * 2 ^ (32 * Z.of_nat n) - k * 2 ^ 256).
    { exists (limbs (drop (8 - n) L)). assert (HS : order = limbs (take (8 - n) L) + 2 ^ (32 * Z.of_nat (8 - n)) * limbs (drop (8 - n) L)).
      { rewrite <- L_val. rewrite <- (take_drop (8 - n) L) at 1. rewrite limbs_app, length_take, Nat.min_l by (simpl; lia). done. }
      assert (HP : 2 ^ (32 * Z.of_nat (8 - n)) * 2 ^ (32 * Z.of_nat n) = 2 ^ 256) by (rewrite <- Z.pow_add_r by lia; f_equal; lia).
      rewrite HS, <- HP. ring. }
    destruct HLn as [k Hk]. exists (m + c + word xr (n + 16) * k).
    rewrite (limbs_take_S (drop 16 xr)) by (rewrite length_drop; lia).
    replace (word (drop 16 xr) n) with (word xr (n + 16)) by (unfold word; rewrite lookup_drop; do 2 f_equal; lia).
    rewrite H4 in Hval. rewrite <- Z.mul_assoc, Hk in Hval. lia. }
  destruct (Hn 8%nat ltac:(lia)) as (H1 & H2 & _ & m & H4). cbv zeta in *. unfold low_rows. split_and!; [exact H1|exact H2|]. rewrite H4.
  pose proof (limbs_range _ (Forall_take _ 8 _ H1)) as R.
  rewrite length_take, H2, H4 in R. change (32 * Z.of_nat (8 `min` 25)) with 256 in R. apply (Z.mod_unique_pos _ _ m); lia.
Qed.

Lemma take_val s n : Forall limb s -> (n <= length s)%nat -> limbs (take n s) = limbs s mod 2 ^ (32 * Z.of_nat n).
Proof.
  intros Hs Hn. pose proof (limbs_range (take n s) (Forall_take _ _ _ Hs)) as R. rewrite length_take, Nat.min_l in R by done.
  apply (Z.mod_unique_pos _ _ (limbs (drop n s))); [done|]. rewrite <- (take_drop n s) at 1. rewrite limbs_app, length_take, Nat.min_l by done. lia.
Qed.

Lemma drop_val s n : Forall limb s -> (n <= length s)%nat -> limbs (drop n s) = limbs s / 2 ^ (32 * Z.of_nat n).
Proof.
  intros Hs Hn. pose proof (limbs_range (take n s) (Forall_take _ _ _ Hs)) as R. rewrite length_take, Nat.min_l in R by done.
  apply (Z.div_unique_pos _ _ _ (limbs (take n s))); [done|]. rewrite <- (take_drop n s) at 1. rewrite limbs_app, length_take, Nat.min_l by done. lia.
Qed.

Lemma barrett_limb : Forall limb barrett_r.
Proof. repeat constructor; done. Qed.

Lemma zeros_limb n : Forall limb (replicate n 0).
Proof. by apply Forall_replicate. Qed.

Lemma mod_l_spec x : Forall limb x -> length x = 16%nat -> mod_l x = le_bytes 32 (limbs x mod order).
Proof.
  intros Hx Hlx. unfold mod_l. cbv zeta.
  destruct (rows_spec 9 barrett_r 16 x (replicate 25 0)) as (H1 & H2 & H3 & _); [exact barrett_limb|exact Hx|exact (zeros_limb 25)|reflexivity|exact Hlx|reflexivity| |].
  { intros k _. unfold word. destruct (replicate 25 0 !! k) eqn:E; [|done]. by apply lookup_replicate in E as [-> _]. }
  set (xr := rows 9 barrett_r 16 x (replicate 25 0)) in *. change (length (replicate 25 0)) with 25%nat in H2.
  change (limbs (replicate 25 0)) with 0 in H3. rewrite (take_ge barrett_r) in H3 by (simpl; lia). rewrite barrett_val, Z.add_0_l in H3.
  pose proof (limbs_range x Hx) as Rx. rewrite Hlx in Rx. change (32 * Z.of_nat 16) with 512 in Rx.
  destruct (barrett_quotient (limbs x) Rx) as [Hq0 Hq]. rewrite (Z.mul_comm (limbs x)), <- H3 in Hq0, Hq. clearbody xr.
  set (y := replicate 8 0 ++ drop 8 xr). assert (Hy : Forall limb y).
  { unfold y. apply Forall_app_2; [exact (zeros_limb 8)|]. apply Forall_drop. exact H1. }
  assert (Hly : length y = 25%nat) by (unfold y; rewrite length_app, length_drop, length_replicate, H2; reflexivity).
  assert (Hy8 : take 8 y = replicate 8 0) by (unfold y; by rewrite take_app_length').
  destruct (low_product y Hy Hly) as (H4 & H5 & H6); [rewrite Hy8; reflexivity|].
  set (z := low_rows y) in *. clearbody z.
  assert (Hd : drop 16 y = drop 16 xr) by (unfold y; rewrite drop_app_ge by (simpl; lia); rewrite drop_drop; reflexivity).
  rewrite Hd, (take_val (drop 16 xr) 8), drop_val in H6; [|exact H1|rewrite H2; lia|by apply Forall_drop|rewrite length_drop, H2; lia].
  clear Hy Hy8 Hly Hd y.
  change (32 * Z.of_nat 16) with 512 in H6. change (32 * Z.of_nat 8) with 256 in H6. rewrite Z.mul_mod_idemp_l in H6 by discriminate.
  destruct (sub_words_spec 1 x z Hx H4 ltac:(lia) ltac:(lia) ltac:(lia)) as (H7 & H8 & H9).
  set (w := sub_words 1 x z 0xffffffff) in *. clearbody w. rewrite H6, (take_val x) in H9 by (first [exact Hx|lia]). change (32 * Z.of_nat 8) with 256 in H9.
  set (q := limbs xr / 2 ^ 512) in *. clearbody q. clear H3 H4 H5 H6 H1 H2 z xr.
  rewrite Z.sub_add, Zminus_mod_idemp_l, Zminus_mod_idemp_r, Z.mod_small in H9 by (assert (2 * order < 2 ^ 256) by reflexivity; lia).
  destruct (remove_l_spec w H7 H8) as (H10 & H11 & H12); [lia|].
  rewrite store_limbs, H11, H12, H9 by exact H10. f_equal. rewrite <- Z.add_opp_r, <- Z.mul_opp_l. apply Z.mod_add. discriminate.
Qed.

(** ** The two entry points *)

Lemma reduce_exact e : length e = 64%nat -> crypto_eddsa_reduce e = le_bytes 32 (le_val e mod order).
Proof.
  intros He. unfold crypto_eddsa_reduce. rewrite mod_l_spec; [|apply load32_le_buf_limb|reflexivity].
  rewrite limbs_load by (rewrite He; lia). rewrite take_ge by (rewrite He; lia). reflexivity.
Qed.

(** [crypto_eddsa_mul_add] gives the 32 bytes of [(a * b + c)] modulo the
    order of the curve's subgroup, for all numbers of 256 bits: the schoolbook
    product, the estimate of the quotient from the precomputed reciprocal and
    the conditional subtraction of [L] leave exactly the least residue. *)
Lemma mul_add_spec a b c : length a = 32%nat -> length b = 32%nat -> length c = 32%nat ->
  crypto_eddsa_mul_add a b c = le_bytes 32 ((le_val a * le_val b + le_val c) mod order).
Proof.
  intros Ha Hb Hc. unfold crypto_eddsa_mul_add, multiply. cbv zeta.
  assert (Hz : forall k, (8 <= k)%nat -> word (load32_le_buf c 8 ++ replicate 8 0) k = 0).
  { intros k Hk. unfold word. rewrite lookup_app_r by (simpl; lia). destruct (replicate 8 0 !! _) eqn:E; [|reflexivity].
    by apply lookup_replicate in E as [-> _]. }
  destruct (rows_spec 8 (load32_le_buf a 8) 8 (load32_le_buf b 8) (load32_le_buf c 8 ++ replicate 8 0)) as (H1 & H2 & H3 & _);
    [apply load32_le_buf_limb|apply load32_le_buf_limb|apply Forall_app_2; [apply load32_le_buf_limb|exact (zeros_limb 8)]|reflexivity|reflexivity|reflexivity|exact Hz|].
  rewrite mod_l_spec; [|exact H1|rewrite H2; reflexivity]. rewrite H3, limbs_app. change (limbs (replicate 8 0)) with 0.
  rewrite (take_ge (load32_le_buf a 8)), !limbs_load, !take_ge by (rewrite ?Ha, ?Hb, ?Hc; reflexivity || lia). do 2 f_equal. ring.
Qed.
