(* ===== verification/Edwards.v ===== *)
(** * The group of the curve behind Ed25519 and X25519

    Specification only: the points of [-x^2 + y^2 = 1 + d x^2 y^2] modulo
    [p], with residues as coordinates, their sum by the complete addition law,
    and multiples.  The point and scalar code of [monocypher.c] is compared
    with these.  The primality of [p] makes residues a domain for [nsatz]. *)
From S2P Require Import Prelude Fmt Mono Primes Fe25519 FeInvert.
From Stdlib Require Import NsatzTactic Zbitwise Zdivisibility Zpow_facts.

Open Scope Z_scope.

(** ** Residues as a domain *)

#[export] Instance eqp_ops : Ring_ops (T:=Z) (ring0:=0) (ring1:=1) (add:=Z.add) (mul:=Z.mul) (sub:=Z.sub) (opp:=Z.opp) (ring_eq:=eqp) := {}.

#[export] Instance eqp_ring : Ring (Ro:=eqp_ops).
Proof.
  constructor; try apply _; intros; apply eq_eqp;
    cbv [zero zero_notation one one_notation addition add_notation multiplication mul_notation subtraction sub_notation opposite opp_notation]; ring.
Qed.

#[export] Instance eqp_cring : Cring (Rr:=eqp_ring).
Proof. intros x y. apply eq_eqp. cbv [multiplication mul_notation]. ring. Qed.

#[export] Instance eqp_domain : Integral_domain (Rcr:=eqp_cring).
Proof. constructor; [intros x y; apply eqp_mul_0|]. intros H. by vm_compute in H. Qed.

(** [nsatz], with the integer factor that it may leave shown to be a unit. *)
Ltac residues := nsatz; try (by vm_compute).

Lemma eqp_cancel c a b : ~ c ≡p 0 -> c * a ≡p c * b -> a ≡p b.
Proof.
  intros Hc H. assert (H0 : c * (a - b) ≡p 0) by residues.
  apply eqp_mul_0 in H0 as [H0|H0]; [done|]. residues.
Qed.

Lemma eqp_cancel_r c a b : ~ c ≡p 0 -> a * c ≡p b * c -> a ≡p b.
Proof. rewrite !(Z.mul_comm _ c). apply eqp_cancel. Qed.

Lemma eqp_mul_nz a b : ~ a ≡p 0 -> ~ b ≡p 0 -> ~ a * b ≡p 0.
Proof. intros Ha Hb [H|H]%eqp_mul_0; auto. Qed.

Lemma eqp_factor_nz a b : ~ a * b ≡p 0 -> ~ a ≡p 0 /\ ~ b ≡p 0.
Proof. intros H. split; intros E; apply H; rewrite E; apply eq_eqp; ring. Qed.

Lemma residue_eq a b : 0 <= a < p -> 0 <= b < p -> a ≡p b -> a = b.
Proof. unfold eqp. intros Ha Hb. by rewrite !Z.mod_small. Qed.

(** Inverses, 0 for 0. *)
Definition inv (z : Z) : Z := Zpow_mod z (p - 2) p.

Lemma inv_def z : Zpow_mod z (p - 2) p = inv z.
Proof. unfold inv. reflexivity. Qed.

Lemma inv_pow z : inv z ≡p z ^ (p - 2).
Proof. unfold inv. rewrite Zpow_mod_correct by done. apply eqp_mod. Qed.

#[export] Instance inv_proper : Proper (eqp ==> eqp) inv.
Proof. intros x y H. rewrite !inv_pow. by apply eqp_pow. Qed.

Lemma inv_mul z : ~ z ≡p 0 -> z * inv z ≡p 1.
Proof.
  intros Hz. rewrite inv_pow, <- Z.pow_succ_r by done. replace (Z.succ (p - 2)) with (p - 1) by lia. by apply eqp_fermat.
Qed.

Lemma inv_0 : inv 0 ≡p 0.
Proof. vm_compute. reflexivity. Qed.

Lemma inv_nz z : ~ z ≡p 0 -> ~ inv z ≡p 0.
Proof. intros Hz H. pose proof (inv_mul z Hz) as E. rewrite H, Z.mul_0_r in E. by vm_compute in E. Qed.

#[global] Opaque inv.

(** ** The curve *)

Definition dd : Z := 37095705934669439343138083508754565189542113879843219016388785533085940283555.

Lemma dd_val : fe_val d ≡p dd.
Proof. vm_compute. reflexivity. Qed.

Lemma dd2_val : fe_val D2 ≡p 2 * dd.
Proof. vm_compute. reflexivity. Qed.

Lemma dd_ratio : 121666 * dd ≡p -121665.
Proof. vm_compute. reflexivity. Qed.

(** [d] is not a square: its power [(p-1)/2] is -1. *)
Lemma dd_euler : Zpow_mod dd ((p - 1) / 2) p = p - 1.
Proof. vm_compute. reflexivity. Qed.

Lemma not_square z k : p - 1 = 2 * k -> 0 <= k -> z ^ k ≡p -1 -> forall y, ~ y * y ≡p z.
Proof.
  intros Hp Hk Hz y Hy. assert (Hn : ~ y ≡p 0).
  { intros H0. rewrite H0 in Hy. assert (Hz0 : z ≡p 0) by (by rewrite <- Hy). rewrite (eqp_pow _ _ k Hz0) in Hz.
    rewrite Z.pow_0_l in Hz by (unfold p in Hp; lia). by vm_compute in Hz. }
  pose proof (eqp_fermat y Hn) as F. rewrite Hp, Z.pow_mul_r, Z.pow_2_r in F by lia.
  rewrite (eqp_pow _ _ k Hy), Hz in F. by vm_compute in F.
Qed.

Lemma dd_not_square y : ~ y * y ≡p dd.
Proof.
  apply (not_square dd ((p - 1) / 2)); [reflexivity|by vm_compute|].
  assert (E : dd ^ ((p - 1) / 2) mod p = p - 1) by (rewrite <- Zpow_mod_correct by done; exact dd_euler).
  unfold eqp. rewrite E. reflexivity.
Qed.

Definition curve (x y : Z) : Prop := y * y - x * x ≡p 1 + dd * x * x * y * y.

(** ** Completeness: no denominator of the addition law is zero

    For any [d] that is not a square and [i] a root of -1: in the coordinate
    [u = i x] the curve is [u^2 + y^2 = 1 - d u^2 y^2]. *)

Section complete.
Context (d i : Z) (Hd : forall y, ~ y * y ≡p d) (Hi : i * i ≡p -1).
Context (x1 y1 x2 y2 : Z) (H1 : y1 * y1 - x1 * x1 ≡p 1 + d * x1 * x1 * y1 * y1) (H2 : y2 * y2 - x2 * x2 ≡p 1 + d * x2 * x2 * y2 * y2).

Lemma unit_product_nz e : e * e ≡p 1 -> d * x1 * x2 * y1 * y2 ≡p e -> ~ x1 * y1 ≡p 0.
Proof. clear Hd. intros He H H0. assert (E : 1 ≡p 0) by residues. by vm_compute in E. Qed.

Lemma unit_product_square e s : s * s ≡p 1 -> e * e ≡p 1 -> d * x1 * x2 * y1 * y2 ≡p e ->
  (i * x1 + s * e * y1) * (i * x1 + s * e * y1) ≡p d * (x1 * y1 * (i * x2 + s * y2)) * (x1 * y1 * (i * x2 + s * y2)).
Proof. clear Hd. intros Hs He H. residues. Qed.

Lemma quotient_square a c j : a * a ≡p d * c * c -> c * j ≡p 1 -> a * j * (a * j) ≡p d.
Proof. clear Hd. intros H Hj. residues. Qed.

Lemma square_quotient a c : a * a ≡p d * c * c -> c ≡p 0.
Proof.
  intros H. destruct (decide (c ≡p 0)) as [E|E]; [done|].
  destruct (Hd _ (quotient_square a c (inv c) H (inv_mul c E))).
Qed.

Lemma both_zero : i * x2 + 1 * y2 ≡p 0 -> i * x2 + -1 * y2 ≡p 0 -> False.
Proof. clear Hd. intros E1 E2. assert (E : 1 ≡p 0) by (clear H1; residues). by vm_compute in E. Qed.

Lemma no_unit_product e : e * e ≡p 1 -> ~ d * x1 * x2 * y1 * y2 ≡p e.
Proof.
  intros He H. assert (Hs : forall s, s * s ≡p 1 -> i * x2 + s * y2 ≡p 0).
  { intros s Hs. pose proof (square_quotient _ _ (unit_product_square e s Hs He H)) as E.
    apply eqp_mul_0 in E as [E|E]; [|done]. destruct (unit_product_nz e He H E). }
  apply both_zero; by apply Hs.
Qed.
End complete.

(** ** Polynomial facts of the addition law, for any [d] *)

Section law.
Context (d : Z).

Definition on (x y : Z) : Prop := y * y - x * x ≡p 1 + d * x * x * y * y.

(** (x, y) is the sum of (x1, y1) and (x2, y2). *)
Definition sums (x1 y1 x2 y2 x y : Z) : Prop :=
  x * (1 + d * x1 * x2 * y1 * y2) ≡p x1 * y2 + x2 * y1 /\ y * (1 - d * x1 * x2 * y1 * y2) ≡p y1 * y2 + x1 * x2.

(** No denominator is zero. *)
Definition proper (x1 y1 x2 y2 : Z) : Prop := ~ 1 + d * x1 * x2 * y1 * y2 ≡p 0 /\ ~ 1 - d * x1 * x2 * y1 * y2 ≡p 0.

Lemma sums_on x1 y1 x2 y2 x y j k : on x1 y1 -> on x2 y2 ->
  (1 + d * x1 * x2 * y1 * y2) * j ≡p 1 -> (1 - d * x1 * x2 * y1 * y2) * k ≡p 1 ->
  x ≡p (x1 * y2 + x2 * y1) * j -> y ≡p (y1 * y2 + x1 * x2) * k -> on x y.
Proof. unfold on. intros. residues. Qed.

Lemma sums_make x1 y1 x2 y2 x y j k :
  (1 + d * x1 * x2 * y1 * y2) * j ≡p 1 -> (1 - d * x1 * x2 * y1 * y2) * k ≡p 1 ->
  x ≡p (x1 * y2 + x2 * y1) * j -> y ≡p (y1 * y2 + x1 * x2) * k -> sums x1 y1 x2 y2 x y.
Proof. unfold sums. intros. split; residues. Qed.

Lemma sums_unique x1 y1 x2 y2 x y x' y' : proper x1 y1 x2 y2 -> sums x1 y1 x2 y2 x y -> sums x1 y1 x2 y2 x' y' -> x ≡p x' /\ y ≡p y'.
Proof.
  intros [H1 H2] [H3 H4] [H5 H6].
  split; [apply (eqp_cancel_r _ _ _ H1)|apply (eqp_cancel_r _ _ _ H2)]; [by rewrite H3, H5|by rewrite H4, H6].
Qed.

(** The numerator and denominator of (P + Q) + R, over those of P + Q. *)
Lemma sums_numerators x1 y1 x2 y2 x3 y3 x12 y12 x y :
  let X := x1 * y2 + x2 * y1 in let Y := y1 * y2 + x1 * x2 in
  let A := 1 + d * x1 * x2 * y1 * y2 in let B := 1 - d * x1 * x2 * y1 * y2 in
  sums x1 y1 x2 y2 x12 y12 -> sums x12 y12 x3 y3 x y ->
  (A * B + d * X * Y * x3 * y3) * x ≡p X * B * y3 + Y * A * x3 /\
  (A * B - d * X * Y * x3 * y3) * y ≡p Y * A * y3 + X * B * x3 /\
  (A * B + d * X * Y * x3 * y3) ≡p A * B * (1 + d * x12 * x3 * y12 * y3) /\
  (A * B - d * X * Y * x3 * y3) ≡p A * B * (1 - d * x12 * x3 * y12 * y3).
Proof.
  intros X Y A B [H1 H2] [H3 H4]. fold A in H1. fold B in H2. fold X in H1. fold Y in H2. clearbody X Y A B.
  split_and!; residues.
Qed.

Lemma assoc_polys x1 y1 x2 y2 x3 y3 : on x1 y1 -> on x2 y2 -> on x3 y3 ->
  let X1 := x1 * y2 + x2 * y1 in let Y1 := y1 * y2 + x1 * x2 in let A1 := 1 + d * x1 * x2 * y1 * y2 in let B1 := 1 - d * x1 * x2 * y1 * y2 in
  let X2 := x2 * y3 + x3 * y2 in let Y2 := y2 * y3 + x2 * x3 in let A2 := 1 + d * x2 * x3 * y2 * y3 in let B2 := 1 - d * x2 * x3 * y2 * y3 in
  (X1 * B1 * y3 + Y1 * A1 * x3) * (A2 * B2 + d * X2 * Y2 * x1 * y1) ≡p (X2 * B2 * y1 + Y2 * A2 * x1) * (A1 * B1 + d * X1 * Y1 * x3 * y3) /\
  (Y1 * A1 * y3 + X1 * B1 * x3) * (A2 * B2 - d * X2 * Y2 * x1 * y1) ≡p (Y2 * A2 * y1 + X2 * B2 * x1) * (A1 * B1 - d * X1 * Y1 * x3 * y3).
Proof. unfold on. cbv zeta. intros. split; residues. Qed.

Lemma ratio_eq n m a b x y : ~ a ≡p 0 -> ~ b ≡p 0 -> a * x ≡p n -> b * y ≡p m -> n * b ≡p m * a -> x ≡p y.
Proof.
  intros Ha Hb Hx Hy H. apply (eqp_cancel _ _ _ (eqp_mul_nz a b Ha Hb)). clear Ha Hb. residues.
Qed.

Lemma sums_comm x1 y1 x2 y2 x y : sums x1 y1 x2 y2 x y -> sums x2 y2 x1 y1 x y.
Proof. intros [H1 H2]. split; clear -H1 H2; residues. Qed.

Lemma sums_assoc x1 y1 x2 y2 x3 y3 x12 y12 x23 y23 x y x' y' : on x1 y1 -> on x2 y2 -> on x3 y3 ->
  proper x1 y1 x2 y2 -> proper x2 y2 x3 y3 -> proper x12 y12 x3 y3 -> proper x23 y23 x1 y1 ->
  sums x1 y1 x2 y2 x12 y12 -> sums x12 y12 x3 y3 x y -> sums x2 y2 x3 y3 x23 y23 -> sums x23 y23 x1 y1 x' y' -> x ≡p x' /\ y ≡p y'.
Proof.
  intros O1 O2 O3 [P1 P2] [P3 P4] [P5 P6] [P7 P8] S1 S2 S3 S4.
  destruct (sums_numerators _ _ _ _ _ _ _ _ _ _ S1 S2) as (N1 & N2 & D1 & D2).
  destruct (sums_numerators _ _ _ _ _ _ _ _ _ _ S3 S4) as (N3 & N4 & D3 & D4).
  destruct (assoc_polys _ _ _ _ _ _ O1 O2 O3) as [E1 E2].
  split; [eapply (ratio_eq _ _ _ _ _ _ _ _ N1 N3 E1)|eapply (ratio_eq _ _ _ _ _ _ _ _ N2 N4 E2)].
  Unshelve. all: rewrite ?D1, ?D2, ?D3, ?D4; repeat apply eqp_mul_nz; assumption.
Qed.
End law.

(** ** Points *)

Definition on_curve (x y : Z) : Prop := 0 <= x < p /\ 0 <= y < p /\ on dd x y.

#[export] Instance on_dec d x y : Decision (on d x y).
Proof. unfold on. apply _. Defined.
#[export] Instance on_curve_dec x y : Decision (on_curve x y).
Proof. unfold on_curve. apply _. Defined.

Record point := Point { px : Z; py : Z; p_on : bool_decide (on_curve px py) = true }.

Lemma point_on P : on_curve (px P) (py P).
Proof. destruct P as [x y H]. exact (proj1 (bool_decide_eq_true _) H). Qed.

Lemma point_eq P Q : px P ≡p px Q -> py P ≡p py Q -> P = Q.
Proof.
  intros Hx Hy. destruct (point_on P) as (Px & Py & _), (point_on Q) as (Qx & Qy & _).
  apply (residue_eq _ _ Px Qx) in Hx. apply (residue_eq _ _ Py Qy) in Hy. destruct P as [x y H], Q as [x' y' H']. simpl in *. subst.
  f_equal. apply (proof_irrel (A := bool_decide (on_curve x' y') = true)).
Qed.

#[export] Instance point_dec : EqDecision point.
Proof.
  intros P Q. destruct (decide (px P = px Q /\ py P = py Q)) as [[Hx Hy]|H].
  - left. apply point_eq; [by rewrite Hx|by rewrite Hy].
  - right. intros ->. by apply H.
Defined.

Lemma residue_on x y : on dd x y -> bool_decide (on_curve (x mod p) (y mod p)) = true.
Proof.
  intros H. apply bool_decide_eq_true. split_and!; try by apply Z.mod_pos_bound. unfold on in *. by rewrite !eqp_mod.
Qed.

Definition mk_point (x y : Z) (H : on dd x y) : point := Point (x mod p) (y mod p) (residue_on x y H).

Lemma zero_on : on dd 0 1.
Proof. unfold on. apply eq_eqp. ring. Qed.

Definition neutral : point := mk_point 0 1 zero_on.

Lemma opp_on P : on dd (- px P) (py P).
Proof. destruct (point_on P) as (_ & _ & H). unfold on in *. replace (- px P * - px P) with (px P * px P) by ring. rewrite H. apply eq_eqp. ring. Qed.

Definition popp (P : point) : point := mk_point (- px P) (py P) (opp_on P).

(** Every sum is proper: the law is complete. *)
Lemma always_proper P Q : proper dd (px P) (py P) (px Q) (py Q).
Proof.
  destruct (point_on P) as (_ & _ & HP), (point_on Q) as (_ & _ & HQ).
  pose proof (no_unit_product dd root dd_not_square root_sq _ _ _ _ HP HQ) as H. unfold proper. set (t := dd * px P * px Q * py P * py Q) in *.
  clearbody t. split; intros E.
  - apply (H (-1)); [done|]. replace t with (1 + t - 1) by ring. by rewrite E.
  - apply (H 1); [done|]. replace t with (1 - (1 - t)) by ring. by rewrite E.
Qed.

Definition sum_x (P Q : point) : Z := (px P * py Q + px Q * py P) * inv (1 + dd * px P * px Q * py P * py Q).
Definition sum_y (P Q : point) : Z := (py P * py Q + px P * px Q) * inv (1 - dd * px P * px Q * py P * py Q).

Lemma sum_on P Q : on dd (sum_x P Q) (sum_y P Q).
Proof.
  destruct (point_on P) as (_ & _ & HP), (point_on Q) as (_ & _ & HQ), (always_proper P Q) as [H1 H2].
  eapply (sums_on dd); [exact HP|exact HQ|by apply inv_mul|by apply inv_mul|reflexivity|reflexivity].
Qed.

Definition padd (P Q : point) : point := mk_point (sum_x P Q) (sum_y P Q) (sum_on P Q).

Declare Scope point_scope.
Delimit Scope point_scope with point.
Infix "+" := padd : point_scope.
Notation "- P" := (popp P) : point_scope.
Notation "P - Q" := (padd P (popp Q)) : point_scope.
Bind Scope point_scope with point.

Definition sums_to (P Q R : point) : Prop := sums dd (px P) (py P) (px Q) (py Q) (px R) (py R).

Lemma add_sums P Q : sums_to P Q (P + Q)%point.
Proof.
  destruct (always_proper P Q) as [H1 H2].
  eapply (sums_make dd); [by apply inv_mul|by apply inv_mul|apply eqp_mod|apply eqp_mod].
Qed.

Lemma add_unique P Q R : sums_to P Q R -> (P + Q)%point = R.
Proof.
  intros H. destruct (sums_unique _ _ _ _ _ _ _ _ _ (always_proper P Q) (add_sums P Q) H). by apply point_eq.
Qed.

#[export] Instance padd_comm : Comm (=) padd.
Proof. intros P Q. apply add_unique, sums_comm, add_sums. Qed.

#[export] Instance padd_assoc : Assoc (=) padd.
Proof.
  intros P Q R. rewrite (comm_L padd P (Q + R)%point). destruct (point_on P) as (_ & _ & HP), (point_on Q) as (_ & _ & HQ), (point_on R) as (_ & _ & HR).
  destruct (sums_assoc dd _ _ _ _ _ _ _ _ _ _ _ _ _ _ HP HQ HR (always_proper P Q) (always_proper Q R)
    (always_proper (P + Q)%point R) (always_proper (Q + R)%point P)
    (add_sums P Q) (add_sums (P + Q)%point R) (add_sums Q R) (add_sums (Q + R)%point P)) as [Ex Ey].
  symmetry. by apply point_eq.
Qed.

#[export] Instance padd_neutral_l : LeftId (=) neutral padd.
Proof. intros P. apply add_unique. split; apply eq_eqp; change (px neutral) with 0; change (py neutral) with 1; ring. Qed.

#[export] Instance padd_neutral_r : RightId (=) neutral padd.
Proof. intros P. rewrite (comm_L padd). apply padd_neutral_l. Qed.

Lemma padd_opp P : (P - P)%point = neutral.
Proof.
  apply add_unique. destruct (point_on P) as (_ & _ & HP). unfold on in HP. unfold sums_to, sums. change (px neutral) with 0. change (py neutral) with 1.
  assert (Hx : px (- P)%point ≡p - px P) by apply eqp_mod. assert (Hy : py (- P)%point ≡p py P) by apply eqp_mod.
  rewrite Hx, Hy. split; [apply eq_eqp; ring|]. rewrite <- (Z.add_simpl_r (py P * py P + _) 0).
  transitivity (1 + dd * px P * px P * py P * py P); [apply eq_eqp; ring|]. rewrite <- HP. apply eq_eqp. ring.
Qed.

(** ** The abelian group, and multiples *)

Lemma popp_unique P Q : (P + Q)%point = neutral -> Q = (- P)%point.
Proof. intros H. by rewrite <- (left_id_L neutral padd Q), <- (padd_opp P), (comm_L padd P), <- (assoc_L padd), H, (right_id_L neutral padd). Qed.

Lemma popp_padd P Q : (- (P + Q))%point = (- P - Q)%point.
Proof.
  symmetry. apply popp_unique. rewrite (comm_L padd P), <- (assoc_L padd), (assoc_L padd P), padd_opp, (left_id_L neutral padd). apply padd_opp.
Qed.

Lemma popp_popp P : (- - P)%point = P.
Proof. symmetry. apply popp_unique. rewrite (comm_L padd). apply padd_opp. Qed.

Lemma popp_neutral : (- neutral)%point = neutral.
Proof. symmetry. apply popp_unique. apply padd_neutral_l. Qed.

Lemma padd_cancel P Q R : (P + Q)%point = (P + R)%point -> Q = R.
Proof.
  intros H. rewrite <- (left_id_L neutral padd Q), <- (left_id_L neutral padd R), <- (padd_opp P), (comm_L padd P), <- !(assoc_L padd). by rewrite H.
Qed.

Definition smul (n : Z) (P : point) : point :=
  match n with 0 => neutral | Zpos q => Pos.iter_op padd q P | Zneg q => popp (Pos.iter_op padd q P) end.
Infix "*" := smul : point_scope.

Lemma smul_0 P : (0 * P)%point = neutral.
Proof. done. Qed.
Lemma smul_1 P : (1 * P)%point = P.
Proof. done. Qed.

Lemma smul_opp n P : ((- n)%Z * P)%point = (- (n * P))%point.
Proof. destruct n; cbn [Z.opp smul]; [by rewrite popp_neutral|done|by rewrite popp_popp]. Qed.

Lemma smul_succ n P : (Z.succ n * P)%point = (P + n * P)%point.
Proof.
  assert (Hs : forall q, Pos.iter_op padd (Pos.succ q) P = (P + Pos.iter_op padd q P)%point).
  { intros q. apply Pos.iter_op_succ. apply padd_assoc. }
  destruct n as [|q|q]; [by rewrite (right_id_L neutral padd)|by rewrite <- Pos2Z.inj_succ; apply Hs|].
  destruct (Pos.succ_pred_or q) as [->|E]; [symmetry; apply padd_opp|]. rewrite <- E.
  replace (Z.succ (Z.neg (Pos.succ (Pos.pred q)))) with (Z.neg (Pos.pred q)) by lia. cbn [smul].
  by rewrite Hs, popp_padd, (assoc_L padd), padd_opp, (left_id_L neutral padd).
Qed.

Lemma smul_pred n P : (Z.pred n * P)%point = (n * P - P)%point.
Proof.
  rewrite <- (Z.succ_pred n) at 2. by rewrite smul_succ, (comm_L padd P), <- (assoc_L padd), padd_opp, (right_id_L neutral padd).
Qed.

Lemma smul_add m n P : ((m + n)%Z * P)%point = (m * P + n * P)%point.
Proof.
  induction m as [|m IH|m IH] using Z.peano_ind; [by rewrite (left_id_L neutral padd)| |].
  - by rewrite Z.add_succ_l, !smul_succ, IH, (assoc_L padd).
  - by rewrite Z.add_pred_l, !smul_pred, IH, <- !(assoc_L padd), (comm_L padd (n * P)%point).
Qed.

Lemma smul_sub m n P : ((m - n)%Z * P)%point = (m * P - n * P)%point.
Proof. unfold Z.sub. by rewrite smul_add, smul_opp. Qed.

Lemma smul_padd n P Q : (n * (P + Q))%point = (n * P + n * Q)%point.
Proof.
  induction n as [|n IH|n IH] using Z.peano_ind; [by rewrite !smul_0, (left_id_L neutral padd)| |].
  - rewrite !smul_succ, IH, <- !(assoc_L padd). f_equal. by rewrite (assoc_L padd), (comm_L padd Q), <- (assoc_L padd).
  - rewrite !smul_pred, IH, popp_padd, <- !(assoc_L padd). f_equal. by rewrite (assoc_L padd), (comm_L padd (n * Q)%point), <- (assoc_L padd).
Qed.

Lemma smul_popp n P : (n * - P)%point = (- (n * P))%point.
Proof. apply popp_unique. rewrite <- smul_padd, padd_opp. induction n using Z.peano_ind; [done| |]; by rewrite ?smul_succ, ?smul_pred, ?IHn, ?popp_neutral, padd_neutral_l. Qed.

Lemma smul_neutral n : (n * neutral)%point = neutral.
Proof. rewrite <- (padd_opp neutral), smul_padd, smul_popp. by rewrite !padd_opp. Qed.

Lemma smul_mul m n P : ((m * n)%Z * P)%point = (m * (n * P))%point.
Proof.
  induction m as [|m IH|m IH] using Z.peano_ind; [done| |].
  - by rewrite Z.mul_succ_l, smul_add, smul_succ, IH, (comm_L padd).
  - by rewrite Z.mul_pred_l, smul_sub, smul_pred, IH.
Qed.

Lemma smul_double n P : ((2 * n)%Z * P)%point = (n * P + n * P)%point.
Proof. by rewrite <- smul_add, Z.add_diag. Qed.

(** ** Extended coordinates

    [(X : Y : Z : T)] with [x = X/Z], [y = Y/Z], [xy = T/Z]; the second
    operand of a sum as [Y + X], [Y - X], [Z] and [2dT]. *)

Definition rep (X Y Z T : Z) (P : point) : Prop :=
  ~ Z ≡p 0 /\ X ≡p px P * Z /\ Y ≡p py P * Z /\ T ≡p px P * py P * Z.

Definition cached (Yp Ym Z T2 : Z) (P : point) : Prop :=
  ~ Z ≡p 0 /\ Yp ≡p (py P + px P) * Z /\ Ym ≡p (py P - px P) * Z /\ T2 ≡p 2 * dd * px P * py P * Z.

Lemma two_nz : ~ 2 ≡p 0.
Proof. by vm_compute. Qed.

(** The formulas, for any [d]. *)
Lemma add_formulas d x1 y1 x2 y2 x y X1 Y1 Z1 T1 Yp Ym Z2 T2 : sums d x1 y1 x2 y2 x y ->
  X1 ≡p x1 * Z1 -> Y1 ≡p y1 * Z1 -> T1 ≡p x1 * y1 * Z1 -> Yp ≡p (y2 + x2) * Z2 -> Ym ≡p (y2 - x2) * Z2 -> T2 ≡p 2 * d * x2 * y2 * Z2 ->
  let A := (Y1 + X1) * Yp in let B := (Y1 - X1) * Ym in let C := (Z1 + Z1) * Z2 in let D := T1 * T2 in
  (C + D) ≡p 2 * Z1 * Z2 * (1 + d * x1 * x2 * y1 * y2) /\ (C - D) ≡p 2 * Z1 * Z2 * (1 - d * x1 * x2 * y1 * y2) /\
  (A - B) ≡p x * (C + D) /\ (A + B) ≡p y * (C - D).
Proof.
  intros [Hx Hy] EX EY ET EYp EYm ET2. cbv zeta. 
  rewrite EX, EY, ET, EYp, EYm, ET2. clear EX EY ET EYp EYm ET2. split_and!; [apply eq_eqp; ring|apply eq_eqp; ring| |].
  - transitivity (2 * Z1 * Z2 * (x1 * y2 + x2 * y1)); [apply eq_eqp; ring|]. rewrite <- Hx. apply eq_eqp. ring.
  - transitivity (2 * Z1 * Z2 * (y1 * y2 + x1 * x2)); [apply eq_eqp; ring|]. rewrite <- Hy. apply eq_eqp. ring.
Qed.

Lemma rep_add X1 Y1 Z1 T1 Yp Ym Z2 T2 P Q : rep X1 Y1 Z1 T1 P -> cached Yp Ym Z2 T2 Q ->
  let A := (Y1 + X1) * Yp in let B := (Y1 - X1) * Ym in let C := (Z1 + Z1) * Z2 in let D := T1 * T2 in
  rep ((A - B) * (C - D)) ((A + B) * (C + D)) ((C + D) * (C - D)) ((A - B) * (A + B)) (P + Q)%point.
Proof.
  intros (Hz & EX & EY & ET) (Hz2 & EYp & EYm & ET2) A B C D. destruct (always_proper P Q) as [N1 N2].
  destruct (add_formulas dd _ _ _ _ _ _ _ _ _ _ _ _ _ _ (add_sums P Q) EX EY ET EYp EYm ET2) as (F1 & F2 & F3 & F4).
  fold A B C D in F1, F2, F3, F4. clearbody A B C D. split_and!.
  - rewrite F1, F2. repeat apply eqp_mul_nz; first [assumption|apply two_nz].
  - rewrite F3. apply eq_eqp. ring.
  - rewrite F4. apply eq_eqp. ring.
  - rewrite F3, F4. apply eq_eqp. ring.
Qed.

Lemma double_formulas d x1 y1 x y X Y Z1 : on d x1 y1 -> sums d x1 y1 x1 y1 x y ->
  X ≡p x1 * Z1 -> Y ≡p y1 * Z1 ->
  let E := (X + Y) * (X + Y) - (Y * Y + X * X) in let G := Y * Y - X * X in let H := Y * Y + X * X in let F := Z1 * Z1 * 2 - G in
  G ≡p Z1 * Z1 * (1 + d * x1 * x1 * y1 * y1) /\ F ≡p Z1 * Z1 * (1 - d * x1 * x1 * y1 * y1) /\ E ≡p x * G /\ H ≡p y * F.
Proof.
  unfold on, sums. intros Ho [Hx Hy] EX EY. cbv zeta. rewrite EX, EY. clear EX EY. split_and!; residues.
Qed.

Lemma rep_double X Y Z1 T P : rep X Y Z1 T P ->
  let E := (X + Y) * (X + Y) - (Y * Y + X * X) in let G := Y * Y - X * X in let H := Y * Y + X * X in let F := Z1 * Z1 * 2 - G in
  rep (E * F) (H * G) (G * F) (E * H) (P + P)%point.
Proof.
  intros (Hz & EX & EY & _) E G H F. destruct (always_proper P P) as [N1 N2]. destruct (point_on P) as (_ & _ & Ho).
  destruct (double_formulas dd _ _ _ _ _ _ _ Ho (add_sums P P) EX EY) as (F1 & F2 & F3 & F4).
  fold E G H in F1, F2, F3, F4. fold F in F2, F4. clearbody E F G H. split_and!.
  - rewrite F1, F2. repeat apply eqp_mul_nz; assumption.
  - rewrite F3. apply eq_eqp. ring.
  - rewrite F4. apply eq_eqp. ring.
  - rewrite F3, F4. apply eq_eqp. ring.
Qed.

Lemma px_popp P : px (- P)%point ≡p - px P.
Proof. apply eqp_mod. Qed.
Lemma py_popp P : py (- P)%point = py P.
Proof. destruct (point_on P) as (_ & H & _). by apply Z.mod_small. Qed.

Lemma cached_neg Yp Ym Z2 T2 P : cached Yp Ym Z2 T2 P -> cached Ym Yp Z2 (- T2) (- P)%point.
Proof.
  intros (Hz & E1 & E2 & E3). split_and!; [done| | |]; rewrite ?px_popp, ?py_popp, ?E1, ?E2, ?E3; apply eq_eqp; ring.
Qed.

Lemma rep_cached X Y Z1 T P : rep X Y Z1 T P -> cached (Y + X) (Y - X) Z1 (T * (2 * dd)) P.
Proof. intros (Hz & E1 & E2 & E3). split_and!; [done| | |]; rewrite ?E1, ?E2, ?E3; apply eq_eqp; ring. Qed.

Lemma rep_neutral : rep 0 1 1 0 neutral.
Proof. split_and!; [by vm_compute|done..]. Qed.

(** Points with the same coordinates in extended form are equal. *)
Lemma rep_unique X Y Z T P Q : rep X Y Z T P -> rep X Y Z T Q -> P = Q.
Proof.
  intros (Hz & E1 & E2 & _) (_ & E3 & E4 & _). apply point_eq; apply (eqp_cancel_r _ _ _ Hz); [by rewrite <- E1, <- E3|by rewrite <- E2, <- E4].
Qed.
