(* ===== verification/EdPoint.v ===== *)
(** * Points of Ed25519 ([ge_*] in [monocypher.c])

    The operations on points in extended coordinates and on their cached
    forms, over the limbs of [Fe25519], against the group of [Edwards]; the
    32-byte encoding of a point.  Destinations may be operands, as they are
    in the callers: each function reads a coordinate of [p] before it writes
    it.  The code's temporaries are local values. *)
From S2P Require Import Prelude Fmt Mono Primes Fe25519 FeInvert X25519 Edwards.
From Stdlib Require Import Zbitwise Zdivisibility Zpow_facts.

Open Scope Z_scope.

(** ** Operations *)

Record ge := Ge { gX : fe; gY : fe; gZ : fe; gT : fe }.
Record ge_cached := GeCached { cYp : fe; cYm : fe; cZ : fe; cT2 : fe }.
Record ge_precomp := GePrecomp { pYp : fe; pYm : fe; pT2 : fe }.

Definition ge_zero : ge := Ge fe_0 fe_1 fe_1 fe_0.

Definition ge_tobytes (h : ge) : bytes :=
  let recip := fe_invert (gZ h) in
  let x := fe_mul (gX h) recip in
  let y := fe_mul (gY h) recip in
  alter (fun b => to_byte (Z.lxor (uchar b) (Z.shiftl (fe_isodd x) 7))) 31%nat (fe_tobytes y).

(** [None] is the return of -1. *)
Definition ge_frombytes_neg_vartime (s : bytes) : option ge :=
  let hY := fe_frombytes s in
  let hZ := fe_1 in
  let hT := fe_sq hY in
  let hX := fe_mul hT d in
  let hT := fe_sub hT hZ in
  let hX := fe_add hX hZ in
  let hX := fe_mul hT hX in
  let '(is_square, hX) := invsqrt hX in
  if decide (is_square = 0) then None
  else
    let hX := fe_mul hT hX in
    let hX := if decide (fe_isodd hX = Z.shiftr (at_ s 31) 7) then fe_neg hX else hX in
    Some (Ge hX hY hZ (fe_mul hX hY)).

Definition ge_cache (p : ge) : ge_cached :=
  GeCached (fe_add (gY p) (gX p)) (fe_sub (gY p) (gX p)) (gZ p) (fe_mul (gT p) D2).

Definition ge_add (p : ge) (q : ge_cached) : ge :=
  let a := fe_add (gY p) (gX p) in
  let b := fe_sub (gY p) (gX p) in
  let a := fe_mul a (cYp q) in
  let b := fe_mul b (cYm q) in
  let sY := fe_add a b in
  let sX := fe_sub a b in
  let sZ := fe_add (gZ p) (gZ p) in
  let sZ := fe_mul sZ (cZ q) in
  let sT := fe_mul (gT p) (cT2 q) in
  let a := fe_add sZ sT in
  let b := fe_sub sZ sT in
  let sT := fe_mul sX sY in
  let sX := fe_mul sX b in
  let sY := fe_mul sY a in
  Ge sX sY (fe_mul a b) sT.

Definition ge_sub (p : ge) (q : ge_cached) : ge :=
  ge_add p (GeCached (cYm q) (cYp q) (cZ q) (fe_neg (cT2 q))).

Definition ge_madd (p : ge) (q : ge_precomp) : ge :=
  let a := fe_add (gY p) (gX p) in
  let b := fe_sub (gY p) (gX p) in
  let a := fe_mul a (pYp q) in
  let b := fe_mul b (pYm q) in
  let sY := fe_add a b in
  let sX := fe_sub a b in
  let sZ := fe_add (gZ p) (gZ p) in
  let sT := fe_mul (gT p) (pT2 q) in
  let a := fe_add sZ sT in
  let b := fe_sub sZ sT in
  let sT := fe_mul sX sY in
  let sX := fe_mul sX b in
  let sY := fe_mul sY a in
  Ge sX sY (fe_mul a b) sT.

Definition ge_msub (p : ge) (q : ge_precomp) : ge :=
  ge_madd p (GePrecomp (pYm q) (pYp q) (fe_neg (pT2 q))).

Definition ge_double (p : ge) : ge :=
  let qX := fe_sq (gX p) in
  let qY := fe_sq (gY p) in
  let qZ := fe_sq (gZ p) in
  let qZ := fe_mul_small qZ 2 in
  let qT := fe_add (gX p) (gY p) in
  let sT := fe_sq qT in
  let qT := fe_add qY qX in
  let qY := fe_sub qY qX in
  let qX := fe_sub sT qT in
  let qZ := fe_sub qZ qY in
  Ge (fe_mul qX qZ) (fe_mul qT qY) (fe_mul qY qZ) (fe_mul qX qT).

(** ** What they stand for *)

(** A point, and an operand for a sum: the sums of two carried coordinates
    need not be carried. *)
Definition ge_is (g : ge) (P : point) : Prop :=
  (tight (gX g) /\ tight (gY g) /\ tight (gZ g) /\ tight (gT g)) /\
  rep (fe_val (gX g)) (fe_val (gY g)) (fe_val (gZ g)) (fe_val (gT g)) P.

Definition cached_is (q : ge_cached) (P : point) : Prop :=
  (loose (cYp q) /\ loose (cYm q) /\ loose (cZ q) /\ tight (cT2 q)) /\
  cached (fe_val (cYp q)) (fe_val (cYm q)) (fe_val (cZ q)) (fe_val (cT2 q)) P.

Definition precomp_is (q : ge_precomp) (P : point) : Prop :=
  (loose (pYp q) /\ loose (pYm q) /\ tight (pT2 q)) /\
  cached (fe_val (pYp q)) (fe_val (pYm q)) 1 (fe_val (pT2 q)) P.

(** Sums of two carried elements, and of three. *)
Definition mid : fe -> Prop := bounded 73819750 36909874.
Definition mid_val (f : fe) (v : Z) : Prop := mid f /\ fe_val f ≡p v.

Lemma mid_add f g v w : is_val f v -> is_val g w -> mid_val (fe_add f g) (v + w).
Proof.
  intros [H1 H2] [H3 H4]. destruct (add_exact 36909875 18454937 36909875 18454937 f g ltac:(done) ltac:(done) H1 H3) as [H5 H6].
  split; [done|]. by rewrite H6, H2, H4.
Qed.
Lemma mid_sub f g v w : is_val f v -> is_val g w -> mid_val (fe_sub f g) (v - w).
Proof.
  intros [H1 H2] [H3 H4]. destruct (sub_exact 36909875 18454937 36909875 18454937 f g ltac:(done) ltac:(done) H1 H3) as [H5 H6].
  split; [done|]. by rewrite H6, H2, H4.
Qed.
Lemma lo_sub_mid f g v w : is_val f v -> mid_val g w -> lo_val (fe_sub f g) (v - w).
Proof.
  intros [H1 H2] [H3 H4]. destruct (sub_exact 36909875 18454937 73819750 36909874 f g ltac:(done) ltac:(done) H1 H3) as [H5 H6].
  split; [unfold loose; fe_unfold; lia|]. by rewrite H6, H2, H4.
Qed.
Lemma lo_mid_add f g v w : mid_val f v -> is_val g w -> lo_val (fe_add f g) (v + w).
Proof.
  intros [H1 H2] [H3 H4]. destruct (add_exact 73819750 36909874 36909875 18454937 f g ltac:(done) ltac:(done) H1 H3) as [H5 H6].
  split; [unfold loose; fe_unfold; lia|]. by rewrite H6, H2, H4.
Qed.
Lemma lo_mid_sub f g v w : mid_val f v -> is_val g w -> lo_val (fe_sub f g) (v - w).
Proof.
  intros [H1 H2] [H3 H4]. destruct (sub_exact 73819750 36909874 36909875 18454937 f g ltac:(done) ltac:(done) H1 H3) as [H5 H6].
  split; [unfold loose; fe_unfold; lia|]. by rewrite H6, H2, H4.
Qed.
Lemma lo_of_mid f v : mid_val f v -> lo_val f v.
Proof. intros [H1 H2]. split; [unfold mid, loose in *; fe_unfold; lia|done]. Qed.

Lemma is_self f : tight f -> is_val f (fe_val f).
Proof. by split. Qed.
Lemma lo_self f : loose f -> lo_val f (fe_val f).
Proof. by split. Qed.

(** Follows an expression: its bounds, and its value. *)
Ltac fe_vals := cbv zeta; lazymatch goal with
  | |- is_val (fe_mul _ _) _ => eapply is_mul; fe_vals
  | |- is_val (fe_sq _) _ => eapply is_sq; fe_vals
  | |- is_val (fe_mul_small _ _) _ => eapply is_small; [done|fe_vals]
  | |- is_val (fe_neg _) _ => eapply is_neg; fe_vals
  | |- is_val fe_0 _ => apply is_0
  | |- is_val fe_1 _ => apply is_1
  | |- is_val _ _ => first [eassumption|apply is_self; assumption]
  | |- mid_val (fe_add _ _) _ => eapply mid_add; fe_vals
  | |- mid_val (fe_sub _ _) _ => eapply mid_sub; fe_vals
  | |- lo_val (fe_add _ _) _ => first [eapply lo_add; solve [fe_vals]|eapply lo_mid_add; fe_vals]
  | |- lo_val (fe_sub _ _) _ => first [eapply lo_sub; solve [fe_vals]|eapply lo_sub_mid; solve [fe_vals]|eapply lo_mid_sub; fe_vals]
  | |- lo_val _ _ => first [eapply lo_of_is; solve [fe_vals]|apply lo_self; assumption]
  end.

#[export] Instance rep_proper : Proper (eqp ==> eqp ==> eqp ==> eqp ==> eq ==> iff) rep.
Proof. intros X X' HX Y Y' HY Z Z' HZ T T' HT P ? <-. unfold rep. by rewrite HX, HY, HZ, HT. Qed.
#[export] Instance cached_proper : Proper (eqp ==> eqp ==> eqp ==> eqp ==> eq ==> iff) cached.
Proof. intros X X' HX Y Y' HY Z Z' HZ T T' HT P ? <-. unfold cached. by rewrite HX, HY, HZ, HT. Qed.

(** A result, given what its coordinates stand for. *)
Lemma ge_make X Y Z T x y z t P : is_val X x -> is_val Y y -> is_val Z z -> is_val T t -> rep x y z t P -> ge_is (Ge X Y Z T) P.
Proof. intros [H1 E1] [H2 E2] [H3 E3] [H4 E4] H. split; [done|]. cbn [gX gY gZ gT]. by rewrite E1, E2, E3, E4. Qed.

Lemma ge_zero_spec : ge_is ge_zero neutral.
Proof. eapply ge_make; [apply is_0|apply is_1|apply is_1|apply is_0|apply rep_neutral]. Qed.

Lemma ge_add_spec p q P Q : ge_is p P -> cached_is q Q -> ge_is (ge_add p q) (P + Q)%point.
Proof.
  intros [(TX & TY & TZ & TT) H] [(LYp & LYm & LZ & LT) H']. pose proof (rep_add _ _ _ _ _ _ _ _ _ _ H H') as R. cbv zeta in R.
  unfold ge_add. eapply ge_make; [fe_vals..|exact R].
Qed.

Lemma ge_cache_spec p P : ge_is p P -> cached_is (ge_cache p) P.
Proof.
  intros [(TX & TY & TZ & TT) H]. pose proof (rep_cached _ _ _ _ _ H) as R.
  destruct (lo_add _ _ _ _ (is_self _ TY) (is_self _ TX)) as [H1 E1]. destruct (lo_sub _ _ _ _ (is_self _ TY) (is_self _ TX)) as [H2 E2].
  destruct (is_mul (gT p) D2 (fe_val (gT p)) (2 * dd)) as [H3 E3]; [fe_vals| |].
  { apply lo_of_is. split; [by apply (bool_decide_unpack _); vm_compute|apply dd2_val]. }
  split; [split_and!; try done; by apply tight_loose|]. unfold ge_cache. cbn [cYp cYm cZ cT2]. by rewrite E1, E2, E3.
Qed.

Lemma ge_sub_spec p q P Q : ge_is p P -> cached_is q Q -> ge_is (ge_sub p q) (P - Q)%point.
Proof.
  intros Hp [(LYp & LYm & LZ & LT) H]. apply ge_add_spec; [done|]. destruct (is_neg _ _ (is_self _ LT)) as [H1 E1].
  split; [done|]. cbn [cYp cYm cZ cT2]. rewrite E1. by apply cached_neg.
Qed.

(** A precomputed point is a cached one with [Z = 1]. *)
Lemma ge_madd_spec p q P Q : ge_is p P -> precomp_is q Q -> ge_is (ge_madd p q) (P + Q)%point.
Proof.
  intros [(TX & TY & TZ & TT) H] [(LYp & LYm & LT) H']. pose proof (rep_add _ _ _ _ _ _ _ _ _ _ H H') as R. cbv zeta in R.
  rewrite Z.mul_1_r in R. unfold ge_madd. eapply ge_make; [fe_vals..|exact R].
Qed.

Lemma precomp_neg q Q : precomp_is q Q -> precomp_is (GePrecomp (pYm q) (pYp q) (fe_neg (pT2 q))) (- Q)%point.
Proof.
  intros [(LYp & LYm & LT) H]. destruct (is_neg _ _ (is_self _ LT)) as [H1 E1].
  split; [done|]. cbn [pYp pYm pT2]. rewrite E1. by apply cached_neg.
Qed.

Lemma ge_msub_spec p q P Q : ge_is p P -> precomp_is q Q -> ge_is (ge_msub p q) (P - Q)%point.
Proof. intros Hp Hq. by apply ge_madd_spec, precomp_neg. Qed.

Lemma ge_double_spec p P : ge_is p P -> ge_is (ge_double p) (P + P)%point.
Proof.
  intros [(TX & TY & TZ & TT) H]. pose proof (rep_double _ _ _ _ _ H) as R. cbv zeta in R.
  unfold ge_double. eapply ge_make; [fe_vals..|exact R].
Qed.

(** ** Encoding *)

(** 32 bytes: [y], and the parity of [x] as the highest bit. *)
Definition encode (P : point) : bytes := le_bytes 32 (py P + 2 ^ 255 * (px P mod 2)).

Lemma encode_length P : length (encode P) = 32%nat.
Proof. apply le_bytes_length. Qed.

Lemma byte_sign b : uchar b < 128 -> to_byte (Z.lxor (uchar b) 128) = to_byte (uchar b + 128).
Proof. by destruct b. Qed.

Lemma set_sign y s : 0 <= y < 2 ^ 255 -> 0 <= s <= 1 ->
  alter (fun b => to_byte (Z.lxor (uchar b) (Z.shiftl s 7))) 31%nat (le_bytes 32 y) = le_bytes 32 (y + 2 ^ 255 * s).
Proof.
  intros Hy Hs. change 32%nat with (31 + 1)%nat. rewrite !le_bytes_app. change (256 ^ Z.of_nat 31) with (2 ^ 248).
  assert (E : le_bytes 31 (y + 2 ^ 255 * s) = le_bytes 31 y).
  { rewrite <- le_bytes_mod, <- (le_bytes_mod 31 y). f_equal. change (256 ^ Z.of_nat 31) with (2 ^ 248).
    replace (2 ^ 255 * s) with (128 * s * 2 ^ 248) by lia. by rewrite Z.mod_add. }
  rewrite E. assert (Hl : forall f z, alter f 31%nat (le_bytes 31 y ++ [z]) = le_bytes 31 y ++ [f z]).
  { intros f z. rewrite <- (le_bytes_length 31 y) at 1. apply alter_last. }
  change (le_bytes 1) with (fun z => [to_byte z]). cbv beta. rewrite Hl. do 2 f_equal.
  assert (E2 : (y + 2 ^ 255 * s) / 2 ^ 248 = y / 2 ^ 248 + 128 * s).
  { replace (2 ^ 255 * s) with (128 * s * 2 ^ 248) by lia. by rewrite Z.div_add. }
  assert (R : 0 <= y / 2 ^ 248 < 128) by (split; [apply Z.div_pos; lia|apply Z.div_lt_upper_bound; lia]).
  rewrite E2. set (b := to_byte (y / 2 ^ 248)).
  assert (Hb : uchar b = y / 2 ^ 248) by (unfold b; rewrite uchar_to_byte; apply Z.mod_small; lia). rewrite <- Hb. rewrite <- Hb in R.
  assert (s = 0 \/ s = 1) as [->| ->] by lia.
  - by rewrite Z.lxor_0_r, to_byte_uchar, Z.add_0_r, to_byte_uchar.
  - apply byte_sign. lia.
Qed.

(** The affine coordinates that the inverse of [Z] gives. *)
Lemma affine_val X Y Z T P : tight X -> tight Z -> rep (fe_val X) (fe_val Y) (fe_val Z) T P ->
  is_val (fe_mul X (fe_invert Z)) (px P) /\ (tight Y -> is_val (fe_mul Y (fe_invert Z)) (py P)).
Proof.
  intros TX TZ (Hz & EX & EY & _). destruct (invert_spec Z (tight_loose _ TZ)) as [Ti Vi].
  assert (Hi : is_val (fe_invert Z) (inv (fe_val Z))) by (split; [done|by rewrite Vi, inv_pow]).
  assert (Hr : forall a, a * fe_val Z * inv (fe_val Z) ≡p a).
  { intros a. rewrite <- Z.mul_assoc, inv_mul by done. apply eq_eqp. ring. }
  split; [|intros TY]; (eapply is_eqp; [|eapply is_mul; [apply lo_of_is, is_self; assumption|apply lo_of_is, Hi]]).
  - by rewrite EX, Hr.
  - by rewrite EY, Hr.
Qed.

Lemma is_val_F f v : is_val f v -> 0 <= v < p -> F f = v.
Proof. intros [_ H] Hv. rewrite (F_val f v H). by apply Z.mod_small. Qed.

Lemma ge_tobytes_spec g P : ge_is g P -> ge_tobytes g = encode P.
Proof.
  intros [(TX & TY & TZ & TT) H]. destruct (affine_val _ _ _ _ _ TX TZ H) as [Hx Hy]. specialize (Hy TY).
  destruct (point_on P) as (Rx & Ry & _). pose proof (is_val_F _ _ Hx Rx) as Fx. pose proof (is_val_F _ _ Hy Ry) as Fy.
  unfold ge_tobytes, encode. cbv zeta. rewrite isodd_spec, tobytes_val by (apply Hx || apply Hy). rewrite Fx, Fy.
  pose proof (Z.mod_pos_bound (px P) 2 ltac:(lia)). apply set_sign; [|lia]. unfold p in Ry. lia.
Qed.

(** ** Decoding *)

(** [s] is the encoding of [P], where [y] need not be reduced and the sign of
    [x = 0] does not matter. *)
Definition decodes (s : bytes) (P : point) : Prop :=
  py P ≡p le_val s mod 2 ^ 255 /\ (px P = 0 \/ px P mod 2 = le_val s / 2 ^ 255).

Lemma encode_val P : le_val (encode P) = py P + 2 ^ 255 * (px P mod 2).
Proof.
  unfold encode. rewrite le_val_bytes. apply Z.mod_small. destruct (point_on P) as (_ & Ry & _). unfold p in Ry.
  pose proof (Z.mod_pos_bound (px P) 2 ltac:(lia)). change (256 ^ Z.of_nat 32) with (2 * 2 ^ 255). lia.
Qed.

Lemma decodes_encode P : decodes (encode P) P.
Proof.
  unfold decodes. rewrite encode_val. destruct (point_on P) as (_ & Ry & _). unfold p in Ry. pose proof (Z.mod_pos_bound (px P) 2 ltac:(lia)).
  rewrite (Z.mul_comm (2 ^ 255)), Z.mod_add, Z.div_add, (Z.mod_small (py P)), (Z.div_small (py P)) by lia. split; [done|]. right. lia.
Qed.

Lemma den_nz y : ~ dd * (y * y) + 1 ≡p 0.
Proof.
  intros H. apply (dd_not_square (root * inv y)). assert (Hy : ~ y ≡p 0) by (intros E; rewrite E in H; by vm_compute in H).
  pose proof (inv_mul y Hy) as Hi. pose proof root_sq as Hr. generalize dependent (inv y). generalize dependent root. generalize dependent dd.
  clear. intros d H r Hr j Hj. residues.
Qed.

Lemma curve_x x y : on dd x y <-> x * x * (dd * (y * y) + 1) ≡p y * y - 1.
Proof.
  unfold on. generalize dd. intros d. split; intros H.
  - transitivity (1 + d * x * x * y * y - 1 + x * x); [apply eq_eqp; ring|]. rewrite <- H. apply eq_eqp. ring.
  - transitivity (1 + (y * y - 1) - x * x); [apply eq_eqp; ring|]. rewrite <- H. apply eq_eqp. ring.
Qed.

Lemma same_y P Q : py P ≡p py Q -> px P ≡p px Q \/ px P ≡p - px Q.
Proof.
  intros Hy. destruct (point_on P) as (_ & _ & HP%curve_x), (point_on Q) as (_ & _ & HQ%curve_x). rewrite Hy in HP. rewrite <- HQ in HP.
  apply (eqp_cancel_r _ _ _ (den_nz (py Q))) in HP.
  assert (E : (px P - px Q) * (px P + px Q) ≡p 0).
  { transitivity (px P * px P - px Q * px Q); [apply eq_eqp; ring|]. rewrite HP. apply eq_eqp. ring. }
  apply eqp_mul_0 in E as [E|E]; [left|right].
  - transitivity (px P - px Q + px Q); [apply eq_eqp; ring|]. by rewrite E.
  - transitivity (px P + px Q - px Q); [apply eq_eqp; ring|]. by rewrite E.
Qed.

Lemma parity_neg x y : 0 <= x < p -> 0 <= y < p -> x ≡p - y -> x <> 0 -> x mod 2 = 1 - y mod 2.
Proof.
  intros Hx Hy H Hn. assert (E : x = p - y).
  { destruct (decide (y = 0)) as [->|Hy0]; [destruct Hn; apply residue_eq; done|]. apply residue_eq; [lia|lia|]. rewrite H.
    transitivity (0 - y); [apply eq_eqp; ring|]. apply sub_eqp; [|done]. by vm_compute. }
  rewrite E, Zminus_mod. pose proof (Z.mod_pos_bound y 2 ltac:(lia)). change (p mod 2) with 1.
  assert (y mod 2 = 0 \/ y mod 2 = 1) as [->| ->] by lia; done.
Qed.

Lemma decodes_unique s P Q : decodes s P -> decodes s Q -> P = Q.
Proof.
  intros [Hy Sx] [Hy' Sx']. destruct (point_on P) as (RP & _ & _), (point_on Q) as (RQ & _ & _).
  assert (E : py P ≡p py Q) by (by rewrite Hy, Hy'). apply point_eq; [|done]. destruct (same_y P Q E) as [H|H]; [done|].
  destruct (decide (px P = 0)) as [E0|E0].
  - rewrite E0 in *. assert (px Q = 0) as ->; [|done]. apply residue_eq; [done|done|].
    transitivity (0 - (- px Q)); [apply eq_eqp; ring|]. by rewrite <- H.
  - assert (E0' : px Q <> 0) by (intros E1; rewrite E1 in H; destruct E0; apply residue_eq; done).
    destruct Sx as [?|Sx], Sx' as [?|Sx']; try done. pose proof (parity_neg _ _ RP RQ H E0).
    pose proof (Z.mod_pos_bound (px Q) 2 ltac:(lia)). lia.
Qed.

Lemma sign_byte s : length s = 32%nat -> Z.shiftr (at_ s 31) 7 = le_val s / 2 ^ 255 /\ 0 <= le_val s / 2 ^ 255 <= 1.
Proof.
  intros Hs. destruct (exists_last (l := s)) as (m & b & ->); [by intros ->|]. rewrite length_app in Hs. simpl in Hs.
  assert (Hm : length m = 31%nat) by lia. pose proof (uchar_range b). pose proof (le_val_range m) as Rm. rewrite Hm in Rm. change (256 ^ Z.of_nat 31) with (2 ^ 248) in Rm.
  assert (E : at_ (m ++ [b]) 31 = uchar b) by (unfold at_; rewrite lookup_app_r by lia; by rewrite Hm).
  rewrite E, Z.shiftr_div_pow2, le_val_app, Hm by lia. change (256 ^ Z.of_nat 31) with (2 ^ 248). cbn [le_val].
  assert (D : (le_val m + 2 ^ 248 * (uchar b + 256 * 0)) / 2 ^ 255 = uchar b / 2 ^ 7).
  { change (2 ^ 255) with (2 ^ 248 * 2 ^ 7). rewrite <- Z.div_div by lia. rewrite (Z.mul_comm (2 ^ 248) (_ + _)), Z.div_add, (Z.div_small (le_val m)) by lia. f_equal. lia. }
  rewrite D. split; [done|]. split; [apply Z.div_pos; lia|]. apply Zlt_succ_le, Z.div_lt_upper_bound; lia.
Qed.

(** What the root is: [x] with [x^2 den = num]. *)
Lemma root_x y num den isr : num ≡p y * y - 1 -> den ≡p dd * (y * y) + 1 ->
  num * den ≡p 0 /\ isr ≡p 0 \/ isr * isr * (num * den) ≡p 1 -> on dd (num * isr) y.
Proof.
  intros En Ed H. apply curve_x. rewrite <- Ed, <- En. destruct H as [[H0 Hi]|H].
  - rewrite Hi. apply eqp_mul_0 in H0 as [H0|H0]; [rewrite H0; apply eq_eqp; ring|]. rewrite Ed in H0. by apply den_nz in H0.
  - transitivity (num * (isr * isr * (num * den))); [apply eq_eqp; ring|]. rewrite H. apply eq_eqp. ring.
Qed.

(** There is none when the code finds none. *)
Lemma no_root x y num den isr : num ≡p y * y - 1 -> den ≡p dd * (y * y) + 1 -> isr * isr * (num * den) ≡p root -> ~ on dd x y.
Proof.
  intros En Ed H Ho%curve_x. rewrite <- Ed, <- En in Ho. apply (root_not_square (isr * x * den)). rewrite <- H.
  transitivity (isr * isr * (x * x * den * den)); [apply eq_eqp; ring|]. rewrite Ho. apply eq_eqp. ring.
Qed.

Lemma ge_affine X Y x y P : is_val X x -> is_val Y y -> x ≡p px P -> y ≡p py P -> ge_is (Ge X Y fe_1 (fe_mul X Y)) P.
Proof.
  intros HX HY Ex Ey. eapply ge_make; [exact HX|exact HY|apply is_1|apply is_mul; by apply lo_of_is|].
  split_and!; [by vm_compute|by rewrite Ex, Z.mul_1_r|by rewrite Ey, Z.mul_1_r|by rewrite Ex, Ey, Z.mul_1_r].
Qed.

(** The root with its sign set to the opposite of the encoded one. *)
Lemma choose_sign s X Y x y (H : on dd x y) : length s = 32%nat -> is_val X x -> is_val Y y -> y ≡p le_val s mod 2 ^ 255 ->
  let hX := if decide (fe_isodd X = Z.shiftr (at_ s 31) 7) then fe_neg X else X in
  exists P, decodes s P /\ ge_is (Ge hX Y fe_1 (fe_mul hX Y)) (- P)%point.
Proof.
  intros Hs HX HY Ey hX. destruct (sign_byte s Hs) as [Eb Rb]. set (Q := mk_point x y H).
  assert (Qx : px Q ≡p x) by apply eqp_mod. assert (Qy : py Q ≡p y) by apply eqp_mod. destruct (point_on Q) as (RQ & _ & _).
  assert (Eo : fe_isodd X = px Q mod 2).
  { rewrite isodd_spec by apply HX. f_equal. apply is_val_F; [|done]. by eapply is_eqp; [symmetry; exact Qx|]. }
  unfold hX. clear hX. rewrite Eo, Eb. destruct (decide (px Q mod 2 = le_val s / 2 ^ 255)) as [E|E].
  - exists Q. split; [split; [by rewrite Qy|by right]|]. apply (ge_affine _ _ (- x) y); [by apply is_neg|done| |].
    + by rewrite px_popp, Qx.
    + by rewrite py_popp, Qy.
  - exists (- Q)%point. rewrite popp_popp. split; [|apply (ge_affine _ _ x y); done]. split; [by rewrite py_popp, Qy|].
    destruct (point_on (- Q)%point) as (RN & _ & _). destruct (decide (px (- Q)%point = 0)) as [E0|E0]; [by left|right].
    rewrite (parity_neg _ _ RN RQ (px_popp Q) E0). pose proof (Z.mod_pos_bound (px Q) 2 ltac:(lia)). lia.
Qed.

Lemma frombytes_neg_spec s : length s = 32%nat ->
  match ge_frombytes_neg_vartime s with
  | Some g => exists P, decodes s P /\ ge_is g (- P)%point
  | None => forall P, ~ decodes s P
  end.
Proof.
  intros Hs. unfold ge_frombytes_neg_vartime. cbv zeta. unfold fe_frombytes. destruct (frombytes_mask_val s 1 Hs ltac:(lia)) as [TY VY].
  change (256 - 1) with 255 in VY. set (hY := fe_frombytes_mask s 1) in *. set (y := le_val s mod 2 ^ 255) in *. clearbody hY.
  assert (HY : is_val hY y) by done. assert (Hd : is_val d dd) by (split; [by apply (bool_decide_unpack _); vm_compute|apply dd_val]).
  assert (Hn : lo_val (fe_sub (fe_sq hY) fe_1) (y * y - 1)) by fe_vals.
  assert (He : lo_val (fe_add (fe_mul (fe_sq hY) d) fe_1) (y * y * dd + 1)) by fe_vals.
  set (num := fe_sub _ _) in *. set (den := fe_add _ _) in *. clearbody num den.
  destruct (is_mul _ _ _ _ Hn He) as [Tv Vv]. destruct (invsqrt_spec (fe_mul num den) Tv) as (sq & isr & -> & Ti & Hc).
  assert (Ed : y * y * dd + 1 ≡p dd * (y * y) + 1) by (apply eq_eqp; ring). rewrite Vv in Hc.
  destruct (decide (sq = 0)) as [E0|E0].
  - intros P [Py _]. change (py P ≡p y) in Py. destruct (point_on P) as (_ & _ & Ho). assert (Ho' : on dd (px P) y) by (unfold on in *; by rewrite <- Py).
    destruct Hc as [(_ & ? & _)|[(_ & ? & _)|(_ & _ & Hr)]]; [lia|lia|]. by eapply no_root in Ho'.
  - assert (HX : is_val (fe_mul num isr) ((y * y - 1) * fe_val isr)) by (apply is_mul; [done|by apply lo_of_is, is_self]).
    assert (H : on dd ((y * y - 1) * fe_val isr) y).
    { eapply root_x; [reflexivity|exact Ed|]. destruct Hc as [(H0 & _ & H1)|[(_ & _ & H1)|(_ & ? & _)]]; [by left|by right|done]. }
    exact (choose_sign s _ _ _ _ H Hs HX HY ltac:(done)).
Qed.
