(* ===== verification/EdTables.v ===== *)
(** * The precomputed points of Ed25519 (the tables of [monocypher.c])

    The window and the two combs as they are in the code, and the proof that
    their entries are the multiples of the base point that the scalar
    multiplications take them for.  One evaluation walks the multiples in
    extended coordinates and compares each entry without an inversion; it also
    shows that [L] times the base point is the neutral element. *)
From S2P Require Import Prelude Fmt Mono Primes Fe25519 FeInvert X25519 ModL Edwards EdPoint.
From Stdlib Require Import Zbitwise Zdivisibility Zpow_facts.

Open Scope Z_scope.

(** ** The tables *)

(** Multiples 1, 3, ..., 15 of the base point. *)
Definition b_window : list ge_precomp := [
  GePrecomp
    (Fe 25967493 (-14356035) 29566456 3660896 (-12694345) 4014787 27544626 (-11754271) (-6079156) 2047605)
    (Fe (-12545711) 934262 (-2722910) 3049990 (-727428) 9406986 12720692 5043384 19500929 (-15469378))
    (Fe (-8738181) 4489570 9688441 (-14785194) 10184609 (-12363380) 29287919 11864899 (-24514362) (-4438546));
  GePrecomp
    (Fe 15636291 (-9688557) 24204773 (-7912398) 616977 (-16685262) 27787600 (-14772189) 28944400 (-1550024))
    (Fe 16568933 4717097 (-11556148) (-1102322) 15682896 (-11807043) 16354577 (-11775962) 7689662 11199574)
    (Fe 30464156 (-5976125) (-11779434) (-15670865) 23220365 15915852 7512774 10017326 (-17749093) (-9920357));
  GePrecomp
    (Fe 10861363 11473154 27284546 1981175 (-30064349) 12577861 32867885 14515107 (-15438304) 10819380)
    (Fe 4708026 6336745 20377586 9066809 (-11272109) 6594696 (-25653668) 12483688 (-12668491) 5581306)
    (Fe 19563160 16186464 (-29386857) 4097519 10237984 (-4348115) 28542350 13850243 (-23678021) (-15815942));
  GePrecomp
    (Fe 5153746 9909285 1723747 (-2777874) 30523605 5516873 19480852 5230134 (-23952439) (-15175766))
    (Fe (-30269007) (-3463509) 7665486 10083793 28475525 1649722 20654025 16520125 30598449 7715701)
    (Fe 28881845 14381568 9657904 3680757 (-20181635) 7843316 (-31400660) 1370708 29794553 (-1409300));
  GePrecomp
    (Fe (-22518993) (-6692182) 14201702 (-8745502) (-23510406) 8844726 18474211 (-1361450) (-13062696) 13821877)
    (Fe (-6455177) (-7839871) 3374702 (-4740862) (-27098617) (-10571707) 31655028 (-7212327) 18853322 (-14220951))
    (Fe 4566830 (-12963868) (-28974889) (-12240689) (-7602672) (-2830569) (-8514358) (-10431137) 2207753 (-3209784));
  GePrecomp
    (Fe (-25154831) (-4185821) 29681144 7868801 (-6854661) (-9423865) (-12437364) (-663000) (-31111463) (-16132436))
    (Fe 25576264 (-2703214) 7349804 (-11814844) 16472782 9300885 3844789 15725684 171356 6466918)
    (Fe 23103977 13316479 9739013 (-16149481) 817875 (-15038942) 8965339 (-14088058) (-30714912) 16193877);
  GePrecomp
    (Fe (-33521811) 3180713 (-2394130) 14003687 (-16903474) (-16270840) 17238398 4729455 (-18074513) 9256800)
    (Fe (-25182317) (-4174131) 32336398 5036987 (-21236817) 11360617 22616405 9761698 (-19827198) 630305)
    (Fe (-13720693) 2639453 (-24237460) (-7406481) 9494427 (-5774029) (-6554551) (-15960994) (-2449256) (-14291300));
  GePrecomp
    (Fe (-3151181) (-5046075) 9282714 6866145 (-31907062) (-863023) (-18940575) 15033784 25105118 (-7894876))
    (Fe (-24326370) 15950226 (-31801215) (-14592823) (-11662737) (-5090925) 1573892 (-2625887) 2198790 (-15804619))
    (Fe (-3099351) 10324967 (-2241613) 7453183 (-5446979) (-2735503) (-13812022) (-16236442) (-32461234) (-12290683))].

(** 2^96 plus or minus 1, 2^32 and 2^64, the sign of each from a bit of the
    index; and these times 2^128. *)
Definition b_comb_low : list ge_precomp := [
  GePrecomp
    (Fe (-6816601) (-2324159) (-22559413) 124364 18015490 8373481 19993724 1979872 (-18549925) 9085059)
    (Fe 10306321 403248 14839893 9633706 8463310 (-8354981) (-14305673) 14668847 26301366 2818560)
    (Fe (-22701500) (-3210264) (-13831292) (-2927732) (-16326337) (-14016360) 12940910 177905 12165515 (-2397893));
  GePrecomp
    (Fe (-12282262) (-7022066) 9920413 (-3064358) (-32147467) 2927790 22392436 (-14852487) 2719975 16402117)
    (Fe (-7236961) (-4729776) 2685954 (-6525055) (-24242706) (-15940211) (-6238521) 14082855 10047669 12228189)
    (Fe (-30495588) (-12893761) (-11161261) 3539405 (-11502464) 16491580 (-27286798) (-15030530) (-7272871) (-15934455));
  GePrecomp
    (Fe 17650926 582297 (-860412) (-187745) (-12072900) (-10683391) (-20352381) 15557840 (-31072141) (-5019061))
    (Fe (-6283632) (-2259834) (-4674247) (-4598977) (-4089240) 12435688 (-31278303) 1060251 6256175 10480726)
    (Fe (-13871026) 2026300 (-21928428) (-2741605) (-2406664) (-8034988) 7355518 15733500 (-23379862) 7489131);
  GePrecomp
    (Fe 6883359 695140 23196907 9644202 (-33430614) 11354760 (-20134606) 6388313 (-8263585) (-8491918))
    (Fe (-7716174) (-13605463) (-13646110) 14757414 (-19430591) (-14967316) 10359532 (-11059670) (-21935259) 12082603)
    (Fe (-11253345) (-15943946) 10046784 5414629 24840771 8086951 (-6694742) 9868723 15842692 (-16224787));
  GePrecomp
    (Fe 9639399 11810955 (-24007778) (-9320054) 3912937 (-9856959) 996125 (-8727907) (-8919186) (-14097242))
    (Fe 7248867 14468564 25228636 (-8795035) 14346339 8224790 6388427 (-7181107) 6468218 (-8720783))
    (Fe 15513115 15439095 7342322 (-10157390) 18005294 (-7265713) 2186239 4884640 10826567 7135781);
  GePrecomp
    (Fe (-14204238) 5297536 (-5862318) (-6004934) 28095835 4236101 (-14203318) 1958636 (-16816875) 3837147)
    (Fe (-5511166) (-13176782) (-29588215) 12339465 15325758 (-15945770) (-8813185) 11075932 (-19608050) (-3776283))
    (Fe 11728032 9603156 (-4637821) (-5304487) (-7827751) 2724948 31236191 (-16760175) (-7268616) 14799772);
  GePrecomp
    (Fe (-28842672) 4840636 (-12047946) (-9101456) (-1445464) 381905 (-30977094) (-16523389) 1290540 12798615)
    (Fe 27246947 (-10320914) 14792098 (-14518944) 5302070 (-8746152) (-3403974) (-4149637) (-27061213) 10749585)
    (Fe 25572375 (-6270368) (-15353037) 16037944 1146292 32198 23487090 9585613 24714571 (-1418265));
  GePrecomp
    (Fe 19844825 282124 (-17583147) 11004019 (-32004269) (-2716035) 6105106 (-1711007) (-21010044) 14338445)
    (Fe 8027505 8191102 (-18504907) (-12335737) 25173494 (-5923905) 15446145 7483684 (-30440441) 10009108)
    (Fe (-14134701) (-4174411) 10246585 (-14677495) 33553567 (-14012935) 23366126 15080531 (-7969992) 7663473)].

Definition b_comb_high : list ge_precomp := [
  GePrecomp
    (Fe 33055887 (-4431773) (-521787) 6654165 951411 (-6266464) (-5158124) 6995613 (-5397442) (-6985227))
    (Fe 4014062 6967095 (-11977872) 3960002 8001989 5130302 (-2154812) (-1899602) (-31954493) (-16173976))
    (Fe 16271757 (-9212948) 23792794 731486 (-25808309) (-3546396) 6964344 (-4767590) 10976593 10050757);
  GePrecomp
    (Fe 2533007 (-4288439) (-24467768) (-12387405) (-13450051) 14542280 12876301 13893535 15067764 8594792)
    (Fe 20073501 (-11623621) 3165391 (-13119866) 13188608 (-11540496) (-10751437) (-13482671) 29588810 2197295)
    (Fe (-1084082) 11831693 6031797 14062724 14748428 (-8159962) (-20721760) 11742548 31368706 13161200);
  GePrecomp
    (Fe 2050412 (-6457589) 15321215 5273360 25484180 124590 (-18187548) (-7097255) (-6691621) (-14604792))
    (Fe 9938196 2162889 (-6158074) (-1711248) 4278932 (-2598531) (-22865792) (-7168500) (-24323168) 11746309)
    (Fe (-22691768) (-14268164) 5965485 9383325 20443693 5854192 28250679 (-1381811) (-10837134) 13717818);
  GePrecomp
    (Fe (-8495530) 16382250 9548884 (-4971523) (-4491811) (-3902147) 6182256 (-12832479) 26628081 10395408)
    (Fe 27329048 (-15853735) 7715764 8717446 (-9215518) (-14633480) 28982250 (-5668414) 4227628 242148)
    (Fe (-13279943) (-7986904) (-7100016) 8764468 (-27276630) 3096719 29678419 (-9141299) 3906709 11265498);
  GePrecomp
    (Fe 11918285 15686328 (-17757323) (-11217300) (-27548967) 4853165 (-27168827) 6807359 6871949 (-1075745))
    (Fe (-29002610) 13984323 (-27111812) (-2713442) 28107359 (-13266203) 6155126 15104658 3538727 (-7513788))
    (Fe 14103158 11233913 (-33165269) 9279850 31014152 4335090 (-1827936) 4590951 13960841 12787712);
  GePrecomp
    (Fe 1469134 (-16738009) 33411928 13942824 8092558 (-8778224) (-11165065) 1437842 22521552 (-2792954))
    (Fe 31352705 (-4807352) (-25327300) 3962447 12541566 (-9399651) (-27425693) 7964818 (-23829869) 5541287)
    (Fe (-25732021) (-6864887) 23848984 3039395 (-9147354) 6022816 (-27421653) 10590137 25309915 (-1584678));
  GePrecomp
    (Fe (-22951376) 5048948 31139401 (-190316) (-19542447) (-626310) (-17486305) (-16511925) (-18851313) (-12985140))
    (Fe (-9684890) 14681754 30487568 7717771 (-10829709) 9630497 30290549 (-10531496) (-27798994) (-13812825))
    (Fe 5827835 16097107 (-24501327) 12094619 7413972 11447087 28057551 (-1793987) (-14056981) 4359312);
  GePrecomp
    (Fe 26323183 2342588 (-21887793) (-1623758) (-6062284) 2107090 (-28724907) 9036464 (-19618351) (-13055189))
    (Fe (-29697200) 14829398 (-4596333) 14220089 (-30022969) 2955645 12094100 (-13693652) (-5941445) 7047569)
    (Fe (-3201977) 14413268 (-12058324) (-16417589) (-9035655) (-7224648) 9258160 1399236 30397584 (-5684634))].

(** ** The base point (RFC 8032) *)

Definition base_x : Z := 15112221349535400772501151409588531511454012693041857206046113283949847762202.
Definition base_y : Z := 46316835694926478169428394003475163141307993866256225615783033603165251855960.

Lemma base_on : bool_decide (on_curve base_x base_y) = true.
Proof. vm_compute. reflexivity. Qed.

Definition B : point := Point base_x base_y base_on.

(** ** Multiples on residues

    A product is folded twice at bit 255, which leaves it below 2^256. *)

Definition fold255 (x : Z) : Z := Z.land x (2 ^ 255 - 1) + 19 * Z.shiftr x 255.
Definition mulr (x y : Z) : Z := fold255 (fold255 (x * y)).

Lemma fold255_eqp x : fold255 x ≡p x.
Proof.
  unfold fold255. change (2 ^ 255 - 1) with (Z.ones 255). rewrite Z.land_ones, Z.shiftr_div_pow2 by lia.
  rewrite (Z.div_mod x (2 ^ 255)) at 3 by done. rewrite (Z.mul_comm (2 ^ 255)).
  transitivity (x mod 2 ^ 255 + 2 ^ 255 * (x / 2 ^ 255) - x / 2 ^ 255 * p); [apply eq_eqp; unfold p; ring|].
  rewrite eqp_add_p. apply eq_eqp. ring.
Qed.

Lemma mulr_eqp x y : mulr x y ≡p x * y.
Proof. unfold mulr. by rewrite !fold255_eqp. Qed.

#[export] Instance mulr_proper : Proper (eqp ==> eqp ==> eqp) mulr.
Proof. intros x x' Hx y y' Hy. by rewrite !mulr_eqp, Hx, Hy. Qed.

Definition ext : Type := Z * Z * Z * Z.

Definition is_ext (E : ext) (P : point) : Prop := let '(X, Y, Z, T) := E in rep X Y Z T P.
Definition is_cext (E : ext) (P : point) : Prop := let '(Yp, Ym, Z, T2) := E in cached Yp Ym Z T2 P.

Definition xadd (P Q : ext) : ext :=
  let '(X1, Y1, Z1, T1) := P in
  let '(Yp, Ym, Z2, T2) := Q in
  let A := mulr (Y1 + X1) Yp in let B := mulr (Y1 - X1) Ym in let C := mulr (Z1 + Z1) Z2 in let D := mulr T1 T2 in
  (mulr (A - B) (C - D), mulr (A + B) (C + D), mulr (C + D) (C - D), mulr (A - B) (A + B)).

Definition xdouble (P : ext) : ext :=
  let '(X, Y, Z, _) := P in
  let XX := mulr X X in let YY := mulr Y Y in
  let E := mulr (X + Y) (X + Y) - (YY + XX) in let G := YY - XX in let H := YY + XX in let F := mulr Z Z * 2 - G in
  (mulr E F, mulr H G, mulr G F, mulr E H).

Definition xcache (P : ext) : ext := let '(X, Y, Z, T) := P in (Y + X, Y - X, Z, mulr T (2 * dd)).
Definition xneg (Q : ext) : ext := let '(Yp, Ym, Z, T2) := Q in (Ym, Yp, Z, - T2).

Lemma xadd_is E C P Q : is_ext E P -> is_cext C Q -> is_ext (xadd E C) (P + Q)%point.
Proof.
  destruct E as [[[X1 Y1] Z1] T1], C as [[[Yp Ym] Z2] T2]. intros H H'. unfold xadd, is_ext. cbv zeta.
  rewrite !mulr_eqp. exact (rep_add _ _ _ _ _ _ _ _ _ _ H H').
Qed.

Lemma xdouble_is E P : is_ext E P -> is_ext (xdouble E) (P + P)%point.
Proof.
  destruct E as [[[X Y] Z] T]. intros H. unfold xdouble, is_ext. cbv zeta. rewrite !mulr_eqp. exact (rep_double _ _ _ _ _ H).
Qed.

Lemma xcache_is E P : is_ext E P -> is_cext (xcache E) P.
Proof.
  destruct E as [[[X Y] Z] T]. intros H. unfold xcache, is_cext. rewrite mulr_eqp. exact (rep_cached _ _ _ _ _ H).
Qed.

Lemma xneg_is E P : is_cext E P -> is_cext (xneg E) (- P)%point.
Proof. destruct E as [[[Yp Ym] Z] T2]. apply cached_neg. Qed.

Definition base_ext : ext := (base_x, base_y, 1, mulr base_x base_y).

Lemma base_ext_is : is_ext base_ext B.
Proof. unfold base_ext, is_ext. rewrite mulr_eqp. split_and!; [by vm_compute|apply eq_eqp; change (px B) with base_x; change (py B) with base_y; ring..]. Qed.

(** Doubling [n] times; [n] times a point, the highest bit first. *)
Definition xdoubles (n : nat) (E : ext) : ext := Nat.iter n xdouble E.

Fixpoint xmul (C E : ext) (n : positive) : ext :=
  match n with
  | xH => E
  | xO n => xdouble (xmul C E n)
  | xI n => xadd (xdouble (xmul C E n)) C
  end.

Lemma xdoubles_is n E P : is_ext E P -> is_ext (xdoubles n E) (2 ^ Z.of_nat n * P)%point.
Proof.
  intros H. induction n as [|n IH]; [by rewrite smul_1|]. rewrite Nat2Z.inj_succ, Z.pow_succ_r, smul_double by lia.
  by apply xdouble_is.
Qed.

Lemma xmul_is C E P n : is_ext E P -> is_cext C P -> is_ext (xmul C E n) (Z.pos n * P)%point.
Proof.
  intros HE HC. induction n as [n IH|n IH|]; cbn [xmul]; [| |by rewrite smul_1].
  - rewrite Pos2Z.inj_xI, smul_add, smul_double, smul_1. by apply xadd_is; [apply xdouble_is|].
  - rewrite Pos2Z.inj_xO, smul_double. by apply xdouble_is.
Qed.

(** ** Comparison of an entry with a point *)

Definition entry_ok (q : ge_precomp) (E : ext) : bool :=
  let '(X, Y, Z, T) := E in
  bool_decide (loose (pYp q)) && bool_decide (loose (pYm q)) && bool_decide (tight (pT2 q)) &&
  bool_decide (mulr (fe_val (pYp q)) Z ≡p Y + X) && bool_decide (mulr (fe_val (pYm q)) Z ≡p Y - X) &&
  bool_decide (mulr (fe_val (pT2 q)) Z ≡p mulr (2 * dd) T).

Lemma entry_is q E P : is_ext E P -> entry_ok q E = true -> precomp_is q P.
Proof.
  destruct E as [[[X Y] Z] T]. intros (Hz & EX & EY & ET) H. unfold entry_ok in H.
  apply andb_true_iff in H as [H H6%bool_decide_eq_true]. apply andb_true_iff in H as [H H5%bool_decide_eq_true].
  apply andb_true_iff in H as [H H4%bool_decide_eq_true]. apply andb_true_iff in H as [H H3%bool_decide_eq_true].
  apply andb_true_iff in H as [H1%bool_decide_eq_true H2%bool_decide_eq_true]. rewrite mulr_eqp in H4, H5, H6. rewrite mulr_eqp in H6.
  split; [done|]. split_and!; [by vm_compute| | |]; rewrite Z.mul_1_r; apply (eqp_cancel_r _ _ _ Hz).
  - rewrite H4, EX, EY. apply eq_eqp. ring.
  - rewrite H5, EX, EY. apply eq_eqp. ring.
  - rewrite H6, ET. apply eq_eqp. ring.
Qed.

(** ** The check of the tables *)

(** [E], [2^32 E], [2^64 E], ... *)
Fixpoint steps (n : nat) (E : ext) : list ext := match n with O => [] | S n => E :: steps n (xdoubles 32 E) end.

Definition signed (j k : nat) (C : ext) : ext := if Nat.testbit j k then C else xneg C.
Definition comb_point (E0 E1 E2 E3 : ext) (j : nat) : ext :=
  xadd (xadd (xadd E3 (signed j 0 (xcache E0))) (signed j 1 (xcache E1))) (signed j 2 (xcache E2)).

Definition default_entry : ge_precomp := GePrecomp fe_0 fe_0 fe_0.
Definition entry (t : list ge_precomp) (j : nat) : ge_precomp := default default_entry (t !! j).

Definition comb_ok (t : list ge_precomp) (E0 E1 E2 E3 : ext) : bool :=
  forallb (fun j => entry_ok (entry t j) (comb_point E0 E1 E2 E3 j)) (seq 0 8).

(** The entries of a window from [E] in steps of [C]. *)
Fixpoint window_ok (t : list ge_precomp) (C E : ext) : bool :=
  match t with [] => true | q :: t => entry_ok q E && window_ok t C (xadd E C) end.

Definition order_low : positive := 27742317777372353535851937790883648493.

Definition is_neutral (E : ext) : bool := let '(X, Y, Z, _) := E in bool_decide (X ≡p 0) && bool_decide (Y ≡p Z).

Definition multiples_ok (l : list ext) : bool :=
  match l with
  | [E0; E1; E2; E3; E4; E5; E6; E7] =>
      comb_ok b_comb_low E0 E1 E2 E3 && comb_ok b_comb_high E4 E5 E6 E7 &&
      window_ok b_window (xcache (xdouble base_ext)) base_ext &&
      is_neutral (xadd (xdoubles 28 E7) (xcache (xmul (xcache base_ext) base_ext order_low)))
  | _ => false
  end.

Lemma tables_checked : multiples_ok (steps 8 base_ext) = true.
Proof. vm_compute. reflexivity. Qed.

(** ** What it shows *)

(** The sign of bit [k] of an index. *)
Definition sgn (j k : nat) : Z := if Nat.testbit j k then 1 else -1.
(** The multiple at index [j] of a comb. *)
Definition comb_scalar (j : nat) : Z := 2 ^ 96 + sgn j 0 + sgn j 1 * 2 ^ 32 + sgn j 2 * 2 ^ 64.

Lemma steps_is n i E P : is_ext E P -> forall F, steps n E !! i = Some F -> is_ext F (2 ^ (32 * Z.of_nat i) * P)%point.
Proof.
  revert i E P. induction n as [|n IH]; intros i E P HE F HF; [done|]. destruct i as [|i]; [injection HF as <-; by rewrite smul_1|].
  apply (IH i _ _ (xdoubles_is 32 E P HE)) in HF. rewrite <- smul_mul in HF.
  replace (2 ^ (32 * Z.of_nat (S i))) with (2 ^ (32 * Z.of_nat i) * 2 ^ Z.of_nat 32); [done|]. rewrite <- Z.pow_add_r by lia. f_equal. lia.
Qed.

Lemma signed_is j k E P n : is_ext E (n * P)%point -> is_cext (signed j k (xcache E)) ((sgn j k * n)%Z * P)%point.
Proof.
  intros H%xcache_is. unfold signed, sgn. destruct (Nat.testbit j k); [by rewrite Z.mul_1_l|].
  replace (-1 * n) with (- n) by lia. rewrite smul_opp. by apply xneg_is.
Qed.

Lemma comb_is t E0 E1 E2 E3 P : comb_ok t E0 E1 E2 E3 = true ->
  is_ext E0 P -> is_ext E1 (2 ^ 32 * P)%point -> is_ext E2 (2 ^ 64 * P)%point -> is_ext E3 (2 ^ 96 * P)%point ->
  forall j, (j < 8)%nat -> precomp_is (entry t j) (comb_scalar j * P)%point.
Proof.
  intros H H0 H1 H2 H3 j Hj. unfold comb_ok in H. rewrite forallb_forall in H. specialize (H j (proj2 (in_seq 8 0 j) ltac:(lia))).
  eapply entry_is; [|exact H]. unfold comb_scalar, comb_point.
  replace (2 ^ 96 + sgn j 0 + sgn j 1 * 2 ^ 32 + sgn j 2 * 2 ^ 64) with (2 ^ 96 + sgn j 0 * 1 + sgn j 1 * 2 ^ 32 + sgn j 2 * 2 ^ 64) by lia.
  rewrite !(smul_add (_ + _)), smul_add. repeat apply xadd_is; [done|apply signed_is; by rewrite smul_1|by apply signed_is..].
Qed.

Lemma window_is t C E P D : is_ext E P -> is_cext C D -> window_ok t C E = true ->
  forall i, (i < length t)%nat -> precomp_is (entry t i) (P + Z.of_nat i * D)%point.
Proof.
  revert E P. induction t as [|q t IH]; intros E P HE HC H i Hi; [simpl in Hi; lia|]. cbn [window_ok] in H. apply andb_true_iff in H as [Hq H].
  destruct i as [|i]; [rewrite smul_0, (right_id_L neutral padd); by apply (entry_is _ E)|].
  rewrite Nat2Z.inj_succ, smul_succ, (assoc_L padd). apply (IH (xadd E C)); [by apply xadd_is|done|done|simpl in Hi; lia].
Qed.

Lemma neutral_is E P : is_ext E P -> is_neutral E = true -> P = neutral.
Proof.
  destruct E as [[[X Y] Z] T]. intros (Hz & EX & EY & _) [H1%bool_decide_eq_true H2%bool_decide_eq_true]%andb_true_iff.
  apply point_eq; apply (eqp_cancel_r _ _ _ Hz).
  - rewrite <- EX, H1. done.
  - rewrite <- EY, H2. change (py neutral) with 1. by rewrite Z.mul_1_l.
Qed.

(** The entries of the tables, and the order of the base point. *)
Definition tables_right : Prop :=
  (forall j, (j < 8)%nat -> precomp_is (entry b_comb_low j) (comb_scalar j * B)%point) /\
  (forall j, (j < 8)%nat -> precomp_is (entry b_comb_high j) ((2 ^ 128 * comb_scalar j)%Z * B)%point) /\
  (forall i, (i < 8)%nat -> precomp_is (entry b_window i) ((2 * Z.of_nat i + 1)%Z * B)%point) /\
  (order * B)%point = neutral.

Lemma multiples_facts l : (forall i F, l !! i = Some F -> is_ext F (2 ^ (32 * Z.of_nat i) * B)%point) -> multiples_ok l = true -> tables_right.
Proof.
  intros Hs H. destruct l as [|E0 [|E1 [|E2 [|E3 [|E4 [|E5 [|E6 [|E7 [|? ?]]]]]]]]]; try discriminate H. cbn [multiples_ok] in H. unfold tables_right.
  apply andb_true_iff in H as [H HL]. apply andb_true_iff in H as [H HW]. apply andb_true_iff in H as [HC0 HC1].
  pose proof (Hs 0%nat _ eq_refl) as S0. pose proof (Hs 1%nat _ eq_refl) as S1. pose proof (Hs 2%nat _ eq_refl) as S2. pose proof (Hs 3%nat _ eq_refl) as S3.
  pose proof (Hs 4%nat _ eq_refl) as S4. pose proof (Hs 5%nat _ eq_refl) as S5. pose proof (Hs 6%nat _ eq_refl) as S6. pose proof (Hs 7%nat _ eq_refl) as S7.
  clear Hs. rewrite smul_1 in S0. split_and!.
  - by apply (comb_is _ _ _ _ _ _ HC0).
  - intros j Hj. rewrite Z.mul_comm, smul_mul. apply (comb_is _ _ _ _ _ _ HC1); [exact S4|rewrite <- smul_mul; exact S5|rewrite <- smul_mul; exact S6|rewrite <- smul_mul; exact S7|done].
  - intros i Hi. rewrite smul_add, smul_1, (comm_L padd). rewrite (Z.mul_comm 2), smul_mul.
    eapply window_is; [apply base_ext_is| |exact HW|done]. apply xcache_is. rewrite <- (Z.mul_1_r 2), smul_double, smul_1. by apply xdouble_is, base_ext_is.
  - eapply neutral_is; [|exact HL]. replace order with (2 ^ Z.of_nat 28 * 2 ^ (32 * Z.of_nat 7) + Z.pos order_low) by reflexivity.
    rewrite smul_add, smul_mul. apply xadd_is; [by apply xdoubles_is|]. apply xcache_is, xmul_is; [apply base_ext_is|]. apply xcache_is, base_ext_is.
Qed.

Lemma tables_facts : tables_right.
Proof. apply (multiples_facts (steps 8 base_ext)); [intros i F; by apply steps_is, base_ext_is|exact tables_checked]. Qed.
