(* ===== verification/EdBase.v ===== *)
(** * Multiples of the base point ([ge_scalarmult_base] in [monocypher.c])

    The twin signed combs: the scalar is replaced by one whose bits mean 1
    and -1, four of which select an entry of a comb.  The selection runs over
    the whole table. *)
From S2P Require Import Prelude Fmt Mono Primes Fe25519 FeInvert X25519 ModL Edwards EdPoint EdTables.
From Stdlib Require Import Zbitwise Zdivisibility Zpow_facts.

Open Scope Z_scope.

(** ** The combs *)

(** [for(j = 0; j < 8; j++)] over the entries. *)
Definition comb_select (tmp_c : ge_precomp) (comb : list ge_precomp) (index : Z) : ge_precomp :=
  foldl (fun tmp_c j =>
    let select := Z.land 1 (Z.shiftr (u64 (Z.lxor (Z.of_nat j) index - 1)) 8) in
    let q := entry comb j in
    GePrecomp (fe_ccopy (pYp tmp_c) (pYp q) select) (fe_ccopy (pYm tmp_c) (pYm q) select) (fe_ccopy (pT2 tmp_c) (pT2 q) select))
    tmp_c (seq 0 8).

(** The new [p] and the temporary [tmp_c]. *)
Definition lookup_add (p : ge) (tmp_c : ge_precomp) (comb : list ge_precomp) (scalar : bytes) (i : Z) : ge * ge_precomp :=
  let teeth := scalar_bit scalar i + Z.shiftl (scalar_bit scalar (i + 32)) 1 +
               Z.shiftl (scalar_bit scalar (i + 64)) 2 + Z.shiftl (scalar_bit scalar (i + 96)) 3 in
  let high := Z.shiftr teeth 3 in
  let index := Z.land (Z.lxor teeth (high - 1)) 7 in
  let tmp_c := comb_select tmp_c comb index in
  let tmp_a := fe_neg (pT2 tmp_c) in
  let '(t2, tmp_a) := fe_cswap (pT2 tmp_c) tmp_a (Z.lxor high 1) in
  let '(yp, ym) := fe_cswap (pYp tmp_c) (pYm tmp_c) (Z.lxor high 1) in
  let tmp_c := GePrecomp yp ym t2 in
  (ge_madd p tmp_c, tmp_c).

Definition half_mod_L : bytes := to_byte <$>
  [247; 233; 122; 46; 141; 49; 9; 44; 107; 206; 123; 81; 239; 124; 111; 10;
   0; 0; 0; 0; 0; 0; 0; 0; 0; 0; 0; 0; 0; 0; 0; 8].

Definition half_ones : bytes := to_byte <$>
  [142; 74; 204; 70; 186; 24; 118; 107; 184; 231; 190;
   57; 250; 173; 119; 99; 255; 255; 255; 255; 255; 255;
   255; 255; 255; 255; 255; 255; 255; 255; 255; 7].

(** Both combs at one position. *)
Definition lookup_both (p : ge) (tmp_c : ge_precomp) (s_scalar : bytes) (i : Z) : ge * ge_precomp :=
  let '(p, tmp_c) := lookup_add p tmp_c b_comb_low s_scalar i in
  lookup_add p tmp_c b_comb_high s_scalar (i + 128).

(** [for(i = n - 1; i >= 0; i--)]. *)
Fixpoint comb_loop (n : nat) (p : ge) (tmp_c : ge_precomp) (s_scalar : bytes) : ge * ge_precomp :=
  match n with
  | O => (p, tmp_c)
  | S i =>
      let '(p, tmp_c) := lookup_both (ge_double p) tmp_c s_scalar (Z.of_nat i) in
      comb_loop i p tmp_c s_scalar
  end.

Definition ge_scalarmult_base (scalar : bytes) : ge :=
  let s_scalar := crypto_eddsa_mul_add scalar half_mod_L half_ones in
  let '(p, tmp_c) := lookup_both ge_zero (GePrecomp fe_1 fe_1 fe_0) s_scalar 31 in
  (comb_loop 31 p tmp_c s_scalar).1.

Definition crypto_eddsa_scalarbase (scalar : bytes) : bytes := ge_tobytes (ge_scalarmult_base scalar).

(** ** One lookup *)

Lemma select_spec j i : (j < 8)%nat -> (i < 8)%nat ->
  Z.land 1 (Z.shiftr (u64 (Z.lxor (Z.of_nat j) (Z.of_nat i) - 1)) 8) = Z.b2z (bool_decide (j = i)).
Proof. intros Hj Hi. do 8 (destruct j as [|j]; [do 8 (destruct i as [|i]; [by vm_compute|]); lia|]). lia. Qed.

Lemma precomp_eta q : GePrecomp (pYp q) (pYm q) (pT2 q) = q.
Proof. by destruct q. Qed.

Lemma comb_select_spec tmp_c comb i : (i < 8)%nat -> comb_select tmp_c comb (Z.of_nat i) = entry comb i.
Proof.
  intros Hi. unfold comb_select.
  assert (H : forall n, (n <= 8)%nat -> foldl (fun tmp_c j =>
    let select := Z.land 1 (Z.shiftr (u64 (Z.lxor (Z.of_nat j) (Z.of_nat i) - 1)) 8) in
    let q := entry comb j in
    GePrecomp (fe_ccopy (pYp tmp_c) (pYp q) select) (fe_ccopy (pYm tmp_c) (pYm q) select) (fe_ccopy (pT2 tmp_c) (pT2 q) select))
    tmp_c (seq 0 n) = if decide (i < n)%nat then entry comb i else tmp_c).
  { induction n as [|n IH]; intros Hn; [done|]. rewrite seq_S, foldl_snoc, IH by lia. cbv zeta. rewrite Nat.add_0_l, select_spec, !fe_ccopy_spec by lia.
    case_bool_decide as E; [subst; rewrite decide_True by lia; by destruct (decide _); rewrite precomp_eta|].
    rewrite precomp_eta. destruct (decide (i < n)%nat), (decide (i < S n)%nat); try lia; done. }
  rewrite H by lia. by rewrite decide_True.
Qed.

(** 1 or -1 for a bit. *)
Definition pm (b : bool) : Z := if b then 1 else -1.

Definition teeth_scalar (b0 b1 b2 b3 : bool) : Z := pm b0 + pm b1 * 2 ^ 32 + pm b2 * 2 ^ 64 + pm b3 * 2 ^ 96.

Lemma teeth_cases (b0 b1 b2 b3 : bool) :
  let teeth := Z.b2z b0 + Z.shiftl (Z.b2z b1) 1 + Z.shiftl (Z.b2z b2) 2 + Z.shiftl (Z.b2z b3) 3 in
  let high := Z.shiftr teeth 3 in
  exists i, (i < 8)%nat /\ Z.land (Z.lxor teeth (high - 1)) 7 = Z.of_nat i /\ Z.lxor high 1 = Z.b2z (negb b3) /\
    teeth_scalar b0 b1 b2 b3 = pm b3 * comb_scalar i.
Proof.
  cbv zeta. exists (Z.to_nat (Z.land (Z.lxor (Z.b2z b0 + Z.shiftl (Z.b2z b1) 1 + Z.shiftl (Z.b2z b2) 2 + Z.shiftl (Z.b2z b3) 3)
    (Z.shiftr (Z.b2z b0 + Z.shiftl (Z.b2z b1) 1 + Z.shiftl (Z.b2z b2) 2 + Z.shiftl (Z.b2z b3) 3) 3 - 1)) 7)).
  destruct b0, b1, b2, b3; (split; [apply Nat.ltb_lt; by vm_compute|by vm_compute]).
Qed.

Lemma lookup_add_spec p P tmp_c comb c s i : 0 <= i -> ge_is p P ->
  (forall j, (j < 8)%nat -> precomp_is (entry comb j) ((c * comb_scalar j)%Z * B)%point) ->
  let b := fun k => Z.testbit (le_val s) (i + k) in
  exists p' tmp', lookup_add p tmp_c comb s i = (p', tmp') /\
    ge_is p' (P + (c * teeth_scalar (b 0) (b 32) (b 64) (b 96))%Z * B)%point.
Proof.
  intros Hi Hp Hc b. unfold lookup_add. rewrite !scalar_bit_testbit by lia.
  assert (E0 : Z.testbit (le_val s) i = b 0) by (unfold b; by rewrite Z.add_0_r). rewrite E0. change (Z.testbit (le_val s) (i + 32)) with (b 32).
  change (Z.testbit (le_val s) (i + 64)) with (b 64). change (Z.testbit (le_val s) (i + 96)) with (b 96).
  destruct (teeth_cases (b 0) (b 32) (b 64) (b 96)) as (j & Hj & Ej & Eh & Es). cbv zeta in Ej, Eh |- *.
  rewrite Ej, Eh, comb_select_spec, !fe_cswap_spec, Es by done. specialize (Hc j Hj). destruct (b 96); cbn [negb pm].
  - eexists _, _. split; [reflexivity|]. rewrite precomp_eta, Z.mul_1_l. by apply ge_madd_spec.
  - eexists _, _. split; [reflexivity|]. replace (c * (-1 * comb_scalar j)) with (- (c * comb_scalar j)) by lia. rewrite smul_opp.
    apply ge_madd_spec; [done|]. by apply precomp_neg.
Qed.

(** ** The whole scalar *)

(** The value of [n] bits from bit [off] on, as signs. *)
Definition signs (v : Z) (n : nat) (off : Z) : Z := 2 * (v / 2 ^ off mod 2 ^ Z.of_nat n) - (2 ^ Z.of_nat n - 1).

Lemma bits_split v off n m : 0 <= off -> 
  v / 2 ^ off mod 2 ^ Z.of_nat (n + m) = v / 2 ^ off mod 2 ^ Z.of_nat n + 2 ^ Z.of_nat n * (v / 2 ^ (off + Z.of_nat n) mod 2 ^ Z.of_nat m).
Proof.
  intros Ho. rewrite Nat2Z.inj_add, Z.pow_add_r, Z.rem_mul_r by lia. do 2 f_equal. rewrite Z.pow_add_r, Z.div_div by lia. done.
Qed.

Lemma signs_app v off n m : 0 <= off -> signs v (n + m) off = signs v n off + 2 ^ Z.of_nat n * signs v m (off + Z.of_nat n).
Proof. intros Ho. unfold signs. rewrite bits_split, Nat2Z.inj_add, (Z.pow_add_r 2 (Z.of_nat n)) by lia. ring. Qed.

Lemma signs_1 v off : 0 <= off -> signs v 1 off = pm (Z.testbit v off).
Proof.
  intros Ho. unfold signs. change (2 ^ Z.of_nat 1) with 2. rewrite <- Z.testbit_spec' by done. by destruct (Z.testbit v off).
Qed.

(** The eight columns at distance 32, from row [i] on. *)
Definition columns (v : Z) (n : nat) (i : Z) : Z :=
  signs v n i + 2 ^ 32 * signs v n (i + 32) + 2 ^ 64 * signs v n (i + 64) + 2 ^ 96 * signs v n (i + 96) +
  2 ^ 128 * (signs v n (i + 128) + 2 ^ 32 * signs v n (i + 128 + 32) + 2 ^ 64 * signs v n (i + 128 + 64) + 2 ^ 96 * signs v n (i + 128 + 96)).

Lemma signs_S v n off : 0 <= off -> signs v (S n) off = pm (Z.testbit v off) + 2 * signs v n (off + 1).
Proof. intros Ho. change (S n) with (1 + n)%nat. by rewrite signs_app, signs_1. Qed.

Definition row (v : Z) (i : Z) : Z :=
  teeth_scalar (Z.testbit v (i + 0)) (Z.testbit v (i + 32)) (Z.testbit v (i + 64)) (Z.testbit v (i + 96)) +
  2 ^ 128 * teeth_scalar (Z.testbit v (i + 128 + 0)) (Z.testbit v (i + 128 + 32)) (Z.testbit v (i + 128 + 64)) (Z.testbit v (i + 128 + 96)).

Lemma columns_S v n i : 0 <= i -> columns v (S n) i = row v i + 2 * columns v n (i + 1).
Proof.
  intros Hi. unfold columns, row, teeth_scalar. rewrite !signs_S by lia. rewrite !Z.add_0_r.
  replace (i + 1 + 32) with (i + 32 + 1) by lia. replace (i + 1 + 64) with (i + 64 + 1) by lia. replace (i + 1 + 96) with (i + 96 + 1) by lia.
  replace (i + 1 + 128) with (i + 128 + 1) by lia. replace (i + 128 + 1 + 32) with (i + 128 + 32 + 1) by lia.
  replace (i + 128 + 1 + 64) with (i + 128 + 64 + 1) by lia. replace (i + 128 + 1 + 96) with (i + 128 + 96 + 1) by lia. ring.
Qed.

Lemma columns_all v : columns v 32 0 = signs v 256 0.
Proof.
  assert (E : forall n m k k', n = (32 + m)%nat -> k' = k + 32 -> 0 <= k -> signs v n k = signs v 32 k + 2 ^ 32 * signs v m k').
  { intros n m k k' -> -> Hk. by rewrite signs_app. }
  pose proof (E 256%nat 224%nat 0 32 eq_refl eq_refl ltac:(lia)). pose proof (E 224%nat 192%nat 32 64 eq_refl eq_refl ltac:(lia)).
  pose proof (E 192%nat 160%nat 64 96 eq_refl eq_refl ltac:(lia)). pose proof (E 160%nat 128%nat 96 128 eq_refl eq_refl ltac:(lia)).
  pose proof (E 128%nat 96%nat 128 160 eq_refl eq_refl ltac:(lia)). pose proof (E 96%nat 64%nat 160 192 eq_refl eq_refl ltac:(lia)).
  pose proof (E 64%nat 32%nat 192 224 eq_refl eq_refl ltac:(lia)). clear E. unfold columns.
  change (0 + 32) with 32. change (0 + 64) with 64. change (0 + 96) with 96. change (0 + 128) with 128.
  change (128 + 32) with 160. change (128 + 64) with 192. change (128 + 96) with 224. lia.
Qed.

Lemma lookup_both_spec p P tmp_c s i : 0 <= i -> ge_is p P ->
  exists p' tmp', lookup_both p tmp_c s i = (p', tmp') /\ ge_is p' (P + row (le_val s) i * B)%point.
Proof.
  intros Hi Hp. destruct tables_facts as (Hl & Hh & _). unfold lookup_both.
  destruct (lookup_add_spec p P tmp_c b_comb_low 1 s i Hi Hp) as (p1 & t1 & -> & H1).
  { intros j Hj. rewrite Z.mul_1_l. by apply Hl. }
  destruct (lookup_add_spec p1 _ t1 b_comb_high (2 ^ 128) s (i + 128) ltac:(lia) H1 Hh) as (p2 & t2 & -> & H2).
  exists p2, t2. split; [done|]. unfold row. rewrite smul_add, (assoc_L padd). rewrite Z.mul_1_l in H2. exact H2.
Qed.

Lemma comb_loop_spec n p tmp_c s v k : v = le_val s -> ge_is p (columns v k (Z.of_nat n) * B)%point ->
  ge_is (comb_loop n p tmp_c s).1 (columns v (n + k) 0 * B)%point.
Proof.
  intros ->. revert p tmp_c k. induction n as [|n IH]; intros p tmp_c k Hp; [exact Hp|]. cbn [comb_loop].
  destruct (lookup_both_spec _ _ tmp_c s (Z.of_nat n) ltac:(lia) (ge_double_spec _ _ Hp)) as (p' & t' & -> & H').
  replace (S n + k)%nat with (n + S k)%nat by lia. apply IH. rewrite columns_S by lia. rewrite (comm Z.add), smul_add, smul_double.
  replace (Z.of_nat n + 1) with (Z.of_nat (S n)) by lia. exact H'.
Qed.

(** Multiples of the base point depend on the scalar modulo its order. *)
Lemma smul_order n : (n * B)%point = ((n mod order)%Z * B)%point.
Proof.
  destruct tables_facts as (_ & _ & _ & Ho). rewrite (Z.div_mod n order) at 1 by done.
  rewrite Z.mul_comm, smul_add, smul_mul, Ho, smul_neutral. apply left_id_L, _.
Qed.

Lemma smul_cong a b : a mod order = b mod order -> (a * B)%point = (b * B)%point.
Proof. intros H. rewrite (smul_order a), (smul_order b). by rewrite H. Qed.

Lemma half_facts : length half_mod_L = 32%nat /\ length half_ones = 32%nat /\
  2 * le_val half_mod_L mod order = 1 /\ 2 * le_val half_ones mod order = (2 ^ 256 - 1) mod order.
Proof. by vm_compute. Qed.

Lemma signed_scalar v h o L : 0 < L < 2 ^ 256 -> 2 * h mod L = 1 -> 2 * o mod L = (2 ^ 256 - 1) mod L ->
  signs ((v * h + o) mod L) 256 0 mod L = v mod L.
Proof.
  intros HL H1 H2. pose proof (Z.div_mod (2 * h) L ltac:(lia)) as E1. rewrite H1 in E1.
  pose proof (Z.div_mod (2 * o) L ltac:(lia)) as E2. rewrite H2 in E2. pose proof (Z.div_mod (2 ^ 256 - 1) L ltac:(lia)) as E3.
  pose proof (Z.div_mod (v * h + o) L ltac:(lia)) as E4. pose proof (Z.mod_pos_bound (v * h + o) L ltac:(lia)) as R.
  set (m := (v * h + o) mod L) in *. unfold signs. change (2 ^ 0) with 1. change (Z.of_nat 256) with 256. rewrite Z.div_1_r, (Z.mod_small m) by lia.
  assert (E : 2 * m - (2 ^ 256 - 1) = v + (v * (2 * h / L) + 2 * o / L - (2 ^ 256 - 1) / L - 2 * ((v * h + o) / L)) * L).
  { apply (f_equal (Z.mul v)) in E1. clearbody m. clear - E1 E2 E3 E4. lia. }
  rewrite E. by apply Z.mod_add; lia.
Qed.

Lemma scalarmult_base_spec s : length s = 32%nat -> ge_is (ge_scalarmult_base s) (le_val s * B)%point.
Proof.
  intros Hs. destruct half_facts as (L1 & L2 & H1 & H2). unfold ge_scalarmult_base.
  assert (Hm : le_val (crypto_eddsa_mul_add s half_mod_L half_ones) = (le_val s * le_val half_mod_L + le_val half_ones) mod order).
  { rewrite mul_add_spec, le_val_bytes by done. apply Z.mod_small. pose proof (Z.mod_pos_bound (le_val s * le_val half_mod_L + le_val half_ones) order ltac:(done)). assert (order < 256 ^ Z.of_nat 32) by done. lia. }
  set (t := crypto_eddsa_mul_add _ _ _) in *. clearbody t.
  destruct (lookup_both_spec _ _ (GePrecomp fe_1 fe_1 fe_0) t 31 ltac:(lia) ge_zero_spec) as (p & tmp & -> & Hp).
  rewrite (left_id_L neutral padd) in Hp. assert (H0 : forall i, columns (le_val t) 0 i = 0) by (intros i; unfold columns, signs; change (2 ^ Z.of_nat 0) with 1; rewrite !Z.mod_1_r; reflexivity).
  assert (Hp' : ge_is p (columns (le_val t) 1 (Z.of_nat 31) * B)%point) by (rewrite columns_S, H0, Z.mul_0_r, Z.add_0_r by lia; exact Hp).
  pose proof (comb_loop_spec 31 p tmp t _ 1 eq_refl Hp') as H. change (31 + 1)%nat with 32%nat in H. rewrite columns_all, Hm in H.
  assert (Ho : 0 < order < 2 ^ 256) by (split; reflexivity).
  rewrite (smul_cong _ _ (signed_scalar (le_val s) _ _ _ Ho H1 H2)) in H. exact H.
Qed.
