(* ===== verification/EdSlide.v ===== *)
(** * Sliding windows ([slide_init], [slide_step] in [monocypher.c])

    The signed digits of a scalar, found from left to right while the ladder
    walks over its bits.  A scalar [n] is the sum of [(b_(i-1) - b_i) 2^i] over
    its bits; a window gathers [w] of these terms from position [i] down. *)
From S2P Require Import Prelude Fmt Mono X25519.
From Stdlib Require Import Zbitwise.

Open Scope Z_scope.

Abbreviation i16 := (wraps 16).
Abbreviation i8 := (wraps 8).
Abbreviation u8 := (wrapu 8).

(** ** Operations *)

Record slide_ctx := SlideCtx { next_index : Z; next_digit : Z; next_check : Z }.

(** [while(i > 0 && scalar_bit(scalar, i) == 0) i--]. *)
Fixpoint top_bit (i : nat) (scalar : bytes) : nat :=
  match i with
  | O => O
  | S j => if decide (scalar_bit scalar (Z.of_nat i) = 0) then top_bit j scalar else i
  end.

Definition slide_init (scalar : bytes) : slide_ctx :=
  SlideCtx (-1) (-1) (u8 (Z.of_nat (top_bit 252 scalar) + 1)).

(** The window of [w] terms that ends at position [i]. *)
Definition window (scalar : bytes) (i w : Z) : Z :=
  foldl (fun v j => v + Z.shiftl (scalar_bit scalar (i - (w - 1) + j)) j)
    (- Z.shiftl (scalar_bit scalar i) (w - 1)) (seqZ 0 (w - 1)) + scalar_bit scalar (i - w).

(** [log2] of the lowest set bit, for a bit below 2^8. *)
Definition low_index (lsb : Z) : Z :=
  Z.lor (Z.lor (Z.shiftl (Z.b2z (negb (bool_decide (Z.land lsb 0xAA = 0)))) 0)
               (Z.shiftl (Z.b2z (negb (bool_decide (Z.land lsb 0xCC = 0)))) 1))
        (Z.shiftl (Z.b2z (negb (bool_decide (Z.land lsb 0xF0 = 0)))) 2).

Definition slide_step (ctx : slide_ctx) (width i : Z) (scalar : bytes) : slide_ctx * Z :=
  let ctx :=
    if decide (i = next_check ctx) then
      if decide (scalar_bit scalar i = scalar_bit scalar (i - 1)) then
        SlideCtx (next_index ctx) (next_digit ctx) (u8 (next_check ctx - 1))
      else
        let w := Z.min width (i + 1) in
        let v := window scalar i w in
        let lsb := Z.land v (Z.lnot v + 1) in
        let s := low_index lsb in
        SlideCtx (i16 (i - (w - 1) + s)) (i8 (Z.shiftr v s)) (u8 (next_check ctx - u8 w))
    else ctx in
  (ctx, if decide (i = next_index ctx) then next_digit ctx else 0).

(** ** The terms above a position *)

Section scalar.
Context (scalar : bytes) (n : Z) (Hn : n = le_val scalar) (Hb : n < 2 ^ 253).

(** Bit [i], 0 below the number. *)
Definition bit (i : Z) : Z := if decide (i < 0) then 0 else Z.b2z (Z.testbit n i).

Lemma bit_spec i : scalar_bit scalar i = bit i.
Proof.
  unfold bit. destruct (decide (i < 0)) as [H|H]; [unfold scalar_bit; by rewrite decide_True|].
  rewrite scalar_bit_testbit by lia. by rewrite Hn.
Qed.

Lemma bit_range i : 0 <= bit i <= 1.
Proof. unfold bit. destruct (decide _); [lia|]. by destruct (Z.testbit n i). Qed.

Lemma n_nonneg : 0 <= n.
Proof. subst n. apply le_val_range. Qed.

(** The terms from position [k] on, over [2^k]. *)
Definition above (k : Z) : Z := n / 2 ^ k + bit (k - 1).

Lemma above_0 : above 0 = n.
Proof. unfold above. rewrite Z.div_1_r. unfold bit. rewrite decide_True by lia. lia. Qed.

Lemma above_S k : 0 <= k -> above k = 2 * above (k + 1) - bit k + bit (k - 1).
Proof.
  intros Hk. unfold above. rewrite Z.add_simpl_r.
  assert (E : n / 2 ^ k = 2 * (n / 2 ^ (k + 1)) + bit k); [|lia].
  rewrite Z.pow_add_r, <- Z.div_div by lia. pose proof (Z.div_mod (n / 2 ^ k) 2 ltac:(lia)) as D.
  unfold bit. rewrite decide_False by lia. rewrite Z.testbit_spec' by done. change (2 ^ 1) with 2. lia.
Qed.

(** The windows of the code, term by term from the top. *)
Fixpoint terms (w : nat) (i : Z) : Z :=
  match w with O => 0 | S w => 2 ^ Z.of_nat w * (bit (i - 1) - bit i) + terms w (i - 1) end.

Lemma above_terms w i : 0 <= i + 1 - Z.of_nat w -> above (i + 1 - Z.of_nat w) = 2 ^ Z.of_nat w * above (i + 1) + terms w i.
Proof.
  revert i. induction w as [|w IH]; intros i Hi; [rewrite Z.sub_0_r; cbn [terms]; change (2 ^ Z.of_nat 0) with 1; lia|].
  cbn [terms]. specialize (IH (i - 1)). replace (i - 1 + 1 - Z.of_nat w) with (i + 1 - Z.of_nat (S w)) in IH by lia. rewrite IH by lia.
  rewrite Z.sub_add, (above_S i) by lia. rewrite Nat2Z.inj_succ, Z.pow_succ_r by lia. lia.
Qed.

Lemma fold_sum (g : Z -> Z) v l : foldl (fun v j => v + g j) v l = v + foldr (fun j v => g j + v) 0 l.
Proof. revert v. induction l as [|a l IH]; intros v; simpl; [lia|]. rewrite IH. lia. Qed.

Lemma fold_snoc (g : Z -> Z) l a : foldr (fun j v => g j + v) 0 (l ++ [a]) = foldr (fun j v => g j + v) 0 l + g a.
Proof. induction l as [|b l IH]; simpl; lia. Qed.

Lemma window_sum m i : 
  - bit i * 2 ^ Z.of_nat m + foldr (fun j v => bit (i - Z.of_nat m + j) * 2 ^ j + v) 0 (seqZ 0 (Z.of_nat m)) + bit (i - Z.of_nat m - 1) = terms (S m) i.
Proof.
  revert i. induction m as [|m IH]; intros i.
  - change (seqZ 0 (Z.of_nat 0)) with (@nil Z). cbn [foldr terms]. change (Z.of_nat 0) with 0. rewrite Z.sub_0_r. lia.
  - change (terms (S (S m)) i) with (2 ^ Z.of_nat (S m) * (bit (i - 1) - bit i) + terms (S m) (i - 1)). rewrite <- IH.
    rewrite Nat2Z.inj_succ, <- Z.add_1_r, seqZ_app, Z.add_0_l by lia. change (seqZ (Z.of_nat m) 1) with [Z.of_nat m]. rewrite fold_snoc.
    replace (i - (Z.of_nat m + 1)) with (i - 1 - Z.of_nat m) by lia. rewrite Z.sub_add, Z.pow_add_r by lia. lia.
Qed.

Lemma window_terms i w : 1 <= w -> window scalar i w = terms (Z.to_nat w) i.
Proof.
  intros Hw. replace (Z.to_nat w) with (S (Z.to_nat (w - 1))) by lia. rewrite <- window_sum, Z2Nat.id by lia.
  unfold window. rewrite fold_sum, !bit_spec, Z.shiftl_mul_pow2 by lia. replace (i - (w - 1) - 1) with (i - w) by lia. 
  assert (E : forall l, Forall (fun j => 0 <= j) l -> foldr (fun j v => Z.shiftl (scalar_bit scalar (i - (w - 1) + j)) j + v) 0 l =
    foldr (fun j v => bit (i - (w - 1) + j) * 2 ^ j + v) 0 l).
  { induction 1 as [|j l Hj _ IH]; [done|]. simpl. by rewrite IH, bit_spec, Z.shiftl_mul_pow2. }
  rewrite E; [lia|]. apply Forall_forall. intros j Hj%elem_of_seqZ. lia.
Qed.

(** The value of a window, split into an odd digit and a power of two. *)
Definition split_ok (w v : Z) : bool :=
  let s := low_index (Z.land v (Z.lnot v + 1)) in
  let d := Z.shiftr v s in
  bool_decide (v = 0) || (bool_decide (0 <= s <= w - 1) && bool_decide (v = 2 ^ s * d) && Z.odd d && bool_decide (- Z.max 1 (2 ^ (w - 1) - 1) <= d <= Z.max 1 (2 ^ (w - 1) - 1))).

Lemma split_checked : forallb (fun w => forallb (split_ok w) (seqZ (- 2 ^ (w - 1)) (2 ^ w + 1))) [1; 2; 3; 4; 5] = true.
Proof. vm_compute. reflexivity. Qed.

Lemma split_window w v : 1 <= w <= 5 -> v <> 0 -> - 2 ^ (w - 1) <= v <= 2 ^ (w - 1) ->
  exists s d, low_index (Z.land v (Z.lnot v + 1)) = s /\ Z.shiftr v s = d /\ 0 <= s <= w - 1 /\ v = 2 ^ s * d /\ Z.odd d = true /\
    - Z.max 1 (2 ^ (w - 1) - 1) <= d <= Z.max 1 (2 ^ (w - 1) - 1).
Proof.
  intros Hw Hv Hr. pose proof split_checked as H. rewrite forallb_forall in H. specialize (H w).
  assert (Hi : List.In w [1; 2; 3; 4; 5]) by (simpl; lia). apply H in Hi. clear H. rewrite forallb_forall in Hi.
  specialize (Hi v). assert (Hj : List.In v (seqZ (- 2 ^ (w - 1)) (2 ^ w + 1))).
  { apply list_elem_of_In, elem_of_seqZ. replace (2 ^ w) with (2 * 2 ^ (w - 1)); [lia|]. rewrite <- Z.pow_succ_r by lia. f_equal. lia. }
  apply Hi in Hj. unfold split_ok in Hj. rewrite bool_decide_false in Hj by done. cbn [orb] in Hj.
  apply andb_true_iff in Hj as [Hj H4%bool_decide_eq_true]. apply andb_true_iff in Hj as [Hj H3].
  apply andb_true_iff in Hj as [H1%bool_decide_eq_true H2%bool_decide_eq_true]. eexists _, _. split_and!; try reflexivity; try apply H1; try apply H4; assumption.
Qed.

Lemma terms_bounds w i : (1 <= w <= 5)%nat -> bit i <> bit (i - 1) -> terms w i <> 0 /\ - 2 ^ (Z.of_nat w - 1) <= terms w i <= 2 ^ (Z.of_nat w - 1).
Proof.
  intros Hw Hb'. pose proof (bit_range i). pose proof (bit_range (i - 1)). pose proof (bit_range (i - 1 - 1)).
  pose proof (bit_range (i - 1 - 1 - 1)). pose proof (bit_range (i - 1 - 1 - 1 - 1)). pose proof (bit_range (i - 1 - 1 - 1 - 1 - 1)).
  assert (w = 1 \/ w = 2 \/ w = 3 \/ w = 4 \/ w = 5)%nat as [->|[->|[->|[->| ->]]]] by lia; cbn [terms];
    match goal with |- context [2 ^ (Z.of_nat ?n - 1)] => let x := eval compute in (2 ^ (Z.of_nat n - 1)) in change (2 ^ (Z.of_nat n - 1)) with x end;
    change (2 ^ Z.of_nat 4) with 16; change (2 ^ Z.of_nat 3) with 8; change (2 ^ Z.of_nat 2) with 4; change (2 ^ Z.of_nat 1) with 2; change (2 ^ Z.of_nat 0) with 1; lia.
Qed.

(** ** The digits *)

Definition digit_ok (width dg : Z) : Prop := dg = 0 \/ Z.odd dg = true /\ - (2 ^ (width - 1) - 1) <= dg <= 2 ^ (width - 1) - 1.

(** Before position [i] is visited: the terms above position [c] are coded,
    and all but the digit at [next_index], if it is still to come, are in the
    sum [S]. *)
Record slid (width : Z) (ctx : slide_ctx) (i S c : Z) : Prop := {
  sl_check : next_check ctx = u8 c;
  sl_range : -1 <= c <= i;
  sl_index : next_index ctx = -1 \/ c < next_index ctx;
  sl_digit : next_index ctx <> -1 -> digit_ok width (next_digit ctx);
  sl_sum : S * 2 ^ (i + 1) + (if decide (c < next_index ctx <= i) then next_digit ctx * 2 ^ next_index ctx else 0) =
           above (c + 1) * 2 ^ (c + 1) }.

Lemma u8_id z : 0 <= z < 256 -> u8 z = z.
Proof. apply (wrapu_id 8). Qed.

Lemma u8_neg : u8 (-1) = 255.
Proof. reflexivity. Qed.

Lemma check_hit i c : 0 <= i <= 253 -> -1 <= c <= i -> i = u8 c <-> i = c.
Proof.
  intros Hi Hc. destruct (decide (c = -1)) as [->|]; [rewrite u8_neg; lia|]. rewrite u8_id by lia. done.
Qed.

(** After the check of a position, before its digit is read. *)
Lemma visit width ctx i S c : width = 3 \/ width = 5 -> 0 <= i <= 253 -> slid width ctx i S c ->
  let ctx' := (slide_step ctx width i scalar).1 in
  exists c', c' < i /\ slid width ctx' i S c'.
Proof.
  intros Hwd Hi [Hk Hr Hx Hd Hs]. unfold slide_step. cbn [fst]. rewrite !bit_spec, Hk.
  destruct (decide (i = u8 c)) as [E|E]; [|exists c; split; [rewrite check_hit in E by lia; lia|by constructor]].
  rewrite check_hit in E by lia. subst c. rewrite decide_False in Hs by lia. rewrite (u8_id i) by lia.
  destruct (decide (bit i = bit (i - 1))) as [Eb|Eb].
  - exists (i - 1). split; [lia|]. constructor; cbn [next_check next_index next_digit]; try done; try lia.
    rewrite decide_False, Z.sub_add by lia. rewrite (above_S i) by lia. rewrite Eb. rewrite Z.pow_add_r in * by lia. change (2 ^ 1) with 2 in *. lia.
  - set (w := Z.min width (i + 1)). assert (Hw : 1 <= w <= 5 /\ w <= width /\ w <= i + 1) by lia.
    rewrite window_terms by lia. destruct (terms_bounds (Z.to_nat w) i ltac:(lia) Eb) as [Hn0 Hv]. rewrite Z2Nat.id in Hv by lia.
    destruct (split_window w _ ltac:(lia) Hn0 Hv) as (s & dg & -> & -> & Hs' & Ev & Ho & Hdg).
    assert (Hp : 2 ^ (w - 1) <= 2 ^ (width - 1)) by (apply Z.pow_le_mono_r; lia).
    assert (Hp' : 2 ^ (width - 1) <= 16) by (destruct Hwd as [->| ->]; by vm_compute).
    assert (Hp'' : 4 <= 2 ^ (width - 1)) by (destruct Hwd as [->| ->]; by vm_compute).
    exists (i - w). split; [lia|]. constructor; cbn [next_check next_index next_digit].
    + rewrite (u8_id w) by lia. done.
    + lia.
    + right. rewrite wraps_id by (try change (2 ^ (16 - 1)) with 32768; lia). lia.
    + intros _. right. rewrite wraps_id by (try change (2 ^ (8 - 1)) with 128; lia). split; [done|lia].
    + rewrite !wraps_id by (try change (2 ^ (16 - 1)) with 32768; try change (2 ^ (8 - 1)) with 128; lia). rewrite decide_True by lia.
      pose proof (above_terms (Z.to_nat w) i ltac:(lia)) as A. rewrite Z2Nat.id in A by lia. replace (i + 1 - w) with (i - w + 1) in A by lia. rewrite A, Ev.
      rewrite Z.add_0_r in Hs. apply Z.mul_reg_r in Hs; [|pose proof (Z.pow_pos_nonneg 2 (i + 1)); lia].
      replace (2 ^ (i + 1)) with (2 ^ w * 2 ^ (i - w + 1)) by (rewrite <- Z.pow_add_r by lia; f_equal; lia).
      replace (i - (w - 1) + s) with (s + (i - w + 1)) by lia. rewrite (Z.pow_add_r 2 s), Hs by lia. ring.
Qed.

Lemma slide_step_spec width ctx i S c : width = 3 \/ width = 5 -> 0 <= i <= 253 -> slid width ctx i S c ->
  exists ctx' dg c', slide_step ctx width i scalar = (ctx', dg) /\ digit_ok width dg /\ slid width ctx' (i - 1) (2 * S + dg) c'.
Proof.
  intros Hwd Hi H. destruct (visit width ctx i S c Hwd Hi H) as (c' & Hc & [Hk Hr Hx Hd Hs]). set (ctx' := (slide_step ctx width i scalar).1) in *.
  assert (E : slide_step ctx width i scalar = (ctx', if decide (i = next_index ctx') then next_digit ctx' else 0)) by done.
  rewrite E. clearbody ctx'. exists ctx'. eexists. exists c'. split; [reflexivity|].
  assert (Ep : 2 ^ (i + 1) = 2 * 2 ^ i) by (rewrite Z.pow_add_r by lia; lia). rewrite Ep in Hs.
  destruct (decide (i = next_index ctx')) as [En|En].
  - split; [apply Hd; lia|]. constructor; try done; try lia. rewrite decide_True in Hs by lia. rewrite decide_False by lia.
    rewrite Z.sub_add, <- Hs, <- En. ring.
  - split; [by left|]. constructor; try done; try lia. rewrite Z.sub_add, <- Hs.
    destruct (decide (c' < next_index ctx' <= i)), (decide (c' < next_index ctx' <= i - 1)); try lia; ring.
Qed.

Lemma slid_end width ctx S c : slid width ctx (-1) S c -> S = n.
Proof.
  intros [Hk Hr Hx Hd Hs]. replace c with (-1) in * by lia. rewrite decide_False in Hs by lia. change (-1 + 1) with 0 in Hs. rewrite above_0 in Hs. lia.
Qed.

Lemma top_bit_spec i : n < 2 ^ (Z.of_nat i + 1) -> n < 2 ^ (Z.of_nat (top_bit i scalar) + 1) /\ (top_bit i scalar <= i)%nat.
Proof.
  induction i as [|i IH]; intros Hi; [done|]. cbn [top_bit]. rewrite bit_spec.
  destruct (decide _) as [E|E]; [|done]. assert (Hi' : n < 2 ^ (Z.of_nat i + 1)); [|specialize (IH Hi'); lia].
  pose proof n_nonneg. unfold bit in E. rewrite decide_False in E by lia. rewrite Z.testbit_spec' in E by lia.
  replace (Z.of_nat (S i)) with (Z.of_nat i + 1) in * by lia. rewrite Z.pow_add_r in Hi by lia. change (2 ^ 1) with 2 in Hi.
  assert (D : 0 <= n / 2 ^ (Z.of_nat i + 1) < 2) by (split; [apply Z.div_pos; lia|apply Z.div_lt_upper_bound; lia]).
  rewrite Z.mod_small in E by done. apply Z.div_small_iff in E; lia.
Qed.

Lemma slide_init_spec width i : Z.of_nat (top_bit 252 scalar) + 1 <= i <= 253 ->
  next_check (slide_init scalar) = Z.of_nat (top_bit 252 scalar) + 1 /\ slid width (slide_init scalar) i 0 (Z.of_nat (top_bit 252 scalar) + 1).
Proof.
  intros Hi. destruct (top_bit_spec 252 Hb) as [Ht Hl]. set (t := Z.of_nat (top_bit 252 scalar)) in *. assert (Ht0 : 0 <= t <= 252) by lia.
  split; [unfold slide_init; cbn [next_check]; fold t; apply u8_id; lia|]. constructor; unfold slide_init; cbn [next_check next_index next_digit]; fold t; try done; try lia.
  rewrite decide_False by lia. pose proof n_nonneg. unfold above. rewrite Z.add_simpl_r.
  assert (E : bit (t + 1) = 0) by (unfold bit; rewrite decide_False by lia; by rewrite (testbit_above (t + 1)) by lia).
  rewrite E, Z.div_small; [lia|]. split; [done|]. eapply Z.lt_le_trans; [exact Ht|]. apply Z.pow_le_mono_r; lia.
Qed.
End scalar.
