(* ===== verification/EdDSA.v ===== *)
(** * Signatures ([crypto_eddsa_*] in [monocypher.c])

    Keys, signing and checking over the points of [EdPoint], the combs of
    [EdBase], the sliding windows of [EdSlide] and the hash of [Blake2b],
    against the equation of EdDSA in the group of [Edwards]. *)
From S2P Require Import Prelude Fmt Mono Blake2b Primes Fe25519 FeInvert X25519 ModL Edwards EdPoint EdTables EdBase EdSlide.
From Stdlib Require Import Zbitwise Zdivisibility Zpow_facts.

Open Scope Z_scope.

(** ** Checking *)

Definition default_cached : ge_cached := GeCached fe_0 fe_0 fe_0 fe_0.
Definition cached_at (t : list ge_cached) (i : Z) : ge_cached := default default_cached (t !! Z.to_nat i).

(** The multiples 1 and 3 of a point. *)
Definition lut (minus_A : ge) : list ge_cached :=
  let minus_A2 := ge_double minus_A in
  foldl (fun l i => l ++ [ge_cache (ge_add minus_A2 (cached_at l (i - 1)))]) [ge_cache minus_A] (seqZ 1 1).

(** One turn of the ladder after the doubling: both digits. *)
Definition add_digits (sum : ge) (lutA : list ge_cached) (h_digit s_digit : Z) : ge :=
  let sum := if decide (0 < h_digit) then ge_add sum (cached_at lutA (Z.quot h_digit 2)) else sum in
  let sum := if decide (h_digit < 0) then ge_sub sum (cached_at lutA (Z.quot (- h_digit) 2)) else sum in
  let sum := if decide (0 < s_digit) then ge_madd sum (entry b_window (Z.to_nat (Z.quot s_digit 2))) else sum in
  if decide (s_digit < 0) then ge_msub sum (entry b_window (Z.to_nat (Z.quot (- s_digit) 2))) else sum.

(** [while(i >= 0)], [i = n - 1]. *)
Fixpoint check_loop (n : nat) (sum : ge) (h_slide s_slide : slide_ctx) (lutA : list ge_cached) (h s : bytes) : ge :=
  match n with
  | O => sum
  | S j =>
      let i := Z.of_nat j in
      let sum := ge_double sum in
      let '(h_slide, h_digit) := slide_step h_slide 3 i h in
      let '(s_slide, s_digit) := slide_step s_slide 5 i s in
      check_loop j (add_digits sum lutA h_digit s_digit) h_slide s_slide lutA h s
  end.

Definition zero_point : bytes := x01 :: replicate 31 NUL.

Definition crypto_eddsa_check_equation (signature public_key h : bytes) : Z :=
  let s := drop 32 signature in
  let s32 := load32_le_buf s 8 in
  match ge_frombytes_neg_vartime public_key, ge_frombytes_neg_vartime (take 32 signature) with
  | Some minus_A, Some minus_R =>
      if decide (is_above_l s32 <> 0) then -1
      else
        let lutA := lut minus_A in
        let h_slide := slide_init h in
        let s_slide := slide_init s in
        let i := Z.max (next_check h_slide) (next_check s_slide) in
        let sum := check_loop (Z.to_nat (i + 1)) ge_zero h_slide s_slide lutA h s in
        let sum := ge_add sum (ge_cache minus_R) in
        let sum := ge_double (ge_double (ge_double sum)) in
        crypto_verify32 (ge_tobytes sum) zero_point
  | _, _ => -1
  end.

Definition hash_reduce (a b c : bytes) : bytes :=
  let ctx := crypto_blake2b_init 64 in
  let ctx := crypto_blake2b_update ctx a in
  let ctx := crypto_blake2b_update ctx b in
  let ctx := crypto_blake2b_update ctx c in
  crypto_eddsa_reduce (crypto_blake2b_final ctx).

Definition crypto_eddsa_check (signature public_key message : bytes) : Z :=
  crypto_eddsa_check_equation signature public_key (hash_reduce (take 32 signature) public_key message).

(** ** Keys and signing *)

(** The first 32 of 64 bytes are trimmed in place. *)
Definition trim_first (a : bytes) : bytes := crypto_eddsa_trim_scalar (take 32 a) ++ drop 32 a.

(** The wiped seed, the secret key and the public key. *)
Definition crypto_eddsa_key_pair (seed : bytes) : bytes * bytes * bytes :=
  let a := take 32 seed in
  let secret_key := a in
  let a := crypto_blake2b 64 a in
  let a := trim_first a in
  let secret_key := secret_key ++ crypto_eddsa_scalarbase (take 32 a) in
  (replicate 32 NUL, secret_key, drop 32 secret_key).

Definition crypto_eddsa_sign (secret_key message : bytes) : bytes :=
  let a := crypto_blake2b 64 (take 32 secret_key) in
  let a := trim_first a in
  let r := hash_reduce (drop 32 a) message [] in
  let R := crypto_eddsa_scalarbase r in
  let h := hash_reduce R (drop 32 secret_key) message in
  R ++ crypto_eddsa_mul_add h (take 32 a) r.

(** ** The ladder of the check *)

Lemma quot_odd d : 0 < d -> Z.odd d = true -> 2 * Z.quot d 2 + 1 = d.
Proof.
  intros Hd Ho. rewrite Z.quot_div_nonneg by lia. rewrite Zodd_mod in Ho. apply Zeq_bool_eq in Ho || apply Z.eqb_eq in Ho.
  pose proof (Z.div_mod d 2 ltac:(lia)). lia.
Qed.

Section check.
Context (minus_A : ge) (A : point) (HA : ge_is minus_A A).

Lemma lut_spec i : 0 <= i <= 1 -> cached_is (cached_at (lut minus_A) i) ((2 * i + 1)%Z * A)%point.
Proof.
  intros Hi. assert (i = 0 \/ i = 1) as [->| ->] by lia.
  - apply ge_cache_spec. exact HA.
  - change (cached_at (lut minus_A) 1) with (ge_cache (ge_add (ge_double minus_A) (ge_cache minus_A))).
    change (2 * 1 + 1) with (2 * 1 + 1)%Z. apply ge_cache_spec. rewrite smul_add, smul_double, smul_1.
    apply ge_add_spec; [by apply ge_double_spec|by apply ge_cache_spec].
Qed.

Lemma add_digits_spec sum P hd sd : ge_is sum P -> digit_ok 3 hd -> digit_ok 5 sd ->
  ge_is (add_digits sum (lut minus_A) hd sd) (P + hd * A + sd * B)%point.
Proof.
  intros HP Hh Hs. destruct tables_facts as (_ & _ & HW & _). unfold add_digits. cbv zeta.
  assert (H1 : ge_is (if decide (hd < 0) then ge_sub (if decide (0 < hd) then ge_add sum (cached_at (lut minus_A) (Z.quot hd 2)) else sum) (cached_at (lut minus_A) (Z.quot (- hd) 2))
    else if decide (0 < hd) then ge_add sum (cached_at (lut minus_A) (Z.quot hd 2)) else sum) (P + hd * A)%point).
  { destruct Hh as [->|[Ho Hr]]; [by rewrite !decide_False, (right_id_L neutral padd) by lia|]. change (2 ^ (3 - 1) - 1) with 3 in Hr.
    assert (hd <> 0) by (intros ->; discriminate). destruct (decide (0 < hd)) as [Hp|Hp].
    - rewrite decide_False by lia. pose proof (quot_odd hd Hp Ho) as Q. apply ge_add_spec; [done|]. rewrite <- Q at 2. apply lut_spec. lia.
    - rewrite decide_True by lia. rewrite <- Z.odd_opp in Ho. pose proof (quot_odd (- hd) ltac:(lia) Ho) as Q.
      replace (hd * A)%point with (- ((- hd)%Z * A))%point by (by rewrite smul_opp, popp_popp). apply ge_sub_spec; [done|]. rewrite <- Q at 2. apply lut_spec. lia. }
  set (sum1 := if decide (hd < 0) then _ else _) in *. clearbody sum1.
  destruct Hs as [->|[Ho Hr]]; [by rewrite !decide_False, (right_id_L neutral padd) by lia|]. change (2 ^ (5 - 1) - 1) with 15 in Hr.
  assert (sd <> 0) by (intros ->; discriminate). destruct (decide (0 < sd)) as [Hp|Hp].
  - rewrite decide_False by lia. pose proof (quot_odd sd Hp Ho) as Q. apply ge_madd_spec; [done|]. rewrite <- Q at 2.
    specialize (HW (Z.to_nat (Z.quot sd 2)) ltac:(lia)). rewrite Z2Nat.id in HW by lia. exact HW.
  - rewrite decide_True by lia. rewrite <- Z.odd_opp in Ho. pose proof (quot_odd (- sd) ltac:(lia) Ho) as Q.
    replace (sd * B)%point with (- ((- sd)%Z * B))%point by (by rewrite smul_opp, popp_popp). apply ge_msub_spec; [done|]. rewrite <- Q at 2.
    specialize (HW (Z.to_nat (Z.quot (- sd) 2)) ltac:(lia)). rewrite Z2Nat.id in HW by lia. exact HW.
Qed.

Lemma double_sum (x y dx dy : Z) (P Q : point) :
  ((x * P + y * Q) + (x * P + y * Q) + dx * P + dy * Q)%point = ((2 * x + dx)%Z * P + (2 * y + dy)%Z * Q)%point.
Proof.
  rewrite !smul_add, !smul_double, <- !(assoc_L padd). f_equal. rewrite (assoc_L padd (y * Q)%point), (comm_L padd (y * Q)%point (x * P)%point), <- !(assoc_L padd).
  f_equal. rewrite (assoc_L padd (y * Q)%point (y * Q)%point), (assoc_L padd _ (dx * P)%point), (comm_L padd _ (dx * P)%point), <- !(assoc_L padd). done.
Qed.

Lemma check_loop_spec h s j sum hs ss x y ch cs : (j <= 254)%nat ->
  slid (le_val h) 3 hs (Z.of_nat j - 1) x ch -> slid (le_val s) 5 ss (Z.of_nat j - 1) y cs -> ge_is sum (x * A + y * B)%point ->
  ge_is (check_loop j sum hs ss (lut minus_A) h s) (le_val h * A + le_val s * B)%point.
Proof.
  revert sum hs ss x y ch cs. induction j as [|j IH]; intros sum hs ss x y ch cs Hj Hh Hs HP.
  - apply slid_end in Hh as ->. by apply slid_end in Hs as ->.
  - cbn [check_loop]. replace (Z.of_nat (S j) - 1) with (Z.of_nat j) in Hh, Hs by lia.
    destruct (slide_step_spec h (le_val h) eq_refl 3 hs (Z.of_nat j) x ch ltac:(by left) ltac:(lia) Hh) as (hs' & hd & ch' & -> & Dh & Hh').
    destruct (slide_step_spec s (le_val s) eq_refl 5 ss (Z.of_nat j) y cs ltac:(by right) ltac:(lia) Hs) as (ss' & sd & cs' & -> & Ds & Hs').
    apply (IH _ _ _ (2 * x + hd) (2 * y + sd) ch' cs'); [lia|exact Hh'|exact Hs'|]. rewrite <- double_sum. apply add_digits_spec; [by apply ge_double_spec|done|done].
Qed.

Lemma ladder_spec h s : le_val h < 2 ^ 253 -> le_val s < 2 ^ 253 ->
  ge_is (check_loop (Z.to_nat (Z.max (next_check (slide_init h)) (next_check (slide_init s)) + 1)) ge_zero (slide_init h) (slide_init s) (lut minus_A) h s)
    (le_val h * A + le_val s * B)%point.
Proof.
  intros Hh Hs. pose proof (top_bit_spec h _ eq_refl Hh 252 Hh) as [_ Bh]. pose proof (top_bit_spec s _ eq_refl Hs 252 Hs) as [_ Bs].
  set (m := Z.max (Z.of_nat (top_bit 252 h) + 1) (Z.of_nat (top_bit 252 s) + 1)).
  destruct (slide_init_spec h _ eq_refl Hh 3 m ltac:(lia)) as [-> Ih]. destruct (slide_init_spec s _ eq_refl Hs 5 m ltac:(lia)) as [-> Is]. fold m.
  eapply (check_loop_spec h s _ _ _ _ 0 0); [lia| | |]; [..|apply ge_zero_spec]; rewrite Z2Nat.id, Z.add_simpl_r by lia; eassumption.
Qed.
End check.

(** ** The equation *)

Definition holds (A R : point) (s h : Z) : Prop := (8 * (s * B - h * A - R))%point = neutral.

Lemma encode_inj P Q : encode P = encode Q -> P = Q.
Proof. intros H. apply (decodes_unique (encode P)); [|rewrite H]; apply decodes_encode. Qed.

Lemma encode_neutral : encode neutral = zero_point.
Proof. vm_compute. reflexivity. Qed.

Lemma mul8 P : (((P + P) + (P + P)) + ((P + P) + (P + P)))%point = (8 * P)%point.
Proof. replace 8 with (2 * (2 * (2 * 1))) by lia. by rewrite !smul_double, !smul_1. Qed.

(** The last part of the check: 0 when eight times the difference is neutral. *)
Lemma equation_spec sum minus_R P R : ge_is sum P -> ge_is minus_R (- R)%point ->
  crypto_verify32 (ge_tobytes (ge_double (ge_double (ge_double (ge_add sum (ge_cache minus_R)))))) zero_point =
  if decide ((8 * (P - R))%point = neutral) then 0 else -1.
Proof.
  intros HP HR. assert (H : ge_is (ge_double (ge_double (ge_double (ge_add sum (ge_cache minus_R))))) (8 * (P - R))%point).
  { rewrite <- mul8. do 3 apply ge_double_spec. apply ge_add_spec; [done|]. by apply ge_cache_spec. }
  rewrite (ge_tobytes_spec _ _ H), verify32_spec by (apply encode_length || reflexivity).
  rewrite <- encode_neutral. destruct (decide (_ = neutral)) as [->|E]; [by rewrite decide_True|].
  rewrite decide_False; [done|]. by intros ?%encode_inj.
Qed.

Lemma is_above_bytes s : length s = 32%nat -> is_above_l (load32_le_buf s 8) = Z.b2z (bool_decide (order <= le_val s)).
Proof.
  intros Hs. rewrite is_above_spec by (apply load32_le_buf_limb || reflexivity). do 2 f_equal.
  by rewrite limbs_load, take_ge by (rewrite Hs; reflexivity || lia).
Qed.

(** Whether the equation check accepts a signature [R || s] for [A] and the
    hash [h]. *)
Definition accepts (signature public_key : bytes) (h : Z) : Prop :=
  exists A R, decodes public_key A /\ decodes (take 32 signature) R /\ le_val (drop 32 signature) < order /\ holds A R (le_val (drop 32 signature)) h.

Lemma check_equation_spec signature public_key h : length signature = 64%nat -> length public_key = 32%nat -> le_val h < 2 ^ 253 ->
  crypto_eddsa_check_equation signature public_key h = 0 /\ accepts signature public_key (le_val h) \/
  crypto_eddsa_check_equation signature public_key h = -1 /\ ~ accepts signature public_key (le_val h).
Proof.
  intros Hs Hp Hh. unfold crypto_eddsa_check_equation. cbv zeta.
  pose proof (frombytes_neg_spec public_key Hp) as HA. destruct (ge_frombytes_neg_vartime public_key) as [minus_A|];
    [|right; split; [done|]; intros (A & _ & ? & _); by eapply HA].
  pose proof (frombytes_neg_spec (take 32 signature) ltac:(rewrite length_take; lia)) as HR.
  destruct (ge_frombytes_neg_vartime (take 32 signature)) as [minus_R|]; [|right; split; [done|]; intros (_ & R & _ & ? & _); by eapply HR].
  destruct HA as (A & DA & GA), HR as (R & DR & GR). set (s := drop 32 signature). assert (Hl : length s = 32%nat) by (unfold s; rewrite length_drop; lia).
  rewrite is_above_bytes by done. case_bool_decide as Ho; cbn [Z.b2z].
  { rewrite decide_True by done. right. split; [done|]. intros (_ & _ & _ & _ & Hlt & _). fold s in Hlt. lia. }
  rewrite decide_False by lia. assert (Hso : le_val s < 2 ^ 253) by (assert (order < 2 ^ 253) by reflexivity; lia).
  rewrite (equation_spec _ _ _ R (ladder_spec minus_A _ GA h s Hh Hso) GR).
  assert (E : (le_val h * - A + le_val s * B - R)%point = (le_val s * B - le_val h * A - R)%point) by (by rewrite smul_popp, (comm_L padd (le_val s * B)%point)).
  rewrite E. destruct (decide _) as [Hn|Hn].
  - left. split; [done|]. exists A, R. fold s. split_and!; [done..|lia|exact Hn].
  - right. split; [done|]. intros (A' & R' & DA' & DR' & _ & Hn'). apply Hn. rewrite (decodes_unique _ _ _ DA DA'), (decodes_unique _ _ _ DR DR'). exact Hn'.
Qed.

(** ** The hash *)

Definition hash512 (m : bytes) : bytes := blake2b 64 [] m.
(** A hash as a scalar. *)
Definition hash_scalar (m : bytes) : Z := le_val (hash512 m) mod order.

Lemma hash512_length m : length (hash512 m) = 64%nat.
Proof. unfold hash512, blake2b. rewrite length_take, store64_length. reflexivity. Qed.

Lemma hash_reduce_spec a b c : hash_reduce a b c = le_bytes 32 (hash_scalar (a ++ b ++ c)).
Proof.
  unfold hash_reduce. cbv zeta. pose proof (blake2b_fed 64 [] [a; b; c] ltac:(simpl; lia)) as H. cbn [foldl concat] in H. rewrite app_nil_r in H.
  unfold crypto_blake2b_init. rewrite H. rewrite reduce_exact by apply hash512_length. done.
Qed.

Lemma blake2b_hash m : crypto_blake2b 64 m = hash512 m.
Proof.
  unfold crypto_blake2b, crypto_blake2b_keyed. pose proof (blake2b_fed 64 [] [m] ltac:(simpl; lia)) as H. cbn [foldl concat] in H. by rewrite app_nil_r in H.
Qed.

Lemma hash_scalar_range m : 0 <= hash_scalar m < order.
Proof. by apply Z.mod_pos_bound. Qed.

Lemma le_val_order x : 0 <= x < order -> le_val (le_bytes 32 x) = x.
Proof. intros H. rewrite le_val_bytes. apply Z.mod_small. assert (order < 256 ^ Z.of_nat 32) by reflexivity. lia. Qed.

(** ** Keys and signing *)

(** The secret scalar and the prefix of a seed, and its public key. *)
Definition secret_scalar (seed : bytes) : Z := decode_scalar (take 32 (hash512 seed)).
Definition prefix (seed : bytes) : bytes := drop 32 (hash512 seed).
Definition public_point (seed : bytes) : point := (secret_scalar seed * B)%point.

Lemma scalarbase_spec s : length s = 32%nat -> crypto_eddsa_scalarbase s = encode (le_val s * B)%point.
Proof. intros Hs. unfold crypto_eddsa_scalarbase. apply ge_tobytes_spec. by apply scalarmult_base_spec. Qed.

Lemma trim_length s : length (crypto_eddsa_trim_scalar s) = length s.
Proof. unfold crypto_eddsa_trim_scalar. by rewrite !length_alter. Qed.

Lemma trim_first_spec m : take 32 (trim_first (hash512 m)) = crypto_eddsa_trim_scalar (take 32 (hash512 m)) /\ drop 32 (trim_first (hash512 m)) = prefix m.
Proof.
  unfold trim_first. assert (Hl : length (crypto_eddsa_trim_scalar (take 32 (hash512 m))) = 32%nat) by (rewrite trim_length, length_take, hash512_length; lia).
  split; [by apply take_app_length'|by apply drop_app_length'].
Qed.

Lemma key_pair_spec seed : length seed = 32%nat ->
  crypto_eddsa_key_pair seed = (replicate 32 NUL, seed ++ encode (public_point seed), encode (public_point seed)).
Proof.
  intros Hs. unfold crypto_eddsa_key_pair. cbv zeta. rewrite take_ge by lia. rewrite blake2b_hash. destruct (trim_first_spec seed) as [-> _].
  assert (Hl : length (take 32 (hash512 seed)) = 32%nat) by (rewrite length_take, hash512_length; lia).
  rewrite scalarbase_spec, trim_spec by (rewrite ?trim_length; done). rewrite drop_app_length' by done. done.
Qed.

(** The signature as the comment of the code defines it. *)
Definition eddsa_signature (seed A message : bytes) : bytes :=
  let r := hash_scalar (prefix seed ++ message) in
  let R := encode (r * B)%point in
  let h := hash_scalar (R ++ A ++ message) in
  R ++ le_bytes 32 ((h * secret_scalar seed + r) mod order).

Lemma sign_spec seed A message : length seed = 32%nat -> crypto_eddsa_sign (seed ++ A) message = eddsa_signature seed A message.
Proof.
  intros Hs. unfold crypto_eddsa_sign, eddsa_signature. cbv zeta. rewrite take_app_length', drop_app_length' by done. rewrite blake2b_hash.
  destruct (trim_first_spec seed) as [-> ->]. assert (Hl : length (take 32 (hash512 seed)) = 32%nat) by (rewrite length_take, hash512_length; lia).
  rewrite !hash_reduce_spec, scalarbase_spec, app_nil_r, !le_val_order by (apply le_bytes_length || apply hash_scalar_range).
  rewrite mul_add_spec, trim_spec, !le_val_order by (rewrite ?trim_length; apply le_bytes_length || apply hash_scalar_range || done). done.
Qed.

(** ** Properties *)

(** A signature as [crypto_eddsa_check] should accept it: the RFC's equation,
    times 8, with the hash of [R], [A] and the message. *)
Definition valid (signature public_key message : bytes) : Prop :=
  accepts signature public_key (hash_scalar (take 32 signature ++ public_key ++ message)).

Lemma check_spec signature public_key message : length signature = 64%nat -> length public_key = 32%nat ->
  crypto_eddsa_check signature public_key message = 0 /\ valid signature public_key message \/
  crypto_eddsa_check signature public_key message = -1 /\ ~ valid signature public_key message.
Proof.
  intros Hs Hp. unfold crypto_eddsa_check, valid. rewrite hash_reduce_spec. set (h := hash_scalar _).
  assert (Hh : le_val (le_bytes 32 h) = h) by (apply le_val_order, hash_scalar_range). 
  pose proof (hash_scalar_range (take 32 signature ++ public_key ++ message)) as R. fold h in R. assert (order < 2 ^ 253) by reflexivity.
  pose proof (check_equation_spec signature public_key (le_bytes 32 h) Hs Hp ltac:(rewrite Hh; lia)) as E. rewrite Hh in E. exact E.
Qed.

Lemma signature_valid seed message : length seed = 32%nat -> let A := encode (public_point seed) in valid (eddsa_signature seed A message) A message.
Proof.
  intros Hs A. unfold valid, eddsa_signature. cbv zeta. set (r := hash_scalar _). set (R := encode _).
  rewrite take_app_length' by (unfold R; by rewrite encode_length). set (h := hash_scalar _). set (s := (h * secret_scalar seed + r) mod order).
  exists (public_point seed), (r * B)%point. rewrite take_app_length', drop_app_length' by (unfold R; by rewrite encode_length).
  pose proof (Z.mod_pos_bound (h * secret_scalar seed + r) order eq_refl) as Rs. fold s in Rs. rewrite le_val_order by done.
  split_and!; [apply decodes_encode|apply decodes_encode|lia|]. unfold holds, public_point, s. rewrite <- smul_order, smul_add, smul_mul.
  set (X := (h * _)%point). set (Y := (r * B)%point). rewrite (comm_L padd X Y), <- (assoc_L padd Y), padd_opp, (right_id_L neutral padd), padd_opp. apply smul_neutral.
Qed.

(** C9: [crypto_eddsa_check] decides the equation of EdDSA for every signature,
    key and message: it returns 0 exactly when [R] and [A] decode to points of
    the curve, [s] is below the order, and [8 (s B - h A - R)] is neutral for
    the hash [h] of [R], [A] and the message modulo the order; otherwise it
    returns -1.  The sliding windows, the precomputed tables, the extended
    coordinates and the limbs leave no trace. *)
Theorem check_exact signature public_key message : length signature = 64%nat -> length public_key = 32%nat ->
  (crypto_eddsa_check signature public_key message = 0 <-> valid signature public_key message) /\
  (crypto_eddsa_check signature public_key message = -1 <-> ~ valid signature public_key message).
Proof.
  intros Hs Hp. destruct (check_spec signature public_key message Hs Hp) as [[-> H]|[-> H]]; [|by repeat split].
  repeat split; [done|discriminate|]. intros H'. by destruct (H' H).
Qed.

Lemma check_exact_witness :
  crypto_eddsa_check (replicate 64 x05) (replicate 32 x09) (str "abc") = 0 <-> valid (replicate 64 x05) (replicate 32 x09) (str "abc").
Proof. apply (check_exact (replicate 64 x05) (replicate 32 x09) (str "abc")); reflexivity. Defined.

(** C5: what is signed verifies: for every seed and every message, the signature
    that [crypto_eddsa_sign] makes with the secret key of
    [crypto_eddsa_key_pair] is accepted by [crypto_eddsa_check] with the
    public key; and the signature is the one that the code's comment defines,
    [R || (h a + r) mod L] with the hashes of the prefix and of the key. *)
Theorem signature_verifies seed message : length seed = 32%nat ->
  exists secret_key public_key, crypto_eddsa_key_pair seed = (replicate 32 NUL, secret_key, public_key) /\
    crypto_eddsa_sign secret_key message = eddsa_signature seed public_key message /\
    crypto_eddsa_check (crypto_eddsa_sign secret_key message) public_key message = 0.
Proof.
  intros Hs. rewrite key_pair_spec by done. eexists _, _. split; [reflexivity|]. rewrite sign_spec by done. split; [done|].
  pose proof (signature_valid seed message Hs) as Hv. cbv zeta in Hv.
  destruct (check_spec (eddsa_signature seed (encode (public_point seed)) message) (encode (public_point seed)) message) as [[E _]|[_ E]]; [|apply encode_length|exact E|done].
  unfold eddsa_signature. rewrite length_app, encode_length, le_bytes_length. done.
Qed.

Lemma signature_verifies_witness :
  length (replicate 32 x07) = 32%nat /\
  exists secret_key public_key, crypto_eddsa_key_pair (replicate 32 x07) = (replicate 32 NUL, secret_key, public_key) /\
    crypto_eddsa_sign secret_key (str "abc") = eddsa_signature (replicate 32 x07) public_key (str "abc") /\
    crypto_eddsa_check (crypto_eddsa_sign secret_key (str "abc")) public_key (str "abc") = 0.
Proof. split; [reflexivity|]. apply (signature_verifies (replicate 32 x07) (str "abc")). reflexivity. Defined.
