(* ===== verification/DH.v ===== *)
(** * The key exchange in the group of the curve

    The Montgomery ladder of [X25519] computes multiples of points: a point of
    [Edwards] has the coordinate [u = (1+y)/(1-y)], and both curve formulas of
    the ladder are those of the group, exceptional points included.  With the
    conversions between the two forms of a public key. *)
From S2P Require Import Prelude Fmt Mono Primes Fe25519 FeInvert X25519 ModL Edwards EdPoint EdTables EdBase.
From Stdlib Require Import NsatzTactic Zbitwise Zdivisibility Zpow_facts.

Open Scope Z_scope.

(** ** Coordinates of points *)

(** [u = (1+y)/(1-y)]; 0 for the neutral element, as for the point of order 2. *)
Definition u_coord (P : point) : Z := (1 + py P) * inv (1 - py P) mod p.
Definition u_bytes (P : point) : bytes := le_bytes 32 (u_coord P).

(** [X/Z] with the neutral element at infinity. *)
Definition xz (X Z : Z) (P : point) : Prop := exists l, ~ l ≡p 0 /\ X ≡p l * (1 + py P) /\ Z ≡p l * (1 - py P).

(** ** The formulas, for any [d] *)

Lemma double_poly d x y y2 X Z : 121666 * d ≡p -121665 -> on d x y -> y2 * (1 - d * x * x * y * y) ≡p y * y + x * x ->
  X ≡p 1 + y -> Z ≡p 1 - y ->
  let l := 8 * 121666 * (d * (y * y) + 1) * (1 - d * x * x * y * y) in
  (X * X - Z * Z) * (X * X - Z * Z) ≡p l * (1 + y2) /\ 4 * X * Z * (X * X + 486662 * X * Z + Z * Z) ≡p l * (1 - y2).
Proof. unfold on. intros Hd Ho Hy HX HZ. cbv zeta. rewrite HX, HZ. clear HX HZ. split; residues. Qed.

(** With S = P + Q and D = P - Q. *)
Lemma diff_poly d x2 y2 x3 y3 yS yD : 121666 * d ≡p -121665 -> on d x2 y2 -> on d x3 y3 ->
  let t := d * x2 * x3 * y2 * y3 in let e := 1 + d * y2 * y2 + d * y3 * y3 - d * y2 * y2 * y3 * y3 in
  yS * (1 - t) ≡p y2 * y3 + x2 * x3 -> yD * (1 + t) ≡p y2 * y3 - x2 * x3 ->
  (1 - t) * (1 + t) * (d * (y2 * y2) + 1) * (d * (y3 * y3) + 1) ≡p (1 + d * y2 * y2 * y3 * y3) * e /\
  (1 - t) * (1 + t) * ((1 + yS) * (1 + yD) * e * 121666) ≡p (1 - t) * (1 + t) * ((y2 + y3) * (y2 + y3)) /\
  (1 - t) * (1 + t) * ((1 - yS) * (1 - yD) * e * 121666) ≡p (1 - t) * (1 + t) * ((y2 - y3) * (y2 - y3)).
Proof. unfold on. cbv zeta. intros Hd H2 H3 HS HD. split_and!; residues. Qed.

(** ** The formulas on points *)

(** Products of factors that are not zero. *)
Ltac nonzero := lazymatch goal with
  | |- ~ (_ * _ ≡p 0) => apply eqp_mul_nz; nonzero
  | |- ~ (dd * _ + 1 ≡p 0) => apply den_nz
  | |- _ => first [assumption|apply always_proper|by vm_compute] end.

Lemma xz_double X Z P : xz X Z P -> xz ((X * X - Z * Z) * (X * X - Z * Z)) (4 * X * Z * (X * X + 486662 * X * Z + Z * Z)) (P + P)%point.
Proof.
  intros (l & Hl & EX & EZ). destruct (point_on P) as (_ & _ & Ho). destruct (add_sums P P) as [_ Hy].
  destruct (double_poly dd (px P) (py P) (py (P + P)%point) (1 + py P) (1 - py P) dd_ratio Ho) as [F1 F2]; [|reflexivity|reflexivity|].
  { rewrite <- Hy. apply eq_eqp. ring. }
  exists (l * l * l * l * (8 * 121666 * (dd * (py P * py P) + 1) * (1 - dd * px P * px P * py P * py P))). split_and!.
  - nonzero.
  - rewrite EX, EZ. match type of F1 with ?a ≡p _ => transitivity (l * l * l * l * a) end; [apply eq_eqp; ring|]. rewrite F1. apply eq_eqp. ring.
  - rewrite EX, EZ. match type of F2 with ?a ≡p _ => transitivity (l * l * l * l * a) end; [apply eq_eqp; ring|]. rewrite F2. apply eq_eqp. ring.
Qed.

Lemma diff_sums P Q : py (P - Q)%point * (1 + dd * px P * px Q * py P * py Q) ≡p py P * py Q - px P * px Q.
Proof.
  destruct (add_sums P (- Q)%point) as [_ H]. rewrite px_popp, py_popp in H. rewrite <- (Z.add_opp_r (py P * py Q)), <- Z.mul_opp_r, <- H.
  apply eq_eqp. ring.
Qed.

Lemma xz_add x X2 Z2 X3 Z3 P Q : xz X2 Z2 P -> xz X3 Z3 Q ->
  x * (1 - py (P - Q)%point) ≡p 1 + py (P - Q)%point -> ~ 1 + py (P - Q)%point ≡p 0 ->
  xz (4 * ((X2 * X3 - Z2 * Z3) * (X2 * X3 - Z2 * Z3))) (4 * x * ((X2 * Z3 - Z2 * X3) * (X2 * Z3 - Z2 * X3))) (P + Q)%point.
Proof.
  intros (l & Hl & EX & EZ) (m & Hm & EX' & EZ') Hx Hn. destruct (point_on P) as (_ & _ & HP), (point_on Q) as (_ & _ & HQ), (always_proper P Q) as [N1 N2].
  destruct (add_sums P Q) as [_ HS]. pose proof (diff_sums P Q) as HD.
  destruct (diff_poly dd _ _ _ _ _ _ dd_ratio HP HQ HS HD) as (F0 & F1 & F2). clear HS HD HP HQ.
  set (t := dd * px P * px Q * py P * py Q) in *. set (e := 1 + dd * py P * py P + _ - _) in *. set (yS := py (P + Q)%point) in *. set (yD := py (P - Q)%point) in *.
  assert (Nt : ~ (1 - t) * (1 + t) ≡p 0) by (by apply eqp_mul_nz).
  assert (He : ~ e ≡p 0).
  { intros E. rewrite E, Z.mul_0_r in F0. revert F0. change (~ ((1 - t) * (1 + t) * (dd * (py P * py P) + 1) * (dd * (py Q * py Q) + 1)) ≡p 0).
    nonzero. }
  apply (eqp_cancel _ _ _ Nt) in F1, F2. clearbody e t.
  exists (16 * 121666 * l * l * m * m * e * (1 + yD)). fold yS. split_and!.
  - nonzero.
  - transitivity (16 * l * l * m * m * ((1 + yS) * (1 + yD) * e * 121666)); [|apply eq_eqp; ring]. rewrite F1, EX, EZ, EX', EZ'. apply eq_eqp. ring.
  - transitivity (16 * l * l * m * m * x * ((1 - yS) * (1 - yD) * e * 121666)).
    + rewrite F2, EX, EZ, EX', EZ'. apply eq_eqp. ring.
    + transitivity (16 * l * l * m * m * (x * (1 - yD)) * ((1 - yS) * e * 121666)); [apply eq_eqp; ring|]. rewrite Hx. apply eq_eqp. ring.
Qed.

#[export] Instance xz_proper : Proper (eqp ==> eqp ==> eq ==> iff) xz.
Proof. intros X X' HX Z Z' HZ P ? <-. unfold xz. by setoid_rewrite HX; setoid_rewrite HZ. Qed.

(** ** The ladder *)

Section ladder.
Context (P : point) (x : Z) (Hx : x * (1 - py P) ≡p 1 + py P) (Hn : ~ 1 + py P ≡p 0) (Hi : ~ 1 - py P ≡p 0).

Definition pair_is (PQ : (Z * Z) * (Z * Z)) (n : Z) : Prop := xz PQ.1.1 PQ.1.2 (n * P)%point /\ xz PQ.2.1 PQ.2.2 ((n + 1)%Z * P)%point.

Lemma succ_sub n : ((n + 1)%Z * P - n * P)%point = P.
Proof. by rewrite <- smul_sub, Z.add_simpl_l, smul_1. Qed.

Lemma mont_add_is n PQ : pair_is PQ n -> xz (mont_add x PQ.1 PQ.2).1 (mont_add x PQ.1 PQ.2).2 ((2 * n + 1)%Z * P)%point.
Proof.
  destruct PQ as [[X2 Z2] [X3 Z3]]. intros [H1 H2]. cbn [fst snd] in *. rewrite mont_add_comm. unfold mont_add. cbn [fst snd]. rewrite !eqp_mod.
  replace (2 * n + 1) with (n + 1 + n) by lia. rewrite smul_add. apply xz_add; try assumption; by rewrite succ_sub.
Qed.

Lemma mont_step_is n PQ b : pair_is PQ n -> pair_is (mont_step x b PQ) (2 * n + Z.b2z b).
Proof.
  intros H. pose proof (mont_add_is n PQ H) as HA. destruct PQ as [[X2 Z2] [X3 Z3]], H as [H1 H2]. cbn [fst snd] in *.
  assert (HD : forall X Z m, xz X Z (m * P)%point -> xz (mont_double (X, Z)).1 (mont_double (X, Z)).2 ((2 * m)%Z * P)%point).
  { intros X Z m H. rewrite smul_double. unfold mont_double. cbn [fst snd]. rewrite !eqp_mod. by apply xz_double. }
  destruct b; cbn [Z.b2z]; split; unfold mont_step; cbn [fst snd].
  - exact HA.
  - replace (2 * n + 1 + 1) with (2 * (n + 1)) by lia. by apply HD.
  - rewrite Z.add_0_r. by apply HD.
  - rewrite Z.add_0_r. exact HA.
Qed.

Lemma mont_ladder_is n k PQ m : 0 <= k -> pair_is PQ m -> k / 2 ^ Z.of_nat n = m -> pair_is (mont_ladder n k x PQ) k.
Proof.
  intros Hk. revert PQ m. induction n as [|n IH]; intros PQ m H E.
  - change (2 ^ Z.of_nat 0) with 1 in E. rewrite Z.div_1_r in E. by subst.
  - cbn [mont_ladder]. eapply IH; [by apply mont_step_is|]. rewrite Nat2Z.inj_succ, <- Z.add_1_r, Z.pow_add_r, <- Z.div_div in E by lia.
    change (2 ^ 1) with 2 in E. rewrite Z.testbit_spec' by lia. pose proof (Z.div_mod (k / 2 ^ Z.of_nat n) 2 ltac:(lia)). lia.
Qed.

Lemma pair_init : pair_is ((1, 0), (x, 1)) 0.
Proof.
  assert (E : py neutral = 1) by reflexivity. split; cbn [fst snd].
  - rewrite smul_0. unfold xz. rewrite E. pose proof (inv_mul 2 two_nz) as H2. pose proof (inv_nz 2 two_nz) as H3. revert H2 H3. generalize (inv 2).
    intros h H2 H3. exists h. split; [exact H3|]. split; [transitivity (2 * h); [symmetry; exact H2|apply eq_eqp; ring]|apply eq_eqp; ring].
  - rewrite smul_1. unfold xz. pose proof (inv_mul _ Hi) as Hm. pose proof (inv_nz _ Hi) as H3. revert Hm H3. generalize (inv (1 - py P)).
    intros h Hm H3. exists h. split; [exact H3|]. split.
    + rewrite <- Hx. transitivity (x * ((1 - py P) * h)); [rewrite Hm; apply eq_eqp; ring|apply eq_eqp; ring].
    + transitivity ((1 - py P) * h); [symmetry; exact Hm|apply eq_eqp; ring].
Qed.
End ladder.

(** The quotient of the final pair. *)
Lemma xz_quotient X Z P : xz X Z P -> X * inv Z ≡p (1 + py P) * inv (1 - py P).
Proof.
  intros (l & Hl & EX & EZ). rewrite EX, EZ. destruct (decide (1 - py P ≡p 0)) as [E|E]; [rewrite E, Z.mul_0_r, inv_0; apply eq_eqp; ring|].
  apply (eqp_cancel_r _ _ _ E). rewrite <- (Z.mul_assoc (1 + py P)), (Z.mul_comm (inv (1 - py P))), inv_mul by done.
  transitivity ((1 + py P) * (l * (1 - py P) * inv (l * (1 - py P)))); [apply eq_eqp; ring|]. by rewrite inv_mul by (by apply eqp_mul_nz).
Qed.

(** ** The points of order 1 and 2, whose coordinate is 0 *)

Definition low (P : point) : Prop := py P * py P ≡p 1.

Lemma low_x P : low P -> px P = 0.
Proof.
  intros H. destruct (point_on P) as (R & _ & Ho%curve_x). apply residue_eq; [done|done|].
  unfold low in H. rewrite H in Ho.
  assert (E : px P * px P * (dd * 1 + 1) ≡p 0) by (rewrite Ho; apply eq_eqp; ring).
  apply eqp_mul_0 in E as [E|E]; [by apply eqp_mul_0 in E as [E|E]|by vm_compute in E].
Qed.

Lemma low_add P Q : low P -> low Q -> low (P + Q)%point.
Proof.
  intros HP HQ. destruct (add_sums P Q) as [_ H]. rewrite (low_x P HP), (low_x Q HQ) in H. unfold low in *.
  assert (E : py (P + Q)%point ≡p py P * py Q).
  { transitivity (py (P + Q)%point * (1 - dd * 0 * 0 * py P * py Q)); [apply eq_eqp; ring|]. rewrite H. apply eq_eqp. ring. }
  rewrite E. transitivity (py P * py P * (py Q * py Q)); [apply eq_eqp; ring|]. by rewrite HP, HQ.
Qed.

Lemma low_opp P : low P -> low (- P)%point.
Proof. unfold low. by rewrite py_popp. Qed.

Lemma low_smul n P : low P -> low (n * P)%point.
Proof.
  intros H. induction n as [|n IH|n IH] using Z.peano_ind; [by vm_compute| |].
  - rewrite smul_succ. by apply low_add.
  - rewrite smul_pred. by apply low_add, low_opp.
Qed.

Lemma low_u P : low P -> u_coord P = 0.
Proof.
  intros H. unfold u_coord. change 0 with (0 mod p). change (((1 + py P) * inv (1 - py P)) ≡p 0).
  assert (E : (1 - py P) * (1 + py P) ≡p 0) by (transitivity (1 - py P * py P); [apply eq_eqp; ring|]; unfold low in H; rewrite H; done).
  apply eqp_mul_0 in E as [E|E]; rewrite E; [rewrite inv_0; apply eq_eqp; ring|apply eq_eqp; ring].
Qed.

Lemma not_low P : ~ low P -> ~ 1 + py P ≡p 0 /\ ~ 1 - py P ≡p 0.
Proof.
  intros H. split; intros E; apply H; unfold low.
  - transitivity ((1 + py P) * (py P - 1) + 1); [apply eq_eqp; ring|]. rewrite E. apply eq_eqp. ring.
  - transitivity (1 - (1 - py P) * (1 + py P)); [apply eq_eqp; ring|]. rewrite E. apply eq_eqp. ring.
Qed.

(** The ladder from the coordinate 0 stays at infinity. *)
Definition dead (PQ : (Z * Z) * (Z * Z)) : Prop := PQ.1.2 ≡p 0 /\ (PQ.2.1 ≡p 0 \/ PQ.2.2 ≡p 0).

Lemma mont_step_dead b PQ : dead PQ -> dead (mont_step 0 b PQ).
Proof.
  destruct PQ as [[X2 Z2] [X3 Z3]]. unfold dead. cbn [fst snd]. intros [H1 H2].
  assert (HA : (mont_add 0 (X2, Z2) (X3, Z3)).2 ≡p 0) by (unfold mont_add; cbn [snd]; rewrite eqp_mod; apply eq_eqp; ring).
  assert (HD : forall X Z, X ≡p 0 \/ Z ≡p 0 -> (mont_double (X, Z)).2 ≡p 0).
  { intros X Z H. unfold mont_double. cbn [snd]. rewrite eqp_mod. destruct H as [E|E]; rewrite E; apply eq_eqp; ring. }
  destruct b; cbn [mont_step fst snd]; split; [exact HA|right; by apply HD|apply HD; by right|by right].
Qed.

Lemma mont_ladder_dead n k PQ : dead PQ -> dead (mont_ladder n k 0 PQ).
Proof. revert PQ. induction n as [|n IH]; intros PQ H; [done|]. cbn [mont_ladder]. by apply IH, mont_step_dead. Qed.

(** ** The ladder multiplies *)

Lemma mont_mul_point n k P : 0 <= k < 2 ^ Z.of_nat n -> mont_mul n k (u_coord P) = u_coord (k * P)%point.
Proof.
  intros Hk. unfold mont_mul. destruct (decide (low P)) as [L|L].
  - rewrite (low_u P L), (low_u _ (low_smul k P L)). pose proof (mont_ladder_dead n k ((1, 0), (0, 1))) as H. unfold dead in H. cbn [fst snd] in H.
    specialize (H ltac:(split; [done|by left])). destruct (mont_ladder n k 0 (1, 0, (0, 1))) as [[X Z] Q]. cbn [fst snd] in *. destruct H as [H _].
    rewrite inv_def. change 0 with (0 mod p). change (X * inv Z ≡p 0). rewrite H, inv_0. apply eq_eqp. ring.
  - apply not_low in L as [N1 N2]. assert (Hx : u_coord P * (1 - py P) ≡p 1 + py P).
    { unfold u_coord. rewrite eqp_mod. transitivity ((1 + py P) * ((1 - py P) * inv (1 - py P))); [apply eq_eqp; ring|]. rewrite inv_mul by done. apply eq_eqp. ring. }
    pose proof (mont_ladder_is P (u_coord P) Hx N1 n k _ 0 ltac:(lia) (pair_init P _ Hx N2)) as H. rewrite Z.div_small in H by done. specialize (H eq_refl).
    destruct (mont_ladder n k (u_coord P) _) as [[X Z] Q]. destruct H as [H _]. cbn [fst snd] in *. rewrite inv_def. exact (xz_quotient X Z _ H).
Qed.

Lemma u_coord_range P : 0 <= u_coord P < p.
Proof. by apply Z.mod_pos_bound. Qed.

Lemma decode_u_bytes P : decode_u (u_bytes P) mod p = u_coord P.
Proof.
  unfold decode_u, u_bytes. rewrite le_val_bytes. pose proof (u_coord_range P) as R. unfold p in R.
  rewrite (Z.mod_small _ (256 ^ Z.of_nat 32)) by (change (256 ^ Z.of_nat 32) with (2 * 2 ^ 255); lia).
  rewrite (Z.mod_small _ (2 ^ 255)), Z.mod_small by (unfold p; lia). done.
Qed.

Lemma decode_scalar_range s : length s = 32%nat -> 0 <= decode_scalar s < 2 ^ 255.
Proof.
  intros Hs. unfold decode_scalar. pose proof (Z.mod_pos_bound (le_val s) 8 ltac:(lia)). pose proof (Z.mod_pos_bound (le_val s) (2 ^ 254) ltac:(lia)). lia.
Qed.

(** The exchange on points: any 32 bytes as a secret, any point of the curve. *)
Lemma x25519_point sk P : length sk = 32%nat -> crypto_x25519 sk (u_bytes P) = u_bytes (decode_scalar sk * P)%point.
Proof.
  intros Hs. rewrite x25519_ladder by (done || apply le_bytes_length). unfold x25519. rewrite decode_u_bytes.
  rewrite mont_mul_point; [done|]. by apply decode_scalar_range.
Qed.

Lemma u_base : u_coord B = 9.
Proof.
  assert (R : 0 <= 9 < p) by done.
  assert (H : u_coord B * (1 - py B) ≡p 9 * (1 - py B)).
  { unfold u_coord. rewrite eqp_mod. transitivity ((1 + py B) * ((1 - py B) * inv (1 - py B))); [apply eq_eqp; ring|].
    rewrite inv_mul by (by vm_compute). by vm_compute. }
  apply eqp_cancel_r in H; [|by vm_compute]. exact (residue_eq _ _ (u_coord_range B) R H).
Qed.

Lemma u_base_bytes : base_point = u_bytes B.
Proof. unfold u_bytes. rewrite u_base. reflexivity. Qed.

Lemma x25519_public sk : length sk = 32%nat -> crypto_x25519_public_key sk = u_bytes (decode_scalar sk * B)%point.
Proof. intros Hs. unfold crypto_x25519_public_key. rewrite u_base_bytes. by apply x25519_point. Qed.

(** ** Conversions of public keys *)

Definition crypto_eddsa_to_x25519 (eddsa : bytes) : bytes :=
  let t2 := fe_frombytes eddsa in
  let t1 := fe_add fe_one t2 in
  let t2 := fe_sub fe_one t2 in
  let t2 := fe_invert t2 in
  fe_tobytes (fe_mul t1 t2).

Definition crypto_x25519_to_eddsa (x25519 : bytes) : bytes :=
  let t2 := fe_frombytes x25519 in
  let t1 := fe_sub t2 fe_one in
  let t2 := fe_add t2 fe_one in
  let t2 := fe_invert t2 in
  fe_tobytes (fe_mul t1 t2).

Lemma is_frombytes s : length s = 32%nat -> is_val (fe_frombytes s) (le_val s mod 2 ^ 255).
Proof. intros Hs. exact (frombytes_mask_val s 1 Hs ltac:(lia)). Qed.

Lemma is_invert f v : lo_val f v -> is_val (fe_invert f) (inv v).
Proof. intros [L E]. destruct (invert_spec f L) as [T V]. split; [done|]. rewrite V, inv_pow. by apply eqp_pow. Qed.

Lemma is_one : is_val fe_one 1.
Proof. apply is_1. Qed.

Lemma tobytes_is f v : is_val f v -> fe_tobytes f = le_bytes 32 (v mod p).
Proof. intros [T E]. rewrite tobytes_val by done. f_equal. exact E. Qed.

Lemma to_x25519_point e P : length e = 32%nat -> decodes e P -> crypto_eddsa_to_x25519 e = u_bytes P.
Proof.
  intros He [Ey _]. unfold crypto_eddsa_to_x25519, u_bytes, u_coord. cbv zeta. pose proof (is_frombytes e He) as H2. pose proof is_one as H1.
  erewrite tobytes_is; [|apply is_mul; [apply lo_add; eassumption|apply lo_of_is, is_invert, lo_sub; eassumption]].
  f_equal. change ((1 + le_val e mod 2 ^ 255) * inv (1 - le_val e mod 2 ^ 255) ≡p (1 + py P) * inv (1 - py P)). by rewrite <- Ey.
Qed.

Lemma to_eddsa_point P : P <> neutral -> crypto_x25519_to_eddsa (u_bytes P) = le_bytes 32 (py P).
Proof.
  intros HP. unfold crypto_x25519_to_eddsa. cbv zeta. pose proof (is_frombytes (u_bytes P) (le_bytes_length _ _)) as H2. pose proof is_one as H1.
  erewrite tobytes_is; [|apply is_mul; [apply lo_sub; eassumption|apply lo_of_is, is_invert, lo_add; eassumption]].
  f_equal. assert (Eu : le_val (u_bytes P) mod 2 ^ 255 ≡p u_coord P) by (rewrite <- (decode_u_bytes P); unfold decode_u; by rewrite eqp_mod).
  destruct (point_on P) as (_ & Ry & _). rewrite <- (Z.mod_small (py P) p) by done.
  change ((le_val (u_bytes P) mod 2 ^ 255 - 1) * inv (le_val (u_bytes P) mod 2 ^ 255 + 1) ≡p py P). rewrite Eu.
  assert (N : ~ 1 - py P ≡p 0).
  { intros E. apply HP. assert (Ey : py P ≡p 1) by (transitivity (1 - (1 - py P)); [apply eq_eqp; ring|by rewrite E]).
    assert (L : low P) by (unfold low; by rewrite Ey). apply point_eq; [by rewrite (low_x P L)|done]. }
  assert (Hu : u_coord P * (1 - py P) ≡p 1 + py P).
  { unfold u_coord. rewrite eqp_mod. transitivity ((1 + py P) * ((1 - py P) * inv (1 - py P))); [apply eq_eqp; ring|]. rewrite inv_mul by done. apply eq_eqp. ring. }
  set (u := u_coord P) in *. set (y := py P) in *. clearbody u y.
  assert (Hn : (u + 1) * (1 - y) ≡p 2) by (transitivity (u * (1 - y) + (1 - y)); [apply eq_eqp; ring|]; rewrite Hu; apply eq_eqp; ring).
  assert (Hu1 : ~ u + 1 ≡p 0) by (intros E; rewrite E in Hn; by vm_compute in Hn).
  apply (eqp_cancel_r _ _ _ Hu1). transitivity ((u - 1) * ((u + 1) * inv (u + 1))); [apply eq_eqp; ring|]. rewrite inv_mul by done.
  apply (eqp_cancel_r _ _ _ N). transitivity (u * (1 - y) - (1 - y)); [apply eq_eqp; ring|]. rewrite Hu.
  transitivity (y * ((u + 1) * (1 - y))); [rewrite Hn; apply eq_eqp; ring|apply eq_eqp; ring].
Qed.

(** The converted key of an EdDSA seed is the X25519 key of its scalar. *)
Lemma converted_public_key s : length s = 32%nat -> crypto_eddsa_to_x25519 (encode (decode_scalar s * B)%point) = crypto_x25519_public_key s.
Proof. intros Hs. rewrite (to_x25519_point _ (decode_scalar s * B)%point), x25519_public by (done || apply encode_length || apply decodes_encode). done. Qed.

(** ** Properties *)

(** C10: [crypto_x25519] multiplies points: for every 32 bytes of a secret and
    every point of the curve, the neutral one and those of low order
    included, the ladder on the bytes of the point's coordinate returns the
    bytes of the coordinate of the scalar multiple in the group of the curve. *)
Theorem x25519_multiplies sk P : length sk = 32%nat ->
  crypto_x25519 sk (u_bytes P) = u_bytes (decode_scalar sk * P)%point.
Proof. apply x25519_point. Qed.

Lemma x25519_multiplies_witness :
  crypto_x25519 (replicate 32 x77) (u_bytes B) = u_bytes (decode_scalar (replicate 32 x77) * B)%point.
Proof. apply (x25519_multiplies (replicate 32 x77) B). reflexivity. Defined.

(** C21: the exchange agrees: what each side computes from its own secret and the
    other's public key is the same, the coordinate of both scalars times the
    base point. *)
Theorem x25519_agrees a b : length a = 32%nat -> length b = 32%nat ->
  crypto_x25519 a (crypto_x25519_public_key b) = u_bytes ((decode_scalar a * decode_scalar b)%Z * B)%point /\
  crypto_x25519 a (crypto_x25519_public_key b) = crypto_x25519 b (crypto_x25519_public_key a).
Proof.
  intros Ha Hb. rewrite (x25519_public a Ha), (x25519_public b Hb), (x25519_point a _ Ha), (x25519_point b _ Hb), <- !smul_mul. split; [done|]. by rewrite (Z.mul_comm (decode_scalar b)).
Qed.

Lemma x25519_agrees_witness :
  length (replicate 32 x77) = 32%nat /\
  crypto_x25519 (replicate 32 x77) (crypto_x25519_public_key (replicate 32 x5d)) =
  crypto_x25519 (replicate 32 x5d) (crypto_x25519_public_key (replicate 32 x77)).
Proof. split; [reflexivity|]. exact (proj2 (x25519_agrees (replicate 32 x77) (replicate 32 x5d) eq_refl eq_refl)). Defined.
