(* ===== verification/Crypto.v ===== *)
(** * The crypto builtins ([o9_crypto.c])

    Every value that crosses the boundary is lowercase hex text; the binary
    work is done by the cipher, hash and curve code of [monocypher.c].  The
    ciphers and hashes are the modelled ones ([Aead], [Blake2b]); the curve
    and Argon2 code is the interface [curves], a parameter of the builtins
    that call it ([X25519] models one of its operations). *)
From S2P Require Import Prelude Fmt O9Str Mono ChaCha Poly1305 Aead Blake2b.

Open Scope Z_scope.

(** ** The system's random device *)

(** What the two opens give, and the bytes that each read delivers (an empty
    read is an error or an end of file). *)
Record device := Device { dev_open : bool; dev_open2 : bool; dev_reads : list bytes }.

(** [for(got = 0; got < n; got += r)]. *)
Fixpoint read_loop (n : nat) (got : bytes) (reads : list bytes) : option bytes :=
  if decide (length got < n)%nat then
    match reads with
    | [] => None
    | c :: reads =>
        let r := take (n - length got) c in
        if decide (r = []) then None else read_loop n (got ++ r) reads
    end
  else Some got.

Definition o9_randbytes (d : device) (n : Z) : option bytes :=
  if decide (n < 0) then None
  else if dev_open d || dev_open2 d then read_loop (Z.to_nat n) [] (dev_reads d) else None.

(** A call's surroundings: the random device and which allocations succeed. *)
Record env := Env { e_dev : device; malloc : Z -> bool }.

Definition sizeof_string_header : Z := 24.

(** [o9_string_take], which allocates the header of the string. *)
Definition take_string (e : env) (s : option bytes) : ostring :=
  if malloc e sizeof_string_header then o9_string_take s else None.

(** [o9_string_new] of [len >= 0] bytes, which allocates the header and a
    copy of them. *)
Definition new_string (w : Z) (e : env) (data : bytes) (len : Z) : ostring :=
  match string_room w len with
  | Some cap => if malloc e sizeof_string_header && malloc e cap then o9_string_new w (Some data) len else None
  | None => None
  end.

(** ** Hex *)

Definition hexdig : bytes := str "0123456789abcdef".

Definition hex_digit (i : Z) : byte := default NUL (hexdig !! Z.to_nat i).

Definition tohex (inp : bytes) : bytes :=
  concat ((fun b => [hex_digit (Z.land (Z.shiftr (uchar b) 4) 15); hex_digit (Z.land (uchar b) 15)]) <$> inp).

Definition hexval (c : byte) : Z :=
  let c := schar c in
  if decide (48 <= c <= 57) then c - 48
  else if decide (97 <= c <= 102) then c - 97 + 10
  else if decide (65 <= c <= 70) then c - 65 + 10
  else -1.

(** The bytes decoded, at most [max]; [None] is the result -1.  The text is
    followed by a NUL. *)
Fixpoint fromhex (inp : bytes) (max : nat) : option bytes :=
  match max with
  | O => Some []
  | S max =>
      let c0 := default NUL (inp !! 0%nat) in
      if decide (c0 = NUL) then Some [] else
      let hi := hexval c0 in
      let lo := hexval (default NUL (inp !! 1%nat)) in
      if decide (hi < 0 \/ lo < 0) then None
      else cons (to_byte (Z.lor (Z.shiftl hi 4) lo)) <$> fromhex (drop 2 inp) max
  end.

(** [fromhex(s, buf, n) != n] is an error. *)
Definition fromhex_all (inp : bytes) (n : nat) : option bytes :=
  match fromhex inp n with
  | Some out => if decide (length out = n) then Some out else None
  | None => None
  end.

(** ** The curve functions *)

Class curves := {
  crypto_eddsa_key_pair : bytes -> bytes * bytes;             (* seed: secret key, public key *)
  crypto_eddsa_sign : bytes -> bytes -> bytes;                (* secret key, message *)
  crypto_eddsa_check : bytes -> bytes -> bytes -> Z;          (* signature, public key, message *)
  crypto_x25519_public_key : bytes -> bytes;
  crypto_x25519 : bytes -> bytes -> bytes;                    (* secret key, their public key *)
  crypto_argon2 : bytes -> bytes -> bytes;                    (* pass, salt; Argon2id, 65536 blocks, 3 passes, 1 lane, 32 bytes *)
}.

(** What their documentation promises. *)
Class curves_laws (cv : curves) : Prop := {
  key_pair_public : forall seed, length (crypto_eddsa_key_pair seed).2 = 32%nat;
  sign_length : forall sk m, length (crypto_eddsa_sign sk m) = 64%nat;
  sign_checks : forall seed m, let '(sk, pk) := crypto_eddsa_key_pair seed in
    crypto_eddsa_check (crypto_eddsa_sign sk m) pk m = 0;
  x25519_public_length : forall sk, length (crypto_x25519_public_key sk) = 32%nat;
  x25519_commutes : forall a b,
    crypto_x25519 a (crypto_x25519_public_key b) = crypto_x25519 b (crypto_x25519_public_key a);
  argon2_length : forall p s, length (crypto_argon2 p s) = 32%nat;
}.

Section builtins.
Context {cv : curves}.

(** ** Attestation *)

Definition o9_crypto_keypair (d : device) : option (bytes * bytes) :=
  match o9_randbytes d 32 with
  | None => None
  | Some seed =>
      let sec := tohex seed in
      let '(sk, pk) := crypto_eddsa_key_pair seed in Some (tohex pk, sec)
  end.

Definition o9_crypto_sign (sechex : bytes) (msg : bytes) : option bytes :=
  match fromhex_all sechex 32 with
  | None => None
  | Some seed =>
      let '(sk, pk) := crypto_eddsa_key_pair seed in Some (tohex (crypto_eddsa_sign sk msg))
  end.

Definition o9_crypto_verify (pubhex msg sighex : bytes) : Z :=
  match fromhex_all pubhex 32 with
  | None => -1
  | Some pk =>
      match fromhex_all sighex 64 with
      | None => -1
      | Some sg => if decide (crypto_eddsa_check sg pk msg = 0) then 1 else 0
      end
  end.

Definition o9_crypto_hash (msg : bytes) : bytes := tohex (crypto_blake2b 32 msg).

Definition o9_keygen (e : env) : ostring :=
  if malloc e 65 then
    match o9_randbytes (e_dev e) 32 with
    | None => None
    | Some seed => take_string e (Some (tohex seed))
    end
  else None.

Definition o9_pubkey (e : env) (sec : ostring) : ostring :=
  match sec with
  | None => None
  | Some csec =>
      match fromhex_all csec 32 with
      | None => None
      | Some seed =>
          if malloc e 65 then let '(sk, pk) := crypto_eddsa_key_pair seed in take_string e (Some (tohex pk)) else None
      end
  end.

Definition o9_sign (e : env) (sec msg : ostring) : ostring :=
  match sec, msg with
  | Some csec, Some cmsg =>
      if malloc e 129 then
        match o9_crypto_sign csec cmsg with Some sig => take_string e (Some sig) | None => None end
      else None
  | _, _ => None
  end.

Definition o9_verify (pub msg sig : ostring) : Z :=
  match pub, msg, sig with
  | Some cpub, Some cmsg, Some csig => o9_crypto_verify cpub cmsg csig
  | _, _, _ => -1
  end.

Definition o9_digest (e : env) (msg : ostring) : ostring :=
  match msg with
  | None => None
  | Some cmsg => if malloc e 65 then take_string e (Some (o9_crypto_hash cmsg)) else None
  end.

Definition o9_mac (e : env) (keyhex msg : ostring) : ostring :=
  match keyhex, msg with
  | Some ckey, Some cmsg =>
      match fromhex_all ckey 32 with
      | None => None
      | Some key => if malloc e 65 then take_string e (Some (tohex (crypto_blake2b_keyed 32 key cmsg))) else None
      end
  | _, _ => None
  end.

(** ** Confidentiality *)

(** [hex(nonce[24] || mac[16] || ciphertext)]. *)
Definition blob_text (nonce mac ct : bytes) : bytes := tohex nonce ++ tohex mac ++ tohex ct.

(** The common part of [o9_encrypt] and [o9_vault_seal]. *)
Definition seal_with (e : env) (key cmsg : bytes) : ostring :=
  let n := Z.of_nat (length cmsg) in
  if malloc e (if decide (n = 0) then 1 else n) && malloc e (2 * (24 + 16 + n) + 1) then
    match o9_randbytes (e_dev e) 24 with
    | None => None
    | Some nonce =>
        let '(ct, mac) := crypto_aead_lock key nonce [] cmsg in take_string e (Some (blob_text nonce mac ct))
    end
  else None.

Definition o9_encrypt (e : env) (keyhex msg : ostring) : ostring :=
  match keyhex, msg with
  | Some ckey, Some cmsg =>
      match fromhex_all ckey 32 with
      | None => None
      | Some key => seal_with e key cmsg
      end
  | _, _ => None
  end.

Section width.
Variable w : Z.

(** The common part of [o9_decrypt] and [o9_vault_open], after the key. *)
Definition open_with (e : env) (key cblob : bytes) : ostring :=
  let n := Z.of_nat (length cblob) / 2 in
  if malloc e n && malloc e (n - 40 + 1) then
    match fromhex_all cblob (Z.to_nat n) with
    | None => None
    | Some buf =>
        let nonce := take 24 buf in
        let mac := take 16 (drop 24 buf) in
        match crypto_aead_unlock mac key nonce [] (drop 40 buf) with
        | (0, Some pt) => new_string w e pt (n - 40)
        | _ => None
        end
    end
  else None.

Definition blob_shape (cblob : bytes) : bool :=
  let nb := Z.of_nat (length cblob) in negb (bool_decide (nb mod 2 <> 0 \/ nb / 2 < 24 + 16)).

Definition o9_decrypt (e : env) (keyhex blob : ostring) : ostring :=
  match keyhex, blob with
  | Some ckey, Some cblob =>
      if blob_shape cblob then
        match fromhex_all ckey 32 with
        | None => None
        | Some key => open_with e key cblob
        end
      else None
  | _, _ => None
  end.
End width.

(** ** Keys *)

Definition o9_passkey (e : env) (pass salt : ostring) : ostring :=
  match pass, salt with
  | Some cpass, Some csalt =>
      if decide (o9_string_len salt < 8) then None
      else if malloc e (65536 * 1024) && malloc e 65 then take_string e (Some (tohex (crypto_argon2 cpass csalt)))
      else None
  | _, _ => None
  end.

Definition o9_xpubkey (e : env) (sec : ostring) : ostring :=
  match sec with
  | None => None
  | Some csec =>
      match fromhex_all csec 32 with
      | None => None
      | Some sk => if malloc e 65 then take_string e (Some (tohex (crypto_x25519_public_key sk))) else None
      end
  end.

Definition o9_exchange (e : env) (sec pub : ostring) : ostring :=
  match sec, pub with
  | Some csec, Some cpub =>
      match fromhex_all csec 32, fromhex_all cpub 32 with
      | Some sk, Some pk =>
          let raw := crypto_x25519 sk pk in
          let z := foldl (fun z b => Z.lor z (uchar b)) 0 raw in
          if decide (z = 0) then None
          else if malloc e 65 then take_string e (Some (tohex (crypto_blake2b 32 raw))) else None
      | _, _ => None
      end
  | _, _ => None
  end.

Definition o9_salt (e : env) : ostring :=
  match o9_randbytes (e_dev e) 16 with
  | None => None
  | Some buf => if malloc e 33 then take_string e (Some (tohex buf)) else None
  end.
End builtins.

(** ** Lemmas on hex *)

Lemma hex_digit_in i : 0 <= i < 16 -> hex_digit i ∈ hexdig.
Proof.
  intros Hi. unfold hex_digit. destruct (lookup_lt_is_Some_2 hexdig (Z.to_nat i)) as [c Hc]; [cbn; lia|].
  rewrite Hc. by eapply list_elem_of_lookup_2.
Qed.

Lemma crypto_hexval_digit i : 0 <= i < 16 -> hexval (hex_digit i) = i /\ hex_digit i <> NUL.
Proof.
  intros Hi. assert (H : forallb (fun i => bool_decide (hexval (hex_digit i) = i /\ hex_digit i <> NUL)) (Z.of_nat <$> seq 0 16) = true)
    by (vm_compute; reflexivity).
  rewrite forallb_forall in H. specialize (H i). apply bool_decide_eq_true in H; [done|].
  apply list_elem_of_In, list_elem_of_fmap. exists (Z.to_nat i). split; [lia|]. apply elem_of_seq. lia.
Qed.

Lemma nibbles b : let x := uchar b in 0 <= Z.land (Z.shiftr x 4) 15 < 16 /\ 0 <= Z.land x 15 < 16 /\
  to_byte (Z.lor (Z.shiftl (Z.land (Z.shiftr x 4) 15) 4) (Z.land x 15)) = b.
Proof.
  cbv zeta. pose proof (uchar_range b). change 15 with (Z.ones 4). rewrite !Z.land_ones, Z.shiftr_div_pow2 by lia.
  change (2 ^ 4) with 16. pose proof (Z.mod_pos_bound (uchar b / 16) 16). pose proof (Z.mod_pos_bound (uchar b) 16).
  split_and!; try lia. rewrite Z.lor_comm, lor_add by lia. change (2 ^ 4) with 16.
  rewrite (Z.mod_small (uchar b / 16)) by (split; [apply Z.div_pos; lia|apply Z.div_lt_upper_bound; lia]).
  rewrite <- (to_byte_uchar b) at 3. f_equal. pose proof (Z.div_mod (uchar b) 16). lia.
Qed.

Lemma tohex_cons b s : tohex (b :: s) = hex_digit (Z.land (Z.shiftr (uchar b) 4) 15) :: hex_digit (Z.land (uchar b) 15) :: tohex s.
Proof. done. Qed.

Lemma tohex_app s t : tohex (s ++ t) = tohex s ++ tohex t.
Proof. unfold tohex. by rewrite fmap_app, concat_app. Qed.

Lemma tohex_length s : length (tohex s) = (2 * length s)%nat.
Proof. induction s as [|b s IH]; [done|]. rewrite tohex_cons. cbn [length]. lia. Qed.

Lemma tohex_chars s : Forall (fun c => c ∈ hexdig) (tohex s).
Proof.
  induction s as [|b s IH]; [constructor|]. rewrite tohex_cons. destruct (nibbles b) as (H1 & H2 & _).
  by apply Forall_cons; split; [apply hex_digit_in|apply Forall_cons; split; [apply hex_digit_in|]].
Qed.

Lemma tohex_cstr s : is_cstr (tohex s).
Proof.
  intros Hin. pose proof (tohex_chars s) as H. rewrite Forall_forall in H. apply H in Hin.
  revert Hin. apply (bool_decide_unpack (~ NUL ∈ hexdig)). by vm_compute.
Qed.

Lemma take_tohex e s : (forall n, malloc e n = true) -> take_string e (Some (tohex s)) = Some (tohex s).
Proof. intros Hm. unfold take_string. rewrite Hm. cbn. by rewrite cstr_id by apply tohex_cstr. Qed.

(** Decoding what was encoded. *)
Lemma fromhex_tohex s max : (length s <= max)%nat -> fromhex (tohex s) max = Some s.
Proof.
  revert max. induction s as [|b s IH]; intros [|max] H; simpl in H; try lia; [done|done|].
  destruct (nibbles b) as (H1 & H2 & H3). destruct (crypto_hexval_digit _ H1) as [V1 N1]. destruct (crypto_hexval_digit _ H2) as [V2 _].
  rewrite tohex_cons. cbn [fromhex lookup list_lookup default from_option id drop]. rewrite decide_False by done.
  rewrite V1, V2, decide_False by lia. rewrite IH by lia. cbn [fmap option_fmap option_map]. by rewrite H3.
Qed.

Lemma fromhex_all_tohex s n : n = length s -> fromhex_all (tohex s) n = Some s.
Proof. intros ->. unfold fromhex_all. rewrite fromhex_tohex by done. by rewrite decide_True. Qed.

Lemma fromhex_all_length t n s : fromhex_all t n = Some s -> length s = n.
Proof. unfold fromhex_all. destruct (fromhex t n); [|done]. case_decide; [|done]. by intros [= <-]. Qed.

(** ** Lemmas on the random device *)

Lemma read_loop_length n got reads out : (length got <= n)%nat -> read_loop n got reads = Some out -> length out = n.
Proof.
  revert got. induction reads as [|c reads IH]; intros got Hg; simpl; case_decide as D; try done.
  - intros [= <-]. lia.
  - case_decide; [done|]. apply IH. rewrite length_app, length_take. lia.
  - intros [= <-]. lia.
Qed.

Lemma randbytes_length d n out : o9_randbytes d n = Some out -> length out = Z.to_nat n.
Proof.
  unfold o9_randbytes. case_decide; [done|]. destruct (_ || _); [|done]. apply read_loop_length. simpl. lia.
Qed.

(** ** Sealed blobs *)

Section sealed.
Context (w : Z) (Hw : w = 32 \/ w = 64).

(** What a decoded blob opens to. *)
Definition open_ref (key buf : bytes) : option bytes :=
  let ctx := crypto_aead_init_x key (take 24 buf) in
  let ct := drop 40 buf in
  if decide (take 16 (drop 24 buf) = tag ctx [] ct) then Some (xor_bytes ct (text_stream ctx (length ct))) else None.

(** What a text opens to. *)
Definition open_text (key cblob : bytes) : option bytes :=
  if decide (length cblob mod 2 = 0 /\ 80 <= length cblob)%nat then
    buf ← fromhex_all cblob (length cblob / 2); open_ref key buf
  else None.

Lemma size_ok_nil : size_ok [].
Proof. done. Qed.

Lemma blob_shape_spec cblob : blob_shape cblob = bool_decide (length cblob mod 2 = 0 /\ 80 <= length cblob)%nat.
Proof.
  unfold blob_shape. rewrite <- bool_decide_not. apply bool_decide_ext.
  pose proof (Nat.div_mod (length cblob) 2 ltac:(lia)). pose proof (Z.div_mod (Z.of_nat (length cblob)) 2 ltac:(lia)).
  pose proof (Nat.mod_upper_bound (length cblob) 2 ltac:(lia)). pose proof (Z.mod_pos_bound (Z.of_nat (length cblob)) 2 ltac:(lia)). lia.
Qed.

Lemma half_nat n : Z.to_nat (Z.of_nat n / 2) = (n / 2)%nat.
Proof. change 2 with (Z.of_nat 2). by rewrite <- Nat2Z.inj_div, Nat2Z.id. Qed.

Lemma new_string_ok e d len : (forall n, malloc e n = true) -> 0 <= len < LIMIT w ->
  new_string w e d len = Some (take (Z.to_nat len) d).
Proof.
  intros Hm Hl. unfold new_string. destruct (string_room_some w len Hw Hl) as [cap ->]. rewrite !Hm.
  by apply string_new_ok.
Qed.

Lemma open_with_spec e key cblob : (forall n, malloc e n = true) -> blob_shape cblob = true ->
  Z.of_nat (length cblob) < LIMIT w -> open_with w e key cblob = open_text key cblob.
Proof.
  intros Hm Hs Hl. unfold LIMIT in Hl. unfold open_text. rewrite blob_shape_spec in Hs. apply bool_decide_eq_true in Hs.
  rewrite decide_True by done. unfold open_with. rewrite !Hm, half_nat. cbn [andb].
  destruct (fromhex_all cblob _) as [buf|] eqn:E; [|done]. apply fromhex_all_length in E. cbn [mbind option_bind].
  pose proof (Nat.div_mod (length cblob) 2 ltac:(lia)) as Hd. unfold crypto_aead_unlock.
  assert (H40 : length (drop 40 buf) = (length cblob / 2 - 40)%nat) by (rewrite length_drop; lia).
  rewrite read_spec; [|apply init_x_ok|rewrite length_take, length_drop; lia|done|unfold size_ok; lia].
  unfold open_ref. destruct (decide (take 16 (drop 24 buf) = _)); [|done].
  pose proof (Nat2Z.inj_div (length cblob) 2) as Hz. change (Z.of_nat 2) with 2 in Hz.
  rewrite new_string_ok; [|done|unfold LIMIT; lia].
  f_equal. apply take_ge. rewrite text_length. pose proof (half_nat (length cblob)). lia.
Qed.

Lemma seal_with_spec e key m nonce : (forall n, malloc e n = true) -> o9_randbytes (e_dev e) 24 = Some nonce -> size_ok m ->
  exists ct mac, crypto_aead_lock key nonce [] m = (ct, mac) /\ length ct = length m /\ length mac = 16%nat /\
    seal_with e key m = Some (tohex (nonce ++ mac ++ ct)).
Proof.
  intros Hm Hn Hs. pose proof (write_spec _ (init_x_ok key nonce) [] m size_ok_nil Hs) as Hwr. cbv zeta in Hwr.
  unfold seal_with. rewrite !Hm, Hn. cbn [andb]. unfold crypto_aead_lock. rewrite Hwr.
  eexists _, _. split; [done|]. split; [apply text_length|]. split; [apply tag_length|].
  unfold blob_text. rewrite <- !tohex_app. by apply take_tohex.
Qed.

Lemma lock_length key nonce m ct mac : size_ok m -> crypto_aead_lock key nonce [] m = (ct, mac) ->
  length ct = length m /\ length mac = 16%nat /\
  open_ref key (nonce ++ mac ++ ct) = (if decide (length nonce = 24%nat) then Some m else open_ref key (nonce ++ mac ++ ct)).
Proof.
  intros Hs. pose proof (write_spec _ (init_x_ok key nonce) [] m size_ok_nil Hs) as Hwr. cbv zeta in Hwr.
  unfold crypto_aead_lock. rewrite Hwr. intros [= <- <-]. split; [apply text_length|]. split; [apply tag_length|].
  case_decide as Hn; [|done]. unfold open_ref. rewrite take_app_length' by done.
  rewrite (drop_app_length' nonce) by done. rewrite take_app_length' by (symmetry; apply tag_length).
  match goal with |- context [nonce ++ ?mac ++ ?ct] => rewrite (app_assoc nonce mac ct) end.
  rewrite drop_app_length' by (rewrite length_app, tag_length; lia).
  rewrite decide_True by done. f_equal. apply text_twice.
Qed.

Lemma open_text_sealed key nonce m ct mac : size_ok m -> length nonce = 24%nat -> crypto_aead_lock key nonce [] m = (ct, mac) ->
  open_text key (tohex (nonce ++ mac ++ ct)) = Some m.
Proof.
  intros Hs Hn Hl. destruct (lock_length _ _ _ _ _ Hs Hl) as (Hc & Hmac & Ho). rewrite decide_True in Ho by done.
  unfold open_text. rewrite tohex_length, !length_app, Hn, Hmac, Hc.
  rewrite decide_True by (split; [rewrite Nat.mul_comm; apply Nat.Div0.mod_mul|lia]).
  rewrite Nat.mul_comm, Nat.div_mul by lia. rewrite fromhex_all_tohex by (rewrite !length_app; lia). done.
Qed.

Lemma seal_open e e' key m nonce : (forall n, malloc e n = true) -> (forall n, malloc e' n = true) ->
  o9_randbytes (e_dev e) 24 = Some nonce -> 80 + 2 * Z.of_nat (length m) < LIMIT w ->
  exists blob, seal_with e key m = Some blob /\ length blob = (80 + 2 * length m)%nat /\
    Forall (fun c => c ∈ hexdig) blob /\ blob_shape blob = true /\ open_with w e' key blob = Some m.
Proof.
  intros Hm Hm' Hn Hl. assert (Hs : size_ok m) by (unfold size_ok, LIMIT in *; lia).
  pose proof (randbytes_length _ _ _ Hn) as Hnl. change (Z.to_nat 24) with 24%nat in Hnl.
  destruct (seal_with_spec e key m nonce Hm Hn Hs) as (ct & mac & Hlock & Hc & Hmac & Hseal).
  exists (tohex (nonce ++ mac ++ ct)).
  assert (Hlen : length (tohex (nonce ++ mac ++ ct)) = (80 + 2 * length m)%nat) by (rewrite tohex_length, !length_app; lia).
  assert (Hshape : blob_shape (tohex (nonce ++ mac ++ ct)) = true).
  { rewrite blob_shape_spec, Hlen. apply bool_decide_eq_true. split; [|lia].
    replace (80 + 2 * length m)%nat with ((40 + length m) * 2)%nat by lia. apply Nat.Div0.mod_mul. }
  split_and!; [done|done|apply tohex_chars|done|].
  rewrite open_with_spec by (done || (rewrite Hlen; lia)). by apply open_text_sealed.
Qed.
End sealed.

(** ** Properties *)

(** When the random device delivers and the allocations succeed, what
    [encrypt] returns is lowercase hex of a length that depends only on the
    message's, and [decrypt] with any text of the same key gives the message
    back, byte for byte (NULs included). *)
Theorem encrypt_decrypt `{cv : curves} w e k k' key m nonce : w = 32 \/ w = 64 -> (forall n, malloc e n = true) ->
  o9_randbytes (e_dev e) 24 = Some nonce -> fromhex_all k 32 = Some key -> fromhex_all k' 32 = Some key ->
  80 + 2 * Z.of_nat (length m) < LIMIT w ->
  exists blob, o9_encrypt e (Some k) (Some m) = Some blob /\
    length blob = (80 + 2 * length m)%nat /\ Forall (fun c => c ∈ hexdig) blob /\
    o9_decrypt w e (Some k') (Some blob) = Some m.
Proof.
  intros Hw Hm Hn Hk Hk' Hl. destruct (seal_open w Hw e e key m nonce Hm Hm Hn Hl) as (blob & H1 & H2 & H3 & H4 & H5).
  exists blob. unfold o9_encrypt, o9_decrypt. rewrite Hk, H4, Hk'. done.
Qed.

(** C17: [decrypt] never returns anything else than an authentic text.  When
    the allocations succeed, its result is the text if and only if the key
    decodes to 32 bytes, the blob is hex of an even length of at least 80
    digits, and its tag is the authenticator's for that key and nonce; a nil
    argument, a malformed key, a truncated or odd blob, a character that is
    not hex, a wrong key or a changed byte all give nil. *)
Theorem decrypt_exact `{cv : curves} w e (k b : ostring) : w = 32 \/ w = 64 -> (forall n, malloc e n = true) ->
  o9_string_len b < LIMIT w ->
  o9_decrypt w e k b =
  match k, b with
  | Some ck, Some cb => key ← fromhex_all ck 32; open_text key cb
  | _, _ => None
  end.
Proof.
  intros Hw Hm Hl. destruct k as [ck|], b as [cb|]; try done. unfold o9_decrypt.
  destruct (blob_shape cb) eqn:Hs.
  - destruct (fromhex_all ck 32) as [key|]; [|done]. cbn [mbind option_bind]. by apply open_with_spec.
  - rewrite blob_shape_spec in Hs. apply bool_decide_eq_false in Hs. destruct (fromhex_all ck 32) as [key|]; [|done].
    cbn [mbind option_bind]. unfold open_text. by rewrite decide_False.
Qed.

(** A signature made with a generated seed verifies under the public key
    that [pubkey] derives from that seed, over the very bytes signed; and
    [verify] answers -1 exactly when the key or the signature is not hex of
    its length, whatever the curve code does. *)
Theorem sign_verify (cv : curves) {Hcv : curves_laws cv} e seed m : (forall n, malloc e n = true) -> length seed = 32%nat ->
  (exists pub sig, o9_pubkey e (Some (tohex seed)) = Some pub /\ o9_sign e (Some (tohex seed)) (Some m) = Some sig /\
     o9_verify (Some pub) (Some m) (Some sig) = 1) /\
  (forall p s, o9_verify (Some p) (Some m) (Some s) = -1 <-> fromhex_all p 32 = None \/ fromhex_all s 64 = None).
Proof.
  intros Hm Hs. split.
  - unfold o9_pubkey, o9_sign, o9_verify, o9_crypto_sign, o9_crypto_verify. rewrite fromhex_all_tohex by done. rewrite !Hm.
    pose proof (sign_checks seed m) as Hc. pose proof (key_pair_public seed) as Hp.
    destruct (crypto_eddsa_key_pair seed) as [sk pk]. cbn [snd] in Hp. rewrite !take_tohex by done.
    exists (tohex pk), (tohex (crypto_eddsa_sign sk m)). split; [done|]. split; [done|].
    rewrite !fromhex_all_tohex by (rewrite ?sign_length; done). by rewrite decide_True.
  - intros p s. unfold o9_verify, o9_crypto_verify. destruct (fromhex_all p 32); [|naive_solver].
    destruct (fromhex_all s 64); [case_decide; naive_solver|naive_solver].
Qed.

(** The two sides of a key exchange agree: from each other's public keys
    [exchange] returns the same result to both, nil for both when the raw
    secret is all zero. *)
Theorem exchange_agrees (cv : curves) {Hcv : curves_laws cv} e a b : (forall n, malloc e n = true) -> length a = 32%nat -> length b = 32%nat ->
  o9_exchange e (Some (tohex a)) (o9_xpubkey e (Some (tohex b))) = o9_exchange e (Some (tohex b)) (o9_xpubkey e (Some (tohex a))).
Proof.
  intros Hm Ha Hb. unfold o9_xpubkey, o9_exchange. rewrite !fromhex_all_tohex, !Hm, !take_tohex by done.
  rewrite !fromhex_all_tohex by (by rewrite x25519_public_length). by rewrite x25519_commutes.
Qed.

(** *** Witnesses *)

(** Curve functions of a group in which the laws hold. *)
#[local] Instance toy_curves : curves := {
  crypto_eddsa_key_pair seed := (take 32 (seed ++ replicate 32 x00), take 32 (seed ++ replicate 32 x00));
  crypto_eddsa_sign sk m := take 64 (sk ++ m ++ replicate 64 x00);
  crypto_eddsa_check sg pk m := if decide (sg = take 64 (pk ++ m ++ replicate 64 x00)) then 0 else -1;
  crypto_x25519_public_key sk := take 32 (sk ++ replicate 32 x00);
  crypto_x25519 sk pk := xor_bytes (take 32 (sk ++ replicate 32 x00)) (take 32 (pk ++ replicate 32 x00));
  crypto_argon2 p s := take 32 (p ++ s ++ replicate 32 x00);
}.

Lemma padded_length n (s : bytes) : length (take n (s ++ replicate n x00)) = n.
Proof. rewrite length_take, length_app, length_replicate. lia. Qed.

Lemma padded_twice n (s : bytes) : take n (take n (s ++ replicate n x00) ++ replicate n x00) = take n (s ++ replicate n x00).
Proof. apply take_app_length'. by rewrite padded_length. Qed.

#[local] Instance toy_laws : curves_laws toy_curves.
Proof.
  split; intros; cbn [toy_curves crypto_eddsa_key_pair crypto_eddsa_sign crypto_eddsa_check crypto_x25519_public_key crypto_x25519 crypto_argon2 snd].
  - apply padded_length.
  - rewrite length_take, !length_app, length_replicate. lia.
  - by rewrite decide_True.
  - apply padded_length.
  - rewrite !padded_twice. apply xor_bytes_comm.
  - rewrite length_take, !length_app, length_replicate. lia.
Qed.

Definition good_env : env := Env (Device true true [replicate 10 x41; replicate 30 x42]) (fun _ => true).

Lemma encrypt_decrypt_witness :
  exists blob, o9_encrypt good_env (Some (tohex (replicate 32 x07))) (Some (str "secret")) = Some blob /\
    o9_decrypt 64 good_env (Some (tohex (replicate 32 x07))) (Some blob) = Some (str "secret").
Proof.
  destruct (encrypt_decrypt 64 good_env (tohex (replicate 32 x07)) (tohex (replicate 32 x07)) (replicate 32 x07) (str "secret")
    (replicate 10 x41 ++ replicate 14 x42)) as (blob & H1 & _ & _ & H2); [by right|done|reflexivity|reflexivity|reflexivity|by vm_compute|].
  by exists blob.
Defined.

Lemma decrypt_exact_witness :
  o9_decrypt 64 good_env (Some (tohex (replicate 32 x07))) (Some (tohex (replicate 41 x55))) = None.
Proof.
  rewrite (decrypt_exact 64 good_env (Some (tohex (replicate 32 x07))) (Some (tohex (replicate 41 x55)))); [|by right|done|by vm_compute].
  vm_compute. reflexivity.
Defined.

Lemma sign_verify_witness : length (replicate 32 x07) = 32%nat /\
  o9_verify (Some (str "zz")) (Some (str "m")) (Some (str "00")) = -1.
Proof.
  split; [reflexivity|]. apply (proj2 (sign_verify toy_curves good_env (replicate 32 x07) (str "m") (fun _ => eq_refl) eq_refl)).
  left. reflexivity.
Defined.

Lemma exchange_agrees_witness :
  o9_exchange good_env (Some (tohex (replicate 32 x07))) (o9_xpubkey good_env (Some (tohex (replicate 32 x09)))) =
  o9_exchange good_env (Some (tohex (replicate 32 x09))) (o9_xpubkey good_env (Some (tohex (replicate 32 x07)))).
Proof. exact (exchange_agrees toy_curves good_env (replicate 32 x07) (replicate 32 x09) (fun _ => eq_refl) eq_refl eq_refl). Defined.
