(* ===== verification/Vault.v ===== *)
(** * The vault ([o9_vault_*] in [o9_crypto.c])

    An arena of 64 slots, each a named secret sealed under the arena's key
    with a nonce of its own.  Storing a vault's contents in files and tables
    ([o9_vault_seal_file] and the like) is not modelled. *)
From S2P Require Import Prelude Fmt O9Str Mono ChaCha Poly1305 Aead Blake2b Crypto.

Open Scope Z_scope.

(** ** State *)

Record slot := Slot {
  s_name : bytes;            (* the C string in [name[64]] *)
  s_nonce : bytes;
  s_mac : bytes;
  s_ct : option bytes;       (* [None]: nil *)
  s_nct : Z;
  s_used : bool;
}.

Record arena := Arena {
  ar_key : bytes;
  ar_salt : bytes;
  ar_has_salt : bool;
  ar_valid : bool;
  ar_slots : list slot;
  ar_nslots : Z;
}.

(** A vault, or nil; a vault without an arena is treated as nil is. *)
Abbreviation vault := (option arena).

Definition O9ArenaMaxSlots : nat := 64.

(** Memory of zeros, from [mallocz] or [crypto_wipe]. *)
Definition slot0 : slot := Slot [] (replicate 24 NUL) (replicate 16 NUL) None 0 false.
Definition arena0 : arena := Arena (replicate 32 NUL) [] false false (replicate O9ArenaMaxSlots slot0) 0.

Definition sizeof_vault : Z := 8.
Definition sizeof_arena : Z := 8376.

Definition set_key (key salt : bytes) (has_salt : bool) (a : arena) : arena :=
  Arena key salt has_salt true (ar_slots a) (ar_nslots a).

Definition set_slots (slots : list slot) (nslots : Z) (a : arena) : arena :=
  Arena (ar_key a) (ar_salt a) (ar_has_salt a) (ar_valid a) slots nslots.

Section vaults.
Context {cv : curves}.

(** ** Construction *)

(** [None] is the result -1; the arguments are C strings. *)
Definition derive_vault_key (e : env) (pass salt : bytes) : option bytes :=
  if malloc e (65536 * 1024) then Some (crypto_argon2 (cstr pass) (cstr salt)) else None.

Definition o9_vault_new (e : env) : vault :=
  if malloc e sizeof_vault && malloc e sizeof_arena then
    match o9_randbytes (e_dev e) 32 with
    | None => None
    | Some key => Some (set_key key [] false arena0)
    end
  else None.

Definition israwhex (ckey : bytes) : bool :=
  bool_decide (length ckey = 64%nat /\ Forall (fun c => 0 <= hexval c) ckey).

Definition o9_vault_new_key (e : env) (keyhex : ostring) : vault :=
  match keyhex with
  | None => None
  | Some k =>
      if decide (k = []) then None else
      if malloc e (Z.of_nat (length k) + 1) && malloc e sizeof_vault && malloc e sizeof_arena then
        let ckey := cstr k in
        if israwhex ckey then
          match fromhex_all ckey 32 with
          | None => None
          | Some key => Some (set_key key [] false arena0)
          end
        else
          match o9_randbytes (e_dev e) 16 with
          | None => None
          | Some rawsalt =>
              let salt := tohex rawsalt in
              match derive_vault_key e ckey salt with
              | None => None
              | Some key => Some (set_key key salt true arena0)
              end
          end
      else None
  end.

Definition o9_vault_new_pass (e : env) (pass salt : ostring) : vault :=
  match pass, salt with
  | Some p, Some s =>
      if decide (o9_string_len salt < 8 \/ 128 <= o9_string_len salt) then None else
      if malloc e (Z.of_nat (length p) + 1) && malloc e (Z.of_nat (length s) + 1)
         && malloc e sizeof_vault && malloc e sizeof_arena then
        match derive_vault_key e p s with
        | None => None
        | Some key => Some (set_key key (strncpy 128 s) true arena0)
        end
      else None
  | _, _ => None
  end.

(** ** Questions about the key *)

Definition live (v : vault) : option arena :=
  match v with Some a => if ar_valid a then Some a else None | None => None end.

Definition o9_vault_valid (v : vault) : Z := match live v with Some _ => 1 | None => 0 end.

Definition o9_vault_salt (w : Z) (v : vault) : ostring :=
  match live v with
  | Some a => if ar_has_salt a then o9_string_from_c w (Some (ar_salt a)) else o9_string_from_c w (Some [])
  | None => o9_string_from_c w (Some [])
  end.

Definition o9_vault_seal (e : env) (v : vault) (msg : ostring) : ostring :=
  match live v, msg with
  | Some a, Some cmsg => seal_with e (ar_key a) cmsg
  | _, _ => None
  end.

Definition o9_vault_open (w : Z) (e : env) (v : vault) (blob : ostring) : ostring :=
  match live v, blob with
  | Some a, Some cblob => if blob_shape cblob then open_with w e (ar_key a) cblob else None
  | _, _ => None
  end.

(** ** Slots *)

Definition holds (cname : bytes) (s : slot) : Prop := s_used s = true /\ s_name s = cname.
#[export] Instance holds_dec cname s : Decision (holds cname s).
Proof. unfold holds. apply _. Defined.

(** The first used slot of that name, the first free slot. *)
Definition find_slot (cname : bytes) (slots : list slot) : option nat := fst <$> list_find (holds cname) slots.
Definition free_slot (slots : list slot) : option nat := fst <$> list_find (fun s => s_used s = false) slots.

Definition slot_at (slots : list slot) (i : nat) : slot := default slot0 (slots !! i).

(** The part of [put] that follows the choice of the slot [idx].  When it
    fails, the slot is no longer used (its nonce, which may be partly
    overwritten, is then not read). *)
Definition store_slot (e : env) (a : arena) (idx : nat) (cname cpt : bytes) : Z * arena :=
  let s := slot_at (ar_slots a) idx in
  let nslots := if s_used s then ar_nslots a else ar_nslots a + 1 in
  let n := Z.of_nat (length cpt) in
  match (if malloc e (if decide (n = 0) then 1 else n) then o9_randbytes (e_dev e) 24 else None) with
  | None =>
      let s := Slot (s_name s) (s_nonce s) (s_mac s) None (s_nct s) false in
      (-1, set_slots (<[idx := s]> (ar_slots a)) (nslots - 1) a)
  | Some nonce =>
      let '(ct, mac) := crypto_aead_lock (ar_key a) nonce [] cpt in
      let s := Slot (strncpy 64 cname) nonce mac (Some ct) n true in
      (0, set_slots (<[idx := s]> (ar_slots a)) nslots a)
  end.

Definition o9_vault_put (e : env) (v : vault) (name plaintext : ostring) : Z * vault :=
  match live v, name, plaintext with
  | Some a, Some nm, Some pt =>
      if malloc e (Z.of_nat (length nm) + 1) && malloc e (Z.of_nat (length pt) + 1) then
        let cname := cstr nm in
        let cpt := cstr pt in
        if decide (64 <= length cname)%nat then (-1, v) else
        let idx := match find_slot cname (ar_slots a) with Some i => Some i | None => free_slot (ar_slots a) end in
        match idx with
        | None => (-1, v)
        | Some idx => let '(r, a') := store_slot e a idx cname cpt in (r, Some a')
        end
      else (-1, v)
  | _, _, _ => (-1, v)
  end.

Definition o9_vault_get (e : env) (v : vault) (name : ostring) : ostring :=
  match live v, name with
  | Some a, Some nm =>
      if malloc e (Z.of_nat (length nm) + 1) then
        match find_slot (cstr nm) (ar_slots a) with
        | None => None
        | Some i =>
            let s := slot_at (ar_slots a) i in
            match s_ct s with
            | None => None
            | Some ct =>
                if malloc e (s_nct s + 1) then
                  match crypto_aead_unlock (s_mac s) (ar_key a) (s_nonce s) [] ct with
                  | (0, Some pt) => take_string e (Some pt)
                  | _ => None
                  end
                else None
            end
        end
      else None
  | _, _ => None
  end.

Definition o9_vault_has (e : env) (v : vault) (name : ostring) : Z :=
  match live v, name with
  | Some a, Some nm =>
      if malloc e (Z.of_nat (length nm) + 1) then
        match find_slot (cstr nm) (ar_slots a) with Some _ => 1 | None => 0 end
      else 0
  | _, _ => 0
  end.

Definition o9_vault_drop (e : env) (v : vault) (name : ostring) : Z * vault :=
  match live v, name with
  | Some a, Some nm =>
      if malloc e (Z.of_nat (length nm) + 1) then
        match find_slot (cstr nm) (ar_slots a) with
        | None => (0, v)
        | Some i => (1, Some (set_slots (<[i := slot0]> (ar_slots a)) (ar_nslots a - 1) a))
        end
      else (0, v)
  | _, _ => (0, v)
  end.

Definition o9_vault_wipe (v : vault) : vault :=
  match v with
  | None => None
  | Some a => Some (Arena (replicate 32 NUL) [] false false (replicate O9ArenaMaxSlots slot0) 0)
  end.
End vaults.

(** ** Specification: a bounded map from names to secrets *)

(** [None]: wiped. *)
Abbreviation vmap := (option (gmap bytes bytes)).

Inductive vault_op :=
  | VPut (e : env) (name plaintext : bytes)
  | VGet (e : env) (name : bytes)
  | VHas (e : env) (name : bytes)
  | VDrop (e : env) (name : bytes)
  | VWipe.

Inductive vault_ret := RInt (r : Z) | RStr (s : ostring) | RVoid.

Definition vault_do (v : vault) (op : vault_op) : vault_ret * vault :=
  match op with
  | VPut e name pt => let '(r, v) := o9_vault_put e v (Some name) (Some pt) in (RInt r, v)
  | VGet e name => (RStr (o9_vault_get e v (Some name)), v)
  | VHas e name => (RInt (o9_vault_has e v (Some name)), v)
  | VDrop e name => let '(r, v) := o9_vault_drop e v (Some name) in (RInt r, v)
  | VWipe => (RVoid, o9_vault_wipe v)
  end.

Definition copied (e : env) (s : bytes) : bool := malloc e (Z.of_nat (length s) + 1).

Definition room_for (e : env) (cpt : bytes) : bool :=
  malloc e (if decide (Z.of_nat (length cpt) = 0) then 1 else Z.of_nat (length cpt)) &&
  bool_decide (is_Some (o9_randbytes (e_dev e) 24)).

(** A string that [o9_string_take] returns. *)
Definition returned (e : env) (s : bytes) : bool := copied e s && malloc e sizeof_string_header.

(** The five operations on the map.  Storing takes a name of at most 63
    bytes and a free place, if the name is new, and memory and random bytes
    for the new secret.  A vault is to be a map on which an operation that
    fails has no effect, [vmap_do false]; the code forgets the stored secret
    of the name when it cannot store the new one, [vmap_do true]. *)
Definition vmap_do (forgets : bool) (m : vmap) (op : vault_op) : vault_ret * vmap :=
  match op, m with
  | VPut e name pt, Some m =>
      if copied e name && copied e pt && bool_decide (length (cstr name) < 64)%nat &&
         bool_decide (is_Some (m !! cstr name) \/ size m < O9ArenaMaxSlots)%nat then
        if room_for e (cstr pt) then (RInt 0, Some (<[cstr name := cstr pt]> m))
        else (RInt (-1), Some (if forgets then delete (cstr name) m else m))
      else (RInt (-1), Some m)
  | VPut _ _ _, None => (RInt (-1), None)
  | VGet e name, Some m =>
      (RStr (if copied e name then pt ← m !! cstr name; if returned e pt then Some pt else None else None), Some m)
  | VGet _ _, None => (RStr None, None)
  | VHas e name, Some m => (RInt (if copied e name && bool_decide (is_Some (m !! cstr name)) then 1 else 0), Some m)
  | VHas _ _, None => (RInt 0, None)
  | VDrop e name, Some m =>
      if copied e name && bool_decide (is_Some (m !! cstr name)) then (RInt 1, Some (delete (cstr name) m)) else (RInt 0, Some m)
  | VDrop _ _, None => (RInt 0, None)
  | VWipe, _ => (RVoid, None)
  end.

(** An update of a stored name that fails for want of memory or of random
    bytes for the new secret. *)
Definition failed_update (m : vmap) (op : vault_op) : Prop :=
  match op, m with
  | VPut e name pt, Some m =>
      copied e name && copied e pt = true /\ (length (cstr name) < 64)%nat /\ is_Some (m !! cstr name) /\
      room_for e (cstr pt) = false
  | _, _ => False
  end.

(** None happens in a run of the map. *)
Fixpoint no_failed_update (m : vmap) (ops : list vault_op) : Prop :=
  match ops with
  | [] => True
  | op :: ops => ~ failed_update m op /\ no_failed_update (vmap_do false m op).2 ops
  end.

(** ** The contents of an arena *)

Definition slot_text (key : bytes) (s : slot) : option bytes :=
  ct ← s_ct s;
  match crypto_aead_unlock (s_mac s) key (s_nonce s) [] ct with (0, Some pt) => Some pt | _ => None end.

Definition entry (key : bytes) (s : slot) : option (bytes * bytes) :=
  if s_used s then pt ← slot_text key s; Some (s_name s, pt) else None.

Definition entries (a : arena) : list (bytes * bytes) := omap (entry (ar_key a)) (ar_slots a).
Definition contents (a : arena) : gmap bytes bytes := list_to_map (entries a).

Definition slot_ok (key : bytes) (s : slot) : Prop := s_used s = true ->
  is_cstr (s_name s) /\ (length (s_name s) < 64)%nat /\
  exists pt, slot_text key s = Some pt /\ is_cstr pt /\ s_nct s = Z.of_nat (length pt).

Record arena_ok (a : arena) : Prop := ArenaOk {
  ok_slots : length (ar_slots a) = O9ArenaMaxSlots;
  ok_each : Forall (slot_ok (ar_key a)) (ar_slots a);
  ok_names : NoDup (entries a).*1;
  ok_count : ar_nslots a = Z.of_nat (length (entries a));
}.

(** A vault and the map it stands for. *)
Definition stands (v : vault) (m : vmap) : Prop :=
  match live v, m with
  | Some a, Some m => arena_ok a /\ m = contents a
  | None, None => True
  | _, _ => False
  end.

(** ** Lemmas *)

Lemma set_slots_key slots n a : ar_key (set_slots slots n a) = ar_key a.
Proof. done. Qed.

Section one_slot.
Context (a : arena) (Ha : arena_ok a).
Context (i : nat) (s : slot) (Hi : ar_slots a !! i = Some s).

Let rest : list (bytes * bytes) := omap (entry (ar_key a)) (delete i (ar_slots a)).

Lemma entries_split : entries a ≡ₚ option_list (entry (ar_key a) s) ++ rest.
Proof.
  unfold entries. rewrite (delete_Permutation _ _ _ Hi). cbn [omap list_omap]. by destruct (entry _ s).
Qed.

Lemma delete_insert_slot (l : list slot) s' : delete i (<[i := s']> l) = delete i l.
Proof. rewrite !delete_take_drop. by rewrite take_insert_ge, drop_insert_lt by lia. Qed.

Lemma entries_insert s' n : entries (set_slots (<[i := s']> (ar_slots a)) n a) ≡ₚ option_list (entry (ar_key a) s') ++ rest.
Proof.
  unfold entries. cbn [set_slots ar_slots ar_key].
  assert (Hi' : <[i := s']> (ar_slots a) !! i = Some s') by (apply list_lookup_insert_eq; by eapply lookup_lt_Some).
  rewrite (delete_Permutation _ _ _ Hi'), delete_insert_slot. cbn [omap list_omap]. by destruct (entry _ s').
Qed.

Lemma rest_nodup : NoDup rest.*1.
Proof. pose proof (ok_names _ Ha) as H. rewrite entries_split, fmap_app in H. by apply NoDup_app in H as (_ & _ & ?). Qed.

Lemma contents_split : contents a = list_to_map (option_list (entry (ar_key a) s) ++ rest).
Proof. unfold contents. apply list_to_map_proper; [apply (ok_names _ Ha)|apply entries_split]. Qed.

(** The slot is replaced by another, whose name is not that of a third. *)
Lemma arena_insert s' n : slot_ok (ar_key a) s' -> (forall x, entry (ar_key a) s' = Some x -> x.1 ∉ rest.*1) ->
  n = Z.of_nat (length (option_list (entry (ar_key a) s') ++ rest)) ->
  arena_ok (set_slots (<[i := s']> (ar_slots a)) n a) /\
  contents (set_slots (<[i := s']> (ar_slots a)) n a) = list_to_map (option_list (entry (ar_key a) s') ++ rest).
Proof.
  intros Hs Hx Hn. pose proof (entries_insert s' n) as Hp.
  assert (Hnd : NoDup (entries (set_slots (<[i := s']> (ar_slots a)) n a)).*1).
  { rewrite Hp, fmap_app. destruct (entry _ s') as [x|]; cbn [option_list fmap list_fmap app]; [|apply rest_nodup].
    constructor; [by apply Hx|apply rest_nodup]. }
  split; [constructor|].
  - cbn [set_slots ar_slots]. rewrite length_insert. apply (ok_slots _ Ha).
  - cbn [set_slots ar_slots ar_key]. apply Forall_insert; [apply (ok_each _ Ha)|done].
  - exact Hnd.
  - cbn [set_slots ar_nslots]. by rewrite Hp.
  - unfold contents. by apply list_to_map_proper.
Qed.
End one_slot.

Lemma find_slot_Some cname a i : arena_ok a -> find_slot cname (ar_slots a) = Some i ->
  exists s pt, ar_slots a !! i = Some s /\ s_used s = true /\ s_name s = cname /\ slot_text (ar_key a) s = Some pt /\
    is_cstr pt /\ s_nct s = Z.of_nat (length pt) /\ entry (ar_key a) s = Some (cname, pt).
Proof.
  intros Ha. unfold find_slot. destruct (list_find _ _) as [[j s]|] eqn:E; [|done]. intros [= ->].
  apply list_find_Some in E as (Hi & [Hu Hn] & _). pose proof (ok_each _ Ha) as He.
  destruct (Forall_lookup_1 _ _ _ _ He Hi Hu) as (_ & _ & pt & Ht & Hc & Hl). exists s, pt.
  split_and!; try done. unfold entry. by rewrite Hu, Ht, <- Hn.
Qed.

Lemma found_contents cname a i s pt : arena_ok a -> ar_slots a !! i = Some s -> entry (ar_key a) s = Some (cname, pt) ->
  contents a !! cname = Some pt.
Proof. intros Ha Hi He. rewrite (contents_split a Ha i s Hi), He. apply lookup_insert_eq. Qed.

Lemma find_slot_None cname a : arena_ok a -> find_slot cname (ar_slots a) = None -> contents a !! cname = None.
Proof.
  intros Ha. unfold find_slot. destruct (list_find _ _) as [[]|] eqn:E; [done|]. intros _. apply list_find_None in E.
  apply not_elem_of_list_to_map. intros Hin. apply list_elem_of_fmap in Hin as ([n pt] & -> & Hin).
  apply list_elem_of_omap in Hin as (s & Hs & Hent). rewrite Forall_forall in E. apply (E s Hs).
  unfold entry in Hent. destruct (s_used s) eqn:Hu; [|done]. destruct (slot_text _ s); simplify_eq/=. done.
Qed.

Lemma find_slot_iff cname a : arena_ok a -> is_Some (find_slot cname (ar_slots a)) <-> is_Some (contents a !! cname).
Proof.
  intros Ha. destruct (find_slot cname (ar_slots a)) as [i|] eqn:E.
  - destruct (find_slot_Some _ _ _ Ha E) as (s & pt & Hi & _ & _ & _ & _ & _ & Hent).
    rewrite (found_contents _ _ _ _ _ Ha Hi Hent). split; by eexists.
  - rewrite (find_slot_None _ _ Ha E). done.
Qed.

Lemma entries_size a : arena_ok a -> size (contents a) = length (entries a).
Proof. intros Ha. unfold contents. apply map_size_list_to_map, (ok_names _ Ha). Qed.

Lemma entries_le key l : (length (omap (entry key) l) <= length l)%nat.
Proof. induction l as [|s l IH]; [done|]. cbn [omap list_omap length]. destruct (entry key s); cbn [length]; lia. Qed.

(** A slot is free exactly when there is room for another name. *)
Lemma all_used key l : Forall (slot_ok key) l -> Forall (fun s => s_used s = true) l -> length (omap (entry key) l) = length l.
Proof.
  intros Hok. induction Hok as [|s l Hs _ IH]; intros Hu; [done|]. apply Forall_cons in Hu as [Hu Hu'].
  destruct (Hs Hu) as (_ & _ & pt & Ht & _). cbn [omap list_omap]. unfold entry at 1. rewrite Hu, Ht. cbn. by rewrite IH.
Qed.

Lemma free_slot_iff a : arena_ok a -> is_Some (free_slot (ar_slots a)) <-> (size (contents a) < O9ArenaMaxSlots)%nat.
Proof.
  intros Ha. rewrite entries_size by done. unfold free_slot. destruct (list_find _ _) as [[i s]|] eqn:E.
  - apply list_find_Some in E as (Hi & Hu & _). split; [intros _|by eexists]. rewrite <- (ok_slots _ Ha).
    pose proof (entries_split a i s Hi) as Hp. unfold entry at 1 in Hp. rewrite Hu in Hp. cbn [option_list app] in Hp.
    rewrite Hp. pose proof (lookup_lt_Some _ _ _ Hi). pose proof (entries_le (ar_key a) (delete i (ar_slots a))) as Hle.
    rewrite length_delete in Hle by (by eexists). simpl. lia.
  - apply list_find_None in E. split; [by intros [? ?]|]. intros Hlt. exfalso.
    pose proof (all_used (ar_key a) (ar_slots a) (ok_each _ Ha)) as H. unfold entries in Hlt. rewrite H, (ok_slots _ Ha) in Hlt; [lia|].
    eapply Forall_impl; [exact E|]. intros s Hs. destruct (s_used s) eqn:Hu; [done|by destruct Hs].
Qed.

Lemma free_slot_Some a i : free_slot (ar_slots a) = Some i -> exists s, ar_slots a !! i = Some s /\ s_used s = false.
Proof.
  unfold free_slot. destruct (list_find _ _) as [[j s]|] eqn:E; [|done]. intros [= ->].
  apply list_find_Some in E as (Hi & Hu & _). by exists s.
Qed.

(** A secret just sealed opens to itself. *)
Lemma sealed_entry key cname nonce pt ct mac : size_ok pt -> (length cname < 64)%nat -> is_cstr cname -> is_cstr pt ->
  crypto_aead_lock key nonce [] pt = (ct, mac) ->
  let s := Slot (strncpy 64 cname) nonce mac (Some ct) (Z.of_nat (length pt)) true in
  slot_ok key s /\ entry key s = Some (cname, pt).
Proof.
  intros Hs Hn Hcn Hcp Hl. pose proof (aead_lock_opens key nonce [] pt eq_refl Hs) as Hopen. rewrite Hl in Hopen.
  rewrite strncpy_fits by done. cbv zeta. unfold slot_ok, entry, slot_text. cbn [s_ct s_mac s_nonce s_used s_name s_nct mbind option_bind].
  rewrite Hopen. cbn [mbind option_bind]. split; [|done]. intros _. split_and!; [done|done|]. by exists pt.
Qed.

Lemma slot0_ok key : slot_ok key slot0.
Proof. done. Qed.

(** ** Each operation does what the map does *)

Lemma stands_live a : ar_valid a = true -> arena_ok a -> stands (Some a) (Some (contents a)).
Proof. intros Hv Ha. unfold stands. cbn [live]. by rewrite Hv. Qed.

(** What the map is, without the name that slot [i] has or is to have. *)
Lemma slot_rest a i cname : arena_ok a ->
  find_slot cname (ar_slots a) = Some i \/ (find_slot cname (ar_slots a) = None /\ free_slot (ar_slots a) = Some i) ->
  exists s, ar_slots a !! i = Some s /\
    let rest := omap (entry (ar_key a)) (delete i (ar_slots a)) in
    cname ∉ rest.*1 /\ ar_nslots a = Z.of_nat (length rest) + (if s_used s then 1 else 0) /\
    delete cname (contents a) = list_to_map rest.
Proof.
  intros Ha Hcase. pose proof (ok_names _ Ha) as Hnd. destruct Hcase as [Hf|[Hn Hf]].
  - destruct (find_slot_Some _ _ _ Ha Hf) as (s & old & Hi & Hu & _ & _ & _ & _ & Hent). exists s. split; [done|]. cbv zeta.
    pose proof (contents_split a Ha i s Hi) as Hc. pose proof (entries_split a i s Hi) as Hp. rewrite Hent in *. simpl in Hp, Hc.
    rewrite Hp in Hnd. simpl in Hnd. apply NoDup_cons in Hnd as [Hnin _]. rewrite (ok_count _ Ha), Hp, Hu, Hc.
    split_and!; [done|simpl; lia|]. apply delete_insert_id. by apply not_elem_of_list_to_map.
  - apply free_slot_Some in Hf as (s & Hi & Hu). exists s. split; [done|]. cbv zeta.
    pose proof (contents_split a Ha i s Hi) as Hc. pose proof (entries_split a i s Hi) as Hp.
    assert (Hent : entry (ar_key a) s = None) by (unfold entry; by rewrite Hu). rewrite Hent in *. simpl in Hp, Hc.
    pose proof (find_slot_None _ _ Ha Hn) as Hno. rewrite (ok_count _ Ha), Hp, Hu. split_and!; [|lia|].
    + apply (not_elem_of_list_to_map (M := gmap bytes)). by rewrite <- Hc.
    + by rewrite delete_id, Hc.
Qed.

(** Slot [i] is given up. *)
Lemma free_stands a i s s' cname n : arena_ok a -> ar_valid a = true -> ar_slots a !! i = Some s -> s_used s' = false ->
  n = ar_nslots a - (if s_used s then 1 else 0) ->
  find_slot cname (ar_slots a) = Some i \/ (find_slot cname (ar_slots a) = None /\ free_slot (ar_slots a) = Some i) ->
  stands (Some (set_slots (<[i := s']> (ar_slots a)) n a)) (Some (delete cname (contents a))).
Proof.
  intros Ha Hv Hi Hu Hn Hcase. destruct (slot_rest a i cname Ha Hcase) as (s1 & Hi1 & Hnin & Hcount & Hdel). rewrite Hi in Hi1. injection Hi1 as <-. subst n.
  assert (Hent : entry (ar_key a) s' = None) by (unfold entry; by rewrite Hu).
  destruct (arena_insert a Ha i s Hi s' (ar_nslots a - (if s_used s then 1 else 0))) as [Hok Hc].
  - intros Hu'. by rewrite Hu in Hu'.
  - intros x. by rewrite Hent.
  - rewrite Hent, Hcount. simpl. lia.
  - unfold stands. cbn [live set_slots ar_valid]. rewrite Hv. split; [done|]. rewrite Hc, Hent, Hdel. done.
Qed.

(** The secret of slot [i] is replaced, or stored in a slot that was free. *)
Lemma store_stands e a i cname cpt : arena_ok a -> ar_valid a = true -> size_ok cpt -> is_cstr cname -> is_cstr cpt ->
  (length cname < 64)%nat ->
  find_slot cname (ar_slots a) = Some i \/ (find_slot cname (ar_slots a) = None /\ free_slot (ar_slots a) = Some i) ->
  let '(r, a') := store_slot e a i cname cpt in
  stands (Some a') (Some (if room_for e cpt then <[cname := cpt]> (contents a) else delete cname (contents a))) /\
  r = if room_for e cpt then 0 else -1.
Proof.
  intros Ha Hv Hs Hcn Hcp Hl Hcase. destruct (slot_rest a i cname Ha Hcase) as (s & Hi & Hnin & Hcount & Hdel).
  unfold store_slot, slot_at. rewrite Hi. cbn [default from_option id]. unfold room_for.
  assert (Hfail : forall s' n, s_used s' = false -> n = (if s_used s then ar_nslots a else ar_nslots a + 1) - 1 ->
    stands (Some (set_slots (<[i := s']> (ar_slots a)) n a)) (Some (delete cname (contents a))) /\ -1 = -1).
  { intros s' n Hu ->. split; [|done]. apply (free_stands a i s); try done. destruct (s_used s); lia. }
  destruct (malloc e _); cbn [andb]; [|by apply Hfail].
  destruct (o9_randbytes (e_dev e) 24) as [nonce|] eqn:Hr.
  2:{ rewrite bool_decide_false by (by intros [? ?]). by apply Hfail. }
  rewrite bool_decide_true by (by eexists). pose proof (sealed_entry (ar_key a) cname nonce cpt) as Hseal.
  destruct (crypto_aead_lock (ar_key a) nonce [] cpt) as [ct mac]. destruct (Hseal ct mac Hs Hl Hcn Hcp eq_refl) as [Hok Hent].
  set (s' := Slot _ _ _ _ _ _) in *.
  destruct (arena_insert a Ha i s Hi s' (if s_used s then ar_nslots a else ar_nslots a + 1)) as [Hok' Hc'].
  - done.
  - intros x. rewrite Hent. by intros [= <-].
  - rewrite Hent, Hcount. destruct (s_used s); simpl; lia.
  - split; [|done]. unfold stands. cbn [live set_slots ar_valid]. rewrite Hv. split; [done|].
    rewrite Hc', Hent. simpl. by rewrite <- Hdel, insert_delete_eq.
Qed.

Definition op_ok (op : vault_op) : Prop := match op with VPut _ _ pt => size_ok pt | _ => True end.

Lemma cstr_length s : (length (cstr s) <= length s)%nat.
Proof. induction s as [|b s IH]; simpl; [done|]. case_decide; simpl; lia. Qed.

Lemma put_step e a nm pt : arena_ok a -> ar_valid a = true -> size_ok pt ->
  (vault_do (Some a) (VPut e nm pt)).1 = (vmap_do true (Some (contents a)) (VPut e nm pt)).1 /\
  stands (vault_do (Some a) (VPut e nm pt)).2 (vmap_do true (Some (contents a)) (VPut e nm pt)).2.
Proof.
  intros Ha Hv Hs. pose proof (stands_live a Hv Ha) as Hst. cbn [vault_do vmap_do]. unfold o9_vault_put. cbn [live]. rewrite Hv.
  change (malloc e (Z.of_nat (length nm) + 1)) with (copied e nm). change (malloc e (Z.of_nat (length pt) + 1)) with (copied e pt).
  destruct (copied e nm && copied e pt); cbn [andb]; [|done].
  destruct (decide (64 <= length (cstr nm))%nat) as [Hl|Hl].
  { rewrite (bool_decide_false (length (cstr nm) < 64)%nat) by lia. done. }
  rewrite (bool_decide_true (length (cstr nm) < 64)%nat) by lia. cbn [andb].
  assert (Hcs : size_ok (cstr pt)) by (unfold size_ok in *; pose proof (cstr_length pt); lia).
  pose proof (find_slot_iff (cstr nm) a Ha) as Hfind. pose proof (free_slot_iff a Ha) as Hfree.
  assert (Hgo : forall i, find_slot (cstr nm) (ar_slots a) = Some i \/
      (find_slot (cstr nm) (ar_slots a) = None /\ free_slot (ar_slots a) = Some i) ->
    let v' := store_slot e a i (cstr nm) (cstr pt) in
    let m' := if room_for e (cstr pt) then (RInt 0, Some (<[cstr nm := cstr pt]> (contents a)))
              else (RInt (-1), Some (delete (cstr nm) (contents a))) in
    RInt v'.1 = m'.1 /\ stands (Some v'.2) m'.2).
  { intros i Hi. pose proof (store_stands e a i (cstr nm) (cstr pt) Ha Hv Hcs (cstr_is_cstr _) (cstr_is_cstr _) ltac:(lia) Hi) as Hst'.
    destruct (store_slot _ _ _ _ _) as [r a']. destruct Hst' as [H1 ->]. by destruct (room_for e (cstr pt)). }
  destruct (find_slot (cstr nm) (ar_slots a)) as [i|].
  - rewrite bool_decide_true by (left; apply Hfind; by eexists). specialize (Hgo i (or_introl eq_refl)). cbv zeta in Hgo.
    by destruct (store_slot _ _ _ _ _) as [r a'].
  - destruct (free_slot (ar_slots a)) as [i|].
    + rewrite bool_decide_true by (right; apply Hfree; by eexists). specialize (Hgo i (or_intror (conj eq_refl eq_refl))). cbv zeta in Hgo.
      by destruct (store_slot _ _ _ _ _) as [r a'].
    + rewrite bool_decide_false; [done|]. intros [H|H]; [apply Hfind in H|apply Hfree in H]; by destruct H.
Qed.

Lemma slot_text_Some key s pt : slot_text key s = Some pt ->
  exists ct, s_ct s = Some ct /\ crypto_aead_unlock (s_mac s) key (s_nonce s) [] ct = (0, Some pt).
Proof.
  unfold slot_text. destruct (s_ct s) as [ct|]; [|done]. cbn [mbind option_bind]. intros H. exists ct. split; [done|].
  destruct (crypto_aead_unlock _ _ _ _ _) as [r o]. destruct r; try discriminate H. destruct o; [|discriminate H]. by injection H as ->.
Qed.

Lemma get_step e a nm : arena_ok a -> ar_valid a = true ->
  (vault_do (Some a) (VGet e nm)).1 = (vmap_do true (Some (contents a)) (VGet e nm)).1.
Proof.
  intros Ha Hv. cbn [vault_do vmap_do fst]. apply f_equal. unfold o9_vault_get. cbn [live]. rewrite Hv.
  fold (copied e nm). destruct (copied e nm); [|done].
  destruct (find_slot (cstr nm) (ar_slots a)) as [i|] eqn:E; [|by rewrite (find_slot_None _ _ Ha E)].
  destruct (find_slot_Some _ _ _ Ha E) as (s & pt & Hi & Hu & _ & Ht & Hc & Hn & Hent).
  rewrite (found_contents _ _ _ _ _ Ha Hi Hent). unfold slot_at. rewrite Hi. cbn [default from_option id mbind option_bind].
  apply slot_text_Some in Ht as (ct & Hct & Hun). rewrite Hct, Hn, Hun.
  fold (copied e pt). unfold returned, take_string. destruct (copied e pt); [|done]. cbn [andb].
  destruct (malloc e sizeof_string_header); [|done]. cbn [o9_string_take fmap option_fmap option_map]. by rewrite cstr_id.
Qed.

Lemma drop_step e a nm : arena_ok a -> ar_valid a = true ->
  (vault_do (Some a) (VDrop e nm)).1 = (vmap_do true (Some (contents a)) (VDrop e nm)).1 /\
  stands (vault_do (Some a) (VDrop e nm)).2 (vmap_do true (Some (contents a)) (VDrop e nm)).2.
Proof.
  intros Ha Hv. pose proof (stands_live a Hv Ha) as Hst. cbn [vault_do vmap_do]. unfold o9_vault_drop. cbn [live]. rewrite Hv.
  change (malloc e (Z.of_nat (length nm) + 1)) with (copied e nm). destruct (copied e nm); cbn [andb]; [|done].
  pose proof (find_slot_iff (cstr nm) a Ha) as Hfind. destruct (find_slot (cstr nm) (ar_slots a)) as [i|] eqn:E.
  - rewrite bool_decide_true by (apply Hfind; by eexists). split; [done|].
    destruct (find_slot_Some _ _ _ Ha E) as (s & pt & Hi & Hu & _). apply (free_stands a i s); (done || by left || by rewrite Hu).
  - rewrite bool_decide_false; [done|]. intros H. apply Hfind in H. by destruct H.
Qed.

Lemma vault_step v m op : op_ok op -> stands v m ->
  (vault_do v op).1 = (vmap_do true m op).1 /\ stands (vault_do v op).2 (vmap_do true m op).2.
Proof.
  intros Hop Hst. assert (Hw : forall v, stands (o9_vault_wipe v) None) by (by intros [?|]).
  unfold stands in Hst at 1. destruct (live v) as [a|] eqn:Hl, m as [m|]; try done.
  - destruct Hst as [Ha ->]. destruct v as [a'|]; [|done]. cbn [live] in Hl. destruct (ar_valid a') eqn:Hv; [|done]. injection Hl as ->.
    pose proof (stands_live a Hv Ha) as Hst. destruct op; [by apply put_step| | |by apply drop_step|done].
    + split; [by apply get_step|done].
    + split; [|done]. cbn [vault_do vmap_do fst]. unfold o9_vault_has. cbn [live]. rewrite Hv.
      change (malloc e (Z.of_nat (length name) + 1)) with (copied e name). destruct (copied e name); cbn [andb]; [|done].
      pose proof (find_slot_iff (cstr name) a Ha) as Hf. destruct (find_slot _ _).
      * rewrite bool_decide_true; [done|]. apply Hf. by eexists.
      * rewrite bool_decide_false; [done|]. intros H. apply Hf in H. by destruct H.
  - assert (Hn : stands v None) by (unfold stands; by rewrite Hl).
    destruct op; cbn [vault_do vmap_do]; unfold o9_vault_put, o9_vault_get, o9_vault_has, o9_vault_drop; rewrite ?Hl; (split; [done|first [exact Hn|apply Hw]]).
Qed.

(** ** New vaults *)

Section new_vaults.
Context {cv : curves}.

Lemma new_arena_ok key salt hs : arena_ok (set_key key salt hs arena0) /\ contents (set_key key salt hs arena0) = ∅.
Proof.
  assert (He : entries (set_key key salt hs arena0) = []) by done. unfold contents. rewrite He. split; [|done].
  constructor; [done| |rewrite He; constructor|by rewrite He]. cbn [set_key arena0 ar_slots]. by apply Forall_replicate.
Qed.

Lemma new_stands key salt hs : stands (Some (set_key key salt hs arena0)) (Some ∅).
Proof. destruct (new_arena_ok key salt hs) as [H E]. unfold stands. cbn [live set_key ar_valid]. by rewrite E. Qed.

Lemma new_vault_stands e v : o9_vault_new e = Some v \/ (exists k, o9_vault_new_key e k = Some v) \/
  (exists p s, o9_vault_new_pass e p s = Some v) -> stands (Some v) (Some ∅).
Proof.
  intros [H|[[k H]|[p [s H]]]].
  - unfold o9_vault_new in H. repeat case_match; simplify_eq. apply new_stands.
  - unfold o9_vault_new_key in H. repeat case_match; simplify_eq; apply new_stands.
  - unfold o9_vault_new_pass in H. repeat case_match; simplify_eq; apply new_stands.
Qed.
End new_vaults.

(** ** Properties *)

(** Failing without effect and forgetting differ in nothing else. *)
Lemma vmap_forgets m op : ~ failed_update m op -> vmap_do true m op = vmap_do false m op.
Proof.
  intros Hn. destruct op as [e nm pt| | | |], m as [m|]; try done. cbn [vmap_do failed_update] in *.
  destruct (copied e nm && copied e pt); cbn [andb]; [|done].
  case_bool_decide as Hl; cbn [andb]; [|done]. case_bool_decide; [|done].
  destruct (room_for e (cstr pt)) eqn:Hr; [done|]. rewrite delete_id; [done|].
  destruct (m !! cstr nm) eqn:E; [|done]. destruct Hn. by eauto.
Qed.

Lemma run_forgets ops : forall m, no_failed_update m ops ->
  trace (vmap_do true) m ops = trace (vmap_do false) m ops.
Proof.
  induction ops as [|op ops IH]; intros m; [done|]. cbn [no_failed_update trace]. intros [H1 H2].
  rewrite (vmap_forgets m op H1). destruct (vmap_do false m op) as [r m1]. cbn [snd] in H2. by rewrite (IH m1 H2).
Qed.


(** C32: every reachable arena is well formed: 64 slots; every used slot has
    a name of at most 63 bytes and a cipher text that its tag authenticates
    under the arena's key; no two used slots have one name; and [nslots]
    counts the used slots, between 0 and 64. *)
Theorem vault_well_formed (cv : curves) e v ops a : o9_vault_new e = Some v \/ (exists k, o9_vault_new_key e k = Some v) \/
    (exists p s, o9_vault_new_pass e p s = Some v) -> Forall op_ok ops ->
  live (trace vault_do (Some v) ops).2 = Some a ->
  arena_ok a /\ 0 <= ar_nslots a <= 64 /\
  forall i s, ar_slots a !! i = Some s -> s_used s = true ->
    exists pt, slot_text (ar_key a) s = Some pt /\ contents a !! s_name s = Some pt.
Proof.
  intros Hnew Hops Hlive. pose proof (new_vault_stands e v Hnew) as Hst.
  assert (Hrun : exists m, stands (trace vault_do (Some v) ops).2 m).
  { revert Hst. clear Hlive. generalize (Some v) (Some (∅ : gmap bytes bytes)). induction Hops as [|op ops Hop _ IH]; intros v' m Hst; [by exists m|].
    cbn [trace]. destruct (vault_step v' m op Hop Hst) as [_ H2]. destruct (vault_do v' op) as [r v1]. cbn [snd] in *.
    specialize (IH _ _ H2). by destruct (trace vault_do v1 ops). }
  destruct Hrun as [m Hm]. unfold stands in Hm. rewrite Hlive in Hm. destruct m as [m|]; [|done]. destruct Hm as [Ha _].
  split; [done|]. split.
  - rewrite (ok_count _ Ha). pose proof (entries_le (ar_key a) (ar_slots a)) as Hle. rewrite (ok_slots _ Ha) in Hle.
    unfold entries. unfold O9ArenaMaxSlots in Hle. lia.
  - intros i s Hi Hu. destruct (Forall_lookup_1 _ _ _ _ (ok_each _ Ha) Hi Hu) as (_ & _ & pt & Ht & _). exists pt. split; [done|].
    apply (found_contents (s_name s) a i s); [done..|]. unfold entry. by rewrite Hu, Ht.
Qed.

(** A vault made again from the same passphrase and salt, or from the
    same key, opens what the first one sealed, byte for byte; an invalid or
    wiped vault seals and opens nothing. *)
Theorem vault_reopens (cv : curves) w e1 e2 e3 e4 v1 v2 m nonce : w = 32 \/ w = 64 ->
  (exists p s, o9_vault_new_pass e1 p s = Some v1 /\ o9_vault_new_pass e2 p s = Some v2) \/
  (exists k, israwhex (cstr k) = true /\ o9_vault_new_key e1 (Some k) = Some v1 /\ o9_vault_new_key e2 (Some k) = Some v2) ->
  (forall n, malloc e3 n = true) -> (forall n, malloc e4 n = true) -> o9_randbytes (e_dev e3) 24 = Some nonce ->
  80 + 2 * Z.of_nat (length m) < LIMIT w ->
  (exists blob, o9_vault_seal e3 (Some v1) (Some m) = Some blob /\ o9_vault_open w e4 (Some v2) (Some blob) = Some m) /\
  (forall v blob, o9_vault_seal e3 (o9_vault_wipe v) (Some m) = None /\ o9_vault_open w e4 (o9_vault_wipe v) blob = None).
Proof.
  intros Hw Hnew Hm3 Hm4 Hn Hl. split; [|by intros [?|] blob].
  assert (Hkey : live (Some v1) = Some v1 /\ live (Some v2) = Some v2 /\ ar_key v1 = ar_key v2).
  { destruct Hnew as [(p & s & H1 & H2)|(k & Hk & H1 & H2)].
    - unfold o9_vault_new_pass, derive_vault_key in H1, H2. repeat case_match; simplify_eq. done.
    - unfold o9_vault_new_key in H1, H2. rewrite Hk in H1, H2. repeat case_match; simplify_eq. done. }
  destruct Hkey as (L1 & L2 & Ek). unfold o9_vault_seal, o9_vault_open. rewrite L1, L2, Ek.
  destruct (seal_open w Hw e3 e4 (ar_key v2) m nonce Hm3 Hm4 Hn Hl) as (blob & H1 & _ & _ & H4 & H5).
  exists blob. by rewrite H4.
Qed.

(** *** Witnesses and observations *)

Definition dev_ok : device := Device true true [replicate 40 x41].
Definition env_ok : env := Env dev_ok (fun _ => true).
(** The random device has gone. *)
Definition env_norandom : env := Env (Device false false []) (fun _ => true).

Definition vault_a : arena := set_key (replicate 32 x41) [] false arena0.

Definition some_vault_ops : list vault_op :=
  [VPut env_ok (str "token") (str "one"); VGet env_ok (str "token"); VPut env_ok (str "token") (str "two");
   VGet env_ok (str "token"); VHas env_ok (str "other"); VDrop env_ok (str "token"); VGet env_ok (str "token"); VWipe;
   VPut env_ok (str "token") (str "three")].

Lemma some_vault_ops_ok : Forall op_ok some_vault_ops.
Proof. repeat constructor; unfold op_ok, size_ok; by vm_compute. Defined.


Lemma vault_well_formed_witness : exists a, live (trace vault_do (Some vault_a) [VPut env_ok (str "k") (str "v")]).2 = Some a /\ arena_ok a.
Proof.
  destruct (live (trace vault_do (Some vault_a) [VPut env_ok (str "k") (str "v")]).2) as [a|] eqn:E; [|vm_compute in E; discriminate].
  exists a. split; [reflexivity|].
  refine (proj1 (vault_well_formed toy_curves env_ok vault_a [VPut env_ok (str "k") (str "v")] a (or_introl eq_refl) _ E)).
  repeat constructor; unfold op_ok, size_ok; by vm_compute.
Defined.

Lemma vault_reopens_witness : exists v, @o9_vault_new_pass toy_curves env_ok (Some (str "hunter2")) (Some (str "my.app.salt")) = Some v /\
  exists blob, o9_vault_seal env_ok (Some v) (Some (str "secret")) = Some blob /\ o9_vault_open 64 env_ok (Some v) (Some blob) = Some (str "secret").
Proof.
  eexists. split; [reflexivity|].
  apply (proj1 (vault_reopens toy_curves 64 env_ok env_ok env_ok env_ok _ _ (str "secret") (replicate 24 x41) (or_intror eq_refl)
    (or_introl (ex_intro _ (Some (str "hunter2")) (ex_intro _ (Some (str "my.app.salt")) (conj eq_refl eq_refl))))
    (fun _ => eq_refl) (fun _ => eq_refl) eq_refl ltac:(by vm_compute))).
Defined.

(** A failed update of a secret loses the one that was stored. *)
Lemma failed_update_loses :
  (trace vault_do (Some vault_a) [VPut env_ok (str "token") (str "one"); VPut env_norandom (str "token") (str "two"); VGet env_ok (str "token")]).1
  = [RInt 0; RInt (-1); RStr None].
Proof. vm_compute. reflexivity. Qed.

(** A secret is stored up to its first NUL only. *)
Lemma put_truncates :
  (trace vault_do (Some vault_a) [VPut env_ok (str "k") [x61; x00; x62]; VGet env_ok (str "k")]).1 = [RInt 0; RStr (Some [x61])].
Proof. vm_compute. reflexivity. Qed.
