(* ===== verification/FileTree.v ===== *)
(** * View trees ([o9_filetree.c])

    Trees of named entries, each owned by an actor; a directory can have
    other trees mounted over, before or after its own entries.  Every
    operation runs under the global mount lock, so it is one step.

    A pointer is a key; one that is nil or was freed is a key without a
    value.  Keys are never reused.  Allocation succeeds. *)
From S2P Require Import Prelude O9Str.

Open Scope Z_scope.

(** ** State *)

Abbreviation tid := positive (only parsing).
Abbreviation eid := positive (only parsing).

Definition FT_BUCKETS : nat := 64.
Definition O9FT_DIR : Z := 1.
Definition O9FT_TEXT : Z := 2.
Definition O9FT_LIVE : Z := 3.

Record O9FTMount := FtMount { m_source : tid; m_mode : Z }.

Record O9FTEntry := FtEntry {
  e_name : bytes;
  e_id : Z;
  e_kind : Z;
  e_writable : Z;
  e_removed : bool;
  e_data : ostring;
  e_tree : tid;
  e_mounts : list O9FTMount;
  e_parent : option eid;
  e_buckets : list (list eid);
}.

Record O9FileTree := FtTree {
  t_owner : Z;
  t_alive : bool;
  t_root : eid;
  t_all : list eid;          (* newest first *)
}.

(** The process's file-tree state. *)
Record fts := Fts {
  f_trees : gmap tid O9FileTree;
  f_entries : gmap eid O9FTEntry;
  f_order : list tid;                  (* [ft_trees] *)
  f_sources : list (bytes * tid);      (* [ft_sources] *)
  f_next_id : Z;                       (* [ft_next_id] *)
  f_fresh : positive;                  (* the next key *)
}.

Definition fts0 : fts := Fts ∅ ∅ [] [] 1 1.

Definition upd_trees (f : gmap tid O9FileTree -> gmap tid O9FileTree) (s : fts) : fts :=
  Fts (f (f_trees s)) (f_entries s) (f_order s) (f_sources s) (f_next_id s) (f_fresh s).
Definition upd_entries (f : gmap eid O9FTEntry -> gmap eid O9FTEntry) (s : fts) : fts :=
  Fts (f_trees s) (f (f_entries s)) (f_order s) (f_sources s) (f_next_id s) (f_fresh s).
Definition set_sources (l : list (bytes * tid)) (s : fts) : fts :=
  Fts (f_trees s) (f_entries s) (f_order s) l (f_next_id s) (f_fresh s).
Definition set_order (l : list tid) (s : fts) : fts :=
  Fts (f_trees s) (f_entries s) l (f_sources s) (f_next_id s) (f_fresh s).

Definition set_data (data : ostring) (writable : Z) (e : O9FTEntry) : O9FTEntry :=
  FtEntry (e_name e) (e_id e) (e_kind e) writable (e_removed e) data (e_tree e) (e_mounts e) (e_parent e) (e_buckets e).
Definition set_removed (e : O9FTEntry) : O9FTEntry :=
  FtEntry (e_name e) (e_id e) (e_kind e) (e_writable e) true (e_data e) (e_tree e) (e_mounts e) (e_parent e) (e_buckets e).
Definition set_mounts (ms : list O9FTMount) (e : O9FTEntry) : O9FTEntry :=
  FtEntry (e_name e) (e_id e) (e_kind e) (e_writable e) (e_removed e) (e_data e) (e_tree e) ms (e_parent e) (e_buckets e).
Definition upd_bucket (b : nat) (f : list eid -> list eid) (e : O9FTEntry) : O9FTEntry :=
  FtEntry (e_name e) (e_id e) (e_kind e) (e_writable e) (e_removed e) (e_data e) (e_tree e) (e_mounts e) (e_parent e)
    (alter f b (e_buckets e)).
Definition set_alive (b : bool) (t : O9FileTree) : O9FileTree := FtTree (t_owner t) b (t_root t) (t_all t).
Definition add_all (p : eid) (t : O9FileTree) : O9FileTree := FtTree (t_owner t) (t_alive t) (t_root t) (p :: t_all t).

(** ** Names and directories *)

(** FNV-1a over the bytes of a C string, on [uint]. *)
Definition ft_bucket (name : bytes) : nat :=
  Z.to_nat (foldl (fun h p => u32 (Z.lxor h (uchar p) * 16777619)) 2166136261 name mod 64).

Definition ft_name_ok (name : bytes) : bool :=
  negb (bool_decide (name = [])) && negb (streq name (str ".")) && negb (streq name (str "..")) &&
  forallb (fun p => negb (bool_decide (p = x2f) || bool_decide (uchar p < 32) || bool_decide (uchar p = 127))) name.

Definition bucket_of (d : O9FTEntry) (name : bytes) : list eid := default [] (e_buckets d !! ft_bucket name).

Definition is_dir (e : O9FTEntry) : bool := bool_decide (e_kind e = O9FT_DIR).

(** An entry of that name that is not removed. *)
Definition named (s : fts) (name : bytes) (p : eid) : Prop :=
  match f_entries s !! p with Some e => e_removed e = false /\ e_name e = name | None => False end.
#[export] Instance named_dec s name p : Decision (named s name p).
Proof. unfold named. destruct (f_entries s !! p); apply _. Defined.

Definition ft_find (s : fts) (dir : eid) (name : bytes) : option eid :=
  match f_entries s !! dir with
  | None => None
  | Some d => if is_dir d then snd <$> list_find (named s name) (bucket_of d name) else None
  end.

Definition ft_entry (s : fts) (t : tid) (parent : option eid) (name : bytes) (kind : Z) (data : ostring) (writable : Z)
    : eid * fts :=
  let p := f_fresh s in
  let e := FtEntry name (f_next_id s) kind writable false data t [] parent (replicate FT_BUCKETS []) in
  let entries := <[p := e]> (f_entries s) in
  let entries := match parent with
                 | Some d => alter (upd_bucket (ft_bucket name) (cons p)) d entries
                 | None => entries
                 end in
  (p, Fts (alter (add_all p) t (f_trees s)) entries (f_order s) (f_sources s) (u64 (f_next_id s + 1)) (p + 1)%positive).

(** ** Trees *)

Definition ft_owned (s : fts) (caller : Z) (t : tid) : bool :=
  match f_trees s !! t with Some tr => t_alive tr && bool_decide (t_owner tr = caller) | None => false end.

Definition o9_filetree_new (caller : Z) (s : fts) : tid * fts :=
  let t := f_fresh s in
  let root := (t + 1)%positive in
  let s := Fts (<[t := FtTree caller true root []]> (f_trees s)) (f_entries s) (f_order s) (f_sources s) (f_next_id s) root in
  let '(_, s) := ft_entry s t None (str ".") O9FT_DIR None 0 in
  (t, set_order (t :: f_order s) s).

(** The loop of [ft_parent] from the directory [dir]; the path gets shorter. *)
Fixpoint parent_loop (fuel : nat) (s : fts) (dir : eid) (p : bytes) : option (eid * bytes) :=
  match fuel with
  | O => None
  | S fuel =>
      match strchr x2f p with
      | (leaf, None) => if ft_name_ok leaf then Some (dir, leaf) else None
      | (seg, Some rest) =>
          if ft_name_ok seg then
            match ft_find s dir seg with
            | None => None
            | Some d =>
                match f_entries s !! d with
                | Some e => if is_dir e then parent_loop fuel s d rest else None
                | None => None
                end
            end
          else None
      end
  end.

Definition ft_parent (s : fts) (tr : O9FileTree) (path : bytes) : option (eid * bytes) :=
  if bool_decide (path = []) || bool_decide (head path = Some x2f) then None
  else parent_loop (S (length path)) s (t_root tr) path.

Definition ft_put (caller : Z) (t : tid) (path : ostring) (kind : Z) (data : ostring) (writable : Z) (s : fts) : Z * fts :=
  match path, f_trees s !! t with
  | Some pt, Some tr =>
      if negb (ft_owned s caller t) || (bool_decide (kind = O9FT_TEXT) && bool_decide (data = None)) then (-1, s) else
      match ft_parent s tr (cstr pt) with
      | None => (-1, s)
      | Some (parent, leaf) =>
          match ft_find s parent leaf with
          | None => (0, (ft_entry s t (Some parent) leaf kind data writable).2)
          | Some p =>
              match f_entries s !! p with
              | Some e =>
                  if bool_decide (e_kind e = kind) && negb (bool_decide (kind = O9FT_DIR)) then
                    (0, upd_entries (<[p := set_data data writable e]>) s)
                  else if bool_decide (e_kind e = kind) && bool_decide (kind = O9FT_DIR) then (0, s)
                  else (-1, s)
              | None => (-1, s)
              end
          end
      end
  | _, _ => (-1, s)
  end.

Definition o9_filetree_dir (caller : Z) (t : tid) (path : ostring) (s : fts) : Z * fts :=
  ft_put caller t path O9FT_DIR None 0 s.
Definition o9_filetree_text (caller : Z) (t : tid) (path data : ostring) (writable : Z) (s : fts) : Z * fts :=
  ft_put caller t path O9FT_TEXT data (if decide (writable = 0) then 0 else 1) s.
Definition o9_filetree_live (caller : Z) (t : tid) (path : ostring) (writable : Z) (s : fts) : Z * fts :=
  ft_put caller t path O9FT_LIVE None (if decide (writable = 0) then 0 else 1) s.

(** [*pp = e->hashnext] for the first [e] of the chain. *)
Fixpoint unlink (p : eid) (l : list eid) : list eid :=
  match l with
  | [] => []
  | q :: l => if decide (q = p) then l else q :: unlink p l
  end.

Definition o9_filetree_remove (caller : Z) (t : tid) (path : ostring) (s : fts) : Z * fts :=
  match path, f_trees s !! t with
  | Some pt, Some tr =>
      if negb (ft_owned s caller t) then (-1, s) else
      match ft_parent s tr (cstr pt) with
      | None => (-1, s)
      | Some (parent, leaf) =>
          match ft_find s parent leaf with
          | None => (-1, s)
          | Some p =>
              match f_entries s !! p with
              | Some e =>
                  if forallb (fun b => bool_decide (b = [])) (e_buckets e) then
                    let s := upd_entries (alter (upd_bucket (ft_bucket leaf) (unlink p)) parent) s in
                    (0, upd_entries (alter set_removed p) s)
                  else (-1, s)
              | None => (-1, s)
              end
          end
      end
  | _, _ => (-1, s)
  end.

Definition o9_filetree_revoke (t : tid) (s : fts) : fts :=
  match f_trees s !! t with
  | None => s
  | Some _ =>
      let s := upd_trees (alter (set_alive false) t) s in
      set_sources (filter (fun x => x.2 <> t) (f_sources s)) s
  end.

Definition o9_filetree_close (caller : Z) (t : tid) (s : fts) : fts :=
  if ft_owned s caller t then o9_filetree_revoke t s else s.

Definition tree_alive (s : fts) (t : tid) : bool := match f_trees s !! t with Some tr => t_alive tr | None => false end.
Definition o9_filetree_alive : fts -> tid -> bool := tree_alive.
Definition o9_filetree_owner (s : fts) (t : tid) : option Z := t_owner <$> f_trees s !! t.
Definition o9_filetree_root (s : fts) (t : tid) : option eid := t_root <$> f_trees s !! t.
Definition o9_filetree_kind (s : fts) (e : eid) : Z := match f_entries s !! e with Some e => e_kind e | None => 0 end.
Definition o9_filetree_writable (s : fts) (e : eid) : Z := match f_entries s !! e with Some e => e_writable e | None => 0 end.
Definition o9_filetree_id (s : fts) (e : eid) : Z := match f_entries s !! e with Some e => e_id e | None => 0 end.
Definition o9_filetree_name (s : fts) (e : eid) : option bytes := e_name <$> f_entries s !! e.
Definition o9_filetree_parent (s : fts) (e : eid) : option eid := f_entries s !! e ≫= e_parent.
Definition o9_filetree_entry_tree (s : fts) (e : eid) : option tid := e_tree <$> f_entries s !! e.

(** ** Registered sources *)

Definition o9_filetree_register (caller : Z) (t : tid) (id : ostring) (s : fts) : Z * fts :=
  match id with
  | None => (-1, s)
  | Some i =>
      let name := cstr i in
      if negb (ft_owned s caller t) || negb (ft_name_ok name) || bool_decide (x21 ∈ name) || bool_decide (x3a ∈ name) then (-1, s)
      else if bool_decide (name ∈ (f_sources s).*1) then (-1, s)
      else (0, set_sources ((name, t) :: f_sources s) s)
  end.

Definition ft_resolve (s : fts) (id : bytes) : option tid :=
  (fun x => x.2.2) <$> list_find (fun x => x.1 = id /\ tree_alive s x.2 = true) (f_sources s).

(** ** Lookup and listing through mounts *)

Definition first_some {A B} (f : A -> option B) : list A -> option B :=
  fix go l := match l with [] => None | x :: l => match f x with Some y => Some y | None => go l end end.

Definition before (m : O9FTMount) : Prop := m_mode m = 0 \/ m_mode m = 1.
#[export] Instance before_dec m : Decision (before m).
Proof. unfold before. apply _. Defined.

(** A mode 0 mount hides the directory's own entries. *)
Definition replaces (ms : list O9FTMount) : bool := existsb (fun m => bool_decide (m_mode m = 0)) ms.

Definition source_root (s : fts) (m : O9FTMount) : option eid := t_root <$> f_trees s !! m_source m.

(** A directory that can be searched. *)
Definition live_dir (s : fts) (dir : eid) : option O9FTEntry :=
  match f_entries s !! dir with
  | Some d => if is_dir d && negb (e_removed d) && tree_alive s (e_tree d) then Some d else None
  | None => None
  end.

(** [depth > 64] gives up: [fuel] is [65 - depth]. *)
Fixpoint ft_lookup_mount (fuel : nat) (s : fts) (dir : eid) (name : bytes) : option eid :=
  match fuel with
  | O => None
  | S fuel =>
      match live_dir s dir with
      | None => None
      | Some d =>
          let look := fun m => match source_root s m with Some r => ft_lookup_mount fuel s r name | None => None end in
          match first_some look (filter before (e_mounts d)) with
          | Some e => Some e
          | None =>
              match (if replaces (e_mounts d) then None else ft_find s dir name) with
              | Some e => Some e
              | None => first_some look (filter (fun m => m_mode m = 2) (e_mounts d))
              end
          end
      end
  end.

Definition MOUNT_DEPTH : nat := 65.

Definition o9_filetree_lookup (s : fts) (t : tid) (parent : eid) (name : bytes) : option eid :=
  if tree_alive s t then ft_lookup_mount MOUNT_DEPTH s parent name else None.

Definition o9_filetree_data (s : fts) (t : tid) (e : eid) : ostring :=
  match f_entries s !! e with
  | Some en => if tree_alive s t && tree_alive s (e_tree en) && negb (e_removed en) then e_data en else None
  | None => None
  end.

Definition name_of (s : fts) (e : eid) : bytes := match f_entries s !! e with Some e => e_name e | None => [] end.

(** Appends an entry unless one of its name is there. *)
Definition ft_list_add (s : fts) (l : list eid) (e : eid) : list eid :=
  if bool_decide (name_of s e ∈ name_of s <$> l) then l else l ++ [e].

Fixpoint fold_opt {A B} (f : A -> B -> option A) (a : A) (l : list B) : option A :=
  match l with
  | [] => Some a
  | x :: l => match f a x with Some a => fold_opt f a l | None => None end
  end.

(** [None] is the result -1. *)
Fixpoint ft_collect (fuel : nat) (s : fts) (dir : eid) (l : list eid) : option (list eid) :=
  match fuel with
  | O => None
  | S fuel =>
      match live_dir s dir with
      | None => None
      | Some d =>
          let sub := fun l m => match source_root s m with Some r => ft_collect fuel s r l | None => None end in
          match fold_opt sub l (filter before (e_mounts d)) with
          | None => None
          | Some l =>
              let l := if replaces (e_mounts d) then l else foldl (ft_list_add s) l (concat (e_buckets d)) in
              fold_opt sub l (filter (fun m => m_mode m = 2) (e_mounts d))
          end
      end
  end.

Definition o9_filetree_entries (s : fts) (t : tid) (dir : eid) : option (list eid) :=
  match f_entries s !! dir with
  | Some d => if is_dir d && tree_alive s t then ft_collect MOUNT_DEPTH s dir [] else None
  | None => None
  end.

(** ** Applying a table of mounts *)

Record O9FTMountSpec := FtSpec { sp_target : option bytes; sp_source : option bytes; sp_mode : Z; sp_unmount : bool }.

(** The new mount lists, by target, newest first. *)
Abbreviation plans := (list (eid * list O9FTMount)).

Definition ft_plan_for (ps : plans) (entry : eid) : option (list O9FTMount) :=
  snd ∘ snd <$> list_find (fun x => x.1 = entry) ps.

Fixpoint set_plan (target : eid) (ms : list O9FTMount) (ps : plans) : plans :=
  match ps with
  | [] => []
  | (e, old) :: ps => if decide (e = target) then (e, ms) :: ps else (e, old) :: set_plan target ms ps
  end.

Fixpoint target_loop (fuel : nat) (s : fts) (e : eid) (p : bytes) : option eid :=
  match fuel with
  | O => None
  | S fuel =>
      let '(seg, rest) := strchr x2f p in
      if ft_name_ok seg then
        match ft_find s e seg with
        | None => None
        | Some d =>
            match f_entries s !! d with
            | Some en =>
                if is_dir en then match rest with None => Some d | Some rest => target_loop fuel s d rest end else None
            | None => None
            end
        end
      else None
  end.

Definition ft_target (s : fts) (tr : O9FileTree) (path : option bytes) : option eid :=
  match path with
  | None => None
  | Some path =>
      if bool_decide (path = []) || bool_decide (head path = Some x2f) then None
      else if bool_decide (path = str ".") then Some (t_root tr)
      else target_loop (S (length path)) s (t_root tr) path
  end.

(** The mounts of an entry once the plans are carried out. *)
Definition planned (s : fts) (ps : plans) (e : eid) : list O9FTMount :=
  match ft_plan_for ps e with
  | Some ms => ms
  | None => match f_entries s !! e with Some en => e_mounts en | None => [] end
  end.

(** The sources mounted in a tree, removed entries left out. *)
Definition tree_sources (s : fts) (ps : plans) (t : tid) : list tid :=
  match f_trees s !! t with
  | None => []
  | Some tr =>
      m_source <$> concat ((fun e => match f_entries s !! e with
                                     | Some en => if e_removed en then [] else planned s ps e
                                     | None => []
                                     end) <$> t_all tr)
  end.

Definition MAX_SEEN : nat := 256.

(** [seen] is the path so far; a path of 256 trees counts as reaching. *)
Fixpoint ft_reaches (fuel : nat) (s : fts) (tree goal : tid) (ps : plans) (seen : list tid) : bool :=
  match fuel with
  | O => true
  | S fuel =>
      if bool_decide (tree = goal) then true
      else if bool_decide (MAX_SEEN <= length seen)%nat then true
      else if bool_decide (tree ∈ seen) then false
      else existsb (fun src => ft_reaches fuel s src goal ps (seen ++ [tree])) (tree_sources s ps tree)
  end.

(** One row of the table. *)
Definition plan_spec (s : fts) (tr : O9FileTree) (ps : plans) (sp : O9FTMountSpec) : option plans :=
  match ft_target s tr (sp_target sp) with
  | None => None
  | Some target =>
      let ps := match ft_plan_for ps target with
                | Some _ => ps
                | None => (target, planned s ps target) :: ps
                end in
      let ms := default [] (ft_plan_for ps target) in
      if sp_unmount sp then Some (set_plan target [] ps)
      else if bool_decide (sp_mode sp < 0 \/ 2 < sp_mode sp) then None
      else match sp_source sp with
           | None => None
           | Some src =>
               match ft_resolve s src with
               | None => None
               | Some source =>
                   let m := FtMount source (sp_mode sp) in
                   let ms := if bool_decide (sp_mode sp = 0) then [] else ms in
                   Some (set_plan target (if bool_decide (sp_mode sp = 1) then m :: ms else ms ++ [m]) ps)
               end
           end
  end.

(** Whether some planned mount would lead back to [t]. *)
Definition plans_cycle (s : fts) (t : tid) (ps : plans) : bool :=
  existsb (fun p => existsb (fun m => ft_reaches (MAX_SEEN + 1) s (m_source m) t ps []) p.2) ps.

Definition commit_plans (ps : plans) (s : fts) : fts :=
  foldl (fun s p => upd_entries (alter (set_mounts p.2) p.1) s) s ps.

Definition o9_filetree_apply_specs (caller : Z) (t : tid) (specs : list O9FTMountSpec) (s : fts) : Z * fts :=
  match f_trees s !! t with
  | None => (-1, s)
  | Some tr =>
      if negb (ft_owned s caller t) then (-1, s) else
      match fold_opt (plan_spec s tr) [] specs with
      | None => (-1, s)
      | Some ps => if plans_cycle s t ps then (-1, s) else (0, commit_plans ps s)
      end
  end.

(** ** Destruction *)

(** Some entry of [tree] mounts [t]. *)
Definition tree_mounts (s : fts) (t tree : tid) : bool :=
  match f_trees s !! tree with
  | None => false
  | Some tr =>
      existsb (fun e => match f_entries s !! e with
                        | Some en => existsb (fun m => bool_decide (m_source m = t)) (e_mounts en)
                        | None => false
                        end) (t_all tr)
  end.

Definition o9_filetree_destroy (caller : Z) (t : tid) (s : fts) : Z * fts :=
  match f_trees s !! t with
  | None => (-1, s)
  | Some tr =>
      if bool_decide (t_owner tr <> caller) then (-1, s)
      else if t_alive tr then (-1, s)
      else if existsb (fun x => bool_decide (x.2 = t)) (f_sources s) then (-1, s)
      else if existsb (fun tree => negb (bool_decide (tree = t)) && tree_mounts s t tree) (f_order s) then (-1, s)
      else if bool_decide (t ∈ f_order s) then
        let s := set_order (unlink t (f_order s)) s in
        (0, upd_trees (delete t) (upd_entries (fun m => foldr delete m (t_all tr)) s))
      else (-1, s)
  end.
