(* ===== verification/FileTreeSpec.v ===== *)
(** * View trees: the invariant ([o9_filetree.c])

    Well-formedness of the heap of trees, entries and mounts; the search for
    cycles; and the agreement of listing with lookup. *)
From S2P Require Import Prelude O9Str FileTree.

Open Scope Z_scope.

(** ** Operations as a transition system *)

Inductive ft_op :=
  | FNew
  | FDir (t : positive) (path : ostring)
  | FText (t : positive) (path data : ostring) (writable : Z)
  | FLive (t : positive) (path : ostring) (writable : Z)
  | FRemove (t : positive) (path : ostring)
  | FRegister (t : positive) (id : ostring)
  | FApply (t : positive) (specs : list O9FTMountSpec)
  | FRevoke (t : positive)
  | FClose (t : positive)
  | FDestroy (t : positive).

(** One operation by an actor (its channel). *)
Definition ft_do (caller : Z) (op : ft_op) (s : fts) : Z * fts :=
  match op with
  | FNew => (0, (o9_filetree_new caller s).2)
  | FDir t path => o9_filetree_dir caller t path s
  | FText t path data w => o9_filetree_text caller t path data w s
  | FLive t path w => o9_filetree_live caller t path w s
  | FRemove t path => o9_filetree_remove caller t path s
  | FRegister t id => o9_filetree_register caller t id s
  | FApply t specs => o9_filetree_apply_specs caller t specs s
  | FRevoke t => (0, o9_filetree_revoke t s)
  | FClose t => (0, o9_filetree_close caller t s)
  | FDestroy t => o9_filetree_destroy caller t s
  end.

Definition ft_run (ops : list (Z * ft_op)) (s : fts) : fts := foldl (fun s x => (ft_do x.1 x.2 s).2) s ops.

Definition ft_reach (s : fts) : Prop := exists ops, s = ft_run ops fts0.

(** ** The invariant *)

(** Tree [a] mounts tree [b], once the plans [ps] are carried out. *)
Definition mounts (s : fts) (ps : plans) (a b : positive) : Prop := b ∈ tree_sources s ps a.

Record entry_ok (s : fts) (p : positive) (e : O9FTEntry) : Prop := {
  eo_tree : exists tr, f_trees s !! e_tree e = Some tr /\ p ∈ t_all tr;
  eo_mounts : forall m, m ∈ e_mounts e -> is_Some (f_trees s !! m_source m);
  eo_parent : forall d, e_parent e = Some d -> exists pd, f_entries s !! d = Some pd /\ e_tree pd = e_tree e;
  eo_buckets : length (e_buckets e) = FT_BUCKETS;
  eo_chain : forall b l, e_buckets e !! b = Some l -> NoDup (name_of s <$> l);
  eo_child : forall b l c, e_buckets e !! b = Some l -> c ∈ l ->
    exists ce, f_entries s !! c = Some ce /\ e_parent ce = Some p /\ e_removed ce = false /\
      ft_bucket (e_name ce) = b /\ e_tree ce = e_tree e;
}.

Record tree_ok (s : fts) (t : positive) (tr : O9FileTree) : Prop := {
  to_root : exists r, f_entries s !! t_root tr = Some r /\ e_tree r = t /\ e_kind r = O9FT_DIR /\ e_removed r = false /\ e_parent r = None;
  to_all : forall p, p ∈ t_all tr -> exists e, f_entries s !! p = Some e /\ e_tree e = t;
}.

Record ft_wf (s : fts) : Prop := {
  wf_fresh : forall p, is_Some (f_trees s !! p) \/ is_Some (f_entries s !! p) -> (p < f_fresh s)%positive;
  wf_order : NoDup (f_order s) /\ forall t, t ∈ f_order s <-> is_Some (f_trees s !! t);
  wf_tree : forall t tr, f_trees s !! t = Some tr -> tree_ok s t tr;
  wf_entry : forall p e, f_entries s !! p = Some e -> entry_ok s p e;
  wf_sources : NoDup (f_sources s).*1 /\ forall x, x ∈ f_sources s -> tree_alive s x.2 = true;
  wf_acyclic : acyclic (mounts s []);
}.

(** ** Mount edges *)

Lemma tree_sources_spec s ps a b : mounts s ps a b <->
  exists tr p e m, f_trees s !! a = Some tr /\ p ∈ t_all tr /\ f_entries s !! p = Some e /\ e_removed e = false /\
    m ∈ planned s ps p /\ m_source m = b.
Proof.
  unfold mounts, tree_sources. destruct (f_trees s !! a) as [tr|].
  2:{ split; [by intros ?%elem_of_nil|by intros (? & ? & ? & ? & ? & _)]. }
  rewrite list_elem_of_fmap. setoid_rewrite list_elem_of_In. setoid_rewrite in_concat. setoid_rewrite <- list_elem_of_In.
  split.
  - intros (m & -> & l & Hl & Hm). apply list_elem_of_fmap in Hl as (p & -> & Hp).
    destruct (f_entries s !! p) as [e|] eqn:E; [|by apply elem_of_nil in Hm].
    destruct (e_removed e) eqn:R; [by apply elem_of_nil in Hm|]. by exists tr, p, e, m.
  - intros (tr' & p & e & m & [= <-] & Hp & He & Hr & Hm & <-). exists m. split; [done|].
    exists (planned s ps p). split; [|done]. apply list_elem_of_fmap. exists p. split; [|done]. by rewrite He, Hr.
Qed.

Lemma mounts_spec s a b : mounts s [] a b <->
  exists tr p e m, f_trees s !! a = Some tr /\ p ∈ t_all tr /\ f_entries s !! p = Some e /\ e_removed e = false /\
    m ∈ e_mounts e /\ m_source m = b.
Proof.
  rewrite tree_sources_spec. unfold planned. cbn. split.
  - intros (tr & p & e & m & Ht & Hp & He & Hr & Hm & Hb). rewrite He in Hm. by exists tr, p, e, m.
  - intros (tr & p & e & m & Ht & Hp & He & Hr & Hm & Hb). exists tr, p, e, m. by rewrite He.
Qed.

(** Nothing new is mounted. *)
Lemma mounts_shrink s s' :
  (forall t tr' p e', f_trees s' !! t = Some tr' -> p ∈ t_all tr' -> f_entries s' !! p = Some e' -> e_removed e' = false ->
     e_mounts e' = [] \/ exists tr e, f_trees s !! t = Some tr /\ p ∈ t_all tr /\ f_entries s !! p = Some e /\
       e_removed e = false /\ e_mounts e = e_mounts e') ->
  acyclic (mounts s []) -> acyclic (mounts s' []).
Proof.
  intros H. apply acyclic_mono. intros a b. rewrite !mounts_spec.
  intros (tr' & p & e' & m & Ht & Hp & He & Hr & Hm & Hb).
  destruct (H a tr' p e' Ht Hp He Hr) as [Hn|(tr & e & Ht' & Hp' & He' & Hr' & Hms)].
  - rewrite Hn in Hm. by apply elem_of_nil in Hm.
  - exists tr, p, e, m. rewrite Hms. done.
Qed.

(** ** Updates that keep the shape *)

Definition entry_shape (e : O9FTEntry) := (e_name e, e_tree e, e_parent e, e_buckets e, (e_removed e, e_kind e)).
Definition tree_shape (t : O9FileTree) := (t_root t, t_all t).

Record same_shape (s s' : fts) : Prop := {
  ss_trees : forall t, tree_shape <$> f_trees s' !! t = tree_shape <$> f_trees s !! t;
  ss_entries : forall p, entry_shape <$> f_entries s' !! p = entry_shape <$> f_entries s !! p;
  ss_order : f_order s' = f_order s;
  ss_fresh : f_fresh s' = f_fresh s;
}.

Lemma shape_tree s s' t tr : same_shape s s' -> f_trees s' !! t = Some tr ->
  exists tr0, f_trees s !! t = Some tr0 /\ t_root tr0 = t_root tr /\ t_all tr0 = t_all tr.
Proof.
  intros H E. pose proof (ss_trees _ _ H t) as Ht. rewrite E in Ht. destruct (f_trees s !! t) as [tr0|]; [|done].
  exists tr0. apply (inj Some) in Ht. unfold tree_shape in Ht. by injection Ht as -> ->.
Qed.

Lemma shape_entry s s' p e : same_shape s s' -> f_entries s' !! p = Some e ->
  exists e0, f_entries s !! p = Some e0 /\ entry_shape e0 = entry_shape e.
Proof.
  intros H E. pose proof (ss_entries _ _ H p) as Hp. rewrite E in Hp. destruct (f_entries s !! p) as [e0|]; [|done].
  exists e0. split; [done|]. by apply (inj Some) in Hp.
Qed.

Lemma shape_sym s s' : same_shape s s' -> same_shape s' s.
Proof. intros []. by split. Qed.

Lemma shape_name s s' p : same_shape s s' -> name_of s' p = name_of s p.
Proof.
  intros H. unfold name_of. pose proof (ss_entries _ _ H p) as Hp.
  destruct (f_entries s' !! p), (f_entries s !! p); try done. apply (inj Some) in Hp. unfold entry_shape in Hp. by injection Hp.
Qed.

Lemma wf_shape s s' : ft_wf s -> same_shape s s' ->
  (forall p e m, f_entries s' !! p = Some e -> m ∈ e_mounts e -> is_Some (f_trees s !! m_source m)) ->
  NoDup (f_sources s').*1 -> (forall x, x ∈ f_sources s' -> tree_alive s' x.2 = true) -> acyclic (mounts s' []) -> ft_wf s'.
Proof.
  intros W H Hm Hs1 Hs2 Hac. pose proof (shape_sym _ _ H) as H'.
  assert (Htrees : forall t, is_Some (f_trees s' !! t) <-> is_Some (f_trees s !! t)).
  { intros t. pose proof (ss_trees _ _ H t) as Ht. destruct (f_trees s' !! t), (f_trees s !! t); try done; naive_solver. }
  split; [| | | |done|done].
  - intros p Hp. rewrite (ss_fresh _ _ H). apply (wf_fresh _ W). destruct Hp as [[tr Hp]|[e Hp]].
    + destruct (shape_tree _ _ _ _ H Hp) as (? & -> & _). left. by eexists.
    + destruct (shape_entry _ _ _ _ H Hp) as (? & -> & _). right. by eexists.
  - rewrite (ss_order _ _ H). split; [apply (wf_order _ W)|]. intros t. by rewrite (proj2 (wf_order _ W)), Htrees.
  - intros t tr Ht. destruct (shape_tree _ _ _ _ H Ht) as (tr0 & Ht0 & Hroot & Hall).
    destruct (wf_tree _ W t tr0 Ht0) as [(r & Hr & Hrt & Hrk & Hrr & Hrp) Hp]. split.
    + destruct (shape_entry _ _ _ _ H' Hr) as (r' & Hr' & E). rewrite <- Hroot. exists r'. unfold entry_shape in E. split; [done|].
      injection E as _ E2 E3 _ E5 E6. split_and!; congruence.
    + intros p. rewrite <- Hall. intros Hin. destruct (Hp p Hin) as (e & He & Het).
      destruct (shape_entry _ _ _ _ H' He) as (e' & He' & E). exists e'. split; [done|]. unfold entry_shape in E. injection E as _ E2 _ _ _ _. congruence.
  - intros p e He. destruct (shape_entry _ _ _ _ H He) as (e0 & He0 & E). destruct (wf_entry _ W p e0 He0) as [T M P B C K].
    unfold entry_shape in E. injection E as E1 E2 E3 E4 E5 E6. split.
    + destruct T as (tr0 & Ht0 & Hin). rewrite E2 in Ht0. destruct (shape_tree _ _ _ _ H' Ht0) as (tr & Ht & _ & Hall).
      exists tr. split; [done|]. by rewrite Hall.
    + intros m Hmm. apply Htrees. by eapply Hm.
    + intros d. rewrite <- E3. intros Hd. destruct (P d Hd) as (pd & Hpd & Hpt). destruct (shape_entry _ _ _ _ H' Hpd) as (pd' & Hpd' & E').
      exists pd'. split; [done|]. unfold entry_shape in E'. injection E' as _ E2' _ _ _ _. congruence.
    + by rewrite <- E4.
    + intros b l. rewrite <- E4. intros Hl. rewrite (list_fmap_ext _ (name_of s)); [by eapply C|]. intros i x _. by apply shape_name.
    + intros b l c. rewrite <- E4. intros Hl Hc. destruct (K b l c Hl Hc) as (ce & Hce & K1 & K2 & K3 & K4).
      destruct (shape_entry _ _ _ _ H' Hce) as (ce' & Hce' & E'). exists ce'. unfold entry_shape in E'. injection E' as E1' E2' E3' _ E5' _.
      split_and!; congruence.
Qed.

Lemma mounts_same s s' : (forall t, t_all <$> f_trees s' !! t = t_all <$> f_trees s !! t) ->
  (forall p, (fun e => (e_removed e, e_mounts e)) <$> f_entries s' !! p = (fun e => (e_removed e, e_mounts e)) <$> f_entries s !! p) ->
  acyclic (mounts s []) -> acyclic (mounts s' []).
Proof.
  intros Ht He. apply mounts_shrink. intros t tr' p e' Htr Hp Hpe Hr. right.
  specialize (Ht t). specialize (He p). rewrite Htr in Ht. rewrite Hpe in He.
  destruct (f_trees s !! t) as [tr|]; [|done]. destruct (f_entries s !! p) as [e|]; [|done].
  apply (inj Some) in Ht, He. injection He as E1 E2. exists tr, e. rewrite <- Ht, <- E1, <- E2. done.
Qed.

(** The text or the permission of an entry changes. *)
Lemma wf_set_data s p e data w : ft_wf s -> f_entries s !! p = Some e -> ft_wf (upd_entries (<[p := set_data data w e]>) s).
Proof.
  intros W He. assert (Hl : forall q, f_entries (upd_entries (<[p := set_data data w e]>) s) !! q =
      if decide (p = q) then Some (set_data data w e) else f_entries s !! q).
  { intros q. cbn. case_decide; [subst; apply lookup_insert_eq|by apply lookup_insert_ne]. }
  apply (wf_shape s); try done.
  - split; try done. intros q. rewrite Hl. case_decide; [subst; by rewrite He|done].
  - intros q e' m. rewrite Hl. case_decide as D; [subst; intros [= <-] Hm; by eapply (eo_mounts _ _ _ (wf_entry _ W _ _ He))|].
    intros He' Hm. by eapply (eo_mounts _ _ _ (wf_entry _ W _ _ He')).
  - apply (wf_sources _ W).
  - apply (wf_sources _ W).
  - apply (mounts_same s); [done| |apply (wf_acyclic _ W)]. intros q. rewrite Hl. case_decide; [subst; by rewrite He|done].
Qed.

Lemma wf_register s t name : ft_wf s -> tree_alive s t = true -> name ∉ (f_sources s).*1 -> ft_wf (set_sources ((name, t) :: f_sources s) s).
Proof.
  intros W Ha Hn. destruct (wf_sources _ W) as [H1 H2]. apply (wf_shape s); try done.
  - intros p e m He Hm. by eapply (eo_mounts _ _ _ (wf_entry _ W _ _ He)).
  - by constructor.
  - intros x [->|Hx]%elem_of_cons; [done|by apply H2].
  - apply (mounts_same s); [done|done|apply (wf_acyclic _ W)].
Qed.

Lemma tree_alive_other s s' t u : f_trees s' = alter (set_alive false) t (f_trees s) -> u <> t -> tree_alive s' u = tree_alive s u.
Proof. intros E Hu. unfold tree_alive. rewrite E, lookup_alter_ne by done. done. Qed.

Lemma wf_revoke s t : ft_wf s -> ft_wf (o9_filetree_revoke t s).
Proof.
  intros W. unfold o9_filetree_revoke. destruct (f_trees s !! t) as [tr|] eqn:Et; [|done].
  set (s' := set_sources _ _).
  assert (Hl : forall u, f_trees s' !! u = if decide (t = u) then Some (set_alive false tr) else f_trees s !! u).
  { intros u. cbn. case_decide as D; [subst; by rewrite lookup_alter_eq, Et|by rewrite lookup_alter_ne]. }
  destruct (wf_sources _ W) as [H1 H2]. apply (wf_shape s); try done.
  - split; try done. intros u. rewrite Hl. case_decide; [subst; by rewrite Et|done].
  - intros p e m He Hm. by eapply (eo_mounts _ _ _ (wf_entry _ W _ _ He)).
  - cbn. eapply sublist_NoDup; [apply H1|]. apply fmap_sublist, sublist_filter.
  - intros x Hx. cbn in Hx. apply list_elem_of_filter in Hx as [Hne Hx]. rewrite (tree_alive_other s s' t); [by apply H2|done|done].
  - apply (mounts_same s); [|done|apply (wf_acyclic _ W)]. intros u. rewrite Hl. case_decide; [subst; by rewrite Et|done].
Qed.

(** ** Finding entries *)

Lemma ft_find_child s d name p : ft_wf s -> ft_find s d name = Some p ->
  exists de e, f_entries s !! d = Some de /\ e_kind de = O9FT_DIR /\ f_entries s !! p = Some e /\ p ∈ bucket_of de name /\
    e_name e = name /\ e_removed e = false /\ e_parent e = Some d /\ e_tree e = e_tree de.
Proof.
  intros W. unfold ft_find. destruct (f_entries s !! d) as [de|] eqn:Ed; [|done]. unfold is_dir. case_bool_decide as Hk; [|done].
  destruct (list_find _ _) as [[i q]|] eqn:E; [|done]. intros [= ->]. apply list_find_Some in E as (Hi & Hn & _).
  unfold named in Hn. destruct (f_entries s !! p) as [e|] eqn:Ep; [|done]. destruct Hn as [Hr Hn].
  assert (Hin : p ∈ bucket_of de name) by (by eapply list_elem_of_lookup_2). exists de, e. split_and!; try done.
  - unfold bucket_of in Hin. destruct (e_buckets de !! ft_bucket name) as [l|] eqn:El; [|by apply elem_of_nil in Hin].
    destruct (eo_child _ _ _ (wf_entry _ W _ _ Ed) _ _ _ El Hin) as (ce & Hce & Hp & _). congruence.
  - unfold bucket_of in Hin. destruct (e_buckets de !! ft_bucket name) as [l|] eqn:El; [|by apply elem_of_nil in Hin].
    destruct (eo_child _ _ _ (wf_entry _ W _ _ Ed) _ _ _ El Hin) as (ce & Hce & _ & _ & _ & Ht). congruence.
Qed.

Lemma ft_find_none s d de name : ft_wf s -> f_entries s !! d = Some de -> e_kind de = O9FT_DIR -> ft_find s d name = None ->
  forall p, p ∈ bucket_of de name -> name_of s p <> name.
Proof.
  intros W Ed Hk Hf p Hp Hn. unfold ft_find in Hf. rewrite Ed in Hf. unfold is_dir in Hf. rewrite bool_decide_true in Hf by done.
  destruct (list_find _ _) as [x|] eqn:E; [done|]. apply list_find_None in E. rewrite Forall_forall in E. apply (E p Hp).
  unfold bucket_of in Hp. destruct (e_buckets de !! ft_bucket name) as [l|] eqn:El; [|by apply elem_of_nil in Hp].
  destruct (eo_child _ _ _ (wf_entry _ W _ _ Ed) _ _ _ El Hp) as (ce & Hce & _ & Hr & _).
  unfold named. unfold name_of in Hn. rewrite Hce in *. done.
Qed.

(** The directory that a path leads to belongs to the tree. *)
Lemma parent_loop_tree fuel s dir p parent leaf t : ft_wf s ->
  (exists d, f_entries s !! dir = Some d /\ e_tree d = t /\ e_kind d = O9FT_DIR /\ e_removed d = false) ->
  parent_loop fuel s dir p = Some (parent, leaf) ->
  exists d, f_entries s !! parent = Some d /\ e_tree d = t /\ e_kind d = O9FT_DIR /\ e_removed d = false.
Proof.
  intros W. revert dir p. induction fuel as [|fuel IH]; intros dir p Hd; [done|]. cbn [parent_loop].
  destruct (strchr x2f p) as [seg [rest|]].
  - destruct (ft_name_ok seg); [|done]. destruct (ft_find s dir seg) as [q|] eqn:Ef; [|done].
    destruct (ft_find_child _ _ _ _ W Ef) as (de & e & Hde & _ & He & _ & _ & Hr & _ & Ht). rewrite He.
    unfold is_dir. case_bool_decide as Hk; [|done]. apply IH. exists e. destruct Hd as (d & Hd1 & Hd2 & _). split_and!; try done.
    rewrite Ht. congruence.
  - destruct (ft_name_ok seg); [|done]. by intros [= <- <-].
Qed.

Lemma ft_parent_tree s t tr path parent leaf : ft_wf s -> f_trees s !! t = Some tr -> ft_parent s tr path = Some (parent, leaf) ->
  exists d, f_entries s !! parent = Some d /\ e_tree d = t /\ e_kind d = O9FT_DIR /\ e_removed d = false.
Proof.
  intros W Ht. unfold ft_parent. destruct (_ || _); [done|]. apply parent_loop_tree; [done|].
  destruct (to_root _ _ _ (wf_tree _ W _ _ Ht)) as (r & ? & ? & ? & ? & _). by exists r.
Qed.

(** ** A new entry *)

Section new_entry.
Context (s : fts) (W : ft_wf s) (t : positive) (tr : O9FileTree) (Ht : f_trees s !! t = Some tr).
Context (d : positive) (de : O9FTEntry) (Hd : f_entries s !! d = Some de) (Hdt : e_tree de = t) (Hdk : e_kind de = O9FT_DIR).
Context (name : bytes) (kind : Z) (data : ostring) (w : Z) (Hf : ft_find s d name = None).

Let p := f_fresh s.
Let e := FtEntry name (f_next_id s) kind w false data t [] (Some d) (replicate FT_BUCKETS []).
Let s' := (ft_entry s t (Some d) name kind data w).2.

Lemma fresh_entry : f_entries s !! p = None.
Proof.
  destruct (f_entries s !! p) eqn:E; [|done]. pose proof (wf_fresh _ W p (or_intror (mk_is_Some _ _ E))) as H. unfold p in H. lia.
Qed.

Lemma new_not_dir : p <> d.
Proof. intros E. pose proof fresh_entry as H. rewrite E, Hd in H. done. Qed.

Lemma new_lookup q : f_entries s' !! q =
  if decide (q = p) then Some e else if decide (q = d) then Some (upd_bucket (ft_bucket name) (cons p) de) else f_entries s !! q.
Proof.
  unfold s', ft_entry. cbn [snd f_entries]. pose proof new_not_dir as Hne. destruct (decide (q = d)) as [->|Hq].
  - rewrite decide_False by congruence. rewrite lookup_alter_eq, lookup_insert_ne, Hd by done. done.
  - rewrite lookup_alter_ne by done. case_decide; [subst; apply lookup_insert_eq|by apply lookup_insert_ne].
Qed.

Lemma new_trees u : f_trees s' !! u = if decide (u = t) then Some (add_all p tr) else f_trees s !! u.
Proof.
  unfold s', ft_entry. cbn [snd f_trees]. case_decide as D; [subst u; by rewrite lookup_alter_eq, Ht|by rewrite lookup_alter_ne].
Qed.

Lemma new_name q : name_of s' q = if decide (q = p) then name else name_of s q.
Proof. unfold name_of. rewrite new_lookup. repeat case_decide; subst; try done. by rewrite Hd. Qed.

Lemma new_old_entry q f : f_entries s !! q = Some f -> exists f', f_entries s' !! q = Some f' /\ e_tree f' = e_tree f /\
  e_name f' = e_name f /\ e_parent f' = e_parent f /\ e_removed f' = e_removed f /\ e_kind f' = e_kind f /\ e_mounts f' = e_mounts f.
Proof.
  intros Hq. rewrite new_lookup. destruct (decide (q = p)) as [->|]; [rewrite fresh_entry in Hq; done|].
  case_decide; [subst; simplify_eq; by eexists|]. by exists f.
Qed.

(** Old facts about entries other than the directory carry over. *)
Lemma new_entry_ok q f f' : f_entries s !! q = Some f -> entry_shape f' = (e_name f, e_tree f, e_parent f, e_buckets f', (e_removed f, e_kind f)) ->
  e_mounts f' = e_mounts f -> length (e_buckets f') = FT_BUCKETS ->
  (forall b l, e_buckets f' !! b = Some l -> (e_buckets f !! b = Some l) \/ (q = d /\ b = ft_bucket name /\ exists l0, l = p :: l0 /\ e_buckets f !! b = Some l0)) ->
  entry_ok s' q f'.
Proof.
  intros Hq E Em Eb Hb. unfold entry_shape in E. injection E as E1 E2 E3 E5 E6. destruct (wf_entry _ W _ _ Hq) as [T M P B C K].
  assert (Hold : forall l : list positive, (forall c, c ∈ l -> is_Some (f_entries s !! c)) -> name_of s' <$> l = name_of s <$> l).
  { intros l Hl. apply list_fmap_ext. intros i c Hc. rewrite new_name. destruct (decide (c = p)) as [->|]; [|done].
    destruct (Hl p (list_elem_of_lookup_2 _ _ _ Hc)) as [? Hx]. by rewrite fresh_entry in Hx. }
  assert (Hkids : forall b l, e_buckets f !! b = Some l -> forall c, c ∈ l -> is_Some (f_entries s !! c)).
  { intros b l Hl c Hc. destruct (K b l c Hl Hc) as (ce & Hce & _). by eexists. }
  split.
  - destruct T as (tr0 & H1 & H2). rewrite E2, new_trees. case_decide as D; [|by exists tr0].
    exists (add_all p tr). rewrite D, Ht in H1. injection H1 as ->. split; [done|]. by right.
  - intros m. rewrite Em. intros Hm. rewrite new_trees. case_decide; [done|by apply M].
  - intros d0. rewrite E3. intros Hd0. destruct (P d0 Hd0) as (pd & Hpd & Hpt). destruct (new_old_entry _ _ Hpd) as (pd' & Hpd' & H1 & _).
    exists pd'. split; [done|congruence].
  - done.
  - intros b l Hl. destruct (Hb b l Hl) as [Hl0|(-> & -> & l0 & -> & Hl0)].
    + rewrite Hold by (by eapply Hkids). by eapply C.
    + cbn [fmap list_fmap]. rewrite (Hold l0) by (by eapply Hkids). constructor; [|by eapply C].
      rewrite new_name, decide_True by done. intros Hin. apply list_elem_of_fmap in Hin as (c & Hn & Hc).
      assert (f = de) as -> by congruence. apply (ft_find_none s d de name W Hd Hdk Hf c); [|done]. unfold bucket_of. by rewrite Hl0.
  - intros b l c Hl Hc. assert (Hc' : (exists l0, e_buckets f !! b = Some l0 /\ c ∈ l0) \/ (c = p /\ q = d /\ b = ft_bucket name)).
    { destruct (Hb b l Hl) as [Hl0|(-> & -> & l0 & -> & Hl0)]; [left; by exists l|]. apply elem_of_cons in Hc as [->|Hc]; [by right|left; by exists l0]. }
    destruct Hc' as [(l0 & Hl0 & Hc0)|(-> & -> & ->)].
    + destruct (K b l0 c Hl0 Hc0) as (ce & Hce & K1 & K2 & K3 & K4). destruct (new_old_entry _ _ Hce) as (ce' & Hce' & X1 & X2 & X3 & X4 & _).
      exists ce'. split_and!; congruence.
    + exists e. rewrite new_lookup, decide_True by done. split_and!; try done. rewrite E2. cbn. congruence.
Qed.

Lemma wf_new_entry : ft_wf s'.
Proof.
  split.
  - intros q. unfold s', ft_entry. cbn [snd f_fresh]. fold p. intros Hq. assert (q = p \/ (q < p)%positive); [|lia].
    destruct (decide (q = p)); [by left|right]. apply (wf_fresh _ W). destruct Hq as [[x Hq]|[x Hq]].
    + left. change (f_trees s' !! q = Some x) in Hq. rewrite new_trees in Hq. case_decide; [subst; by eexists|by eexists].
    + right. change (f_entries s' !! q = Some x) in Hq. rewrite new_lookup, decide_False in Hq by done. case_decide; [subst; by eexists|by eexists].
  - split; [apply (wf_order _ W)|]. intros u. change (f_order s') with (f_order s). rewrite (proj2 (wf_order _ W)), new_trees.
    case_decide; [subst; by rewrite Ht|done].
  - intros u tu Hu. assert (Hold : exists tu0, f_trees s !! u = Some tu0 /\ t_root tu = t_root tu0 /\
        forall q, q ∈ t_all tu -> q ∈ t_all tu0 \/ (q = p /\ u = t)).
    { rewrite new_trees in Hu. case_decide; [subst; injection Hu as <-; exists tr|exists tu; auto].
      split_and!; [done|done|]. intros q [->|Hq]%elem_of_cons; auto. }
    destruct Hold as (tu0 & Hu0 & Hroot & Hall). destruct (wf_tree _ W _ _ Hu0) as [(r & H1 & H2 & H3 & H4 & H6) H5]. split.
    + rewrite Hroot. destruct (new_old_entry _ _ H1) as (r' & Hr' & X1 & _ & X3 & X4 & X5 & _). exists r'. split_and!; congruence.
    + intros q Hq. destruct (Hall q Hq) as [Hq0|[-> ->]].
      * destruct (H5 q Hq0) as (f & Hff & Hft). destruct (new_old_entry _ _ Hff) as (f' & Hf' & X1 & _). exists f'. split; congruence.
      * exists e. by rewrite new_lookup, decide_True.
  - intros q f' Hq. pose proof Hq as Hq'. rewrite new_lookup in Hq. destruct (decide (q = p)) as [->|Hqp].
    + injection Hq as <-. split; unfold e; cbn [e_tree e_mounts e_parent e_buckets].
      * exists (add_all p tr). rewrite new_trees, decide_True by done. split; [done|by left].
      * intros m Hm. by apply elem_of_nil in Hm.
      * intros d0 [= <-]. destruct (new_old_entry _ _ Hd) as (de' & Hde' & X1 & _). exists de'. split; [done|congruence].
      * done.
      * intros b l Hl. apply lookup_replicate in Hl as [-> _]. constructor.
      * intros b l c Hl Hc. apply lookup_replicate in Hl as [-> _]. by apply elem_of_nil in Hc.
    + destruct (decide (q = d)) as [->|Hqd].
      * injection Hq as <-. apply (new_entry_ok d de); try done.
        -- cbn. rewrite length_alter. apply (eo_buckets _ _ _ (wf_entry _ W _ _ Hd)).
        -- cbn. intros b l Hl. rewrite list_lookup_alter in Hl. case_decide; [subst|by left]. right.
           destruct (e_buckets de !! ft_bucket name) as [l0|]; [|done]. injection Hl as <-. by eauto.
      * apply (new_entry_ok q f'); try done; [apply (eo_buckets _ _ _ (wf_entry _ W _ _ Hq))|]. by left.
  - destruct (wf_sources _ W) as [H1 H2]. split; [done|]. intros x Hx. specialize (H2 x Hx). unfold tree_alive in *. rewrite new_trees.
    case_decide as D; [|done]. by rewrite D, Ht in H2.
  - apply (mounts_shrink s); [|apply (wf_acyclic _ W)]. intros u tu q f Hu Hq Hqf Hr. rewrite new_lookup in Hqf.
    destruct (decide (q = p)) as [->|Hqp]; [injection Hqf as <-; by left|]. right.
    assert (Hu0 : exists tu0, f_trees s !! u = Some tu0 /\ q ∈ t_all tu0).
    { rewrite new_trees in Hu. destruct (decide (u = t)) as [->|]; [injection Hu as <-; exists tr|by exists tu]. split; [done|]. by apply elem_of_cons in Hq as [?|?]. }
    destruct Hu0 as (tu0 & Hu0 & Hq0). exists tu0. destruct (decide (q = d)) as [->|]; [injection Hqf as <-; exists de|exists f]; done.
Qed.
End new_entry.

(** ** A new tree *)

Section new_tree.
Context (s : fts) (W : ft_wf s) (caller : Z).

Let t := f_fresh s.
Let root := (t + 1)%positive.
Let s' := (o9_filetree_new caller s).2.
Let e := FtEntry (str ".") (f_next_id s) O9FT_DIR 0 false None t [] None (replicate FT_BUCKETS []).

Lemma fresh_tree q : is_Some (f_trees s !! q) \/ is_Some (f_entries s !! q) -> (q < t)%positive.
Proof. apply (wf_fresh _ W). Qed.

Lemma newt_trees u : f_trees s' !! u = if decide (u = t) then Some (FtTree caller true root [root]) else f_trees s !! u.
Proof.
  unfold s', o9_filetree_new, ft_entry. cbn [snd set_order f_trees]. case_decide as D.
  - subst u. rewrite lookup_alter_eq, lookup_insert_eq. done.
  - rewrite lookup_alter_ne, lookup_insert_ne by done. done.
Qed.

Lemma newt_entries q : f_entries s' !! q = if decide (q = root) then Some e else f_entries s !! q.
Proof.
  unfold s', o9_filetree_new, ft_entry. cbn [snd set_order f_entries f_fresh f_next_id]. case_decide as D.
  - subst q. apply lookup_insert_eq.
  - by apply lookup_insert_ne.
Qed.

Lemma newt_old q f : f_entries s !! q = Some f -> q <> root /\ f_entries s' !! q = Some f.
Proof.
  intros Hq. assert (q < t)%positive by (apply fresh_tree; right; by eexists).
  assert (q <> root) by (unfold root; lia). split; [done|]. by rewrite newt_entries, decide_False.
Qed.

Lemma newt_old_tree u tu : f_trees s !! u = Some tu -> u <> t /\ f_trees s' !! u = Some tu.
Proof.
  intros Hu. assert (u < t)%positive by (apply fresh_tree; left; by eexists).
  assert (u <> t) by lia. split; [done|]. by rewrite newt_trees, decide_False.
Qed.

Lemma newt_name q : is_Some (f_entries s !! q) -> name_of s' q = name_of s q.
Proof. intros [f Hf]. unfold name_of. rewrite Hf. by rewrite (proj2 (newt_old _ _ Hf)). Qed.

Lemma wf_new_tree : ft_wf s'.
Proof.
  split.
  - intros q. change (f_fresh s') with (root + 1)%positive. assert (Hr : (t < root + 1)%positive) by (unfold root; lia).
    intros [[x Hq]|[x Hq]].
    + rewrite newt_trees in Hq. case_decide; [by subst|]. assert (q < t)%positive by (apply fresh_tree; left; by eexists). lia.
    + rewrite newt_entries in Hq. case_decide; [subst; lia|]. assert (q < t)%positive by (apply fresh_tree; right; by eexists). lia.
  - destruct (wf_order _ W) as [H1 H2]. change (f_order s') with (t :: f_order s). split.
    + constructor; [|done]. intros Hin. apply H2 in Hin as [tu Hu]. by destruct (newt_old_tree _ _ Hu).
    + intros u. rewrite elem_of_cons, H2, newt_trees. case_decide; [subst; split; [by eexists|by left]|]. naive_solver.
  - intros u tu Hu. rewrite newt_trees in Hu. destruct (decide (u = t)) as [->|Hut].
    + injection Hu as <-. split; cbn [t_root t_all].
      * exists e. by rewrite newt_entries, decide_True.
      * intros q Hq. apply list_elem_of_singleton in Hq as ->. exists e. by rewrite newt_entries, decide_True.
    + destruct (wf_tree _ W _ _ Hu) as [(r & H1 & H2) H3]. split.
      * exists r. by rewrite (proj2 (newt_old _ _ H1)).
      * intros q Hq. destruct (H3 q Hq) as (f & Hf & Hft). exists f. by rewrite (proj2 (newt_old _ _ Hf)).
  - intros q f Hq. rewrite newt_entries in Hq. destruct (decide (q = root)) as [->|Hqr].
    + injection Hq as <-. split; unfold e; cbn [e_tree e_mounts e_parent e_buckets].
      * exists (FtTree caller true root [root]). rewrite newt_trees, decide_True by done. split; [done|]. by apply list_elem_of_singleton.
      * intros m Hm. by apply elem_of_nil in Hm.
      * done.
      * done.
      * intros b l Hl. apply lookup_replicate in Hl as [-> _]. constructor.
      * intros b l c Hl Hc. apply lookup_replicate in Hl as [-> _]. by apply elem_of_nil in Hc.
    + destruct (wf_entry _ W _ _ Hq) as [T M P B C K]. split.
      * destruct T as (tr & H1 & H2). exists tr. by rewrite (proj2 (newt_old_tree _ _ H1)).
      * intros m Hm. destruct (M m Hm) as [tu Hu]. rewrite (proj2 (newt_old_tree _ _ Hu)). by eexists.
      * intros d Hd. destruct (P d Hd) as (pd & H1 & H2). exists pd. by rewrite (proj2 (newt_old _ _ H1)).
      * done.
      * intros b l Hl. rewrite (list_fmap_ext _ (name_of s)); [by eapply C|]. intros i c Hc. apply newt_name.
        destruct (K b l c Hl (list_elem_of_lookup_2 _ _ _ Hc)) as (ce & Hce & _). by eexists.
      * intros b l c Hl Hc. destruct (K b l c Hl Hc) as (ce & Hce & Hx). exists ce. by rewrite (proj2 (newt_old _ _ Hce)).
  - destruct (wf_sources _ W) as [H1 H2]. split; [done|]. intros x Hx. specialize (H2 x Hx). unfold tree_alive in *.
    destruct (f_trees s !! x.2) as [tu|] eqn:Hu; [|done]. by rewrite (proj2 (newt_old_tree _ _ Hu)).
  - apply (mounts_shrink s); [|apply (wf_acyclic _ W)]. intros u tu q f Hu Hq Hf Hr. rewrite newt_entries in Hf.
    destruct (decide (q = root)) as [->|Hqr]; [injection Hf as <-; by left|]. rewrite newt_trees in Hu. destruct (decide (u = t)) as [->|].
    + injection Hu as <-. cbn in Hq. by apply list_elem_of_singleton in Hq.
    + right. by exists tu, f.
Qed.
End new_tree.

(** ** An entry is unlinked *)

Lemma unlink_elem p q l : q ∈ unlink p l -> q ∈ l.
Proof.
  induction l as [|x l IH]; cbn [unlink]; [done|]. case_decide; [by right|].
  intros [->|Hin]%elem_of_cons; [by left|right; auto].
Qed.

Lemma unlink_sublist p l : sublist (unlink p l) l.
Proof. induction l as [|x l IH]; cbn [unlink]; [done|]. case_decide; [by constructor|by constructor]. Qed.

Lemma unlink_not_in p l : NoDup l -> p ∉ unlink p l.
Proof.
  induction 1 as [|x l Hx Hl IH]; cbn [unlink]; [by apply not_elem_of_nil|]. case_decide; [by subst|].
  intros [->|Hin]%elem_of_cons; done.
Qed.

Section removal.
Context (s : fts) (W : ft_wf s) (d p : positive) (de e : O9FTEntry) (name : bytes).
Context (Hd : f_entries s !! d = Some de) (Hp : f_entries s !! p = Some e).
Context (Hpar : e_parent e = Some d) (Hname : e_name e = name) (Hempty : forall b l, e_buckets e !! b = Some l -> l = []).

Let s' := upd_entries (alter set_removed p) (upd_entries (alter (upd_bucket (ft_bucket name) (unlink p)) d) s).

Lemma remove_lookup q : f_entries s' !! q =
  (fun f => (if decide (q = p) then set_removed else id) ((if decide (q = d) then upd_bucket (ft_bucket name) (unlink p) else id) f)) <$> f_entries s !! q.
Proof.
  unfold s', upd_entries. cbn [f_entries]. destruct (decide (q = p)) as [->|H1].
  - rewrite lookup_alter_eq. destruct (decide (p = d)) as [->|H2].
    + rewrite lookup_alter_eq. by destruct (f_entries s !! d).
    + rewrite lookup_alter_ne by done. by destruct (f_entries s !! p).
  - rewrite lookup_alter_ne by done. destruct (decide (q = d)) as [->|H2].
    + rewrite lookup_alter_eq. by destruct (f_entries s !! d).
    + rewrite lookup_alter_ne by done. by destruct (f_entries s !! q).
Qed.

(** What an entry keeps. *)
Lemma remove_old q f : f_entries s !! q = Some f -> exists f', f_entries s' !! q = Some f' /\
  e_name f' = e_name f /\ e_tree f' = e_tree f /\ e_parent f' = e_parent f /\ e_kind f' = e_kind f /\ e_mounts f' = e_mounts f /\
  e_removed f' = (if decide (q = p) then true else e_removed f) /\
  length (e_buckets f') = length (e_buckets f) /\
  forall b l, e_buckets f' !! b = Some l -> exists l0, e_buckets f !! b = Some l0 /\
    if decide (q = d /\ b = ft_bucket name) then l = unlink p l0 else l = l0.
Proof.
  intros Hq. rewrite remove_lookup, Hq. eexists. split; [reflexivity|].
  split_and!; [by repeat case_decide..| |by repeat case_decide; cbn; rewrite ?length_alter|].
  - repeat case_decide; subst; try done.
  - intros b l Hl. assert (Hl' : (if decide (q = d) then alter (unlink p) (ft_bucket name) (e_buckets f) else e_buckets f) !! b = Some l)
      by (revert Hl; by repeat case_decide). clear Hl. destruct (decide (q = d)) as [->|Hqd].
    + rewrite list_lookup_alter in Hl'. destruct (decide (ft_bucket name = b)) as [<-|Hb].
      * destruct (e_buckets f !! ft_bucket name) as [l0|]; [|done]. injection Hl' as <-. exists l0. split; [done|]. by rewrite decide_True.
      * exists l. split; [done|]. rewrite decide_False; [done|]. by intros [_ ->].
    + exists l. split; [done|]. rewrite decide_False; [done|]. by intros [-> _].
Qed.

Lemma remove_new q f' : f_entries s' !! q = Some f' -> is_Some (f_entries s !! q).
Proof. rewrite remove_lookup. destruct (f_entries s !! q); [by eexists|done]. Qed.

Lemma remove_name q : name_of s' q = name_of s q.
Proof. unfold name_of. rewrite remove_lookup. destruct (f_entries s !! q); [|done]. cbn. by repeat case_decide. Qed.

(** No chain holds the entry any more. *)
Lemma remove_unlinked q f b l : f_entries s !! q = Some f -> e_buckets f !! b = Some l ->
  p ∈ (if decide (q = d /\ b = ft_bucket name) then unlink p l else l) -> False.
Proof.
  intros Hq Hl Hin. destruct (wf_entry _ W _ _ Hq) as [_ _ _ _ C K]. destruct (decide (q = d /\ b = ft_bucket name)) as [[-> ->]|Hne].
  - apply unlink_not_in in Hin; [done|]. specialize (C _ _ Hl). by apply NoDup_fmap_1 in C.
  - destruct (K b l p Hl Hin) as (ce & Hce & H1 & _ & H3 & _). rewrite Hp in Hce. injection Hce as <-. apply Hne.
    split; congruence.
Qed.

Lemma wf_remove : ft_wf s'.
Proof.
  split.
  - intros q Hq. apply (wf_fresh _ W). destruct Hq as [Hq|[x Hq]]; [by left|right; by eapply remove_new].
  - apply (wf_order _ W).
  - intros u tu Hu. destruct (wf_tree _ W _ _ Hu) as [(r & H1 & H2 & H3 & H4 & H6) H5]. split.
    + destruct (remove_old _ _ H1) as (r' & Hr' & _ & X2 & X3 & X4 & _ & X6 & _). exists r'. split_and!; [done|congruence|congruence| |congruence].
      rewrite X6. destruct (decide (t_root tu = p)) as [E|]; [|done]. exfalso. rewrite E in H1. congruence.
    + intros q Hq. destruct (H5 q Hq) as (f & Hf & Hft). destruct (remove_old _ _ Hf) as (f' & Hf' & _ & X2 & _). exists f'. split; congruence.
  - intros q f' Hq. destruct (remove_new _ _ Hq) as [f Hf]. destruct (remove_old _ _ Hf) as (f'' & Hf' & X1 & X2 & X3 & X4 & X5 & X6 & X7 & X8).
    rewrite Hq in Hf'. injection Hf' as <-. destruct (wf_entry _ W _ _ Hf) as [T M P B C K]. split.
    + by rewrite X2.
    + intros m. rewrite X5. apply M.
    + intros d0. rewrite X3. intros Hd0. destruct (P d0 Hd0) as (pd & H1 & H2). destruct (remove_old _ _ H1) as (pd' & Hpd' & _ & Y2 & _).
      exists pd'. split; congruence.
    + by rewrite X7.
    + intros b l Hl. destruct (X8 b l Hl) as (l0 & Hl0 & Hd0). rewrite (list_fmap_ext _ (name_of s)) by (intros; apply remove_name).
      specialize (C b l0 Hl0). destruct (decide (q = d /\ b = ft_bucket name)); subst l; [|done]. eapply sublist_NoDup; [apply C|]. apply fmap_sublist, unlink_sublist.
    + intros b l c Hl Hc. destruct (X8 b l Hl) as (l0 & Hl0 & Hd0).
      assert (Hcp : c <> p).
      { intros ->. apply (remove_unlinked q f b l0 Hf Hl0). destruct (decide (q = d /\ b = ft_bucket name)); by subst l. }
      assert (Hc0 : c ∈ l0) by (destruct (decide (q = d /\ b = ft_bucket name)); subst l; [by eapply unlink_elem|done]).
      destruct (K b l0 c Hl0 Hc0) as (ce & Hce & K1 & K2 & K3 & K4). destruct (remove_old _ _ Hce) as (ce' & Hce' & Y1 & Y2 & Y3 & Y4 & Y5 & Y6 & _).
      rewrite decide_False in Y6 by done. exists ce'. split_and!; congruence.
  - apply (wf_sources _ W).
  - apply (mounts_shrink s); [|apply (wf_acyclic _ W)]. intros u tu q f' Hu Hq Hf' Hr. right. destruct (remove_new _ _ Hf') as [f Hf].
    destruct (remove_old _ _ Hf) as (f'' & Hf'' & _ & _ & _ & _ & X5 & X6 & _). rewrite Hf' in Hf''. injection Hf'' as <-.
    exists tu, f. split_and!; try done. rewrite Hr in X6. by destruct (decide (q = p)).
Qed.
End removal.

(** ** Destruction *)

Lemma foldr_delete_lookup (l : list positive) (m : gmap positive O9FTEntry) q :
  foldr delete m l !! q = if decide (q ∈ l) then None else m !! q.
Proof.
  induction l as [|x l IH]; [done|]. cbn [foldr]. destruct (decide (q = x)) as [->|Hq].
  - rewrite lookup_delete_eq, decide_True; [done|by left].
  - rewrite lookup_delete_ne by done. rewrite IH. destruct (decide (q ∈ l)) as [H|H].
    + rewrite decide_True; [done|by right].
    + rewrite decide_False; [done|]. by intros [?|?]%elem_of_cons.
Qed.

Lemma unlink_elem_iff p l q : NoDup l -> q ∈ unlink p l <-> q ∈ l /\ q <> p.
Proof.
  intros Hnd. split.
  - intros Hin. split; [by eapply unlink_elem|]. intros ->. by eapply unlink_not_in.
  - intros [Hin Hne]. clear Hnd. induction l as [|x l IH]; cbn [unlink]; [done|]. apply elem_of_cons in Hin as [->|Hin].
    + rewrite decide_False by done. by left.
    + case_decide; [done|]. right. auto.
Qed.

(** What the search through the other trees finds out. *)
Lemma not_mounted s t : ft_wf s ->
  existsb (fun tree => negb (bool_decide (tree = t)) && tree_mounts s t tree) (f_order s) = false <->
  forall q e m, f_entries s !! q = Some e -> e_tree e <> t -> m ∈ e_mounts e -> m_source m <> t.
Proof.
  intros W. rewrite <- not_true_iff_false, existsb_exists. setoid_rewrite <- list_elem_of_In. setoid_rewrite andb_true_iff.
  setoid_rewrite negb_true_iff. setoid_rewrite bool_decide_eq_false. split.
  - intros Hn q e m Hq Het Hm Hms. apply Hn. destruct (eo_tree _ _ _ (wf_entry _ W _ _ Hq)) as (tr & Htr & Hin).
    exists (e_tree e). split; [apply (wf_order _ W); by eexists|]. split; [done|]. unfold tree_mounts. rewrite Htr.
    apply existsb_exists. exists q. rewrite <- list_elem_of_In. split; [done|]. rewrite Hq. apply existsb_exists.
    exists m. rewrite <- list_elem_of_In. split; [done|]. by apply bool_decide_eq_true.
  - intros H (u & Hu & Hut & Hm). unfold tree_mounts in Hm. destruct (f_trees s !! u) as [tr|] eqn:Htr; [|done].
    apply existsb_exists in Hm as (q & Hq & Hm). apply list_elem_of_In in Hq.
    destruct (to_all _ _ _ (wf_tree _ W _ _ Htr) q Hq) as (e & He & Het). rewrite He in Hm.
    apply existsb_exists in Hm as (m & Hm & Hms). apply list_elem_of_In in Hm. apply bool_decide_eq_true in Hms.
    apply (H q e m); congruence.
Qed.

Section destruction.
Context (s : fts) (W : ft_wf s) (t : positive) (tr : O9FileTree) (Ht : f_trees s !! t = Some tr).
Context (Hsrc : forall x, x ∈ f_sources s -> x.2 <> t).
Context (Hfree : forall q e m, f_entries s !! q = Some e -> e_tree e <> t -> m ∈ e_mounts e -> m_source m <> t).

Let s' := upd_trees (delete t) (upd_entries (fun m => foldr delete m (t_all tr)) (set_order (unlink t (f_order s)) s)).

Lemma destroy_entries q e : f_entries s' !! q = Some e <-> f_entries s !! q = Some e /\ e_tree e <> t.
Proof.
  change (f_entries s' !! q) with (foldr delete (f_entries s) (t_all tr) !! q). rewrite foldr_delete_lookup. case_decide as D.
  - split; [done|]. intros [Hq Hne]. destruct (to_all _ _ _ (wf_tree _ W _ _ Ht) q D) as (f & Hf & Hft). congruence.
  - split; [|by intros [? _]]. intros Hq. split; [done|]. intros E. apply D.
    destruct (eo_tree _ _ _ (wf_entry _ W _ _ Hq)) as (tr' & Htr & Hin). rewrite E, Ht in Htr. by injection Htr as <-.
Qed.

Lemma destroy_trees u tu : f_trees s' !! u = Some tu <-> f_trees s !! u = Some tu /\ u <> t.
Proof. change (f_trees s') with (delete t (f_trees s)). rewrite lookup_delete_Some. naive_solver. Qed.

Lemma destroy_name q : is_Some (f_entries s' !! q) -> name_of s' q = name_of s q.
Proof. intros [e He]. unfold name_of. rewrite He. apply destroy_entries in He as [-> _]. done. Qed.

Lemma wf_destroy : ft_wf s'.
Proof.
  split.
  - intros q Hq. apply (wf_fresh _ W). destruct Hq as [[x Hq]|[x Hq]].
    + apply destroy_trees in Hq as [? _]. left. by eexists.
    + apply destroy_entries in Hq as [? _]. right. by eexists.
  - destruct (wf_order _ W) as [H1 H2]. change (f_order s') with (unlink t (f_order s)). split.
    + eapply sublist_NoDup; [done|apply unlink_sublist].
    + intros u. rewrite unlink_elem_iff, H2 by done. split.
      * intros [[tu Hu] Hne]. exists tu. by apply destroy_trees.
      * intros [tu Hu]. apply destroy_trees in Hu as [Hu Hne]. split; [by eexists|done].
  - intros u tu Hu. apply destroy_trees in Hu as [Hu Hne]. destruct (wf_tree _ W _ _ Hu) as [(r & H1 & H2 & H3) H5]. split.
    + exists r. split; [apply destroy_entries; split; [done|congruence]|done].
    + intros q Hq. destruct (H5 q Hq) as (f & Hf & Hft). exists f. split; [apply destroy_entries; split; [done|congruence]|done].
  - intros q e Hq. apply destroy_entries in Hq as [Hq Hne]. destruct (wf_entry _ W _ _ Hq) as [T M P B C K]. split.
    + destruct T as (tu & H1 & H2). exists tu. split; [by apply destroy_trees|done].
    + intros m Hm. destruct (M m Hm) as [tu Hu]. exists tu. apply destroy_trees. split; [done|by eapply Hfree].
    + intros d Hd. destruct (P d Hd) as (pd & H1 & H2). exists pd. split; [apply destroy_entries; split; [done|congruence]|done].
    + done.
    + intros b l Hl. rewrite (list_fmap_ext _ (name_of s)); [by eapply C|]. intros i c Hc. apply destroy_name.
      destruct (K b l c Hl (list_elem_of_lookup_2 _ _ _ Hc)) as (ce & Hce & _ & _ & _ & Hct). exists ce. apply destroy_entries. split; [done|congruence].
    + intros b l c Hl Hc. destruct (K b l c Hl Hc) as (ce & Hce & K1 & K2 & K3 & K4). exists ce. split_and!; try done.
      apply destroy_entries. split; [done|congruence].
  - destruct (wf_sources _ W) as [H1 H2]. split; [done|]. intros x Hx. specialize (H2 x Hx). specialize (Hsrc x Hx). unfold tree_alive in *.
    destruct (f_trees s !! x.2) as [tu|] eqn:Hu; [|done]. by rewrite (proj2 (destroy_trees _ _) (conj Hu Hsrc)).
  - apply (mounts_shrink s); [|apply (wf_acyclic _ W)]. intros u tu q f Hu Hq Hf Hr. right.
    apply destroy_trees in Hu as [Hu _]. apply destroy_entries in Hf as [Hf _]. by exists tu, f.
Qed.
End destruction.

(** ** The search for cycles *)

(** A path of mounts, as the list of the trees after the first. *)
Fixpoint path (R : positive -> positive -> Prop) (x : positive) (l : list positive) (y : positive) : Prop :=
  match l with [] => x = y | z :: l => R x z /\ path R z l y end.

Lemma path_suffix R x l y z : path R x l y -> z ∈ x :: l -> exists l', path R z l' y /\ suffix (z :: l') (x :: l).
Proof.
  revert x. induction l as [|w l IH]; intros x Hp Hz.
  - apply list_elem_of_singleton in Hz as ->. exists []. by split.
  - apply elem_of_cons in Hz as [->|Hz]; [by exists (w :: l)|]. destruct Hp as [_ Hp].
    destruct (IH w Hp Hz) as (l' & H1 & H2). exists l'. split; [done|]. by apply suffix_cons_r.
Qed.

(** Paths can be taken without repetitions. *)
Lemma rtc_simple_path R x y : rtc R x y -> exists l, path R x l y /\ NoDup (x :: l).
Proof.
  induction 1 as [x|x z y Hxz _ (l & Hl & Hnd)]; [exists []; split; [done|apply NoDup_singleton]|].
  destruct (decide (x ∈ z :: l)) as [Hin|Hin].
  - destruct (path_suffix R z l y x Hl Hin) as (l' & H1 & [k Hk]). exists l'. split; [done|].
    rewrite Hk in Hnd. by apply NoDup_app in Hnd as (_ & _ & ?).
  - exists (z :: l). split; [by split|]. by constructor.
Qed.

Lemma reaches_path s ps goal fuel l : forall x seen, path (mounts s ps) x l goal -> NoDup (x :: l) -> (forall z, z ∈ x :: l -> z ∉ seen) ->
  ft_reaches fuel s x goal ps seen = true.
Proof.
  revert fuel. induction l as [|w l IH]; intros [|fuel] x seen Hp Hnd Hs; try done; cbn [ft_reaches].
  - by rewrite bool_decide_true.
  - case_bool_decide; [done|]. case_bool_decide; [done|]. rewrite bool_decide_false by (apply Hs; by left).
    destruct Hp as [Hm Hp]. apply existsb_exists. exists w. rewrite <- list_elem_of_In. split; [done|].
    apply NoDup_cons in Hnd as [Hx Hnd]. apply IH; [done|done|]. intros z Hz. rewrite elem_of_app, list_elem_of_singleton.
    intros [Hin| ->]; [|done]. apply (Hs z); [by right|done].
Qed.

(** What the search accepts cannot be reached. *)
Lemma reaches_complete s ps fuel x goal : ft_reaches fuel s x goal ps [] = false -> ~ rtc (mounts s ps) x goal.
Proof.
  intros Hf Hr. destruct (rtc_simple_path _ _ _ Hr) as (l & Hp & Hnd).
  rewrite (reaches_path s ps goal fuel l x []) in Hf; [done..|]. intros z _. by apply not_elem_of_nil.
Qed.

(** What it rejects can, as long as there are fewer trees than its limit. *)
Lemma reaches_sound s ps goal fuel : (size (f_trees s) < MAX_SEEN)%nat ->
  forall x seen, (MAX_SEEN < fuel + length seen)%nat -> NoDup seen -> (forall z, z ∈ seen -> is_Some (f_trees s !! z)) ->
  ft_reaches fuel s x goal ps seen = true -> rtc (mounts s ps) x goal.
Proof.
  intros Hsz. induction fuel as [|fuel IH]; intros x seen Hfl Hnd Hs.
  - intros _. exfalso. assert (length seen <= size (f_trees s))%nat; [|simpl in Hfl; lia].
    rewrite <- size_dom, <- (size_list_to_set (C := gset positive) seen) by done. apply subseteq_size.
    intros z Hz. apply elem_of_list_to_set in Hz. apply elem_of_dom. auto.
  - cbn [ft_reaches]. case_bool_decide as D; [by subst|]. case_bool_decide as L.
    { exfalso. assert (length seen <= size (f_trees s))%nat; [|unfold MAX_SEEN in *; lia].
      rewrite <- size_dom, <- (size_list_to_set (C := gset positive) seen) by done. apply subseteq_size.
      intros z Hz. apply elem_of_list_to_set in Hz. apply elem_of_dom. auto. }
    case_bool_decide as I; [done|]. rewrite existsb_exists. setoid_rewrite <- list_elem_of_In. intros (w & Hw & Hr).
    apply rtc_l with w; [done|]. apply (IH w (seen ++ [x])); [rewrite length_app; simpl; lia| | |done].
    + apply NoDup_app. split_and!; [done| |apply NoDup_singleton]. intros z Hz ->%list_elem_of_singleton. done.
    + intros z [Hz| ->%list_elem_of_singleton]%elem_of_app; [auto|]. fold (mounts s ps x w) in Hw.
      apply tree_sources_spec in Hw as (tr & _ & _ & _ & Htr & _). by eexists.
Qed.

(** Stopping at the first visit. *)
Lemma rtc_until (R : positive -> positive -> Prop) b t : rtc R b t -> rtc (fun u v => R u v /\ u <> t) b t.
Proof.
  induction 1 as [|x y z Hxy _ IH]; [done|]. destruct (decide (x = z)) as [->|Hne]; [done|]. by apply rtc_l with y.
Qed.

(** ** Plans *)

Record plans_ok (s : fts) (t : positive) (ps : plans) : Prop := {
  po_keys : NoDup ps.*1;
  po_target : forall e ms, (e, ms) ∈ ps -> exists en, f_entries s !! e = Some en /\ e_tree en = t /\ e_removed en = false;
  po_source : forall e ms m, (e, ms) ∈ ps -> m ∈ ms -> is_Some (f_trees s !! m_source m);
}.

Lemma plan_for_elem ps e ms : NoDup ps.*1 -> ft_plan_for ps e = Some ms <-> (e, ms) ∈ ps.
Proof.
  intros Hnd. unfold ft_plan_for. split.
  - destruct (list_find _ ps) as [[i [e' ms']]|] eqn:E; [|done]. intros [= ->]. apply list_find_Some in E as (Hi & He & _).
    cbn in He. subst. by eapply list_elem_of_lookup_2.
  - intros Hin. destruct (list_find (fun x => x.1 = e) ps) as [[i [e' ms']]|] eqn:E.
    + apply list_find_Some in E as (Hi & He & _). cbn in He. subst. cbn. f_equal.
      apply list_elem_of_lookup in Hin as [j Hj]. pose proof (NoDup_lookup ps.*1 i j e Hnd) as Hij.
      rewrite !list_lookup_fmap, Hi, Hj in Hij. rewrite (Hij eq_refl eq_refl) in Hi. congruence.
    + apply list_find_None in E. rewrite Forall_forall in E. by destruct (E _ Hin).
Qed.

Lemma plan_for_none ps e : ft_plan_for ps e = None <-> e ∉ ps.*1.
Proof.
  unfold ft_plan_for. split.
  - destruct (list_find _ ps) as [?|] eqn:E; [done|]. intros _ Hin. apply list_find_None in E. rewrite Forall_forall in E.
    apply list_elem_of_fmap in Hin as ([e' ms] & -> & Hin). by destruct (E _ Hin).
  - intros Hn. destruct (list_find _ ps) as [[i [e' ms']]|] eqn:E; [|done]. apply list_find_Some in E as (Hi & He & _). cbn in He. subst.
    destruct Hn. apply list_elem_of_fmap. exists (e, ms'). split; [done|]. by eapply list_elem_of_lookup_2.
Qed.

Lemma set_plan_keys target ms ps : (set_plan target ms ps).*1 = ps.*1.
Proof. induction ps as [|[e old] ps IH]; [done|]. cbn [set_plan]. case_decide; cbn; [done|by rewrite IH]. Qed.

Lemma set_plan_elem target ms ps e l : (e, l) ∈ set_plan target ms ps -> (e = target /\ l = ms) \/ (e, l) ∈ ps.
Proof.
  induction ps as [|[e' old] ps IH]; cbn [set_plan]; [by intros ?%elem_of_nil|]. case_decide as D.
  - intros [E|Hin]%elem_of_cons; [left; split; congruence|]. right. by right.
  - intros [E|Hin]%elem_of_cons; [right; rewrite E; by left|]. destruct (IH Hin); [by left|]. right. by right.
Qed.

Lemma target_loop_tree fuel s dir p target t : ft_wf s -> (exists d, f_entries s !! dir = Some d /\ e_tree d = t) ->
  target_loop fuel s dir p = Some target -> exists d, f_entries s !! target = Some d /\ e_tree d = t /\ e_removed d = false.
Proof.
  intros W. revert dir p. induction fuel as [|fuel IH]; intros dir p Hd; [done|]. cbn [target_loop].
  destruct (strchr x2f p) as [seg rest]. destruct (ft_name_ok seg); [|done]. destruct (ft_find s dir seg) as [q|] eqn:Ef; [|done].
  destruct (ft_find_child _ _ _ _ W Ef) as (de & e & Hde & _ & He & _ & _ & Hr & _ & Ht). rewrite He. destruct (is_dir e); [|done].
  assert (He' : e_tree e = t) by (destruct Hd as (d & Hd1 & Hd2); congruence).
  destruct rest as [rest|]; [apply IH; by exists e|]. intros [= <-]. by exists e.
Qed.

Lemma ft_target_tree s t tr path target : ft_wf s -> f_trees s !! t = Some tr -> ft_target s tr path = Some target ->
  exists d, f_entries s !! target = Some d /\ e_tree d = t /\ e_removed d = false.
Proof.
  intros W Ht. destruct (to_root _ _ _ (wf_tree _ W _ _ Ht)) as (r & Hr & Hrt & _ & Hrr & _). unfold ft_target. destruct path as [p|]; [|done].
  destruct (_ || _); [done|]. case_bool_decide; [intros [= <-]; by exists r|]. apply target_loop_tree; [done|by exists r].
Qed.

Lemma ft_resolve_alive s id t : ft_resolve s id = Some t -> tree_alive s t = true.
Proof.
  unfold ft_resolve. destruct (list_find _ _) as [[i x]|] eqn:E; [|done]. intros [= <-]. by apply list_find_Some in E as (_ & [_ ?] & _).
Qed.

Lemma plan_spec_ok s t tr ps sp ps' : ft_wf s -> f_trees s !! t = Some tr -> plans_ok s t ps -> plan_spec s tr ps sp = Some ps' -> plans_ok s t ps'.
Proof.
  intros W Ht Hok. unfold plan_spec. destruct (ft_target s tr (sp_target sp)) as [target|] eqn:Etg; [|done].
  destruct (ft_target_tree _ _ _ _ _ W Ht Etg) as (en & Hen & Hent & Henr).
  set (ps1 := match ft_plan_for ps target with Some _ => ps | None => _ end).
  assert (Hok1 : plans_ok s t ps1).
  { unfold ps1. destruct (ft_plan_for ps target) eqn:Ep; [done|]. pose proof Ep as Hn. apply plan_for_none in Hn. destruct Hok as [H1 H2 H3]. split.
    - by constructor.
    - intros e ms [[= -> ->]|Hin]%elem_of_cons; [by exists en|by eapply H2].
    - intros e ms m [[= -> ->]|Hin]%elem_of_cons; [|by eapply H3]. unfold planned. rewrite Ep, Hen.
      apply (eo_mounts _ _ _ (wf_entry _ W _ _ Hen)). }
  clearbody ps1. clear Hok.
  assert (Hset : forall ms, (forall m, m ∈ ms -> is_Some (f_trees s !! m_source m)) -> plans_ok s t (set_plan target ms ps1)).
  { intros ms Hms. destruct Hok1 as [H1 H2 H3]. split.
    - by rewrite set_plan_keys.
    - intros e l Hin. apply set_plan_elem in Hin as [[-> _]|Hin]; [by exists en|by eapply H2].
    - intros e l m Hin Hm. apply set_plan_elem in Hin as [[-> ->]|Hin]; [by apply Hms|by eapply H3]. }
  destruct (sp_unmount sp); [intros [= <-]; apply Hset; by intros m ?%elem_of_nil|].
  case_bool_decide; [done|]. destruct (sp_source sp) as [src|]; [|done]. destruct (ft_resolve s src) as [source|] eqn:Er; [|done].
  intros [= <-]. apply Hset.
  assert (Hs : is_Some (f_trees s !! source)) by (apply ft_resolve_alive in Er; unfold tree_alive in Er; destruct (f_trees s !! source); [by eexists|done]).
  assert (Hold : forall m, m ∈ (if bool_decide (sp_mode sp = 0) then [] else default [] (ft_plan_for ps1 target)) -> is_Some (f_trees s !! m_source m)).
  { intros m. case_bool_decide; [by intros ?%elem_of_nil|]. destruct (ft_plan_for ps1 target) as [ms|] eqn:Ep; [|by intros ?%elem_of_nil].
    intros Hm. apply plan_for_elem in Ep; [|apply (po_keys _ _ _ Hok1)]. by eapply (po_source _ _ _ Hok1). }
  revert Hold. generalize (if bool_decide (sp_mode sp = 0) then [] else default [] (ft_plan_for ps1 target)). intros l Hold m. case_bool_decide.
  - intros [->|Hm]%elem_of_cons; [done|by apply Hold].
  - intros [Hm| ->%list_elem_of_singleton]%elem_of_app; [by apply Hold|done].
Qed.

Lemma fold_plan_ok s t tr specs ps ps' : ft_wf s -> f_trees s !! t = Some tr -> plans_ok s t ps ->
  fold_opt (plan_spec s tr) ps specs = Some ps' -> plans_ok s t ps'.
Proof.
  intros W Ht. revert ps. induction specs as [|sp specs IH]; intros ps Hok; cbn [fold_opt]; [by intros [= <-]|].
  destruct (plan_spec s tr ps sp) as [ps1|] eqn:E; [|done]. apply IH. by eapply plan_spec_ok.
Qed.

Lemma commit_other ps s : f_trees (commit_plans ps s) = f_trees s /\ f_order (commit_plans ps s) = f_order s /\
  f_sources (commit_plans ps s) = f_sources s /\ f_fresh (commit_plans ps s) = f_fresh s.
Proof. unfold commit_plans. revert s. induction ps as [|p ps IH]; intros s; [done|]. cbn [foldl].
  by destruct (IH (upd_entries (alter (set_mounts p.2) p.1) s)) as (-> & -> & -> & ->).
Qed.

Lemma commit_lookup ps s q : NoDup ps.*1 ->
  f_entries (commit_plans ps s) !! q = (fun e => match ft_plan_for ps q with Some ms => set_mounts ms e | None => e end) <$> f_entries s !! q.
Proof.
  unfold commit_plans. revert s. induction ps as [|[e ms] ps IH]; intros s Hnd; cbn [foldl].
  - cbn. by destruct (f_entries s !! q).
  - cbn [fmap list_fmap fst] in Hnd. apply NoDup_cons in Hnd as [Hn Hnd]. rewrite (IH _ Hnd).
    cbn [upd_entries f_entries fst snd]. unfold ft_plan_for at 2. cbn [list_find fst]. destruct (decide (e = q)) as [->|Hq].
    + rewrite lookup_alter_eq. apply plan_for_none in Hn. rewrite Hn. by destruct (f_entries s !! q).
    + rewrite lookup_alter_ne by done. unfold ft_plan_for. by destruct (list_find (fun x => x.1 = q) ps) as [[? [? ?]]|].
Qed.

Section applying.
Context (s : fts) (W : ft_wf s) (t : positive) (ps : plans) (Hok : plans_ok s t ps).

Lemma commit_shape : same_shape s (commit_plans ps s).
Proof.
  destruct (commit_other ps s) as (H1 & H2 & H3 & H4). split; try done; [by rewrite H1|].
  intros q. rewrite commit_lookup by apply (po_keys _ _ _ Hok). destruct (f_entries s !! q); [|done]. cbn. by destruct (ft_plan_for ps q).
Qed.

Lemma commit_mounts a b : mounts (commit_plans ps s) [] a b <-> mounts s ps a b.
Proof.
  rewrite mounts_spec, tree_sources_spec. destruct (commit_other ps s) as (-> & _).
  setoid_rewrite (commit_lookup ps s _ (po_keys _ _ _ Hok)). unfold planned. split.
  - intros (tr & p & e & m & Ht & Hp & He & Hr & Hm & Hb). destruct (f_entries s !! p) as [e0|] eqn:E0; [|done]. injection He as <-.
    exists tr, p, e0, m. rewrite E0. by destruct (ft_plan_for ps p).
  - intros (tr & p & e & m & Ht & Hp & He & Hr & Hm & Hb). rewrite He in Hm.
    exists tr, p, (match ft_plan_for ps p with Some ms => set_mounts ms e | None => e end), m. rewrite He. by destruct (ft_plan_for ps p).
Qed.

(** The planned edges: the old ones, or a checked one out of [t]. *)
Lemma planned_edges a b : mounts s ps a b -> mounts s [] a b \/ (a = t /\ exists e ms m, (e, ms) ∈ ps /\ m ∈ ms /\ m_source m = b).
Proof.
  rewrite mounts_spec, tree_sources_spec. unfold planned. intros (tr & p & e & m & Ht & Hp & He & Hr & Hm & Hb).
  destruct (ft_plan_for ps p) as [ms|] eqn:Ep; [|rewrite He in Hm; left; by exists tr, p, e, m].
  apply plan_for_elem in Ep; [|apply (po_keys _ _ _ Hok)]. right. split; [|by exists p, ms, m].
  destruct (po_target _ _ _ Hok _ _ Ep) as (en & Hen & Hent & _).
  destruct (to_all _ _ _ (wf_tree _ W _ _ Ht) p Hp) as (e' & He' & Het). congruence.
Qed.

Lemma apply_acyclic : (forall e ms m, (e, ms) ∈ ps -> m ∈ ms -> ~ rtc (mounts s ps) (m_source m) t) -> acyclic (mounts (commit_plans ps s) []).
Proof.
  intros Hno x Hx. apply (tc_mono _ (mounts s ps)) in Hx; [|intros a b; apply commit_mounts].
  assert (Hloop : forall b, mounts s ps t b -> rtc (mounts s ps) b t -> False).
  { intros b Hb Hr. destruct (planned_edges _ _ Hb) as [Hold|(_ & e & ms & m & H1 & H2 & <-)]; [|by eapply Hno].
    apply (wf_acyclic _ W t). eapply tc_rtc_r; [by apply tc_once|]. apply rtc_until in Hr. revert Hr.
    apply rtc_subrel. intros u v [Huv Hne]. destruct (planned_edges _ _ Huv) as [?|[? _]]; done. }
  destruct (decide (x = t)) as [->|Hxt].
  - inversion Hx as [? ? H|? z ? H1 H2]; subst; [by eapply Hloop|]. eapply Hloop; [done|by apply tc_rtc].
  - assert (Hav : tc (mounts s []) x x \/ (rtc (mounts s ps) x t /\ exists b, mounts s ps t b /\ rtc (mounts s ps) b x)).
    { clear Hloop. revert Hx Hxt. generalize x at 2 5 7. intros y Hx. induction Hx as [x y Hxy|x z y Hxz Hzy IH]; intros Hxt.
      - destruct (planned_edges _ _ Hxy) as [?|[? _]]; [left; by apply tc_once|done].
      - destruct (planned_edges _ _ Hxz) as [Hold|[? _]]; [|done]. destruct (decide (z = t)) as [->|Hzt].
        + right. split; [by apply rtc_once|]. inversion Hzy as [? ? H|? u ? H1 H2]; subst; [by exists y|]. exists u. split; [done|by apply tc_rtc].
        + destruct (IH Hzt) as [H|[H1 H2]]; [left; by eapply tc_l|]. right. split; [by eapply rtc_l|done]. }
    destruct Hav as [H|[H1 (b & H2 & H3)]]; [by apply (wf_acyclic _ W x)|]. apply (Hloop b H2). by etrans.
Qed.

Lemma wf_commit : (forall e ms m, (e, ms) ∈ ps -> m ∈ ms -> ~ rtc (mounts s ps) (m_source m) t) -> ft_wf (commit_plans ps s).
Proof.
  intros Hno. destruct (commit_other ps s) as (H1 & H2 & H3 & H4). destruct (wf_sources _ W) as [W1 W2].
  apply (wf_shape s); [done|apply commit_shape| | | |by apply apply_acyclic].
  - intros q e m. rewrite commit_lookup by apply (po_keys _ _ _ Hok). destruct (f_entries s !! q) as [e0|] eqn:E0; [|done]. intros [= <-].
    destruct (ft_plan_for ps q) as [ms|] eqn:Ep; [|apply (eo_mounts _ _ _ (wf_entry _ W _ _ E0))].
    apply plan_for_elem in Ep; [|apply (po_keys _ _ _ Hok)]. by eapply (po_source _ _ _ Hok).
  - by rewrite H3.
  - intros x. rewrite H3. unfold tree_alive. rewrite H1. apply W2.
Qed.
End applying.

(** ** Every operation preserves the invariant *)

Lemma wf_start : ft_wf fts0.
Proof.
  split; try done.
  - intros p [[x H]|[x H]]; cbn in H; by rewrite lookup_empty in H.
  - split; [constructor|]. intros t. cbn. rewrite lookup_empty. split; [by intros ?%elem_of_nil|by intros [? ?]].
  - split; [constructor|]. by intros x ?%elem_of_nil.
  - intros x Hx. assert (H : exists y, mounts fts0 [] x y) by (inversion Hx; by eexists). destruct H as [y Hy].
    apply mounts_spec in Hy as (tr & _ & _ & _ & H & _). cbn in H. by rewrite lookup_empty in H.
Qed.

Lemma owned_alive s caller t : ft_owned s caller t = true -> tree_alive s t = true.
Proof. unfold ft_owned, tree_alive. destruct (f_trees s !! t); [|done]. by intros [? _]%andb_true_iff. Qed.

Lemma wf_put caller t path kind data w s : ft_wf s -> ft_wf (ft_put caller t path kind data w s).2.
Proof.
  intros W. unfold ft_put. destruct path as [pt|]; [|done]. destruct (f_trees s !! t) as [tr|] eqn:Ht; [|done].
  destruct (_ || _); [done|]. destruct (ft_parent s tr (cstr pt)) as [[parent leaf]|] eqn:Ep; [|done].
  destruct (ft_parent_tree _ _ _ _ _ _ W Ht Ep) as (d & Hd & Hdt & Hdk & _).
  destruct (ft_find s parent leaf) as [p|] eqn:Ef; [|by eapply wf_new_entry].
  destruct (f_entries s !! p) as [e|] eqn:He; [|done]. destruct (_ && _); [by apply wf_set_data|]. by destruct (_ && _).
Qed.

Lemma wf_remove_op caller t path s : ft_wf s -> ft_wf (o9_filetree_remove caller t path s).2.
Proof.
  intros W. unfold o9_filetree_remove. destruct path as [pt|]; [|done]. destruct (f_trees s !! t) as [tr|] eqn:Ht; [|done].
  destruct (negb _); [done|]. destruct (ft_parent s tr (cstr pt)) as [[parent leaf]|] eqn:Ep; [|done].
  destruct (ft_find s parent leaf) as [p|] eqn:Ef; [|done].
  destruct (ft_find_child _ _ _ _ W Ef) as (de & e & Hde & _ & He & _ & Hn & _ & Hpar & _). rewrite He.
  destruct (forallb _ (e_buckets e)) eqn:Hb; [|done]. eapply (wf_remove s W parent p de e leaf); done.
Qed.

Lemma wf_apply caller t specs s : ft_wf s -> ft_wf (o9_filetree_apply_specs caller t specs s).2.
Proof.
  intros W. unfold o9_filetree_apply_specs. destruct (f_trees s !! t) as [tr|] eqn:Ht; [|done]. destruct (negb _); [done|].
  destruct (fold_opt _ _ _) as [ps|] eqn:Ef; [|done]. assert (Hok : plans_ok s t ps).
  { eapply fold_plan_ok; [done|done| |done]. split; [constructor|by intros ?? ?%elem_of_nil|by intros ??? ?%elem_of_nil]. }
  destruct (plans_cycle s t ps) eqn:Hc; [done|]. apply (wf_commit s W t ps Hok). intros e ms m Hin Hm.
  apply (reaches_complete s ps (MAX_SEEN + 1)). apply not_true_iff_false. intros Hr. apply not_true_iff_false in Hc. apply Hc.
  unfold plans_cycle. apply existsb_exists. exists (e, ms). rewrite <- list_elem_of_In. split; [done|].
  apply existsb_exists. exists m. rewrite <- list_elem_of_In. done.
Qed.

Lemma wf_destroy_op caller t s : ft_wf s -> ft_wf (o9_filetree_destroy caller t s).2.
Proof.
  intros W. unfold o9_filetree_destroy. destruct (f_trees s !! t) as [tr|] eqn:Ht; [|done]. case_bool_decide; [done|].
  destruct (t_alive tr); [done|]. destruct (existsb _ (f_sources s)) eqn:Hs; [done|]. destruct (existsb _ (f_order s)) eqn:Ho; [done|].
  case_bool_decide; [|done]. apply (wf_destroy s W t tr Ht); [|by apply not_mounted].
  intros x Hx Hxt. apply not_true_iff_false in Hs. apply Hs. apply existsb_exists. exists x. rewrite <- list_elem_of_In.
  split; [done|]. by apply bool_decide_eq_true.
Qed.

Lemma wf_step caller op s : ft_wf s -> ft_wf (ft_do caller op s).2.
Proof.
  intros W. destruct op; cbn [ft_do]; try (by apply wf_put).
  - by apply wf_new_tree.
  - by apply wf_remove_op.
  - unfold o9_filetree_register. destruct id as [i|]; [|done]. destruct (ft_owned s caller t) eqn:Ho; [|done].
    destruct (_ || _); [done|]. case_bool_decide; [done|]. apply wf_register; [done|by eapply owned_alive|done].
  - by apply wf_apply.
  - by apply wf_revoke.
  - unfold o9_filetree_close. destruct (ft_owned s caller t); [by apply wf_revoke|done].
  - by apply wf_destroy_op.
Qed.

Lemma wf_reach s : ft_reach s -> ft_wf s.
Proof.
  intros [ops ->]. unfold ft_run. assert (H : forall s, ft_wf s -> ft_wf (foldl (fun s x => (ft_do x.1 x.2 s).2) s ops)); [|apply H, wf_start].
  induction ops as [|[c op] ops IH]; intros s W; [done|]. cbn [foldl]. apply IH. by apply wf_step.
Qed.

(** ** Listing and lookup *)

(** The entry of that name in a list. *)
Definition pick (s : fts) (l : list positive) (name : bytes) : option positive := snd <$> list_find (fun e => name_of s e = name) l.

(** The first of two answers. *)
Definition orelse {A} (a b : option A) : option A := match a with Some _ => a | None => b end.

Lemma orelse_assoc {A} (a b c : option A) : orelse (orelse a b) c = orelse a (orelse b c).
Proof. by destruct a. Qed.

Lemma orelse_none {A} (a : option A) : orelse a None = a.
Proof. by destruct a. Qed.

Lemma pick_cons s e l name : pick s (e :: l) name = if decide (name_of s e = name) then Some e else pick s l name.
Proof. unfold pick. cbn [list_find]. case_decide; [done|]. by destruct (list_find _ l) as [[? ?]|]. Qed.

Lemma pick_app s l k name : pick s (l ++ k) name = orelse (pick s l name) (pick s k name).
Proof. induction l as [|e l IH]; [done|]. cbn [app]. rewrite !pick_cons. by case_decide. Qed.

Lemma pick_none s l name : pick s l name = None <-> name ∉ name_of s <$> l.
Proof.
  induction l as [|e l IH]; [split; [intros _; apply not_elem_of_nil|done]|]. rewrite pick_cons. cbn [fmap list_fmap]. case_decide as D.
  - split; [done|]. intros H. destruct H. subst. by left.
  - rewrite IH, not_elem_of_cons. naive_solver.
Qed.

Lemma pick_Some s l name e : pick s l name = Some e -> e ∈ l /\ name_of s e = name.
Proof.
  unfold pick. destruct (list_find _ l) as [[i x]|] eqn:E; [|done]. intros [= ->]. apply list_find_Some in E as (Hi & Hn & _).
  split; [by eapply list_elem_of_lookup_2|done].
Qed.

Lemma pick_unique s l e : NoDup (name_of s <$> l) -> e ∈ l -> pick s l (name_of s e) = Some e.
Proof.
  induction l as [|x l IH]; cbn [fmap list_fmap]; [by intros _ ?%elem_of_nil|]. intros [Hx Hnd]%NoDup_cons Hin. rewrite pick_cons.
  apply elem_of_cons in Hin as [->|Hin]; [by rewrite decide_True|]. rewrite decide_False; [by apply IH|]. intros E. apply Hx. rewrite E.
  by apply list_elem_of_fmap_2.
Qed.

Lemma add_pick s l e name : NoDup (name_of s <$> l) ->
  NoDup (name_of s <$> ft_list_add s l e) /\ pick s (ft_list_add s l e) name = orelse (pick s l name) (pick s [e] name).
Proof.
  intros Hnd. unfold ft_list_add. case_bool_decide as D.
  - split; [done|]. rewrite pick_cons. case_decide as E; [|by destruct (pick s l name)]. subst. destruct (pick s l (name_of s e)) eqn:Ep; [done|].
    by apply pick_none in Ep.
  - split; [|by rewrite pick_app]. rewrite fmap_app. apply NoDup_app. split_and!; [done| |apply NoDup_singleton].
    by intros x Hx ->%list_elem_of_singleton.
Qed.

Lemma adds_pick s k l name : NoDup (name_of s <$> l) ->
  NoDup (name_of s <$> foldl (ft_list_add s) l k) /\ pick s (foldl (ft_list_add s) l k) name = orelse (pick s l name) (pick s k name).
Proof.
  revert l. induction k as [|e k IH]; intros l Hnd; [cbn [foldl]; split; [done|]; unfold orelse; by destruct (pick s l name)|]. cbn [foldl].
  destruct (add_pick s l e name Hnd) as [H1 H2]. destruct (IH _ H1) as [H3 H4]. split; [done|]. rewrite H4, H2, orelse_assoc. f_equal.
  rewrite !pick_cons. by case_decide.
Qed.

(** A hash table of chains, from bucket [k] on. *)
Lemma pick_chains s (B : list (list positive)) k name :
  (forall b l c, B !! b = Some l -> c ∈ l -> ft_bucket (name_of s c) = (k + b)%nat) ->
  (forall b l, B !! b = Some l -> NoDup (name_of s <$> l)) ->
  pick s (concat B) name = (if decide (k <= ft_bucket name)%nat then pick s (default [] (B !! (ft_bucket name - k)%nat)) name else None) /\
  NoDup (name_of s <$> concat B) /\ forall c, c ∈ concat B -> (k <= ft_bucket (name_of s c))%nat.
Proof.
  revert k. induction B as [|l B IH]; intros k Hh Hn.
  - cbn [concat]. split_and!; [by case_decide|constructor|by intros c ?%elem_of_nil].
  - destruct (IH (S k)) as (H1 & H2 & H3).
    { intros b l' c Hb Hc. rewrite (Hh (S b) l' c Hb Hc). lia. }
    { intros b l' Hb. exact (Hn (S b) l' Hb). }
    assert (Hl : forall c, c ∈ l -> ft_bucket (name_of s c) = k) by (intros c Hc; rewrite (Hh 0%nat l c eq_refl Hc); lia).
    cbn [concat]. rewrite pick_app, H1, fmap_app. split_and!.
    + destruct (decide (ft_bucket name = k)) as [E|E].
      * rewrite (decide_False (P := (S k <= _)%nat)), decide_True by lia. rewrite E, Nat.sub_diag. apply orelse_none.
      * assert (Hp : pick s l name = None).
        { apply pick_none. intros Hin. apply list_elem_of_fmap in Hin as (c & -> & Hc). apply E. by apply Hl. }
        rewrite Hp. cbn [orelse]. destruct (decide (S k <= ft_bucket name)%nat); [|by rewrite decide_False by lia].
        rewrite decide_True by lia. by replace (ft_bucket name - k)%nat with (S (ft_bucket name - S k)) by lia.
    + apply NoDup_app. split_and!; [exact (Hn 0%nat l eq_refl)| |done]. intros x Hx Hx'.
      apply list_elem_of_fmap in Hx as (c & -> & Hc). apply list_elem_of_fmap in Hx' as (c' & E & Hc'). specialize (H3 c' Hc').
      rewrite <- E, (Hl c Hc) in H3. lia.
    + intros c [Hc|Hc]%elem_of_app; [by rewrite Hl|]. specialize (H3 c Hc). lia.
Qed.

(** The entries of a directory, by name. *)
Lemma pick_buckets s d de name : ft_wf s -> f_entries s !! d = Some de -> e_kind de = O9FT_DIR ->
  pick s (concat (e_buckets de)) name = ft_find s d name.
Proof.
  intros W Hd Hk. pose proof (wf_entry _ W _ _ Hd) as He.
  destruct (pick_chains s (e_buckets de) 0 name) as (H1 & _ & _).
  { intros b l c Hb Hc. destruct (eo_child _ _ _ He b l c Hb Hc) as (ce & Hce & _ & _ & H & _). unfold name_of. by rewrite Hce. }
  { intros b l Hb. by apply (eo_chain _ _ _ He b). }
  rewrite H1, decide_True, Nat.sub_0_r by lia. unfold ft_find. rewrite Hd. unfold is_dir. rewrite bool_decide_true by done. unfold bucket_of.
  destruct (e_buckets de !! ft_bucket name) as [l|] eqn:El; [|done]. cbn [default from_option id].
  assert (Hin : forall c, c ∈ l -> named s name c <-> name_of s c = name).
  { intros c Hc. destruct (eo_child _ _ _ He _ l c El Hc) as (ce & Hce & _ & Hr & _). unfold named, name_of. rewrite Hce. tauto. }
  clear El H1. unfold pick. induction l as [|c l IH]; [done|]. cbn [list_find].
  assert (Hc : named s name c <-> name_of s c = name) by (apply Hin; by left).
  destruct (decide (named s name c)) as [D|D], (decide (name_of s c = name)) as [D'|D']; [done|tauto|tauto|].
  specialize (IH (fun c' Hc' => Hin c' (list_elem_of_further _ _ _ Hc'))).
  destruct (list_find (named s name) l) as [[? ?]|], (list_find (fun e => name_of s e = name) l) as [[? ?]|]; cbn in *; congruence.
Qed.

(** What [collect] adds is what [lookup] finds. *)
Lemma collect_lookup fuel s name : ft_wf s -> forall dir l l', NoDup (name_of s <$> l) -> ft_collect fuel s dir l = Some l' ->
  NoDup (name_of s <$> l') /\ pick s l' name = orelse (pick s l name) (ft_lookup_mount fuel s dir name).
Proof.
  intros W. induction fuel as [|fuel IH]; intros dir l l' Hnd; [done|]. cbn [ft_collect ft_lookup_mount].
  destruct (live_dir s dir) as [d|] eqn:Hld; [|done].
  assert (Hd : f_entries s !! dir = Some d /\ e_kind d = O9FT_DIR).
  { unfold live_dir in Hld. destruct (f_entries s !! dir) as [d'|]; [|done]. destruct (is_dir d') eqn:Hk; [|done]. unfold is_dir in Hk.
    apply bool_decide_eq_true in Hk. destruct (_ && _); [|done]. by injection Hld as ->. }
  destruct Hd as [Hd Hdk]. set (sub := fun l m => match source_root s m with Some r => ft_collect fuel s r l | None => None end).
  set (look := fun m => match source_root s m with Some r => ft_lookup_mount fuel s r name | None => None end).
  assert (Hsub : forall ms l l', NoDup (name_of s <$> l) -> fold_opt sub l ms = Some l' ->
    NoDup (name_of s <$> l') /\ pick s l' name = orelse (pick s l name) (first_some look ms)).
  { clear l l' Hnd. induction ms as [|m ms IHms]; intros l l' Hnd; cbn [fold_opt first_some].
    - intros [= <-]. split; [done|]. by rewrite orelse_none.
    - destruct (sub l m) as [l1|] eqn:E; [|done]. unfold sub in E. unfold look at 1. destruct (source_root s m) as [r|]; [|done].
      destruct (IH r l l1 Hnd E) as [H1 H2]. intros Hf. destruct (IHms l1 l' H1 Hf) as [H3 H4]. split; [done|].
      rewrite H4, H2, orelse_assoc. f_equal. by destruct (ft_lookup_mount fuel s r name). }
  destruct (fold_opt sub l (filter before (e_mounts d))) as [l1|] eqn:E1; [|done]. destruct (Hsub _ _ _ Hnd E1) as [H1 H2].
  set (l2 := if replaces (e_mounts d) then l1 else _).
  assert (H3 : NoDup (name_of s <$> l2) /\ pick s l2 name = orelse (pick s l1 name) (if replaces (e_mounts d) then None else ft_find s dir name)).
  { unfold l2. destruct (replaces (e_mounts d)); [by rewrite orelse_none|]. destruct (adds_pick s (concat (e_buckets d)) l1 name H1) as [H3 H4].
    split; [done|]. rewrite H4. f_equal. by apply pick_buckets. }
  destruct H3 as [H3 H4]. intros Hf. destruct (Hsub _ _ _ H3 Hf) as [H5 H6]. split; [done|].
  rewrite H6, H4, H2, !orelse_assoc. f_equal. destruct (first_some look (filter before (e_mounts d))); [done|].
  by destruct (if replaces (e_mounts d) then None else ft_find s dir name).
Qed.

(** ** What a put changes *)

Lemma ft_bucket_lt name : (ft_bucket name < FT_BUCKETS)%nat.
Proof. unfold ft_bucket. pose proof (Z.mod_pos_bound (foldl (fun h p => u32 (Z.lxor h (uchar p) * 16777619)) 2166136261 name) 64 ltac:(lia)). unfold FT_BUCKETS. lia. Qed.

Lemma set_data_find s p e data w dir name : f_entries s !! p = Some e -> ft_find (upd_entries (<[p := set_data data w e]>) s) dir name = ft_find s dir name.
Proof.
  intros He. set (s' := upd_entries _ s).
  assert (Hl : forall q, f_entries s' !! q = if decide (p = q) then Some (set_data data w e) else f_entries s !! q).
  { intros q. cbn. case_decide; [subst; apply lookup_insert_eq|by apply lookup_insert_ne]. }
  assert (Hn : forall q, named s' name q <-> named s name q).
  { intros q. unfold named. rewrite Hl. case_decide; [subst; by rewrite He|done]. }
  assert (Hf : forall l, snd <$> list_find (named s' name) l = snd <$> list_find (named s name) l).
  { induction l as [|q l IH]; [done|]. cbn [list_find]. specialize (Hn q). destruct (decide (named s' name q)), (decide (named s name q)); [done|tauto|tauto|].
    destruct (list_find (named s' name) l) as [[]|], (list_find (named s name) l) as [[]|]; cbn in *; congruence. }
  unfold ft_find at 1. rewrite Hl. unfold ft_find. destruct (decide (p = dir)) as [->|].
  - rewrite He. destruct (is_dir e) eqn:Hk; unfold is_dir in *; cbn [set_data e_kind]; rewrite Hk; [apply Hf|done].
  - destruct (f_entries s !! dir) as [d|]; [|done]. destruct (is_dir d); [apply Hf|done].
Qed.

Section found.
Context (s : fts) (W : ft_wf s) (t : positive) (tr : O9FileTree) (Ht : f_trees s !! t = Some tr).
Context (d : positive) (de : O9FTEntry) (Hd : f_entries s !! d = Some de) (Hdt : e_tree de = t) (Hdk : e_kind de = O9FT_DIR).
Context (name : bytes) (kind : Z) (data : ostring) (w : Z) (Hf : ft_find s d name = None).

Let s' := (ft_entry s t (Some d) name kind data w).2.

Lemma new_found : ft_find s' d name = Some (f_fresh s).
Proof.
  unfold ft_find, s'. rewrite (new_lookup s W t tr Ht d de Hd Hdt name kind data w). rewrite decide_False, decide_True by (try done; apply not_eq_sym; eapply new_not_dir; done).
  unfold is_dir. cbn [upd_bucket e_kind]. rewrite bool_decide_true by done. unfold bucket_of. cbn [upd_bucket e_buckets].
  rewrite list_lookup_alter, decide_True by done. destruct (e_buckets de !! ft_bucket name) as [l|] eqn:El.
  - cbn [fmap option_fmap option_map default from_option id list_find]. rewrite decide_True; [done|].
    unfold named. rewrite (new_lookup s W t tr Ht d de Hd Hdt name kind data w), decide_True by done. done.
  - exfalso. apply lookup_ge_None in El. rewrite (eo_buckets _ _ _ (wf_entry _ W _ _ Hd)) in El.
    pose proof (ft_bucket_lt name). lia.
Qed.

Lemma new_found_other dir nm : (dir, nm) <> (d, name) -> is_Some (f_entries s !! dir) -> ft_find s' dir nm = ft_find s dir nm.
Proof.
  intros Hne [x Hx]. unfold ft_find. unfold s' at 1. rewrite (new_lookup s W t tr Ht d de Hd Hdt name kind data w).
  assert (Hfresh : dir <> f_fresh s) by (intros ->; by rewrite (fresh_entry s W t de Hdt) in Hx). rewrite decide_False by done.
  assert (Hold : forall l, (forall c, c ∈ l -> is_Some (f_entries s !! c)) -> snd <$> list_find (named s' nm) l = snd <$> list_find (named s nm) l).
  { induction l as [|c l IH]; intros Hl; [done|]. cbn [list_find]. specialize (IH (fun c' Hc' => Hl c' (list_elem_of_further _ _ _ Hc'))).
    assert (Hc : named s' nm c <-> named s nm c).
    { destruct (Hl c) as [f Hfc]; [by left|]. destruct (new_old_entry s W t tr Ht d de Hd Hdt name kind data w c f Hfc) as (f' & Hf' & _ & X2 & _ & X4 & _).
      unfold named. fold s' in Hf'. rewrite Hfc, Hf', X2, X4. done. }
    destruct (decide (named s' nm c)), (decide (named s nm c)); [done|tauto|tauto|].
    destruct (list_find (named s' nm) l) as [[]|], (list_find (named s nm) l) as [[]|]; cbn in *; congruence. }
  assert (Hb : forall c, c ∈ bucket_of x nm -> is_Some (f_entries s !! c)).
  { intros c Hc. unfold bucket_of in Hc. destruct (e_buckets x !! ft_bucket nm) as [l|] eqn:El; [|by apply elem_of_nil in Hc].
    destruct (eo_child _ _ _ (wf_entry _ W _ _ Hx) _ _ _ El Hc) as (ce & Hce & _). by eexists. }
  destruct (decide (dir = d)) as [->|Hdd]; rewrite Hx.
  - rewrite Hd in Hx. injection Hx as <-. unfold is_dir. cbn [upd_bucket e_kind]. case_bool_decide; [|done].
    unfold bucket_of in *. cbn [upd_bucket e_buckets]. rewrite list_lookup_alter. destruct (decide (ft_bucket name = ft_bucket nm)) as [E|E]; [|by apply Hold].
    rewrite E. destruct (e_buckets de !! ft_bucket nm) as [l|]; [|done]. cbn [fmap option_fmap option_map default from_option id] in *.
    cbn [list_find]. rewrite decide_False.
    + rewrite <- (Hold l Hb). destruct (list_find (named s' nm) l) as [[? ?]|]; done.
    + unfold named. unfold s'. rewrite (new_lookup s W t tr Ht d de Hd Hdt name kind data w), decide_True by done. cbn. intros [_ ->]. by apply Hne.
  - destruct (is_dir x); [|done]. by apply Hold.
Qed.
End found.
