(* ===== verification/FileTreeProps.v ===== *)
(** * View trees: what the operations promise ([o9_filetree.c])

    The theorems about reachable states: the graph of mounts stays acyclic,
    nothing dangles, a listing holds what lookup finds, a table of mounts is
    applied whole or not at all, and what a put, a removal and a destruction
    change. *)
From S2P Require Import Prelude O9Str FileTree FileTreeSpec.

Open Scope Z_scope.

(** ** A state to try things on

    Actor 1 owns tree 1 (root 2) with a directory [a] (3) and a text [b] (4);
    actor 2 owns tree 5 (root 6) with a text [x], registered as [src].  Tree 5
    is mounted over [a]. *)
Definition demo_ops : list (Z * ft_op) :=
  [(1, FNew); (1, FDir 1 (Some (str "a"))); (1, FText 1 (Some (str "b")) (Some (str "hi")) 0);
   (2, FNew); (2, FText 5 (Some (str "x")) (Some (str "1")) 1); (2, FRegister 5 (Some (str "src")));
   (1, FApply 1 [FtSpec (Some (str "a")) (Some (str "src")) 2 false])].
Definition demo : fts := ft_run demo_ops fts0.

Lemma demo_reach : ft_reach demo.
Proof. by exists demo_ops. Qed.

Lemma reach_do s caller op : ft_reach s -> ft_reach (ft_do caller op s).2.
Proof. intros [ops ->]. exists (ops ++ [(caller, op)]). unfold ft_run. by rewrite foldl_app. Qed.

(** ** Mounts *)

(** Every key a structure holds is the key of a live structure, and no tree
    reaches itself through mounts. *)
Record heap_sound (s : fts) : Prop := {
  nd_root : forall t tr, f_trees s !! t = Some tr -> o9_filetree_kind s (t_root tr) = O9FT_DIR /\ o9_filetree_entry_tree s (t_root tr) = Some t;
  nd_all : forall t tr p, f_trees s !! t = Some tr -> p ∈ t_all tr -> o9_filetree_entry_tree s p = Some t;
  nd_tree : forall p t, o9_filetree_entry_tree s p = Some t -> is_Some (f_trees s !! t);
  nd_parent : forall p d, o9_filetree_parent s p = Some d -> o9_filetree_entry_tree s d = o9_filetree_entry_tree s p;
  nd_child : forall d de b l c, f_entries s !! d = Some de -> e_buckets de !! b = Some l -> c ∈ l ->
    o9_filetree_parent s c = Some d /\ ft_bucket (name_of s c) = b;
  nd_mount : forall p e m, f_entries s !! p = Some e -> m ∈ e_mounts e -> is_Some (f_trees s !! m_source m);
  nd_source : forall name t, (name, t) ∈ f_sources s -> o9_filetree_alive s t = true;
  nd_acyclic : acyclic (mounts s []);
}.

(** C7: in every reachable state no pointer dangles: roots, the list of a
    tree's entries, parents, hash chains, mount sources (a mounted tree cannot
    have been freed) and registered sources (alive) all lead to what they
    should; and "an entry of tree a that is not removed has tree b mounted on
    it" has no cycle, so lookups and listings through mounts come to an end. *)
Theorem filetree_heap_sound s : ft_reach s -> heap_sound s.
Proof.
  intros W%wf_reach. split; unfold o9_filetree_kind, o9_filetree_entry_tree, o9_filetree_parent.
  - intros t tr Ht. destruct (to_root _ _ _ (wf_tree _ W _ _ Ht)) as (r & -> & <- & Hk & _). done.
  - intros t tr p Ht Hp. by destruct (to_all _ _ _ (wf_tree _ W _ _ Ht) p Hp) as (e & -> & <-).
  - intros p t Hp. apply fmap_Some in Hp as (e & He & ->). destruct (eo_tree _ _ _ (wf_entry _ W _ _ He)) as (tr & -> & _). by eexists.
  - intros p d Hp. apply bind_Some in Hp as (e & He & Hd). destruct (eo_parent _ _ _ (wf_entry _ W _ _ He) d Hd) as (pd & Hpd & Ht).
    rewrite He, Hpd. cbn. by rewrite Ht.
  - intros d de b l c Hd Hb Hc. destruct (eo_child _ _ _ (wf_entry _ W _ _ Hd) b l c Hb Hc) as (ce & Hce & H1 & _ & H2 & _).
    unfold name_of. rewrite Hce. done.
  - intros p e m He. apply (eo_mounts _ _ _ (wf_entry _ W _ _ He)).
  - intros name t Hin. by apply (wf_sources _ W) in Hin.
  - apply (wf_acyclic _ W).
Qed.

Lemma filetree_heap_sound_witness : mounts demo [] 1 5 /\ heap_sound demo.
Proof.
  split; [|apply (filetree_heap_sound demo), demo_reach]. unfold mounts. apply (bool_decide_unpack _). vm_compute. exact I.
Defined.

(** C27: a listing of a directory holds, through all the mounts, every name
    once, and a name is listed with an entry exactly when a lookup of that name
    gives the entry. *)
Theorem listing_matches_lookup s t dir l : ft_reach s -> o9_filetree_entries s t dir = Some l ->
  NoDup (name_of s <$> l) /\
  forall name e, o9_filetree_lookup s t dir name = Some e <-> e ∈ l /\ name_of s e = name.
Proof.
  intros W%wf_reach. unfold o9_filetree_entries, o9_filetree_lookup. destruct (f_entries s !! dir); [|done].
  destruct (is_dir _); [|done]. destruct (tree_alive s t); [|done]. cbn [andb]. intros Hc.
  generalize dependent MOUNT_DEPTH. intros fuel Hc.
  assert (H : forall name, NoDup (name_of s <$> l) /\ pick s l name = ft_lookup_mount fuel s dir name)
    by (intros name; exact (collect_lookup fuel s name W dir [] l NoDup_nil_2 Hc)).
  split; [apply (H [])|]. intros name e. destruct (H name) as [Hn <-]. split; [apply pick_Some|].
  intros [He <-]. by apply pick_unique.
Qed.

Lemma listing_matches_lookup_witness :
  o9_filetree_entries demo 1 3 = Some [7%positive] /\ o9_filetree_lookup demo 1 3 (str "x") = Some 7%positive.
Proof.
  assert (H : o9_filetree_entries demo 1 3 = Some [7%positive]) by (vm_compute; reflexivity). split; [exact H|].
  apply (listing_matches_lookup demo 1 3 [7%positive] demo_reach H). split; [by left|vm_compute; reflexivity].
Defined.

(** *** Tables of mounts *)

Lemma plans_cycle_spec s t ps : (size (f_trees s) < MAX_SEEN)%nat ->
  plans_cycle s t ps = true <-> exists e ms m, (e, ms) ∈ ps /\ m ∈ ms /\ rtc (mounts s ps) (m_source m) t.
Proof.
  intros Hsz. unfold plans_cycle. rewrite existsb_exists. setoid_rewrite existsb_exists. repeat setoid_rewrite <- list_elem_of_In. split.
  - intros ([e ms] & Hin & m & Hm & Hr). exists e, ms, m. split_and!; [done|done|].
    eapply reaches_sound; [done| |constructor| |exact Hr]; [simpl length; lia|by intros ? ?%elem_of_nil].
  - intros (e & ms & m & Hin & Hm & Hr). exists (e, ms). split; [done|]. exists m. split; [done|].
    destruct (ft_reaches _ _ _ _ _ _) eqn:E; [done|]. by apply reaches_complete in E.
Qed.

(** A planned mount is an edge out of the tree. *)
Lemma planned_edge s t ps e ms m : ft_wf s -> plans_ok s t ps -> (e, ms) ∈ ps -> m ∈ ms -> mounts s ps t (m_source m).
Proof.
  intros W Hok Hin Hm. destruct (po_target _ _ _ Hok _ _ Hin) as (en & He & Ht & Hr).
  destruct (eo_tree _ _ _ (wf_entry _ W _ _ He)) as (tr & Htr & Hp). rewrite Ht in Htr. apply tree_sources_spec.
  exists tr, e, en, m. split_and!; try done. unfold planned. by rewrite (proj2 (plan_for_elem ps e ms (po_keys _ _ _ Hok)) Hin).
Qed.

(** C18: a table of mounts is applied whole or not at all.  For the live
    owner of a tree, and with fewer trees than the limit of the search (256),
    it is refused without any effect when a row is bad (no such directory, a
    mode outside 0..2, an unknown or closed source), or when the mounts it asks
    for would close a cycle through trees; otherwise every entry gets
    exactly its planned mounts, everything else stays, and the new graph of
    mounts is acyclic. *)
Theorem apply_exact s caller t tr specs : ft_reach s -> f_trees s !! t = Some tr -> ft_owned s caller t = true ->
  (size (f_trees s) < MAX_SEEN)%nat ->
  match fold_opt (plan_spec s tr) [] specs with
  | None => o9_filetree_apply_specs caller t specs s = (-1, s)
  | Some ps =>
      (o9_filetree_apply_specs caller t specs s = (-1, s) /\ ~ acyclic (mounts s ps)) \/
      exists s', o9_filetree_apply_specs caller t specs s = (0, s') /\ acyclic (mounts s ps) /\
        (forall q, f_entries s' !! q = (fun e => set_mounts (planned s ps q) e) <$> f_entries s !! q) /\
        f_trees s' = f_trees s /\ f_order s' = f_order s /\ f_sources s' = f_sources s
  end.
Proof.
  intros W%wf_reach Ht Ho Hsz. unfold o9_filetree_apply_specs. rewrite Ht, Ho. cbn [negb].
  destruct (fold_opt (plan_spec s tr) [] specs) as [ps|] eqn:Ef; [|done].
  assert (Hok : plans_ok s t ps).
  { eapply fold_plan_ok; [done|done| |done]. split; [constructor|by intros ?? ?%elem_of_nil|by intros ??? ?%elem_of_nil]. }
  pose proof (plans_cycle_spec s t ps Hsz) as Hc. destruct (plans_cycle s t ps); [left|right].
  - split; [done|]. intros Hac. destruct (proj1 Hc eq_refl) as (e & ms & m & Hin & Hm & Hr).
    apply (Hac t). eapply tc_rtc_r; [apply tc_once|exact Hr]. by eapply planned_edge.
  - exists (commit_plans ps s). destruct (commit_other ps s) as (H1 & H2 & H3 & H4). split_and!; try done.
    + apply (acyclic_mono _ (mounts (commit_plans ps s) [])); [intros a b; by apply commit_mounts with t|].
      apply (apply_acyclic s W t ps Hok). intros e ms m Hin Hm Hr. enough (false = true) by done. apply Hc. by exists e, ms, m.
    + intros q. rewrite commit_lookup by apply (po_keys _ _ _ Hok). unfold planned. destruct (f_entries s !! q) as [e|]; [|done].
      cbn. destruct (ft_plan_for ps q); [done|]. by destruct e.
Qed.

(** Mounting tree 1 inside tree 5 would close a cycle. *)
Definition demo_src : fts := ft_run [(1, FRegister 1 (Some (str "top"))); (2, FDir 5 (Some (str "d")))] demo.

Lemma apply_exact_witness :
  ft_owned demo_src 2 5 = true /\
  o9_filetree_apply_specs 2 5 [FtSpec (Some (str "d")) (Some (str "top")) 0 false] demo_src = (-1, demo_src).
Proof.
  split; [vm_compute; reflexivity|].
  assert (R : ft_reach demo_src).
  { exists (demo_ops ++ [(1, FRegister 1 (Some (str "top"))); (2, FDir 5 (Some (str "d")))]). unfold demo_src, demo, ft_run. by rewrite foldl_app. }
  set (spec := FtSpec _ _ _ _). destruct (f_trees demo_src !! 5%positive) as [tr|] eqn:Ht; [|vm_compute in Ht; discriminate].
  assert (Ho : ft_owned demo_src 2 5 = true) by (vm_compute; reflexivity).
  assert (Hsz : (size (f_trees demo_src) < MAX_SEEN)%nat) by (apply Nat.ltb_lt; vm_compute; reflexivity).
  pose proof (apply_exact demo_src 2 5 tr [spec] R Ht Ho Hsz) as H.
  assert (H1 : (o9_filetree_apply_specs 2 5 [spec] demo_src).1 = -1) by (vm_compute; reflexivity).
  destruct (fold_opt _ _ _) as [ps|]; [|exact H]. destruct H as [[H _]|(s' & H & _)]; [exact H|]. rewrite H in H1. discriminate.
Defined.

(** ** Entries *)

Lemma new_alive s t tr d name kind data w : f_trees s !! t = Some tr -> tree_alive (ft_entry s t d name kind data w).2 t = tree_alive s t.
Proof. intros Ht. unfold tree_alive, ft_entry. cbn [snd f_trees]. by rewrite lookup_alter_eq, Ht. Qed.

(** A put by the tree's live owner.  With the directory and the leaf the
    path leads to: a free name gets a new entry; an entry of the same kind that is
    not a directory gets the new data and keeps its identity; a directory put
    on a directory changes nothing; a kind that differs is refused.  The leaf is
    found there afterwards, and no other name in any directory changes. *)
Theorem put_exact s caller t tr pt kind data w parent leaf : ft_reach s -> f_trees s !! t = Some tr ->
  ft_owned s caller t = true -> ft_parent s tr (cstr pt) = Some (parent, leaf) -> ~ (kind = O9FT_TEXT /\ data = None) ->
  let '(r, s') := ft_put caller t (Some pt) kind data w s in
  match ft_find s parent leaf with
  | Some p => o9_filetree_kind s p <> kind /\ r = -1 /\ s' = s \/
              o9_filetree_kind s p = kind /\ r = 0 /\ ft_find s' parent leaf = Some p
  | None => r = 0 /\ ft_find s' parent leaf = Some (f_fresh s)
  end /\
  (r = 0 -> forall p, ft_find s' parent leaf = Some p -> o9_filetree_kind s' p = kind /\ o9_filetree_entry_tree s' p = Some t /\
     (kind = O9FT_DIR \/ o9_filetree_data s' t p = data /\ o9_filetree_writable s' p = w)) /\
  forall dir nm, is_Some (f_entries s !! dir) -> (dir, nm) <> (parent, leaf) -> ft_find s' dir nm = ft_find s dir nm.
Proof.
  intros W%wf_reach Ht Ho Hp Hdata. unfold ft_put. rewrite Ht, Ho, Hp. cbn [negb orb].
  rewrite <- bool_decide_and, bool_decide_false by done.
  destruct (ft_parent_tree _ _ _ _ _ _ W Ht Hp) as (de & Hde & Hdt & Hdk & _). pose proof (owned_alive _ _ _ Ho) as Hal.
  destruct (ft_find s parent leaf) as [p|] eqn:Ef.
  - destruct (ft_find_child _ _ _ _ W Ef) as (de' & e & Hde' & _ & He & _ & _ & Hr & _ & Het). assert (de' = de) as -> by congruence.
    rewrite He. unfold o9_filetree_kind. rewrite He. destruct (decide (e_kind e = kind)) as [Hk|Hk].
    + rewrite (bool_decide_true (e_kind e = kind)) by done. destruct (decide (kind = O9FT_DIR)) as [Hd|Hd].
      * rewrite bool_decide_true by done. cbn [negb andb]. split; [right; by rewrite Ef|]. split; [|done]. intros _ q. rewrite Ef. intros [= <-].
        unfold o9_filetree_entry_tree. rewrite He. cbn. split_and!; [done|congruence|by left].
      * rewrite bool_decide_false by done. cbn [negb andb]. split; [right; by rewrite (set_data_find s p e)|].
        split; [|intros dir nm _ _; by apply set_data_find].
        intros _ q. rewrite (set_data_find s p e) by done. rewrite Ef. intros [= <-].
        unfold o9_filetree_entry_tree, o9_filetree_data, o9_filetree_writable. cbn [upd_entries f_entries]. rewrite lookup_insert_eq. cbn.
        split_and!; [done|congruence|]. right. split; [|done]. change (tree_alive (upd_entries _ s)) with (tree_alive s).
        by rewrite Hal, Het, Hdt, Hal, Hr.
    + rewrite (bool_decide_false (e_kind e = kind)) by done. cbn [andb]. split; [by left|]. split; [lia|done].
  - pose proof (new_found s W t tr Ht parent de Hde Hdt Hdk leaf kind data w) as Hnew. split; [by split|]. split.
    + intros _ q. rewrite Hnew. intros [= <-]. unfold o9_filetree_kind, o9_filetree_entry_tree, o9_filetree_data, o9_filetree_writable.
      rewrite (new_lookup s W t tr Ht parent de Hde Hdt leaf kind data w), decide_True by done.
      cbn [fmap option_fmap option_map e_kind e_tree e_writable e_removed e_data]. split_and!; [done|done|]. right. split; [|done].
      by rewrite (new_alive s t tr), Hal.
    + intros dir nm Hdir Hne. by apply (new_found_other s W t tr Ht parent de Hde Hdt leaf kind data w Ef).
Qed.

Lemma put_exact_witness :
  (ft_put 1 1 (Some (str "a/c")) O9FT_TEXT (Some (str "new")) 0 demo).1 = 0 /\
  ft_find (ft_put 1 1 (Some (str "a/c")) O9FT_TEXT (Some (str "new")) 0 demo).2 3 (str "c") = Some 8%positive.
Proof.
  destruct (f_trees demo !! 1%positive) as [tr|] eqn:Ht; [|vm_compute in Ht; discriminate].
  assert (Ho : ft_owned demo 1 1 = true) by (vm_compute; reflexivity).
  assert (Hp : ft_parent demo tr (cstr (str "a/c")) = Some (3%positive, str "c")) by (vm_compute in Ht; injection Ht as <-; vm_compute; reflexivity).
  assert (Hk : ~ (O9FT_TEXT = O9FT_TEXT /\ Some (str "new") = None)) by (intros [_ ?]; discriminate).
  pose proof (put_exact demo 1 1 tr (str "a/c") O9FT_TEXT (Some (str "new")) 0 3 (str "c") demo_reach Ht Ho Hp Hk) as H.
  destruct (ft_put _ _ _ _ _ _ _) as [r s']. assert (Hn : ft_find demo 3 (str "c") = None) by (vm_compute; reflexivity).
  rewrite Hn in H. destruct H as [H _]. exact H.
Defined.

Lemma find_unlink (P : positive -> Prop) `{forall x, Decision (P x)} p l : ~ P p ->
  snd <$> list_find P (unlink p l) = snd <$> list_find P l.
Proof.
  intros Hp. induction l as [|q l IH]; [done|]. cbn [unlink]. destruct (decide (q = p)) as [->|Hq]; cbn [list_find].
  - rewrite (decide_False (P := P p)) by done. by destruct (list_find P l) as [[]|].
  - destruct (decide (P q)); [done|]. destruct (list_find P (unlink p l)) as [[]|], (list_find P l) as [[]|]; cbn in *; congruence.
Qed.

Lemma find_ext (P Q : positive -> Prop) `{forall x, Decision (P x), forall x, Decision (Q x)} l :
  (forall x, x ∈ l -> P x <-> Q x) -> snd <$> list_find P l = snd <$> list_find Q l.
Proof.
  induction l as [|q l IH]; intros Hl; [done|]. cbn [list_find]. assert (Hq : P q <-> Q q) by (apply Hl; by left).
  specialize (IH (fun x Hx => Hl x (list_elem_of_further _ _ _ Hx))). destruct (decide (P q)), (decide (Q q)); [done|tauto|tauto|].
  destruct (list_find P l) as [[]|], (list_find Q l) as [[]|]; cbn in *; congruence.
Qed.

Section remove_find.
Context (s : fts) (W : ft_wf s) (d p : positive) (name : bytes) (Hf : ft_find s d name = Some p).

Let s' := upd_entries (alter set_removed p) (upd_entries (alter (upd_bucket (ft_bucket name) (unlink p)) d) s).

(** Once removed, [p] goes by no name. *)
Lemma removed_named nm q : named s' nm q <-> q <> p /\ named s nm q.
Proof.
  destruct (ft_find_child _ _ _ _ W Hf) as (de & e & Hde & _ & He & _).
  unfold named, s'. rewrite (remove_lookup s d p de e name Hde He). destruct (f_entries s !! q) as [f|]; [|by split; [|intros [_ ?]]]. cbn.
  destruct (decide (q = p)), (decide (q = d)); cbn; naive_solver.
Qed.

Lemma removed_find dir nm : ft_find s' dir nm = if decide ((dir, nm) = (d, name)) then None else ft_find s dir nm.
Proof.
  destruct (ft_find_child _ _ _ _ W Hf) as (de & e & Hde & Hdk & He & Hb & Hn & Hr & Hpar & _).
  unfold ft_find. unfold s' at 1. rewrite (remove_lookup s d p de e name Hde He).
  destruct (f_entries s !! dir) as [x|] eqn:Hx; [|cbn; by case_decide]. cbn [fmap option_fmap option_map].
  set (x' := (if decide (dir = p) then set_removed else id) ((if decide (dir = d) then upd_bucket (ft_bucket name) (unlink p) else id) x)).
  change (match _ with Some y => _ | None => None end) with
    (if is_dir x' then snd <$> list_find (named s' nm) (bucket_of x' nm) else None). assert (Hk : is_dir x' = is_dir x) by (unfold x'; by repeat case_decide). rewrite Hk.
  assert (Hbk : bucket_of x' nm = (if decide (dir = d /\ ft_bucket name = ft_bucket nm) then unlink p (bucket_of x nm) else bucket_of x nm)).
  { assert (Hbs : e_buckets x' = if decide (dir = d) then alter (unlink p) (ft_bucket name) (e_buckets x) else e_buckets x)
      by (unfold x'; repeat case_decide; done).
    unfold bucket_of. rewrite Hbs. destruct (decide (dir = d)) as [Hdd|Hdd].
    - rewrite list_lookup_alter. destruct (decide (ft_bucket name = ft_bucket nm)) as [Hbe|Hbe].
      + rewrite decide_True by done. rewrite Hbe. by destruct (e_buckets x !! ft_bucket nm).
      + rewrite decide_False; [done|]. by intros [_ ?].
    - rewrite decide_False; [done|]. by intros [? _]. }
  rewrite Hbk. destruct (is_dir x); [|cbn; by destruct (decide ((dir, nm) = (d, name)))].
  assert (Hother : forall l, ~ (p ∈ l /\ nm = name) -> snd <$> list_find (named s' nm) l = snd <$> list_find (named s nm) l).
  { intros l Hl. apply find_ext. intros q Hq. rewrite removed_named. split; [by intros [_ ?]|]. intros Hnm. split; [|done]. intros ->.
    apply Hl. split; [done|]. unfold named in Hnm. rewrite He in Hnm. destruct Hnm. congruence. }
  destruct (decide ((dir, nm) = (d, name))) as [[= -> ->]|Hne].
  - rewrite decide_True by done. destruct (list_find _ _) as [[i q]|] eqn:E; [|done]. exfalso. apply list_find_Some in E as (Hi & Hq & _).
    rewrite removed_named in Hq. destruct Hq as [Hqp Hq]. apply list_elem_of_lookup_2, unlink_elem in Hi.
    assert (x = de) as -> by congruence. unfold bucket_of in *. destruct (e_buckets de !! ft_bucket name) as [l|] eqn:El; [|by apply elem_of_nil in Hi].
    pose proof (eo_chain _ _ _ (wf_entry _ W _ _ Hde) _ _ El) as Hnd. apply Hqp.
    assert (name_of s q = name_of s p) by (unfold named in Hq; unfold name_of; rewrite He; destruct (f_entries s !! q); [destruct Hq; congruence|done]).
    pose proof (pick_unique s l q Hnd Hi) as H1. pose proof (pick_unique s l p Hnd Hb) as H2. congruence.
  - destruct (decide (dir = d /\ _)) as [[-> Hbe]|Hnb].
    + rewrite find_unlink; [apply Hother|]; intros H'; [destruct H' as [_ ->]; done|]. rewrite removed_named in H'. by destruct H'.
    + apply Hother. intros [Hin ->]. unfold bucket_of in Hin. destruct (e_buckets x !! ft_bucket name) as [l|] eqn:El; [|by apply elem_of_nil in Hin].
      destruct (eo_child _ _ _ (wf_entry _ W _ _ Hx) _ _ _ El Hin) as (ce & Hce & Hcp & _). congruence.
Qed.
End remove_find.

(** A removal by the tree's live owner: it fails without effect when
    the path leads to nothing or to a directory that holds an entry; otherwise
    the name is gone, the entry's data can no longer be read, and no other name
    in any directory changes. *)
Theorem removal_exact s caller t tr pt parent leaf : ft_reach s -> f_trees s !! t = Some tr ->
  ft_owned s caller t = true -> ft_parent s tr (cstr pt) = Some (parent, leaf) ->
  let '(r, s') := o9_filetree_remove caller t (Some pt) s in
  match ft_find s parent leaf with
  | None => r = -1 /\ s' = s
  | Some p =>
      (exists b l, (e_buckets <$> f_entries s !! p) ≫= (.!! b) = Some l /\ l <> []) /\ r = -1 /\ s' = s \/
      (forall nm, ft_find s p nm = None) /\ r = 0 /\ o9_filetree_data s' t p = None /\
      forall dir nm, ft_find s' dir nm = if decide ((dir, nm) = (parent, leaf)) then None else ft_find s dir nm
  end.
Proof.
  intros W%wf_reach Ht Ho Hp. unfold o9_filetree_remove. rewrite Ht, Ho, Hp. cbn [negb].
  destruct (ft_find s parent leaf) as [p|] eqn:Ef; [|done].
  destruct (ft_find_child _ _ _ _ W Ef) as (de & e & Hde & Hdk & He & Hb & Hn & Hr & Hpar & _). rewrite He.
  destruct (forallb _ (e_buckets e)) eqn:Hall; [right|left].
  - assert (Hempty : forall b l, e_buckets e !! b = Some l -> l = []).
    { intros b l Hl. apply list_elem_of_lookup_2, list_elem_of_In in Hl. rewrite forallb_forall in Hall. by apply Hall, bool_decide_eq_true in Hl. }
    split_and!; [|done| |by apply removed_find].
    + intros nm. unfold ft_find. rewrite He. destruct (is_dir e); [|done]. unfold bucket_of.
      destruct (e_buckets e !! ft_bucket nm) as [l|] eqn:El; [|done]. by rewrite (Hempty _ _ El).
    + unfold o9_filetree_data. rewrite (remove_lookup s parent p de e leaf Hde He), He. cbn [fmap option_fmap option_map]. rewrite decide_True by done.
      cbn [set_removed e_removed negb]. by rewrite !andb_false_r.
  - split; [|done]. apply not_true_iff_false in Hall. cbn.
    destruct (decide (Exists (fun l => l <> []) (e_buckets e))) as [H|H].
    + apply Exists_exists in H as (l & Hl & Hne). apply list_elem_of_lookup_1 in Hl as [b Hl]. by exists b, l.
    + exfalso. apply Hall, forallb_forall. intros l Hl. apply bool_decide_eq_true. destruct l; [done|]. exfalso. apply H, Exists_exists.
      eexists. by rewrite list_elem_of_In.
Qed.

Lemma removal_exact_witness :
  (o9_filetree_remove 1 1 (Some (str "b")) demo).1 = 0 /\
  ft_find (o9_filetree_remove 1 1 (Some (str "b")) demo).2 2 (str "b") = None.
Proof.
  destruct (f_trees demo !! 1%positive) as [tr|] eqn:Ht; [|vm_compute in Ht; discriminate].
  assert (Ho : ft_owned demo 1 1 = true) by (vm_compute; reflexivity).
  assert (Hp : ft_parent demo tr (cstr (str "b")) = Some (2%positive, str "b")) by (vm_compute in Ht; injection Ht as <-; vm_compute; reflexivity).
  pose proof (removal_exact demo 1 1 tr (str "b") 2 (str "b") demo_reach Ht Ho Hp) as H.
  assert (Hr : (o9_filetree_remove 1 1 (Some (str "b")) demo).1 = 0) by (vm_compute; reflexivity). split; [exact Hr|].
  destruct (o9_filetree_remove _ _ _ _) as [r s']. cbn [fst snd] in *. subst r. assert (Hn : ft_find demo 2 (str "b") = Some 4%positive) by (vm_compute; reflexivity).
  rewrite Hn in H. destruct H as [(_ & H & _)|(_ & _ & _ & H)]; [discriminate H|]. rewrite (H 2%positive (str "b")). rewrite decide_True; reflexivity.
Defined.

(** ** Trees *)

(** A tree is destroyed exactly when its owner asks, it has been closed
    and no entry of another tree still mounts it; then it and its own entries
    are gone and nothing else is.  Otherwise nothing changes. *)
Theorem destroy_exact s caller t tr : ft_reach s -> f_trees s !! t = Some tr ->
  let '(r, s') := o9_filetree_destroy caller t s in
  (r = 0 <-> t_owner tr = caller /\ t_alive tr = false /\
     forall p e m, f_entries s !! p = Some e -> e_tree e <> t -> m ∈ e_mounts e -> m_source m <> t) /\
  (r = 0 -> (forall p e, f_entries s' !! p = Some e <-> f_entries s !! p = Some e /\ e_tree e <> t) /\
     (forall u tu, f_trees s' !! u = Some tu <-> f_trees s !! u = Some tu /\ u <> t)) /\
  (r <> 0 -> r = -1 /\ s' = s).
Proof.
  intros W%wf_reach Ht. pose proof (not_mounted s t W) as Hm. unfold o9_filetree_destroy. rewrite Ht.
  case_bool_decide as Ho; [split; [split; [lia|tauto]|done]|].
  destruct (t_alive tr) eqn:Hal; [split; [split; [lia|by intros (_ & ? & _)]|done]|].
  assert (Hs : existsb (fun x => bool_decide (x.2 = t)) (f_sources s) = false).
  { apply not_true_iff_false. intros (x & Hx & Hxt%bool_decide_eq_true)%existsb_exists. apply list_elem_of_In in Hx.
    apply (wf_sources _ W) in Hx. unfold tree_alive in Hx. rewrite Hxt, Ht in Hx. congruence. }
  rewrite Hs. destruct (existsb _ (f_order s)) eqn:E.
  - split; [|done]. split; [lia|]. intros (_ & _ & H). apply Hm in H. discriminate.
  - rewrite bool_decide_true by (apply (wf_order _ W); by eexists). split; [split; [|done]|split; [|done]].
    + intros _. split_and!; [done|done|]. by apply Hm.
    + intros _. split; intros; [by eapply destroy_entries|apply destroy_trees].
Qed.

(** While the directory mounts it, the closed tree 5 stays. *)
Lemma destroy_exact_witness : exists s, ft_reach s /\ (o9_filetree_destroy 2 5 s).1 = 0.
Proof.
  exists (ft_run [(1, FApply 1 [FtSpec (Some (str "a")) None 0 true]); (2, FClose 5)] demo). set (s := ft_run _ demo).
  assert (R : ft_reach s) by (apply (reach_do _ 2 (FClose 5)), (reach_do _ 1 (FApply 1 _)), demo_reach). split; [exact R|].
  destruct (f_trees s !! 5%positive) as [tr|] eqn:Ht; [|vm_compute in Ht; discriminate Ht].
  assert (Hr : (o9_filetree_destroy 2 5 s).1 = 0) by (vm_compute; reflexivity).
  pose proof (destroy_exact s 2 5 tr R Ht) as H. destruct (o9_filetree_destroy 2 5 s) as [r s']. cbn [fst] in *.
  destruct H as [H1 _]. apply H1. apply H1 in Hr. exact Hr.
Defined.

(** ** Observed *)

(** When the owner of a mounted tree closes it, lookup skips the mount but the
    listing of the directory, and of every directory that reaches it, fails. *)
Lemma dead_mount_breaks_listing :
  let s := ft_run [(1, FText 1 (Some (str "a/c")) (Some (str "own")) 0); (2, FClose 5)] demo in
  o9_filetree_alive s 1 = true /\ o9_filetree_lookup s 1 3 (str "c") = Some 8%positive /\ o9_filetree_entries s 1 3 = None.
Proof. vm_compute. done. Qed.

(** A directory that is removed keeps its mounts, and no path leads to it any
    more: while its tree lives, the source can never be destroyed. *)
Lemma removed_dir_keeps_source :
  let s := ft_run [(1, FRemove 1 (Some (str "a"))); (2, FClose 5)] demo in
  5%positive ∉ tree_sources s [] 1 /\
  (o9_filetree_destroy 2 5 s).1 = -1 /\ (o9_filetree_apply_specs 1 1 [FtSpec (Some (str "a")) None 0 true] s).1 = -1.
Proof. split; [|vm_compute; done]. apply (bool_decide_unpack _). vm_compute. exact I. Qed.
