(* ===== verification/Tabula.v ===== *)
(** * Tabulae ([o9_tab_*] in [o9_runtime.c])

    A tabula is a table with a schema: entries with an identity in the first
    column and values attached to the others.  The table itself is libtab's,
    which is not part of the repository: it is the class [libtab], and what
    the code relies on (docs/TABULA.md) is [libtab_laws].  Allocation
    succeeds; what a tabula keeps of its remote origin is in [Client]. *)
From S2P Require Import Prelude O9Str.

Open Scope Z_scope.

(** ** The table library *)

Record TabColSpec := ColSpec {
  c_name : option bytes;
  c_type : option bytes;
  c_algo : option bytes;
  c_signer : option bytes;
}.

(** A [TabRow*] is a [row]; a function that changes a table returns it.
    [rows_left] is the number of rows that an iterator still has. *)
Class libtab := {
  tab : Type;
  row : Type;
  iter : Type;
  row_eq_dec :: EqDecision row;
  tab_create : bytes -> bytes -> list TabColSpec -> option tab;
  tab_open : bytes -> option tab;
  tab_ncolumns : tab -> nat;
  tab_colname : tab -> nat -> option bytes;
  tab_coltype : tab -> nat -> option bytes;
  tab_col_attr : tab -> option bytes -> bytes -> option bytes;
  tab_schema_name : tab -> option bytes;
  tab_add_row : tab -> bytes -> bytes -> option (row * tab);
  tab_get : tab -> row -> bytes -> option bytes;
  tab_set : tab -> row -> bytes -> bytes -> Z * tab;
  tab_clear : tab -> row -> bytes -> Z * tab;
  tab_remove_row : tab -> row -> Z * tab;
  tab_search : tab -> bytes -> option bytes -> option iter;
  tab_iter : tab -> option iter;
  tab_iter_next : tab -> iter -> option row * iter;
  rows_left : tab -> iter -> nat;
  tab_serialize : tab -> option bytes;
  tab_commit : tab -> Z;
}.

Section tabula.
Context {L : libtab} (w : Z).

(** [while((r = tab_iter_next(it)) != nil)] over a table that stays as it is:
    the rows that the body sees. *)
Fixpoint drain (fuel : nat) (t : tab) (it : iter) : list row :=
  match fuel with
  | O => []
  | S fuel =>
      match tab_iter_next t it with
      | (Some r, it) => r :: drain fuel t it
      | (None, _) => []
      end
  end.

Definition iterate (t : tab) (it : iter) : list row := drain (S (rows_left t it)) t it.

(** ** Operations *)

(** A tabula that is not nil and has a table. *)
Record O9Tabula := MkTabula { t_tab : tab; t_cur : option row; t_it : option iter }.

Definition set_tab (tb : tab) (t : O9Tabula) : O9Tabula := MkTabula tb (t_cur t) (t_it t).
Definition set_cur (r : option row) (t : O9Tabula) : O9Tabula := MkTabula (t_tab t) r (t_it t).

Definition o9_tab_has_col (t : O9Tabula) (col : bytes) : bool :=
  existsb (fun i => bool_decide (tab_colname (t_tab t) i = Some col)) (seq 0 (tab_ncolumns (t_tab t))).

Definition o9_tab_find_row (t : O9Tabula) (col val : bytes) : option row :=
  match tab_search (t_tab t) col (Some val) with
  | None => None
  | Some it => (tab_iter_next (t_tab t) it).1
  end.

Definition o9_tab_bad_row_id (id : bytes) : bool := bool_decide (id = []) || streq id (str "nil").

Definition o9_tab_store_value (s : ostring) : option bytes := (fun b => cstr (o9_string_cstr (Some b))) <$> s.

(** Skips blanks. *)
Fixpoint skip_blanks (p : bytes) : bytes :=
  match p with x20 :: p' => skip_blanks p' | _ => p end.

(** The loop over the comma-separated names, from column [n]. *)
Fixpoint parse_cols (fuel n : nat) (p : bytes) : list bytes :=
  match fuel with
  | O => []
  | S fuel =>
      if bool_decide (p = []) || bool_decide (64 <= n)%nat then [] else
      let '(seg, q) := strchr x2c p in
      let name := skip_blanks seg in
      if streq name (str "id") then match q with Some q => parse_cols fuel n q | None => [] end
      else name :: match q with Some q => parse_cols fuel (S n) q | None => [] end
  end.

Definition plain_col (name : bytes) : TabColSpec := ColSpec (Some name) None None None.

Definition o9_tab_new (name cols : ostring) : option O9Tabula :=
  let cname := cstr (o9_string_cstr name) in
  let cname := if decide (cname = []) then str "tab" else cname in
  let buf := strncpy 512 (o9_string_cstr cols) in
  let spec := plain_col <$> str "id" :: parse_cols (S (length buf)) 1 buf in
  let path := snprint 128 (cname ++ str ".tab") in
  match tab_create path cname spec with
  | Some tb => Some (MkTabula tb None None)
  | None => None
  end.

Definition o9_tab_open (path : ostring) : option O9Tabula :=
  match path with
  | None => None
  | Some p => if decide (cstr p = []) then None else (fun tb => MkTabula tb None None) <$> tab_open (cstr p)
  end.

Definition o9_tab_schema (t : O9Tabula) : ostring :=
  o9_string_from_c w (Some (default [] (tab_schema_name (t_tab t)))).

Definition o9_tab_has (t : O9Tabula) (col : ostring) : bool :=
  match col with None => false | Some c => o9_tab_has_col t (cstr c) end.

Definition o9_tab_add (t : O9Tabula) (key : ostring) : Z * O9Tabula :=
  match key with
  | None => (-1, t)
  | Some k =>
      if o9_tab_bad_row_id (cstr k) then (-1, t) else
      match tab_add_row (t_tab t) (str "id") (cstr k) with
      | Some (r, tb) => (0, set_cur (Some r) (set_tab tb t))
      | None => (-1, set_cur None t)
      end
  end.

Definition head_col (t : O9Tabula) : bytes := default (str "id") (tab_colname (t_tab t) 0).

Definition o9_tab_write (t : O9Tabula) (id col val : ostring) : Z * O9Tabula :=
  match id, col with
  | Some id, Some col =>
      let cid := cstr id in
      let ccol := cstr col in
      let cval := o9_tab_store_value val in
      if o9_tab_bad_row_id cid || negb (o9_tab_has_col t ccol) then (-1, t) else
      let head := head_col t in
      if streq ccol head && negb (bool_decide (cval = Some cid)) then (-1, t) else
      let found := o9_tab_find_row t head cid in
      match found, val with
      | None, None => (0, t)
      | _, _ =>
          match (match found with
                 | Some r => Some (r, t_tab t)
                 | None => tab_add_row (t_tab t) head cid
                 end) with
          | None => (-1, t)
          | Some (r, tb) =>
              let '(rv, tb) :=
                if streq ccol head then (0, tb)
                else match cval with
                     | None => tab_clear tb r ccol
                     | Some v => tab_set tb r ccol v
                     end in
              (rv, set_cur (Some r) (set_tab tb t))
          end
      end
  | _, _ => (-1, t)
  end.

Definition o9_tab_remove (t : O9Tabula) (id : ostring) : Z * O9Tabula :=
  match id with
  | None => (-1, t)
  | Some id =>
      if o9_tab_bad_row_id (cstr id) then (-1, t) else
      match o9_tab_find_row t (head_col t) (cstr id) with
      | None => (-1, t)
      | Some r =>
          let t := if decide (t_cur t = Some r) then set_cur None t else t in
          let '(rv, tb) := tab_remove_row (t_tab t) r in
          (rv, set_tab tb t)
      end
  end.

Definition o9_tab_set (t : O9Tabula) (col val : ostring) : Z * O9Tabula :=
  match t_cur t, col with
  | Some r, Some c =>
      let '(rv, tb) := match o9_tab_store_value val with
                       | None => tab_clear (t_tab t) r (cstr c)
                       | Some v => tab_set (t_tab t) r (cstr c) v
                       end in
      (rv, set_tab tb t)
  | _, _ => (-1, t)
  end.

(** What is returned for a cell: nil for a cleared one. *)
Definition cell_string (v : option bytes) : ostring :=
  match v with Some v => o9_string_from_c w (Some v) | None => None end.

Definition empty_string : ostring := o9_string_from_c w (Some []).

Definition o9_tab_get (t : O9Tabula) (col : ostring) : ostring :=
  match t_cur t, col with
  | Some r, Some c => cell_string (tab_get (t_tab t) r (cstr c))
  | _, _ => empty_string
  end.

Definition o9_tab_value (t : O9Tabula) (id col : ostring) : ostring :=
  match id, col with
  | Some id, Some col =>
      if bool_decide (cstr id = []) || negb (o9_tab_has_col t (cstr col)) then empty_string else
      match o9_tab_find_row t (head_col t) (cstr id) with
      | None => empty_string
      | Some r => cell_string (tab_get (t_tab t) r (cstr col))
      end
  | _, _ => empty_string
  end.

Definition o9_tab_first (t : O9Tabula) : Z * O9Tabula :=
  match tab_iter (t_tab t) with
  | None => (0, MkTabula (t_tab t) None None)
  | Some it =>
      let '(r, it) := tab_iter_next (t_tab t) it in
      ((if decide (r = None) then 0 else 1), MkTabula (t_tab t) r (Some it))
  end.

Definition o9_tab_next (t : O9Tabula) : Z * O9Tabula :=
  match t_it t with
  | None => (0, t)
  | Some it =>
      let '(r, it) := tab_iter_next (t_tab t) it in
      if decide (r = None) then (0, MkTabula (t_tab t) None None) else (1, MkTabula (t_tab t) r (Some it))
  end.

Definition o9_tab_read (t : O9Tabula) : ostring :=
  match tab_serialize (t_tab t) with
  | Some buf => o9_string_take (Some buf)
  | None => empty_string
  end.

Definition o9_tab_serialize : O9Tabula -> ostring := o9_tab_read.

Definition col_spec (tb : tab) (i : nat) : TabColSpec :=
  let name := tab_colname tb i in
  ColSpec name (tab_coltype tb i) (tab_col_attr tb name (str "algo")) (tab_col_attr tb name (str "signer")).

(** Copies one row of [tb] into [out]. *)
Definition copy_row (tb : tab) (head : bytes) (n : nat) (out : tab) (r : row) : tab :=
  match tab_add_row out head (default [] (tab_get tb r head)) with
  | None => out
  | Some (nr, out) =>
      foldl (fun out i =>
        match tab_colname tb i with
        | Some c => match tab_get tb r c with Some v => (tab_set out nr c v).2 | None => out end
        | None => out
        end) out (seq 1 (n - 1))
  end.

Definition o9_tab_query (t : O9Tabula) (col val : ostring) : option O9Tabula :=
  match col with
  | None => None
  | Some c =>
      let tb := t_tab t in
      let n := tab_ncolumns tb in
      if negb (o9_tab_has_col t (cstr c)) || bool_decide (n = 0%nat) then None else
      let schema := default (str "tab") (tab_schema_name tb) in
      match tab_create (schema ++ str ".query.tab") schema (col_spec tb <$> seq 0 n) with
      | None => None
      | Some out =>
          let rows := match tab_search tb (cstr c) (o9_tab_store_value val) with
                      | Some it => iterate tb it
                      | None => []
                      end in
          Some (MkTabula (foldl (copy_row tb (head_col t) n) out rows) None None)
      end
  end.

Definition o9_tab_flush (t : O9Tabula) : Z := tab_commit (t_tab t).
End tabula.

(** ** What the code relies on *)

(** A text that stands on one line of the file format. *)
Definition value_ok (v : bytes) : Prop := v <> [] /\ Forall (fun c => 32 <= uchar c /\ uchar c <> 127) v.
#[export] Instance value_ok_dec v : Decision (value_ok v).
Proof. unfold value_ok. apply _. Defined.

Definition column `{L : libtab} (t : tab) (c : bytes) : Prop := exists i, (i < tab_ncolumns t)%nat /\ tab_colname t i = Some c.

Definition same_schema `{L : libtab} (t t' : tab) : Prop :=
  tab_schema_name t' = tab_schema_name t /\ tab_ncolumns t' = tab_ncolumns t /\ forall i, tab_colname t' i = tab_colname t i.

(** [rows t] are the entries in their order, without the hidden nil entry. *)
Class libtab_laws (L : libtab) := {
  rows : tab -> list row;
  rows_nodup t : NoDup (rows t);
  iter_rows t : exists it, tab_iter t = Some it /\ iterate t it = rows t;
  search_rows t c v : column t c -> exists it, tab_search t c v = Some it /\
    iterate t it = filter (fun r => tab_get t r c = v) (rows t);
  created path schema cols t : tab_create path schema cols = Some t ->
    tab_schema_name t = Some schema /\ tab_ncolumns t = length cols /\
    (forall i, tab_colname t i = cols !! i ≫= c_name) /\ rows t = [];
  added t head id : tab_colname t 0 = Some head -> o9_tab_bad_row_id id = false -> value_ok id ->
    (forall r, r ∈ rows t -> tab_get t r head <> Some id) ->
    exists r t', tab_add_row t head id = Some (r, t') /\ same_schema t t' /\ r ∉ rows t /\ rows t' = rows t ++ [r] /\
      (forall c, tab_get t' r c = if decide (c = head) then Some id else None) /\
      forall r' c, r' ∈ rows t -> tab_get t' r' c = tab_get t r' c;
  stored t r c v : r ∈ rows t -> column t c -> tab_colname t 0 <> Some c -> value_ok v ->
    exists t', tab_set t r c v = (0, t') /\ same_schema t t' /\ rows t' = rows t /\
      forall r' c', r' ∈ rows t -> tab_get t' r' c' = if decide (r' = r /\ c' = c) then Some v else tab_get t r' c';
  cleared t r c : r ∈ rows t -> column t c -> tab_colname t 0 <> Some c ->
    exists t', tab_clear t r c = (0, t') /\ same_schema t t' /\ rows t' = rows t /\
      forall r' c', r' ∈ rows t -> tab_get t' r' c' = if decide (r' = r /\ c' = c) then None else tab_get t r' c';
  removed t r : r ∈ rows t ->
    exists t', tab_remove_row t r = (0, t') /\ same_schema t t' /\ rows t' = filter (fun r' => r' <> r) (rows t) /\
      forall r' c, r' ∈ rows t' -> tab_get t' r' c = tab_get t r' c;
}.

(** *** Searching *)

Section searching.
Context {L : libtab} {LL : libtab_laws L}.

Lemma iterate_head (t : tab) it : (tab_iter_next t it).1 = head (iterate t it).
Proof. unfold iterate. cbn [drain]. by destruct (tab_iter_next t it) as [[r|] it']. Qed.

Lemma find_row_spec (t : O9Tabula) c v : column (t_tab t) c ->
  o9_tab_find_row t c v = head (filter (fun r => tab_get (t_tab t) r c = Some v) (rows (t_tab t))).
Proof. intros Hc. unfold o9_tab_find_row. destruct (search_rows (t_tab t) c (Some v) Hc) as (it & -> & <-). apply iterate_head. Qed.

Lemma find_row_none (t : O9Tabula) c v : column (t_tab t) c ->
  o9_tab_find_row t c v = None <-> forall r, r ∈ rows (t_tab t) -> tab_get (t_tab t) r c <> Some v.
Proof.
  intros Hc. rewrite (find_row_spec t c v Hc). split.
  - intros Hh r Hr Hg. assert (Hin : r ∈ filter (fun r => tab_get (t_tab t) r c = Some v) (rows (t_tab t))) by by apply list_elem_of_filter.
    destruct (filter _ _); [by apply elem_of_nil in Hin|done].
  - intros Hn. destruct (filter _ _) as [|r l] eqn:E; [done|]. exfalso.
    assert (Hin : r ∈ filter (fun r => tab_get (t_tab t) r c = Some v) (rows (t_tab t))) by (rewrite E; by left).
    apply list_elem_of_filter in Hin as [Hg Hr]. by apply (Hn r).
Qed.

Lemma has_col_column (t : O9Tabula) c : o9_tab_has_col t c = true <-> column (t_tab t) c.
Proof.
  unfold o9_tab_has_col, column. rewrite existsb_exists. split.
  - intros (i & Hi%in_seq & Hc%bool_decide_eq_true). exists i. split; [lia|done].
  - intros (i & Hi & Hc). exists i. rewrite in_seq, bool_decide_eq_true. split; [lia|done].
Qed.

Lemma same_schema_column (t t' : tab) c : same_schema t t' -> column t c -> column t' c.
Proof. intros (_ & Hn & Hc) (i & Hi & E). exists i. rewrite Hn, Hc. done. Qed.

End searching.

(** *** An implementation

    A list of entries; it shows that the laws can be kept. *)
Module ListTab.
Record table := Table { schema : bytes; cols : list TabColSpec; entries : list (nat * gmap bytes bytes); fresh : nat }.

Definition cell (t : table) (r : nat) : option (gmap bytes bytes) :=
  (fun x => x.2.2) <$> list_find (fun e => e.1 = r) (entries t).
Definition get (t : table) (r : nat) (c : bytes) : option bytes := cell t r ≫= (.!! c).
Definition map_row (f : gmap bytes bytes -> gmap bytes bytes) (r : nat) (t : table) : table :=
  Table (schema t) (cols t) ((fun e => if decide (e.1 = r) then (e.1, f e.2) else e) <$> entries t) (fresh t).
Definition ids (t : table) : list nat := (entries t).*1.

Definition new_row (t : table) (head id : bytes) : nat :=
  S (foldr Nat.max (fresh t) (ids t)).

#[export] Instance impl : libtab := {|
  tab := table; row := nat; iter := list nat;
  tab_create _ schema cols := Some (Table schema cols [] 0);
  tab_open _ := None;
  tab_ncolumns t := length (cols t);
  tab_colname t i := cols t !! i ≫= c_name;
  tab_coltype t i := cols t !! i ≫= c_type;
  tab_col_attr _ _ _ := None;
  tab_schema_name t := Some (schema t);
  tab_add_row t head id :=
    let r := new_row t head id in
    Some (r, Table (schema t) (cols t) (entries t ++ [(r, {[head := id]})]) r);
  tab_get := get;
  tab_set t r c v := (0, map_row <[c := v]> r t);
  tab_clear t r c := (0, map_row (delete c) r t);
  tab_remove_row t r := (0, Table (schema t) (cols t) (filter (fun e => e.1 <> r) (entries t)) (fresh t));
  tab_search t c v := Some (filter (fun r => get t r c = v) (remove_dups (ids t)));
  tab_iter t := Some (remove_dups (ids t));
  tab_iter_next _ it := match it with [] => (None, []) | r :: it => (Some r, it) end;
  rows_left _ it := length it;
  tab_serialize _ := None;
  tab_commit _ := 0;
|}.

Lemma iterate_list (t : table) (it : list nat) : @iterate impl t it = it.
Proof.
  unfold iterate. change (@rows_left impl t it) with (length it). induction it as [|r it IH]; [done|].
  change (r :: @drain impl (S (length it)) t it = r :: it). f_equal. exact IH.
Qed.

Lemma fresh_row t head id : new_row t head id ∉ ids t.
Proof.
  unfold new_row. assert (H : forall l n r, r ∈ l -> (r <= foldr Nat.max n l)%nat); [|intros Hin; specialize (H _ (fresh t) _ Hin); lia].
  induction l as [|x l IH]; intros n r Hr; [by apply elem_of_nil in Hr|]. cbn. apply elem_of_cons in Hr as [->|Hr]; [lia|].
  specialize (IH n r Hr). lia.
Qed.

Lemma find_fmap (f : nat * gmap bytes bytes -> nat * gmap bytes bytes) (r : nat) (l : list (nat * gmap bytes bytes)) :
  (forall e, (f e).1 = e.1) ->
  (fun x => x.2) <$> list_find (fun e => e.1 = r) (f <$> l) = f ∘ snd <$> list_find (fun e => e.1 = r) l.
Proof.
  intros Hf. induction l as [|e l IH]; [done|]. cbn [fmap list_fmap list_find]. rewrite Hf. destruct (decide (e.1 = r)); [done|].
  cbn in *. destruct (list_find _ (f <$> l)) as [[]|], (list_find _ l) as [[]|]; cbn in *; congruence.
Qed.

Lemma get_map_row f r t r' c : get (map_row f r t) r' c = if decide (r' = r) then (f <$> cell t r') ≫= (.!! c) else get t r' c.
Proof.
  assert (Hc : cell (map_row f r t) r' = if decide (r' = r) then f <$> cell t r' else cell t r').
  { unfold cell, map_row. cbn [entries].
    pose proof (find_fmap (fun e => if decide (e.1 = r) then (e.1, f e.2) else e) r' (entries t) ltac:(intros []; by case_decide)) as H.
    destruct (list_find _ (_ <$> _)) as [[i [a m]]|], (list_find _ (entries t)) as [[j [b m']]|] eqn:E; cbn in H |- *; [|done..|by case_decide].
    apply list_find_Some in E as (_ & Hb & _). cbn in Hb. subst b. repeat case_decide; cbn; congruence. }
  unfold get. rewrite Hc. by case_decide.
Qed.

Lemma ids_map_row f r t : ids (map_row f r t) = ids t.
Proof.
  unfold ids, map_row. cbn [entries]. rewrite <- list_fmap_compose. apply list_fmap_ext. intros _ [] _. cbn. by case_decide.
Qed.

Lemma remove_dups_snoc (l : list nat) r : r ∉ l -> remove_dups (l ++ [r]) = remove_dups l ++ [r].
Proof.
  induction l as [|x l IH]; intros Hr; [done|]. apply not_elem_of_cons in Hr as [Hx Hr]. specialize (IH Hr). simpl.
  destruct (decide_rel _ x (l ++ [r])) as [D|D], (decide_rel _ x l) as [D'|D']; [done| | |by rewrite IH].
  - apply elem_of_app in D as [D|D%list_elem_of_singleton]; congruence.
  - exfalso. apply D, elem_of_app. by left.
Qed.

Lemma remove_dups_filter (P : nat -> Prop) `{forall x, Decision (P x)} (l : list nat) :
  remove_dups (filter P l) = filter P (remove_dups l).
Proof.
  induction l as [|x l IH]; [done|]. destruct (decide (P x)) as [Hx|Hx].
  - rewrite filter_cons_True by done. simpl. destruct (decide_rel _ x (filter P l)) as [D|D], (decide_rel _ x l) as [D'|D']; [done| | |].
    + exfalso. apply D'. by apply list_elem_of_filter in D as [_ ?].
    + exfalso. apply D. by apply list_elem_of_filter.
    + by rewrite filter_cons_True, IH.
  - rewrite filter_cons_False by done. simpl. rewrite IH. destruct (decide_rel _ x l); [done|]. by rewrite filter_cons_False.
Qed.

Lemma cell_app t r e : e.1 ∉ ids t -> r <> e.1 -> cell (Table (schema t) (cols t) (entries t ++ [e]) (fresh t)) r = cell t r.
Proof.
  intros _ Hr. unfold cell. cbn [entries]. induction (entries t) as [|x l IH]; cbn [app list_find].
  - by rewrite decide_False.
  - destruct (decide (x.1 = r)); [done|]. cbn in *.
    destruct (list_find (fun e => e.1 = r) (l ++ [e])) as [[]|], (list_find (fun e => e.1 = r) l) as [[]|]; cbn in *; congruence.
Qed.

Lemma cell_new t r m : r ∉ ids t -> cell (Table (schema t) (cols t) (entries t ++ [(r, m)]) r) r = Some m.
Proof.
  intros Hr. unfold cell. cbn [entries]. unfold ids in Hr. induction (entries t) as [|x l IH]; cbn [app list_find].
  - by rewrite decide_True.
  - cbn in Hr. apply not_elem_of_cons in Hr as [Hx Hr]. rewrite decide_False by done. specialize (IH Hr).
    destruct (list_find (fun e => e.1 = r) (l ++ [(r, m)])) as [[]|]; cbn in *; congruence.
Qed.

Lemma cell_elem t r : r ∈ ids t -> exists m, cell t r = Some m.
Proof.
  unfold ids, cell. intros Hr. apply list_elem_of_fmap in Hr as (e & -> & He).
  destruct (list_find (fun e' => e'.1 = e.1) (entries t)) as [[i x]|] eqn:E; [by eexists|].
  apply list_find_None in E. rewrite Forall_forall in E. by destruct (E e He).
Qed.

Lemma cell_filter t r r' : r' <> r ->
  cell (Table (schema t) (cols t) (filter (fun e => e.1 <> r) (entries t)) (fresh t)) r' = cell t r'.
Proof.
  intros Hr. unfold cell. cbn [entries]. induction (entries t) as [|x l IH]; [done|]. destruct (decide (x.1 = r)) as [D|D].
  - rewrite filter_cons_False by tauto. cbn [list_find]. rewrite decide_False by congruence. rewrite IH.
    by destruct (list_find _ l) as [[]|].
  - rewrite filter_cons_True by done. cbn [list_find]. destruct (decide (x.1 = r')); [done|].
    destruct (list_find _ (filter _ l)) as [[]|], (list_find _ l) as [[]|]; cbn in *; congruence.
Qed.

#[export] Instance laws : libtab_laws impl.
Proof.
  refine {| rows := (fun t : @tab impl => remove_dups (ids t)) : @tab impl -> list (@row impl) |}.
  - intros t. apply NoDup_remove_dups.
  - intros t. eexists. split; [reflexivity|apply iterate_list].
  - intros t c v _. eexists. split; [reflexivity|apply iterate_list].
  - intros path sc cs t [= <-]. done.
  - intros t head id _ _ _ _. exists (new_row t head id). eexists. split; [reflexivity|]. pose proof (fresh_row t head id) as Hf.
    split; [done|]. split; [by rewrite elem_of_remove_dups|]. split; [unfold ids; cbn; rewrite fmap_app; by apply remove_dups_snoc|]. split.
    + intros c. unfold tab_get, impl, get. rewrite cell_new by done. cbn. case_decide as D.
      * subst. by rewrite lookup_singleton_eq.
      * by rewrite lookup_singleton_ne.
    + intros r' c Hr'. rewrite elem_of_remove_dups in Hr'. unfold tab_get, impl, get.
      pose proof (cell_app t r' (new_row t head id, {[head := id]}) Hf) as Hc. cbn [fst] in Hc. unfold cell in *. cbn [entries] in *.
      rewrite Hc; [done|]. intros ->. done.
  - intros t r c v Hr _ _ _. eexists. split; [reflexivity|]. split; [done|]. split; [by rewrite ids_map_row|].
    intros r' c' Hr'. unfold tab_get, impl. rewrite get_map_row. unfold get. destruct (decide (r' = r)) as [->|Hne].
    + rewrite elem_of_remove_dups in Hr. destruct (cell_elem t r Hr) as [m Hm]. rewrite Hm. rewrite decide_True by done. cbn [fmap option_fmap option_map mbind option_bind].
      case_decide as D; [destruct D as [_ ->]|].
      * apply lookup_insert_eq.
      * rewrite lookup_insert_ne; [done|]. intros ->. by apply D.
    + rewrite decide_False by done. rewrite decide_False; [done|]. by intros [? _].
  - intros t r c Hr _ _. eexists. split; [reflexivity|]. split; [done|]. split; [by rewrite ids_map_row|].
    intros r' c' Hr'. unfold tab_get, impl. rewrite get_map_row. unfold get. destruct (decide (r' = r)) as [->|Hne].
    + rewrite elem_of_remove_dups in Hr. destruct (cell_elem t r Hr) as [m Hm]. rewrite Hm. rewrite decide_True by done. cbn [fmap option_fmap option_map mbind option_bind].
      case_decide as D; [destruct D as [_ ->]|].
      * apply lookup_delete_eq.
      * rewrite lookup_delete_ne; [done|]. intros ->. by apply D.
    + rewrite decide_False by done. rewrite decide_False; [done|]. by intros [? _].
  - intros t r Hr. eexists. split; [reflexivity|]. split; [done|]. split.
    + unfold ids. cbn [entries]. rewrite <- remove_dups_filter. f_equal. induction (entries t) as [|e l IH]; [done|].
      cbn [fmap list_fmap]. destruct (decide (e.1 = r)) as [D|D].
      * rewrite !filter_cons_False by tauto. exact IH.
      * rewrite !filter_cons_True by done. cbn [fmap list_fmap]. f_equal. exact IH.
    + intros r' c. rewrite elem_of_remove_dups. unfold ids. cbn [entries]. intros (e & -> & He)%list_elem_of_fmap.
      apply list_elem_of_filter in He as [He _]. unfold tab_get, impl, get. by rewrite (cell_filter t r).
Defined.
End ListTab.

(** ** A tabula is a document *)

Inductive tab_op :=
  | TWrite (id col val : ostring)
  | TRemove (id : ostring)
  | TValue (id col : ostring)
  | THas (col : ostring).

Inductive tab_ret := TInt (r : Z) | TBool (b : bool) | TStr (s : ostring).

Definition tab_do `{L : libtab} (w : Z) (t : O9Tabula) (op : tab_op) : tab_ret * O9Tabula :=
  match op with
  | TWrite id col val => let '(r, t) := o9_tab_write t id col val in (TInt r, t)
  | TRemove id => let '(r, t) := o9_tab_remove t id in (TInt r, t)
  | TValue id col => (TStr (o9_tab_value w t id col), t)
  | THas col => (TBool (o9_tab_has t col), t)
  end.

(** A document: the values of the entries by identity, under a schema. *)
Abbreviation doc := (gmap bytes (gmap bytes bytes)) (only parsing).

Definition doc_do (w : Z) (head : bytes) (cols : list bytes) (m : doc) (op : tab_op) : tab_ret * doc :=
  match op with
  | TWrite (Some id) (Some col) val =>
      let id := cstr id in
      let col := cstr col in
      if o9_tab_bad_row_id id || bool_decide (col ∉ head :: cols) then (TInt (-1), m)
      else if decide (col = head) then
        if decide (o9_tab_store_value val = Some id) then (TInt 0, <[id := default ∅ (m !! id)]> m) else (TInt (-1), m)
      else match o9_tab_store_value val with
           | None => (TInt 0, alter (delete col) id m)
           | Some v => (TInt 0, <[id := <[col := v]> (default ∅ (m !! id))]> m)
           end
  | TRemove (Some id) =>
      if o9_tab_bad_row_id (cstr id) || bool_decide (m !! cstr id = None) then (TInt (-1), m)
      else (TInt 0, delete (cstr id) m)
  | TValue (Some id) (Some col) =>
      if bool_decide (cstr id = []) || bool_decide (cstr col ∉ head :: cols) then (TStr (empty_string w), m) else
      match m !! cstr id with
      | None => (TStr (empty_string w), m)
      | Some vals => (TStr (cell_string w (if decide (cstr col = head) then Some (cstr id) else vals !! cstr col)), m)
      end
  | THas (Some col) => (TBool (bool_decide (cstr col ∈ head :: cols)), m)
  | TWrite _ _ _ | TRemove _ => (TInt (-1), m)
  | TValue _ _ => (TStr (empty_string w), m)
  | THas _ => (TBool false, m)
  end.

(** What is written stands on a line. *)
Definition tab_op_ok (op : tab_op) : Prop :=
  match op with
  | TWrite (Some id) _ val => (o9_tab_bad_row_id (cstr id) = false -> value_ok (cstr id)) /\
      match val with Some v => value_ok (cstr v) | None => True end
  | _ => True
  end.

Section document.
Context {L : libtab} {LL : libtab_laws L} (w : Z) (head : bytes) (cols : list bytes) (Hcols : head ∉ cols).

Record schema_is (t : tab) : Prop := {
  si_head : tab_colname t 0 = Some head;
  si_cols : forall c, column t c <-> c ∈ head :: cols;
}.

(** The row of an entry. *)
Definition row_for (t : tab) (id : bytes) (r : row) : Prop := r ∈ rows t /\ tab_get t r head = Some id.

Record stands (t : tab) (m : doc) : Prop := {
  st_schema : schema_is t;
  st_id : forall r, r ∈ rows t -> exists id, tab_get t r head = Some id;
  st_unique : forall id r r', row_for t id r -> row_for t id r' -> r = r';
  st_entry : forall id vals, m !! id = Some vals -> exists r, row_for t id r /\ forall c, c ∈ cols -> tab_get t r c = vals !! c;
  st_none : forall id, m !! id = None -> forall r, ~ row_for t id r;
}.

Lemma same_schema_is t t' : schema_is t -> same_schema t t' -> schema_is t'.
Proof.
  intros [H1 H2] (S1 & S2 & S3). split; [by rewrite S3|]. intros c. rewrite <- H2. unfold column. rewrite S2.
  split; intros (i & Hi & E); exists i; rewrite S3 in *; done.
Qed.

Lemma find_head t m id : stands (t_tab t) m ->
  match o9_tab_find_row t head id with
  | Some r => row_for (t_tab t) id r /\ exists vals, m !! id = Some vals /\ forall c, c ∈ cols -> tab_get (t_tab t) r c = vals !! c
  | None => m !! id = None
  end.
Proof.
  intros [S1 S2 S3 S4 S5]. assert (Hc : column (t_tab t) head) by (apply S1; by left).
  destruct (o9_tab_find_row t head id) as [r|] eqn:E.
  - rewrite (find_row_spec t head id Hc) in E. destruct (filter _ _) as [|r' l] eqn:F; [done|]. injection E as ->.
    assert (Hin : r ∈ filter (fun r => tab_get (t_tab t) r head = Some id) (rows (t_tab t))) by (rewrite F; by left).
    apply list_elem_of_filter in Hin as [Hg Hr]. split; [done|]. destruct (m !! id) as [vals|] eqn:Em.
    + destruct (S4 id vals Em) as (r' & Hr' & Hv). exists vals. split; [done|]. by rewrite (S3 id r r').
    + by destruct (S5 id Em r).
  - pose proof (proj1 (find_row_none t head id Hc) E) as Hn. destruct (m !! id) as [vals|] eqn:Em; [|done].
    destruct (S4 id vals Em) as (r & [Hr Hg] & _). by destruct (Hn r Hr).
Qed.

(** Changing one cell of an entry. *)
Lemma stands_cell t t' m id vals vals' r c v : stands t m -> m !! id = Some vals -> row_for t id r ->
  (forall c, c ∈ cols -> tab_get t r c = vals !! c) -> c <> head ->
  same_schema t t' -> rows t' = rows t ->
  (forall r' c', r' ∈ rows t -> tab_get t' r' c' = if decide (r' = r /\ c' = c) then v else tab_get t r' c') ->
  (forall c', vals' !! c' = if decide (c' = c) then v else vals !! c') ->
  stands t' (<[id := vals']> m).
Proof.
  intros [S1 S2 S3 S4 S5] Hm Hr Hvals Hc Hs Hrows Hget Hv.
  assert (Hhead : forall r', r' ∈ rows t -> tab_get t' r' head = tab_get t r' head)
    by (intros r' Hr'; rewrite Hget by done; rewrite decide_False; [done|by intros [_ <-]]).
  assert (Hfor : forall i r', row_for t' i r' <-> row_for t i r').
  { intros i r'. unfold row_for. rewrite Hrows. split; intros [H1 H2]; (split; [done|]); rewrite Hhead in * by done; done. }
  split.
  - by eapply same_schema_is.
  - intros r' Hr'. rewrite Hrows in Hr'. rewrite Hhead by done. by apply S2.
  - intros i r1 r2. rewrite !Hfor. apply S3.
  - intros i vals1. destruct (decide (i = id)) as [->|Hi].
    + rewrite lookup_insert_eq. intros [= <-]. exists r. split; [by apply Hfor|]. intros c' Hc'. destruct Hr as [Hr _].
      rewrite Hget, Hv by done. destruct (decide (c' = c)) as [->|]; [by rewrite decide_True|].
      rewrite decide_False by (by intros [_ ?]). by apply Hvals.
    + rewrite lookup_insert_ne by done. intros Hi'. destruct (S4 i vals1 Hi') as (r1 & Hr1 & Hv1). exists r1. split; [by apply Hfor|].
      intros c' Hc'. rewrite Hget by apply Hr1. rewrite decide_False; [by apply Hv1|]. intros [-> _]. destruct Hr, Hr1. congruence.
  - intros i. destruct (decide (i = id)) as [->|Hi]; [by rewrite lookup_insert_eq|]. rewrite lookup_insert_ne by done.
    intros Hn r'. rewrite Hfor. by apply S5.
Qed.

(** A new entry. *)
Lemma stands_new t m id : stands t m -> m !! id = None -> o9_tab_bad_row_id id = false -> value_ok id ->
  exists r t', tab_add_row t head id = Some (r, t') /\ stands t' (<[id := ∅]> m) /\ row_for t' id r /\
    forall c, c ∈ cols -> tab_get t' r c = None.
Proof.
  intros S Hm Hb Hv. pose proof S as [S1 S2 S3 S4 S5]. destruct (added t head id (si_head _ S1) Hb Hv) as (r & t' & Ha & A1 & A2 & A3 & A4 & A5).
  { intros r Hr Hg. by apply (S5 id Hm r). }
  assert (Hnew : forall c, c ∈ cols -> tab_get t' r c = None) by (intros c Hc; rewrite A4, decide_False; [done|by intros ->]).
  assert (Hfor : forall i r', row_for t' i r' <-> row_for t i r' \/ (i = id /\ r' = r)).
  { intros i r'. unfold row_for. rewrite A3, elem_of_app, list_elem_of_singleton. split.
    - intros [[H1| ->] H2]; [left; by rewrite A5 in H2|right]. rewrite A4, decide_True in H2 by done. by injection H2 as ->.
    - intros [[H1 H2]|[-> ->]]; [rewrite A5 by done; auto|]. split; [by right|]. by rewrite A4, decide_True. }
  exists r, t'. split_and!; [done| |by apply Hfor; right|done]. split.
  - by eapply same_schema_is.
  - intros r' Hr'. rewrite A3, elem_of_app, list_elem_of_singleton in Hr'. destruct Hr' as [Hr'| ->].
    + rewrite A5 by done. by apply S2.
    + exists id. by rewrite A4, decide_True.
  - intros i r1 r2. rewrite !Hfor. intros [H1|[-> ->]] [H2|[? ->]]; subst; [by eapply S3|by destruct (S5 id Hm r1)|by destruct (S5 id Hm r2)|done].
  - intros i vals. destruct (decide (i = id)) as [->|Hi].
    + rewrite lookup_insert_eq. intros [= <-]. exists r. split; [apply Hfor; auto|]. intros c Hc. rewrite Hnew by done. by rewrite lookup_empty.
    + rewrite lookup_insert_ne by done. intros Hi'. destruct (S4 i vals Hi') as (r1 & Hr1 & Hv1). exists r1. split; [apply Hfor; auto|].
      intros c Hc. rewrite A5 by apply Hr1. by apply Hv1.
  - intros i. destruct (decide (i = id)) as [->|Hi]; [by rewrite lookup_insert_eq|]. rewrite lookup_insert_ne by done.
    intros Hn r'. rewrite Hfor. intros [H|[? _]]; [by apply (S5 i Hn r')|done].
Qed.

Lemma stands_delete t t' m id r : stands t m -> row_for t id r -> same_schema t t' ->
  rows t' = filter (fun r' => r' <> r) (rows t) -> (forall r' c, r' ∈ rows t' -> tab_get t' r' c = tab_get t r' c) ->
  stands t' (delete id m).
Proof.
  intros [S1 S2 S3 S4 S5] Hr Hs Hrows Hget.
  assert (Hin : forall r', r' ∈ rows t' <-> r' <> r /\ r' ∈ rows t) by (intros r'; by rewrite Hrows, list_elem_of_filter).
  assert (Hfor : forall i r', row_for t' i r' <-> row_for t i r' /\ r' <> r).
  { intros i r'. unfold row_for. split.
    - intros [H1 H2]. rewrite Hget in H2 by done. apply Hin in H1 as [? ?]. done.
    - intros [[H1 H2] H3]. assert (r' ∈ rows t') by by apply Hin. by rewrite Hget. }
  split.
  - by eapply same_schema_is.
  - intros r' Hr'. rewrite Hget by done. apply S2, Hin, Hr'.
  - intros i r1 r2. rewrite !Hfor. intros [H1 _] [H2 _]. by eapply S3.
  - intros i vals. rewrite lookup_delete_Some. intros [Hi Hv]. destruct (S4 i vals Hv) as (r1 & Hr1 & Hv1). exists r1.
    assert (Hne : r1 <> r) by (intros ->; destruct Hr, Hr1; congruence). split; [by apply Hfor|].
    intros c Hc. rewrite Hget; [by apply Hv1|]. apply Hin. split; [done|apply Hr1].
  - intros i. destruct (decide (i = id)) as [->|Hi].
    + intros _ r'. rewrite Hfor. intros [H1 H2]. apply H2. by eapply S3.
    + rewrite lookup_delete_ne by done. intros Hn r'. rewrite Hfor. intros [H _]. by apply (S5 i Hn r').
Qed.

Lemma has_col_spec t m c : stands (t_tab t) m -> o9_tab_has_col t c = bool_decide (c ∈ head :: cols).
Proof.
  intros [S1 _ _ _ _]. apply eq_true_iff_eq. rewrite has_col_column, bool_decide_eq_true. apply (si_cols _ S1).
Qed.

Lemma head_col_spec t m : stands (t_tab t) m -> head_col t = head.
Proof. intros [S1 _ _ _ _]. unfold head_col. by rewrite (si_head _ S1). Qed.

(** Storing or clearing a cell of the entry that [r] is. *)
Lemma put_value t m id vals r c (v : option bytes) : stands t m -> m !! id = Some vals -> row_for t id r ->
  (forall c, c ∈ cols -> tab_get t r c = vals !! c) -> c ∈ cols -> (forall x, v = Some x -> value_ok x) ->
  exists t', (match v with None => tab_clear t r c | Some v => tab_set t r c v end) = (0, t') /\
    stands t' (<[id := match v with None => delete c vals | Some v => <[c := v]> vals end]> m).
Proof.
  intros S Hm Hr Hvals Hc Hv. assert (Hne : c <> head) by (intros ->; done). pose proof (st_schema _ _ S) as [S1 S2].
  assert (Hcol : column t c) by (apply S2; by right). assert (Hh : tab_colname t 0 <> Some c) by congruence.
  destruct v as [v|].
  - destruct (stored t r c v (proj1 Hr) Hcol Hh (Hv v eq_refl)) as (t' & -> & A1 & A2 & A3). exists t'. split; [done|].
    apply (stands_cell t t' m id vals _ r c (Some v)); try done. intros c'. case_decide; [subst; apply lookup_insert_eq|by apply lookup_insert_ne].
  - destruct (cleared t r c (proj1 Hr) Hcol Hh) as (t' & -> & A1 & A2 & A3). exists t'. split; [done|].
    apply (stands_cell t t' m id vals _ r c None); try done. intros c'. case_decide; [subst; apply lookup_delete_eq|by apply lookup_delete_ne].
Qed.

Lemma write_step t m id col val : stands (t_tab t) m -> tab_op_ok (TWrite id col val) ->
  (tab_do w t (TWrite id col val)).1 = (doc_do w head cols m (TWrite id col val)).1 /\
  stands (t_tab (tab_do w t (TWrite id col val)).2) (doc_do w head cols m (TWrite id col val)).2.
Proof.
  intros S Hok. cbn [tab_do]. destruct id as [id|]; [|done]. destruct col as [col|]; [|done]. destruct Hok as [Hid Hval].
  unfold o9_tab_write, doc_do. rewrite (has_col_spec t m _ S), (head_col_spec t m S).
  destruct (o9_tab_bad_row_id (cstr id)) eqn:Hb; [done|]. specialize (Hid eq_refl). cbn [orb].
  rewrite <- bool_decide_not. case_bool_decide as Hc; [done|]. pose proof (find_head t m (cstr id) S) as Hf.
  destruct (streq_spec (cstr col) head) as [Hch|Hch].
  - rewrite (decide_True (P := cstr col = head)) by done. cbn [andb]. destruct (decide (o9_tab_store_value val = Some (cstr id))) as [Hv|Hv].
    + rewrite bool_decide_true by done. cbn [negb]. assert (exists v, val = Some v) as [v ->] by (destruct val; [by eexists|done]).
      destruct (o9_tab_find_row t head (cstr id)) as [r|].
      * destruct Hf as (Hr & vals & Hm & _). rewrite Hm. split; [done|]. cbn [snd t_tab set_cur set_tab]. change (default ∅ (Some vals)) with vals. by rewrite insert_id.
      * destruct (stands_new (t_tab t) m (cstr id) S Hf Hb Hid) as (r & t' & -> & S' & _). rewrite Hf. by split.
    + by rewrite bool_decide_false.
  - rewrite (decide_False (P := cstr col = head)) by done. cbn [andb].
    assert (Hcc : cstr col ∈ cols) by (apply elem_of_cons in Hc as [?|?]; done).
    assert (Hvv : forall x, o9_tab_store_value val = Some x -> value_ok x) by (intros x Hx; destruct val as [v|]; [|done]; by injection Hx as <-).
    destruct (o9_tab_find_row t head (cstr id)) as [r|].
    + destruct Hf as (Hr & vals & Hm & Hvals). destruct (put_value (t_tab t) m (cstr id) vals r (cstr col) (o9_tab_store_value val) S Hm Hr Hvals Hcc Hvv) as (t' & E & S').
      destruct val as [v|]; cbn [o9_tab_store_value fmap option_fmap option_map] in *; rewrite E; split; try done; cbn [tab_do snd t_tab set_cur set_tab].
      * by rewrite Hm.
      * replace (alter _ _ m) with (<[cstr id := delete (cstr col) vals]> m); [done|]. apply map_eq. intros i.
        destruct (decide (i = cstr id)) as [->|]; [by rewrite lookup_insert_eq, lookup_alter_eq, Hm|by rewrite lookup_insert_ne, lookup_alter_ne].
    + destruct val as [v|]; cbn [o9_tab_store_value fmap option_fmap option_map] in *.
      * destruct (stands_new (t_tab t) m (cstr id) S Hf Hb Hid) as (r & t1 & -> & S1 & Hr & Hnone).
        destruct (put_value t1 (<[cstr id := ∅]> m) (cstr id) ∅ r (cstr col) (Some (cstr v)) S1) as (t' & E & S'); try done; [by rewrite lookup_insert_eq|].
        change (cstr (o9_string_cstr (Some v))) with (cstr v). rewrite E, Hf. split; [done|]. cbn [tab_do snd t_tab set_cur set_tab]. by rewrite insert_insert_eq in S'.
      * split; [done|]. cbn [snd]. replace (alter _ _ m) with m; [done|]. apply map_eq. intros i.
        destruct (decide (i = cstr id)) as [->|]; [by rewrite lookup_alter_eq, Hf|by rewrite lookup_alter_ne].
Qed.

Lemma tab_step t m op : stands (t_tab t) m -> tab_op_ok op ->
  (tab_do w t op).1 = (doc_do w head cols m op).1 /\ stands (t_tab (tab_do w t op).2) (doc_do w head cols m op).2.
Proof.
  intros S Hok. destruct op as [id col val|id|id col|col]; [by apply write_step|..].
  - cbn [tab_do]. destruct id as [id|]; [|done]. unfold o9_tab_remove, doc_do. destruct (o9_tab_bad_row_id (cstr id)) eqn:Hb; [done|].
    cbn [orb]. rewrite (head_col_spec t m S). pose proof (find_head t m (cstr id) S) as Hf.
    destruct (o9_tab_find_row t head (cstr id)) as [r|]; [|by rewrite bool_decide_true].
    destruct Hf as (Hr & vals & Hm & _). rewrite bool_decide_false by congruence.
    set (t1 := if decide (t_cur t = Some r) then _ else _). assert (E : t_tab t1 = t_tab t) by (unfold t1; by case_decide). rewrite E.
    destruct (removed (t_tab t) r (proj1 Hr)) as (t' & -> & A1 & A2 & A3). split; [done|]. by eapply stands_delete.
  - cbn [tab_do]. destruct id as [id|]; [|done]. destruct col as [col|]; [|done]. unfold o9_tab_value, doc_do.
    rewrite (has_col_spec t m _ S), (head_col_spec t m S), <- bool_decide_not. case_bool_decide as He; [done|]. cbn [orb].
    case_bool_decide as Hc; [done|]. pose proof (find_head t m (cstr id) S) as Hf.
    destruct (o9_tab_find_row t head (cstr id)) as [r|]; [|by rewrite Hf].
    destruct Hf as ((Hr1 & Hr2) & vals & -> & Hv). split; [|done]. cbn [fst]. do 2 f_equal.
    destruct (decide (cstr col = head)) as [->|Hne]; [done|]. apply Hv. by apply elem_of_cons in Hc as [?|?].
  - cbn [tab_do]. destruct col as [col|]; [|done]. split; [|done]. cbn. by rewrite (has_col_spec t m _ S).
Qed.

(** C36: a tabula is a document under its schema. Over every sequence of
    writes, removals, reads and column tests, a new tabula answers as a map from
    identities to values: a write creates the entry or changes one value, nil
    clears it, the identity column and the reserved identities are refused, and a
    removed entry is gone. *)
Theorem tabula_refines_document path schema t ops : tab_create path schema (plain_col <$> head :: cols) = Some t ->
  Forall tab_op_ok ops ->
  (trace (tab_do w) (MkTabula t None None) ops).1 = (trace (doc_do w head cols) ∅ ops).1.
Proof.
  intros Hc Hok. destruct (created _ _ _ _ Hc) as (_ & C2 & C3 & C4).
  assert (S : stands (t_tab (MkTabula t None None)) ∅).
  { cbn. split.
    - split; [by rewrite C3|]. intros c. unfold column. rewrite C2. split.
      + intros (i & _ & Hi). rewrite C3, list_lookup_fmap in Hi. destruct ((head :: cols) !! i) as [x|] eqn:Ex; [|done]. injection Hi as <-.
        by eapply list_elem_of_lookup_2.
      + intros Hin. apply list_elem_of_lookup_1 in Hin as [i Hi]. exists i. rewrite length_fmap, C3, list_lookup_fmap, Hi.
        split; [by eapply lookup_lt_Some|done].
    - intros r. rewrite C4. by intros ?%elem_of_nil.
    - intros id r r' [H _]. rewrite C4 in H. by apply elem_of_nil in H.
    - intros id vals. by rewrite lookup_empty.
    - intros id _ r [H _]. rewrite C4 in H. by apply elem_of_nil in H. }
  clear Hc C2 C3 C4. revert S. generalize (MkTabula t None None). generalize (∅ : doc). revert Hok. clear t path schema.
  induction 1 as [|op ops Hop _ IH]; intros m t S; [done|]. destruct (tab_step t m op S Hop) as [H1 H2].
  cbn [trace]. destruct (tab_do w t op) as [r t'], (doc_do w head cols m op) as [r' m']. cbn [fst snd] in *. specialize (IH m' t' H2).
  destruct (trace _ t' ops), (trace _ m' ops). cbn [fst] in *. congruence.
Qed.
End document.

Definition some_tab_ops : list tab_op :=
  [TWrite (Some (str "a")) (Some (str "qty")) (Some (str "5")); TWrite (Some (str "nil")) (Some (str "qty")) None;
   TValue (Some (str "a")) (Some (str "qty")); TWrite (Some (str "a")) (Some (str "qty")) None;
   TValue (Some (str "a")) (Some (str "qty")); TRemove (Some (str "a")); TValue (Some (str "a")) (Some (str "id")); TRemove (Some (str "a"))].

Lemma tabula_refines_document_witness :
  exists t, @o9_tab_new ListTab.impl (Some (str "orders")) (Some (str "item, qty")) = Some t /\
    (trace (@tab_do ListTab.impl 64) t some_tab_ops).1 =
      [TInt 0; TInt (-1); TStr (Some (str "5")); TInt 0; TStr None; TInt 0; TStr (Some []); TInt (-1)].
Proof.
  exists (@MkTabula ListTab.impl (ListTab.Table (str "orders") (plain_col <$> [str "id"; str "item"; str "qty"]) [] 0) None None).
  split; [reflexivity|].
  rewrite (@tabula_refines_document ListTab.impl ListTab.laws 64 (str "id") [str "item"; str "qty"]
    ltac:(by apply (bool_decide_unpack _)) (str "orders.tab") (str "orders") _ some_tab_ops eq_refl).
  - vm_compute. reflexivity.
  - repeat constructor; intros; try discriminate; apply (bool_decide_unpack _); vm_compute; exact I.
Defined.
