(* ===== verification/MountTable.v ===== *)
(** * Mount tables ([o9_mt_*], [o9_mount_table_*], [o9_filetree_apply] in
    [o9_runtime.c])

    A tabula of rows that each hold the parameters of one system call on the
    name space; [apply] replays them below an allowed root.  System calls go
    to an environment that answers each from the ones before it; what a
    program did is the trace of its calls.  Allocation succeeds. *)
From S2P Require Import Prelude Fmt O9Str FileTree Tabula.

Open Scope Z_scope.

(** ** System calls *)

Definition DMDIR : Z := 0x80000000.

Inductive syscall :=
  | SOpen (path : bytes) (rdwr : bool)
  | SCreate (path : bytes) (perm : Z)
  | SClose (fd : Z)
  | SBind (old new : bytes) (flag : Z)
  | SDial (addr : bytes)
  | SMount (fd : Z) (old : bytes) (flag : Z) (aname : bytes).

(** ** Checks of the cells *)

Definition o9_mt_bad_text0 (s : option bytes) (emptyok : bool) : bool :=
  match s with
  | None => true
  | Some s => (negb emptyok && bool_decide (s = [])) ||
              existsb (fun p => bool_decide (uchar p < 0x20) || bool_decide (uchar p = 0x7f)) s
  end.

Definition o9_mt_bad_text (s : option bytes) : bool := o9_mt_bad_text0 s false.

Fixpoint dotdot_loop (atseg : bool) (p : bytes) : bool :=
  (atseg && match p with x2e :: x2e :: ([] | x2f :: _) => true | _ => false end) ||
  match p with
  | [] => false
  | c :: p => dotdot_loop (bool_decide (c = x2f)) p
  end.

Definition o9_mt_has_dotdot (s : option bytes) : bool :=
  match s with None => true | Some s => dotdot_loop true s end.

Definition head_is (c : byte) (s : bytes) : bool := bool_decide (head s = Some c).

Definition o9_mt_target_ok (target : option bytes) : bool :=
  if o9_mt_bad_text target then false else
  match target with
  | None => false
  | Some t => if head_is x2f t then false else if streq t (str ".") then true else negb (o9_mt_has_dotdot target)
  end.

Definition o9_mt_source_ok (source : option bytes) : bool :=
  if o9_mt_bad_text source then false else
  match source with
  | None => false
  | Some s => if negb (head_is x2f s) && negb (head_is x23 s) then false else negb (o9_mt_has_dotdot source)
  end.

Definition begins (p : string) (s : option bytes) : bool :=
  match s with Some s => starts_with (str p) s | None => false end.

Definition o9_mt_srv_source_ok (source : option bytes) : bool := o9_mt_source_ok source && begins "/srv/" source.

Definition o9_mt_net_source_ok (source : option bytes) : bool :=
  negb (o9_mt_bad_text source) && (begins "tcp!" source || begins "il!" source || begins "net!" source).

Definition o9_mt_near_source_ok (source : option bytes) : bool :=
  o9_mt_srv_source_ok source || (begins "il!" source && o9_mt_net_source_ok source).

Definition o9_mt_flag_ok (flag : Z) : bool :=
  if decide (flag < 0) then false
  else if decide (Z.land flag (Z.lnot 7) <> 0) then false
  else negb (bool_decide (Z.land flag 3 = 3)).

Definition o9_mt_mode_ok (mode : Z) : bool := bool_decide (0 <= mode <= 511).

Definition o9_mt_parse_vlong (s : option bytes) : option Z :=
  if o9_mt_bad_text s then None else
  match s with
  | None => None
  | Some s => let '(v, rest) := strtoll 0 s in
              if bool_decide (rest = s) || negb (bool_decide (rest = [])) then None else Some v
  end.

Definition o9_mt_parse_flag (s : option bytes) : option Z :=
  match o9_mt_parse_vlong s with
  | Some v => if o9_mt_flag_ok v then Some v else None
  | None => None
  end.

(** The path of a target in a buffer of 512 bytes. *)
Definition o9_mt_join (root : bytes) (target : option bytes) : option bytes :=
  if o9_mt_target_ok target then
    match target with
    | Some t => Some (snprint 512 (if streq t (str ".") then root else root ++ [x2f] ++ t))
    | None => None
    end
  else None.

(** ** Directories *)

Section environment.
Context (sys : list syscall -> syscall -> Z).

Definition do_call (c : syscall) (tr : list syscall) : Z * list syscall := (sys tr c, tr ++ [c]).

Definition o9_ns_ensure_dir_perm (path : bytes) (perm : Z) (tr : list syscall) : Z * list syscall :=
  let '(fd, tr) := do_call (SOpen path false) tr in
  if decide (0 <= fd) then (0, (do_call (SClose fd) tr).2) else
  let '(fd, tr) := do_call (SCreate path perm) tr in
  if decide (fd < 0) then (-1, tr) else (0, (do_call (SClose fd) tr).2).

Definition o9_ns_ensure_dir (path : bytes) (tr : list syscall) : Z * list syscall :=
  if decide (path = []) then (-1, tr) else o9_ns_ensure_dir_perm path (Z.lor DMDIR 493) tr.

(** The loop over the slashes after the first byte: [pre] is before [p]. *)
Fixpoint ensure_parents (pre p : bytes) (tr : list syscall) : Z * list syscall :=
  match p with
  | [] => (0, tr)
  | c :: p =>
      if decide (c = x2f) then
        let '(rv, tr) := o9_ns_ensure_dir pre tr in
        if decide (rv < 0) then (-1, tr) else ensure_parents (pre ++ [c]) p tr
      else ensure_parents (pre ++ [c]) p tr
  end.

Definition o9_mt_ensure_dir_p (path : bytes) (tr : list syscall) : Z * list syscall :=
  if o9_mt_bad_text (Some path) then (-1, tr) else
  let buf := snprint 512 path in
  let '(rv, tr) := ensure_parents (take 1 buf) (drop 1 buf) tr in
  if decide (rv < 0) then (-1, tr) else o9_ns_ensure_dir buf tr.

Definition o9_mt_ensure_dir_mode (path : bytes) (mode : Z) (tr : list syscall) : Z * list syscall :=
  if o9_mt_bad_text (Some path) || negb (o9_mt_mode_ok mode) then (-1, tr) else
  let buf := snprint 512 path in
  let '(rv, tr) := ensure_parents (take 1 buf) (drop 1 buf) tr in
  if decide (rv < 0) then (-1, tr) else o9_ns_ensure_dir_perm buf (Z.lor DMDIR mode) tr.

(** ** The table *)

Context {L : libtab} (w : Z).

(** A mount table with a tabula. *)
Record O9MountTable := MkMt { m_spec : O9Tabula; m_root : option bytes; m_seq : Z }.

Definition o9_mt_cols : bytes := str "call,fd,old,new,flag,aname,mode".

Definition o9_mt_tab_new : option O9Tabula := o9_tab_new (Some (str "mounts")) (Some o9_mt_cols).

Definition mt_columns : list bytes := str <$> ["call"; "fd"; "old"; "new"; "flag"; "aname"; "mode"]%string.

Definition o9_mt_schema_ok (t : O9Tabula) : bool :=
  bool_decide (tab_schema_name (t_tab t) = Some (str "mounts")) && forallb (o9_tab_has_col t) mt_columns.

Definition table_rows (t : tab) : option (list row) := iterate t <$> tab_iter t.

Definition o9_mt_seed_seq (m : O9MountTable) : O9MountTable :=
  match table_rows (t_tab (m_spec m)) with
  | None => m
  | Some rs => MkMt (m_spec m) (m_root m) (i64 (m_seq m + Z.of_nat (length rs)))
  end.

Definition o9_mount_table_new (path : ostring) : option O9MountTable :=
  match (match path with None => o9_mt_tab_new | Some _ => o9_tab_open path end) with
  | None => None
  | Some t => if o9_mt_schema_ok t then Some (o9_mt_seed_seq (MkMt t None 0)) else None
  end.

Definition MAX_TRIES : Z := 1000000.

Definition row_id (seq : Z) : bytes := str "m" ++ itoa seq.

(** The loop for a free id: the id and the next number. *)
Fixpoint free_id (fuel : nat) (t : O9Tabula) (seq : Z) : option bytes * Z :=
  match fuel with
  | O => (None, seq)
  | S fuel =>
      let id := row_id seq in
      let seq := i64 (seq + 1) in
      if decide (o9_tab_find_row t (str "id") id = None) then (Some id, seq) else free_id fuel t seq
  end.

(** Sets one cell, unless an earlier one failed; empty texts are left out
    where [opt] says so. *)
Definition set_cell (r : row) (opt : bool) (c : string) (v : option bytes) (x : Z * tab) : Z * tab :=
  if decide (x.1 < 0) then x else
  match v with
  | None => x
  | Some v => if opt && bool_decide (v = []) then x else
              let '(rv, tb) := tab_set x.2 r (str c) v in
              if decide (rv < 0) then (-1, tb) else (0, tb)
  end.

Definition mt_set_spec (tb : tab) (seq : Z) (m : O9MountTable) : O9MountTable := MkMt (set_tab tb (m_spec m)) (m_root m) seq.

Definition o9_mt_add_entry (m : O9MountTable) (call : string) (fd old new : option bytes) (flag : Z)
    (aname : option bytes) (mode : Z) : Z * O9MountTable :=
  let '(id, seq) := free_id (Z.to_nat MAX_TRIES) (m_spec m) (m_seq m) in
  match id with
  | None => (-1, MkMt (m_spec m) (m_root m) seq)
  | Some id =>
      match tab_add_row (t_tab (m_spec m)) (str "id") id with
      | None => (-1, MkMt (m_spec m) (m_root m) seq)
      | Some (r, tb) =>
          let x := set_cell r false "call" (Some (str call)) (0, tb) in
          let x := set_cell r true "fd" fd x in
          let x := set_cell r true "old" old x in
          let x := set_cell r true "new" new x in
          let x := set_cell r false "flag" (Some (itoa flag)) x in
          let x := set_cell r true "aname" aname x in
          let x := set_cell r false "mode" (if decide (0 <= mode) then Some (itoa mode) else None) x in
          (x.1, mt_set_spec x.2 seq m)
      end
  end.

Definition o9_mount_table_allow_root (m : O9MountTable) (root : ostring) (tr : list syscall)
    : Z * O9MountTable * list syscall :=
  match root with
  | None => (-1, m, tr)
  | Some root =>
      let r := cstr root in
      if negb (head_is x2f r) || o9_mt_has_dotdot (Some r) || o9_mt_bad_text (Some r) then (-1, m, tr) else
      let '(rv, tr) := o9_mt_ensure_dir_p r tr in
      if decide (rv < 0) then (-1, m, tr) else (0, MkMt (m_spec m) (Some r) (m_seq m), tr)
  end.

(** *** Builders *)

Definition o9_mount_table_dir (m : O9MountTable) (new : ostring) (mode : Z) : Z * O9MountTable :=
  match new with
  | Some new =>
      let cnew := Some (cstr new) in
      if o9_mt_mode_ok mode && o9_mt_target_ok cnew then o9_mt_add_entry m "dir" None None cnew 0 None mode else (-1, m)
  | None => (-1, m)
  end.

Definition o9_mount_table_bind (m : O9MountTable) (old new : ostring) (flag : Z) : Z * O9MountTable :=
  match old, new with
  | Some old, Some new =>
      let cold := Some (cstr old) in
      let cnew := Some (cstr new) in
      if o9_mt_flag_ok flag && o9_mt_source_ok cold && o9_mt_target_ok cnew
      then o9_mt_add_entry m "bind" None cold cnew flag None (-1) else (-1, m)
  | _, _ => (-1, m)
  end.

(** What [mountsrv], [mountnet], [mountnear] and [mountfar] share. *)
Definition add_mount (call : string) (source_ok : option bytes -> bool) (m : O9MountTable) (fdsrc old : ostring) (flag : Z)
    (aname : ostring) : Z * O9MountTable :=
  match fdsrc, old, aname with
  | Some fdsrc, Some old, Some aname =>
      let cfd := Some (cstr fdsrc) in
      let cold := Some (cstr old) in
      let caname := Some (cstr aname) in
      if o9_mt_flag_ok flag && source_ok cfd && o9_mt_target_ok cold && negb (o9_mt_bad_text0 caname true)
      then o9_mt_add_entry m call cfd cold None flag caname (-1) else (-1, m)
  | _, _, _ => (-1, m)
  end.

Definition o9_mount_table_mountsrv := add_mount "mountsrv" o9_mt_srv_source_ok.
Definition o9_mount_table_mountnet := add_mount "mountnet" o9_mt_net_source_ok.
Definition o9_mount_table_mountnear := add_mount "mountnear" o9_mt_near_source_ok.
Definition o9_mount_table_mountfar := add_mount "mountfar" o9_mt_net_source_ok.

(** A source id: no path, no address. *)
Definition source_id_ok (src : bytes) : bool :=
  negb (bool_decide (src = [])) && negb (bool_decide (x2f ∈ src)) && negb (bool_decide (x21 ∈ src)) &&
  negb (bool_decide (x3a ∈ src)).

Definition o9_mount_table_view (m : O9MountTable) (target sourceid : ostring) (mode : Z) : Z * O9MountTable :=
  match target, sourceid with
  | Some target, Some sourceid =>
      let dst := Some (cstr target) in
      let src := cstr sourceid in
      if bool_decide (0 <= mode <= 2) && o9_mt_target_ok dst && source_id_ok src && negb (o9_mt_bad_text (Some src))
      then o9_mt_add_entry m "view" (Some src) dst None mode None (-1) else (-1, m)
  | _, _ => (-1, m)
  end.

Definition o9_mount_table_unmount (m : O9MountTable) (target : ostring) : Z * O9MountTable :=
  match target with
  | Some target =>
      let dst := Some (cstr target) in
      if o9_mt_target_ok dst then o9_mt_add_entry m "unview" None dst None 0 None (-1) else (-1, m)
  | None => (-1, m)
  end.

(** *** Reading *)

Definition o9_mount_table_schema (m : O9MountTable) : ostring := o9_tab_schema w (m_spec m).
Definition o9_mount_table_has (m : O9MountTable) (col : ostring) : bool := o9_tab_has (m_spec m) col.
Definition o9_mount_table_get (m : O9MountTable) (col : ostring) : ostring := o9_tab_get w (m_spec m) col.
Definition on_spec (f : O9Tabula -> Z * O9Tabula) (m : O9MountTable) : Z * O9MountTable :=
  let '(rv, t) := f (m_spec m) in (rv, MkMt t (m_root m) (m_seq m)).
Definition o9_mount_table_first : O9MountTable -> Z * O9MountTable := on_spec o9_tab_first.
Definition o9_mount_table_next : O9MountTable -> Z * O9MountTable := on_spec o9_tab_next.
Definition o9_mount_table_read (m : O9MountTable) : ostring := o9_tab_read w (m_spec m).
Definition o9_mount_table_serialize : O9MountTable -> ostring := o9_mount_table_read.
Definition o9_mount_table_query (m : O9MountTable) (col val : ostring) : option O9Tabula := o9_tab_query (m_spec m) col val.
Definition o9_mount_table_flush (m : O9MountTable) : Z := o9_tab_flush (m_spec m).

(** ** Validation and replay *)

(** The cells of one row. *)
Record mrow := MRow { r_call : option bytes; r_fd : option bytes; r_old : option bytes; r_new : option bytes;
                      r_flag : option bytes; r_aname : option bytes; r_mode : option bytes }.

Definition get_row (tb : tab) (r : row) : mrow :=
  let get := fun c => tab_get tb r (str c) in
  MRow (get "call"%string) (get "fd"%string) (get "old"%string) (get "new"%string) (get "flag"%string)
       (get "aname"%string) (get "mode"%string).

Definition call_is (r : mrow) (c : string) : bool := bool_decide (r_call r = Some (str c)).

Definition aname_ok (r : mrow) : bool :=
  match r_aname r with None => true | Some a => negb (o9_mt_bad_text0 (Some a) true) end.

Definition flag_ok (r : mrow) : bool := bool_decide (is_Some (o9_mt_parse_flag (r_flag r))).

Definition valid_row (r : mrow) : bool :=
  if call_is r "dir" then
    o9_mt_target_ok (r_new r) && match o9_mt_parse_vlong (r_mode r) with Some mv => o9_mt_mode_ok mv | None => false end
  else if call_is r "bind" then
    o9_mt_source_ok (r_old r) && o9_mt_target_ok (r_new r) && flag_ok r
  else if call_is r "mountsrv" || call_is r "mountnear" then
    o9_mt_near_source_ok (r_fd r) && o9_mt_target_ok (r_old r) && flag_ok r && aname_ok r
  else if call_is r "mountnet" || call_is r "mountfar" then
    o9_mt_net_source_ok (r_fd r) && o9_mt_target_ok (r_old r) && flag_ok r && aname_ok r
  else false.

Definition o9_mount_table_validate (m : O9MountTable) : Z :=
  if bool_decide (m_root m = None) || negb (o9_mt_schema_ok (m_spec m)) then -1 else
  let tb := t_tab (m_spec m) in
  match table_rows tb with
  | None => -1
  | Some rs => if forallb (fun r => valid_row (get_row tb r)) rs then 0 else -1
  end.

(** The directory that a row needs, then its call. *)
Definition with_target (root : bytes) (target flag : option bytes) (k : bytes -> Z -> list syscall -> Z * list syscall)
    (tr : list syscall) : Z * list syscall :=
  match o9_mt_join root target with
  | None => (-1, tr)
  | Some dst =>
      match o9_mt_parse_flag flag with
      | None => (-1, tr)
      | Some f =>
          let '(rv, tr) := o9_mt_ensure_dir_p dst tr in
          if decide (rv < 0) then (-1, tr) else k dst f tr
      end
  end.

Definition mount_fd (fd : Z) (aname : option bytes) (dst : bytes) (f : Z) (tr : list syscall) : Z * list syscall :=
  if decide (fd < 0) then (-1, tr) else
  let '(rv, tr) := do_call (SMount fd dst f (default [] aname)) tr in
  let '(_, tr) := do_call (SClose fd) tr in
  if decide (rv < 0) then (-1, tr) else (0, tr).

Definition apply_row (root : bytes) (r : mrow) (tr : list syscall) : Z * list syscall :=
  if call_is r "dir" then
    match o9_mt_join root (r_new r), o9_mt_parse_vlong (r_mode r) with
    | Some dst, Some mv =>
        let '(rv, tr) := o9_mt_ensure_dir_mode dst mv tr in (if decide (rv < 0) then -1 else 0, tr)
    | _, _ => (-1, tr)
    end
  else if call_is r "bind" then
    with_target root (r_new r) (r_flag r) (fun dst f tr =>
      let '(rv, tr) := do_call (SBind (default [] (r_old r)) dst f) tr in
      (if decide (rv < 0) then -1 else 0, tr)) tr
  else if call_is r "mountsrv" || call_is r "mountnear" then
    with_target root (r_old r) (r_flag r) (fun dst f tr =>
      let fdsrc := default [] (r_fd r) in
      let '(fd, tr) := do_call (if head_is x2f fdsrc || head_is x23 fdsrc then SOpen fdsrc true else SDial fdsrc) tr in
      mount_fd fd (r_aname r) dst f tr) tr
  else if call_is r "mountnet" || call_is r "mountfar" then
    with_target root (r_old r) (r_flag r) (fun dst f tr =>
      let '(fd, tr) := do_call (SDial (default [] (r_fd r))) tr in
      mount_fd fd (r_aname r) dst f tr) tr
  else (-1, tr).

Fixpoint apply_rows (root : bytes) (rs : list mrow) (tr : list syscall) : Z * list syscall :=
  match rs with
  | [] => (0, tr)
  | r :: rs =>
      let '(rv, tr) := apply_row root r tr in
      if decide (rv < 0) then (-1, tr) else apply_rows root rs tr
  end.

Definition o9_mount_table_apply (m : O9MountTable) (tr : list syscall) : Z * list syscall :=
  if decide (o9_mount_table_validate m < 0) then (-1, tr) else
  match m_root m with
  | None => (-1, tr)
  | Some root =>
      let '(rv, tr) := o9_mt_ensure_dir_p root tr in
      if decide (rv < 0) then (-1, tr) else
      let tb := t_tab (m_spec m) in
      match table_rows tb with
      | None => (-1, tr)
      | Some rs => apply_rows root (get_row tb <$> rs) tr
      end
  end.

(** ** View recipes *)

(** One row of a recipe for a tree of files. *)
Definition view_spec (r : mrow) : option O9FTMountSpec :=
  if bool_decide (r_call r = None) || negb (o9_mt_target_ok (r_old r)) then None
  else if call_is r "unview" then Some (FtSpec (r_old r) None 0 true)
  else if call_is r "view" then
    match r_fd r, o9_mt_parse_vlong (r_flag r) with
    | Some src, Some mode =>
        if source_id_ok src && bool_decide (0 <= mode <= 2) then Some (FtSpec (r_old r) (Some src) mode false) else None
    | _, _ => None
    end
  else None.

Definition o9_filetree_apply (caller : Z) (t : positive) (m : O9MountTable) (s : fts) : Z * fts :=
  if negb (o9_mt_schema_ok (m_spec m)) then (-1, s) else
  let tb := t_tab (m_spec m) in
  match table_rows tb with
  | None => (-1, s)
  | Some rs =>
      match mapM (fun r => view_spec (get_row tb r)) rs with
      | None => (-1, s)
      | Some specs => o9_filetree_apply_specs caller t specs s
      end
  end.
End environment.
