(* ===== verification/MountProps.v ===== *)
(** * Mount tables: recipes, validation and confinement ([o9_runtime.c])

    A table that the builders made is the list of the rows that they
    accepted; validation accepts what they wrote; a replay stays below its
    root. *)
From S2P Require Import Prelude Fmt O9Str FileTree Tabula MountTable.

Open Scope Z_scope.

(** ** Paths *)

(** [p] is the root or below it, by a path without [..]. *)
Definition within (root p : bytes) : Prop := p = root \/ exists rest, p = root ++ x2f :: rest /\ dotdot_loop true rest = false.

(** [p] is a directory on the way to the root: what precedes a slash of it. *)
Definition above (root p : bytes) : Prop := exists t, root = p ++ x2f :: t.

(** [p] has no [..] element. *)
Definition no_dotdot (p : bytes) : Prop := dotdot_loop true p = false.

(** The calls a replay below [root] may make: no path has a [..] element;
    binds and mounts cover the root or a path below it; directories are
    opened, and created where they are missing, there and on the way to the
    root; files are opened in [/srv] and network addresses dialled. *)
Definition call_ok (root : bytes) (c : syscall) : Prop :=
  match c with
  | SOpen p false | SCreate p _ => no_dotdot p /\ (above root p \/ within root p)
  | SOpen p true => no_dotdot p /\ o9_mt_srv_source_ok (Some p) = true
  | SClose _ => True
  | SBind old new f => no_dotdot old /\ no_dotdot new /\ within root new /\ o9_mt_source_ok (Some old) = true /\ o9_mt_flag_ok f = true
  | SDial a => o9_mt_net_source_ok (Some a) = true
  | SMount _ dst f _ => no_dotdot dst /\ within root dst /\ o9_mt_flag_ok f = true
  end.

(** A program that only makes such calls. *)
Definition calls (P : syscall -> Prop) (tr tr' : list syscall) : Prop := exists new, tr' = tr ++ new /\ Forall P new.

Lemma calls_refl P tr : calls P tr tr.
Proof. exists []. by rewrite app_nil_r. Qed.

Lemma calls_trans P tr1 tr2 tr3 : calls P tr1 tr2 -> calls P tr2 tr3 -> calls P tr1 tr3.
Proof. intros (n1 & -> & H1) (n2 & -> & H2). exists (n1 ++ n2). rewrite app_assoc. split; [done|]. by apply Forall_app. Qed.

Lemma calls_one (P : syscall -> Prop) tr c : P c -> calls P tr (tr ++ [c]).
Proof. intros H. exists [c]. split; [done|]. by constructor. Qed.

Lemma dotdot_segment a r1 r2 : dotdot_loop a (r1 ++ x2f :: r2) = false -> dotdot_loop a r1 = false.
Proof.
  revert a. induction r1 as [|c r1 IH]; intros a; cbn [app].
  - intros _. by destruct a.
  - cbn [dotdot_loop]. intros [H1 H2]%orb_false_iff. rewrite (IH _ H2), orb_false_r. clear H2 IH. destruct a; [|done]. cbn [andb] in *.
    destruct c; try done. destruct r1 as [|c1 r1]; [done|]. cbn [app] in H1. destruct c1; try done. destruct r1 as [|c2 r1]; [done|].
    cbn [app] in H1. exact H1.
Qed.

Lemma dotdot_join a r1 r2 : dotdot_loop a r1 = false -> dotdot_loop true r2 = false -> dotdot_loop a (r1 ++ x2f :: r2) = false.
Proof.
  revert a. induction r1 as [|c r1 IH]; intros a; cbn [app].
  - intros _ H. cbn [dotdot_loop]. rewrite bool_decide_true by done. rewrite H. by destruct a.
  - cbn [dotdot_loop]. intros [H1 H2]%orb_false_iff H. rewrite (IH _ H2 H), orb_false_r. clear H2 IH. destruct a; [|done]. cbn [andb] in *.
    destruct c; try done. destruct r1 as [|c1 r1]; [done|]. destruct c1; try done. by destruct r1 as [|c2 r1].
Qed.

Lemma within_no_dotdot root p : no_dotdot root -> within root p -> no_dotdot p.
Proof. intros Hr [->|(rest & -> & Hd)]; [done|]. by apply dotdot_join. Qed.

(** A directory on the way to a path within the root. *)
Lemma way_down root p q t : within root p -> p = q ++ x2f :: t -> above root q \/ within root q.
Proof.
  intros [->|(rest & -> & Hr)] E; [left; by exists t|].
  apply app_eq_inv in E as [(k & -> & E)|(k & -> & E)]; (destruct k as [|c k]; [right; left; by rewrite app_nil_r|]); injection E as <- ->.
  - left. by exists k.
  - right. right. exists k. split; [done|]. by apply dotdot_segment in Hr.
Qed.

Section replay.
Context (sys : list syscall -> syscall -> Z) (root : bytes) (Hroot : root <> []) (Hdd : no_dotdot root).

Lemma ensure_dir_perm_calls p perm tr : no_dotdot p -> above root p \/ within root p ->
  calls (call_ok root) tr (o9_ns_ensure_dir_perm sys p perm tr).2.
Proof.
  intros Hp Hw. unfold o9_ns_ensure_dir_perm. cbn [do_call snd].
  assert (H1 : calls (call_ok root) tr (tr ++ [SOpen p false])) by by apply calls_one.
  destruct (decide _); [by eapply calls_trans, calls_one|].
  assert (H2 : calls (call_ok root) tr ((tr ++ [SOpen p false]) ++ [SCreate p perm])) by (eapply calls_trans; [done|by apply calls_one]).
  destruct (decide _); [done|]. by eapply calls_trans, calls_one.
Qed.

Lemma ensure_dir_calls p tr : no_dotdot p -> above root p \/ within root p -> calls (call_ok root) tr (o9_ns_ensure_dir sys p tr).2.
Proof. intros Hp Hw. unfold o9_ns_ensure_dir. destruct (decide _); [apply calls_refl|]. by apply ensure_dir_perm_calls. Qed.

Lemma ensure_parents_calls p pre tr : pre <> [] ->
  (forall q t, pre ++ p = q ++ x2f :: t -> no_dotdot q /\ (above root q \/ within root q)) ->
  calls (call_ok root) tr (ensure_parents sys pre p tr).2.
Proof.
  revert pre tr. induction p as [|c p IH]; intros pre tr Hpre Hway; [apply calls_refl|]. cbn [ensure_parents].
  assert (Hnext : forall tr, calls (call_ok root) tr (ensure_parents sys (pre ++ [c]) p tr).2).
  { intros tr'. apply IH; [by destruct pre|]. intros q t E. apply (Hway q t). by rewrite <- E, <- app_assoc. }
  destruct (decide (c = x2f)) as [->|]; [|done].
  destruct (Hway pre p eq_refl) as [Hd Hw]. pose proof (ensure_dir_calls pre tr Hd Hw) as H. destruct (o9_ns_ensure_dir sys pre tr) as [rv tr'].
  destruct (decide _); [done|]. eapply calls_trans; [exact H|apply Hnext].
Qed.

Lemma ensure_path_calls p tr : p <> [] -> within root p ->
  calls (call_ok root) tr (ensure_parents sys (take 1 p) (drop 1 p) tr).2.
Proof.
  intros Hp Hw. apply ensure_parents_calls; [by destruct p|]. rewrite take_drop. intros q t E. split; [|by eapply way_down].
  pose proof (within_no_dotdot root p Hdd Hw) as Hn. rewrite E in Hn. by apply dotdot_segment in Hn.
Qed.

Lemma ensure_dir_p_calls p tr : p <> [] -> within root p -> (length p <= 511)%nat ->
  calls (call_ok root) tr (o9_mt_ensure_dir_p sys p tr).2.
Proof.
  intros Hp Hw Hl. unfold o9_mt_ensure_dir_p. destruct (o9_mt_bad_text _); [apply calls_refl|]. rewrite snprint_fits by lia.
  pose proof (ensure_path_calls p tr Hp Hw) as H. destruct (ensure_parents _ _ _ _) as [rv tr']. destruct (decide _); [done|].
  eapply calls_trans; [exact H|]. apply ensure_dir_calls; [by apply (within_no_dotdot root)|by right].
Qed.

Lemma ensure_dir_mode_calls p mode tr : p <> [] -> within root p -> (length p <= 511)%nat ->
  calls (call_ok root) tr (o9_mt_ensure_dir_mode sys p mode tr).2.
Proof.
  intros Hp Hw Hl. unfold o9_mt_ensure_dir_mode. destruct (_ || _); [apply calls_refl|]. rewrite snprint_fits by lia.
  pose proof (ensure_path_calls p tr Hp Hw) as H. destruct (ensure_parents _ _ _ _) as [rv tr']. destruct (decide _); [done|].
  eapply calls_trans; [exact H|]. apply ensure_dir_perm_calls; [by apply (within_no_dotdot root)|by right].
Qed.

Lemma join_within t dst : o9_mt_join root (Some t) = Some dst -> (length root + 1 + length t <= 511)%nat ->
  within root dst /\ dst <> [] /\ (length dst <= 511)%nat.
Proof.
  unfold o9_mt_join. destruct (o9_mt_target_ok (Some t)) eqn:Ht; [|done]. intros [= <-] Hl.
  assert (Hd : streq t (str ".") = false -> dotdot_loop true t = false).
  { intros Hn. unfold o9_mt_target_ok in Ht. destruct (o9_mt_bad_text _); [done|]. destruct (head_is _ _); [done|]. rewrite Hn in Ht.
    by apply negb_true_iff in Ht. }
  destruct (streq t (str ".")).
  - rewrite snprint_fits by lia. split; [by left|]. split; [done|lia].
  - rewrite snprint_fits by (rewrite !length_app; simpl; lia). split; [right; exists t; auto|].
    split; [by destruct root|]. rewrite !length_app. simpl. lia.
Qed.

(** The directory in which a row acts. *)
Definition row_target (r : mrow) : bytes := default [] (if call_is r "dir" || call_is r "bind" then r_new r else r_old r).
Definition fits (r : mrow) : Prop := (length root + 1 + length (row_target r) <= 511)%nat.
#[export] Instance fits_dec r : Decision (fits r).
Proof. unfold fits. apply _. Defined.

Lemma join_some target : o9_mt_target_ok target = true -> exists t dst, target = Some t /\ o9_mt_join root target = Some dst.
Proof. intros H. destruct target as [t|]; [|done]. unfold o9_mt_join. rewrite H. by eexists _, _. Qed.

Lemma with_target_calls target flag k tr : o9_mt_target_ok target = true -> is_Some (o9_mt_parse_flag flag) ->
  (length root + 1 + length (default [] target) <= 511)%nat ->
  (forall dst f tr, within root dst -> o9_mt_flag_ok f = true -> calls (call_ok root) tr (k dst f tr).2) ->
  calls (call_ok root) tr (with_target sys root target flag k tr).2.
Proof.
  intros Ht [f Hf] Hl Hk. unfold with_target. destruct (join_some target Ht) as (t & dst & -> & Hj). rewrite Hj, Hf.
  destruct (join_within t dst Hj Hl) as (Hw & Hne & Hd). pose proof (ensure_dir_p_calls dst tr Hne Hw Hd) as H.
  destruct (o9_mt_ensure_dir_p _ _ _) as [rv tr']. destruct (decide _); [done|]. eapply calls_trans; [exact H|]. apply Hk; [done|].
  unfold o9_mt_parse_flag in Hf. destruct (o9_mt_parse_vlong flag) as [v|]; [|done]. destruct (o9_mt_flag_ok v) eqn:E; [|done]. by injection Hf as <-.
Qed.

Lemma mount_fd_calls fd aname dst f tr : within root dst -> o9_mt_flag_ok f = true ->
  calls (call_ok root) tr (mount_fd sys fd aname dst f tr).2.
Proof.
  intros Hw Hf. unfold mount_fd. destruct (decide _); [apply calls_refl|]. cbn [do_call].
  assert (H : calls (call_ok root) tr ((tr ++ [SMount fd dst f (default [] aname)]) ++ [SClose fd]))
    by (eapply calls_trans; apply calls_one; [split_and!; [by apply (within_no_dotdot root)|done..]|done]).
  by destruct (decide _).
Qed.

Lemma source_no_dotdot s : o9_mt_source_ok (Some s) = true -> no_dotdot s.
Proof.
  unfold o9_mt_source_ok. destruct (o9_mt_bad_text _); [done|]. destruct (_ && _); [done|]. apply negb_true_iff.
Qed.

Lemma near_call fdsrc : o9_mt_near_source_ok (Some fdsrc) = true ->
  call_ok root (if head_is x2f fdsrc || head_is x23 fdsrc then SOpen fdsrc true else SDial fdsrc).
Proof.
  unfold o9_mt_near_source_ok. intros [H|[Hb Hn]%andb_true_iff]%orb_true_iff.
  - unfold o9_mt_srv_source_ok in H. apply andb_true_iff in H as [Hs Hb]. cbn [begins] in Hb. apply starts_with_spec in Hb as [t ->].
    change (call_ok root (SOpen (str "/srv/" ++ t) true)). unfold call_ok, o9_mt_srv_source_ok. rewrite Hs.
    split; [by apply source_no_dotdot|]. apply starts_with_spec. by eexists.
  - cbn [begins] in Hb. apply starts_with_spec in Hb as [t ->]. exact Hn.
Qed.

Lemma apply_row_calls r tr : valid_row r = true -> fits r -> calls (call_ok root) tr (apply_row sys root r tr).2.
Proof.
  unfold valid_row, fits, row_target, apply_row, flag_ok. intros Hv Hl. destruct (call_is r "dir"); [|destruct (call_is r "bind")].
  - cbn [orb] in Hl. apply andb_true_iff in Hv as [Ht Hm]. destruct (join_some _ Ht) as (t & dst & E & Hj). rewrite E in *. rewrite Hj.
    destruct (o9_mt_parse_vlong (r_mode r)) as [mv|]; [|done]. destruct (join_within t dst Hj Hl) as (Hw & Hne & Hd).
    pose proof (ensure_dir_mode_calls dst mv tr Hne Hw Hd) as H. by destruct (o9_mt_ensure_dir_mode _ _ _ _) as [rv tr'].
  - cbn [orb] in Hl. rewrite !andb_true_iff, bool_decide_eq_true in Hv. destruct Hv as [[Hs Ht] Hf].
    apply with_target_calls; [done|done|done|]. intros dst f tr' Hw Hfl. cbn [do_call snd]. apply calls_one.
    destruct (r_old r); [|done]. split_and!; [by apply source_no_dotdot|by apply (within_no_dotdot root)|done..].
  - cbn [orb] in Hl. destruct (call_is r "mountsrv" || call_is r "mountnear").
    + rewrite !andb_true_iff, bool_decide_eq_true in Hv. destruct Hv as [[[Hs Ht] Hf] _].
      apply with_target_calls; [done|done|done|]. intros dst f tr' Hw Hfl. unfold do_call at 1.
      eapply calls_trans; [|by apply mount_fd_calls]. apply calls_one. destruct (r_fd r); [|done]. by apply near_call.
    + destruct (call_is r "mountnet" || call_is r "mountfar"); [|done].
      rewrite !andb_true_iff, bool_decide_eq_true in Hv. destruct Hv as [[[Hs Ht] Hf] _].
      apply with_target_calls; [done|done|done|]. intros dst f tr' Hw Hfl. unfold do_call at 1.
      eapply calls_trans; [|by apply mount_fd_calls]. apply calls_one. by destruct (r_fd r).
Qed.

Lemma apply_rows_calls rs tr : Forall (fun r => valid_row r = true /\ fits r) rs -> calls (call_ok root) tr (apply_rows sys root rs tr).2.
Proof.
  intros H. revert tr. induction H as [|r rs [Hv Hl] _ IH]; intros tr; [apply calls_refl|]. cbn [apply_rows].
  pose proof (apply_row_calls r tr Hv Hl) as H. destruct (apply_row _ _ _ _) as [rv tr']. destruct (decide _); [done|].
  eapply calls_trans; [exact H|apply IH].
Qed.
End replay.

(** ** Rows and ids *)

Section tables.
Context {L : libtab} {LL : libtab_laws L}.

Lemma table_rows_some (t : tab) : table_rows t = Some (rows t).
Proof. unfold table_rows. destruct (iter_rows t) as (it & -> & <-). done. Qed.

(** The numbers that the loop for a free id goes through. *)
Definition seq_at (seq : Z) (k : nat) : Z := Nat.iter k (fun x => i64 (x + 1)) seq.

Lemma i64_width_range z : - 2 ^ 63 <= i64 z < 2 ^ 63.
Proof.
  unfold wraps. cbv zeta. pose proof (Z.mod_pos_bound z (2 ^ 64) ltac:(lia)) as H. change (2 ^ (64 - 1)) with (2 ^ 63).
  destruct (decide _); lia.
Qed.

Lemma seq_at_range seq k : - 2 ^ 63 <= seq < 2 ^ 63 -> - 2 ^ 63 <= seq_at seq k < 2 ^ 63.
Proof. intros H. destruct k as [|k]; [done|]. apply i64_width_range. Qed.

Lemma wraps_64_mod z : i64 z mod 2 ^ 64 = z mod 2 ^ 64.
Proof.
  unfold wraps. cbv zeta. destruct (decide _); [by rewrite Z.mod_mod by lia|]. rewrite <- (Z.mod_add _ 1) by lia.
  rewrite Z.mul_1_l, Z.sub_add. by rewrite Z.mod_mod by lia.
Qed.

Lemma seq_at_mod seq k : seq_at seq k mod 2 ^ 64 = (seq + Z.of_nat k) mod 2 ^ 64.
Proof.
  induction k as [|k IH]; [by rewrite Z.add_0_r|]. change (seq_at seq (S k)) with (i64 (seq_at seq k + 1)).
  rewrite wraps_64_mod. rewrite <- Z.add_mod_idemp_l, IH, Z.add_mod_idemp_l by lia. f_equal. lia.
Qed.

Lemma row_id_inj a b : - 2 ^ 63 <= a < 2 ^ 63 -> - 2 ^ 63 <= b < 2 ^ 63 -> row_id a = row_id b -> a = b.
Proof.
  intros Ha Hb E. unfold row_id in E. apply app_inv_head in E.
  pose proof (strto_itoa (- 2 ^ 63) (2 ^ 63 - 1) 10 a) as H1. pose proof (strto_itoa (- 2 ^ 63) (2 ^ 63 - 1) 10 b) as H2.
  rewrite E in H1. rewrite H1 in H2 by (auto || lia). injection (H2 ltac:(auto) ltac:(lia) ltac:(lia) ltac:(lia)) as ->. done.
Qed.

Lemma row_ids_distinct seq n : - 2 ^ 63 <= seq < 2 ^ 63 -> Z.of_nat n < 2 ^ 64 ->
  NoDup ((fun k => row_id (seq_at seq k)) <$> List.seq 0 n).
Proof.
  intros Hs Hn. apply NoDup_fmap_2_strong; [|apply NoDup_ListNoDup, seq_NoDup].
  intros i j Hi Hj E. apply row_id_inj in E; [|by apply seq_at_range..]. apply list_elem_of_In, in_seq in Hi, Hj.
  pose proof (seq_at_mod seq i) as H1. rewrite E, seq_at_mod in H1.
  assert (H : (Z.of_nat i - Z.of_nat j) mod 2 ^ 64 = 0).
  { replace (Z.of_nat i - Z.of_nat j) with (seq + Z.of_nat i - (seq + Z.of_nat j)) by lia. rewrite Zminus_mod, H1, Z.sub_diag. done. }
  apply Z.mod_divide in H as [q Hq]; [|lia]. assert (q = 0) by nia. lia.
Qed.

(** The loop finds an id that no row has, unless more rows than rounds. *)
Lemma free_id_spec fuel (t : O9Tabula) seq : column (t_tab t) (str "id") -> - 2 ^ 63 <= seq < 2 ^ 63 ->
  (length (rows (t_tab t)) < fuel)%nat -> Z.of_nat fuel < 2 ^ 64 ->
  exists k, free_id fuel t seq = (Some (row_id (seq_at seq k)), seq_at seq (S k)) /\
    o9_tab_find_row t (str "id") (row_id (seq_at seq k)) = None.
Proof.
  intros Hc Hs Hl Hf.
  assert (H : forall n s, (forall k, (k < n)%nat -> o9_tab_find_row t (str "id") (row_id (seq_at s k)) <> None) \/
    exists k, free_id n t s = (Some (row_id (seq_at s k)), seq_at s (S k)) /\ o9_tab_find_row t (str "id") (row_id (seq_at s k)) = None).
  { induction n as [|n IH]; intros s; [left; lia|]. cbn [free_id].
    destruct (decide (o9_tab_find_row t (str "id") (row_id s) = None)) as [D|D]; [right; by exists 0%nat|].
    assert (Hsh : forall k, seq_at (i64 (s + 1)) k = seq_at s (S k)) by (intros k; unfold seq_at; by rewrite Nat.iter_succ_r).
    destruct (IH (i64 (s + 1))) as [Hn|(k & Hk1 & Hk2)].
    - left. intros [|k] Hk; [done|]. rewrite <- Hsh. apply Hn. lia.
    - right. exists (S k). rewrite !Hsh in *. done. }
  destruct (H fuel seq) as [Hn|Hk]; [|done]. exfalso.
  pose proof (row_ids_distinct seq fuel Hs Hf) as Hnd.
  assert (Hsub : (fun k => row_id (seq_at seq k)) <$> List.seq 0 fuel ⊆ omap (fun r => tab_get (t_tab t) r (str "id")) (rows (t_tab t))).
  { intros x (k & -> & Hk)%list_elem_of_fmap. apply list_elem_of_In, in_seq in Hk. specialize (Hn k ltac:(lia)).
    rewrite find_row_spec in Hn by done. destruct (filter _ _) as [|r l] eqn:E; [done|].
    assert (Hin : r ∈ filter (fun r => tab_get (t_tab t) r (str "id") = Some (row_id (seq_at seq k))) (rows (t_tab t))) by (rewrite E; by left).
    apply list_elem_of_filter in Hin as [Hg Hr]. apply list_elem_of_omap. by exists r. }
  pose proof (NoDup_length_le _ _ Hnd Hsub) as Hle. rewrite length_fmap, length_seq in Hle.
  assert (forall l, length (omap (fun r => tab_get (t_tab t) r (str "id")) l) <= length l)%nat as Ho.
  { induction l as [|r l IH]; [simpl; lia|]. simpl. destruct (tab_get _ _ _); simpl; unfold omap in IH; lia. }
  specialize (Ho (rows (t_tab t))). lia.
Qed.
End tables.

(** ** Adding a row *)

Section adding.
Context {L : libtab} {LL : libtab_laws L}.

(** [tb] is [t0] with a new row [r] whose cells are [g]. *)
Record adding (t0 tb : tab) (r : row) (g : bytes -> option bytes) : Prop := {
  ad_schema : same_schema t0 tb;
  ad_rows : rows tb = rows t0 ++ [r];
  ad_new : forall c, tab_get tb r c = g c;
  ad_old : forall r' c, r' ∈ rows t0 -> tab_get tb r' c = tab_get t0 r' c;
  ad_fresh : r ∉ rows t0;
}.

(** The text that [set_cell] writes. *)
Definition cell_text (opt : bool) (v : option bytes) : option bytes :=
  match v with Some [] => if opt then None else Some [] | _ => v end.

Definition put_cell (opt : bool) (c : string) (v : option bytes) (g : bytes -> option bytes) : bytes -> option bytes :=
  fun c' => if decide (c' = str c) then match cell_text opt v with Some v => Some v | None => g c' end else g c'.

Definition text_ok (opt : bool) (v : option bytes) : Prop :=
  match cell_text opt v with Some v => value_ok v | None => True end.

Lemma set_cell_spec t0 tb r g opt c v : adding t0 tb r g -> column t0 (str c) -> tab_colname t0 0 = Some (str "id") ->
  str c <> str "id" -> text_ok opt v ->
  exists tb', set_cell r opt c v (0, tb) = (0, tb') /\ adding t0 tb' r (put_cell opt c v g).
Proof.
  intros [A1 A2 A3 A4 A5] Hc Hh Hid Hv. unfold set_cell. cbn [fst snd]. rewrite decide_False by lia.
  assert (Hskip : cell_text opt v = None -> adding t0 tb r (put_cell opt c v g)).
  { intros Hn. split; try done. intros c'. unfold put_cell. rewrite Hn. by case_decide. }
  assert (Hput : forall x, cell_text opt v = Some x -> exists tb', tab_set tb r (str c) x = (0, tb') /\ adding t0 tb' r (put_cell opt c v g)).
  { intros x Hx. unfold text_ok in Hv. rewrite Hx in Hv.
    destruct (stored tb r (str c) x) as (tb' & Hset & B1 & B2 & B3).
    - rewrite A2. apply elem_of_app. right. by left.
    - by eapply same_schema_column.
    - destruct A1 as (_ & _ & ->). rewrite Hh. congruence.
    - done.
    - exists tb'. split; [done|]. assert (Hr : r ∈ rows tb) by (rewrite A2; apply elem_of_app; right; by left). split.
      + destruct A1 as (S1 & S2 & S3), B1 as (S4 & S5 & S6). split_and!; [congruence|congruence|intros i; congruence].
      + congruence.
      + intros c'. rewrite B3 by done. unfold put_cell. rewrite Hx. destruct (decide (c' = str c)) as [->|Hne].
        * by rewrite decide_True.
        * rewrite decide_False; [by apply A3|]. by intros [_ ?].
      + intros r' c' Hr'. rewrite B3 by (rewrite A2; apply elem_of_app; by left). rewrite decide_False; [by apply A4|].
        intros [-> _]. done.
      + done. }
  destruct v as [[|b v]|]; cbn [cell_text] in *.
  - destruct opt; [by exists tb; auto|]. rewrite bool_decide_true by done. cbn [andb].
    destruct (Hput [] eq_refl) as (tb' & -> & ?). exists tb'. by rewrite decide_False by lia.
  - rewrite (bool_decide_false (b :: v = [])) by done. rewrite andb_false_r.
    destruct (Hput _ eq_refl) as (tb' & -> & ?). exists tb'. by rewrite decide_False by lia.
  - exists tb. auto.
Qed.

(** A table that the library can add rows to. *)
Record mt_ok (m : O9MountTable) : Prop := {
  mo_schema : tab_schema_name (t_tab (m_spec m)) = Some (str "mounts");
  mo_head : tab_colname (t_tab (m_spec m)) 0 = Some (str "id");
  mo_cols : forall c, c ∈ str "id" :: mt_columns -> column (t_tab (m_spec m)) c;
  mo_seq : - 2 ^ 63 <= m_seq m < 2 ^ 63;
}.

(** The rows of a table, as the cells that they hold. *)
Definition recipe (m : O9MountTable) : list mrow := get_row (t_tab (m_spec m)) <$> rows (t_tab (m_spec m)).

Lemma row_id_ok n : - 2 ^ 63 <= n < 2 ^ 63 -> o9_tab_bad_row_id (row_id n) = false /\ value_ok (row_id n).
Proof.
  intros Hn. unfold row_id. destruct (itoa_head n Hn) as (c & s & E). split.
  - unfold o9_tab_bad_row_id. rewrite bool_decide_false by done. cbn [orb]. apply streq_neq. intros E'. done.
  - split; [done|]. apply Forall_app. split; [by repeat constructor|]. apply Forall_forall. intros b Hb. apply itoa_chars in Hb as [->|Hb]; [done|lia].
Qed.

Lemma put_cell_same opt c v g x : x = str c -> g (str c) = None -> put_cell opt c v g x = cell_text opt v.
Proof. intros -> Hg. unfold put_cell. rewrite decide_True by done. rewrite Hg. by destruct (cell_text opt v). Qed.

Lemma put_cell_other opt c v g x : x <> str c -> put_cell opt c v g x = g x.
Proof. intros H. unfold put_cell. by rewrite decide_False. Qed.

(** The seven cells of a new row. *)
Lemma fill_row t0 tb r g call fd old new flag aname mode : adding t0 tb r g ->
  (forall c, c ∈ mt_columns -> column t0 c /\ c <> str "id" /\ g c = None) -> tab_colname t0 0 = Some (str "id") ->
  text_ok false (Some (str call)) -> text_ok true fd -> text_ok true old -> text_ok true new -> text_ok true aname ->
  text_ok false (Some (itoa flag)) -> text_ok false (Some (itoa mode)) ->
  exists tb',
    set_cell r false "mode" (if decide (0 <= mode) then Some (itoa mode) else None)
      (set_cell r true "aname" aname (set_cell r false "flag" (Some (itoa flag)) (set_cell r true "new" new
        (set_cell r true "old" old (set_cell r true "fd" fd (set_cell r false "call" (Some (str call)) (0, tb))))))) = (0, tb') /\
    (exists g', adding t0 tb' r g') /\
    get_row tb' r = MRow (Some (str call)) (cell_text true fd) (cell_text true old) (cell_text true new)
                      (Some (itoa flag)) (cell_text true aname) (if decide (0 <= mode) then Some (itoa mode) else None).
Proof.
  intros Ad Hcol Hhead Hcall Hfd Hold Hnew Han Hflag Hmode.
  assert (Hc : forall c, str c ∈ mt_columns -> column t0 (str c) /\ str c <> str "id") by (intros c Hc; by destruct (Hcol _ Hc) as (? & ? & _)).
  assert (Hg : forall c, str c ∈ mt_columns -> g (str c) = None) by (intros c Hm; by destruct (Hcol _ Hm) as (_ & _ & ?)).
  assert (Hset : forall tb g opt c v, adding t0 tb r g -> str c ∈ mt_columns -> text_ok opt v ->
    exists tb', set_cell r opt c v (0, tb) = (0, tb') /\ adding t0 tb' r (put_cell opt c v g)).
  { intros tb1 g1 opt c v A Hm Hv. destruct (Hc c Hm). by apply set_cell_spec. }
  destruct (Hset _ _ false "call"%string (Some (str call)) Ad) as (b1 & -> & B1); [by repeat constructor|done|].
  destruct (Hset _ _ true "fd"%string fd B1) as (b2 & -> & B2); [by repeat constructor|done|].
  destruct (Hset _ _ true "old"%string old B2) as (b3 & -> & B3); [by repeat constructor|done|].
  destruct (Hset _ _ true "new"%string new B3) as (b4 & -> & B4); [by repeat constructor|done|].
  destruct (Hset _ _ false "flag"%string (Some (itoa flag)) B4) as (b5 & -> & B5); [by repeat constructor|done|].
  destruct (Hset _ _ true "aname"%string aname B5) as (b6 & -> & B6); [by repeat constructor|done|].
  destruct (Hset _ _ false "mode"%string (if decide (0 <= mode) then Some (itoa mode) else None) B6) as (b7 & -> & B7);
    [by repeat constructor|by destruct (decide _)|].
  exists b7. split; [done|]. split; [by eexists|]. unfold get_row. rewrite !(ad_new _ _ _ _ B7).
  f_equal; repeat (rewrite put_cell_other by done); (rewrite put_cell_same; [|done|]);
    try (repeat (rewrite put_cell_other by done); apply Hg; by repeat constructor); try done.
  - by destruct (str call).
  - by destruct (itoa flag).
  - destruct (decide _); [by destruct (itoa mode)|done].
Qed.

Lemma value_text_ok v : value_ok v -> text_ok false (Some v).
Proof. intros [Hv1 Hv2]. unfold text_ok. by destruct v. Qed.

Lemma adding_ok m tb r g seq : mt_ok m -> adding (t_tab (m_spec m)) tb r g -> - 2 ^ 63 <= seq < 2 ^ 63 -> mt_ok (mt_set_spec tb seq m).
Proof.
  intros [M1 M2 M3 M4] [S1 S2 S3 S4 S5] Hs. split; cbn [m_spec m_root m_seq mt_set_spec set_tab t_tab].
  - destruct S1 as (-> & _). done.
  - destruct S1 as (_ & _ & ->). done.
  - intros c Hc. eapply same_schema_column; [done|]. by apply M3.
  - done.
Qed.

Lemma adding_recipe m tb r g seq : adding (t_tab (m_spec m)) tb r g -> recipe (mt_set_spec tb seq m) = recipe m ++ [get_row tb r].
Proof.
  intros [S1 S2 S3 S4 S5]. unfold recipe. cbn [m_spec mt_set_spec set_tab t_tab]. rewrite S2, fmap_app. f_equal.
  apply list_fmap_ext. intros i r' Hi. apply list_elem_of_lookup_2 in Hi. unfold get_row. by rewrite !(S4 _ _ Hi).
Qed.

Lemma add_entry_spec m call fd old new flag aname mode : mt_ok m -> Z.of_nat (length (rows (t_tab (m_spec m)))) < MAX_TRIES ->
  text_ok false (Some (str call)) -> text_ok true fd -> text_ok true old -> text_ok true new -> text_ok true aname ->
  value_ok (itoa flag) -> value_ok (itoa mode) ->
  exists m', o9_mt_add_entry m call fd old new flag aname mode = (0, m') /\ mt_ok m' /\ m_root m' = m_root m /\
    recipe m' = recipe m ++ [MRow (Some (str call)) (cell_text true fd) (cell_text true old) (cell_text true new)
                              (Some (itoa flag)) (cell_text true aname) (if decide (0 <= mode) then Some (itoa mode) else None)] /\
    length (rows (t_tab (m_spec m'))) = S (length (rows (t_tab (m_spec m)))).
Proof.
  intros M Hl Hcall Hfd Hold Hnew Han Hflag Hmode. pose proof M as [M1 M2 M3 M4]. unfold o9_mt_add_entry.
  destruct (free_id_spec (Z.to_nat MAX_TRIES) (m_spec m) (m_seq m)) as (k & Hk & Hnone); [apply M3; by left|done| |unfold MAX_TRIES; lia|].
  { unfold MAX_TRIES in *. lia. }
  pose proof (proj1 (find_row_none (m_spec m) _ _ (M3 _ ltac:(by left))) Hnone) as Hfree. rewrite Hk. cbv beta iota zeta.
  destruct (row_id_ok _ (seq_at_range (m_seq m) k M4)) as [I1 I2].
  destruct (added (t_tab (m_spec m)) (str "id") (row_id (seq_at (m_seq m) k)) M2 I1 I2 Hfree) as (r & tb & Hadd & A1 & A2 & A3 & A4 & A5).
  rewrite Hadd. set (g := fun c => if decide (c = str "id") then Some (row_id (seq_at (m_seq m) k)) else None).
  assert (Ad : adding (t_tab (m_spec m)) tb r g) by by split.
  destruct (fill_row _ tb r g call fd old new flag aname mode Ad) as (tb' & -> & (g' & Ad') & Hrow); try done; try (by apply value_text_ok).
  - intros c Hc. assert (Hid : c <> str "id") by (intros ->; revert Hc; apply (bool_decide_unpack _); by vm_compute).
    split_and!; [apply M3; by right|done|]. unfold g. by rewrite decide_False.
  - eexists. split; [reflexivity|]. split_and!; [|done| |].
    + eapply adding_ok; [done..|]. by apply seq_at_range.
    + rewrite (adding_recipe _ _ _ _ _ Ad'). by rewrite Hrow.
    + cbn [m_spec mt_set_spec set_tab t_tab snd]. rewrite (ad_rows _ _ _ _ Ad'), length_app. simpl. lia.
Qed.
End adding.

(** ** The builders write recipes *)

Inductive mount_kind := Srv | Net | Near | Far.

Definition kind_call (k : mount_kind) : string :=
  match k with Srv => "mountsrv" | Net => "mountnet" | Near => "mountnear" | Far => "mountfar" end.

Definition kind_ok (k : mount_kind) : option bytes -> bool :=
  match k with Srv => o9_mt_srv_source_ok | Near => o9_mt_near_source_ok | _ => o9_mt_net_source_ok end.

Inductive mt_op :=
  | MDir (new : ostring) (mode : Z)
  | MBind (old new : ostring) (flag : Z)
  | MMount (k : mount_kind) (src old : ostring) (flag : Z) (aname : ostring)
  | MView (target source : ostring) (mode : Z)
  | MUnmount (target : ostring).

Definition mt_do `{L : libtab} (m : O9MountTable) (op : mt_op) : Z * O9MountTable :=
  match op with
  | MDir new mode => o9_mount_table_dir m new mode
  | MBind old new flag => o9_mount_table_bind m old new flag
  | MMount Srv src old flag aname => o9_mount_table_mountsrv m src old flag aname
  | MMount Net src old flag aname => o9_mount_table_mountnet m src old flag aname
  | MMount Near src old flag aname => o9_mount_table_mountnear m src old flag aname
  | MMount Far src old flag aname => o9_mount_table_mountfar m src old flag aname
  | MView target source mode => o9_mount_table_view m target source mode
  | MUnmount target => o9_mount_table_unmount m target
  end.

(** The row that an operation stands for, unless it is refused. *)
Definition row_of (op : mt_op) : option mrow :=
  match op with
  | MDir (Some new) mode =>
      if o9_mt_mode_ok mode && o9_mt_target_ok (Some (cstr new))
      then Some (MRow (Some (str "dir")) None None (Some (cstr new)) (Some (itoa 0)) None (Some (itoa mode))) else None
  | MBind (Some old) (Some new) flag =>
      if o9_mt_flag_ok flag && o9_mt_source_ok (Some (cstr old)) && o9_mt_target_ok (Some (cstr new))
      then Some (MRow (Some (str "bind")) None (Some (cstr old)) (Some (cstr new)) (Some (itoa flag)) None None) else None
  | MMount k (Some src) (Some old) flag (Some aname) =>
      if o9_mt_flag_ok flag && kind_ok k (Some (cstr src)) && o9_mt_target_ok (Some (cstr old)) &&
         negb (o9_mt_bad_text0 (Some (cstr aname)) true)
      then Some (MRow (Some (str (kind_call k))) (Some (cstr src)) (Some (cstr old)) None (Some (itoa flag))
                   (cell_text true (Some (cstr aname))) None) else None
  | MView (Some target) (Some source) mode =>
      if bool_decide (0 <= mode <= 2) && o9_mt_target_ok (Some (cstr target)) && source_id_ok (cstr source) &&
         negb (o9_mt_bad_text (Some (cstr source)))
      then Some (MRow (Some (str "view")) (Some (cstr source)) (Some (cstr target)) None (Some (itoa mode)) None None) else None
  | MUnmount (Some target) =>
      if o9_mt_target_ok (Some (cstr target))
      then Some (MRow (Some (str "unview")) None (Some (cstr target)) None (Some (itoa 0)) None None) else None
  | _ => None
  end.

Lemma bad_text_value v : o9_mt_bad_text (Some v) = false -> value_ok v.
Proof.
  unfold o9_mt_bad_text, o9_mt_bad_text0. cbn [negb andb]. intros [Hne He]%orb_false_iff. apply bool_decide_eq_false in Hne.
  split; [done|]. apply Forall_forall. intros c Hc. apply not_true_iff_false in He. rewrite existsb_exists in He.
  destruct (decide (32 <= uchar c /\ uchar c <> 127)) as [?|Hn]; [done|]. exfalso. apply He. exists c. rewrite <- list_elem_of_In.
  split; [done|]. rewrite orb_true_iff, !bool_decide_eq_true. lia.
Qed.

Lemma value_cell v : o9_mt_bad_text (Some v) = false -> text_ok true (Some v) /\ cell_text true (Some v) = Some v.
Proof. intros H%bad_text_value. destruct v as [|c v]; [by destruct H|]. done. Qed.

Lemma aname_cell v : o9_mt_bad_text0 (Some v) true = false -> text_ok true (Some v).
Proof. intros H. destruct v as [|c v]; [done|]. apply bad_text_value. exact H. Qed.

Lemma target_text v : o9_mt_target_ok (Some v) = true -> o9_mt_bad_text (Some v) = false.
Proof. unfold o9_mt_target_ok. by destruct (o9_mt_bad_text (Some v)). Qed.
Lemma source_text v : o9_mt_source_ok (Some v) = true -> o9_mt_bad_text (Some v) = false.
Proof. unfold o9_mt_source_ok. by destruct (o9_mt_bad_text (Some v)). Qed.
Lemma net_text v : o9_mt_net_source_ok (Some v) = true -> o9_mt_bad_text (Some v) = false.
Proof. unfold o9_mt_net_source_ok. by destruct (o9_mt_bad_text (Some v)). Qed.
Lemma kind_text k v : kind_ok k (Some v) = true -> o9_mt_bad_text (Some v) = false.
Proof.
  assert (Hs : o9_mt_srv_source_ok (Some v) = true -> o9_mt_bad_text (Some v) = false)
    by (unfold o9_mt_srv_source_ok; intros [? _]%andb_true_iff; by apply source_text).
  destruct k; cbn [kind_ok]; [done|apply net_text| |apply net_text]. unfold o9_mt_near_source_ok.
  intros [?|[_ ?]%andb_true_iff]%orb_true_iff; [auto|by apply net_text].
Qed.

Lemma flag_range flag : o9_mt_flag_ok flag = true -> 0 <= flag <= 7.
Proof.
  unfold o9_mt_flag_ok. destruct (decide (flag < 0)); [done|]. destruct (decide _) as [|Hm]; [done|]. intros _. apply dec_stable in Hm.
  assert (H : flag = Z.land flag 7). { rewrite <- (Z.lor_0_r (Z.land flag 7)), <- Hm, <- Z.land_lor_distr_r. symmetry. change (Z.lor 7 (Z.lnot 7)) with (-1). apply Z.land_m1_r. }
  change 7 with (Z.ones 3) in H. rewrite Z.land_ones in H by lia. pose proof (Z.mod_pos_bound flag (2 ^ 3) ltac:(lia)). lia.
Qed.

Lemma itoa_ok z : - 2 ^ 63 <= z < 2 ^ 63 -> value_ok (itoa z).
Proof.
  intros Hz. destruct (itoa_head z Hz) as (c & s & E). split; [by rewrite E|]. apply Forall_forall.
  intros b [->|Hb]%itoa_chars; [done|lia].
Qed.

Section built.
Context {L : libtab} {LL : libtab_laws L}.

Lemma call_text c : c ∈ ["dir"; "bind"; "mountsrv"; "mountnet"; "mountnear"; "mountfar"; "view"; "unview"]%string ->
  text_ok false (Some (str c)).
Proof.
  intros Hc. apply value_text_ok. revert c Hc. apply Forall_forall. apply (bool_decide_unpack _). by vm_compute.
Qed.

Lemma mt_do_spec m op : mt_ok m -> Z.of_nat (length (rows (t_tab (m_spec m)))) < MAX_TRIES ->
  match row_of op with
  | None => mt_do m op = (-1, m)
  | Some r => exists m', mt_do m op = (0, m') /\ mt_ok m' /\ m_root m' = m_root m /\ recipe m' = recipe m ++ [r] /\
                length (rows (t_tab (m_spec m'))) = S (length (rows (t_tab (m_spec m))))
  end.
Proof.
  intros M Hl. destruct op as [new mode|old new flag|k src old flag aname|target source mode|target]; cbn [row_of mt_do].
  - destruct new as [new|]; [|done]. unfold o9_mount_table_dir. destruct (o9_mt_mode_ok mode) eqn:Hm; [|done]. cbn [andb].
    destruct (o9_mt_target_ok _) eqn:Ht; [|done]. apply bool_decide_eq_true in Hm. destruct (value_cell _ (target_text _ Ht)) as [Hv Hc].
    destruct (add_entry_spec m "dir" None None (Some (cstr new)) 0 None mode) as (m' & H); try done; [by apply call_text, (bool_decide_unpack _)|apply itoa_ok; lia..|].
    rewrite Hc, decide_True in H by lia. by exists m'.
  - destruct old as [old|]; [|done]. destruct new as [new|]; [|done]. unfold o9_mount_table_bind.
    destruct (o9_mt_flag_ok flag) eqn:Hf; [|done]. cbn [andb]. destruct (o9_mt_source_ok _) eqn:Hs; [|done]. cbn [andb].
    destruct (o9_mt_target_ok _) eqn:Ht; [|done]. destruct (value_cell _ (target_text _ Ht)) as [Hv Hc].
    destruct (value_cell _ (source_text _ Hs)) as [Hv' Hc']. pose proof (flag_range _ Hf).
    destruct (add_entry_spec m "bind" None (Some (cstr old)) (Some (cstr new)) flag None (-1)) as (m' & H'); try done; [by apply call_text, (bool_decide_unpack _)|apply itoa_ok; lia..|].
    rewrite Hc, Hc', decide_False in H' by lia. by exists m'.
  - assert (E : match k with Srv => o9_mount_table_mountsrv m src old flag aname | Net => o9_mount_table_mountnet m src old flag aname
                | Near => o9_mount_table_mountnear m src old flag aname | Far => o9_mount_table_mountfar m src old flag aname end =
                add_mount (kind_call k) (kind_ok k) m src old flag aname) by by destruct k.
    rewrite E. clear E. destruct src as [src|]; [|done]. destruct old as [old|]; [|done]. destruct aname as [aname|]; [|done]. unfold add_mount.
    destruct (o9_mt_flag_ok flag) eqn:Hf; [|done]. cbn [andb]. destruct (kind_ok k _) eqn:Hs; [|done]. cbn [andb].
    destruct (o9_mt_target_ok _) eqn:Ht; [|done]. cbn [andb]. destruct (o9_mt_bad_text0 _ true) eqn:Ha; [done|].
    destruct (value_cell _ (target_text _ Ht)) as [Hv Hc]. destruct (value_cell _ (kind_text _ _ Hs)) as [Hv' Hc']. pose proof (flag_range _ Hf).
    destruct (add_entry_spec m (kind_call k) (Some (cstr src)) (Some (cstr old)) None flag (Some (cstr aname)) (-1)) as (m' & H');
      try done; [by apply call_text; destruct k; apply (bool_decide_unpack _)|by apply aname_cell|apply itoa_ok; lia..|].
    rewrite Hc, Hc', decide_False in H' by lia. by exists m'.
  - destruct target as [target|]; [|done]. destruct source as [source|]; [|done]. unfold o9_mount_table_view.
    case_bool_decide as Hm; [|done]. cbn [andb]. destruct (o9_mt_target_ok _) eqn:Ht; [|done]. cbn [andb].
    destruct (source_id_ok _); [|done]. cbn [andb]. destruct (o9_mt_bad_text (Some (cstr source))) eqn:Hs; [done|].
    destruct (value_cell _ (target_text _ Ht)) as [Hv Hc]. destruct (value_cell _ Hs) as [Hv' Hc'].
    destruct (add_entry_spec m "view" (Some (cstr source)) (Some (cstr target)) None mode None (-1)) as (m' & H'); try done; [by apply call_text, (bool_decide_unpack _)|apply itoa_ok; lia..|].
    rewrite Hc, Hc', decide_False in H' by lia. by exists m'.
  - destruct target as [target|]; [|done]. unfold o9_mount_table_unmount. destruct (o9_mt_target_ok _) eqn:Ht; [|done].
    destruct (value_cell _ (target_text _ Ht)) as [Hv Hc].
    destruct (add_entry_spec m "unview" None (Some (cstr target)) None 0 None (-1)) as (m' & H'); try done; [by apply call_text, (bool_decide_unpack _)|apply itoa_ok; lia..|].
    rewrite Hc, decide_False in H' by lia. by exists m'.
Qed.

Lemma mt_tab_new_spec : o9_mt_tab_new =
  (fun tb => MkTabula tb None None) <$> tab_create (str "mounts.tab") (str "mounts") (plain_col <$> str "id" :: mt_columns).
Proof.
  unfold o9_mt_tab_new, o9_tab_new. replace (parse_cols _ 1 _) with mt_columns by (by vm_compute).
  change (decide _) with (decide (str "mounts" = [])). rewrite decide_False by done.
  change (snprint 128 _) with (str "mounts.tab"). change (cstr _) with (str "mounts"). by destruct (tab_create _ _ _).
Qed.

Lemma new_table_ok m : o9_mount_table_new None = Some m -> mt_ok m /\ recipe m = [] /\ rows (t_tab (m_spec m)) = [] /\ m_root m = None.
Proof.
  unfold o9_mount_table_new. rewrite mt_tab_new_spec. destruct (tab_create _ _ _) as [tb|] eqn:E; [|done]. cbn [fmap option_fmap option_map].
  destruct (o9_mt_schema_ok _); [|done]. intros [= <-]. destruct (created _ _ _ _ E) as (C1 & C2 & C3 & C4).
  unfold o9_mt_seed_seq. cbn [m_spec t_tab]. rewrite table_rows_some, C4. unfold recipe. cbn [m_spec t_tab m_root m_seq length]. rewrite C4.
  split_and!; [|done..]. split; cbn [m_spec t_tab m_seq].
  - done.
  - by rewrite C3.
  - intros c Hc. apply list_elem_of_lookup_1 in Hc as [i Hi]. exists i. rewrite C2, C3, length_fmap. split; [by eapply lookup_lt_Some|].
    rewrite list_lookup_fmap, Hi. done.
  - apply i64_width_range.
Qed.

Lemma mt_run_spec ops m : mt_ok m -> Z.of_nat (length (rows (t_tab (m_spec m))) + length ops) < MAX_TRIES ->
  let '(rets, m') := trace mt_do m ops in
  rets = (fun op => if row_of op then 0 else -1) <$> ops /\ recipe m' = recipe m ++ omap row_of ops /\ m_root m' = m_root m /\ mt_ok m'.
Proof.
  revert m. induction ops as [|op ops IH]; intros m M Hl; cbn [trace].
  - split_and!; [done| |done|done]. change (omap row_of []) with (@nil mrow). by rewrite app_nil_r.
  - cbn [length] in Hl. pose proof (mt_do_spec m op M ltac:(lia)) as H.
    change (omap row_of (op :: ops)) with (match row_of op with Some r => r :: omap row_of ops | None => omap row_of ops end).
    cbn [fmap list_fmap]. destruct (row_of op) as [r|].
    + destruct H as (m1 & -> & M1 & H2 & H3 & H4). specialize (IH m1 M1 ltac:(lia)). destruct (trace mt_do m1 ops) as [rets m'].
      destruct IH as (I1 & I2 & I3 & I4). split_and!; [by rewrite I1|by rewrite I2, H3, <- app_assoc|congruence|done].
    + rewrite H. specialize (IH m M ltac:(lia)). destruct (trace mt_do m ops) as [rets m']. destruct IH as (I1 & I2 & I3 & I4).
      split_and!; [by rewrite I1|done..].
Qed.

(** A table made by the builders is the list of its recipe's rows:
    over any sequence of fewer than a million calls, each call succeeds exactly
    when its arguments are acceptable, an accepted one appends one row with the
    documented cells, under an id that no other row has, and a refused one
    changes nothing. *)
Theorem table_refines_recipe m ops : o9_mount_table_new None = Some m -> Z.of_nat (length ops) < MAX_TRIES ->
  (trace mt_do m ops).1 = (fun op => if row_of op then 0 else -1) <$> ops /\
  recipe (trace mt_do m ops).2 = omap row_of ops.
Proof.
  intros Hm Hl. destruct (new_table_ok m Hm) as (M & Hr & Hn & _). pose proof (mt_run_spec ops m M) as H. rewrite Hn in H.
  specialize (H Hl). destruct (trace mt_do m ops) as [rets m']. cbn [fst snd]. destruct H as (-> & -> & _). by rewrite Hr.
Qed.

(** ** What is validated *)

Lemma schema_ok m : mt_ok m -> o9_mt_schema_ok (m_spec m) = true.
Proof.
  intros [M1 _ M3 _]. unfold o9_mt_schema_ok. rewrite bool_decide_true by done. apply forallb_forall. intros c Hc.
  apply has_col_column, M3. right. by apply list_elem_of_In.
Qed.

(** Validation looks at the root, the schema and every row. *)
Lemma validate_spec m : mt_ok m -> is_Some (m_root m) ->
  o9_mount_table_validate m = if forallb valid_row (recipe m) then 0 else -1.
Proof.
  intros M [root Hr]. unfold o9_mount_table_validate. rewrite (schema_ok m M), Hr. rewrite bool_decide_false by done. cbn [orb negb].
  rewrite table_rows_some. unfold recipe. replace (forallb valid_row _) with (forallb (fun r => valid_row (get_row (t_tab (m_spec m)) r)) (rows (t_tab (m_spec m)))); [done|].
  induction (rows (t_tab (m_spec m))) as [|r l IH]; [done|]. cbn. by rewrite IH.
Qed.

Definition is_view (op : mt_op) : bool := match op with MView _ _ _ | MUnmount _ => true | _ => false end.

Lemma parse_vlong_itoa z : - 2 ^ 63 <= z < 2 ^ 63 -> o9_mt_parse_vlong (Some (itoa z)) = Some z.
Proof.
  intros Hz. unfold o9_mt_parse_vlong. destruct (itoa_ok z Hz) as [Hne Hv].
  assert (Hb : o9_mt_bad_text (Some (itoa z)) = false).
  { unfold o9_mt_bad_text, o9_mt_bad_text0. rewrite bool_decide_false by done. cbn [negb andb orb].
    apply not_true_iff_false. rewrite existsb_exists. intros (c & Hc & Hx). apply list_elem_of_In in Hc.
    rewrite Forall_forall in Hv. specialize (Hv c Hc). rewrite orb_true_iff, !bool_decide_eq_true in Hx. lia. }
  rewrite Hb. unfold strtoll. rewrite strto_itoa by (auto || lia). rewrite bool_decide_false by (intros E; by rewrite <- E in Hne).
  by rewrite bool_decide_true.
Qed.

Lemma parse_flag_itoa f : o9_mt_flag_ok f = true -> o9_mt_parse_flag (Some (itoa f)) = Some f.
Proof. intros Hf. pose proof (flag_range f Hf). unfold o9_mt_parse_flag. rewrite parse_vlong_itoa by lia. by rewrite Hf. Qed.

Lemma kind_near k v : kind_ok k v = true -> match k with Srv | Near => o9_mt_near_source_ok v = true | _ => o9_mt_net_source_ok v = true end.
Proof. destruct k; try done. cbn. unfold o9_mt_near_source_ok. by intros ->. Qed.

Lemma row_valid op r : row_of op = Some r -> valid_row r = negb (is_view op).
Proof.
  destruct op as [new mode|old new flag|k src old flag aname|target source mode|target]; cbn [row_of is_view negb].
  - destruct new as [new|]; [|done]. destruct (o9_mt_mode_ok mode) eqn:Hm; [|done]. destruct (o9_mt_target_ok _) eqn:Ht; [|done].
    intros [= <-]. unfold valid_row. change (call_is _ "dir") with true. cbv iota. cbn [r_new r_mode]. rewrite Ht. cbn [andb].
    pose proof Hm as Hm'. apply bool_decide_eq_true in Hm'. by rewrite parse_vlong_itoa by lia.
  - destruct old as [old|]; [|done]. destruct new as [new|]; [|done]. destruct (o9_mt_flag_ok flag) eqn:Hf; [|done].
    destruct (o9_mt_source_ok _) eqn:Hs; [|done]. destruct (o9_mt_target_ok _) eqn:Ht; [|done].
    intros [= <-]. unfold valid_row. change (call_is _ "dir") with false. change (call_is _ "bind") with true. cbv iota.
    cbn [r_new r_old r_flag]. unfold flag_ok. cbn [r_flag]. rewrite Hs, Ht, (parse_flag_itoa _ Hf). cbn [andb]. by rewrite bool_decide_true.
  - destruct src as [src|]; [|done]. destruct old as [old|]; [|done]. destruct aname as [aname|]; [|done].
    destruct (o9_mt_flag_ok flag) eqn:Hf; [|done]. destruct (kind_ok k _) eqn:Hs; [|done]. apply kind_near in Hs.
    destruct (o9_mt_target_ok _) eqn:Ht; [|done]. destruct (o9_mt_bad_text0 _ true) eqn:Ha; [done|]. cbn [andb negb].
    intros [= <-]. unfold valid_row, flag_ok, aname_ok. cbn [r_fd r_old r_flag r_aname r_mode r_new r_call]. rewrite Ht, (parse_flag_itoa _ Hf).
    assert (Han : match (match cstr aname with [] => None | _ :: _ => Some (cstr aname) end) with Some a => negb (o9_mt_bad_text0 (Some a) true) | None => true end = true)
      by (destruct (cstr aname); [done|]; by rewrite Ha).
    rewrite Han. destruct k; cbn [kind_call] in *; unfold call_is; cbn [r_call]; rewrite Hs; vm_compute; reflexivity.
  - destruct target as [target|]; [|done]. destruct source as [source|]; [|done]. destruct (_ && _); [|done]. by intros [= <-].
  - destruct target as [target|]; [|done]. destruct (o9_mt_target_ok _); [|done]. by intros [= <-].
Qed.

Lemma allow_root_spec sys m root tr m' tr' : o9_mount_table_allow_root sys m root tr = (0, m', tr') ->
  m_spec m' = m_spec m /\ m_seq m' = m_seq m /\ is_Some (m_root m').
Proof.
  unfold o9_mount_table_allow_root. destruct root as [root|]; [|done]. destruct (_ || _); [done|].
  destruct (o9_mt_ensure_dir_p _ _ _) as [rv t1]. destruct (decide (rv < 0)); [done|]. intros [= <- <-]. cbn. eauto.
Qed.

Lemma forallb_omap ops : forallb valid_row (omap row_of ops) = true <-> forall op, op ∈ ops -> is_Some (row_of op) -> is_view op = false.
Proof.
  rewrite forallb_forall. split.
  - intros H op Hop [r Hr]. pose proof (row_valid op r Hr) as Hv. apply negb_true_iff. rewrite <- Hv. apply H, list_elem_of_In, list_elem_of_omap. by exists op.
  - intros H r Hr. apply list_elem_of_In, list_elem_of_omap in Hr as (op & Hop & Hr). rewrite (row_valid op r Hr), (H op Hop); [done|by eexists].
Qed.

(** What the builders write, validation reads back: a table made by
    any sequence of builder calls and given a root validates exactly when no view
    row was accepted, every flag, mode, source and target surviving its text
    form. *)
Theorem built_table_validates sys m ops root tr m' tr' : o9_mount_table_new None = Some m -> Z.of_nat (length ops) < MAX_TRIES ->
  o9_mount_table_allow_root sys (trace mt_do m ops).2 root tr = (0, m', tr') ->
  o9_mount_table_validate m' = 0 <-> forall op, op ∈ ops -> is_Some (row_of op) -> is_view op = false.
Proof.
  intros Hm Hl Ha. destruct (new_table_ok m Hm) as (M & Hr & Hn & _). pose proof (mt_run_spec ops m M) as H. rewrite Hn in H.
  specialize (H Hl). destruct (trace mt_do m ops) as [rets m1]. cbn [snd] in Ha. destruct H as (_ & Hrec & _ & M1). rewrite Hr in Hrec.
  destruct (allow_root_spec _ _ _ _ _ _ Ha) as (E1 & E2 & E3).
  assert (M' : mt_ok m') by (destruct M1; split; rewrite ?E1, ?E2; done).
  rewrite (validate_spec m' M' E3). unfold recipe in *. rewrite E1, Hrec. cbn [app]. rewrite <- forallb_omap.
  by destruct (forallb _ _).
Qed.

(** A root that was accepted is absolute and has no [..] element; nothing
    else sets one. *)
Lemma allow_root_root sys m root tr m' tr' : o9_mount_table_allow_root sys m root tr = (0, m', tr') ->
  exists r, m_root m' = Some r /\ r <> [] /\ head_is x2f r = true /\ no_dotdot r.
Proof.
  unfold o9_mount_table_allow_root. destruct root as [root|]; [|done].
  destruct (_ || _) eqn:E; [done|]. apply orb_false_iff in E as [[H1 H2]%orb_false_iff _].
  destruct (o9_mt_ensure_dir_p _ _ _) as [rv tr1]. destruct (decide _); [done|]. intros [= <- _]. cbn [m_root].
  apply negb_false_iff in H1. exists (cstr root). split_and!; [done| |done|done]. by destruct (cstr root).
Qed.

(** C12: a replay stays below its root. Let the root be one that
    [allow_root] accepted, and let it and each of the paths fit into the 512
    bytes of a path buffer. Whatever the table holds (it may come from
    elsewhere) and whatever the system answers, every call that [apply]
    makes is one of these: a bind or mount onto the root or a path below it,
    with legal flags; the opening or creation of such a directory or of one
    on the way to the root, whose missing parents are made; the opening of a
    file in [/srv], for a mount; the dialling of a network address. No path
    of a call has a [..] element. And it makes no call at all unless the
    whole table is valid. *)
Theorem replay_confined sys m0 m m1 oroot root tr t0 t1 :
  o9_mount_table_allow_root sys m0 oroot t0 = (0, m1, t1) -> m_root m1 = Some root -> m_root m = Some root ->
  (length root <= 511)%nat -> Forall (fits root) (recipe m) ->
  exists new, (o9_mount_table_apply sys m tr).2 = tr ++ new /\ Forall (call_ok root) new /\
    (new <> [] -> o9_mount_table_validate m = 0).
Proof.
  intros Hallow Hr1 Hr Hl Hf. destruct (allow_root_root _ _ _ _ _ _ Hallow) as (r & Hr1' & Hne & _ & Hdd).
  rewrite Hr1 in Hr1'. injection Hr1' as <-. clear Hallow Hr1. unfold o9_mount_table_apply. destruct (decide (o9_mount_table_validate m < 0)) as [|Hv].
  { exists []. by rewrite app_nil_r. }
  assert (Hval : o9_mount_table_validate m = 0 /\ Forall (fun r => valid_row r = true) (recipe m)).
  { unfold o9_mount_table_validate in *. destruct (_ || _); [lia|]. rewrite table_rows_some in *.
    destruct (forallb _ _) eqn:E; [|lia]. split; [done|]. unfold recipe. apply Forall_fmap, Forall_forall. intros r Hin.
    rewrite forallb_forall in E. by apply E, list_elem_of_In. }
  destruct Hval as [Hval Hrows]. rewrite Hr. clear Hv.
  pose proof (ensure_dir_p_calls sys root Hdd root tr Hne (or_introl eq_refl) Hl) as H1. destruct (o9_mt_ensure_dir_p _ _ _) as [rv tr1].
  assert (H : calls (call_ok root) tr (if decide (rv < 0) then (-1, tr1) else
    match table_rows (t_tab (m_spec m)) with Some rs => apply_rows sys root (get_row (t_tab (m_spec m)) <$> rs) tr1 | None => (-1, tr1) end).2).
  { destruct (decide _); [done|]. rewrite table_rows_some. eapply calls_trans; [exact H1|]. apply apply_rows_calls; [done..|].
    apply Forall_and. by split. }
  destruct H as (new & Hnew & Hok). exists new. split; [|done]. rewrite <- Hnew. destruct (decide _); [done|]. by destruct (table_rows _).
Qed.

(** *** View recipes *)

Definition spec_of (op : mt_op) : option O9FTMountSpec :=
  match op with
  | MView (Some target) (Some source) mode => Some (FtSpec (Some (cstr target)) (Some (cstr source)) mode false)
  | MUnmount (Some target) => Some (FtSpec (Some (cstr target)) None 0 true)
  | _ => None
  end.

Lemma row_view op r : row_of op = Some r -> view_spec r = spec_of op.
Proof.
  destruct op as [new mode|old new flag|k src old flag aname|target source mode|target]; cbn [row_of spec_of].
  - destruct new as [new|]; [|done]. destruct (_ && _); [|done]. intros [= <-]. unfold view_spec. cbn [r_call r_old].
    by rewrite bool_decide_false.
  - destruct old as [old|]; [|done]. destruct new as [new|]; [|done]. destruct (_ && _); [|done]. intros [= <-]. unfold view_spec.
    cbn [r_call r_old]. rewrite bool_decide_false by done. cbn [orb]. by destruct (negb _).
  - destruct src as [src|]; [|done]. destruct old as [old|]; [|done]. destruct aname as [aname|]; [|done].
    destruct (_ && _); [|done]. intros [= <-]. unfold view_spec. cbn [r_call r_old]. rewrite bool_decide_false by done. cbn [orb].
    destruct (negb _); [done|]. by destruct k.
  - destruct target as [target|]; [|done]. destruct source as [source|]; [|done]. case_bool_decide as Hm; [|done]. cbn [andb].
    destruct (o9_mt_target_ok _) eqn:Ht; [|done]. destruct (source_id_ok _) eqn:Hs; [|done]. destruct (negb _); [|done].
    intros [= <-]. unfold view_spec. cbn [r_call r_old r_fd r_flag]. rewrite bool_decide_false by done. rewrite Ht. cbn [orb negb].
    change (call_is _ "unview") with false. change (call_is _ "view") with true. cbv iota.
    rewrite parse_vlong_itoa by lia. by rewrite Hs, bool_decide_true.
  - destruct target as [target|]; [|done]. destruct (o9_mt_target_ok _) eqn:Ht; [|done].
    intros [= <-]. unfold view_spec. cbn [r_call r_old]. rewrite bool_decide_false by done. by rewrite Ht.
Qed.

Lemma mapM_views ops : mapM view_spec (omap row_of ops) =
  if forallb is_view (filter (fun op => is_Some (row_of op)) ops)
  then Some (omap spec_of (filter (fun op => is_Some (row_of op)) ops)) else None.
Proof.
  induction ops as [|op ops IH]; [done|].
  change (omap row_of (op :: ops)) with (match row_of op with Some r => r :: omap row_of ops | None => omap row_of ops end).
  destruct (row_of op) as [r|] eqn:E.
  - rewrite filter_cons_True by (rewrite E; by eexists). cbn [mapM forallb]. rewrite IH, (row_view op r E).
    set (l := filter _ ops). destruct op as [new mode|old new flag|k src old flag aname|target source mode|target]; try done; cbn [is_view andb].
    + destruct target as [target|]; [|done]. destruct source as [source|]; [|done]. by destruct (forallb is_view l).
    + destruct target as [target|]; [|done]. by destruct (forallb is_view l).
  - rewrite filter_cons_False by (rewrite E; by intros [? ?]). exact IH.
Qed.

(** View rows reach the file trees as they were asked for: applying
    a table that the builders made is applying the specifications of the
    accepted [view] and [unmount] calls, in their order, when it holds nothing
    else, and is refused without effect when a row of another kind is there. *)
Theorem view_recipe_exact m ops caller t s : o9_mount_table_new None = Some m -> Z.of_nat (length ops) < MAX_TRIES ->
  let accepted := filter (fun op => is_Some (row_of op)) ops in
  o9_filetree_apply caller t (trace mt_do m ops).2 s =
    if forallb is_view accepted then o9_filetree_apply_specs caller t (omap spec_of accepted) s else (-1, s).
Proof.
  intros Hm Hl. destruct (new_table_ok m Hm) as (M & Hr & Hn & _). pose proof (mt_run_spec ops m M) as H. rewrite Hn in H.
  specialize (H Hl). destruct (trace mt_do m ops) as [rets m1]. cbn [snd]. destruct H as (_ & Hrec & _ & M1). rewrite Hr in Hrec. cbn [app] in Hrec.
  unfold o9_filetree_apply. rewrite (schema_ok m1 M1), table_rows_some. cbn [negb].
  replace (mapM _ (rows _)) with (mapM view_spec (recipe m1)).
  - rewrite Hrec, mapM_views. by destruct (forallb _ _).
  - unfold recipe. induction (rows (t_tab (m_spec m1))) as [|r l IH]; [done|]. cbn [fmap list_fmap mapM]. by rewrite IH.
Qed.
End built.

(** ** Witnesses *)

#[local] Existing Instances ListTab.impl ListTab.laws.

Definition demo_table : @O9MountTable ListTab.impl :=
  default (@MkMt ListTab.impl (@MkTabula ListTab.impl (ListTab.Table [] [] [] 0) None None) None 0)
    (@o9_mount_table_new ListTab.impl None).

Lemma demo_new : @o9_mount_table_new ListTab.impl None = Some demo_table.
Proof.
  assert (H : match @o9_mount_table_new ListTab.impl None with Some _ => true | None => false end = true) by (vm_compute; reflexivity).
  unfold demo_table. destruct (@o9_mount_table_new ListTab.impl None); [reflexivity|discriminate].
Qed.

Definition some_ops : list mt_op :=
  [MDir (Some (str "cache")) 493; MBind (Some (str "/tmp")) (Some (str "cache/../x")) 0; MBind (Some (str "/tmp")) (Some (str "tmp")) 1;
   MMount Near (Some (str "/srv/mail")) (Some (str "mail")) 4 (Some [])].

Definition some_table : @O9MountTable ListTab.impl := (trace mt_do demo_table some_ops).2.

Lemma table_refines_recipe_witness :
  (trace (@mt_do ListTab.impl) demo_table some_ops).1 = [0; -1; 0; 0] /\ length (recipe some_table) = 3%nat.
Proof.
  destruct (table_refines_recipe (LL := ListTab.laws) demo_table some_ops demo_new eq_refl) as [H1 H2].
  split; [rewrite H1; vm_compute; reflexivity|]. unfold some_table. rewrite H2. vm_compute. reflexivity.
Defined.

(** A system that opens everything. *)
Definition yes (tr : list syscall) (c : syscall) : Z := 3.

Lemma built_table_validates_witness : exists m, @o9_mount_table_validate ListTab.impl m = 0.
Proof.
  assert (Hrv : (o9_mount_table_allow_root yes some_table (Some (str "/tmp/ns")) []).1.1 = 0) by (vm_compute; reflexivity).
  destruct (o9_mount_table_allow_root yes some_table (Some (str "/tmp/ns")) []) as [[rv m'] tr'] eqn:E. cbn [fst] in Hrv. subst rv.
  exists m'. apply (built_table_validates (LL := ListTab.laws) yes demo_table some_ops _ _ m' tr' demo_new eq_refl E).
  intros op Hop _. unfold some_ops in Hop. repeat (apply elem_of_cons in Hop as [->|Hop]; [reflexivity|]). by apply elem_of_nil in Hop.
Defined.

Definition rooted_table : @O9MountTable ListTab.impl :=
  @MkMt ListTab.impl (m_spec some_table) (Some (str "/tmp/ns")) (m_seq some_table).

Lemma rooted_table_allowed : exists t1, o9_mount_table_allow_root yes some_table (Some (str "/tmp/ns")) [] = (0, rooted_table, t1).
Proof.
  assert (Hrv : (o9_mt_ensure_dir_p yes (str "/tmp/ns") []).1 = 0) by (vm_compute; reflexivity).
  unfold o9_mount_table_allow_root. change (cstr (str "/tmp/ns")) with (str "/tmp/ns").
  destruct (o9_mt_ensure_dir_p yes (str "/tmp/ns") []) as [rv t1]. cbn [fst] in Hrv. subst rv. by exists t1.
Qed.

Lemma replay_confined_witness :
  exists new, (o9_mount_table_apply yes rooted_table []).2 = new /\ length new = 26%nat /\ Forall (call_ok (str "/tmp/ns")) new.
Proof.
  assert (Hf : Forall (fits (str "/tmp/ns")) (@recipe ListTab.impl ListTab.laws rooted_table)).
  { replace (recipe rooted_table) with (recipe some_table) by (unfold recipe, rooted_table; cbn [m_spec]; reflexivity). unfold some_table.
    rewrite (proj2 (table_refines_recipe (LL := ListTab.laws) demo_table some_ops demo_new eq_refl)).
    apply (bool_decide_unpack _). vm_compute. exact I. }
  destruct rooted_table_allowed as [t1 Happ].
  destruct (replay_confined (LL := ListTab.laws) yes some_table rooted_table rooted_table (Some (str "/tmp/ns")) (str "/tmp/ns") [] [] t1
    Happ eq_refl eq_refl ltac:(apply Nat.leb_le; reflexivity) Hf) as (new & Hnew & Hok & _).
  exists new. split; [exact Hnew|]. split; [|exact Hok]. change new with ([] ++ new). rewrite <- Hnew. vm_compute. reflexivity.
Defined.

Definition view_ops : list mt_op := [MView (Some (str "a")) (Some (str "src")) 2; MView (Some (str "/a")) (Some (str "src")) 2; MUnmount (Some (str "b"))].

Lemma view_recipe_exact_witness (s : fts) :
  o9_filetree_apply 1 1 (trace (@mt_do ListTab.impl) demo_table view_ops).2 s =
  o9_filetree_apply_specs 1 1 [FtSpec (Some (str "a")) (Some (str "src")) 2 false; FtSpec (Some (str "b")) None 0 true] s.
Proof. rewrite (view_recipe_exact (LL := ListTab.laws) demo_table view_ops 1 1 s demo_new eq_refl). vm_compute filter. reflexivity. Defined.

(** ** Observed *)

(** Path buffers have 512 bytes and a path that does not fit is cut: below a
    root of 508 bytes the acceptable target [..up] becomes the root's parent,
    which is then bound over. *)
Definition long_root : bytes := x2f :: replicate 507 x72.
Definition up_row : mrow := MRow (Some (str "bind")) None (Some (str "/tmp")) (Some (str "..up")) (Some (str "0")) None None.

Lemma long_target_escapes :
  valid_row up_row = true /\ o9_mt_has_dotdot (Some long_root) = false /\
  last (apply_row yes long_root up_row []).2 = Some (SBind (str "/tmp") (long_root ++ str "/..") 0).
Proof. vm_compute. done. Qed.
