(* ===== verification/View.v ===== *)
(** * Displayed views and their fids ([o9_view.c])

    Every 9P fid of an application carries a context: either at a file of the
    fixed facade or inside a tree that the controller displays.  Views are
    counted: a fid and a session hold one reference each.  The facade's files
    (lib9p), the guard that authorises them and the controller's answers are
    the environment of an operation.  A region under [view_lock] is one step,
    and so is a request: what it does before it calls the controller leaves the
    views alone.  Allocation and [proccreate] succeed.  A tree that has been
    destroyed counts as closed here, where the code reads freed memory. *)
From S2P Require Import Prelude O9Str FileTree.

Open Scope Z_scope.

(** ** State *)

Abbreviation file := positive (only parsing).
Abbreviation vid := positive (only parsing).
Abbreviation fid := positive (only parsing).

Inductive vf_kind := VF_FIXED | VF_TREE.
#[export] Instance vf_kind_dec : EqDecision vf_kind.
Proof. solve_decision. Defined.

Record O9View := MkView { v_id : bytes; v_tree : positive; v_active : bool; v_refs : Z }.

Record O9ViewFid := MkVf {
  c_kind : vf_kind;
  c_generation : Z;
  c_view : option vid;
  c_fixed : option file;
  c_view_parent : option file;
  c_stage : Z;                       (* [void*]: the fixed handlers' own *)
  c_entry : option positive;
  c_stack : list positive;           (* the last one first *)
  c_path : bytes;
  c_listing : list positive;
  c_rootdir : bool;
}.

(** What the service is set up with ([view_root] and the statics below it). *)
Record config := MkCfg {
  view_root : option file;
  view_session_mode : bool;
  view_controller : option Z;                 (* its [dispatch_chan] *)
  view_close_notify : bool;
}.

(** A fid that a handler of the facade has entered: its own [file] and [aux]
    are in use, and the context is with the caller. *)
Record entered := MkEntered { in_ctx : O9ViewFid; in_file : option file; in_aux : Z }.

(** [vs_fids] holds the fids whose [aux] is a context; [vs_frefs] counts the
    references to the facade's files that the contexts hold. *)
Record vstate := MkVs {
  vs_cfg : config;
  vs_views : gmap vid O9View;
  vs_sessions : list (file * option vid);     (* [view_sessions] *)
  vs_fids : gmap fid O9ViewFid;
  vs_in : gmap fid entered;
  vs_frefs : gmap file Z;
  vs_closed : list bytes;                     (* the [closeView] calls queued *)
  vs_fresh : positive;
}.

Definition vstate0 : vstate := MkVs (MkCfg None false None false) ∅ [] ∅ ∅ ∅ [] 1.

(** What a request finds outside: the files of the facade (lib9p), the guard
    with the generation it gives when it allows, the trees, the clock and the
    controller's methods. *)
Record Dir := MkDir { d_path : Z; d_type : Z; d_name : bytes; d_uid : bytes; d_gid : bytes; d_muid : bytes;
                      d_mode : Z; d_length : Z; d_time : Z }.

Record env := MkEnv {
  e_walk : file -> bytes -> option file;      (* [walkfile] *)
  file_parent : file -> option file;
  file_dir : file -> Dir;
  e_opens : file -> bool;                     (* [opendirfile] *)
  e_guard : option (fid -> file -> Z -> option Z);
  e_trees : fts;
  e_time : Z;
  e_display : bytes * bool -> bytes -> bytes -> option positive;
  e_read : bytes * bool -> bytes -> bytes -> ostring;
  e_write : bytes * bool -> bytes -> bytes -> Z -> bytes -> bool -> option Z;
}.

Definition upd_views (f : gmap vid O9View -> gmap vid O9View) (s : vstate) : vstate :=
  MkVs (vs_cfg s) (f (vs_views s)) (vs_sessions s) (vs_fids s) (vs_in s) (vs_frefs s) (vs_closed s) (vs_fresh s).
Definition set_sessions (l : list (file * option vid)) (s : vstate) : vstate :=
  MkVs (vs_cfg s) (vs_views s) l (vs_fids s) (vs_in s) (vs_frefs s) (vs_closed s) (vs_fresh s).
Definition upd_fids (f : gmap fid O9ViewFid -> gmap fid O9ViewFid) (s : vstate) : vstate :=
  MkVs (vs_cfg s) (vs_views s) (vs_sessions s) (f (vs_fids s)) (vs_in s) (vs_frefs s) (vs_closed s) (vs_fresh s).
Definition upd_in (f : gmap fid entered -> gmap fid entered) (s : vstate) : vstate :=
  MkVs (vs_cfg s) (vs_views s) (vs_sessions s) (vs_fids s) (f (vs_in s)) (vs_frefs s) (vs_closed s) (vs_fresh s).
Definition set_cfg (c : config) (s : vstate) : vstate :=
  MkVs c (vs_views s) (vs_sessions s) (vs_fids s) (vs_in s) (vs_frefs s) (vs_closed s) (vs_fresh s).

(** [o9_file_incref] and [closefile], by [n]. *)
Definition file_count (n : Z) (f : option file) (m : gmap file Z) : gmap file Z :=
  match f with None => m | Some f => <[f := default 0 (m !! f) + n]> m end.
Definition file_ref (n : Z) (f : option file) (s : vstate) : vstate :=
  MkVs (vs_cfg s) (vs_views s) (vs_sessions s) (vs_fids s) (vs_in s) (file_count n f (vs_frefs s)) (vs_closed s) (vs_fresh s).

Definition view_queue_close (id : option bytes) (s : vstate) : vstate :=
  let closed :=
    match id with
    | Some id => if view_close_notify (vs_cfg s) then vs_closed s ++ [id] else vs_closed s
    | None => vs_closed s
    end in
  MkVs (vs_cfg s) (vs_views s) (vs_sessions s) (vs_fids s) (vs_in s) (vs_frefs s) closed (vs_fresh s).

(** ** Setting up *)

Definition o9_view_setup (root : option file) (s : vstate) : vstate :=
  let c := vs_cfg s in set_cfg (MkCfg root (view_session_mode c) (view_controller c) (view_close_notify c)) s.
Definition o9_view_set_session_mode (enabled : Z) (s : vstate) : vstate :=
  let c := vs_cfg s in set_cfg (MkCfg (view_root c) (negb (enabled =? 0)) (view_controller c) (view_close_notify c)) s.
Definition o9_view_set_close_notify (enabled : Z) (s : vstate) : vstate :=
  let c := vs_cfg s in set_cfg (MkCfg (view_root c) (view_session_mode c) (view_controller c) (negb (enabled =? 0))) s.

(** [object] is the object's channel and its distance. *)
Definition o9_view_register_controller (object : option (option Z * Z)) (s : vstate) : Z * vstate :=
  let c := vs_cfg s in
  match object with
  | Some (Some chan, distance) =>
      if negb (bool_decide (distance = -1)) then (-1, s)
      else if bool_decide (is_Some (view_controller c)) then (-1, s)
      else (0, set_cfg (MkCfg (view_root c) (view_session_mode c) (Some chan) (view_close_notify c)) s)
  | _ => (-1, s)
  end.

Definition set_refs (n : Z) (v : O9View) : O9View := MkView (v_id v) (v_tree v) (v_active v) n.
Definition set_active (b : bool) (v : O9View) : O9View := MkView (v_id v) (v_tree v) b (v_refs v).

(** ** References to views *)

Definition view_retain (v : vid) (s : vstate) : vstate := upd_views (alter (fun w => set_refs (v_refs w + 1) w) v) s.

(** The id of the view, when this was the last reference. *)
Definition view_release_locked (v : option vid) (s : vstate) : option bytes * vstate :=
  match v with
  | None => (None, s)
  | Some v =>
      match vs_views s !! v with
      | None => (None, s)
      | Some w => if decide (v_refs w - 1 = 0) then (Some (v_id w), upd_views (delete v) s)
                  else (None, upd_views (<[v := set_refs (v_refs w - 1) w]>) s)
      end
  end.

Definition new_view (id : bytes) (tree : positive) (s : vstate) : vid * vstate :=
  let v := vs_fresh s in
  (v, MkVs (vs_cfg s) (<[v := MkView (snprint 65 id) tree true 1]> (vs_views s)) (vs_sessions s) (vs_fids s) (vs_in s)
        (vs_frefs s) (vs_closed s) (v + 1)%positive).

Definition view_ctx (kind : vf_kind) : O9ViewFid := MkVf kind 0 None None None 0 None [] [] [] false.

Definition view_ctx_free (c : O9ViewFid) (s : vstate) : vstate :=
  let s := file_ref (-1) (c_fixed c) s in
  let s := file_ref (-1) (c_view_parent c) s in
  let '(closed, s) := view_release_locked (c_view c) s in
  view_queue_close closed s.

Definition view_of (s : vstate) (c : O9ViewFid) : option O9View := c_view c ≫= fun v => vs_views s !! v.

(** ** Sessions *)

(** The session of a directory that has a view; the view gets a reference. *)
Definition view_session_lookup (dir : file) (s : vstate) : option vid * vstate :=
  match list_find (fun x => x.1 = dir /\ is_Some x.2) (vs_sessions s) with
  | Some (_, (_, Some v)) => (Some v, view_retain v s)
  | _ => (None, s)
  end.

(** The identity that a request is made under. *)
Record request := MkReq { r_uid : option bytes; r_srv_auth : bool; r_noauth : bool }.

Definition authenticated (r : request) : option bytes :=
  if r_srv_auth r && negb (r_noauth r) then
    match r_uid r with Some u => if streq u (str "none") then None else Some u | None => None end
  else None.

(** The uid and whether it is blessed ([o9_set_current_request]). *)
Definition view_identity (r : request) : bytes * bool :=
  match authenticated r with Some u => (u, true) | None => (str "anonymous", false) end.

(** A tree that the controller may display: alive and its own. *)
Definition displayable (e : env) (s : vstate) (tree : positive) : bool :=
  o9_filetree_alive (e_trees e) tree && bool_decide (o9_filetree_owner (e_trees e) tree = view_controller (vs_cfg s)).

Fixpoint set_session (dir : file) (v : option vid) (l : list (file * option vid)) : list (file * option vid) :=
  match l with
  | [] => []
  | x :: l => if decide (x.1 = dir) then (x.1, v) :: l else x :: set_session dir v l
  end.

(** [id] is what [o9_keygen] returns. *)
Definition o9_view_session_start (e : env) (r : request) (dir : file) (id : ostring) (s : vstate) : Z * vstate :=
  if negb (view_session_mode (vs_cfg s)) || bool_decide (view_controller (vs_cfg s) = None) then (-1, s) else
  match authenticated r, id with
  | Some username, Some id =>
      match e_display e (view_identity r) id username with
      | None => (-1, s)
      | Some tree =>
          if displayable e s tree then
            let '(v, s) := new_view (cstr id) tree s in
            let '(old, s) :=
              match list_find (fun x => x.1 = dir) (vs_sessions s) with
              | None => (None, set_sessions ((dir, None) :: vs_sessions s) s)
              | Some (_, (_, old)) => (old, s)
              end in
            let s := match old with Some o => upd_views (alter (set_active false) o) s | None => s end in
            let '(closed, s) := view_release_locked old s in
            let s := set_sessions (set_session dir (Some v) (vs_sessions s)) s in
            (0, view_queue_close closed s)
          else (-1, s)
      end
  | _, _ => (-1, s)
  end.

(** Clears the view of the first session of [dir] that has one. *)
Fixpoint clear_session (dir : file) (l : list (file * option vid)) : list (file * option vid) :=
  match l with
  | [] => []
  | (d, Some v) :: l => if decide (d = dir) then (d, None) :: l else (d, Some v) :: clear_session dir l
  | x :: l => x :: clear_session dir l
  end.

Definition o9_view_session_close (dir : file) (s : vstate) : vstate :=
  match list_find (fun x => x.1 = dir /\ is_Some x.2) (vs_sessions s) with
  | Some (_, (_, Some v)) =>
      let s := upd_views (alter (set_active false) v) s in
      let '(closed, s) := view_release_locked (Some v) s in
      view_queue_close closed (set_sessions (clear_session dir (vs_sessions s)) s)
  | _ => s
  end.

(** ** Attach, clone, clunk *)

Definition view_authorize_fixed (e : env) (f : fid) (c : O9ViewFid) (x : file) : option Z :=
  match e_guard e with
  | None => Some 0
  | Some guard => guard f x (c_generation c)
  end.

(** The file that a context is authorised at. *)
Definition guarded_file (c : O9ViewFid) : option file :=
  match c_kind c with VF_TREE => c_view_parent c | VF_FIXED => c_fixed c end.

Definition authorized (e : env) (f : fid) (c : O9ViewFid) : bool :=
  match guarded_file c with
  | None => false
  | Some x => bool_decide (is_Some (view_authorize_fixed e f c x))
  end.

(** [auth]: the fid is one of the authentication protocol. *)
Definition o9_view_authorize (e : env) (auth : bool) (f : fid) (s : vstate) : bool :=
  auth || match vs_fids s !! f with Some c => authorized e f c | None => false end.

Definition set_ctx (f : fid) (c : O9ViewFid) (s : vstate) : vstate := upd_fids (<[f := c]>) s.

Definition ctx_with_view (v : option vid) (c : O9ViewFid) : O9ViewFid :=
  MkVf (c_kind c) (c_generation c) v (c_fixed c) (c_view_parent c) (c_stage c) (c_entry c) (c_stack c) (c_path c) (c_listing c) (c_rootdir c).
Definition ctx_at_fixed (fx : option file) (gen : Z) (c : O9ViewFid) : O9ViewFid :=
  MkVf (c_kind c) gen (c_view c) fx (c_view_parent c) (c_stage c) (c_entry c) (c_stack c) (c_path c) (c_listing c) (c_rootdir c).

(** [file] is the fid's file, with the reference that lib9p took. *)
Definition o9_view_attach (e : env) (r : request) (f : fid) (fixed : option file) (id : ostring) (s : vstate)
    : Z * vstate :=
  if bool_decide (view_root (vs_cfg s) = None) then (-1, s) else
  let c := ctx_at_fixed fixed 0 (view_ctx VF_FIXED) in
  let s := set_ctx f c (file_ref 1 fixed s) in
  if bool_decide (view_controller (vs_cfg s) = None) || view_session_mode (vs_cfg s) then (0, s) else
  let username := (view_identity r).1 in
  match id with
  | None => (-1, s)
  | Some id =>
      match e_display e (view_identity r) id username with
      | None => (0, s)
      | Some tree =>
          if displayable e s tree then
            let '(v, s) := new_view (cstr id) tree s in
            (0, set_ctx f (ctx_with_view (Some v) c) s)
          else (-1, s)
      end
  end.

Definition o9_view_clone (f newf : fid) (s : vstate) : option string * vstate :=
  match vs_fids s !! f with
  | None => (Some "bad view fid"%string, s)
  | Some src =>
      let dst := MkVf (c_kind src) (c_generation src) (c_view src) (c_fixed src) (c_view_parent src) 0 (c_entry src)
                   (c_stack src) (c_path src) [] false in
      let s := match c_view src with Some v => view_retain v s | None => s end in
      let s := file_ref 1 (c_fixed src) s in
      let s := file_ref 1 (c_view_parent src) s in
      (None, set_ctx newf dst s)
  end.

Definition o9_view_destroyfid (f : fid) (s : vstate) : vstate :=
  match vs_fids s !! f with
  | None => s
  | Some c => upd_fids (delete f) (view_ctx_free c s)
  end.

(** ** The handlers of the facade

    They find the file and the [aux] that lib9p would have given them, and may
    leave others: a new file comes with a reference of its own. *)

Definition o9_view_enter_fixed (f : fid) (s : vstate) : option O9ViewFid * vstate :=
  match vs_fids s !! f with
  | None => (None, s)
  | Some c =>
      if decide (c_kind c = VF_FIXED) then
        (Some c, upd_in (<[f := MkEntered c (c_fixed c) (c_stage c)]>) (upd_fids (delete f) s))
      else (None, s)
  end.

(** What the handler does to the fid in between. *)
Definition handler_moves (f : fid) (file : option file) (aux : Z) (s : vstate) : vstate :=
  match vs_in s !! f with
  | None => s
  | Some i => upd_in (<[f := MkEntered (in_ctx i) file aux]>) (if decide (file = c_fixed (in_ctx i)) then s else file_ref 1 file s)
  end.

Definition o9_view_leave_fixed (f : fid) (s : vstate) : vstate :=
  match vs_in s !! f with
  | None => s
  | Some i =>
      let c := in_ctx i in
      let s := if decide (c_fixed c = in_file i) then s else file_ref (-1) (c_fixed c) s in
      upd_fids (<[f := MkVf (c_kind c) (c_generation c) (c_view c) (in_file i) (c_view_parent c) (in_aux i) (c_entry c)
                         (c_stack c) (c_path c) (c_listing c) (c_rootdir c)]>) (upd_in (delete f) s)
  end.

Definition o9_view_request_file (f : fid) (s : vstate) : option file :=
  match vs_in s !! f with
  | Some i => in_file i
  | None => match vs_fids s !! f with
            | Some c => if decide (c_kind c = VF_FIXED) then c_fixed c else None
            | None => None
            end
  end.

(** Revokes the view of the context that the handler has entered with. *)
Definition o9_view_close (f : fid) (s : vstate) : Z * vstate :=
  match vs_in s !! f with
  | None => (-1, s)
  | Some i => match c_view (in_ctx i) with
              | None => (-1, s)
              | Some v => (0, upd_views (alter (set_active false) v) s)
              end
  end.

(** ** Walk *)

Definition QTDIR : Z := 128.

(** The qid's path and type. *)
Definition view_qid (t : fts) (e : positive) : Z * Z :=
  (Z.lor (2 ^ 62) (u64 (o9_filetree_id t e + 16)), if decide (o9_filetree_kind t e = O9FT_DIR) then QTDIR else 0).

Definition entry_name (t : fts) (e : positive) : bytes := default [] (o9_filetree_name t e).

Definition view_push (t : fts) (e : positive) (c : O9ViewFid) : O9ViewFid :=
  let name := entry_name t e in
  MkVf (c_kind c) (c_generation c) (c_view c) (c_fixed c) (c_view_parent c) (c_stage c) (Some e) (e :: c_stack c)
    (if decide (c_path c = []) then name else c_path c ++ x2f :: name) (c_listing c) (c_rootdir c).

(** The text before the last slash, nothing without one ([strrchr]). *)
Fixpoint before_last (p : bytes) : option bytes :=
  match p with
  | [] => None
  | c :: p' => match before_last p' with
               | Some q => Some (c :: q)
               | None => if decide (c = x2f) then Some [] else None
               end
  end.

Definition view_pop (t : fts) (tree : positive) (c : O9ViewFid) : O9ViewFid :=
  match c_stack c with
  | [] => c
  | _ :: st =>
      MkVf (c_kind c) (c_generation c) (c_view c) (c_fixed c) (c_view_parent c) (c_stage c)
        (match st with e :: _ => Some e | [] => o9_filetree_root t tree end) st
        (default [] (before_last (c_path c))) (c_listing c) (c_rootdir c)
  end.

(** What a walk in the facade does with the session's view. *)
Definition walk_session (e : env) (f : file) (c : O9ViewFid) (s : vstate) : O9ViewFid * vstate :=
  if view_session_mode (vs_cfg s) then
    let '(v, s) :=
      if decide (file_parent e f = view_root (vs_cfg s)) then view_session_lookup f s else (None, s) in
    match v with
    | Some v => (ctx_with_view (Some v) c, (view_release_locked (c_view c) s).2)
    | None =>
        if decide (Some f = view_root (vs_cfg s)) then (ctx_with_view None c, (view_release_locked (c_view c) s).2)
        else (c, s)
    end
  else (c, s).

Inductive walked := WErr (e : string) | WFixed (f : file) | WTree (path type : Z) | WSame.

(** The qid of the entry a context is at. *)
Definition at_entry (t : fts) (e : option positive) : walked :=
  let q := match e with Some e => view_qid t e | None => (2 ^ 62, 0) end in WTree q.1 q.2.

Definition ctx_in_tree (gen : Z) (old : file) (root : option positive) (c : O9ViewFid) : O9ViewFid :=
  MkVf VF_TREE gen (c_view c) None (Some old) (c_stage c) root (c_stack c) (c_path c) (c_listing c) (c_rootdir c).
Definition ctx_out_of_tree (c : O9ViewFid) : O9ViewFid :=
  MkVf VF_FIXED (c_generation c) (c_view c) (c_view_parent c) None (c_stage c) None (c_stack c) (c_path c) (c_listing c)
    (c_rootdir c).

(** A walk from a file of the facade; [walkfile] takes the reference given to it. *)
Definition walk_fixed (e : env) (f : fid) (c : O9ViewFid) (old : file) (name : bytes) (s : vstate) : walked * vstate :=
  if bool_decide (name = str "view") &&
     (bool_decide (Some old = view_root (vs_cfg s)) || negb (c_generation c =? 0)) then
    match e_walk e old name with
    | None => (WErr "not found", s)
    | Some x =>
        match view_authorize_fixed e f c x with
        | None => (WErr "permission denied", s)
        | Some gen =>
            match view_of s c with
            | None => (WErr "view unavailable", s)
            | Some v =>
                if v_active v then
                  let root := o9_filetree_root (e_trees e) (v_tree v) in
                  (at_entry (e_trees e) root, set_ctx f (ctx_in_tree gen old root c) s)
                else (WErr "view unavailable", s)
            end
        end
    end
  else
    match e_walk e old name with
    | None => (WErr "not found", s)
    | Some x =>
        match view_authorize_fixed e f c x with
        | None => (WErr "permission denied", s)
        | Some gen =>
            let s := file_ref (-1) (Some old) (file_ref 1 (Some x) s) in
            let '(c, s) := walk_session e x (ctx_at_fixed (Some x) gen c) s in
            (WFixed x, set_ctx f c s)
        end
    end.

(** A walk from an entry of a view's tree. *)
Definition walk_view (e : env) (f : fid) (c : O9ViewFid) (v : O9View) (name : bytes) (s : vstate) : walked * vstate :=
  if bool_decide (name = str "..") then
    match c_stack c with
    | [] => (match c_view_parent c with Some x => WFixed x | None => WSame end, set_ctx f (ctx_out_of_tree c) s)
    | _ => let c := view_pop (e_trees e) (v_tree v) c in (at_entry (e_trees e) (c_entry c), set_ctx f c s)
    end
  else
    match c_entry c ≫= fun dir => o9_filetree_lookup (e_trees e) (v_tree v) dir name with
    | None => (WErr "not found", s)
    | Some x => (at_entry (e_trees e) (Some x), set_ctx f (view_push (e_trees e) x c) s)
    end.

Definition o9_view_walk1 (e : env) (f : fid) (name : bytes) (s : vstate) : walked * vstate :=
  match vs_fids s !! f with
  | None => (WErr "bad view fid", s)
  | Some c =>
      if bool_decide (name = str ".") then (if authorized e f c then WSame else WErr "permission denied", s)
      else match c_kind c with
      | VF_FIXED =>
          match c_fixed c with
          | Some old => if authorized e f c then walk_fixed e f c old name s else (WErr "permission denied", s)
          | None => (WErr "permission denied", s)
          end
      | VF_TREE =>
          match view_of s c with
          | None => (WErr "view closed", s)
          | Some v =>
              if negb (v_active v && o9_filetree_alive (e_trees e) (v_tree v)) then (WErr "view closed", s)
              else if negb (authorized e f c) then (WErr "permission denied", s)
              else walk_view e f c v name s
          end
      end
  end.

(** ** Requests

    [None]: the request is for the handlers of the facade.  The generator of a
    directory read is run to its end; the window of the answer that a read asks
    for is cut by lib9p. *)

Inductive reply := RErr (e : string) | ROk | RDirs (l : list Dir) | RFixedDir (f : file) | RData (s : bytes)
                 | RCount (n : Z) | RStat (d : Dir).

Definition OTRUNC : Z := 16.
Definition DMDIR : Z := 2 ^ 31.

Definition isdir (e : env) (f : file) : bool := negb (Z.land (d_type (file_dir e f)) QTDIR =? 0).
Definition kind_of (t : fts) (c : O9ViewFid) : Z := match c_entry c with Some e => o9_filetree_kind t e | None => 0 end.
Definition writable (t : fts) (c : O9ViewFid) : bool :=
  match c_entry c with Some e => negb (o9_filetree_writable t e =? 0) | None => false end.

(** The view of a context that is in a tree, while both trees are alive. *)
Definition view_valid (e : env) (s : vstate) (c : O9ViewFid) : bool :=
  match c_kind c with
  | VF_FIXED => true
  | VF_TREE =>
      match view_of s c with
      | None => false
      | Some v => v_active v && o9_filetree_alive (e_trees e) (v_tree v) &&
                  match c_entry c ≫= o9_filetree_entry_tree (e_trees e) with
                  | Some t => o9_filetree_alive (e_trees e) t
                  | None => false
                  end
      end
  end.

Definition view_id (s : vstate) (c : O9ViewFid) : bytes := match view_of s c with Some v => v_id v | None => [] end.
Definition view_tree (s : vstate) (c : O9ViewFid) : positive := match view_of s c with Some v => v_tree v | None => 1 end.

Definition view_live_read (e : env) (r : request) (s : vstate) (c : O9ViewFid) : ostring :=
  e_read e (view_identity r) (view_id s c) (c_path c).
Definition view_live_write (e : env) (r : request) (s : vstate) (c : O9ViewFid) (offset : Z) (data : bytes)
    (truncate : bool) : Z :=
  default (-1) (e_write e (view_identity r) (view_id s c) (c_path c) offset data truncate).

Definition view_fill_dir (e : env) (tree entry : positive) (name : bytes) : Dir :=
  let t := e_trees e in
  let q := view_qid t entry in
  let mode := if Z.land q.2 QTDIR =? 0 then 292 (* 0444 *) else Z.lor DMDIR 365 (* 0555 *) in
  let mode := if o9_filetree_writable t entry =? 0 then mode else 438 (* 0666 *) in
  let len := if decide (o9_filetree_kind t entry = O9FT_TEXT)
             then match o9_filetree_data t tree entry with Some d => Z.of_nat (length d) | None => 0 end else 0 in
  MkDir q.1 q.2 name (str "o9") (str "o9") (str "o9") mode len (e_time e).

Definition view_dirgen (e : env) (tree : positive) (c : O9ViewFid) (index : Z) : option Dir :=
  if (index <? 0) || (Z.of_nat (length (c_listing c)) <=? index) then None else
  match c_listing c !! Z.to_nat index with
  | Some x => Some (view_fill_dir e tree x (entry_name (e_trees e) x))
  | None => None
  end.

Definition view_root_dirgen (e : env) (root : file) (index : Z) : option Dir :=
  match (if index =? 0 then Some (str "clone") else if index =? 1 then Some (str "methods") else None) with
  | None => None
  | Some name => match e_walk e root name with Some f => Some (file_dir e f) | None => None end
  end.

(** A generator's entries, up to the first it does not have. *)
Fixpoint dirread (gen : Z -> option Dir) (n : nat) (index : Z) : list Dir :=
  match n with
  | O => []
  | S n => match gen index with Some d => d :: dirread gen n (index + 1) | None => [] end
  end.

Definition set_rootdir (b : bool) (c : O9ViewFid) : O9ViewFid :=
  MkVf (c_kind c) (c_generation c) (c_view c) (c_fixed c) (c_view_parent c) (c_stage c) (c_entry c) (c_stack c) (c_path c)
    (c_listing c) b.
Definition set_listing (l : list positive) (c : O9ViewFid) : O9ViewFid :=
  MkVf (c_kind c) (c_generation c) (c_view c) (c_fixed c) (c_view_parent c) (c_stage c) (c_entry c) (c_stack c) (c_path c)
    l (c_rootdir c).

Definition fixed_is (P : file -> bool) (c : O9ViewFid) : bool := match c_fixed c with Some x => P x | None => false end.
Definition at_root (s : vstate) (c : O9ViewFid) : bool := bool_decide (c_fixed c = view_root (vs_cfg s)).

(** The last part of an open: the directory is opened. *)
Definition open_dir (e : env) (f : fid) (c : O9ViewFid) (s : vstate) : option reply * vstate :=
  match c_kind c with
  | VF_FIXED =>
      if view_session_mode (vs_cfg s) && at_root s c then (Some ROk, s)
      else let ok := fixed_is (e_opens e) c in
           (Some (if ok then ROk else RErr "directory failed"), set_ctx f (set_rootdir ok c) s)
  | VF_TREE =>
      if decide (kind_of (e_trees e) c = O9FT_DIR) then
        match c_entry c ≫= o9_filetree_entries (e_trees e) (view_tree s c) with
        | Some l => (Some ROk, set_ctx f (set_listing l c) s)
        | None => (Some (RErr "directory failed"), set_ctx f (set_listing [] c) s)
        end
      else (Some ROk, s)
  end.

Definition o9_view_open (e : env) (r : request) (f : fid) (imode : Z) (s : vstate) : option reply * vstate :=
  match vs_fids s !! f with
  | None => (None, s)
  | Some c =>
      if negb (authorized e f c) then (Some (RErr "permission denied"), s)
      else if bool_decide (c_kind c = VF_FIXED) && negb (fixed_is (isdir e) c) then (None, s)
      else if negb (view_valid e s c) then (Some (RErr "view closed"), s)
      else
        let mode := Z.land imode 3 in
        let trunc := negb (Z.land imode OTRUNC =? 0) in
        let dir := bool_decide (c_kind c = VF_FIXED) || bool_decide (kind_of (e_trees e) c = O9FT_DIR) in
        if dir && negb (mode =? 0) then (Some (RErr "directory is read only"), s)
        else if negb dir && ((mode =? 1) || (mode =? 2) || trunc) && negb (writable (e_trees e) c)
        then (Some (RErr "read only"), s)
        else if negb dir && trunc && (view_live_write e r s c 0 [] true <? 0) then (Some (RErr "write failed"), s)
        else open_dir e f c s
  end.

Definition o9_view_read (e : env) (r : request) (f : fid) (s : vstate) : option reply :=
  match vs_fids s !! f with
  | None => None
  | Some c =>
      if negb (authorized e f c) then Some (RErr "permission denied")
      else if bool_decide (c_kind c = VF_FIXED) && negb (at_root s c) && negb (fixed_is (isdir e) c) then None
      else if negb (view_valid e s c) then Some (RErr "view closed")
      else match c_kind c with
      | VF_FIXED =>
          match c_fixed c with
          | None => None
          | Some x =>
              if view_session_mode (vs_cfg s) && at_root s c then Some (RDirs (dirread (view_root_dirgen e x) 3 0))
              else if c_rootdir c then Some (RFixedDir x) else Some (RErr "directory not open")
          end
      | VF_TREE =>
          if decide (kind_of (e_trees e) c = O9FT_DIR) then
            Some (RDirs (dirread (view_dirgen e (view_tree s c) c) (S (length (c_listing c))) 0))
          else
            match (if decide (kind_of (e_trees e) c = O9FT_TEXT)
                   then c_entry c ≫= o9_filetree_data (e_trees e) (view_tree s c)
                   else view_live_read e r s c) with
            | None => Some (RErr "read failed")
            | Some data => Some (RData data)
            end
      end
  end.

Definition o9_view_write (e : env) (r : request) (f : fid) (offset : Z) (data : bytes) (s : vstate) : option reply :=
  match vs_fids s !! f with
  | None => None
  | Some c =>
      if negb (authorized e f c) then Some (RErr "permission denied")
      else match c_kind c with
      | VF_FIXED => None
      | VF_TREE =>
          if negb (view_valid e s c) then Some (RErr "view closed")
          else if bool_decide (kind_of (e_trees e) c = O9FT_DIR) || negb (writable (e_trees e) c)
          then Some (RErr "write prohibited")
          else
            let n := view_live_write e r s c offset data false in
            if (n <? 0) || (Z.of_nat (length data) <? n) then Some (RErr "write failed") else Some (RCount n)
      end
  end.

Definition o9_view_remove : reply := RErr "remove prohibited".

Definition o9_view_stat (e : env) (f : fid) (s : vstate) : reply :=
  match vs_fids s !! f with
  | None => RErr "permission denied"
  | Some c =>
      if negb (authorized e f c) then RErr "permission denied"
      else if negb (view_valid e s c) then RErr "view closed"
      else match c_kind c with
      | VF_FIXED => match c_fixed c with Some x => RStat (file_dir e x) | None => RErr "permission denied" end
      | VF_TREE =>
          let x := default 1%positive (c_entry c) in
          let name := match c_stack c with [] => str "view" | _ => entry_name (e_trees e) x end in
          RStat (view_fill_dir e (view_tree s c) x name)
      end
  end.
