(* ===== verification/ViewSpec.v ===== *)
(** * The states of displayed views

    The steps that the requests, the set-up calls and the facade's handlers
    take, the invariant they keep (counts of views and files, paths of
    contexts) and the order in which views age. *)
From S2P Require Import Prelude O9Str FileTree FileTreeSpec View.

Open Scope Z_scope.

(** ** Occurrences in a list *)

Section occurrences.
Context {A : Type} `{EqDecision A}.

Definition occ (x : A) (l : list A) : Z := Z.of_nat (length (filter (x =.) l)).

Lemma occ_cons x y l : occ x (y :: l) = (if decide (x = y) then 1 else 0) + occ x l.
Proof. unfold occ. rewrite filter_cons. repeat case_decide; simpl; lia. Qed.

Lemma occ_nil x : occ x [] = 0.
Proof. done. Qed.

Lemma occ_app x l k : occ x (l ++ k) = occ x l + occ x k.
Proof. unfold occ. rewrite filter_app, length_app. lia. Qed.

Lemma occ_perm x l k : l ≡ₚ k -> occ x l = occ x k.
Proof. intros H. unfold occ. by rewrite H. Qed.

Lemma occ_nonneg x l : 0 <= occ x l.
Proof. unfold occ. lia. Qed.

Lemma occ_pos x l : x ∈ l <-> 0 < occ x l.
Proof.
  induction l as [|y l IH]; [split; [set_solver | unfold occ; simpl; lia]|].
  rewrite elem_of_cons, occ_cons, IH. pose proof (occ_nonneg x l). case_decide; split; try tauto; try lia.
Qed.

Lemma occ_zero x l : x ∉ l <-> occ x l = 0.
Proof. rewrite occ_pos. pose proof (occ_nonneg x l). lia. Qed.

Lemma occ_one x y : occ x [y] = if decide (x = y) then 1 else 0.
Proof. rewrite occ_cons. unfold occ at 1. simpl. lia. Qed.

(** What the values of a map hold. *)
Definition gather {V} (g : V -> list A) (m : gmap positive V) : list A := (map_to_list m).*2 ≫= g.

Lemma occ_gather_put {V} (g : V -> list A) m f c x : m !! f = None ->
  occ x (gather g (<[f := c]> m)) = occ x (g c) + occ x (gather g m).
Proof.
  intros H. rewrite <- occ_app. apply occ_perm. unfold gather.
  by rewrite (map_to_list_insert m f c H).
Qed.

Lemma occ_gather_delete {V} (g : V -> list A) m f c x : m !! f = Some c ->
  occ x (gather g (delete f m)) = occ x (gather g m) - occ x (g c).
Proof.
  intros H. pose proof (occ_gather_put g (delete f m) f c x ltac:(apply lookup_delete_eq)) as E.
  rewrite insert_delete_id in E by done. lia.
Qed.

Lemma occ_gather_set {V} (g : V -> list A) m f c c' x : m !! f = Some c ->
  occ x (gather g (<[f := c']> m)) = occ x (g c') + occ x (gather g m) - occ x (g c).
Proof.
  intros H. rewrite <- (insert_delete_eq m f c'), occ_gather_put by apply lookup_delete_eq.
  rewrite (occ_gather_delete g m f c x H). lia.
Qed.
End occurrences.

Ltac counts :=
  simpl; repeat change (list_omap ?a ?b ?f ?l) with (omap (M := list) (A := a) (B := b) f l); rewrite ?occ_app, ?occ_cons, ?occ_nil; simpl; rewrite ?occ_nil.

(** ** The steps *)

Inductive view_op :=
| VSetup (root : option positive) | VMode (n : Z) | VNotify (n : Z) | VRegister (o : option (option Z * Z))
| VStart (r : request) (dir : positive) (id : ostring) | VSessionClose (dir : positive)
| VAttach (r : request) (f : positive) (file : option positive) (id : ostring)
| VClone (f newf : positive) | VDestroy (f : positive)
| VEnter (f : positive) | VMoves (f : positive) (file : option positive) (aux : Z) | VLeave (f : positive)
| VClose (f : positive) | VWalk (f : positive) (name : bytes) | VOpen (r : request) (f : positive) (imode : Z).

Definition view_do (e : env) (op : view_op) (s : vstate) : vstate :=
  match op with
  | VSetup root => o9_view_setup root s
  | VMode n => o9_view_set_session_mode n s
  | VNotify n => o9_view_set_close_notify n s
  | VRegister o => (o9_view_register_controller o s).2
  | VStart r dir id => (o9_view_session_start e r dir id s).2
  | VSessionClose dir => o9_view_session_close dir s
  | VAttach r f x id => (o9_view_attach e r f x id s).2
  | VClone f newf => (o9_view_clone f newf s).2
  | VDestroy f => o9_view_destroyfid f s
  | VEnter f => (o9_view_enter_fixed f s).2
  | VMoves f x aux => handler_moves f x aux s
  | VLeave f => o9_view_leave_fixed f s
  | VClose f => (o9_view_close f s).2
  | VWalk f name => (o9_view_walk1 e f name s).2
  | VOpen r f imode => (o9_view_open e r f imode s).2
  end.

Definition fresh_fid (s : vstate) (f : positive) : Prop := vs_fids s !! f = None /\ vs_in s !! f = None.

(** lib9p attaches and clones to a fid that is not in use; a handler that
    moves its fid does so once. *)
Definition allowed (op : view_op) (s : vstate) : Prop :=
  match op with
  | VAttach _ f _ _ => fresh_fid s f
  | VClone _ newf => fresh_fid s newf
  | VMoves f _ _ => forall i, vs_in s !! f = Some i -> in_file i = c_fixed (in_ctx i)
  | _ => True
  end.

Inductive view_step (s : vstate) : vstate -> Prop :=
| view_step_intro e op : ft_reach (e_trees e) -> allowed op s -> view_step s (view_do e op s).

Definition view_reach (s : vstate) : Prop := rtc view_step vstate0 s.

(** ** Holders *)

Definition ctx_views (c : O9ViewFid) : list positive := option_list (c_view c).
Definition in_views (i : entered) : list positive := ctx_views (in_ctx i).
Definition view_holders (s : vstate) : list positive :=
  gather ctx_views (vs_fids s) ++ gather in_views (vs_in s) ++ omap snd (vs_sessions s).

Definition ctx_files (c : O9ViewFid) : list positive := option_list (c_fixed c) ++ option_list (c_view_parent c).
Definition in_files (i : entered) : list positive :=
  ctx_files (in_ctx i) ++ (if decide (in_file i = c_fixed (in_ctx i)) then [] else option_list (in_file i)).

Definition file_holders (s : vstate) : list positive := gather ctx_files (vs_fids s) ++ gather in_files (vs_in s).

(** A map of views or files agrees with the numbers [h] of their holders. *)
Record views_ok (h : positive -> Z) (m : gmap positive O9View) (fresh : positive) : Prop := {
  vo_refs v w : m !! v = Some w -> v_refs w = h v /\ 0 < v_refs w /\ (v < fresh)%positive;
  vo_held v : m !! v = None -> h v = 0;
}.

Definition files_ok (h : positive -> Z) (m : gmap positive Z) : Prop := forall f, default 0 (m !! f) = h f.

(** A path of names, the last one first, none with a slash. *)
Fixpoint join (names : list bytes) : bytes :=
  match names with
  | [] => []
  | [n] => n
  | n :: names => join names ++ x2f :: n
  end.

Definition plain_name (n : bytes) : Prop := n <> [] /\ x2f ∉ n.

Definition ctx_ok (c : O9ViewFid) : Prop :=
  (exists names, Forall plain_name names /\ length names = length (c_stack c) /\ c_path c = join names) /\
  match c_kind c with
  | VF_FIXED => c_view_parent c = None /\ c_entry c = None /\ c_stack c = []
  | VF_TREE => is_Some (c_view_parent c) /\ c_fixed c = None /\ is_Some (c_view c)
  end.

Record view_inv (s : vstate) : Prop := {
  vi_views : views_ok (fun v => occ v (view_holders s)) (vs_views s) (vs_fresh s);
  vi_files : files_ok (fun f => occ f (file_holders s)) (vs_frefs s);
  vi_apart f : is_Some (vs_fids s !! f) -> vs_in s !! f = None;
  vi_ctxs f c : vs_fids s !! f = Some c -> ctx_ok c;
  vi_in f i : vs_in s !! f = Some i -> ctx_ok (in_ctx i) /\ c_kind (in_ctx i) = VF_FIXED;
}.

(** ** Counting *)

Lemma views_ext h h' m fr : (forall v, h v = h' v) -> views_ok h m fr -> views_ok h' m fr.
Proof. intros E [H1 H2]. split; intros v; rewrite <- E; auto. Qed.

Lemma views_active h m fr v b : views_ok h m fr -> views_ok h (alter (set_active b) v m) fr.
Proof.
  intros [H1 H2]. split; intros x.
  - intros w. destruct (decide (x = v)) as [->|].
    + rewrite lookup_alter_eq. intros [w' [E ->]]%fmap_Some. by apply H1 in E.
    + rewrite lookup_alter_ne by done. apply H1.
  - rewrite lookup_alter_None. apply H2.
Qed.

Lemma views_retain h m fr v : views_ok h m fr -> is_Some (m !! v) ->
  views_ok (fun x => h x + occ x [v]) (alter (fun w => set_refs (v_refs w + 1) w) v m) fr.
Proof.
  intros [H1 H2] [w E]. split; intros x; rewrite occ_one.
  - intros w'. destruct (decide (x = v)) as [->|].
    + rewrite lookup_alter_eq, E. intros [= <-]. apply H1 in E as (? & ? & ?). simpl. repeat split; try lia; done.
    + rewrite lookup_alter_ne by done. intros (? & ? & ?)%H1. repeat split; try lia; done.
  - rewrite lookup_alter_None. intros N. rewrite H2 by done. case_decide; [congruence | lia].
Qed.

Lemma views_new h m fr id tree : views_ok h m fr ->
  views_ok (fun x => h x + occ x [fr]) (<[fr := MkView id tree true 1]> m) (fr + 1)%positive.
Proof.
  intros [H1 H2]. assert (Hn : m !! fr = None) by (destruct (m !! fr) as [w|] eqn:E; [apply H1 in E; lia | done]).
  split; intros x; rewrite occ_one.
  - intros w. destruct (decide (x = fr)) as [->|].
    + rewrite lookup_insert_eq. intros [= <-]. rewrite (H2 _ Hn). simpl. lia.
    + rewrite lookup_insert_ne by done. intros (? & ? & ?)%H1. repeat split; try lia; done.
  - rewrite lookup_insert_None. intros [N ?]. rewrite H2 by done. case_decide; [congruence | lia].
Qed.

(** A release changes the map only, and the id is reported when the view goes. *)
Lemma release_form v s : exists m, (view_release_locked v s).2 = upd_views (fun _ => m) s /\
  (forall h, views_ok h (vs_views s) (vs_fresh s) -> (forall x, v = Some x -> is_Some (vs_views s !! x)) ->
    views_ok (fun x => h x - occ x (option_list v)) m (vs_fresh s)) /\
  (forall x w, m !! x = Some w -> exists w', vs_views s !! x = Some w' /\ v_active w = v_active w').
Proof.
  destruct v as [v|]; simpl.
  2: { exists (vs_views s). split; [by destruct s|]. split; [|by eauto]. intros h H _. eapply views_ext; [|done]. intros x. counts. lia. }
  destruct (vs_views s !! v) as [w|] eqn:E.
  2: { exists (vs_views s). split; [by destruct s|]. split; [|by eauto]. intros h H Hs. destruct (Hs v eq_refl). congruence. }
  case_decide as D; (eexists; split; [by destruct s|]; split; [intros h [H1 H2] _; split; intros x; rewrite occ_one|]).
  - intros w'. rewrite lookup_delete_Some. intros [? (? & ? & ?)%H1]. case_decide; [congruence|]. repeat split; try lia; done.
  - rewrite lookup_delete_None. apply H1 in E as (? & ? & ?). case_decide; [subst; lia|].
    intros [->|N]; [done|]. rewrite (H2 _ N). lia.
  - intros x w'. rewrite lookup_delete_Some. by intros [? ?]; eauto.
  - intros w'. apply H1 in E as (? & ? & ?). destruct (decide (x = v)) as [->|].
    + rewrite lookup_insert_eq. intros [= <-]. simpl. repeat split; try lia; done.
    + rewrite lookup_insert_ne by done. intros (? & ? & ?)%H1. repeat split; try lia; done.
  - rewrite lookup_insert_None. intros [N ?]. rewrite (H2 _ N). case_decide; [congruence | lia].
  - intros x w'. destruct (decide (x = v)) as [->|].
    + rewrite lookup_insert_eq. intros [= <-]. eauto.
    + rewrite lookup_insert_ne by done. eauto.
Qed.

Lemma files_count n h m f : files_ok h m -> files_ok (fun x => h x + n * occ x (option_list f)) (file_count n f m).
Proof.
  intros H x. destruct f as [f|]; simpl; rewrite ?occ_one, <- (H x).
  - case_decide as D; [subst; rewrite lookup_insert_eq | rewrite lookup_insert_ne by done]; simpl; lia.
  - rewrite occ_nil. lia.
Qed.

Lemma files_ext h h' m : (forall f, h f = h' f) -> files_ok h m -> files_ok h' m.
Proof. intros E H f. by rewrite <- E. Qed.

(** ** Sessions *)

Lemma found_session (dir : positive) (l : list (positive * option positive)) i x v :
  list_find (fun x => x.1 = dir /\ is_Some x.2) l = Some (i, (x, Some v)) -> v ∈ omap snd l.
Proof.
  intros (E & _ & _)%list_find_Some. apply list_elem_of_omap. exists (x, Some v). split; [|done].
  by eapply list_elem_of_lookup_2.
Qed.

Lemma set_session_occ dir v (l : list (positive * option positive)) i d old x :
  list_find (fun x => x.1 = dir) l = Some (i, (d, old)) ->
  occ x (omap snd (set_session dir (Some v) l)) = occ x (omap snd l) - occ x (option_list old) + occ x [v].
Proof.
  revert i. induction l as [|[d' o] l IH]; intros i; simpl; [done|].
  destruct (decide (d' = dir)) as [->|N].
  - intros [= <- <- <-]. destruct o; counts; lia.
  - intros [[j [d2 o2]] [E [= ? <- <-]]]%fmap_Some. specialize (IH _ E). rewrite occ_cons, occ_nil in IH.
    destruct o; counts; lia.
Qed.

Lemma clear_session_occ dir (l : list (positive * option positive)) i d v x :
  list_find (fun x => x.1 = dir /\ is_Some x.2) l = Some (i, (d, Some v)) ->
  occ x (omap snd (clear_session dir l)) = occ x (omap snd l) - occ x [v].
Proof.
  revert i. induction l as [|[d' o] l IH]; intros i; simpl; [done|].
  case_decide as D; simpl in D.
  - destruct D as [-> [o' ->]]. intros [= <- <- ->]. rewrite decide_True by done. counts. lia.
  - intros [[j [d2 o2]] [E [= ? <- <-]]]%fmap_Some. specialize (IH _ E).
    destruct o as [o|]; simpl; [|done]. rewrite decide_False by naive_solver. counts. rewrite IH. counts. lia.
Qed.

(** ** Changes of a state that keep the invariant *)

Lemma occ_gather_insert {V} (g : V -> list positive) m (f : positive) c x :
  occ x (gather g (<[f := c]> m)) = occ x (g c) + occ x (gather g m) - occ x (from_option g [] (m !! f)).
Proof.
  destruct (m !! f) as [c0|] eqn:E; simpl; [by apply occ_gather_set | rewrite occ_gather_put by done; counts; lia].
Qed.

Lemma view_holders_occ s v : occ v (view_holders s) =
  occ v (gather ctx_views (vs_fids s)) + occ v (gather in_views (vs_in s)) + occ v (omap snd (vs_sessions s)).
Proof. unfold view_holders. rewrite !occ_app. lia. Qed.

Lemma file_holders_occ s x : occ x (file_holders s) = occ x (gather ctx_files (vs_fids s)) + occ x (gather in_files (vs_in s)).
Proof. unfold file_holders. by rewrite occ_app. Qed.

(** A context is put at a fid that no handler has entered. *)
Lemma inv_put s s' f c : view_inv s -> ctx_ok c -> vs_in s !! f = None ->
  vs_fids s' = <[f := c]> (vs_fids s) -> vs_in s' = vs_in s -> vs_sessions s' = vs_sessions s ->
  views_ok (fun v => occ v (view_holders s) + occ v (ctx_views c) - occ v (from_option ctx_views [] (vs_fids s !! f)))
    (vs_views s') (vs_fresh s') ->
  files_ok (fun x => occ x (file_holders s) + occ x (ctx_files c) - occ x (from_option ctx_files [] (vs_fids s !! f)))
    (vs_frefs s') ->
  view_inv s'.
Proof.
  intros I Hc Hin Ef Ei Es Hv Hf. split.
  - eapply views_ext, Hv. intros v. simpl. rewrite !view_holders_occ, Ef, Ei, Es, occ_gather_insert. lia.
  - eapply files_ext, Hf. intros x. simpl. rewrite !file_holders_occ, Ef, Ei, occ_gather_insert. lia.
  - rewrite Ef, Ei. intros g. rewrite lookup_insert_is_Some'. intros [<-|?]; [done | by apply I].
  - rewrite Ef. intros g c'. rewrite lookup_insert_Some. intros [[_ <-]|[_ H]]; [done | by eapply vi_ctxs].
  - rewrite Ei. apply I.
Qed.

Lemma inv_delete s s' f c : view_inv s -> vs_fids s !! f = Some c ->
  vs_fids s' = delete f (vs_fids s) -> vs_in s' = vs_in s -> vs_sessions s' = vs_sessions s ->
  views_ok (fun v => occ v (view_holders s) - occ v (ctx_views c)) (vs_views s') (vs_fresh s') ->
  files_ok (fun x => occ x (file_holders s) - occ x (ctx_files c)) (vs_frefs s') -> view_inv s'.
Proof.
  intros I Hc Ef Ei Es Hv Hf. split.
  - eapply views_ext, Hv. intros v. simpl. rewrite !view_holders_occ, Ef, Ei, Es, (occ_gather_delete _ _ _ _ _ Hc). lia.
  - eapply files_ext, Hf. intros x. simpl. rewrite !file_holders_occ, Ef, Ei, (occ_gather_delete _ _ _ _ _ Hc). lia.
  - rewrite Ef, Ei. intros g [c' [_ H]%lookup_delete_Some]. apply I. eauto.
  - rewrite Ef. intros g c' [_ H]%lookup_delete_Some. by eapply vi_ctxs.
  - rewrite Ei. apply I.
Qed.

Lemma inv_sessions s s' : view_inv s ->
  vs_fids s' = vs_fids s -> vs_in s' = vs_in s -> vs_frefs s' = vs_frefs s ->
  views_ok (fun v => occ v (view_holders s) + occ v (omap snd (vs_sessions s')) - occ v (omap snd (vs_sessions s)))
    (vs_views s') (vs_fresh s') -> view_inv s'.
Proof.
  intros I Ef Ei Er Hv. split.
  - eapply views_ext, Hv. intros v. simpl. rewrite !view_holders_occ, Ef, Ei. lia.
  - rewrite Er. eapply files_ext, (vi_files _ I). intros x. by rewrite !file_holders_occ, Ef, Ei.
  - rewrite Ef, Ei. apply I.
  - rewrite Ef. apply I.
  - rewrite Ei. apply I.
Qed.

(** Only the settings and the queue change, or a view's state. *)
Lemma view_inv_same s s' : view_inv s -> vs_fids s' = vs_fids s -> vs_in s' = vs_in s -> vs_frefs s' = vs_frefs s ->
  vs_sessions s' = vs_sessions s -> vs_views s' = vs_views s \/ (exists b v, vs_views s' = alter (set_active b) v (vs_views s)) ->
  vs_fresh s' = vs_fresh s -> view_inv s'.
Proof.
  intros I Ef Ei Er Es Ev En. apply (inv_sessions s); try done. rewrite Es, En.
  eapply (views_ext (fun v => occ v (view_holders s))); [intros; lia|].
  destruct Ev as [->|(b & v & ->)]; [|apply views_active]; apply I.
Qed.

Lemma held_exists s v : view_inv s -> v ∈ view_holders s -> is_Some (vs_views s !! v).
Proof.
  intros I H. destruct (vs_views s !! v) as [w|] eqn:E; [by eexists|].
  apply (vo_held _ _ _ (vi_views _ I)) in E. apply occ_pos in H. lia.
Qed.

Lemma gather_elem {V} (g : V -> list positive) (m : gmap positive V) f c v : m !! f = Some c -> v ∈ g c -> v ∈ gather g m.
Proof.
  intros H Hv. apply occ_pos. rewrite <- (insert_delete_id m f c H), occ_gather_put by apply lookup_delete_eq.
  apply occ_pos in Hv. pose proof (occ_nonneg v (gather g (delete f m))). lia.
Qed.

Lemma ctx_view_exists s f c v : view_inv s -> vs_fids s !! f = Some c -> c_view c = Some v -> is_Some (vs_views s !! v).
Proof.
  intros I Hc Hv. apply held_exists; [done|]. unfold view_holders. rewrite elem_of_app. left.
  eapply gather_elem; [done|]. unfold ctx_views. rewrite Hv. simpl. by left.
Qed.

Lemma session_view_exists s v : view_inv s -> v ∈ omap snd (vs_sessions s) -> is_Some (vs_views s !! v).
Proof. intros I H. apply held_exists; [done|]. unfold view_holders. rewrite !elem_of_app. by right; right. Qed.

Lemma release_elim v s cl s1 : view_release_locked v s = (cl, s1) -> exists m, s1 = upd_views (fun _ => m) s /\
  (forall h, views_ok h (vs_views s) (vs_fresh s) -> (forall x, v = Some x -> is_Some (vs_views s !! x)) ->
    views_ok (fun x => h x - occ x (option_list v)) m (vs_fresh s)).
Proof. intros E. destruct (release_form v s) as (m & H & Hm & _). rewrite E in H. eauto. Qed.

(** ** The operations keep the invariant *)

Lemma inv_start_state : view_inv vstate0.
Proof.
  split; simpl; try done.
Qed.

Lemma inv_session_close dir s : view_inv s -> view_inv (o9_view_session_close dir s).
Proof.
  intros I. unfold o9_view_session_close.
  destruct (list_find _ _) as [[i [d [v|]]]|] eqn:E; [|done..].
  destruct (view_release_locked _ _) as [cl s1] eqn:R. apply release_elim in R as (m & -> & Hm).
  apply (inv_sessions s); [done..|]. simpl.
  eapply views_ext; [|apply Hm; [apply views_active, (vi_views _ I)|]].
  - intros x. simpl. rewrite (clear_session_occ dir _ _ _ _ x E). lia.
  - intros x [= <-]. simpl. apply lookup_alter_is_Some. apply session_view_exists; [done|]. by eapply found_session.
Qed.

Lemma found_dir_session (dir : positive) (l : list (positive * option positive)) i d v :
  list_find (fun x => x.1 = dir) l = Some (i, (d, Some v)) -> v ∈ omap snd l.
Proof.
  intros (E & _ & _)%list_find_Some. apply list_elem_of_omap. exists (d, Some v). split; [|done].
  by eapply list_elem_of_lookup_2.
Qed.

Lemma inv_session_start e r dir id s : view_inv s -> view_inv (o9_view_session_start e r dir id s).2.
Proof.
  intros I. unfold o9_view_session_start. case_match; [done|]. destruct (authenticated r); [|done]. destruct id as [id|]; [|done].
  destruct (e_display _ _ _ _) as [tree|]; [|done]. case_match; [|done]. simpl.
  destruct (list_find (fun x => x.1 = dir) (vs_sessions s)) as [[i [d old]]|] eqn:E.
  - set (s0 := match old with Some o => _ | None => _ end).
    destruct (view_release_locked old s0) as [cl s1] eqn:R. apply release_elim in R as (m & -> & Hm).
    assert (Hs : vs_fids s0 = vs_fids s /\ vs_in s0 = vs_in s /\ vs_frefs s0 = vs_frefs s /\ vs_sessions s0 = vs_sessions s /\
                 vs_fresh s0 = (vs_fresh s + 1)%positive) by (subst s0; by destruct old).
    destruct Hs as (H1 & H2 & H3 & H4 & H5).
    apply (inv_sessions s); [done..|]. simpl. rewrite H4, H5.
    pose proof (views_new _ _ _ (snprint 65 (cstr id)) tree (vi_views _ I)) as Hv.
    apply (views_ext (fun x => (occ x (view_holders s) + occ x [vs_fresh s]) - occ x (option_list old))); [|rewrite <- H5; apply (Hm (fun x => occ x (view_holders s) + occ x [vs_fresh s]))].
    + intros x. simpl. rewrite (set_session_occ dir (vs_fresh s) _ _ _ _ x E). lia.
    + rewrite H5. subst s0. destruct old as [o|]; [apply views_active|]; exact Hv.
    + intros x ->. subst s0. simpl. apply lookup_alter_is_Some, lookup_insert_is_Some'. right.
      apply session_view_exists; [done|]. by eapply found_dir_session.
  - apply (inv_sessions s); [done..|]. simpl. rewrite decide_True by done.
    eapply views_ext; [|apply views_new, (vi_views _ I)]. intros x. counts. lia.
Qed.

Lemma ctx_ok_start c k : c_kind c = VF_FIXED -> c_view_parent c = None -> c_entry c = None -> c_stack c = [] -> c_path c = [] ->
  k = c -> ctx_ok k.
Proof. intros E1 E2 E3 E4 E5 ->. split; [exists []; by rewrite E4, E5 | by rewrite E1]. Qed.

Lemma inv_attach e r f x id s : view_inv s -> fresh_fid s f -> view_inv (o9_view_attach e r f x id s).2.
Proof.
  intros I [Hf Hin]. unfold o9_view_attach. case_match; [done|].
  set (c := ctx_at_fixed x 0 (view_ctx VF_FIXED)).
  assert (I1 : view_inv (set_ctx f c (file_ref 1 x s))).
  { apply (inv_put s _ f c); try done; simpl; rewrite ?Hf.
    - by apply (ctx_ok_start c).
    - eapply views_ext, (vi_views _ I). intros v. unfold c, ctx_views. counts. lia.
    - eapply files_ext, files_count, (vi_files _ I). intros y. unfold c, ctx_files. counts. lia. }
  case_match; [done|]. destruct id as [id|]; [|done].
  destruct (e_display _ _ _ _) as [tree|]; [|done]. case_match; [|done]. simpl.
  apply (inv_put (set_ctx f c (file_ref 1 x s)) _ f (ctx_with_view (Some (vs_fresh s)) c)); try done; simpl; rewrite ?lookup_insert_eq.
  - by eapply (ctx_ok_start (ctx_with_view _ c)).
  - eapply views_ext; [|apply views_new, (vi_views _ I1)]. intros v. simpl. counts. unfold ctx_views, c. counts. lia.
  - eapply files_ext, (vi_files _ I1). intros y. simpl. unfold ctx_files, c. counts. lia.
Qed.

Lemma inv_clone f newf s : view_inv s -> fresh_fid s newf -> view_inv (o9_view_clone f newf s).2.
Proof.
  intros I [Hf Hin]. unfold o9_view_clone. destruct (vs_fids s !! f) as [c|] eqn:E; [|done]. simpl.
  set (dst := MkVf _ _ _ _ _ _ _ _ _ _ _). set (s1 := match c_view c with Some v => _ | None => _ end).
  assert (Hs : vs_fids s1 = vs_fids s /\ vs_in s1 = vs_in s /\ vs_frefs s1 = vs_frefs s /\ vs_sessions s1 = vs_sessions s /\
               vs_fresh s1 = vs_fresh s) by (subst s1; by destruct (c_view c)).
  destruct Hs as (H1 & H2 & H3 & H4 & H5).
  apply (inv_put s _ newf dst); simpl; rewrite ?H1, ?H2, ?H3, ?H4, ?H5, ?Hf; try done.
  - apply (vi_ctxs _ I _ _ E).
  - subst s1 dst. unfold ctx_views. simpl. destruct (c_view c) as [v|] eqn:Ev; simpl.
    + eapply views_ext; [|apply views_retain; [apply (vi_views _ I)|by eapply ctx_view_exists]]. intros x. counts. lia.
    + eapply views_ext, (vi_views _ I). intros x. counts. lia.
  - eapply files_ext; [|apply files_count, files_count, (vi_files _ I)]. intros x. simpl. unfold ctx_files. counts. lia.
Qed.

Lemma inv_destroy f s : view_inv s -> view_inv (o9_view_destroyfid f s).
Proof.
  intros I. unfold o9_view_destroyfid, view_ctx_free. destruct (vs_fids s !! f) as [c|] eqn:E; [|done].
  destruct (view_release_locked _ _) as [cl s1] eqn:R. apply release_elim in R as (m & -> & Hm).
  apply (inv_delete s _ f c); [done..| |]; simpl in *.
  - eapply views_ext; [|apply Hm; [apply (vi_views _ I)|intros x Hx; by eapply ctx_view_exists]]. done.
  - eapply files_ext; [|apply files_count, files_count, (vi_files _ I)]. intros x. simpl. unfold ctx_files. counts. lia.
Qed.

Lemma inv_enter f s : view_inv s -> view_inv (o9_view_enter_fixed f s).2.
Proof.
  intros I. unfold o9_view_enter_fixed. destruct (vs_fids s !! f) as [c|] eqn:E; [|done]. case_decide as K; [|done]. simpl.
  assert (Hin : vs_in s !! f = None) by (apply I; eauto). split; simpl.
  - eapply views_ext, (vi_views _ I). intros v. simpl. rewrite !view_holders_occ. simpl.
    rewrite (occ_gather_delete _ _ _ _ _ E), occ_gather_insert, Hin. unfold in_views. counts. lia.
  - eapply files_ext, (vi_files _ I). intros x. simpl. rewrite !file_holders_occ. simpl.
    rewrite (occ_gather_delete _ _ _ _ _ E), occ_gather_insert, Hin. unfold in_files. simpl. rewrite decide_True by done. counts. lia.
  - intros g [c' [N H]%lookup_delete_Some]. rewrite lookup_insert_ne by done. apply I. eauto.
  - intros g c' [_ H]%lookup_delete_Some. by eapply vi_ctxs.
  - intros g i. rewrite lookup_insert_Some. intros [[_ <-]|[_ H]]; [split; [by eapply vi_ctxs|done] | by eapply vi_in].
Qed.

Lemma inv_moves f x aux s : view_inv s -> allowed (VMoves f x aux) s -> view_inv (handler_moves f x aux s).
Proof.
  intros I A. unfold handler_moves. destruct (vs_in s !! f) as [i|] eqn:E; [|done]. specialize (A i E).
  set (s1 := if decide (x = c_fixed (in_ctx i)) then s else _).
  assert (Hs : vs_fids s1 = vs_fids s /\ vs_in s1 = vs_in s /\ vs_views s1 = vs_views s /\ vs_sessions s1 = vs_sessions s /\
               vs_fresh s1 = vs_fresh s) by (subst s1; by case_decide).
  destruct Hs as (H1 & H2 & H3 & H4 & H5). split; simpl; rewrite ?H1, ?H2, ?H3, ?H5.
  - eapply views_ext, (vi_views _ I). intros v. simpl. rewrite !view_holders_occ. simpl.
    rewrite H1, H2, H4, occ_gather_insert, E. simpl. unfold in_views. simpl. lia.
  - apply (files_ext (fun y => occ y (file_holders s) + occ y (if decide (x = c_fixed (in_ctx i)) then [] else option_list x))).
    { intros y. simpl. rewrite !file_holders_occ. simpl. rewrite H1, H2, occ_gather_insert, E. simpl. unfold in_files. simpl.
      rewrite (decide_True (P := in_file i = _)) by done. counts. lia. }
    subst s1. case_decide; simpl.
    + eapply files_ext, (vi_files _ I). intros y. counts. lia.
    + eapply files_ext; [|apply files_count, (vi_files _ I)]. intros y. simpl. lia.
  - intros g Hg. rewrite lookup_insert_None. split; [by apply I|]. intros <-. apply (vi_apart _ I) in Hg. congruence.
  - apply I.
  - intros g j. rewrite lookup_insert_Some. intros [[_ <-]|[_ H]]; [by apply (vi_in _ I f i) | by eapply vi_in].
Qed.

Lemma inv_leave f s : view_inv s -> view_inv (o9_view_leave_fixed f s).
Proof.
  intros I. unfold o9_view_leave_fixed. destruct (vs_in s !! f) as [i|] eqn:E; [|done].
  destruct (vi_in _ I _ _ E) as [[Hp Hk] K]. rewrite K in Hk.
  assert (Hf : vs_fids s !! f = None).
  { destruct (vs_fids s !! f) eqn:Ef; [|done]. assert (vs_in s !! f = None) by (apply I; eauto). congruence. }
  set (s1 := if decide (c_fixed (in_ctx i) = in_file i) then s else _).
  assert (Hs : vs_fids s1 = vs_fids s /\ vs_in s1 = vs_in s /\ vs_views s1 = vs_views s /\ vs_sessions s1 = vs_sessions s /\
               vs_fresh s1 = vs_fresh s) by (subst s1; by case_decide).
  destruct Hs as (H1 & H2 & H3 & H4 & H5). split; simpl; rewrite ?H1, ?H2, ?H3, ?H5.
  - eapply views_ext, (vi_views _ I). intros v. simpl. rewrite !view_holders_occ. simpl.
    rewrite H1, H2, H4, (occ_gather_delete _ _ _ _ _ E), occ_gather_insert, Hf. unfold in_views, ctx_views. counts. lia.
  - apply (files_ext (fun y => occ y (file_holders s) +
      (if decide (c_fixed (in_ctx i) = in_file i) then 0 else -1) * occ y (option_list (c_fixed (in_ctx i))))).
    { intros y. simpl. rewrite !file_holders_occ. simpl.
      rewrite H1, H2, (occ_gather_delete _ _ _ _ _ E), occ_gather_insert, Hf. unfold in_files, ctx_files. simpl.
      repeat case_decide; try congruence; counts; [|lia]. replace (in_file i) with (c_fixed (in_ctx i)) by done. lia. }
    subst s1. case_decide; simpl; [eapply files_ext, (vi_files _ I); intros y; simpl; lia | apply files_count, (vi_files _ I)].
  - intros g. rewrite lookup_insert_is_Some', lookup_delete_None. intros [<-|?]; [by left | right; by apply I].
  - intros g c. rewrite lookup_insert_Some. intros [[_ <-]|[_ H]]; [|by eapply vi_ctxs]. split; [done|]. simpl. by rewrite K.
  - intros g j [_ H]%lookup_delete_Some. by eapply vi_in.
Qed.

(** A change of a context that leaves its view and files alone. *)
Lemma inv_set s f c c' : view_inv s -> vs_fids s !! f = Some c -> ctx_ok c' -> ctx_views c' = ctx_views c ->
  ctx_files c' = ctx_files c -> view_inv (set_ctx f c' s).
Proof.
  intros I E Hc Ev Ef. apply (inv_put s _ f c'); simpl; rewrite ?E; simpl; try done.
  - apply I. eauto.
  - eapply views_ext, (vi_views _ I). intros v. simpl. rewrite Ev. lia.
  - eapply files_ext, (vi_files _ I). intros v. simpl. rewrite Ef. lia.
Qed.

Lemma view_inv_open e r f imode s : view_inv s -> view_inv (o9_view_open e r f imode s).2.
Proof.
  intros I. unfold o9_view_open, open_dir. destruct (vs_fids s !! f) as [c|] eqn:E; [|done].
  pose proof (vi_ctxs _ I _ _ E) as Hc.
  repeat (case_match; try done); simpl; by apply (inv_set _ _ c).
Qed.

(** ** The names of a tree's entries *)

(** An entry that has a parent has a name without a slash. *)
Definition name_plain (e : O9FTEntry) : Prop := is_Some (e_parent e) -> ft_name_ok (e_name e) = true.
Definition names_plain (t : fts) : Prop := map_Forall (fun _ e => name_plain e) (f_entries t).

Lemma names_alter g k (m : gmap positive O9FTEntry) : (forall e, name_plain e -> name_plain (g e)) ->
  map_Forall (fun _ e => name_plain e) m -> map_Forall (fun _ e => name_plain e) (alter g k m).
Proof.
  intros Hg H q e. destruct (decide (q = k)) as [->|].
  - rewrite lookup_alter_eq. intros [e' [E ->]]%fmap_Some. apply Hg, (H _ _ E).
  - rewrite lookup_alter_ne by done. apply H.
Qed.

Lemma parent_name_ok fuel s : forall dir p parent leaf, parent_loop fuel s dir p = Some (parent, leaf) -> ft_name_ok leaf = true.
Proof.
  induction fuel as [|fuel IH]; intros dir p parent leaf; simpl; [done|].
  destruct (strchr x2f p) as [seg [rest|]]; case_match; try done; [|by intros [= _ <-]].
  destruct (ft_find s dir seg) as [d|]; [|done]. destruct (f_entries s !! d) as [e|]; [|done]. case_match; [|done]. apply IH.
Qed.

Lemma names_put caller t path kind data w s : names_plain s -> names_plain (ft_put caller t path kind data w s).2.
Proof.
  intros H. unfold ft_put. destruct path as [pt|]; [|done]. destruct (f_trees s !! t) as [tr|]; [|done]. case_match; [done|].
  destruct (ft_parent s tr (cstr pt)) as [[parent leaf]|] eqn:Ep; [|done]. destruct (ft_find s parent leaf) as [p|]; simpl.
  - destruct (f_entries s !! p) as [e|] eqn:Ee; [|done]. case_match; [|by case_match].
    apply map_Forall_insert_2; [|done]. apply (H _ _ Ee).
  - apply names_alter; [done|]. apply map_Forall_insert_2; [|done]. intros _. simpl. unfold ft_parent in Ep.
    case_match; [done|]. by eapply parent_name_ok.
Qed.

Lemma names_step caller op s : names_plain s -> names_plain (ft_do caller op s).2.
Proof.
  intros H. destruct op; cbn [ft_do]; try (by apply names_put).
  - apply map_Forall_insert_2; [by intros []|done].
  - unfold o9_filetree_remove. repeat (case_match; try done). simpl. by do 2 (apply names_alter; [done|]).
  - unfold o9_filetree_register. by repeat (case_match; try done).
  - unfold o9_filetree_apply_specs. repeat (case_match; try done). simpl. unfold commit_plans.
    match goal with |- names_plain (foldl _ s ?ps) => generalize ps end. intros ps. clear - H. revert s H.
    induction ps as [|p ps IH]; intros s0 H0; simpl; [done|]. apply IH. by apply names_alter.
  - unfold o9_filetree_revoke. by case_match.
  - unfold o9_filetree_close, o9_filetree_revoke. by repeat case_match.
  - unfold o9_filetree_destroy. repeat (case_match; try done). simpl. unfold names_plain. simpl.
    match goal with |- map_Forall _ (foldr delete _ ?k) => induction k as [|? ? IH] end; simpl; [done|]. by apply map_Forall_delete.
Qed.

Lemma names_reach s : ft_reach s -> names_plain s.
Proof.
  intros [ops ->]. unfold ft_run. assert (H : names_plain fts0) by (by intros ? ?). revert H. generalize fts0.
  induction ops as [|[c op] ops IH]; intros s H; [done|]. cbn [foldl]. apply IH. by apply names_step.
Qed.

Lemma lookup_mount_named fuel s name : ft_wf s -> forall dir x, ft_lookup_mount fuel s dir name = Some x ->
  exists e, f_entries s !! x = Some e /\ e_name e = name /\ is_Some (e_parent e).
Proof.
  intros W. induction fuel as [|fuel IH]; intros dir x; [done|]. cbn [ft_lookup_mount].
  destruct (live_dir s dir) as [d|]; [|done].
  set (look := fun m => match source_root s m with Some r => ft_lookup_mount fuel s r name | None => None end).
  assert (Hl : forall ms, first_some look ms = Some x -> exists e, f_entries s !! x = Some e /\ e_name e = name /\ is_Some (e_parent e)).
  { induction ms as [|m ms IHms]; simpl; [done|]. unfold look at 1. destruct (source_root s m) as [r|]; [|done].
    destruct (ft_lookup_mount fuel s r name) as [y|] eqn:E; [|done]. intros [= ->]. by eapply IH. }
  destruct (first_some look (filter before _)) as [y|] eqn:E; [intros [= ->]; by eapply Hl|].
  destruct (if replaces (e_mounts d) then None else ft_find s dir name) as [y|] eqn:Ef; [|apply Hl].
  intros [= ->]. destruct (replaces (e_mounts d)); [done|].
  apply ft_find_child in Ef as (de & e & _ & _ & He & _ & Hn & _ & Hp & _); [|done]. exists e. rewrite Hp. eauto.
Qed.

Lemma lookup_named s t dir name x : ft_reach s -> o9_filetree_lookup s t dir name = Some x ->
  entry_name s x = name /\ plain_name name.
Proof.
  intros R. unfold o9_filetree_lookup. generalize MOUNT_DEPTH. intros depth. case_match; [|done]. intros L.
  destruct (lookup_mount_named _ _ _ (wf_reach _ R) _ _ L) as (e & He & <- & Hp).
  split; [unfold entry_name, o9_filetree_name; by rewrite He|].
  pose proof (names_reach _ R _ _ He Hp) as Hn. unfold ft_name_ok in Hn. rewrite !andb_true_iff in Hn.
  destruct Hn as [[[H1 _] _] H4]. apply negb_true_iff, bool_decide_eq_false in H1. split; [done|].
  intros Hin. rewrite forallb_forall in H4. apply list_elem_of_In in Hin. specialize (H4 _ Hin).
  apply negb_true_iff in H4. rewrite !orb_false_iff in H4. destruct H4 as [[H4 _] _]. by apply bool_decide_eq_false in H4.
Qed.

(** ** Paths *)

Lemma before_last_none p : x2f ∉ p -> before_last p = None.
Proof.
  induction p as [|c p IH]; [done|]. rewrite elem_of_cons. intros N. simpl.
  rewrite IH by tauto. rewrite decide_False; [done|]. intros ->. tauto.
Qed.

Lemma before_last_app p n : x2f ∉ n -> before_last (p ++ x2f :: n) = Some p.
Proof. intros H. induction p as [|c p IH]; simpl; [by rewrite before_last_none | by rewrite IH]. Qed.

Lemma join_nonempty n names : Forall plain_name (n :: names) -> join (n :: names) <> [].
Proof. intros [[H _] _]%Forall_cons. destruct names; simpl; [done|]. by intros [_ ?]%app_eq_nil. Qed.

Lemma join_cons n names : Forall plain_name names ->
  join (n :: names) = if decide (join names = []) then n else join names ++ x2f :: n.
Proof.
  intros H. destruct names as [|m names]; [done|]. rewrite decide_False; [done|]. by apply join_nonempty.
Qed.

Lemma join_pop n names : Forall plain_name (n :: names) -> default [] (before_last (join (n :: names))) = join names.
Proof.
  intros [[_ H] _]%Forall_cons. destruct names as [|m names]; simpl; [by rewrite before_last_none|]. by rewrite before_last_app.
Qed.

(** ** Walks keep the invariant *)

Lemma push_ok t e c : ctx_ok c -> c_kind c = VF_TREE -> plain_name (entry_name t e) -> ctx_ok (view_push t e c).
Proof.
  intros [(names & Hn & Hl & Hp) Hk] K Hx. rewrite K in Hk. split; simpl; [|by rewrite K].
  exists (entry_name t e :: names). simpl. split; [by constructor|]. split; [by rewrite Hl|].
  rewrite Hp. symmetry. by apply join_cons.
Qed.

Lemma pop_ok t tree c : ctx_ok c -> c_kind c = VF_TREE -> ctx_ok (view_pop t tree c).
Proof.
  intros H K. unfold view_pop. destruct (c_stack c) as [|e st] eqn:E; [done|].
  destruct H as [(names & Hn & Hl & Hp) Hk]. rewrite E in Hl. destruct names as [|n names]; [done|]. rewrite K in Hk.
  split; simpl; [|by rewrite K]. exists names. apply Forall_cons in Hn as Hn'. rewrite Hp, join_pop by done.
  split; [apply Hn'|]. split; [simpl in Hl; congruence | done].
Qed.

Lemma session_lookup_cases x s :
  (exists v, view_session_lookup x s = (Some v, view_retain v s) /\ v ∈ omap snd (vs_sessions s)) \/
  view_session_lookup x s = (None, s).
Proof.
  unfold view_session_lookup. destruct (list_find _ _) as [[i [d [v|]]]|] eqn:E; [left|by right..].
  exists v. split; [done|]. by eapply found_session.
Qed.

Lemma walk_session_views e x c s c' s' h : views_ok h (vs_views s) (vs_fresh s) ->
  (forall v, v ∈ omap snd (vs_sessions s) -> is_Some (vs_views s !! v)) ->
  (forall v, c_view c = Some v -> is_Some (vs_views s !! v)) -> walk_session e x c s = (c', s') ->
  (exists m, s' = upd_views (fun _ => m) s) /\ (exists v, c' = ctx_with_view v c) /\
  views_ok (fun v => h v + occ v (ctx_views c') - occ v (ctx_views c)) (vs_views s') (vs_fresh s').
Proof.
  intros H Hs Hc. unfold walk_session.
  assert (Hsame : (c, s) = (c', s') -> (exists m, s' = upd_views (fun _ => m) s) /\ (exists v, c' = ctx_with_view v c) /\
    views_ok (fun v => h v + occ v (ctx_views c') - occ v (ctx_views c)) (vs_views s') (vs_fresh s')).
  { intros [= <- <-]. split; [exists (vs_views s); by destruct s|]. split; [exists (c_view c); by destruct c|].
    eapply views_ext, H. intros v. lia. }
  assert (Hrest : (if decide (Some x = view_root (vs_cfg s)) then (ctx_with_view None c, (view_release_locked (c_view c) s).2)
                   else (c, s)) = (c', s') ->
    (exists m, s' = upd_views (fun _ => m) s) /\ (exists v, c' = ctx_with_view v c) /\
    views_ok (fun v => h v + occ v (ctx_views c') - occ v (ctx_views c)) (vs_views s') (vs_fresh s')).
  { case_decide; [|exact Hsame]. destruct (release_form (c_view c) s) as (m & -> & Hm & _). intros [= <- <-].
    split; [by eexists|]. split; [by eexists|]. eapply views_ext, Hm; [|done..]. intros v. unfold ctx_views. counts. lia. }
  destruct (view_session_mode (vs_cfg s)); [|exact Hsame].
  destruct (decide (file_parent e x = _)); [|exact Hrest]. destruct (session_lookup_cases x s) as [(v & -> & Hv)| ->]; [|exact Hrest].
  destruct (release_form (c_view c) (view_retain v s)) as (m & -> & Hm & _). intros [= <- <-].
  split; [by eexists|]. split; [by eexists|].
  eapply views_ext, Hm; [|apply views_retain; [done | by apply Hs]|].
  - intros y. unfold ctx_views. counts. lia.
  - intros y Hy. simpl. apply lookup_alter_is_Some. by apply Hc.
Qed.

Lemma inv_walk_fixed e f c old name s : view_inv s -> vs_fids s !! f = Some c -> c_kind c = VF_FIXED -> c_fixed c = Some old ->
  view_inv (walk_fixed e f c old name s).2.
Proof.
  intros I Hf K Ho. pose proof (vi_ctxs _ I _ _ Hf) as [Hp Hk]. rewrite K in Hk. destruct Hk as (Hk1 & Hk2 & Hk3).
  unfold walk_fixed. case_match; destruct (e_walk e old name) as [x|]; try done; destruct (view_authorize_fixed _ _ _ _) as [gen|]; try done.
  - destruct (view_of s c) as [v|] eqn:Ev; [|done]. destruct (v_active v); [|done]. simpl. apply (inv_set _ _ c); try done.
    + split; [done|]. simpl. split; [done|]. split; [done|]. unfold view_of in Ev. by destruct (c_view c).
    + unfold ctx_files. simpl. rewrite Ho, Hk1. done.
  - destruct (walk_session _ _ _ _) as [c' s'] eqn:W.
    eapply (walk_session_views _ _ _ _ _ _ (fun v => occ v (view_holders s))) in W as ((m & ->) & (v & ->) & Hv).
    2: { apply (vi_views _ I). }
    2: { simpl. intros v Hv. by apply session_view_exists. }
    2: { simpl. intros v Hv. by eapply ctx_view_exists. }
    simpl in *. apply (inv_put s _ f (ctx_with_view v (ctx_at_fixed (Some x) gen c))); simpl; rewrite ?Hf; try done.
    + split; [done|]. simpl. by rewrite K.
    + apply I. eauto.
    + pose proof (files_count (-1) _ _ (Some old) (files_count 1 _ _ (Some x) (vi_files _ I))) as F. simpl in F.
      eapply files_ext, F. intros y. unfold ctx_files. simpl. rewrite Ho, Hk1. counts. lia.
Qed.

Lemma inv_walk e f name s : view_inv s -> ft_reach (e_trees e) -> view_inv (o9_view_walk1 e f name s).2.
Proof.
  intros I R. unfold o9_view_walk1. destruct (vs_fids s !! f) as [c|] eqn:E; [|done]. case_match; [done|].
  pose proof (vi_ctxs _ I _ _ E) as Hc. destruct (c_kind c) eqn:K.
  - destruct (c_fixed c) as [old|] eqn:Ho; [|done]. case_match; [|done]. by apply inv_walk_fixed.
  - destruct (view_of s c) as [v|]; [|done]. case_match; [done|]. case_match; [done|]. unfold walk_view. case_match.
    + destruct (c_stack c) eqn:St; simpl.
      * apply (inv_set _ _ c); try done.
        -- destruct Hc as [Hp Hk]. split; [done|]. done.
        -- destruct Hc as [_ Hk]. rewrite K in Hk. destruct Hk as (_ & Hk & _). unfold ctx_files. simpl. rewrite Hk.
           by rewrite app_nil_r.
      * apply (inv_set _ _ c); [done|done|by apply pop_ok|unfold view_pop; by rewrite St..].
    + destruct (c_entry c) as [dir|]; simpl; [|done].
      destruct (o9_filetree_lookup _ _ _ _) as [x|] eqn:L; [|done]. simpl.
      apply lookup_named in L as [<- Hn]; [|done]. by apply (inv_set _ _ c); [| |apply push_ok| |].
Qed.

Lemma inv_do e op s : view_inv s -> ft_reach (e_trees e) -> allowed op s -> view_inv (view_do e op s).
Proof.
  intros I R A. destruct op; cbn [view_do]; try (by apply (view_inv_same s); auto).
  - unfold o9_view_register_controller. repeat (case_match; try done). by apply (view_inv_same s); auto.
  - by apply inv_session_start.
  - by apply inv_session_close.
  - by apply inv_attach.
  - by apply inv_clone.
  - by apply inv_destroy.
  - by apply inv_enter.
  - by apply inv_moves.
  - by apply inv_leave.
  - unfold o9_view_close. repeat (case_match; try done). apply (view_inv_same s); simpl; eauto.
  - by apply inv_walk.
  - by apply view_inv_open.
Qed.

Lemma reach_inv s : view_reach s -> view_inv s.
Proof.
  unfold view_reach. intros H. remember vstate0 as s0 eqn:E. assert (I : view_inv s0) by (subst; apply inv_start_state). clear E.
  induction H as [|s1 s2 s3 [e op R A] H IH]; [done|]. apply IH. by apply inv_do.
Qed.

(** ** Revoked views *)

(** No view becomes active again, and no new view takes the place of an old one. *)
Definition ages (s s' : vstate) : Prop :=
  (vs_fresh s <= vs_fresh s')%positive /\
  forall v w', vs_views s' !! v = Some w' -> (v < vs_fresh s)%positive ->
    exists w, vs_views s !! v = Some w /\ (v_active w' = true -> v_active w = true).

Lemma ages_same s s' : vs_views s' = vs_views s -> vs_fresh s' = vs_fresh s -> ages s s'.
Proof. intros E1 E2. split; [by rewrite E2|]. rewrite E1. eauto. Qed.

Lemma ages_trans s1 s2 s3 : ages s1 s2 -> ages s2 s3 -> ages s1 s3.
Proof.
  intros [H1 H2] [H3 H4]. split; [lia|]. intros v w' E L. destruct (H4 _ _ E) as (w2 & E2 & A2); [lia|].
  destruct (H2 _ _ E2 L) as (w1 & E1 & A1). eauto.
Qed.

Lemma ages_alter s s' g v : (forall w, v_active (g w) = true -> v_active w = true) ->
  vs_views s' = alter g v (vs_views s) -> vs_fresh s' = vs_fresh s -> ages s s'.
Proof.
  intros Hg E1 E2. split; [by rewrite E2|]. rewrite E1. intros x w' H _. destruct (decide (x = v)) as [->|].
  - rewrite lookup_alter_eq in H. apply fmap_Some in H as (w & H & ->). eauto.
  - rewrite lookup_alter_ne in H by done. eauto.
Qed.

Lemma ages_release v s cl s1 : view_release_locked v s = (cl, s1) -> ages s s1.
Proof.
  intros E. destruct (release_form v s) as (m & H & _ & Hm). rewrite E in H. simpl in H. subst s1. split; simpl; [lia|].
  intros x w' Hx _. destruct (Hm _ _ Hx) as (w & ? & ->). eauto.
Qed.

Lemma ages_new id tree s : ages s (new_view id tree s).2.
Proof. split; simpl; [lia|]. intros v w' H L. rewrite lookup_insert_ne in H by lia. eauto. Qed.

Lemma ages_retain v s : ages s (view_retain v s).
Proof. by apply (ages_alter _ _ (fun w => set_refs (v_refs w + 1) w) v). Qed.

Lemma ages_walk_session e x c s c' s' : walk_session e x c s = (c', s') -> ages s s'.
Proof.
  unfold walk_session. assert (H0 : ages s s) by (by apply ages_same).
  assert (Hr : forall s1, ages s s1 -> ages s (view_release_locked (c_view c) s1).2).
  { intros s1 H. destruct (view_release_locked _ s1) as [cl s2] eqn:R. apply ages_release in R. by eapply ages_trans. }
  destruct (view_session_mode _); [|by intros [= _ <-]].
  assert (Hl : forall v s1, (if decide (file_parent e x = view_root (vs_cfg s)) then view_session_lookup x s else (None, s)) = (v, s1) -> ages s s1).
  { intros v s1. case_decide; [|by intros [= _ <-]]. destruct (session_lookup_cases x s) as [(u & -> & _)| ->]; intros [= _ <-]; [|done].
    apply ages_retain. }
  destruct (if decide _ then _ else _) as [v s1] eqn:E. specialize (Hl _ _ eq_refl).
  clear E. destruct v; [|destruct (decide (Some x = _))]; intros E; injection E as _ <-; auto.
Qed.

Lemma ages_do e op s : ages s (view_do e op s).
Proof.
  destruct op; cbn [view_do]; try by apply ages_same.
  - unfold o9_view_register_controller. repeat case_match; by apply ages_same.
  - unfold o9_view_session_start. case_match; [by apply ages_same|]. destruct (authenticated r); [|by apply ages_same].
    destruct id as [id|]; [|by apply ages_same]. destruct (e_display _ _ _ _) as [tree|]; [|by apply ages_same].
    case_match; [|by apply ages_same]. destruct (new_view (cstr id) tree s) as [v s1] eqn:Hn.
    pose proof (ages_new (cstr id) tree s) as H1. rewrite Hn in H1. simpl in H1. eapply ages_trans; [exact H1|].
    destruct (list_find _ _) as [[i [d old]]|]; [|by apply ages_same]. cbn -[view_release_locked].
    destruct (view_release_locked old _) as [cl s2] eqn:R. apply ages_release in R.
    eapply ages_trans; [|eapply ages_trans; [exact R | by apply ages_same]].
    destruct old as [old|]; [by apply (ages_alter _ _ (set_active false) old) | by apply ages_same].
  - unfold o9_view_session_close. destruct (list_find _ _) as [[i [d [v|]]]|]; [|by apply ages_same..].
    destruct (view_release_locked _ _) as [cl s2] eqn:R. apply ages_release in R.
    eapply ages_trans; [|eapply ages_trans; [exact R | by apply ages_same]]. by apply (ages_alter _ _ (set_active false) v).
  - unfold o9_view_attach. case_match; [by apply ages_same|]. case_match; [by apply ages_same|].
    destruct id as [id|]; [|by apply ages_same]. destruct (e_display _ _ _ _) as [tree|]; [|by apply ages_same].
    case_match; [|by apply ages_same]. eapply ages_trans; [|eapply (ages_trans _ (new_view (cstr id) tree _).2); [apply ages_new|]]; by apply ages_same.
  - unfold o9_view_clone. destruct (vs_fids s !! f) as [c|]; [|by apply ages_same]. simpl.
    destruct (c_view c) as [v|]; [eapply ages_trans; [apply ages_retain|]; by apply ages_same | by apply ages_same].
  - unfold o9_view_destroyfid, view_ctx_free. destruct (vs_fids s !! f) as [c|]; [|by apply ages_same].
    destruct (view_release_locked _ _) as [cl s2] eqn:R. apply ages_release in R.
    eapply ages_trans; [|eapply ages_trans; [exact R | by apply ages_same]]. by apply ages_same.
  - unfold o9_view_enter_fixed. repeat case_match; by apply ages_same.
  - unfold handler_moves. repeat case_match; by apply ages_same.
  - unfold o9_view_leave_fixed. repeat case_match; by apply ages_same.
  - unfold o9_view_close. repeat (case_match; try by apply ages_same). by eapply (ages_alter _ _ (set_active false)); [|reflexivity|].
  - unfold o9_view_walk1, walk_fixed, walk_view.
    destruct (vs_fids s !! f) as [c|]; [|by apply ages_same]. case_match; [by apply ages_same|]. destruct (c_kind c).
    + destruct (c_fixed c) as [old|]; [|by apply ages_same]. case_match; [|by apply ages_same].
      case_match; (destruct (e_walk e old name) as [x|]; [|by apply ages_same]);
        (destruct (view_authorize_fixed e f c x) as [gen|]; [|by apply ages_same]).
      * repeat case_match; by apply ages_same.
      * destruct (walk_session _ _ _ _) as [c' s'] eqn:W. apply ages_walk_session in W.
        eapply ages_trans; [|eapply ages_trans; [exact W | by apply ages_same]]. by apply ages_same.
    + repeat case_match; by apply ages_same.
  - unfold o9_view_open, open_dir. repeat case_match; by apply ages_same.
Qed.

Lemma ages_steps s s' : rtc view_step s s' -> ages s s'.
Proof. induction 1 as [|s1 s2 s3 [e op R A] H IH]; [by apply ages_same|]. eapply ages_trans; [apply ages_do | done]. Qed.
