(* ===== verification/ViewProps.v ===== *)
(** * Properties of displayed views

    References, revocation and walks, in every state that the steps of
    [ViewSpec] can lead to. *)
From S2P Require Import Prelude O9Str FileTree FileTreeSpec View ViewSpec.

Open Scope Z_scope.

(** ** A facade with a session, and a tree of the controller's *)

Definition demo_trees : fts :=
  ft_run [(7, FNew); (7, FDir 1 (Some (str "d"))); (7, FText 1 (Some (str "d/f")) (Some (str "hi")) 1)] fts0.

(** File 1 is the root, 2 the directory of a session, 3 its [view]. *)
Definition demo_env : env :=
  MkEnv (fun f n => if decide (n = str "s") then Some 2%positive else if decide (n = str "view") then Some 3%positive else None)
    (fun f => if decide (f = 2%positive) then Some 1%positive else None)
    (fun f => MkDir 0 QTDIR [] [] [] [] 0 0 0) (fun _ => true) (Some (fun _ _ _ => Some 5)) demo_trees 0
    (fun _ _ _ => Some 1%positive) (fun _ _ _ => None) (fun _ _ _ _ _ _ => None).

Definition glenda : request := MkReq (Some (str "glenda")) true false.

Definition do_all (ops : list view_op) (s : vstate) : vstate := foldl (fun s op => view_do demo_env op s) s ops.

Fixpoint all_allowed (ops : list view_op) (s : vstate) : Prop :=
  match ops with
  | [] => True
  | op :: ops => allowed op s /\ all_allowed ops (view_do demo_env op s)
  end.

Lemma do_all_steps ops s : all_allowed ops s -> rtc view_step s (do_all ops s).
Proof.
  revert s. induction ops as [|op ops IH]; intros s; simpl; [done|]. intros [A H].
  eapply rtc_l, IH, H. constructor; [by eexists | done].
Qed.

(** A session is started; a fid is attached, walks to the session and is cloned. *)
Definition demo_ops : list view_op :=
  [VSetup (Some 1%positive); VMode 1; VNotify 1; VRegister (Some (Some 7, -1)); VStart glenda 2 (Some (str "id1"));
   VAttach glenda 10 (Some 1%positive) None; VWalk 10 (str "s"); VClone 10 11].
Definition demo_views : vstate := do_all demo_ops vstate0.

Lemma demo_views_reach : view_reach demo_views.
Proof. apply do_all_steps. repeat split; done. Qed.

(** ** The references *)

(** C13: In every state that the requests, the set-up calls and the handlers of the facade can lead to, the count of a view
    is the number of fids, entered fids and sessions that hold it; a view is freed exactly when there are none, so no fid
    and no session ever has a view that is gone; and the facade's files have as many references as the contexts hold. *)
Theorem view_references_exact s : view_reach s ->
  (forall v, match vs_views s !! v with
             | Some w => v_refs w = occ v (view_holders s) /\ 0 < v_refs w
             | None => v ∉ view_holders s
             end) /\
  (forall x, default 0 (vs_frefs s !! x) = occ x (file_holders s)).
Proof.
  intros I%reach_inv. split; [|apply I]. intros v. destruct (vs_views s !! v) as [w|] eqn:E.
  - by apply (vo_refs _ _ _ (vi_views _ I)) in E as (? & ? & _).
  - apply occ_zero. by apply (vo_held _ _ _ (vi_views _ I)).
Qed.


Lemma view_references_exact_witness : exists w, vs_views demo_views !! 1%positive = Some w /\ v_refs w = 3 /\
  occ 1%positive (view_holders demo_views) = 3.
Proof.
  destruct (view_references_exact demo_views demo_views_reach) as [H _]. specialize (H 1%positive).
  destruct (vs_views demo_views !! 1%positive) as [w|] eqn:E.
  - destruct H as [H _]. exists w. split; [done|]. rewrite H. split; reflexivity.
  - vm_compute in E. discriminate E.
Defined.

(** ** Revocation *)

Definition refused (e : env) (f : positive) (c : O9ViewFid) : reply :=
  RErr (if authorized e f c then "view closed" else "permission denied").

(** C19: Once a view has been revoked ("view close", the end or the restart of its session), no fid that has it, whatever
    requests come, gets into its tree again: a fid in the tree cannot walk, open, read, write or stat, and the controller
    is not called; a fid of the facade is not let in. *)
Theorem revoked_view_stays_closed s s' v w : view_reach s -> vs_views s !! v = Some w -> v_active w = false ->
  rtc view_step s s' -> forall e f c, vs_fids s' !! f = Some c -> c_view c = Some v ->
  match c_kind c with
  | VF_TREE =>
      (forall name, name <> str "." -> o9_view_walk1 e f name s' = (WErr "view closed", s')) /\
      (forall r m, o9_view_open e r f m s' = (Some (refused e f c), s')) /\
      (forall r, o9_view_read e r f s' = Some (refused e f c)) /\
      (forall r off d, o9_view_write e r f off d s' = Some (refused e f c)) /\
      o9_view_stat e f s' = refused e f c
  | VF_FIXED => forall name p t, (o9_view_walk1 e f name s').1 <> WTree p t
  end.
Proof.
  intros R Hw Ha St e f c Hf Hv. assert (R' : view_reach s') by (unfold view_reach; by etrans).
  apply reach_inv in R as I. apply reach_inv in R' as I'.
  destruct (ctx_view_exists _ _ _ _ I' Hf Hv) as [w' Hw'].
  assert (Ha' : v_active w' = false).
  { destruct (vo_refs _ _ _ (vi_views _ I) _ _ Hw) as (_ & _ & L).
    destruct (proj2 (ages_steps _ _ St) _ _ Hw' L) as (w2 & E2 & A). rewrite Hw in E2. injection E2 as <-.
    destruct (v_active w'); [by rewrite (A eq_refl) in Ha | done]. }
  assert (Vo : view_of s' c = Some w') by (unfold view_of; by rewrite Hv).
  destruct (c_kind c) eqn:K.
  - intros name p t. unfold o9_view_walk1, walk_fixed. rewrite Hf, K, Vo, Ha'.
    repeat (case_match; try done).
  - assert (Vv : view_valid e s' c = false) by (unfold view_valid; by rewrite K, Vo, Ha').
    unfold refused. split_and!.
    + intros name N. unfold o9_view_walk1. rewrite Hf, K, Vo, Ha'. by rewrite bool_decide_false.
    + intros r m. unfold o9_view_open. rewrite Hf, Vv, K. by destruct (authorized e f c).
    + intros r. unfold o9_view_read. rewrite Hf, Vv, K. by destruct (authorized e f c).
    + intros r off d. unfold o9_view_write. rewrite Hf, Vv, K. by destruct (authorized e f c).
    + unfold o9_view_stat. rewrite Hf, Vv. by destruct (authorized e f c).
Qed.

(** The clone walks into the tree and the first fid's handler closes the view; afterwards the first is clunked. *)
Definition demo_revoked : vstate := do_all [VWalk 11 (str "view"); VWalk 11 (str "d"); VEnter 10; VClose 10; VLeave 10] demo_views.

Lemma demo_revoked_reach : view_reach demo_revoked.
Proof. unfold view_reach. etrans; [apply demo_views_reach|]. apply do_all_steps. repeat split; done. Qed.

Lemma revoked_view_stays_closed_witness : exists c, vs_fids (do_all [VDestroy 10] demo_revoked) !! 11%positive = Some c /\
  c_path c = str "d" /\ o9_view_read demo_env glenda 11 (do_all [VDestroy 10] demo_revoked) = Some (RErr "view closed").
Proof.
  destruct (vs_fids (do_all [VDestroy 10] demo_revoked) !! 11%positive) as [c|] eqn:E; [|vm_compute in E; discriminate E].
  assert (H := revoked_view_stays_closed demo_revoked (do_all [VDestroy 10] demo_revoked) 1 (MkView (str "id1") 1 false 3)
    demo_revoked_reach eq_refl eq_refl ltac:(apply do_all_steps; repeat split; done) demo_env 11 c E).
  vm_compute in E. injection E as <-. specialize (H eq_refl). exists (ltac:(match type of H with match c_kind ?c with _ => _ end => exact c end)).
  split; [done|]. split; [done|]. apply (proj1 (proj2 (proj2 H))).
Defined.

(** ** Walks *)

(** The walks of a list of names; none if one of them is refused. *)
Fixpoint walk_all (e : env) (f : positive) (names : list bytes) (s : vstate) : option vstate :=
  match names with
  | [] => Some s
  | n :: names =>
      match o9_view_walk1 e f n s with
      | (WErr _, _) => None
      | (_, s) => walk_all e f names s
      end
  end.

Lemma walk_all_app e f ns ms s : walk_all e f (ns ++ ms) s = walk_all e f ns s ≫= walk_all e f ms.
Proof.
  revert s. induction ns as [|n ns IH]; intros s; simpl; [done|]. destruct (o9_view_walk1 e f n s) as [[] s1]; simpl; auto.
Qed.

Lemma set_ctx_set f c c' s : set_ctx f c (set_ctx f c' s) = set_ctx f c s.
Proof. unfold set_ctx, upd_fids. simpl. by rewrite insert_insert_eq. Qed.

(** Where a context in the tree is: at the end of its path, or at the root. *)
Definition at_end (t : fts) (tree : positive) (c : O9ViewFid) : Prop :=
  c_entry c = match c_stack c with x :: _ => Some x | [] => o9_filetree_root t tree end.

Lemma pop_push t tree x c names : at_end t tree c -> Forall plain_name names -> c_path c = join names ->
  plain_name (entry_name t x) -> view_pop t tree (view_push t x c) = c.
Proof.
  intros He Hn Hp Hx. unfold view_pop. simpl.
  replace (if decide (c_path c = []) then entry_name t x else c_path c ++ x2f :: entry_name t x) with (join (entry_name t x :: names)).
  - rewrite join_pop by (by constructor). rewrite <- Hp. destruct c. unfold at_end in He. simpl in *. by rewrite He.
  - rewrite join_cons by done. by rewrite Hp.
Qed.

Lemma walk_tree_eq e f c s v name : vs_fids s !! f = Some c -> c_kind c = VF_TREE -> view_of s c = Some v -> name <> str "." ->
  o9_view_walk1 e f name s =
    if negb (v_active v && o9_filetree_alive (e_trees e) (v_tree v)) then (WErr "view closed", s)
    else if negb (authorized e f c) then (WErr "permission denied", s) else walk_view e f c v name s.
Proof. intros Hf K Hv N. unfold o9_view_walk1. rewrite Hf, K, Hv. by rewrite bool_decide_false. Qed.

(** Down by [names] and up again. *)
Lemma walk_down_up e f v : ft_reach (e_trees e) -> forall names c s s1 ps, vs_fids s !! f = Some c -> c_kind c = VF_TREE ->
  view_of s c = Some v -> at_end (e_trees e) (v_tree v) c -> Forall plain_name ps -> c_path c = join ps ->
  str "." ∉ names -> str ".." ∉ names -> walk_all e f names s = Some s1 ->
  exists c1, s1 = set_ctx f c1 s /\ c_kind c1 = VF_TREE /\ view_of s1 c1 = Some v /\ c_generation c1 = c_generation c /\
    c_view_parent c1 = c_view_parent c /\ c_path c1 = join (reverse names ++ ps) /\
    length (c_stack c1) = (length names + length (c_stack c))%nat /\
    walk_all e f (replicate (length names) (str "..")) s1 = Some s.
Proof.
  intros R. induction names as [|n names IH]; intros c s s1 ps Hf K Hv He Hps Hp Nd Ndd; simpl.
  { intros [= <-]. exists c. assert (E : s = set_ctx f c s).
    { unfold set_ctx, upd_fids. rewrite insert_id by done. by destruct s. }
    rewrite <- E. done. }
  apply not_elem_of_cons in Nd as [Nd1 Nd]. apply not_elem_of_cons in Ndd as [Ndd1 Ndd].
  rewrite (walk_tree_eq _ _ _ _ _ _ Hf K Hv) by done.
  destruct (negb (v_active v && _)) eqn:Ea; [done|]. destruct (negb (authorized e f c)) eqn:Eg; [done|].
  unfold walk_view. rewrite bool_decide_false by done. destruct (c_entry c) as [dir|] eqn:Ee; simpl; [|done].
  destruct (o9_filetree_lookup _ _ _ _) as [x|] eqn:L; [|done]. simpl. intros W. apply lookup_named in L as [En Hn]; [|done].
  set (c' := view_push (e_trees e) x c) in *.
  eapply (IH c' _ _ (n :: ps)) in W as (c1 & -> & K1 & V1 & G1 & P1 & Pa & Le & U).
  2: { simpl. apply lookup_insert_eq. }
  2: { done. }
  2: { done. }
  2: { done. }
  2: { by constructor. }
  2: { simpl. rewrite En, Hp. symmetry. by apply join_cons. }
  2: { done. }
  2: { done. }
  exists c1. rewrite set_ctx_set in *. split; [done|]. split; [done|]. split; [done|]. split; [done|]. split; [done|].
  split; [by rewrite reverse_cons, <- app_assoc|]. split; [simpl in Le; simpl; lia|].
  change (walk_all e f (replicate (S (length names)) (str "..")) (set_ctx f c1 s) = Some s).
  rewrite replicate_S_end, walk_all_app, U. simpl.
  rewrite (walk_tree_eq _ _ c' (set_ctx f c' s) v); [|by apply lookup_insert_eq|done|done|done]. rewrite Ea.
  replace (authorized e f c') with (authorized e f c).
  2: { unfold authorized, guarded_file, view_authorize_fixed, c'. simpl. by rewrite K. }
  rewrite Eg. unfold walk_view. simpl. rewrite set_ctx_set.
  subst c'. rewrite (pop_push _ _ _ _ ps) by (rewrite ?En; done). f_equal.
  unfold set_ctx, upd_fids. rewrite insert_id by done. by destruct s.
Qed.

(** Walking into a view by a path and back by as many ".." gives the fid back as it was: on the way the context holds
    the joined names, at the end it is at the same file of the facade with the generation that the guard gave, and nothing
    else of the state has changed. *)
Theorem walk_there_and_back e f c s s1 c1 names : view_reach s -> ft_reach (e_trees e) -> vs_fids s !! f = Some c ->
  c_kind c = VF_FIXED -> c_fixed c = view_root (vs_cfg s) \/ c_generation c <> 0 -> str "." ∉ names -> str ".." ∉ names ->
  walk_all e f (str "view" :: names) s = Some s1 -> vs_fids s1 !! f = Some c1 ->
  c_path c1 = join (reverse names) /\ length (c_stack c1) = length names /\
  (authorized e f c1 = true -> view_valid e s1 c1 = true ->
   exists gen, walk_all e f (replicate (S (length names)) (str "..")) s1 = Some (set_ctx f (ctx_at_fixed (c_fixed c) gen c) s)).
Proof.
  intros I%reach_inv R Hf K Hroot Nd Ndd W H1. destruct (vi_ctxs _ I _ _ Hf) as [(ps & _ & Hl & Hp) Hk]. rewrite K in Hk.
  destruct Hk as (Hk1 & Hk2 & Hk3). rewrite Hk3 in Hl. destruct ps; [|done].
  assert (Hv : exists old v gen, c_fixed c = Some old /\ view_of s c = Some v /\
    walk_all e f names (set_ctx f (ctx_in_tree gen old (o9_filetree_root (e_trees e) (v_tree v)) c) s) = Some s1).
  { cbn [walk_all] in W. unfold o9_view_walk1 in W. rewrite Hf, K in W. rewrite bool_decide_false in W by done.
    destruct (c_fixed c) as [old|] eqn:Ho; [|done]. destruct (authorized e f c); [|done]. unfold walk_fixed in W.
    replace (_ && _) with true in W.
    2: { symmetry. apply andb_true_iff. split; [done|]. apply orb_true_iff.
         destruct Hroot as [->|]; [left; by apply bool_decide_eq_true | right; by apply negb_true_iff, Z.eqb_neq]. }
    destruct (e_walk e old _) as [x|]; [|done]. destruct (view_authorize_fixed e f c x) as [gen|]; [|done].
    destruct (view_of s c) as [v|] eqn:Ev; [|done]. destruct (v_active v); [|done]. by exists old, v, gen. }
  destruct Hv as (old & v & gen & Ho & Hv & W'). set (c0 := ctx_in_tree _ _ _ _) in W'.
  eapply (walk_down_up e f v R names c0 _ _ []) in W' as (c2 & -> & K2 & V2 & G2 & P2 & Pa & Le & U).
  2: { apply lookup_insert_eq. }
  2: { done. }
  2: { done. }
  2: { unfold at_end, c0. simpl. by rewrite Hk3. }
  2: { done. }
  2: { done. }
  2: { done. }
  2: { done. }
  simpl in H1. rewrite lookup_insert_eq in H1. injection H1 as <-. rewrite app_nil_r in Pa.
  split; [done|]. split; [rewrite Le; unfold c0; simpl; rewrite Hk3; simpl; lia|].
  intros Hau Hva. exists gen. rewrite replicate_S_end, walk_all_app, U. simpl.
  rewrite (walk_tree_eq _ _ c0 _ v); [|by apply lookup_insert_eq|done|done|done].
  unfold view_valid in Hva. rewrite K2, V2 in Hva. apply andb_true_iff in Hva as [Hva _]. rewrite Hva. simpl.
  replace (authorized e f c0) with true.
  2: { rewrite <- Hau. unfold authorized, guarded_file, view_authorize_fixed. rewrite K2, G2, P2. done. }
  simpl. unfold walk_view. simpl. rewrite Hk3. simpl. rewrite set_ctx_set. unfold ctx_out_of_tree, ctx_at_fixed, c0, ctx_in_tree. simpl.
  by rewrite K, Hk1, Hk2, ?Ho.
Qed.

Lemma walk_there_and_back_witness : exists s1 c1, walk_all demo_env 11 [str "view"; str "d"; str "f"] demo_views = Some s1 /\
  vs_fids s1 !! 11%positive = Some c1 /\ c_path c1 = str "d/f".
Proof.
  destruct (walk_all demo_env 11 [str "view"; str "d"; str "f"] demo_views) as [s1|] eqn:W; [|vm_compute in W; discriminate W].
  destruct (vs_fids s1 !! 11%positive) as [c1|] eqn:E1; [|vm_compute in W; injection W as <-; vm_compute in E1; discriminate E1].
  destruct (vs_fids demo_views !! 11%positive) as [c|] eqn:E; [|vm_compute in E; discriminate E].
  exists s1, c1. split; [done|]. split; [done|].
  assert (K : c_kind c = VF_FIXED) by (vm_compute in E; by injection E as <-).
  assert (G : c_generation c <> 0) by (vm_compute in E; by injection E as <-).
  destruct (walk_there_and_back demo_env 11 c demo_views s1 c1 [str "d"; str "f"] demo_views_reach ltac:(by eexists) E K (or_intror G)
    ltac:(apply (bool_decide_unpack _); vm_compute; done) ltac:(apply (bool_decide_unpack _); vm_compute; done) W E1) as (-> & _).
  reflexivity.
Defined.

(** ** What the walks and the views leave undone *)

(** A walk from a session's directory to the root gives its view up; when the session has ended, this is the last reference
    and the view is freed, but no [closeView] is queued for it. *)
Lemma walk_drops_notice :
  let s := do_all [VSessionClose 2; VDestroy 11] demo_views in
  let e := MkEnv (fun _ _ => Some 1%positive) (file_parent demo_env) (file_dir demo_env) (e_opens demo_env) (e_guard demo_env)
             demo_trees 0 (e_display demo_env) (e_read demo_env) (e_write demo_env) in
  let s' := (o9_view_walk1 e 10 (str "..") s).2 in
  view_close_notify (vs_cfg s) = true /\ v_refs <$> vs_views s !! 1%positive = Some 1 /\
  vs_views s' !! 1%positive = None /\ vs_closed s' = [].
Proof. vm_compute. done. Qed.

(** The controller may close and destroy a tree that an active view still displays. *)
Lemma destroyed_tree_viewed :
  v_tree <$> vs_views demo_views !! 1%positive = Some 1%positive /\ v_active <$> vs_views demo_views !! 1%positive = Some true /\
  (o9_filetree_destroy 7 1 (ft_run [(7, FClose 1)] demo_trees)).1 = 0 /\
  f_trees (o9_filetree_destroy 7 1 (ft_run [(7, FClose 1)] demo_trees)).2 !! 1%positive = None.
Proof. vm_compute. done. Qed.
