(* ===== verification/Client.v ===== *)
(** * The 9P client of remote tabulae ([o9_9p_*], [o9_connect],
    [o9_tab_*_remote*] in [o9_runtime.c])

    A connection carries bytes: a read or a write moves any number of them, and
    the server answers a frame when all of it has arrived.  What the server
    does with a frame ([serve]), how much each system call moves ([chunk], none
    for a failure) and what a temporary file opens as ([reopen]) are the
    environment.  Allocation succeeds. *)
From S2P Require Import Prelude Fmt O9Str Mono Tabula.

Open Scope Z_scope.

(** ** Numbers in a frame *)

Definition GET2 (p : bytes) : Z := Z.lor (at_ p 0) (Z.shiftl (at_ p 1) 8).
Definition GET4 (p : bytes) : Z := load32_le p.
Definition PUT2 (v : Z) : bytes := [to_byte (Z.land v 255); to_byte (Z.land (Z.shiftr v 8) 255)].
Definition PUT4 (v : Z) : bytes := store32_le v.
Definition NOFID : Z := 0xFFFFFFFF.

(** A byte given as a number. *)
Definition u8 (v : Z) : byte := to_byte v.

(** [PUT4(tx, n)], the type and the tag 0 in front of the rest of a frame. *)
Definition frame (n type : Z) (rest : bytes) : bytes := PUT4 n ++ [u8 type; NUL; NUL] ++ rest.

Section client.
Context {S : Type} (serve : S -> bytes -> S * bytes) (chunk : nat -> Z).

(** ** The connection *)

(** [k_part] has been written but is not a whole frame yet, [k_in] has been
    answered but not been read yet. *)
Record conn := Conn { k_srv : S; k_part : bytes; k_in : bytes; k_calls : nat }.

(** The server takes the whole frames that have arrived. *)
Fixpoint take_frames (fuel : nat) (s : S) (part out : bytes) : S * bytes * bytes :=
  match fuel with
  | O => (s, part, out)
  | Datatypes.S fuel =>
      let size := Z.to_nat (GET4 part) in
      if bool_decide (4 <= length part)%nat && bool_decide (size <= length part)%nat then
        let '(s, answer) := serve s (take size part) in
        take_frames fuel s (drop size part) (out ++ answer)
      else (s, part, out)
  end.

(** [write]: the number of bytes taken. *)
Definition sys_write (buf : bytes) (c : conn) : Z * conn :=
  let n := Z.min (chunk (k_calls c)) (Z.of_nat (length buf)) in
  if n <=? 0 then (-1, Conn (k_srv c) (k_part c) (k_in c) (k_calls c + 1))
  else
    let part := k_part c ++ take (Z.to_nat n) buf in
    let '(s, part, input) := take_frames (length part) (k_srv c) part (k_in c) in
    (n, Conn s part input (k_calls c + 1)).

(** [read] of at most [n] bytes: none for an error or the end. *)
Definition sys_read (n : nat) (c : conn) : bytes * conn :=
  let k := Z.to_nat (Z.min (chunk (k_calls c)) (Z.of_nat n)) in
  (take k (k_in c), Conn (k_srv c) (k_part c) (drop k (k_in c)) (k_calls c + 1)).

Fixpoint write_loop (fuel : nat) (buf : bytes) (c : conn) : Z * conn :=
  match fuel, buf with
  | _, [] => (0, c)
  | O, _ => (-1, c)
  | Datatypes.S fuel, _ =>
      let '(n, c) := sys_write buf c in
      if n <=? 0 then (-1, c) else write_loop fuel (drop (Z.to_nat n) buf) c
  end.

Definition o9_write_full (buf : bytes) (c : conn) : Z * conn := write_loop (length buf) buf c.

Fixpoint drain_loop (fuel : nat) (nleft : Z) (c : conn) : Z * conn :=
  if nleft <=? 0 then (0, c) else
  match fuel with
  | O => (-1, c)
  | Datatypes.S fuel =>
      let '(tmp, c) := sys_read (Z.to_nat (Z.min nleft 512)) c in
      if bool_decide (tmp = []) then (-1, c) else drain_loop fuel (nleft - Z.of_nat (length tmp)) c
  end.

Definition o9_drain (nleft : Z) (c : conn) : Z * conn := drain_loop (Z.to_nat nleft) nleft c.

(** [while(n < need) read(fd, rx + n, cap - n)]. *)
Fixpoint read_until (fuel need cap : nat) (rx : bytes) (c : conn) : option bytes * conn :=
  if decide (length rx < need)%nat then
    match fuel with
    | O => (None, c)
    | Datatypes.S fuel =>
        let '(r, c) := sys_read (cap - length rx) c in
        if bool_decide (r = []) then (None, c) else read_until fuel need cap (rx ++ r) c
    end
  else (Some rx, c).

(** ** A request and its reply *)

(** What [o9_9p_rpc] leaves: the error string that it sets, or the bytes of
    [rx], whose size field it returns. *)
Inductive rpc := RFail | RError (msg : bytes) | RReply (rx : bytes).

Definition ERRMAX : Z := 128.

Definition rerror_text (rx : bytes) : bytes :=
  let err :=
    if decide (9 <= length rx)%nat then
      let elen := Z.min (GET2 (drop 7 rx)) (ERRMAX - 1) in
      if decide (9 + elen <= Z.of_nat (length rx)) then cstr (take (Z.to_nat elen) (drop 9 rx)) else []
    else [] in
  if bool_decide (err = []) then str "9P error" else err.

Definition classify (want : Z) (rx : bytes) : rpc :=
  if at_ rx 4 =? 107 then RError (rerror_text rx)
  else if negb (want =? 0) && negb (at_ rx 4 =? want) then RFail
  else RReply rx.

Definition o9_9p_rpc (tx : bytes) (nrx : nat) (want : Z) (c : conn) : rpc * conn :=
  let '(rv, c) := o9_write_full tx c in
  if rv <? 0 then (RFail, c) else
  let '(rx, c) := sys_read nrx c in
  if bool_decide (rx = []) then (RFail, c) else
  match read_until 4 4 nrx rx c with
  | (None, c) => (RFail, c)
  | (Some rx, c) =>
      let size := GET4 rx in
      if size <? 5 then (RFail, c)
      else if Z.of_nat nrx <? size then
        match read_until nrx nrx nrx rx c with
        | (None, c) => (RFail, c)
        | (Some _, c) => (RFail, (o9_drain (i32 (size - Z.of_nat nrx)) c).2)
        end
      else
        match read_until (Z.to_nat size) (Z.to_nat size) (Z.to_nat size) rx c with
        | (None, c) => (RFail, c)
        | (Some rx, c) => (classify want rx, c)
        end
  end.

(** The size that a call returns. *)
Definition rpc_size (r : rpc) : Z := match r with RReply rx => GET4 rx | _ => -1 end.

(** ** The requests *)

Definition o9_9p_walk1 (fid newfid : Z) (name : bytes) (c : conn) : Z * conn :=
  let n := Z.of_nat (length name) in
  if 200 <? n then (-1, c) else
  let tx := frame (19 + n) 110 (PUT4 fid ++ PUT4 newfid ++ PUT2 1 ++ PUT2 n ++ name) in
  let '(r, c) := o9_9p_rpc tx 256 111 c in
  (if rpc_size r <? 0 then -1 else 0, c).

Definition o9_9p_open (fid mode : Z) (c : conn) : Z * conn :=
  let '(r, c) := o9_9p_rpc (frame 12 112 (PUT4 fid ++ [u8 mode])) 256 113 c in
  (if rpc_size r <? 0 then -1 else 0, c).

Definition o9_9p_clunk (fid : Z) (c : conn) : Z * conn :=
  let '(r, c) := o9_9p_rpc (frame 11 120 (PUT4 fid)) 64 121 c in
  (if rpc_size r <? 0 then -1 else 0, c).

Definition o9_9p_create (fid : Z) (name : bytes) (perm mode : Z) (c : conn) : Z * conn :=
  let n := Z.of_nat (length name) in
  if 400 <? n then (-1, c) else
  let tx := frame (18 + n) 114 (PUT4 fid ++ PUT2 n ++ name ++ PUT4 perm ++ [u8 mode]) in
  let '(r, c) := o9_9p_rpc tx 256 115 c in
  (if rpc_size r <? 0 then -1 else 0, c).

(** [PUT4] of the two halves of an offset. *)
Definition put_off (off : Z) : bytes := PUT4 (Z.land off 0xffffffff) ++ PUT4 (Z.land (Z.shiftr off 32) 0xffffffff).

Definition twrite (fid off : Z) (data : bytes) : bytes :=
  let n := Z.of_nat (length data) in frame (23 + n) 118 (PUT4 fid ++ put_off off ++ PUT4 n ++ data).
Definition tread (fid off count : Z) : bytes := frame 23 116 (PUT4 fid ++ put_off off ++ PUT4 count).

(** The largest [chunk] of a write and [max] of a read. *)
Definition WRITE_MAX : nat := 8169.
Definition READ_MAX : Z := 8180.

Fixpoint write_all_loop (fuel : nat) (fid off : Z) (data : bytes) (c : conn) : Z * conn :=
  match fuel, data with
  | _, [] => (0, c)
  | O, _ => (-1, c)
  | Datatypes.S fuel, _ =>
      let part := take WRITE_MAX data in
      let '(r, c) := o9_9p_rpc (twrite fid off part) 256 119 c in
      match r with
      | RReply rx =>
          if GET4 rx <? 11 then (-1, c) else
          let got := GET4 (drop 7 rx) in
          if (got =? 0) || (Z.of_nat (length part) <? got) then (-1, c)
          else write_all_loop fuel fid (off + got) (drop (Z.to_nat got) data) c
      | _ => (-1, c)
      end
  end.

Definition o9_9p_write_bytes_all (fid : Z) (data : option bytes) (c : conn) : Z * conn :=
  let data := default [] data in write_all_loop (length data) fid 0 data c.

(** One read into a buffer of [nbuf]: what is left in it, and the count. *)
Definition o9_9p_read_all (fid nbuf : Z) (c : conn) : option bytes * conn :=
  if nbuf <=? 0 then (None, c) else
  let max := Z.min (nbuf - 1) READ_MAX in
  let '(r, c) := o9_9p_rpc (tread fid 0 max) 8192 117 c in
  match r with
  | RReply rx =>
      if GET4 rx <? 11 then (None, c) else
      let cnt := Z.min (GET4 (drop 7 rx)) max in
      if GET4 rx <? 11 + cnt then (None, c) else (Some (take (Z.to_nat cnt) (drop 11 rx)), c)
  | _ => (None, c)
  end.

Definition FILE_MAX : Z := 4 * 1024 * 1024.

(** [buf] is what has been read; every turn adds to it or is the last. *)
Fixpoint read_file_loop (fuel : nat) (fid : Z) (buf : bytes) (c : conn) : option bytes * conn :=
  match fuel with
  | O => (None, c)
  | Datatypes.S fuel =>
      let '(r, c) := o9_9p_rpc (tread fid (Z.of_nat (length buf)) READ_MAX) 8192 117 c in
      match r with
      | RReply rx =>
          if GET4 rx <? 11 then (None, c) else
          let cnt := GET4 (drop 7 rx) in
          if cnt =? 0 then (Some buf, c)
          else if (READ_MAX <? cnt) || (GET4 rx <? 11 + cnt) then (None, c)
          else
            let buf := buf ++ take (Z.to_nat cnt) (drop 11 rx) in
            if FILE_MAX <? Z.of_nat (length buf) then (None, c) else read_file_loop fuel fid buf c
      | _ => (None, c)
      end
  end.

Definition o9_9p_read_file_all (fid : Z) (c : conn) : option bytes * conn :=
  read_file_loop (Z.to_nat (FILE_MAX + 2)) fid [] c.

(** ** Connecting *)

Definition near_addr (addr : bytes) (distance : Z) : bytes :=
  snprint 256
    (if bool_decide (head addr = Some x2f) || starts_with (str "il!") addr || starts_with (str "tcp!") addr ||
        starts_with (str "net!") addr then addr
     else if distance =? 0 then str "il!" ++ addr else str "tcp!" ++ addr).

Definition tversion : bytes := frame 19 100 (PUT4 4096 ++ [u8 6; NUL] ++ str "9P2000").
Definition tattach (user : bytes) : bytes :=
  let uname := snprint 64 (if bool_decide (user = []) then str "none" else user) in
  let rest := PUT4 1 ++ PUT4 NOFID ++ PUT2 (Z.of_nat (length uname)) ++ uname ++ PUT2 1 ++ str "/" in
  frame (7 + Z.of_nat (length rest)) 104 rest.

(** [dial]: whether an address answers; [s] is what the server has. *)
Definition o9_connect (dial : bytes -> bool) (user : bytes) (addr : bytes) (distance : Z) (s : S) : option conn * S :=
  if dial (near_addr addr distance) then
    let '(r, c) := o9_9p_rpc tversion 256 101 (Conn s [] [] 0) in
    if rpc_size r <? 0 then (None, k_srv c) else
    let '(r, c) := o9_9p_rpc (tattach user) 256 105 c in
    if rpc_size r <? 0 then (None, k_srv c) else (Some c, k_srv c)
  else (None, s).

(** ** Remote tabulae *)

(** A C string in a [char] array: the bytes are signed. *)
Definition o9_tab_remote_name (ndst : nat) (name : bytes) : option bytes :=
  if bool_decide (name = []) then None
  else if existsb (fun p => bool_decide (p = x2f) || (schar p <? 32) || bool_decide (uchar p = 127)) name then None
  else
    let n := length name in
    Some (snprint ndst (if decide (4 < n)%nat then if bool_decide (drop (n - 4) name = str ".tab") then name else name ++ str ".tab"
                        else name ++ str ".tab")).

Definition OREAD : Z := 0.
Definition OWRITE : Z := 1.
Definition OTRUNC : Z := 16.

(** [goto out] after [exports] and perhaps the file have been walked to. *)
Definition clunk_if (b : bool) (fid : Z) (c : conn) : conn := if b then (o9_9p_clunk fid c).2 else c.

Section tabulae.
Context {L : libtab} (w : Z) (reopen : bytes -> bytes -> option O9Tabula) (pid : Z).

Definition fetch (fname : bytes) (c : conn) : option bytes * conn :=
  let '(rv, c) := o9_9p_walk1 1 30 (str "exports") c in
  if rv <? 0 then (None, c) else
  let '(rv, c) := o9_9p_walk1 30 31 fname c in
  if rv <? 0 then (None, clunk_if true 30 c) else
  let '(rv, c) := o9_9p_open 31 OREAD c in
  let '(data, c) := if rv <? 0 then (None, c) else o9_9p_read_file_all 31 c in
  (data, clunk_if true 30 (clunk_if true 31 c)).

Definition o9_tab_open_remote_fd (name : bytes) (c : conn) : option O9Tabula * conn :=
  match o9_tab_remote_name 128 name with
  | None => (None, c)
  | Some fname =>
      let '(data, c) := fetch fname c in
      let tmp := snprint 256 (str "/tmp/o9tab." ++ itoa pid ++ str "." ++ fname) in
      (data ≫= reopen tmp, c)
  end.

Definition o9_tab_push_remote_fd (name : bytes) (t : O9Tabula) (c : conn) : Z * conn :=
  match o9_tab_remote_name 128 name, o9_tab_serialize w t with
  | Some fname, Some data =>
      let '(rv, c) := o9_9p_walk1 1 40 (str "imports") c in
      if rv <? 0 then (-1, c) else
      let '(rv, c) := o9_9p_walk1 40 41 fname c in
      let havefile := rv =? 0 in
      let '(rv, c) := if havefile then o9_9p_open 41 (Z.lor OWRITE OTRUNC) c else o9_9p_create 40 fname 438 (* 0666 *) OWRITE c in
      let '(rv, c) := if rv <? 0 then (-1, c) else o9_9p_write_bytes_all (if havefile then 41 else 40) (Some data) c in
      (if rv <? 0 then -1 else 0, clunk_if true 40 (clunk_if havefile 41 c))
  | _, _ => (-1, c)
  end.

(** A tabula with where it came from. *)
Record remote := Remote { rt_tab : O9Tabula; rt_addr : option bytes; rt_name : option bytes; rt_distance : Z; rt_fd : option conn }.

Definition o9_tab_set_remote (addr name : option bytes) (distance : Z) (fd : option conn) (t : remote) : remote :=
  Remote (rt_tab t) addr name distance fd.

Context (dial : bytes -> bool) (user : bytes).

Definition o9_tab_open_remote (addr name : ostring) (distance : Z) (s : S) : option remote * S :=
  match addr, name with
  | Some addr, Some name =>
      match o9_tab_remote_name 128 (cstr name) with
      | None => (None, s)
      | Some fname =>
          let '(fd, s) := o9_connect dial user (cstr addr) distance s in
          match fd with
          | None => (None, s)
          | Some c =>
              let '(t, c) := o9_tab_open_remote_fd fname c in
              ((fun t => o9_tab_set_remote (Some (cstr addr)) (Some fname) distance (Some c) (Remote t None None (-1) None)) <$> t,
               k_srv c)
          end
      end
  | _, _ => (None, s)
  end.

Definition o9_tab_push_remote (addr name : ostring) (t : O9Tabula) (distance : Z) (s : S) : Z * S :=
  match addr, name with
  | Some addr, Some name =>
      let '(fd, s) := o9_connect dial user (cstr addr) distance s in
      match fd with
      | None => (-1, s)
      | Some c => let '(rv, c) := o9_tab_push_remote_fd (cstr name) t c in (rv, k_srv c)
      end
  | _, _ => (-1, s)
  end.

(** The open connection, at the server's state [s]. *)
Definition at_server (s : S) (c : conn) : conn := Conn s (k_part c) (k_in c) (k_calls c).
Definition set_fd (fd : option conn) (t : remote) : remote := Remote (rt_tab t) (rt_addr t) (rt_name t) (rt_distance t) fd.

Definition o9_tab_push (t : remote) (s : S) : Z * remote * S :=
  match rt_addr t, rt_name t with
  | Some addr, Some name =>
      if rt_distance t <? 0 then (-1, t, s) else
      match rt_fd t with
      | Some c => let '(rv, c) := o9_tab_push_remote_fd name (rt_tab t) (at_server s c) in (rv, set_fd (Some c) t, k_srv c)
      | None =>
          let '(rv, s) := o9_tab_push_remote (o9_string_from_c w (Some addr)) (o9_string_from_c w (Some name)) (rt_tab t)
                            (rt_distance t) s in (rv, t, s)
      end
  | _, _ => (-1, t, s)
  end.

(** The table is replaced by the one that the server has now. *)
Definition o9_tab_sync (t : remote) (s : S) : Z * remote * S :=
  match rt_addr t, rt_name t with
  | Some addr, Some name =>
      if rt_distance t <? 0 then (-1, t, s) else
      let '(fresh, t, s) :=
        match rt_fd t with
        | Some c => let '(f, c) := o9_tab_open_remote_fd name (at_server s c) in (f, set_fd (Some c) t, k_srv c)
        | None =>
            let '(f, s) := o9_tab_open_remote (o9_string_from_c w (Some addr)) (o9_string_from_c w (Some name)) (rt_distance t) s in
            (rt_tab <$> f, t, s)
        end in
      match fresh with
      | None => (-1, t, s)
      | Some f => (0, Remote (MkTabula (t_tab f) None (t_it f)) (rt_addr t) (rt_name t) (rt_distance t) (rt_fd t), s)
      end
  | _, _ => (-1, t, s)
  end.
End tabulae.
End client.
Arguments conn : clear implicits.
