(* ===== verification/ClientSpec.v ===== *)
(** * What the 9P client gets across

    A request's result does not depend on how the reads and writes are cut; a
    file that is written and read back through any number of short counts comes
    back whole. *)
From S2P Require Import Prelude Fmt O9Str Mono Tabula Client.

Open Scope Z_scope.

(** ** Frames *)

(** A frame begins with its own length, which leaves room for type and tag. *)
Definition frame_ok (tx : bytes) : Prop := GET4 tx = Z.of_nat (length tx) /\ (7 <= length tx)%nat.

Lemma load32_app s t : (4 <= length s)%nat -> load32_le (s ++ t) = load32_le s.
Proof.
  intros H. rewrite !load32_le_val by (rewrite ?length_app; lia). by rewrite take_app_le by lia.
Qed.

Lemma put4_length v : length (PUT4 v) = 4%nat.
Proof. done. Qed.

Lemma get_put4 v t : 0 <= v < 2 ^ 32 -> GET4 (PUT4 v ++ t) = v.
Proof.
  intros H. unfold GET4, PUT4. rewrite load32_app by done. rewrite load32_le_val by done.
  rewrite store32_le_bytes. change (take 4 (le_bytes 4 v)) with (le_bytes 4 v). cbn [le_bytes le_val].
  rewrite !uchar_to_byte. rewrite !Z.div_div by lia. simpl.
  rewrite (Z.mod_small (v / (256 * 256 * 256)) 256) by (split; [apply Z.div_pos; lia | apply Z.div_lt_upper_bound; lia]).
  pose proof (Z.div_mod v 256 ltac:(lia)). pose proof (Z.div_mod (v / 256) 256 ltac:(lia)).
  pose proof (Z.div_mod (v / 256 / 256) 256 ltac:(lia)).
  rewrite !Z.div_div in * by lia. lia.
Qed.

Lemma frame_length n type rest : length (frame n type rest) = (7 + length rest)%nat.
Proof. unfold frame. rewrite !length_app, put4_length. simpl. lia. Qed.

Lemma frame_frame_ok n type rest : n = Z.of_nat (7 + length rest) -> n < 2 ^ 32 -> frame_ok (frame n type rest).
Proof.
  intros E H. split; [|rewrite frame_length; lia]. rewrite frame_length. unfold frame. rewrite get_put4 by lia. done.
Qed.

(** ** Transfers, however they are cut *)

Section transfer.
Context {S : Type} (serve : S -> bytes -> S * bytes) (chunk : nat -> Z).
Hypothesis fair : forall i, 0 < chunk i.

Definition idle (c : conn S) : Prop := k_part c = [] /\ k_in c = [].

Lemma take_frames_partial fuel s part out tx : frame_ok tx -> part `prefix_of` tx -> (length part < length tx)%nat ->
  take_frames serve fuel s part out = (s, part, out).
Proof.
  intros [Hg _] [rest ->] Hl. destruct fuel as [|fuel]; [done|]. cbn [take_frames].
  destruct (decide (4 <= length part)%nat) as [H4|H4]; [|by rewrite (bool_decide_false _ H4)].
  unfold GET4 in Hg. rewrite load32_app in Hg by done. rewrite andb_comm, bool_decide_false; [done|].
  unfold GET4. rewrite Hg, Nat2Z.id. lia.
Qed.

Lemma take_frames_whole fuel s out tx : frame_ok tx -> (0 < fuel)%nat ->
  take_frames serve fuel s tx out = let '(s', a) := serve s tx in (s', [], out ++ a).
Proof.
  intros [Hg Hl] Hf. destruct fuel as [|fuel]; [lia|]. cbn [take_frames]. rewrite Hg, Nat2Z.id.
  rewrite !bool_decide_true by lia. simpl. rewrite firstn_all, drop_all. destruct (serve s tx) as [s' a].
  by destruct fuel.
Qed.

Lemma write_loop_frame tx : frame_ok tx -> forall fuel rest c, k_part c ++ rest = tx -> k_in c = [] -> rest <> [] ->
  (length rest <= fuel)%nat ->
  exists calls, write_loop serve chunk fuel rest c =
    (0, let '(s', a) := serve (k_srv c) tx in Conn s' [] a calls).
Proof.
  intros Hok. induction fuel as [|fuel IH]; intros rest c Hp Hin Hne Hl; [destruct rest; simpl in Hl; [done|lia]|].
  destruct rest as [|b rest]; [done|]. cbn [write_loop]. set (buf := b :: rest) in *. unfold sys_write.
  pose proof (fair (k_calls c)). set (n := Z.min _ _). assert (Hn : 0 < n <= Z.of_nat (length buf)) by (subst n buf; simpl; lia).
  rewrite (proj2 (Z.leb_gt n 0)) by lia.
  assert (Ht : length tx = (length (k_part c) + length buf)%nat) by (rewrite <- Hp, length_app; done).
  destruct (decide (n = Z.of_nat (length buf))) as [->|Hlt].
  - rewrite Nat2Z.id, firstn_all, Hp, Hin, (take_frames_whole _ _ _ tx) by (destruct Hok; done || lia).
    destruct (serve (k_srv c) tx) as [s' a]. rewrite (proj2 (Z.leb_gt _ 0)) by lia. rewrite Nat2Z.id, drop_all. simpl.
    destruct fuel; eauto.
  - rewrite (take_frames_partial _ _ _ _ tx) by
      (done || (rewrite <- Hp; apply prefix_app, prefix_take) || (rewrite length_app, length_take; lia)).
    rewrite (proj2 (Z.leb_gt n 0)) by lia.
    apply (IH (drop (Z.to_nat n) buf) (Conn (k_srv c) (k_part c ++ take (Z.to_nat n) buf) (k_in c) (k_calls c + 1))); simpl; try done.
    + by rewrite <- app_assoc, take_drop.
    + intros E. apply (f_equal length) in E. rewrite length_drop in E. change (length (@nil byte)) with 0%nat in E. lia.
    + rewrite length_drop. lia.
Qed.

Lemma sys_read_eq n (c : conn S) : sys_read chunk n c =
  let k := Z.to_nat (Z.min (chunk (k_calls c)) (Z.of_nat n)) in
  (take k (k_in c), Conn (k_srv c) (k_part c) (drop k (k_in c)) (k_calls c + 1)).
Proof. done. Qed.

(** Reads of [r], of which [rx] has come in. *)
Lemma read_until_whole need cap r : (need <= cap)%nat -> (need <= length r)%nat ->
  forall fuel rx (c : conn S), rx ++ k_in c = r -> (length rx <= cap)%nat -> (need <= length rx + fuel)%nat ->
  exists m calls, (need <= m)%nat /\ (length rx <= m)%nat /\ (m <= Nat.max cap (length rx))%nat /\ (m <= length r)%nat /\
    read_until chunk fuel need cap rx c = (Some (take m r), Conn (k_srv c) (k_part c) (drop m r) calls).
Proof.
  intros Hc Hr. induction fuel as [|fuel IH]; intros rx c Hrx Hcap Hf; cbn [read_until]; case_decide as D.
  - lia.
  - exists (length rx), (k_calls c). rewrite <- Hrx, take_app_length, drop_app_length, length_app. repeat split; try lia. by destruct c.
  - unfold sys_read. pose proof (fair (k_calls c)).
    set (k := Z.to_nat _). assert (Hk : (1 <= k <= cap - length rx)%nat) by (subst k; lia).
    assert (Hin : (1 <= length (k_in c))%nat) by (rewrite <- Hrx, length_app in Hr; lia).
    rewrite bool_decide_false by (destruct (k_in c), k; simpl in Hin; [lia|lia|lia|done]).
    destruct (IH (rx ++ take k (k_in c)) (Conn (k_srv c) (k_part c) (drop k (k_in c)) (k_calls c + 1))) as (m & calls & H1 & H2 & H3 & H4 & ->).
    + simpl. by rewrite <- app_assoc, take_drop.
    + rewrite length_app, length_take. lia.
    + rewrite length_app, length_take. lia.
    + rewrite length_app, length_take in *. exists m, calls. repeat split; lia.
  - exists (length rx), (k_calls c). rewrite <- Hrx, take_app_length, drop_app_length, length_app. repeat split; try lia. by destruct c.
Qed.

Lemma drain_whole fuel : forall c : conn S, (length (k_in c) <= fuel)%nat ->
  exists calls, drain_loop chunk fuel (Z.of_nat (length (k_in c))) c = (0, Conn (k_srv c) (k_part c) [] calls).
Proof.
  induction fuel as [|fuel IH]; intros c Hl; cbn [drain_loop].
  - destruct c as [s p [|] k]; simpl in *; [eauto|lia].
  - destruct (k_in c) as [|b l] eqn:E; [exists (k_calls c); destruct c; simpl in *; by rewrite E|].
    rewrite (proj2 (Z.leb_gt _ 0)) by (simpl; lia). rewrite <- E in *. unfold sys_read. pose proof (fair (k_calls c)).
    set (k := Z.to_nat (Z.min (chunk _) _)).
    assert (Hk : (1 <= k <= length (k_in c))%nat) by (subst k; rewrite E; simpl; lia).
    rewrite bool_decide_false by (rewrite E; destruct k; [lia|done]).
    rewrite length_take, Nat.min_l by lia.
    destruct (IH (Conn (k_srv c) (k_part c) (drop k (k_in c)) (k_calls c + 1))) as (calls & H'); simpl.
    + rewrite length_drop. lia.
    + simpl in H'. rewrite length_drop, Nat2Z.inj_sub in H' by lia. exists calls. exact H'.
Qed.

(** ** A request and its reply *)

(** Whatever pieces the system moves the bytes in, a request that the server answers with one whole frame gives that
    frame, classified, when it fits the buffer, and fails otherwise; in both cases the connection is left between two
    frames, with nothing unread. *)
Lemma rpc_any_chunking tx nrx want c s r : idle c -> frame_ok tx -> serve (k_srv c) tx = (s, r) -> frame_ok r ->
  Z.of_nat (length r) < 2 ^ 31 -> (4 <= nrx)%nat ->
  exists calls, o9_9p_rpc serve chunk tx nrx want c =
    (if decide (length r <= nrx)%nat then classify want r else RFail, Conn s [] [] calls).
Proof.
  intros [Hp Hi] Ht Hs Hr Hb Hn. pose proof Hr as [Hg Hl]. unfold o9_9p_rpc, o9_write_full.
  destruct (write_loop_frame tx Ht (length tx) tx c) as (k0 & ->); [by rewrite Hp|done|destruct Ht, tx; simpl in *; [lia|done]|done|].
  rewrite Hs. cbn -[read_until sys_read o9_drain]. rewrite sys_read_eq. cbn -[read_until sys_read o9_drain]. pose proof (fair k0).
  set (k := Z.to_nat _). assert (Hk : (1 <= k <= nrx)%nat) by (subst k; lia).
  rewrite bool_decide_false by (destruct k, r; simpl in *; [lia|lia|lia|done]).
  destruct (read_until_whole 4 nrx r ltac:(lia) ltac:(lia) 4 (take k r) (Conn s [] (drop k r) (k0 + 1))) as (m & k1 & H1 & H2 & H3 & H4 & ->);
    [cbn; by rewrite take_drop|rewrite length_take; lia|rewrite length_take; lia|].
  assert (Hm : (m <= nrx)%nat) by (rewrite length_take in H3; lia).
  assert (E : GET4 (take m r) = Z.of_nat (length r)).
  { rewrite <- Hg. unfold GET4. rewrite <- (take_drop m r) at 2. by rewrite load32_app by (rewrite length_take; lia). }
  rewrite E. rewrite (proj2 (Z.ltb_ge _ 5)) by lia. cbn [k_srv k_part].
  case_decide as D.
  - rewrite (proj2 (Z.ltb_ge _ _)) by lia. rewrite Nat2Z.id.
    destruct (read_until_whole (length r) (length r) r ltac:(lia) ltac:(lia) (length r) (take m r) (Conn s [] (drop m r) k1))
      as (m' & k2 & G1 & G2 & G3 & G4 & ->); [cbn; by rewrite take_drop|rewrite length_take; lia|lia|].
    exists k2. replace m' with (length r) by lia. by rewrite firstn_all, drop_all.
  - rewrite (proj2 (Z.ltb_lt _ _)) by lia.
    destruct (read_until_whole nrx nrx r ltac:(lia) ltac:(lia) nrx (take m r) (Conn s [] (drop m r) k1))
      as (m' & k2 & G1 & G2 & G3 & G4 & ->); [cbn; by rewrite take_drop|rewrite length_take; lia|lia|].
    assert (m' = nrx) as -> by (rewrite length_take in *; lia). cbn [k_srv k_part].
    rewrite wraps_id by lia. unfold o9_drain.
    destruct (drain_whole (length r - nrx) (Conn s [] (drop nrx r) k2)) as (k3 & H'); [simpl; rewrite length_drop; lia|].
    simpl in H'. rewrite length_drop in H'. replace (Z.of_nat (length r) - Z.of_nat nrx) with (Z.of_nat (length r - nrx)) by lia.
    rewrite Nat2Z.id, H'. eauto.
Qed.
End transfer.

(** ** A file of the server *)

Definition rread (data : bytes) : bytes := frame (11 + Z.of_nat (length data)) 117 (PUT4 (Z.of_nat (length data)) ++ data).
Definition rwrite (n : Z) : bytes := frame 11 119 (PUT4 n).

Definition overwrite (i : nat) (d f : bytes) : bytes := take i f ++ d ++ drop (i + length d) f.

(** What intro(5), version(5), read(5) and write(5) say of a file that is open as [fid], on a connection whose messages
    have at most [msize] bytes: a read gives some bytes at the offset, none only at the end; a write takes some of its
    bytes.  Nothing is said of a message longer than [msize]. *)
Record serves_file {S} (serve : S -> bytes -> S * bytes) (msize : Z) (file : S -> bytes) (fid : Z) : Prop := {
  sf_read s off count : 0 <= off < 2 ^ 62 -> 0 < count <= READ_MAX -> exists s' data,
    serve s (tread fid off count) = (s', rread data) /\ data `prefix_of` drop (Z.to_nat off) (file s) /\
    Z.of_nat (length data) <= count /\ 11 + Z.of_nat (length data) <= msize /\ (data = [] -> Z.of_nat (length (file s)) <= off) /\ file s' = file s;
  sf_write s off data : (off <= length (file s))%nat -> Z.of_nat off < 2 ^ 62 -> data <> [] -> 23 + Z.of_nat (length data) <= msize ->
    exists s' n, serve s (twrite fid (Z.of_nat off) data) = (s', rwrite (Z.of_nat n)) /\ (1 <= n <= length data)%nat /\
    file s' = overwrite off (take n data) (file s);
}.

Lemma drop_frame n type rest : drop 7 (frame n type rest) = rest.
Proof. done. Qed.

Lemma frame_type n type rest : 0 <= type < 256 -> at_ (frame n type rest) 4 = type.
Proof. intros H. unfold at_. simpl. unfold u8. rewrite uchar_to_byte. by apply Z.mod_small. Qed.

Lemma classify_frame want n rest : 0 < want < 256 -> want <> 107 -> classify want (frame n want rest) = RReply (frame n want rest).
Proof.
  intros H N. unfold classify. rewrite frame_type by lia. rewrite (proj2 (Z.eqb_neq want 107)) by done.
  by rewrite Z.eqb_refl, andb_false_r.
Qed.

Lemma put_off_length off : length (put_off off) = 8%nat.
Proof. done. Qed.

Lemma tread_ok fid off count : frame_ok (tread fid off count).
Proof. by apply frame_frame_ok. Qed.

Lemma twrite_ok fid off data : (length data <= WRITE_MAX)%nat -> frame_ok (twrite fid off data).
Proof.
  intros H. assert (Z.of_nat WRITE_MAX = 8169) by done.
  apply frame_frame_ok; [rewrite !length_app, !put4_length, put_off_length; lia | lia].
Qed.

Section file.
Context {S : Type} (serve : S -> bytes -> S * bytes) (chunk : nat -> Z).
Context (msize : Z) (file : S -> bytes) (fid : Z).
Hypothesis fair : forall i, 0 < chunk i.
Hypothesis served : serves_file serve msize file fid.

Lemma read_step (c : conn S) off : idle c -> 0 <= off < 2 ^ 62 -> exists data s calls,
  o9_9p_rpc serve chunk (tread fid off READ_MAX) 8192 117 c = (RReply (rread data), Conn s [] [] calls) /\
  data `prefix_of` drop (Z.to_nat off) (file (k_srv c)) /\ Z.of_nat (length data) <= READ_MAX /\
  (data = [] -> Z.of_nat (length (file (k_srv c))) <= off) /\ file s = file (k_srv c).
Proof.
  intros Hi Ho. assert (H8 : Z.of_nat 8192 = 8192) by done. destruct (sf_read _ _ _ _ served (k_srv c) off READ_MAX Ho ltac:(done)) as (s & data & E & Hp & Hl & _ & He & Hf).
  assert (Hr : frame_ok (rread data)).
  { apply frame_frame_ok; [rewrite length_app, put4_length; lia|]. unfold READ_MAX in Hl. lia. }
  destruct (rpc_any_chunking serve chunk fair _ 8192 117 c s _ Hi (tread_ok _ _ _) E Hr) as (calls & ->).
  - unfold rread. rewrite frame_length, length_app, put4_length. unfold READ_MAX in Hl. lia.
  - lia.
  - exists data, s, calls. rewrite decide_True; [|unfold rread; rewrite frame_length, length_app, put4_length; unfold READ_MAX in Hl; lia].
    unfold rread at 1. rewrite classify_frame by lia. done.
Qed.

Lemma read_loop_file fuel : forall (buf : bytes) (c : conn S), idle c -> buf `prefix_of` file (k_srv c) ->
  Z.of_nat (length buf) <= FILE_MAX -> FILE_MAX + 2 <= Z.of_nat fuel + Z.of_nat (length buf) ->
  exists s calls, read_file_loop serve chunk fuel fid buf c =
    (if decide (Z.of_nat (length (file (k_srv c))) <= FILE_MAX) then Some (file (k_srv c)) else None, Conn s [] [] calls) /\
    file s = file (k_srv c).
Proof.
  assert (HM : FILE_MAX < 2 ^ 62) by done.
  induction fuel as [|fuel IH]; intros buf c Hi [rest Hb] Hl Hf; [unfold FILE_MAX in *; lia|]. cbn [read_file_loop].
  destruct (read_step c (Z.of_nat (length buf)) Hi ltac:(lia)) as (data & s & calls & -> & Hp & Hd & He & Hs).
  assert (Hg : GET4 (rread data) = 11 + Z.of_nat (length data)).
  { unfold rread, frame. apply get_put4. unfold READ_MAX in Hd. lia. }
  rewrite Hg. rewrite (proj2 (Z.ltb_ge _ 11)) by lia.
  change (drop 7 (rread data)) with (PUT4 (Z.of_nat (length data)) ++ data).
  rewrite get_put4 by (unfold READ_MAX in Hd; lia). change (drop 11 (rread data)) with data.
  rewrite Nat2Z.id, Hb, drop_app_length in Hp.
  destruct (decide (data = [])) as [->|Hne].
  - simpl. assert (E : rest = []).
    { specialize (He eq_refl). rewrite Hb, length_app in He. destruct rest; [done|]. simpl in He. lia. }
    subst rest. rewrite app_nil_r in Hb. rewrite Hb, decide_True by done. rewrite <- Hb, <- Hs. eauto.
  - assert (0 < Z.of_nat (length data)) by (destruct data; simpl; [done|lia]).
    rewrite (proj2 (Z.eqb_neq _ 0)) by lia. rewrite (proj2 (Z.ltb_ge READ_MAX _)) by lia.
    rewrite (proj2 (Z.ltb_ge (11 + _) _)) by lia. cbn [orb]. rewrite Nat2Z.id, firstn_all.
    destruct Hp as [rest' ->].
    destruct (FILE_MAX <? _) eqn:Hlt.
    + apply Z.ltb_lt in Hlt. rewrite decide_False; [eauto|]. rewrite Hb, !length_app in *. lia.
    + apply Z.ltb_ge in Hlt. destruct (IH (buf ++ data) (Conn s [] [] calls)) as (s2 & k2 & -> & Hs2).
      * done.
      * cbn [k_srv]. rewrite Hs, Hb. rewrite app_assoc. by eexists.
      * done.
      * rewrite length_app. lia.
      * cbn [k_srv] in *. rewrite Hs in Hs2 |- *. eauto.
Qed.

Lemma overwrite_length i d f : (i <= length f)%nat -> length (overwrite i d f) = Nat.max (length f) (i + length d).
Proof. intros H. unfold overwrite. rewrite !length_app, length_take, length_drop. lia. Qed.

Lemma overwrite_twice i d1 d2 f : (i <= length f)%nat ->
  overwrite (i + length d1) d2 (overwrite i d1 f) = overwrite i (d1 ++ d2) f.
Proof.
  intros H. unfold overwrite. rewrite (app_assoc (take i f) d1). assert (Hl : length (take i f ++ d1) = (i + length d1)%nat)
    by (rewrite length_app, length_take; lia).
  rewrite take_app_length' by done. rewrite drop_app_ge by lia. rewrite Hl, drop_drop, <- !app_assoc, length_app.
  do 4 f_equal. lia.
Qed.

Lemma write_loop_file fuel : forall data off (c : conn S), idle c -> (off <= length (file (k_srv c)))%nat ->
  Z.of_nat (off + length data) < 2 ^ 62 -> 23 + Z.of_nat (Nat.min (length data) WRITE_MAX) <= msize -> (length data <= fuel)%nat ->
  exists s calls, write_all_loop serve chunk fuel fid (Z.of_nat off) data c = (0, Conn s [] [] calls) /\
    file s = overwrite off data (file (k_srv c)).
Proof.
  induction fuel as [|fuel IH]; intros data off c Hi Ho Hb Hms Hf.
  { destruct data; [|simpl in Hf; lia]. destruct c as [s p i k], Hi as [Hp Hin]. simpl in *. subst. exists s, k. split; [done|].
    unfold overwrite. simpl. by rewrite Nat.add_0_r, take_drop. }
  destruct (decide (data = [])) as [->|Hne].
  { destruct c as [s p i k], Hi as [Hp Hin]. simpl in *. subst. exists s, k. split; [done|].
    unfold overwrite. simpl. by rewrite Nat.add_0_r, take_drop. }
  assert (Hcase : write_all_loop serve chunk (Datatypes.S fuel) fid (Z.of_nat off) data c =
    let part := take WRITE_MAX data in
    let '(r, c) := o9_9p_rpc serve chunk (twrite fid (Z.of_nat off) part) 256 119 c in
      match r with
      | RReply rx =>
          if GET4 rx <? 11 then (-1, c) else
          let got := GET4 (drop 7 rx) in
          if (got =? 0) || (Z.of_nat (length part) <? got) then (-1, c)
          else write_all_loop serve chunk fuel fid (Z.of_nat off + got) (drop (Z.to_nat got) data) c
      | _ => (-1, c)
      end) by (by destruct data). rewrite Hcase. clear Hcase. cbv zeta. set (part := take WRITE_MAX data).
  assert (Hw : Z.of_nat WRITE_MAX = 8169) by done.
  assert (Hpl : (1 <= length part <= WRITE_MAX)%nat /\ (length part <= length data)%nat).
  { unfold part. rewrite length_take. destruct data; [done|]. cbn [length]. lia. }
  assert (Hpn : part <> []) by (destruct part; simpl in Hpl; [lia|done]).
  destruct (sf_write _ _ _ _ served (k_srv c) off part Ho ltac:(lia) Hpn ltac:(unfold part; rewrite length_take; lia)) as (s & n & E & Hn & Hs).
  destruct (rpc_any_chunking serve chunk fair (twrite fid (Z.of_nat off) part) 256 119 c s (rwrite (Z.of_nat n)) Hi) as (calls & ->).
  { apply twrite_ok. lia. }
  { done. }
  { by apply frame_frame_ok. }
  { done. }
  { lia. }
  rewrite decide_True by (unfold rwrite; rewrite frame_length, put4_length; lia).
  unfold rwrite at 1. rewrite classify_frame by lia.
  assert (Hg : GET4 (frame 11 119 (PUT4 (Z.of_nat n))) = 11) by done. rewrite Hg. cbn [Z.ltb Z.compare Pos.compare Pos.compare_cont].
  change (drop 7 (frame 11 119 (PUT4 (Z.of_nat n)))) with (PUT4 (Z.of_nat n)).
  assert (Hgot : GET4 (PUT4 (Z.of_nat n)) = Z.of_nat n) by (rewrite <- (app_nil_r (PUT4 _)); apply get_put4; lia). rewrite Hgot.
  rewrite (proj2 (Z.eqb_neq _ 0)) by lia. rewrite (proj2 (Z.ltb_ge _ _)) by lia. cbn [orb].
  rewrite Nat2Z.id, <- Nat2Z.inj_add.
  destruct (IH (drop n data) (off + n)%nat (Conn s [] [] calls)) as (s2 & k2 & -> & Hs2).
  - done.
  - cbn [k_srv]. rewrite Hs, overwrite_length, length_take by lia. lia.
  - rewrite length_drop. lia.
  - rewrite length_drop. lia.
  - rewrite length_drop. lia.
  - exists s2, k2. split; [done|]. rewrite Hs2. cbn [k_srv]. rewrite Hs.
    assert (Hln : length (take n part) = n) by (rewrite length_take; lia). rewrite <- Hln at 1. rewrite overwrite_twice by done.
    f_equal. unfold part. rewrite take_take, Nat.min_l by lia. apply take_drop.
Qed.
End file.

(** ** Tabulae over any connection *)

(** The message that carries [data], cut to what the client puts into one. *)
Lemma twrite_size fid off (data : bytes) :
  Z.of_nat (length (twrite fid off (take WRITE_MAX data))) = 23 + Z.of_nat (Nat.min (length data) WRITE_MAX).
Proof. unfold twrite. rewrite frame_length, !length_app, !put4_length, put_off_length, length_take. lia. Qed.

(** C37: What the client writes to an open file of a server it reads back whole, if each of its write messages fits the
    largest message of the connection: for every way in which the system cuts the transfers and every choice of short
    counts by the server, the write succeeds and leaves the data at the start of the file, and the read ends, with the
    file's bytes up to four megabytes and with a failure above; the connection stays in step. A server that keeps to the
    4096 bytes that [o9_connect] offers thus takes up to 4073 bytes; of more bytes than fit, the first message is already
    too long, and nothing is claimed ([write_exceeds_msize]). *)
Theorem remote_file_roundtrip {S} (serve : S -> bytes -> S * bytes) msize chunk file fid (c : conn S) data :
  (forall i, 0 < chunk i) -> serves_file serve msize file fid -> idle c -> Z.of_nat (length data) < 2 ^ 31 ->
  (Z.of_nat (length (twrite fid 0 (take WRITE_MAX data))) <= msize ->
   exists c1 c2, let f := data ++ drop (length data) (file (k_srv c)) in
    o9_9p_write_bytes_all serve chunk fid (Some data) c = (0, c1) /\ file (k_srv c1) = f /\
    o9_9p_read_file_all serve chunk fid c1 = (if decide (Z.of_nat (length f) <= FILE_MAX) then Some f else None, c2) /\
    file (k_srv c2) = f /\ idle c2) /\
  (msize <= 4096 ->
   (Z.of_nat (length (twrite fid 0 (take WRITE_MAX data))) <= msize <-> 23 + Z.of_nat (length data) <= msize)).
Proof.
  intros Fa Sv Hi Hl. assert (Hw : Z.of_nat WRITE_MAX = 8169) by done. rewrite twrite_size. split; [intros Hms|lia].
  destruct (write_loop_file serve chunk msize file fid Fa Sv (length data) data 0 c Hi) as (s & calls & W & Hs); [lia|lia|lia|lia|].
  destruct (read_loop_file serve chunk msize file fid Fa Sv (Z.to_nat (FILE_MAX + 2)) [] (Conn s [] [] calls)) as (s2 & k2 & R & Hs2);
    [done|apply prefix_nil|done|rewrite Z2Nat.id by done; simpl; lia|].
  exists (Conn s [] [] calls), (Conn s2 [] [] k2). cbv zeta. unfold o9_9p_write_bytes_all, o9_9p_read_file_all. simpl default.
  change 0 with (Z.of_nat 0). rewrite W. cbn [k_srv] in *. change (file s = data ++ drop (length data) (file (k_srv c))) in Hs.
  split; [done|]. split; [done|]. rewrite R, <- Hs. repeat split; done.
Qed.

(** A server with one file, that reads three bytes at a time and writes two. *)
Definition GET8 (p : bytes) : nat := Z.to_nat (le_val (take 8 p)).
Definition demo_serve (s tx : bytes) : bytes * bytes :=
  let off := GET8 (drop 11 tx) in
  if at_ tx 4 =? 116 then (s, rread (take (Nat.min 3 (Z.to_nat (GET4 (drop 19 tx)))) (drop off s)))
  else let data := take 2 (drop 23 tx) in (overwrite off data s, rwrite (Z.of_nat (length data))).

Definition demo_chunk (i : nat) : Z := 1 + Z.of_nat i mod 3.

Lemma put_off_bytes off : put_off off = le_bytes 8 off.
Proof.
  unfold put_off, PUT4. rewrite !store32_le_bytes. change 8%nat with (4 + 4)%nat. rewrite le_bytes_app.
  change 0xffffffff with (Z.ones 32). rewrite !Z.land_ones, Z.shiftr_div_pow2 by lia.
  change (2 ^ 32) with (256 ^ Z.of_nat 4). by rewrite !le_bytes_mod.
Qed.

Lemma get_off off rest : 0 <= off < 2 ^ 62 -> GET8 (put_off off ++ rest) = Z.to_nat off.
Proof.
  intros H. unfold GET8. rewrite take_app_length' by done. rewrite put_off_bytes, le_val_bytes. rewrite Z.mod_small; [done|].
  change (256 ^ Z.of_nat 8) with (2 ^ 64). lia.
Qed.

Lemma demo_serves fid : serves_file demo_serve 4096 id fid.
Proof.
  split.
  - intros s off count Ho Hc. unfold demo_serve. unfold tread at 1 2 3. rewrite frame_type by lia.
    change (drop 11 _) with (put_off off ++ PUT4 count). rewrite get_off by done.
    change (drop 19 _) with (PUT4 count). rewrite <- (app_nil_r (PUT4 count)), get_put4 by (unfold READ_MAX in Hc; lia).
    simpl Z.eqb. cbv iota. eexists s, _. split; [reflexivity|]. split; [apply prefix_take|]. split; [rewrite length_take; lia|].
    split; [rewrite length_take; lia|]. split; [|done]. intros E. apply (f_equal length) in E. rewrite length_take, length_drop in E. change (length (@nil byte)) with 0%nat in E. unfold id. lia.
  - intros s off data Ho Hb Hn Hl. unfold demo_serve. unfold twrite at 1 2 3. rewrite frame_type by lia.
    change (drop 11 _) with (put_off (Z.of_nat off) ++ PUT4 (Z.of_nat (length data)) ++ data). rewrite get_off by lia.
    change (drop 23 _) with data. simpl Z.eqb. cbv iota. rewrite Nat2Z.id.
    exists (overwrite off (take 2 data) s), (length (take 2 data)). split; [done|]. rewrite length_take.
    split; [destruct data; [done|]; cbn [length]; lia|]. unfold id. f_equal. destruct data as [|? [|? ?]]; done.
Qed.

Lemma remote_file_roundtrip_witness : exists c1 c2,
  o9_9p_write_bytes_all demo_serve demo_chunk 41 (Some (str "a tabula")) (Conn (str "x") [] [] 0) = (0, c1) /\
  o9_9p_read_file_all demo_serve demo_chunk 41 c1 = (Some (str "a tabula"), c2).
Proof.
  destruct (remote_file_roundtrip demo_serve 4096 demo_chunk id 41 (Conn (str "x") [] [] 0) (str "a tabula")) as [H _].
  - intros i. unfold demo_chunk. pose proof (Z.mod_pos_bound (Z.of_nat i) 3). lia.
  - apply demo_serves.
  - done.
  - done.
  - destruct H as (c1 & c2 & H1 & H2 & H3 & _); [by vm_compute|].
    exists c1, c2. split; [exact H1|]. rewrite H3. by rewrite decide_True.
Defined.

(** The client offers 4096 bytes as the largest message, and then writes larger ones. *)
Lemma write_exceeds_msize data : Z.of_nat (length data) = 5000 ->
  GET4 (drop 7 tversion) = 4096 /\ Z.of_nat (length (twrite 41 0 (take WRITE_MAX data))) = 5023.
Proof.
  intros H. split; [done|]. assert (Z.of_nat WRITE_MAX = 8169) by done. rewrite take_ge by lia.
  unfold twrite. rewrite frame_length, !length_app, !put4_length, put_off_length. lia.
Qed.
