(* ===== verification/MutMerge.v ===== *)
(** * Merging the results of a mutation run ([grid/o9mutmerge.c])

    The tool reads the manifest of tasks and the result files below some roots,
    and sorts every result into one of five reports: the first result of a
    task, a repeated one, one that contradicts the first, one of no known task,
    and one that has no row.  The file system is a value: a file with its
    contents or a directory with its entries in the order of [dirread], [None]
    if it cannot be opened.  A report is the list of its lines after the head.
    Allocation succeeds; [w] is the width of [ulong]. *)
From S2P Require Import Prelude Fmt.

Open Scope Z_scope.

(** ** The table of tasks *)

Definition Nhash : Z := 524288.
Definition Maxrow : nat := 8192.

Record Entry := MkEntry { e_id : bytes; e_row : bytes; e_file : bytes; e_seen : bool }.

Inductive node :=
| NFile (name : bytes) (data : option bytes)
| NDir (name : bytes) (entries : option (list node)).

Record totals := Totals {
  manifest_total : Z; deduped_total : Z; missing_total : Z; duplicate_total : Z;
  conflict_total : Z; unexpected_total : Z; malformed_total : Z;
  killed_total : Z; survived_total : Z; timeout_total : Z; infra_total : Z; setup_total : Z; equivalent_total : Z;
}.

Record merge := Merge {
  g_tab : gmap Z (list Entry);
  g_tot : totals;
  g_report : list bytes;
  g_dup : list bytes;
  g_conf : list bytes;
  g_unexp : list bytes;
  g_bad : list bytes;
}.

Definition totals0 : totals := Totals 0 0 0 0 0 0 0 0 0 0 0 0 0.
Definition merge0 : merge := Merge ∅ totals0 [] [] [] [] [].

Definition chain (tab : gmap Z (list Entry)) (h : Z) : list Entry := default [] (tab !! h).

Definition set_tab (tab : gmap Z (list Entry)) (g : merge) : merge :=
  Merge tab (g_tot g) (g_report g) (g_dup g) (g_conf g) (g_unexp g) (g_bad g).
Definition upd_tot (f : totals -> totals) (g : merge) : merge :=
  Merge (g_tab g) (f (g_tot g)) (g_report g) (g_dup g) (g_conf g) (g_unexp g) (g_bad g).

Definition add_manifest (n : Z) (t : totals) : totals :=
  Totals (manifest_total t + n) (deduped_total t) (missing_total t) (duplicate_total t) (conflict_total t)
    (unexpected_total t) (malformed_total t) (killed_total t) (survived_total t) (timeout_total t) (infra_total t)
    (setup_total t) (equivalent_total t).
Definition add_missing (n : Z) (t : totals) : totals :=
  Totals (manifest_total t) (deduped_total t) (missing_total t + n) (duplicate_total t) (conflict_total t)
    (unexpected_total t) (malformed_total t) (killed_total t) (survived_total t) (timeout_total t) (infra_total t)
    (setup_total t) (equivalent_total t).
(** [dedup], [dup], [conf], [unexp], [bad]. *)
Definition add_counts (a b c d e : Z) (t : totals) : totals :=
  Totals (manifest_total t) (deduped_total t + a) (missing_total t) (duplicate_total t + b) (conflict_total t + c)
    (unexpected_total t + d) (malformed_total t + e) (killed_total t) (survived_total t) (timeout_total t) (infra_total t)
    (setup_total t) (equivalent_total t).

(** [Bprint] to a report. *)
Definition put_report (l : bytes) (g : merge) : merge :=
  Merge (g_tab g) (g_tot g) (g_report g ++ [l]) (g_dup g) (g_conf g) (g_unexp g) (g_bad g).
Definition put_dup (l : bytes) (g : merge) : merge :=
  Merge (g_tab g) (g_tot g) (g_report g) (g_dup g ++ [l]) (g_conf g) (g_unexp g) (g_bad g).
Definition put_conf (l : bytes) (g : merge) : merge :=
  Merge (g_tab g) (g_tot g) (g_report g) (g_dup g) (g_conf g ++ [l]) (g_unexp g) (g_bad g).
Definition put_unexp (l : bytes) (g : merge) : merge :=
  Merge (g_tab g) (g_tot g) (g_report g) (g_dup g) (g_conf g) (g_unexp g ++ [l]) (g_bad g).
Definition put_bad (l : bytes) (g : merge) : merge :=
  Merge (g_tab g) (g_tot g) (g_report g) (g_dup g) (g_conf g) (g_unexp g) (g_bad g ++ [l]).

(** The fields of a line, between tabs. *)
Fixpoint tabs (l : list bytes) : bytes :=
  match l with
  | [] => []
  | [x] => x
  | x :: l => x ++ TAB :: tabs l
  end.

Section width.
Variable w : Z.

Definition hstr (s : bytes) : Z :=
  foldl (fun h c => Z.lxor (wrapu w (wrapu w (Z.shiftl h 5) + h)) (uchar c)) 5381 s mod Nhash.

Definition find_entry (tab : gmap Z (list Entry)) (id : bytes) : option Entry :=
  snd <$> list_find (fun e => e_id e = id) (chain tab (hstr id)).

(** [create = 0] is [find_entry]. *)
Definition lookup_create (id : bytes) (g : merge) : merge :=
  match find_entry (g_tab g) id with
  | Some _ => g
  | None =>
      let h := hstr id in
      upd_tot (add_manifest 1) (set_tab (<[h := MkEntry id [] [] false :: chain (g_tab g) h]> (g_tab g)) g)
  end.

(** The stores through the entry that was found. *)
Fixpoint set_seen (id row file : bytes) (l : list Entry) : list Entry :=
  match l with
  | [] => []
  | e :: l => if decide (e_id e = id) then MkEntry id row file true :: l else e :: set_seen id row file l
  end.
Definition mark_seen (id row file : bytes) (g : merge) : merge :=
  let h := hstr id in set_tab (<[h := set_seen id row file (chain (g_tab g) h)]> (g_tab g)) g.

(** ** Rows *)

(** The [n]th field from [p] on, [n] counted from 1. *)
Fixpoint field_at (n : nat) (p : bytes) : bytes :=
  match n, strchr TAB p with
  | S (S n as m), (_, Some rest) => field_at m rest
  | S (S _), (_, None) => []
  | _, (f, _) => f
  end.

Definition field (row : bytes) (n nbuf : nat) : bytes := take (nbuf - 1) (field_at n row).

Definition same_result (a b : bytes) : bool :=
  forallb (fun n => bool_decide (field a n Maxrow = field b n Maxrow)) [1; 3; 4; 5; 6; 9]%nat.

Definition count_result (row : bytes) (t : totals) : totals :=
  let r := field row 5 64 in
  let one := fun s => if streq r (str s) then 1 else 0 in
  Totals (manifest_total t) (deduped_total t) (missing_total t) (duplicate_total t) (conflict_total t)
    (unexpected_total t) (malformed_total t) (killed_total t + one "killed"%string) (survived_total t + one "survived"%string)
    (timeout_total t + one "timeout"%string) (infra_total t + one "infra_fail"%string) (setup_total t + one "setup_error"%string)
    (equivalent_total t + one "equivalent"%string).

(** ** The manifest *)

(** [Brdline]: the line and what follows; none at the end, in a last line
    without newline, or for a line that does not fit the buffer. *)
Definition Bsize : nat := 8192.
Definition Brdline (s : bytes) : option (bytes * bytes) :=
  match strchr NL s with
  | (l, Some rest) => if decide (length l < Bsize)%nat then Some (l, rest) else None
  | (_, None) => None
  end.

Fixpoint manifest_loop (fuel : nat) (first : bool) (s : bytes) (g : merge) : merge :=
  match fuel with
  | O => g
  | S fuel =>
      match Brdline s with
      | None => g
      | Some (line, s) =>
          let id := (strchr TAB (cstr line)).1 in
          manifest_loop fuel false s (if first || bool_decide (id = []) then g else lookup_create id g)
      end
  end.

Definition read_manifest (data : bytes) (g : merge) : merge := manifest_loop (S (length data)) true data g.

(** ** The results *)

Definition second_line (data : option bytes) : option bytes :=
  match data with
  | None => None
  | Some data =>
      let buf := take (Maxrow - 1) data in
      if bool_decide (buf = []) then None else
      match strchr NL (cstr buf) with
      | (_, None) | (_, Some []) => None
      | (_, Some p) => Some (strchr NL p).1
      end
  end.

(** One [.tab] file. *)
Definition merge_file (file root : bytes) (data : option bytes) (g : merge) : merge :=
  match second_line data with
  | None | Some [] => upd_tot (add_counts 0 0 0 0 1) (put_bad (tabs [file; str "empty_or_missing_result_row"]) g)
  | Some row =>
      let id := field row 1 512 in
      if bool_decide (id = []) then upd_tot (add_counts 0 0 0 1 0) (put_unexp (tabs [str "-"; file]) g)
      else match find_entry (g_tab g) id with
      | None => upd_tot (add_counts 0 0 0 1 0) (put_unexp (tabs [id; file]) g)
      | Some e =>
          if e_seen e then
            if same_result (e_row e) row
            then upd_tot (add_counts 0 1 0 0 0) (put_dup (tabs [id; e_file e; file]) g)
            else upd_tot (add_counts 0 0 1 0 0) (put_conf (tabs [id; e_file e; file; e_row e; row]) g)
          else
            put_report (tabs [row; root; file])
              (upd_tot (fun t => count_result row (add_counts 1 0 0 0 0 t)) (mark_seen id row file g))
      end
  end.

Definition node_name (n : node) : bytes := match n with NFile name _ | NDir name _ => name end.
Definition is_tab (name : bytes) : bool :=
  bool_decide (4 <= length name)%nat && bool_decide (drop (length name - 4) name = str ".tab").

(** An entry of the directory [dir]. *)
Fixpoint merge_node (dir root : bytes) (n : node) (g : merge) : merge :=
  let file := dir ++ x2f :: node_name n in
  match n with
  | NFile name data => if is_tab name then merge_file file root data g else g
  | NDir _ None => upd_tot (add_counts 0 0 0 0 1) (put_bad (tabs [root; str "missing_results_dir"]) g)
  | NDir _ (Some l) =>
      (fix merge_list (l : list node) (g : merge) : merge :=
         match l with [] => g | n :: l => merge_list l (merge_node file root n g) end) l g
  end.

Definition merge_results (dir root : bytes) (entries : option (list node)) (g : merge) : merge :=
  match entries with
  | None => upd_tot (add_counts 0 0 0 0 1) (put_bad (tabs [root; str "missing_results_dir"]) g)
  | Some l => foldl (fun g n => merge_node dir root n g) g l
  end.

(** [dirstat] of [root/results]. *)
Definition results_dir (l : list node) : option (option (list node)) :=
  match list_find (fun n => node_name n = str "results") l with
  | Some (_, NDir _ entries) => Some entries
  | _ => None
  end.

Definition merge_root (root : bytes) (entries : option (list node)) (g : merge) : merge :=
  match results_dir (default [] entries) with
  | Some sub => merge_results (root ++ str "/results") root sub g
  | None => merge_results root root entries g
  end.

(** ** The end *)

(** [h], [h + 1], ... *)
Fixpoint indices (n : nat) (h : Z) : list Z := match n with O => [] | S n => h :: indices n (h + 1) end.

Definition write_missing (g : merge) : list bytes * merge :=
  let ids := indices (Z.to_nat Nhash) 0 ≫= fun h => e_id <$> filter (fun e => e_seen e = false) (chain (g_tab g) h) in
  (ids, upd_tot (add_missing (Z.of_nat (length ids))) g).

(** The reports, the missing tasks and whether the tool exits without error. *)
Definition main (manifest : bytes) (roots : list (bytes * option (list node))) : merge * list bytes * bool :=
  let g := read_manifest manifest merge0 in
  let g := foldl (fun g r => merge_root r.1 r.2 g) g roots in
  let '(missing, g) := write_missing g in
  let t := g_tot g in
  (g, missing, (missing_total t =? 0) && (conflict_total t =? 0) && (unexpected_total t =? 0) && (malformed_total t =? 0)).
End width.
