(* ===== verification/MutMergeSpec.v ===== *)
(** * What the merge of mutation results reports

    The reports of [MutMerge] as a function of the manifest's ids and of the
    sequence of results that are visited, without the hash table. *)
From S2P Require Import Prelude Fmt MutMerge.

Open Scope Z_scope.

(** ** The results in the order of the visit *)

Inductive visit := VDir | VFile (file : bytes) (data : option bytes).

Fixpoint visit_node (dir : bytes) (n : node) : list visit :=
  let file := dir ++ x2f :: node_name n in
  match n with
  | NFile name data => if is_tab name then [VFile file data] else []
  | NDir _ None => [VDir]
  | NDir _ (Some l) => (fix visit_list l := match l with [] => [] | n :: l => visit_node file n ++ visit_list l end) l
  end.

Definition visit_dir (dir : bytes) (entries : option (list node)) : list visit :=
  match entries with None => [VDir] | Some l => l ≫= visit_node dir end.

Definition visit_root (r : bytes * option (list node)) : list (bytes * visit) :=
  pair r.1 <$> match results_dir (default [] r.2) with
               | Some sub => visit_dir (r.1 ++ str "/results") sub
               | None => visit_dir r.1 r.2
               end.

(** ** The verdicts *)

(** The row of a result, if it has one that is not empty. *)
Definition row_of (v : visit) : option bytes :=
  match v with
  | VDir => None
  | VFile _ data => match second_line data with Some [] | None => None | Some row => Some row end
  end.

Definition file_of (v : visit) : bytes := match v with VDir => [] | VFile file _ => file end.
Definition id_of (row : bytes) : bytes := field row 1 512.

(** The first result of the task [id]: its row and file. *)
Definition first_of (vs : list (bytes * visit)) (id : bytes) : option (bytes * bytes) :=
  head (omap (fun x => row ← row_of x.2; if decide (id_of row = id) then Some (row, file_of x.2) else None) vs).

Inductive verdict := Report (line : bytes) | Dup (line : bytes) | Conf (line : bytes) | Unexp (line : bytes) | Bad (line : bytes).

Definition judge (known : gset bytes) (before : list (bytes * visit)) (x : bytes * visit) : verdict :=
  let '(root, v) := x in
  let file := file_of v in
  match row_of v with
  | None => Bad (tabs match v with
                      | VDir => [root; str "missing_results_dir"]
                      | VFile file _ => [file; str "empty_or_missing_result_row"]
                      end)
  | Some row =>
      let id := id_of row in
      if decide (id = []) then Unexp (tabs [str "-"; file])
      else if decide (id ∈ known) then
        match first_of before id with
        | None => Report (tabs [row; root; file])
        | Some (row0, file0) =>
            if same_result row0 row then Dup (tabs [id; file0; file]) else Conf (tabs [id; file0; file; row0; row])
        end
      else Unexp (tabs [id; file])
  end.

Fixpoint judge_all (known : gset bytes) (before vs : list (bytes * visit)) : list verdict :=
  match vs with
  | [] => []
  | x :: vs => judge known before x :: judge_all known (before ++ [x]) vs
  end.

Definition reports (v : verdict) : option bytes := match v with Report l => Some l | _ => None end.
Definition dups (v : verdict) : option bytes := match v with Dup l => Some l | _ => None end.
Definition confs (v : verdict) : option bytes := match v with Conf l => Some l | _ => None end.
Definition unexps (v : verdict) : option bytes := match v with Unexp l => Some l | _ => None end.
Definition bads (v : verdict) : option bytes := match v with Bad l => Some l | _ => None end.

(** The ids of a manifest: what stands before the first tab of each line but the first. *)
Fixpoint manifest_lines (fuel : nat) (s : bytes) : list bytes :=
  match fuel with
  | O => []
  | S fuel => match Brdline s with Some (line, s) => (strchr TAB (cstr line)).1 :: manifest_lines fuel s | None => [] end
  end.
Definition manifest_ids (s : bytes) : gset bytes := list_to_set (tail (manifest_lines (S (length s)) s)) ∖ {[ [] ]}.

(** ** The visit is a walk over the tree *)

Section width.
Variable w : Z.

Definition do_visit (g : merge) (x : bytes * visit) : merge :=
  match x.2 with
  | VDir => upd_tot (add_counts 0 0 0 0 1) (put_bad (tabs [x.1; str "missing_results_dir"]) g)
  | VFile file data => merge_file w file x.1 data g
  end.

Lemma merge_node_visit root : forall n dir g,
  merge_node w dir root n g = foldl do_visit g (pair root <$> visit_node dir n).
Proof.
  fix IH 1. intros [name data|name [l|]] dir g; cbn [merge_node visit_node].
  - by destruct (is_tab name).
  - revert g. generalize (dir ++ x2f :: node_name (NDir name (Some l))). intros file.
    induction l as [|n l IHl]; intros g; [done|]. rewrite fmap_app, foldl_app, <- IH. apply IHl.
  - done.
Qed.

Lemma merge_root_visit g r : merge_root w r.1 r.2 g = foldl do_visit g (visit_root r).
Proof.
  assert (H : forall dir entries g, merge_results w dir r.1 entries g = foldl do_visit g (pair r.1 <$> visit_dir dir entries)).
  { intros dir [l|] g0; [|done]. cbn [merge_results visit_dir]. revert g0. induction l as [|n l IH]; intros g0; [done|].
    cbn [foldl mbind list_bind]. rewrite fmap_app, foldl_app, <- merge_node_visit. apply IH. }
  unfold merge_root, visit_root. destruct (results_dir _); apply H.
Qed.

Lemma merge_roots_visit roots g : foldl (fun g r => merge_root w r.1 r.2 g) g roots = foldl do_visit g (roots ≫= visit_root).
Proof.
  revert g. induction roots as [|r roots IH]; intros g; [done|]. cbn [foldl mbind list_bind].
  by rewrite foldl_app, <- merge_root_visit.
Qed.

(** ** The hash table holds what the results so far say of each task *)

Definition entry_for (before : list (bytes * visit)) (id : bytes) : Entry :=
  match first_of before id with
  | None => MkEntry id [] [] false
  | Some (row, file) => MkEntry id row file true
  end.

Record table_ok (tab : gmap Z (list Entry)) (known : gset bytes) (before : list (bytes * visit)) : Prop := {
  tk_hash h e : e ∈ chain tab h -> hstr w (e_id e) = h;
  tk_nodup h : NoDup (e_id <$> chain tab h);
  tk_find id : find_entry w tab id = if decide (id ∈ known) then Some (entry_for before id) else None;
}.

Lemma chain_insert tab h h' l : chain (<[h := l]> tab) h' = if decide (h = h') then l else chain tab h'.
Proof. unfold chain. case_decide; [subst; by rewrite lookup_insert_eq | by rewrite lookup_insert_ne]. Qed.

Lemma find_in l id e : list_find (fun e => e_id e = id) l = Some e -> e.2 ∈ l /\ e_id e.2 = id.
Proof. destruct e as [i e]. intros (H & ? & _)%list_find_Some. split; [by eapply list_elem_of_lookup_2 | done]. Qed.

Lemma find_unique (l : list Entry) e : NoDup (e_id <$> l) -> e ∈ l -> snd <$> list_find (fun e' => e_id e' = e_id e) l = Some e.
Proof.
  induction l as [|x l IH]; [set_solver|]. intros [Hn Hd]%NoDup_cons [->|He]%elem_of_cons; simpl.
  - by rewrite decide_True.
  - rewrite decide_False.
    + rewrite <- option_fmap_compose. rewrite <- (IH Hd He). by destruct (list_find _ l) as [[]|].
    + intros E. apply Hn. rewrite E. by apply list_elem_of_fmap_2.
Qed.

Lemma first_of_app vs ws id : first_of (vs ++ ws) id = match first_of vs id with Some r => Some r | None => first_of ws id end.
Proof. unfold first_of. rewrite omap_app. by destruct (omap _ vs). Qed.

(** A task comes into the table. *)
Lemma lookup_create_ok id g known : table_ok (g_tab g) known [] ->
  table_ok (g_tab (lookup_create w id g)) ({[id]} ∪ known) [] /\
  g_tot (lookup_create w id g) = add_manifest (if decide (id ∈ known) then 0 else 1) (g_tot g) /\
  g_report (lookup_create w id g) = g_report g /\ g_dup (lookup_create w id g) = g_dup g /\ g_conf (lookup_create w id g) = g_conf g /\
  g_unexp (lookup_create w id g) = g_unexp g /\ g_bad (lookup_create w id g) = g_bad g.
Proof.
  intros [T1 T2 T3]. unfold lookup_create. pose proof (T3 id) as Hf. case_decide as K; rewrite Hf.
  - split; [|destruct g as [? []]; unfold add_manifest; simpl; by rewrite Z.add_0_r].
    replace ({[id]} ∪ known) with known by set_solver. done.
  - split; [|done]. cbn [g_tab upd_tot set_tab]. unfold find_entry in Hf. apply fmap_None, list_find_None in Hf. rewrite Forall_forall in Hf. split.
    + intros h e. rewrite chain_insert. case_decide; [|apply T1]. intros [->|He]%elem_of_cons; [done|]. subst. by apply T1.
    + intros h. rewrite chain_insert. case_decide; [|apply T2]. cbn [fmap list_fmap]. constructor; [|apply T2].
      rewrite list_elem_of_fmap. intros (e & E & He). by apply (Hf e).
    + intros id'. unfold find_entry. rewrite chain_insert. destruct (decide (id' = id)) as [->|N].
      * rewrite !decide_True by set_solver. cbn [list_find e_id]. by rewrite decide_True.
      * rewrite (decide_ext (id' ∈ {[id]} ∪ known) (id' ∈ known)) by set_solver. rewrite <- T3. unfold find_entry.
        case_decide as E; [|done]. cbn [list_find e_id]. rewrite decide_False by done. rewrite E, <- option_fmap_compose.
        by destruct (list_find _ _) as [[]|].
Qed.

Lemma set_seen_ids id row file l : e_id <$> set_seen id row file l = e_id <$> l.
Proof. induction l as [|e l IH]; [done|]. cbn [set_seen]. case_decide as E; cbn [fmap list_fmap]; [by rewrite <- E | by rewrite IH]. Qed.

Lemma set_seen_elem id row file l e : e ∈ set_seen id row file l -> exists e', e' ∈ l /\ e_id e = e_id e'.
Proof.
  induction l as [|x l IH]; [set_solver|]. cbn [set_seen]. case_decide as E.
  - intros [->|He]%elem_of_cons; [exists x; split; [by left|done] | exists e; split; [by right|done]].
  - intros [->|He]%elem_of_cons; [exists x; split; [by left|done]|]. destruct (IH He) as (e' & ? & ?). exists e'. split; [by right|done].
Qed.

Lemma set_seen_find id row file l id' : snd <$> list_find (fun e => e_id e = id') (set_seen id row file l) =
  (fun e => if decide (id' = id) then MkEntry id row file true else e) <$> (snd <$> list_find (fun e => e_id e = id') l).
Proof.
  induction l as [|x l IH]; [done|]. cbn [set_seen]. destruct (decide (e_id x = id)) as [E|E]; cbn [list_find e_id].
  - destruct (decide (id = id')) as [<-|N].
    + rewrite !decide_True by done. simpl. by rewrite decide_True.
    + rewrite !decide_False by congruence. destruct (list_find _ l) as [[]|]; [|done]. simpl. by rewrite decide_False.
  - destruct (decide (e_id x = id')) as [<-|N]; [simpl; by rewrite decide_False|].
    destruct (list_find _ (set_seen _ _ _ l)) as [[]|], (list_find _ l) as [[]|]; simpl in *; congruence.
Qed.

(** The first result of a task is stored. *)
Lemma mark_seen_ok id row file root data g known before : table_ok (g_tab g) known before -> id ∈ known ->
  first_of before id = None -> row_of (VFile file data) = Some row -> id_of row = id ->
  table_ok (g_tab (mark_seen w id row file g)) known (before ++ [(root, VFile file data)]).
Proof.
  intros [T1 T2 T3] K F R E. cbn [mark_seen g_tab set_tab]. split.
  - intros h e. rewrite chain_insert. case_decide; [|apply T1]. intros (e' & He & ->)%set_seen_elem. subst. by apply T1.
  - intros h. rewrite chain_insert. case_decide; [rewrite set_seen_ids|]; apply T2.
  - assert (Hx : forall id', first_of [(root, VFile file data)] id' = if decide (id' = id) then Some (row, file) else None).
    { intros id'. unfold first_of. cbn [omap list_omap]. cbn [snd]. rewrite R. cbn [mbind option_bind]. rewrite E.
      destruct (decide (id = id')) as [->|]; [by rewrite decide_True | by rewrite decide_False]. }
    intros id'. pose proof (T3 id') as H. unfold find_entry in *. rewrite chain_insert. unfold entry_for. rewrite first_of_app, Hx.
    destruct (decide (hstr w id = hstr w id')) as [Eh|Nh].
    + rewrite set_seen_find, Eh, H. case_decide; [|done]. cbn. unfold entry_for.
      destruct (decide (id' = id)) as [->|]; [by rewrite F | by destruct (first_of before id') as [[]|]].
    + rewrite H. case_decide; [|done]. unfold entry_for. destruct (first_of before id') as [[]|]; [done|].
      rewrite decide_False; [done | congruence].
Qed.

(** Nothing is stored for any other result. *)
Lemma table_same tab known before x : table_ok tab known before ->
  (forall row, row_of x.2 = Some row -> id_of row ∈ known -> is_Some (first_of before (id_of row))) ->
  table_ok tab known (before ++ [x]).
Proof.
  intros [T1 T2 T3] H. split; [done..|]. intros id. rewrite T3. case_decide as K; [|done]. unfold entry_for. rewrite first_of_app.
  destruct (first_of before id) as [[]|] eqn:F; [done|]. unfold first_of. cbn [omap list_omap].
  destruct (row_of x.2) as [row|] eqn:R; [|done]. cbn [mbind option_bind]. case_decide as E; [|done]. subst id.
  destruct (H row eq_refl K) as [? ?]. congruence.
Qed.

(** ** What a sequence of results adds *)

Record adds (vs : list verdict) (g g' : merge) : Prop := {
  ad_report : g_report g' = g_report g ++ omap reports vs;
  ad_dup : g_dup g' = g_dup g ++ omap dups vs;
  ad_conf : g_conf g' = g_conf g ++ omap confs vs;
  ad_unexp : g_unexp g' = g_unexp g ++ omap unexps vs;
  ad_bad : g_bad g' = g_bad g ++ omap bads vs;
  ad_manifest : manifest_total (g_tot g') = manifest_total (g_tot g);
  ad_missing : missing_total (g_tot g') = missing_total (g_tot g);
  ad_deduped : deduped_total (g_tot g') = deduped_total (g_tot g) + Z.of_nat (length (omap reports vs));
  ad_dups : duplicate_total (g_tot g') = duplicate_total (g_tot g) + Z.of_nat (length (omap dups vs));
  ad_confs : conflict_total (g_tot g') = conflict_total (g_tot g) + Z.of_nat (length (omap confs vs));
  ad_unexps : unexpected_total (g_tot g') = unexpected_total (g_tot g) + Z.of_nat (length (omap unexps vs));
  ad_bads : malformed_total (g_tot g') = malformed_total (g_tot g) + Z.of_nat (length (omap bads vs));
}.

Lemma adds_nil g : adds [] g g.
Proof. split; simpl; rewrite ?app_nil_r; lia || done. Qed.

Lemma adds_cons v vs g g' g'' : adds [v] g g' -> adds vs g' g'' -> adds (v :: vs) g g''.
Proof.
  intros [A1 A2 A3 A4 A5 A6 A7 A8 A9 A10 A11 A12] [B1 B2 B3 B4 B5 B6 B7 B8 B9 B10 B11 B12]. change (v :: vs) with ([v] ++ vs).
  split; rewrite ?omap_app, ?length_app, ?app_assoc; try congruence; lia.
Qed.

Lemma visit_adds known before g x : [] ∉ known -> table_ok (g_tab g) known before ->
  table_ok (g_tab (do_visit g x)) known (before ++ [x]) /\ adds [judge known before x] g (do_visit g x).
Proof.
  intros Nk T. destruct x as [root [|file data]]; [split; [by apply table_same | by split; simpl; rewrite ?app_nil_r]|].
  unfold do_visit. cbn [snd fst]. unfold merge_file, judge. cbn [row_of file_of].
  assert (Hbad : row_of (VFile file data) = None -> table_ok (g_tab g) known (before ++ [(root, VFile file data)])).
  { intros H. apply table_same; [done|]. cbn [snd]. by rewrite H. }
  destruct (second_line data) as [[|b row]|] eqn:R; cbn [row_of] in Hbad; rewrite R in Hbad;
    [split; [by apply Hbad | by split; simpl; rewrite ?app_nil_r]| |split; [by apply Hbad | by split; simpl; rewrite ?app_nil_r]].
  clear Hbad. set (line := b :: row) in *. change (field line 1 512) with (id_of line).
  assert (Hr : row_of (VFile file data) = Some line) by (cbn [row_of]; by rewrite R).
  assert (Hsame : (id_of line ∈ known -> is_Some (first_of before (id_of line))) ->
    table_ok (g_tab g) known (before ++ [(root, VFile file data)])).
  { intros H. apply table_same; [done|]. cbn [snd]. rewrite Hr. by intros ? [= <-]. }
  pose proof (tk_find _ _ _ T (id_of line)) as Hf. destruct (decide (id_of line = [])) as [E|Ne].
  { rewrite bool_decide_true by done. split; [|by split; simpl; rewrite ?app_nil_r]. apply Hsame. by rewrite E. }
  rewrite bool_decide_false by done. rewrite Hf. destruct (decide (id_of line ∈ known)) as [K|K].
  2: { split; [by apply Hsame | by split; simpl; rewrite ?app_nil_r]. }
  unfold entry_for in *. destruct (first_of before (id_of line)) as [[row0 file0]|] eqn:F.
  - cbn [e_seen e_row e_file]. destruct (same_result row0 line); (split; [by apply Hsame | by split; simpl; rewrite ?app_nil_r]).
  - cbn [e_seen]. split; [by apply (mark_seen_ok _ _ _ root data) | by split; simpl; rewrite ?app_nil_r].
Qed.

Lemma visits_add known vs : [] ∉ known -> forall before g, table_ok (g_tab g) known before ->
  table_ok (g_tab (foldl do_visit g vs)) known (before ++ vs) /\ adds (judge_all known before vs) g (foldl do_visit g vs).
Proof.
  intros Nk. induction vs as [|x vs IH]; intros before g T; cbn [foldl judge_all]; [rewrite app_nil_r; split; [done | apply adds_nil]|].
  destruct (visit_adds known before g x Nk T) as [T1 A1]. destruct (IH _ _ T1) as [T2 A2]. rewrite <- app_assoc in T2.
  split; [done|]. by eapply adds_cons.
Qed.

(** ** The manifest *)

Lemma empty_ok : table_ok ∅ ∅ [].
Proof.
  split; unfold find_entry, chain.
  - intros h e. rewrite lookup_empty. by intros ?%elem_of_nil.
  - intros h. rewrite lookup_empty. constructor.
  - intros id. rewrite lookup_empty. done.
Qed.

Lemma add_size (id : bytes) (known : gset bytes) : Z.of_nat (size ({[id]} ∪ known)) = Z.of_nat (size known) + (if decide (id ∈ known) then 0 else 1).
Proof.
  case_decide; [replace ({[id]} ∪ known) with known by set_solver; lia|]. rewrite size_union by set_solver. rewrite size_singleton. lia.
Qed.

Definition from_manifest (known : gset bytes) (g : merge) : Prop :=
  table_ok (g_tab g) known [] /\ g_tot g = add_manifest (Z.of_nat (size known)) totals0 /\
  (g_report g, g_dup g, g_conf g, g_unexp g, g_bad g) = ([], [], [], [], []).

Lemma create_from id g known : from_manifest known g -> from_manifest ({[id]} ∪ known) (lookup_create w id g).
Proof.
  intros (T & Ht & [= ? ? ? ? ?]). destruct (lookup_create_ok id g known T) as (T' & Ht' & ? & ? & ? & ? & ?).
  split; [done|]. split; [|congruence]. rewrite Ht', Ht. unfold add_manifest, totals0. simpl. rewrite add_size. f_equal; lia.
Qed.

Lemma manifest_loop_from (fuel : nat) : forall (first : bool) (s : bytes) g (known : gset bytes), from_manifest known g ->
  from_manifest (list_to_set (if first then tail (manifest_lines fuel s) else manifest_lines fuel s) ∖ {[ [] ]} ∪ known)
    (manifest_loop w fuel first s g).
Proof.
  induction fuel as [|fuel IH]; intros first s g known H; cbn [manifest_loop manifest_lines].
  { replace (_ ∪ known) with known by (destruct first; simpl; set_solver). done. }
  destruct (Brdline s) as [[line s']|]; [|replace (_ ∪ known) with known by (destruct first; simpl; set_solver); done].
  set (id := (strchr TAB (cstr line)).1). destruct first; cbn [orb tail].
  - by apply (IH false).
  - destruct (decide (id = [])) as [E|N].
    + rewrite bool_decide_true by done. replace (_ ∪ known) with (list_to_set (manifest_lines fuel s') ∖ {[ [] ]} ∪ known); [by apply (IH false)|].
      rewrite E. simpl. set_solver.
    + rewrite bool_decide_false by done.
      replace (_ ∪ known) with (list_to_set (manifest_lines fuel s') ∖ {[ [] ]} ∪ ({[id]} ∪ known)); [by apply (IH false), create_from|].
      simpl. set_solver.
Qed.

Lemma read_manifest_from data : from_manifest (manifest_ids data) (read_manifest w data merge0).
Proof.
  pose proof (manifest_loop_from (S (length data)) true data merge0 ∅) as H. rewrite union_empty_r_L in H. apply H.
  split; [apply empty_ok|]. done.
Qed.

(** ** What is missing *)

Lemma elem_indices n h k : k ∈ indices n h <-> h <= k < h + Z.of_nat n.
Proof.
  revert h. induction n as [|n IH]; intros h; cbn [indices]; [set_unfold; lia|]. rewrite elem_of_cons, IH. lia.
Qed.

Lemma indices_nodup n h : NoDup (indices n h).
Proof. revert h. induction n as [|n IH]; intros h; constructor; [rewrite elem_indices; lia | apply IH]. Qed.

Lemma hstr_range id : 0 <= hstr w id < Nhash.
Proof. apply Z.mod_pos_bound. done. Qed.

Lemma find_chain tab known before id e : table_ok tab known before ->
  e ∈ chain tab (hstr w id) /\ e_id e = id <-> find_entry w tab id = Some e.
Proof.
  intros T. unfold find_entry. split.
  - intros [He <-]. apply find_unique; [apply (tk_nodup _ _ _ T) | done].
  - intros ([i e'] & E & ->)%fmap_Some. by apply find_in in E.
Qed.

Lemma missing_exact tab known before : table_ok tab known before ->
  let ids := indices (Z.to_nat Nhash) 0 ≫= fun h => e_id <$> filter (fun e => e_seen e = false) (chain tab h) in
  NoDup ids /\ forall id, id ∈ ids <-> id ∈ known /\ first_of before id = None.
Proof.
  intros T. cbv zeta. assert (Hin : forall h id, id ∈ e_id <$> filter (fun e => e_seen e = false) (chain tab h) <->
    hstr w id = h /\ id ∈ known /\ first_of before id = None).
  { intros h id. rewrite list_elem_of_fmap. setoid_rewrite list_elem_of_filter. split.
    - intros (e & -> & Hs & He). pose proof (tk_hash _ _ _ T _ _ He) as Hh. split; [done|]. rewrite <- Hh in He.
      destruct (find_chain _ _ _ (e_id e) e T) as [Hf _]. specialize (Hf (conj He eq_refl)). rewrite (tk_find _ _ _ T) in Hf.
      case_decide; [|done]. split; [done|]. unfold entry_for in Hf. destruct (first_of before (e_id e)) as [[]|]; [|done].
      injection Hf as E. by rewrite <- E in Hs.
    - intros (<- & K & F). exists (MkEntry id [] [] false). split; [done|]. split; [done|].
      destruct (find_chain _ _ _ id (MkEntry id [] [] false) T) as [_ Hf]. apply Hf. rewrite (tk_find _ _ _ T), decide_True by done.
      unfold entry_for. by rewrite F. }
  split.
  - generalize (indices_nodup (Z.to_nat Nhash) 0). induction (indices _ 0) as [|h l IH]; [constructor|].
    intros [Hn Hd]%NoDup_cons. cbn [mbind list_bind]. apply NoDup_app. split; [|split; [|by apply IH]].
    + eapply sublist_NoDup; [apply (tk_nodup _ _ _ T h)|]. apply fmap_sublist, sublist_filter.
    + intros id [Hh _]%Hin (h' & Hi & Hl)%list_elem_of_bind. apply Hin in Hi as [Hh' _]. congruence.
  - intros id. rewrite list_elem_of_bind. split.
    + intros (h & Hi & _). by apply Hin in Hi as [_ ?].
    + intros H. exists (hstr w id). split; [by apply Hin|]. apply elem_indices. pose proof (hstr_range id). rewrite Z2Nat.id; [lia|done].
Qed.

(** The tasks that have a first result. *)
Lemma reported known vs : [] ∉ known -> forall before, exists ids : list bytes, NoDup ids /\
  length ids = length (omap reports (judge_all known before vs)) /\
  forall id, id ∈ ids <-> id ∈ known /\ first_of before id = None /\ is_Some (first_of (before ++ vs) id).
Proof.
  intros Nk. induction vs as [|x vs IH]; intros before; cbn [judge_all].
  { exists []. split; [constructor|]. split; [done|]. intros id. rewrite app_nil_r. split; [by intros ?%elem_of_nil|]. intros (_ & -> & [? ?]). done. }
  destruct (IH (before ++ [x])) as (ids & Hd & Hl & Hin). rewrite <- app_assoc in Hin. change ([x] ++ vs) with (x :: vs) in Hin.
  assert (Hone : forall id, first_of [x] id = row ← row_of x.2; if decide (id_of row = id) then Some (row, file_of x.2) else None).
  { intros id. unfold first_of. cbn [omap list_omap]. destruct (row_of x.2) as [row|]; [|done]. cbn [mbind option_bind]. by case_decide. }
  assert (Happ : forall id, first_of (before ++ [x]) id = match first_of before id with
    | Some r => Some r
    | None => row ← row_of x.2; if decide (id_of row = id) then Some (row, file_of x.2) else None
    end) by (intros id; by rewrite first_of_app, Hone).
  setoid_rewrite Happ in Hin. clear Happ.
  assert (Hother : (forall row, row_of x.2 = Some row -> id_of row ∈ known -> is_Some (first_of before (id_of row))) ->
    forall id, id ∈ ids <-> id ∈ known /\ first_of before id = None /\ is_Some (first_of (before ++ x :: vs) id)).
  { intros H id. rewrite Hin. destruct (first_of before id) eqn:F; [done|]. destruct (row_of x.2) as [row|]; [|done]. cbn [mbind option_bind].
    case_decide as E; [|done]. split; [by intros (_ & ? & _)|]. intros (K & _ & _). subst id. destruct (H row eq_refl K). congruence. }
  destruct x as [root v]. unfold judge. cbn [snd] in *.
  destruct (row_of v) as [row|] eqn:R; [|exists ids; split; [done|]; split; [done|]; by apply Hother].
  destruct (decide (id_of row = [])) as [E|Ne]; [exists ids; split; [done|]; split; [done|]; apply Hother; by intros ? [= <-]; rewrite E|].
  destruct (decide (id_of row ∈ known)) as [K|K]; [|exists ids; split; [done|]; split; [done|]; apply Hother; by intros ? [= <-]].
  destruct (first_of before (id_of row)) as [[row0 file0]|] eqn:F.
  { exists ids. split; [done|]. split; [by destruct (same_result row0 row)|]. apply Hother. intros ? [= <-] _. rewrite F. eauto. }
  exists (id_of row :: ids). split; [|split; [cbn; by rewrite Hl|]].
  - constructor; [|done]. rewrite Hin, F. cbn [mbind option_bind]. rewrite decide_True by done. by intros (_ & ? & _).
  - intros id. rewrite elem_of_cons, Hin. destruct (decide (id = id_of row)) as [->|N].
    + split; [|by left]. intros _. split; [done|]. split; [done|]. rewrite first_of_app, F.
      change ((root, v) :: vs) with ([(root, v)] ++ vs). rewrite first_of_app, Hone, ?R. cbn [mbind option_bind]. rewrite decide_True by done. eauto.
    + cbn [mbind option_bind]. rewrite decide_False by congruence. destruct (first_of before id); naive_solver.
Qed.

(** The merge sorts the results exactly: with the results in the order of the visit and the tasks of the manifest, the
    report holds the first result of each task, the other reports the repetitions, the contradictions, the results of no
    known task and those without a row, each with its total; a task is missing exactly when it has no result, so the tasks
    are the reported and the missing ones; and the tool succeeds exactly when nothing is missing, contradicted, unknown or
    malformed. *)
Theorem merge_exact manifest roots : let '(g, missing, ok) := main w manifest roots in
  let known := manifest_ids manifest in
  let results := roots ≫= visit_root in
  let vs := judge_all known [] results in
  let t := g_tot g in
  (g_report g, g_dup g, g_conf g, g_unexp g, g_bad g) =
    (omap reports vs, omap dups vs, omap confs vs, omap unexps vs, omap bads vs) /\
  (deduped_total t, duplicate_total t, conflict_total t, unexpected_total t, malformed_total t, missing_total t, manifest_total t) =
    (Z.of_nat (length (g_report g)), Z.of_nat (length (g_dup g)), Z.of_nat (length (g_conf g)), Z.of_nat (length (g_unexp g)),
     Z.of_nat (length (g_bad g)), Z.of_nat (length missing), Z.of_nat (size known)) /\
  NoDup missing /\ (forall id, id ∈ missing <-> id ∈ known /\ first_of results id = None) /\
  (length (g_report g) + length missing = size known)%nat /\
  (ok = true <-> missing = [] /\ g_conf g = [] /\ g_unexp g = [] /\ g_bad g = []).
Proof.
  unfold main, write_missing. rewrite merge_roots_visit.
  destruct (read_manifest_from manifest) as (T & Ht & [= R1 R2 R3 R4 R5]).
  assert (Nk : [] ∉ manifest_ids manifest) by (unfold manifest_ids; set_solver).
  destruct (visits_add _ (roots ≫= visit_root) Nk [] _ T) as [T' [A1 A2 A3 A4 A5 A6 A7 A8 A9 A10 A11 A12]].
  destruct (missing_exact _ _ _ T') as [Hd Hin]. destruct (reported _ (roots ≫= visit_root) Nk []) as (ids & Hd' & Hl & Hin').
  cbn [app] in *. set (vs := judge_all _ _ _) in *. set (g := foldl do_visit _ _) in *.
  rewrite R1, R2, R3, R4, R5, Ht in *. cbn in A6, A7, A8, A9, A10, A11, A12. cbn [app] in *.
  set (missing := indices _ _ ≫= _) in *. clearbody missing vs g. cbn [g_tot upd_tot g_report g_dup g_conf g_unexp g_bad].
  cbn [add_missing missing_total conflict_total unexpected_total malformed_total deduped_total duplicate_total manifest_total].
  rewrite A1, A2, A3, A4, A5, A6, A7, A8, A9, A10, A11, A12. split; [done|]. split; [done|]. split; [done|]. split; [done|].
  assert (Hsize : (length ids + length missing)%nat = size (manifest_ids manifest)).
  { rewrite <- length_app. unfold size, set_size. cbn. apply Permutation_length, NoDup_Permutation; [|apply NoDup_elements|].
    - apply NoDup_app. split; [done|]. split; [|done]. intros id (_ & _ & [? ?])%Hin' (_ & ?)%Hin. congruence.
    - intros id. rewrite elem_of_app, Hin, Hin', elem_of_elements. change (first_of [] id) with (@None (bytes * bytes)).
      destruct (first_of _ id) as [r|]; [|split; [intros [(? & _)|(? & _)]; done | intros; by right]].
      split; [intros [(? & _)|(_ & ?)]; done | intros; left; by eauto]. }
  split; [lia|]. rewrite !andb_true_iff, !Z.eqb_eq. rewrite <- !length_zero_iff_nil. lia.
Qed.
End width.

(** The last line of a manifest counts only if it ends with a newline, and a line that does not fit the buffer ends the
    manifest. *)
Lemma last_task_dropped : tail (manifest_lines 20 (str "task_id" ++ NL :: str "t1" ++ NL :: str "t2")) = [str "t1"].
Proof. reflexivity. Qed.
