(* ===== verification/CText.v ===== *)
(** * Comparing C texts ([o9_runtime.c], mutation triage)

    A mutant whose text differs from the source in layout only is called
    equivalent without running it.  [o9_c_without_ws_comments] takes layout
    and comments out of a C text, keeping a blank where two characters would
    otherwise join into one token; [o9_c_lexical_whitespace_equiv] compares two
    files so.  [o9_equiv_candidate_reason] is the heuristic for the rest.

    The reference is a tokenizer of C texts, [c_tokens], which follows the one
    that tools/o9um.py uses for the same decision. *)
From S2P Require Import Prelude.

Open Scope Z_scope.

(** ** Files *)

(** The whole files that can be opened, by path. *)
Abbreviation files := (bytes -> option bytes).

(** [read(fd, buf + off, want)] at the offset of the file, until [len] bytes
    are there or the file has no more. *)
Fixpoint read_loop (fuel : nat) (data : bytes) (off len : nat) : bytes :=
  match fuel with
  | O => []
  | S fuel =>
      if decide (off < len)%nat then
        let got := take (Z.to_nat (Z.min 8192 (Z.of_nat (len - off)))) (drop off data) in
        if decide (got = []) then [] else got ++ read_loop fuel data (off + length got) len
      else []
  end.

Definition o9_read_file_c (fs : files) (path : bytes) (max : Z) : option bytes :=
  if decide (path = []) then None else
  data ← fs path;
  let len := if bool_decide (0 < max) && bool_decide (max < Z.of_nat (length data)) then Z.to_nat max else length data in
  Some (read_loop (S len) data 0 len).

(** ** Taking the layout out *)

Definition is_lower (c : byte) : bool := bool_decide (97 <= uchar c <= 122).
Definition is_upper (c : byte) : bool := bool_decide (65 <= uchar c <= 90).
Definition is_dec (c : byte) : bool := bool_decide (48 <= uchar c <= 57).
Definition is_quote (c : byte) : bool := bool_decide (c = x22) || bool_decide (c = x27).
Definition is_layout (c : byte) : bool :=
  bool_decide (c ∈ [x20; x09; x0a; x0d; x0b; x0c]).

Definition o9_c_word_char (c : byte) : bool :=
  is_lower c || is_upper c || is_dec c || bool_decide (c = "_"%byte).

(** The pairs of operator characters that could start a longer token. *)
Definition op_pairs : list (byte * list byte) :=
  [("+", ["+"; "="]); ("-", ["-"; "="; ">"]); ("<", ["<"; "="; ":"; "%"]); (">", [">"; "="]);
   ("=", ["="]); ("!", ["="]); ("&", ["&"; "="]); ("|", ["|"; "="]); ("*", ["="]); ("/", ["="; "*"]);
   ("%", ["="; ">"; ":"]); ("^", ["="]); ("#", ["#"]); (":", [">"])]%byte.

Definition o9_c_token_join (a b : byte) : bool :=
  (o9_c_word_char a && o9_c_word_char b) ||
  (bool_decide (a = "."%byte) && (bool_decide (b = "."%byte) || is_dec b) || is_dec a && bool_decide (b = "."%byte)) ||
  existsb (fun p => bool_decide (a = p.1) && bool_decide (b ∈ p.2)) op_pairs ||
  (o9_c_word_char a && is_quote b).

(** The literal that an opening quote [q] starts: what is copied after the
    quote, and the text behind. *)
Fixpoint quote_loop (q : byte) (esc : bool) (s : bytes) : bytes * bytes :=
  match s with
  | [] => ([], [])
  | c :: r =>
      if negb esc && negb (bool_decide (c = x5c)) && bool_decide (c = q) then ([c], r)
      else
        let '(lit, rest) := quote_loop q (negb esc && bool_decide (c = x5c)) r in (c :: lit, rest)
  end.

(** The two inner loops; [None] when they stop at the terminating NUL, which
    the [i++] of the outer loop then steps over. *)
Fixpoint skip_block (s : bytes) : option bytes :=
  match s with
  | [] => None
  | c :: r =>
      match r with
      | d :: r' => if bool_decide (c = "*"%byte) && bool_decide (d = "/"%byte) then Some r' else skip_block r
      | [] => None
      end
  end.

Fixpoint skip_line (s : bytes) : option bytes :=
  match s with
  | [] => None
  | c :: r => if bool_decide (c = NL) then Some r else skip_line r
  end.

(** What the text at [s] is: the cases of the outer loop. *)
Inductive shape := SEnd | SQuote (q : byte) (r : bytes) | SBlock (r : bytes) | SLine (r : bytes) | SBlank (r : bytes) | SCode (c : byte) (r : bytes).

Definition look (s : bytes) : shape :=
  match s with
  | [] => SEnd
  | c :: r =>
      if is_quote c then SQuote c r
      else if starts_with (str "/*") s then SBlock (drop 2 s)
      else if starts_with (str "//") s then SLine (drop 2 s)
      else if is_layout c then SBlank r
      else SCode c r
  end.

(** A blank before [c] when a gap is open and [c] would join to [out[o-1]]. *)
Definition blank (last : option byte) (gap : bool) (c : byte) : bytes :=
  match last with
  | Some a => if gap && o9_c_token_join a c then [x20] else []
  | None => []
  end.

(** The text written from here on, [None] when the code reads beyond the
    terminating NUL. *)
Fixpoint strip_loop (fuel : nat) (last : option byte) (gap : bool) (s : bytes) : option bytes :=
  match fuel with
  | O => None
  | S fuel =>
      match look s with
      | SEnd => Some []
      | SQuote q r =>
          let '(lit, r) := quote_loop q false r in
          (fun o => blank last gap q ++ (q :: lit) ++ o) <$> strip_loop fuel (list.last (q :: lit)) false r
      | SBlock r => r ← skip_block r; strip_loop fuel last true r
      | SLine r => r ← skip_line r; strip_loop fuel last true r
      | SBlank r => strip_loop fuel last true r
      | SCode c r => (fun o => blank last gap c ++ c :: o) <$> strip_loop fuel (Some c) false r
      end
  end.

Definition o9_c_without_ws_comments (s : bytes) : option bytes := strip_loop (S (length s)) None false s.

(** [None]: a text with an unclosed comment was read beyond its end. *)
Definition o9_c_lexical_whitespace_equiv (fs : files) (source_path mutant_path : bytes) : option bool :=
  match o9_read_file_c fs source_path (2 * 1024 * 1024), o9_read_file_c fs mutant_path (2 * 1024 * 1024) with
  | Some src, Some mut =>
      let src := cstr src in
      let mut := cstr mut in
      if streq src mut then Some false else
      sn ← o9_c_without_ws_comments src;
      mn ← o9_c_without_ws_comments mut;
      Some (streq sn mn)
  | _, _ => Some false
  end.

(** [strstr(s, needle) != nil]. *)
Fixpoint strstr (needle s : bytes) : bool :=
  starts_with needle s || match s with [] => false | _ :: r => strstr needle r end.

Definition o9_equiv_candidate_reason (fs : files) (source_path mutant_path : bytes) : option string :=
  match o9_read_file_c fs source_path (2 * 1024 * 1024), o9_read_file_c fs mutant_path (2 * 1024 * 1024) with
  | Some src, Some mut =>
      let in_src n := strstr (str n) (cstr src) in
      let in_mut n := strstr (str n) (cstr mut) in
      if in_src "== nil" && in_mut "<= nil" || in_src "!= nil" && in_mut "> nil"
      then Some "pointer-domain comparison candidate"%string
      else if in_src "= 1" && (in_mut "= -1" || in_mut "= (1+1)" || in_mut "= 2") ||
              in_src ", 1" && (in_mut ", -1" || in_mut ", (1+1)" || in_mut ", 2")
      then Some "truthy value changed to another truthy value candidate"%string
      else None
  | _, _ => None
  end.
