(* ===== verification/CTextSpec.v ===== *)
(** * Comparing C texts: the tokens that are compared

    The reference tokenizer and the theorem that two texts with one text left
    after [o9_c_without_ws_comments] have the same tokens. *)
From S2P Require Import Prelude CText.

Open Scope Z_scope.

(** ** The reference: the tokens of a C text *)

Definition MULTI3 : list bytes := [str "..."; str ">>="; str "<<="].
Definition MULTI2 : list bytes :=
  [str "##"; str "->"; str "++"; str "--"; str "=="; str "!="; str "<="; str ">="; str "&&"; str "||"; str "+=";
   str "-="; str "*="; str "/="; str "%="; str "&="; str "|="; str "^="; str "<<"; str ">>"].

Definition starts_any (l : list bytes) (s : bytes) : bool := existsb (fun m => starts_with m s) l.

(** The length of the operator at the start of [s], the longest first. *)
Definition op_len (s : bytes) : nat := if starts_any MULTI3 s then 3%nat else if starts_any MULTI2 s then 2%nat else 1%nat.

Fixpoint word_len (s : bytes) : nat :=
  match s with c :: r => if o9_c_word_char c then S (word_len r) else O | [] => O end.

(** [d] goes on a number whose last character is [prev]. *)
Definition continues (prev d : byte) : bool :=
  o9_c_word_char d || bool_decide (d = "."%byte) ||
  (bool_decide (d ∈ ["+"; "-"]%byte) && bool_decide (prev ∈ ["e"; "E"; "p"; "P"]%byte)).

Fixpoint number_len (prev : byte) (s : bytes) : nat :=
  match s with c :: r => if continues prev c then S (number_len c r) else O | [] => O end.

(** The characters of a literal after its opening quote. *)
Fixpoint literal_len (q : byte) (s : bytes) : nat :=
  match s with
  | [] => O
  | c :: r =>
      if bool_decide (c = q) && negb (bool_decide (c = x5c)) then 1%nat
      else if bool_decide (c = x5c) then match r with _ :: r' => S (S (literal_len q r')) | [] => 1%nat end
      else S (literal_len q r)
  end.

Definition starts_number (s : bytes) : bool :=
  match s with
  | c :: r => is_dec c || bool_decide (c = "."%byte) && match r with d :: _ => is_dec d | [] => false end
  | [] => false
  end.

(** The length of the token at the start of a text that has one. *)
Definition token_len (s : bytes) : nat :=
  match s with
  | [] => O
  | c :: r =>
      if is_quote c then S (literal_len c r)
      else if starts_number s then S (number_len c r)
      else if o9_c_word_char c then word_len s
      else op_len s
  end.

(** The tokens of a text, each with whether layout or a comment precedes it.
    [comments]: whether comments are recognised. *)
Fixpoint items (comments : bool) (fuel : nat) (gap : bool) (s : bytes) : list (bool * bytes) :=
  match fuel with
  | O => []
  | S fuel =>
      match s with
      | [] => []
      | c :: r =>
          if is_layout c then items comments fuel true r
          else if comments && starts_with (str "/*") s then items comments fuel true (default [] (skip_block (drop 2 s)))
          else if comments && starts_with (str "//") s then items comments fuel true (default [] (skip_line (drop 2 s)))
          else
            let n := token_len s in
            (gap, take n s) :: items comments fuel false (drop n s)
      end
  end.

Definition c_items (s : bytes) : list (bool * bytes) := items true (S (length s)) false s.
Definition c_tokens (s : bytes) : list bytes := snd <$> c_items s.

(** No number stands before a token that would go on with it if they touched. *)
Fixpoint no_glue (l : list bytes) : bool :=
  match l with
  | t :: (u :: _) as l' =>
      negb (starts_number t && continues (List.last t x00) (List.hd x00 u)) && no_glue l'
  | _ => true
  end.

(** All comments are closed. *)
Fixpoint closed_loop (fuel : nat) (s : bytes) : bool :=
  match fuel with
  | O => false
  | S fuel =>
      match s with
      | [] => true
      | c :: r =>
          if is_layout c then closed_loop fuel r
          else if starts_with (str "/*") s then match skip_block (drop 2 s) with Some r => closed_loop fuel r | None => false end
          else if starts_with (str "//") s then match skip_line (drop 2 s) with Some r => closed_loop fuel r | None => false end
          else closed_loop fuel (drop (token_len s) s)
      end
  end.
Definition comments_closed (s : bytes) : bool := closed_loop (S (length s)) s.

(** What is left of a list of tokens: a blank only where there was a gap and
    the characters would join. *)
Fixpoint squeeze (last : option byte) (l : list (bool * bytes)) : bytes :=
  match l with
  | [] => []
  | (gap, t) :: l => blank last gap (List.hd x00 t) ++ t ++ squeeze (list.last t) l
  end.

Example tokens_example :
  c_tokens (str "a+= b /* c */->c+ +1.5e+3 .x(y>>=2)") =
  str <$> ["a"; "+="; "b"; "->"; "c"; "+"; "+"; "1.5e+3"; "."; "x"; "("; "y"; ">>="; "2"; ")"]%string.
Proof. vm_compute. reflexivity. Qed.

Example strip_example :
  o9_c_without_ws_comments (str "a+= b /* c */->c+ +1.5e+3 .x(y>>=2)") = Some (str "a+=b->c+ +1.5e+3 .x(y>>=2)").
Proof. vm_compute. reflexivity. Qed.

(** ** Tokens *)

Lemma literal_len_le q s : (literal_len q s <= length s)%nat.
Proof.
  assert (H : forall n s, (length s <= n)%nat -> (literal_len q s <= length s)%nat).
  { induction n as [|n IH]; intros [|c r] Hn; cbn [literal_len length] in *; try lia.
    destruct (_ && _); [lia|]. destruct (bool_decide _).
    - destruct r as [|d r]; cbn [length] in *; [lia|]. specialize (IH r). lia.
    - specialize (IH r). lia. }
  by apply (H (length s)).
Qed.

Lemma number_len_le p s : (number_len p s <= length s)%nat.
Proof. revert p. induction s as [|c r IH]; intros p; simpl; [lia|]. case_match; [|lia]. pose proof (IH c). lia. Qed.

Lemma word_len_le s : (word_len s <= length s)%nat.
Proof. induction s as [|c r IH]; simpl; [lia|]. case_match; lia. Qed.

Lemma starts_with_length m s : starts_with m s = true -> (length m <= length s)%nat.
Proof. revert s. induction m as [|a m IH]; intros [|b s]; simpl; try done; [lia|]. destruct (decide _); [|done]. intros H%IH. lia. Qed.

Lemma starts_any_true l s : starts_any l s = true <-> exists m, m ∈ l /\ starts_with m s = true.
Proof. unfold starts_any. rewrite existsb_exists. setoid_rewrite list_elem_of_In. done. Qed.

Lemma starts_any_false l s m : starts_any l s = false -> m ∈ l -> starts_with m s = false.
Proof. intros H Hm. destruct (starts_with m s) eqn:E; [|done]. by rewrite (proj2 (starts_any_true l s)) in H by eauto. Qed.

Lemma op_len_le s : s <> [] -> (1 <= op_len s <= length s)%nat.
Proof.
  intros Hs. unfold op_len. destruct (starts_any MULTI3 s) eqn:H3.
  - apply starts_any_true in H3 as (m & Hm & H%starts_with_length). unfold MULTI3 in Hm. set_unfold in Hm.
    destruct_or! Hm; subst m; change (3 <= length s)%nat in H; lia.
  - destruct (starts_any MULTI2 s) eqn:H2; [|destruct s; [done|simpl; lia]].
    apply starts_any_true in H2 as (m & Hm & H%starts_with_length).
    assert (length m = 2%nat) as El; [|lia]. clear H. revert Hm. unfold MULTI2. set_unfold.
    intros Hm. destruct_or! Hm; by subst m.
Qed.

Lemma token_len_bounds s : s <> [] -> (1 <= token_len s <= length s)%nat.
Proof.
  intros Hs. destruct s as [|c r]; [done|]. unfold token_len.
  destruct (is_quote c); [pose proof (literal_len_le c r); simpl; lia|].
  destruct (starts_number (c :: r)); [pose proof (number_len_le c r); simpl; lia|].
  destruct (o9_c_word_char c) eqn:E; [|by apply op_len_le].
  pose proof (word_len_le (c :: r)). simpl in *. rewrite E in *. lia.
Qed.

(** ** The loop as a function of the text *)

Lemma quote_loop_app q esc s lit r : quote_loop q esc s = (lit, r) -> s = lit ++ r.
Proof.
  revert esc lit. induction s as [|c s IH]; intros esc lit; cbn [quote_loop]; [by intros [= <- <-]|].
  destruct (_ && _); [by intros [= <- <-]|].
  destruct (quote_loop _ _ s) as [lit' rest] eqn:E. intros [= <- <-]. simpl. f_equal. by apply IH in E.
Qed.

Lemma skip_block_shorter s r : skip_block s = Some r -> (length r < length s)%nat.
Proof.
  induction s as [|c [|d s] IH]; cbn [skip_block]; try done.
  destruct (_ && _); [intros [= <-]; simpl; lia|]. intros H%IH. simpl in *. lia.
Qed.

Lemma skip_line_shorter s r : skip_line s = Some r -> (length r < length s)%nat.
Proof.
  induction s as [|c s IH]; cbn [skip_line]; [done|].
  destruct (bool_decide _); [intros [= <-]; simpl; lia|]. intros H%IH. simpl. lia.
Qed.

Definition rest_of (sh : shape) : bytes :=
  match sh with
  | SEnd => []
  | SQuote _ r | SBlock r | SLine r | SBlank r | SCode _ r => r
  end.

Lemma look_shorter s : s <> [] -> (length (rest_of (look s)) < length s)%nat.
Proof. intros Hs. destruct s as [|c r]; [done|]. unfold look. repeat case_match; simpl; rewrite ?length_drop; simpl; lia. Qed.

Lemma look_end s : look s = SEnd <-> s = [].
Proof. destruct s; simpl; [done|]. repeat case_match; done. Qed.

Lemma strip_fuel f g last gap s : (length s < f)%nat -> (length s < g)%nat -> strip_loop f last gap s = strip_loop g last gap s.
Proof.
  revert g last gap s. induction f as [|f IH]; intros [|g] last gap s Hf Hg; try lia.
  cbn [strip_loop]. destruct (decide (s = [])) as [->|Hs]; [done|]. pose proof (look_shorter s Hs) as Hr.
  destruct (look s) as [|q r|r|r|r|c r] eqn:E; simpl in Hr; try done.
  - destruct (quote_loop q false r) as [lit r'] eqn:El. pose proof (quote_loop_app _ _ _ _ _ El) as ->.
    rewrite length_app in Hr. erewrite (IH g); [done| |]; lia.
  - destruct (skip_block r) as [r'|] eqn:Er; [|done]. apply skip_block_shorter in Er. simpl. apply IH; lia.
  - destruct (skip_line r) as [r'|] eqn:Er; [|done]. apply skip_line_shorter in Er. simpl. apply IH; lia.
  - apply IH; lia.
  - erewrite (IH g); [done| |]; lia.
Qed.

Definition strip (last : option byte) (gap : bool) (s : bytes) : option bytes := strip_loop (S (length s)) last gap s.
Arguments strip : simpl never.

Lemma strip_unfold last gap s :
  strip last gap s =
    match look s with
    | SEnd => Some []
    | SQuote q r =>
        let '(lit, r) := quote_loop q false r in
        (fun o => blank last gap q ++ (q :: lit) ++ o) <$> strip (list.last (q :: lit)) false r
    | SBlock r => r ← skip_block r; strip last true r
    | SLine r => r ← skip_line r; strip last true r
    | SBlank r => strip last true r
    | SCode c r => (fun o => blank last gap c ++ c :: o) <$> strip (Some c) false r
    end.
Proof.
  unfold strip at 1. cbn [strip_loop]. destruct (decide (s = [])) as [->|Hs]; [done|]. pose proof (look_shorter s Hs) as Hr.
  destruct (look s) as [|q r|r|r|r|c r] eqn:E; simpl in Hr; try done.
  - destruct (quote_loop q false r) as [lit r'] eqn:El. pose proof (quote_loop_app _ _ _ _ _ El) as ->.
    rewrite length_app in Hr. unfold strip. erewrite (strip_fuel _ (S (length r'))); [done| |]; lia.
  - destruct (skip_block r) as [r'|] eqn:Er; [|done]. apply skip_block_shorter in Er. simpl. apply strip_fuel; lia.
  - destruct (skip_line r) as [r'|] eqn:Er; [|done]. apply skip_line_shorter in Er. simpl. apply strip_fuel; lia.
  - apply strip_fuel; lia.
  - unfold strip. erewrite (strip_fuel _ (S (length r))); [done| |]; lia.
Qed.

(** ** A token is copied whole *)

(** A character that never starts a literal, a comment or layout. *)
Definition safe (c : byte) : bool := negb (is_quote c || is_layout c || bool_decide (c = "/"%byte)).

Lemma look_safe c r : safe c = true -> look (c :: r) = SCode c r.
Proof.
  unfold safe. intros H%negb_true_iff. rewrite !orb_false_iff, bool_decide_eq_false in H. destruct H as [[H1 H2] H3].
  unfold look. rewrite H1, H2. simpl. destruct (decide _); [congruence|]. done.
Qed.

(** The bytes are few enough to try them all. *)
Lemma byte_all (P : byte -> bool) : forallb P (map (fun n => default x00 (Byte.of_N (N.of_nat n))) (seq 0 256)) = true -> forall c, P c = true.
Proof.
  intros H c. rewrite forallb_forall in H. apply H. apply in_map_iff. exists (N.to_nat (Byte.to_N c)).
  rewrite N2Nat.id, Byte.of_to_N. split; [done|]. apply in_seq. destruct c; simpl; lia.
Qed.

Lemma word_safe c : o9_c_word_char c = true -> safe c = true.
Proof.
  pose proof (byte_all (fun c => implb (o9_c_word_char c) (safe c)) ltac:(vm_compute; reflexivity) c) as H.
  intros E. cbv beta in H. by rewrite E in H.
Qed.

Lemma continues_safe p c : continues p c = true -> safe c = true.
Proof.
  unfold continues. rewrite !orb_true_iff, andb_true_iff, !bool_decide_eq_true. set_unfold.
  intros [[?%word_safe| ->]|[[->|[->|[]]] _]]; done.
Qed.

Lemma number_safe p s : Forall (fun c => safe c = true) (take (number_len p s) s).
Proof.
  revert p. induction s as [|c r IH]; intros p; simpl; [constructor|].
  destruct (continues p c) eqn:E; [|constructor]. constructor; [by eapply continues_safe|apply IH].
Qed.

Lemma word_run_safe s : Forall (fun c => safe c = true) (take (word_len s) s).
Proof.
  induction s as [|c r IH]; simpl; [constructor|].
  destruct (o9_c_word_char c) eqn:E; [|constructor]. constructor; [by apply word_safe|done].
Qed.

Lemma starts_with_take m s : starts_with m s = true -> take (length m) s = m.
Proof.
  revert s. induction m as [|a m IH]; intros [|b s]; simpl; try done.
  destruct (decide (a = b)) as [->|]; [|done]. intros H. by rewrite IH.
Qed.

Definition multi_tail_safe (l : list bytes) : bool := forallb (fun m => forallb safe (drop 1 m)) l.

Lemma op_run_safe c r : Forall (fun c => safe c = true) (take (op_len (c :: r) - 1) r).
Proof.
  assert (Hany : forall l n, multi_tail_safe l = true -> forallb (fun m => bool_decide (length m = S n)) l = true ->
    starts_any l (c :: r) = true -> Forall (fun c => safe c = true) (take n r)).
  { intros l n Hl Hn (m & Hm & H)%starts_any_true. unfold multi_tail_safe in Hl. rewrite forallb_forall in Hl, Hn.
    apply list_elem_of_In in Hm. specialize (Hl m Hm). specialize (Hn m Hm). apply bool_decide_eq_true in Hn.
    apply starts_with_take in H. rewrite Hn in H. rewrite <- H in Hl. simpl in Hl.
    rewrite drop_0 in Hl. apply Forall_forall. intros x Hx. rewrite forallb_forall in Hl. apply Hl. by apply list_elem_of_In. }
  unfold op_len. destruct (starts_any MULTI3 _) eqn:H3; [by eapply (Hany MULTI3 2%nat)|].
  destruct (starts_any MULTI2 _) eqn:H2; [by eapply (Hany MULTI2 1%nat)|]. constructor.
Qed.

Lemma token_run_safe c r : is_quote c = false -> Forall (fun c => safe c = true) (take (token_len (c :: r) - 1) r).
Proof.
  intros Hq. unfold token_len. rewrite Hq. destruct (starts_number (c :: r)).
  - replace (S (number_len c r) - 1)%nat with (number_len c r) by lia. apply number_safe.
  - destruct (o9_c_word_char c) eqn:E; [|apply op_run_safe].
    cbn [word_len]. rewrite E. replace (S (word_len r) - 1)%nat with (word_len r) by lia. apply word_run_safe.
Qed.

Lemma blank_no_gap last c : blank last false c = [].
Proof. by destruct last. Qed.

Lemma strip_run n r c : Forall (fun c => safe c = true) (take n r) ->
  strip (Some c) false r = (fun o => take n r ++ o) <$> strip (list.last (c :: take n r)) false (drop n r).
Proof.
  revert r c. induction n as [|n IH]; intros [|d r] c H; simpl in *; try reflexivity; try by destruct (strip _ _ _).
  inversion_clear H. rewrite strip_unfold, look_safe by done. rewrite blank_no_gap. simpl.
  rewrite (IH r d) by done. by destruct (strip _ _ _).
Qed.

Lemma strip_code last gap s c r : look s = SCode c r ->
  strip last gap s = (fun o => blank last gap c ++ take (token_len s) s ++ o) <$> strip (list.last (take (token_len s) s)) false (drop (token_len s) s).
Proof.
  intros Hl. assert (s = c :: r /\ is_quote c = false) as [-> Hq].
  { destruct s as [|d s]; [done|]. unfold look in Hl. destruct (is_quote d) eqn:Eq; [done|].
    destruct (starts_with _ _); [done|]. destruct (starts_with _ _); [done|]. destruct (is_layout d); [done|].
    by injection Hl as -> ->. }
  rewrite strip_unfold, Hl. pose proof (token_len_bounds (c :: r) ltac:(done)) as Hn.
  rewrite (strip_run (token_len (c :: r) - 1) r c) by by apply token_run_safe.
  destruct (token_len (c :: r)) as [|n]; [lia|]. simpl. replace (n - 0)%nat with n by lia. by destruct (strip _ _ _).
Qed.

Lemma quote_loop_esc q c r :
  quote_loop q true (c :: r) = let '(lit, rest) := quote_loop q false r in (c :: lit, rest).
Proof. done. Qed.

Lemma quote_loop_literal q s : q <> x5c ->
  quote_loop q false s = (take (literal_len q s) s, drop (literal_len q s) s).
Proof.
  intros Hq. assert (H : forall n s, (length s <= n)%nat ->
    quote_loop q false s = (take (literal_len q s) s, drop (literal_len q s) s)); [|by apply (H (length s))].
  clear s. induction n as [|n IH]; intros [|c r] Hn; try done; try (simpl in Hn; lia).
  simpl in Hn. cbn [literal_len quote_loop]. simpl (negb false).
  destruct (decide (c = x5c)) as [->|Hc].
  - rewrite (bool_decide_true (x5c = x5c)) by done. rewrite andb_false_r. simpl. rewrite andb_false_r.
    destruct r as [|d r]; [done|]. rewrite quote_loop_esc. simpl in Hn. rewrite (IH r) by lia. done.
  - rewrite (bool_decide_false (c = x5c)) by done. simpl. rewrite andb_true_r.
    destruct (bool_decide _); [done|]. rewrite (IH r) by lia. done.
Qed.

Lemma quote_not_escape c : is_quote c = true -> c <> x5c.
Proof. by intros H ->. Qed.

Lemma strip_token last gap s n (Hn : n = token_len s) :
  (exists c r, look s = SCode c r \/ look s = SQuote c r) ->
  strip last gap s = (fun o => blank last gap (List.hd x00 s) ++ take n s ++ o) <$> strip (list.last (take n s)) false (drop n s).
Proof.
  subst n. intros (c & r & [Hl|Hl]).
  - rewrite (strip_code _ _ _ _ _ Hl). destruct s as [|d s]; [done|]. unfold look in Hl.
    repeat (case_match; try done). by injection Hl as -> ->.
  - destruct s as [|d s]; [done|]. unfold look in Hl.
    destruct (is_quote d) eqn:Hq; [|by repeat (case_match; try done)]. injection Hl as -> ->.
    rewrite strip_unfold. unfold look. rewrite Hq. rewrite quote_loop_literal by by apply quote_not_escape.
    unfold token_len. rewrite Hq. simpl. done.
Qed.

(** ** The text that is left *)

Definition is_slash (c : byte) : bool := bool_decide (c = "/"%byte).

Lemma look_layout c r : is_layout c = true -> look (c :: r) = SBlank r.
Proof.
  pose proof (byte_all (fun c => implb (is_layout c) (negb (is_quote c || is_slash c))) ltac:(vm_compute; reflexivity) c) as H.
  unfold is_slash in H. intros E. rewrite E in H. simpl in H. rewrite negb_true_iff, orb_false_iff, bool_decide_eq_false in H.
  unfold look. destruct H as [-> H]. simpl. destruct (decide _); [congruence|]. by rewrite E.
Qed.

Lemma look_slash r : look ("/"%byte :: r) =
  if starts_with (str "/*") ("/"%byte :: r) then SBlock (drop 1 r)
  else if starts_with (str "//") ("/"%byte :: r) then SLine (drop 1 r) else SCode "/"%byte r.
Proof. done. Qed.

Lemma starts_with_slash p c r : starts_with ("/"%byte :: p) (c :: r) = true -> c = "/"%byte.
Proof. simpl. by destruct (decide _). Qed.

Lemma strip_squeeze fuel last gap s : (length s < fuel)%nat ->
  strip last gap s = if closed_loop fuel s then Some (squeeze last (items true fuel gap s)) else None.
Proof.
  revert last gap s. induction fuel as [|fuel IH]; intros last gap s Hf; [lia|].
  destruct s as [|c r]; [done|]. cbn [closed_loop items]. simpl in Hf.
  destruct (is_layout c) eqn:El.
  { rewrite strip_unfold, look_layout by done. apply IH. lia. }
  destruct (starts_with (str "/*") (c :: r)) eqn:Eb.
  { pose proof (starts_with_slash _ _ _ Eb) as ->. rewrite strip_unfold, look_slash, Eb. simpl.
    destruct (skip_block _) as [r'|] eqn:Er; [|done].
    apply skip_block_shorter in Er. rewrite length_drop in Er. simpl. apply IH. lia. }
  destruct (starts_with (str "//") (c :: r)) eqn:Ec.
  { pose proof (starts_with_slash _ _ _ Ec) as ->. rewrite strip_unfold, look_slash, Eb, Ec. simpl.
    destruct (skip_line _) as [r'|] eqn:Er; [|done].
    apply skip_line_shorter in Er. rewrite length_drop in Er. simpl. apply IH. lia. }
  pose proof (token_len_bounds (c :: r) ltac:(done)) as Hn.
  rewrite (strip_token _ _ _ (token_len (c :: r))) by (try done; exists c, r; unfold look; rewrite Eb, Ec, El; destruct (is_quote c); eauto).
  rewrite IH by (rewrite length_drop; simpl in *; lia). simpl andb. destruct (closed_loop _ _); [|done].
  cbn [squeeze fmap option_fmap option_map]. do 2 f_equal.
  destruct (token_len (c :: r)) as [|n]; [lia|]. done.
Qed.

(** ** A token stays a token in its new place *)

Lemma literal_stable q a r w : r <> [] -> literal_len q (a ++ r) = length a -> literal_len q (a ++ w) = length a.
Proof.
  intros Hr. assert (H : forall n a, (length a <= n)%nat -> literal_len q (a ++ r) = length a -> literal_len q (a ++ w) = length a); [|by eapply (H (length a))].
  clear a. induction n as [|n IH]; intros [|c a] Hn Hl; simpl in Hn; try lia.
  1,2: destruct r as [|d r]; [done|]; cbn [app literal_len] in Hl; repeat case_match; simpl in Hl; lia.
  cbn [app literal_len] in *. destruct (_ && _); [done|]. destruct (bool_decide (c = x5c)).
  - destruct a as [|d a]; simpl in *; [by destruct r|]. f_equal. f_equal. apply IH; lia.
  - simpl in *. f_equal. apply IH; lia.
Qed.

Lemma word_stable a r w : word_len (a ++ r) = length a ->
  match w with x :: _ => o9_c_word_char x = false | [] => True end -> word_len (a ++ w) = length a.
Proof.
  induction a as [|c a IH]; simpl; intros Hl Hw.
  - destruct w as [|x w]; simpl; [done|]. by rewrite Hw.
  - destruct (o9_c_word_char c); [|done]. f_equal. apply IH; [lia|done].
Qed.

Lemma number_stable p a r w : number_len p (a ++ r) = length a ->
  match w with x :: _ => continues (List.last (p :: a) x00) x = false | [] => True end -> number_len p (a ++ w) = length a.
Proof.
  revert p. induction a as [|c a IH]; intros p; simpl; intros Hl Hw.
  - destruct w as [|x w]; simpl; [done|]. by rewrite Hw.
  - destruct (continues p c); [|done]. f_equal. apply IH; [lia|done].
Qed.

Lemma starts_with_app m s w : (length m <= length s)%nat -> starts_with m (s ++ w) = starts_with m s.
Proof.
  revert s. induction m as [|a m IH]; intros [|b s] Hl; simpl in *; try done; [lia|].
  destruct (decide _); [|done]. apply IH. lia.
Qed.

Lemma starts_any_app n l s w : forallb (fun m => bool_decide (length m <= n)%nat) l = true -> (n <= length s)%nat ->
  starts_any l (s ++ w) = starts_any l s.
Proof.
  intros Hl Hn. unfold starts_any. induction l as [|m l IH]; simpl in *; [done|].
  apply andb_true_iff in Hl as [Hm%bool_decide_eq_true Hl]. rewrite starts_with_app by lia. by rewrite IH.
Qed.

(** What may follow the token [t] in the new text, where [r] followed it in the
    old one. *)
Definition next_ok (t r w : bytes) : Prop :=
  (r = [] -> w = []) /\
  match w with
  | [] => True
  | x :: w' =>
      x = x20 \/
      (o9_c_token_join (List.last t x00) x = false /\ (starts_number t = true -> continues (List.last t x00) x = false)) \/
      (List.head r = Some x /\ (t = str "." -> x = "."%byte -> List.head w' <> Some "."%byte))
  end.

Lemma join_multi2 a b : [a; b] ∈ MULTI2 -> o9_c_token_join a b = true.
Proof. unfold MULTI2. set_unfold. intros H. by destruct_or! H; injection H as -> ->. Qed.

Lemma join_multi3 a b c : [a; b; c] ∈ MULTI3 -> o9_c_token_join b c = true.
Proof. unfold MULTI3. set_unfold. intros H. by destruct_or! H; injection H as -> -> ->. Qed.

Lemma starts_with_2 a b x s : starts_with [a; b] (x :: s) = true -> x = a /\ List.head s = Some b.
Proof. simpl. destruct (decide (a = x)); [|done]. destruct s as [|y s]; [done|]. destruct (decide (b = y)); naive_solver. Qed.

Lemma starts_with_3 a b c x s : starts_with [a; b; c] (x :: s) = true -> x = a /\ exists s', s = b :: s' /\ List.head s' = Some c.
Proof.
  simpl. destruct (decide (a = x)); [|done]. destruct s as [|y s]; [done|]. destruct (decide (b = y)); [|done].
  destruct s as [|z s]; [done|]. destruct (decide (c = z)); naive_solver.
Qed.

Lemma multi_lengths : (forall m, m ∈ MULTI2 -> exists a b, m = [a; b] /\ b <> x20) /\ (forall m, m ∈ MULTI3 -> exists a b c, m = [a; b; c] /\ c <> x20 /\ b <> x20).
Proof. split; intros m; unfold MULTI2, MULTI3; set_unfold; intros H; by destruct_or! H; subst m; eauto 10. Qed.

(** A longer operator that starts with an operator character ends with one
    that the code keeps apart, or the two dots are such a pair. *)
Lemma multi3_prefix a b c : [a; b; c] ∈ MULTI3 -> [a; b] ∈ MULTI2 \/ (a = "."%byte /\ b = "."%byte /\ c = "."%byte).
Proof. unfold MULTI2, MULTI3. set_unfold. intros H. destruct_or! H; injection H as -> -> ->; naive_solver. Qed.

Lemma op_one_stable c r w : op_len (c :: r) = 1%nat -> next_ok [c] r w -> op_len (c :: w) = 1%nat.
Proof.
  unfold op_len. intros H. destruct (starts_any MULTI3 (c :: r)) eqn:R3; [done|]. destruct (starts_any MULTI2 (c :: r)) eqn:R2; [done|]. clear H.
  intros [_ Hw]. destruct multi_lengths as [L2 L3].
  assert (W2 : starts_any MULTI2 (c :: w) = false).
  { apply not_true_iff_false. intros (m & Hm & Hs)%starts_any_true. destruct (L2 m Hm) as (a & b & -> & Hb).
    apply starts_with_2 in Hs as [-> Hx]. destruct w as [|x w]; [done|]. injection Hx as ->.
    destruct Hw as [?|[[Hj _]|[Hr _]]]; [done| |].
    - simpl in Hj. by rewrite (join_multi2 a b) in Hj.
    - pose proof (starts_any_false _ _ _ R2 Hm) as F. destruct r as [|x r]; [done|]. injection Hr as ->. simpl in F.
      repeat (destruct (decide _); [|done]). done. }
  rewrite W2. destruct (starts_any MULTI3 (c :: w)) eqn:W3; [|done].
  apply starts_any_true in W3 as (m & Hm & Hs). destruct (L3 m Hm) as (a & b & d & -> & Hd & Hb).
  apply starts_with_3 in Hs as [-> (w' & -> & Hw')]. destruct (multi3_prefix _ _ _ Hm) as [Hm2|(-> & -> & ->)].
  - pose proof (starts_any_false _ _ _ W2 Hm2) as F. simpl in F. repeat (destruct (decide _); [|done]). done.
  - destruct Hw as [?|[[Hj _]|[Hr Hdots]]]; [done|done|]. by destruct (Hdots eq_refl eq_refl).
Qed.

Lemma op_two_stable a b r w : op_len (a :: b :: r) = 2%nat -> next_ok [a; b] r w -> op_len (a :: b :: w) = 2%nat.
Proof.
  unfold op_len. intros H. destruct (starts_any MULTI3 (a :: b :: r)) eqn:R3; [done|].
  destruct (starts_any MULTI2 (a :: b :: r)) eqn:R2; [|done]. clear H. intros [_ Hw]. destruct multi_lengths as [L2 L3].
  change (a :: b :: r) with ([a; b] ++ r) in R2. change (a :: b :: w) with ([a; b] ++ w).
  rewrite (starts_any_app 2 MULTI2) in R2 |- * by (vm_compute; done || reflexivity). rewrite R2.
  destruct (starts_any MULTI3 ([a; b] ++ w)) eqn:W3; [|done].
  apply starts_any_true in W3 as (m & Hm & Hs). destruct (L3 m Hm) as (a' & b' & c & -> & Hc & _).
  apply starts_with_3 in Hs as [-> (w' & [= -> ->] & Hx)]. destruct w' as [|x w']; [done|]. injection Hx as ->.
  destruct Hw as [?|[[Hj _]|[Hr _]]]; [done| |].
  - simpl in Hj. by rewrite (join_multi3 _ _ _ Hm) in Hj.
  - pose proof (starts_any_false _ _ _ R3 Hm) as F. destruct r as [|x r]; [done|]. injection Hr as ->. simpl in F.
    repeat (destruct (decide _); [|done]). done.
Qed.

Lemma op_three_stable a b c r w : op_len (a :: b :: c :: r) = 3%nat -> op_len (a :: b :: c :: w) = 3%nat.
Proof.
  unfold op_len. intros H. change (a :: b :: c :: r) with ([a; b; c] ++ r) in H. change (a :: b :: c :: w) with ([a; b; c] ++ w).
  rewrite (starts_any_app 3 MULTI3) in H |- * by (vm_compute; done || reflexivity).
  destruct (starts_any MULTI3 [a; b; c]); [done|]. by destruct (starts_any MULTI2 _).
Qed.

Lemma op_stable t r w : t <> [] -> op_len (t ++ r) = length t -> next_ok t r w -> op_len (t ++ w) = length t.
Proof.
  intros Ht Hl Hw.
  assert (op_len (t ++ r) <= 3)%nat as H3 by (unfold op_len; repeat case_match; lia).
  destruct t as [|a [|b [|c [|d t]]]]; try done; simpl in *; try lia.
  - by eapply op_one_stable.
  - by eapply op_two_stable.
Qed.

Lemma dot_digit d : is_dec d = true -> o9_c_token_join "."%byte d = true.
Proof. unfold o9_c_token_join. intros ->. by rewrite orb_true_r, !orb_true_r. Qed.

Lemma starts_number_stable t r w : t <> [] -> next_ok t r w -> starts_number (t ++ r) = false -> starts_number (t ++ w) = false.
Proof.
  intros Ht [_ Hw]. destruct t as [|c [|d t]]; [done| |done]. simpl. intros (-> & H)%orb_false_iff. simpl.
  destruct (decide (c = "."%byte)) as [->|Hc]; [|by rewrite bool_decide_false].
  simpl in *. destruct w as [|x w]; [done|]. destruct Hw as [->|[[Hj _]|[Hr _]]]; [done| |].
  - destruct (is_dec x) eqn:E; [|done]. by rewrite dot_digit in Hj.
  - by destruct r; [|injection Hr as ->].
Qed.

Lemma word_dec c : is_dec c = true -> o9_c_word_char c = true.
Proof. unfold o9_c_word_char. intros ->. by rewrite orb_true_r. Qed.

Lemma word_join a b : o9_c_word_char a = true -> o9_c_word_char b = true -> o9_c_token_join a b = true.
Proof. unfold o9_c_token_join. by intros -> ->. Qed.

Lemma word_len_last t r : t <> [] -> word_len (t ++ r) = length t ->
  o9_c_word_char (List.last t x00) = true /\ match r with x :: _ => o9_c_word_char x = false | [] => True end.
Proof.
  induction t as [|c t IH]; [done|]. intros _. simpl. destruct (o9_c_word_char c) eqn:E; [|done]. intros [= Hl].
  destruct t as [|d t]; [|by apply IH]. split; [done|]. destruct r as [|x r]; [done|]. simpl in Hl.
  by destruct (o9_c_word_char x).
Qed.

Lemma number_len_last p t r : number_len p (t ++ r) = length t ->
  match r with x :: _ => continues (List.last (p :: t) x00) x = false | [] => True end.
Proof.
  revert p. induction t as [|c t IH]; intros p; simpl.
  - destruct r as [|x r]; simpl; [done|]. by destruct (continues p x).
  - destruct (continues p c); [|done]. intros [= Hl]. by apply (IH c).
Qed.

(** [next_ok] settles what follows a run of characters of one kind. *)
Lemma next_stops (stops : byte -> Prop) t r w : next_ok t r w -> stops x20 ->
  (forall x, o9_c_token_join (List.last t x00) x = false -> (starts_number t = true -> continues (List.last t x00) x = false) -> stops x) ->
  match r with x :: _ => stops x | [] => True end ->
  match w with x :: _ => stops x | [] => True end.
Proof.
  intros [_ Hw] Hs Hj Hr. destruct w as [|x w]; [done|]. destruct Hw as [->|[[H1 H2]|[Hx _]]]; [done|by apply Hj|].
  by destruct r; [|injection Hx as ->].
Qed.

Lemma token_stable t r w : t <> [] -> token_len (t ++ r) = length t -> next_ok t r w -> token_len (t ++ w) = length t.
Proof.
  intros Ht Hl Hw. destruct t as [|c t]; [done|]. cbn [app token_len] in Hl |- *. unfold token_len in Hl |- *.
  destruct (is_quote c).
  { cbn [length] in *. f_equal. injection Hl as Hl. destruct r as [|x r].
    - by rewrite (proj1 Hw) by done.
    - by apply (literal_stable _ _ (x :: r)). }
  destruct (starts_number (c :: t ++ r)) eqn:Hn.
  - simpl in Hl. injection Hl as Hl.
    assert (Hsn : (length t = 0%nat -> is_dec c = true) -> starts_number (c :: t ++ w) = true /\ starts_number (c :: t) = true).
    { intros Hd. destruct t as [|d t]; [|done]. simpl. by rewrite (Hd eq_refl). }
    destruct Hsn as [-> Hsn].
    { destruct t as [|d t]; [|done]. intros _. simpl in Hn. destruct (is_dec c); [done|]. simpl in Hn.
      apply andb_true_iff in Hn as [_ Hn]. destruct r as [|x r]; [done|]. simpl in Hl.
      unfold continues in Hl. by rewrite (word_dec x) in Hl. }
    simpl. f_equal. eapply number_stable; [done|].
    eapply (next_stops (fun x => continues (List.last (c :: t) x00) x = false)); [done|done| |by apply number_len_last].
    intros x _ Hx. by apply Hx.
  - change (c :: t ++ r) with ((c :: t) ++ r) in *. change (c :: t ++ w) with ((c :: t) ++ w).
    rewrite (starts_number_stable _ r) by done. destruct (o9_c_word_char c) eqn:Ec; [|by eapply op_stable].
    pose proof (word_len_last _ _ Ht Hl) as [Hlast Hr].
    eapply word_stable; [done|]. eapply (next_stops (fun x => o9_c_word_char x = false)); [done|done| |done].
    intros x Hj _. destruct (o9_c_word_char x) eqn:E; [|done]. by rewrite word_join in Hj.
Qed.

(** ** The tokens of the text that is left *)

Lemma items_nil comments fuel gap : items comments fuel gap [] = [].
Proof. by destruct fuel. Qed.

Lemma squeeze_head fuel gap s a :
  (s = [] -> squeeze (Some a) (items true fuel gap s) = []) /\
  match squeeze (Some a) (items true fuel gap s) with
  | [] => True
  | x :: _ =>
      x = x20 \/
      (o9_c_token_join a x = false /\ exists t its, snd <$> items true fuel gap s = t :: its /\ List.hd x00 t = x) \/
      (gap = false /\ List.head s = Some x)
  end.
Proof.
  split; [by intros ->; rewrite items_nil|]. revert gap s. induction fuel as [|fuel IH]; intros gap s; [done|].
  destruct s as [|c r]; [done|]. cbn [items].
  assert (Htrue : forall s, match squeeze (Some a) (items true fuel true s) with
    | [] => True
    | x :: _ => x = x20 \/ (o9_c_token_join a x = false /\ exists t its, snd <$> items true fuel true s = t :: its /\ List.hd x00 t = x) \/
                (gap = false /\ List.head (c :: r) = Some x) end).
  { intros s. specialize (IH true s). destruct (squeeze _ _); [done|]. naive_solver. }
  destruct (is_layout c); [apply Htrue|]. destruct (true && starts_with (str "/*") _); [apply Htrue|].
  destruct (true && starts_with (str "//") _); [apply Htrue|]. clear Htrue.
  pose proof (token_len_bounds (c :: r) ltac:(done)) as Hn. destruct (token_len (c :: r)) as [|n]; [lia|].
  cbn [squeeze take List.hd blank]. destruct gap; simpl; [|by right; right].
  destruct (o9_c_token_join a c) eqn:E; simpl; [by left|]. right. left. eauto.
Qed.

Lemma three_dots r : token_len ("."%byte :: "."%byte :: r) = 1%nat -> List.head r <> Some "."%byte.
Proof. destruct r as [|c r]; [done|]. intros H [= ->]. vm_compute in H. done. Qed.

Lemma one_dot r : starts_number ("."%byte :: r) = false -> List.head r <> Some "."%byte -> token_len ("."%byte :: r) = 1%nat.
Proof.
  intros Hn Hr. unfold token_len. rewrite Hn. simpl. unfold op_len.
  destruct (starts_any MULTI3 _) eqn:H3.
  - apply starts_any_true in H3 as (m & Hm & Hs). unfold MULTI3 in Hm. set_unfold in Hm. destruct_or! Hm; subst m; try done.
    destruct r as [|c r]; [done|]. simpl in Hs. destruct (decide _); [by subst|done].
  - destruct (starts_any MULTI2 _) eqn:H2; [|done].
    apply starts_any_true in H2 as (m & Hm & Hs). revert Hm. unfold MULTI2. set_unfold. intros Hm. by destruct_or! Hm; subst m.
Qed.

Lemma dots_apart fuel a x w r : token_len ("."%byte :: r) = 1%nat -> List.head r = Some "."%byte ->
  squeeze (Some a) (items true fuel false r) = x :: w -> List.head w <> Some "."%byte.
Proof.
  intros Hone Hr. destruct r as [|? r]; [done|]. injection Hr as ->. apply three_dots in Hone.
  destruct fuel as [|fuel]; [done|]. cbn [items].
  change (is_layout "."%byte) with false. change (true && starts_with (str "/*") ("."%byte :: r)) with false.
  change (true && starts_with (str "//") ("."%byte :: r)) with false. cbn [squeeze blank].
  destruct (starts_number ("."%byte :: r)) eqn:Hn.
  - unfold token_len. rewrite Hn. destruct r as [|d r]; [done|]. simpl in Hn. simpl.
    destruct (continues "."%byte d) eqn:Hc; [|unfold continues in Hc; by rewrite (word_dec d) in Hc].
    intros [= <- <-]. simpl. intros [= ->]. done.
  - rewrite (one_dot r) by done. simpl. intros [= <- <-].
    pose proof (squeeze_head fuel false r "."%byte) as [_ H]. destruct (squeeze _ _) as [|y w]; [done|].
    destruct H as [->|[[Hj _]|[_ Hy]]]; [done|by intros [= ->]|by rewrite Hy in Hone].
Qed.

Lemma last_list_last {A} (l : list A) d : l <> [] -> list.last l = Some (List.last l d).
Proof. induction l as [|x [|y l] IH]; [done|done|]. intros _. by apply IH. Qed.

Lemma item_next_ok fuel t r : t <> [] -> token_len (t ++ r) = length t ->
  no_glue (t :: (snd <$> items true fuel false r)) = true ->
  next_ok t r (squeeze (list.last t) (items true fuel false r)).
Proof.
  intros Ht Hl Hg. rewrite (last_list_last t x00) by done.
  destruct (squeeze_head fuel false r (List.last t x00)) as [Hnil H]. split; [done|].
  destruct (squeeze _ _) as [|x w] eqn:Ew; [done|]. destruct H as [->|[(Hj & u & its & Eu & Hu)|[_ Hr]]]; [by left|right; left|right; right].
  - split; [done|]. intros Hn. rewrite Eu in Hg. simpl in Hg. rewrite Hn, Hu in Hg.
    apply andb_true_iff in Hg as [Hg%negb_true_iff _]. done.
  - split; [done|]. intros -> ->. exact (dots_apart fuel _ _ w r Hl Hr Ew).
Qed.

Lemma blank_cases last gap c : blank last gap c = [] \/ blank last gap c = [x20].
Proof. unfold blank. repeat case_match; auto. Qed.

Lemma tokens_step comments g gap t w : t <> [] -> (length (t ++ w) < g)%nat -> is_layout (List.hd x00 t) = false ->
  token_len (t ++ w) = length t -> comments = false ->
  exists g', (length w < g')%nat /\ items comments g gap (t ++ w) = (gap, t) :: items comments g' false w.
Proof.
  intros Ht Hg Hlay Hl ->. destruct t as [|c t]; [done|]. destruct g as [|g]; [lia|]. exists g.
  rewrite length_app in Hg. simpl in Hg. split; [lia|]. cbn [items app]. simpl in Hlay. rewrite Hlay. simpl andb.
  cbn iota. change (c :: t ++ w) with ((c :: t) ++ w). rewrite Hl, take_app_length, drop_app_length. done.
Qed.

Lemma tokens_of_squeeze fuel gap s last g gap' :
  no_glue (snd <$> items true fuel gap s) = true ->
  (length (squeeze last (items true fuel gap s)) < g)%nat ->
  snd <$> items false g gap' (squeeze last (items true fuel gap s)) = snd <$> items true fuel gap s.
Proof.
  revert gap s last g gap'. induction fuel as [|fuel IH]; intros gap s last g gap' Hg Hlen; [by rewrite items_nil|].
  destruct s as [|c r]; [by rewrite items_nil|]. cbn [items] in *.
  destruct (is_layout c) eqn:El; [by apply IH|]. destruct (true && starts_with (str "/*") _); [by apply IH|].
  destruct (true && starts_with (str "//") _); [by apply IH|].
  pose proof (token_len_bounds (c :: r) ltac:(done)) as Hn. set (n := token_len (c :: r)) in *.
  set (t := take n (c :: r)) in *. set (rest := drop n (c :: r)) in *.
  assert (Ht : t <> []) by (subst t; destruct n; [lia|done]).
  assert (Hlt : length t = n) by (subst t; rewrite length_take; lia).
  assert (Hhd : List.hd x00 t = c) by (subst t; destruct n; [lia|done]).
  assert (Hsplit : token_len (t ++ rest) = length t) by (subst t rest; rewrite take_drop; rewrite Hlt; done).
  cbn [fmap list_fmap] in Hg |- *. cbn [squeeze] in Hlen |- *.
  set (w := squeeze (list.last t) (items true fuel false rest)) in *.
  assert (Hst : token_len (t ++ w) = length t).
  { apply (token_stable t rest); [done|done|]. by apply item_next_ok. }
  assert (Hmain : forall g gap, (length (t ++ w) < g)%nat -> snd <$> items false g gap (t ++ w) = t :: (snd <$> items true fuel false rest)).
  { intros g0 gap0 Hg0. destruct (tokens_step false g0 gap0 t w) as (g' & Hg' & ->); [done|done|by rewrite Hhd|done|done|].
    cbn [fmap list_fmap]. f_equal. apply IH; [|done].
    destruct (snd <$> items true fuel false rest) eqn:Ei; [done|]. simpl in Hg. by apply andb_true_iff in Hg as [_ Hg]. }
  destruct (blank_cases last gap (List.hd x00 t)) as [E|E]; rewrite E in Hlen |- *.
  - by apply Hmain.
  - destruct g as [|g]; [simpl in Hlen; lia|]. cbn [items app]. change (is_layout x20) with true. cbn iota.
    apply Hmain. simpl in Hlen. lia.
Qed.

(** ** Files *)

Lemma read_loop_exact fuel data off len : (len - off < fuel)%nat -> (off <= len)%nat ->
  read_loop fuel data off len = take (len - off) (drop off data).
Proof.
  revert off. induction fuel as [|fuel IH]; intros off Hf Hle; [lia|]. cbn [read_loop].
  destruct (decide (off < len)%nat); [|by replace (len - off)%nat with O by lia].
  set (k := Z.to_nat (Z.min 8192 (Z.of_nat (len - off)))). assert (1 <= k <= len - off)%nat as Hk by lia. clearbody k.
  destruct (drop off data) as [|c d] eqn:Ed; [by rewrite !take_nil|].
  destruct (decide (take k (c :: d) = [])) as [E|_]; [by destruct k; [lia|]|].
  rewrite IH, <- drop_drop, Ed.
  - destruct (decide (k <= length (c :: d))%nat).
    + rewrite length_take, Nat.min_l by done. rewrite take_take_drop. f_equal. lia.
    + rewrite length_take, Nat.min_r by lia. rewrite drop_all, take_nil, app_nil_r, !take_ge by lia. done.
  - rewrite length_take. simpl. lia.
  - rewrite length_take. lia.
Qed.

Lemma read_file_whole fs path data max : path <> [] -> fs path = Some data -> max <= 0 \/ Z.of_nat (length data) <= max ->
  o9_read_file_c fs path max = Some data.
Proof.
  intros Hp Hd Hm. unfold o9_read_file_c. rewrite decide_False by done. rewrite Hd. cbn [mbind option_bind].
  replace (bool_decide (0 < max) && _) with false by (symmetry; apply andb_false_iff; rewrite !bool_decide_eq_false; lia).
  cbv zeta iota. rewrite read_loop_exact by lia. rewrite drop_0, Nat.sub_0_r, firstn_all. done.
Qed.

(** ** The comparison *)

Lemma strip_exact s : o9_c_without_ws_comments s = if comments_closed s then Some (squeeze None (c_items s)) else None.
Proof. apply (strip_squeeze (S (length s))). lia. Qed.

Lemma squeeze_tokens s : no_glue (c_tokens s) = true ->
  snd <$> items false (S (length (squeeze None (c_items s)))) false (squeeze None (c_items s)) = c_tokens s.
Proof. intros H. apply tokens_of_squeeze; [done|]. apply Nat.lt_succ_diag_r. Qed.

(** *** Which layout is kept *)

(** For each token, whether layout before it is kept: it is there, and the
    characters that would touch are a pair of [o9_c_token_join]. *)
Definition touches (last : option byte) (c : byte) : bool :=
  match last with Some a => o9_c_token_join a c | None => false end.

Fixpoint kept (last : option byte) (l : list (bool * bytes)) : list bool :=
  match l with
  | [] => []
  | (gap, t) :: l => gap && touches last (List.hd x00 t) :: kept (list.last t) l
  end.

Definition c_kept (s : bytes) : list bool := kept None (c_items s).

Lemma blank_touches last gap c : blank last gap c = if gap && touches last c then [x20] else [].
Proof. unfold blank, touches. destruct last, gap; try done. Qed.

Lemma squeeze_kept last l l' : snd <$> l = snd <$> l' -> kept last l = kept last l' -> squeeze last l = squeeze last l'.
Proof.
  revert last l'. induction l as [|[g t] l IH]; intros last [|[g' t'] l']; try done. cbn [fmap list_fmap snd kept squeeze].
  intros [= -> Ht] [= Hk Hk']. by rewrite (IH _ l' Ht Hk'), !blank_touches, Hk.
Qed.

(** A token does not start with layout. *)
Definition solid (t : bytes) : Prop := t <> [] /\ is_layout (List.hd x00 t) = false.

Lemma items_solid comments fuel gap s : Forall (fun x => solid x.2) (items comments fuel gap s).
Proof.
  revert gap s. induction fuel as [|fuel IH]; intros gap s; [constructor|]. destruct s as [|c r]; [constructor|]. cbn [items].
  destruct (is_layout c) eqn:El; [done|]. destruct (_ && _); [done|]. destruct (_ && _); [done|].
  constructor; [|done]. pose proof (token_len_bounds (c :: r) ltac:(done)) as Hn. cbn [snd].
  destruct (token_len (c :: r)); [lia|]. done.
Qed.

Lemma kept_squeeze last l l' : Forall (fun x => solid x.2) l -> snd <$> l = snd <$> l' ->
  squeeze last l = squeeze last l' -> kept last l = kept last l'.
Proof.
  intros Hl. revert last l'. induction Hl as [|[g t] l [Hne Hlay] _ IH]; intros last [|[g' t'] l']; try done.
  cbn [fmap list_fmap snd kept squeeze] in *. intros [= <- Ht]. destruct t as [|c t]; [done|]. cbn [List.hd] in *.
  assert (Hc : c <> x20) by (by intros ->). intros E.
  rewrite !blank_touches in E.
  destruct (g && touches last c), (g' && touches last c); cbn [app] in E;
    [|by injection E as E _|by injection E as E _|].
  - injection E as E. apply app_inv_head in E. f_equal. by apply IH.
  - injection E as E. apply app_inv_head in E. f_equal. by apply IH.
Qed.

(** *** Which characters join *)

(** Some token that ends with [a] and some token that starts with [b] are not
    these two tokens when they are written together. *)
Definition can_join (a b : byte) : Prop :=
  exists t u, c_tokens t = [t] /\ c_tokens u = [u] /\ list.last t = Some a /\ List.head u = Some b /\ c_tokens (t ++ u) <> [t; u].

(** The joins of C that the reference does not know: the prefix of a literal
    and the digraphs. *)
Definition digraphs : list (byte * byte) := [("<", ":"); ("<", "%"); ("%", ">"); ("%", ":"); (":", ">")]%byte.
Definition other_join (a b : byte) : bool := o9_c_word_char a && is_quote b || bool_decide ((a, b) ∈ digraphs).

Definition joins_by (a b : byte) (p : bytes) : bool :=
  let t := p ++ [a] in
  bool_decide (c_tokens t = [t]) && bool_decide (c_tokens [b] = [[b]]) && negb (bool_decide (c_tokens (t ++ [b]) = [t; [b]])).

Lemma joins_by_can a b p : joins_by a b p = true -> can_join a b.
Proof.
  unfold joins_by. rewrite !andb_true_iff, negb_true_iff, !bool_decide_eq_true, bool_decide_eq_false. intros [[H1 H2] H3].
  exists (p ++ [a]), [b]. split_and!; [done|done|by rewrite last_snoc|done|done].
Qed.

Definition join_sound (a b : byte) : bool :=
  if o9_c_token_join a b then
    if other_join a b then true else if joins_by a b [] then true else joins_by a b (str "1")
  else true.

Lemma join_can a b : o9_c_token_join a b = true -> can_join a b \/ other_join a b = true.
Proof.
  intros H. pose proof (byte_all (fun a => forallb (join_sound a) (map (fun n => default x00 (Byte.of_N (N.of_nat n))) (seq 0 256)))
    ltac:(vm_compute; reflexivity) a) as Ha. cbv beta in Ha. pose proof (byte_all (join_sound a) Ha b) as Hb.
  unfold join_sound in Hb. rewrite H in Hb. destruct (other_join a b); [by right|left].
  destruct (joins_by a b []) eqn:E; by eapply joins_by_can.
Qed.

(** C34: two different files, with their comments closed, are called equal up
    to layout if and only if the reference tokenizer finds the same tokens in
    both and layout (blanks or a comment) stands between the same of those
    neighbours whose touching characters [o9_c_token_join] lists; layout at
    any other place makes no difference. (From left to right this is for
    texts in which no number stands before a token that it would swallow.)
    The pairs that are listed are such that some tokens that end and start
    with them are other tokens when they touch, or are a literal's prefix and
    quote or a digraph. The texts are read beyond their end exactly when they
    differ and one has an open comment. *)
Theorem lexical_equiv_exact fs a b s t :
  a <> [] -> b <> [] -> fs a = Some s -> fs b = Some t -> is_cstr s -> is_cstr t ->
  Z.of_nat (length s) <= 2 * 1024 * 1024 -> Z.of_nat (length t) <= 2 * 1024 * 1024 ->
  (o9_c_lexical_whitespace_equiv fs a b = None <-> s <> t /\ comments_closed s && comments_closed t = false) /\
  (s <> t -> comments_closed s = true -> comments_closed t = true -> c_tokens s = c_tokens t -> c_kept s = c_kept t ->
   o9_c_lexical_whitespace_equiv fs a b = Some true) /\
  (o9_c_lexical_whitespace_equiv fs a b = Some true -> no_glue (c_tokens s) = true -> no_glue (c_tokens t) = true ->
   s <> t /\ comments_closed s = true /\ comments_closed t = true /\ c_tokens s = c_tokens t /\ c_kept s = c_kept t) /\
  (forall x y, o9_c_token_join x y = true -> can_join x y \/ other_join x y = true).
Proof.
  intros Ha Hb Hs Ht Cs Ct Ls Lt. unfold o9_c_lexical_whitespace_equiv.
  rewrite (read_file_whole _ _ s), (read_file_whole _ _ t) by auto. rewrite !cstr_id by done.
  assert (Hand : forall P Q R S : Prop, P /\ Q /\ R -> S -> P /\ Q /\ R /\ S) by tauto.
  apply Hand; [clear Hand|exact join_can].
  unfold streq. destruct (decide (s = t)) as [->|Hst]; [rewrite bool_decide_true by done; naive_solver|].
  rewrite bool_decide_false by done. rewrite !strip_exact.
  destruct (comments_closed s), (comments_closed t); simpl; try naive_solver.
  split_and!; [naive_solver| |].
  - intros _ _ _ Htok Hk. rewrite bool_decide_true; [done|]. by apply squeeze_kept.
  - intros [= E%bool_decide_eq_true] Hg1 Hg2.
    assert (Htok : c_tokens s = c_tokens t) by by rewrite <- (squeeze_tokens s), <- (squeeze_tokens t), E.
    split_and!; [done..|]. apply kept_squeeze; [apply items_solid|done..].
Qed.

(** A source and three mutants of it. *)
Definition demo_files : files := fun path =>
  if streq path (str "a.c") then Some (str "x += y[1]; /* one */ return - -z;")
  else if streq path (str "b.c") then Some (str "x  +=y [1];return- /**/ -z;")
  else None.

Lemma lexical_equiv_exact_witness :
  o9_c_lexical_whitespace_equiv demo_files (str "a.c") (str "b.c") <> None /\
  c_tokens (str "x += y[1]; /* one */ return - -z;") = c_tokens (str "x  +=y [1];return- /**/ -z;").
Proof.
  destruct (lexical_equiv_exact demo_files (str "a.c") (str "b.c")
    (str "x += y[1]; /* one */ return - -z;") (str "x  +=y [1];return- /**/ -z;")) as (Hnone & _ & Htrue & _);
    [done|done|done|done|by apply (bool_decide_unpack _); vm_compute|by apply (bool_decide_unpack _); vm_compute|done|done|].
  split.
  - intros H%Hnone. destruct H as [_ H]. by vm_compute in H.
  - apply Htrue; vm_compute; reflexivity.
Defined.

(** ** What the comparison gets wrong *)

(** A text whose last line is a comment without a newline is read beyond its
    end. *)
Lemma last_comment_overread : o9_c_without_ws_comments (str "int x; // done") = None.
Proof. vm_compute. reflexivity. Qed.

(** The end of a preprocessor line is layout like any other: a mutant that
    moves code into a macro is called equivalent. *)
Lemma directive_joined :
  o9_c_without_ws_comments (str "#define F return 1;" ++ NL :: str "f();") =
  o9_c_without_ws_comments (str "#define F return 1; f();").
Proof. vm_compute. reflexivity. Qed.

(** [0xe +1] is a sum, [0xe+1] one (malformed) number. *)
Lemma number_joined :
  o9_c_without_ws_comments (str "0xe +1") = o9_c_without_ws_comments (str "0xe+1") /\
  c_tokens (str "0xe +1") <> c_tokens (str "0xe+1").
Proof. split; [vm_compute; reflexivity|]. by vm_compute. Qed.

(** The same tokens, but told apart: a digit before a dot keeps the blank. *)
Lemma member_told_apart :
  c_tokens (str "x1 .y") = c_tokens (str "x1.y") /\
  o9_c_without_ws_comments (str "x1 .y") <> o9_c_without_ws_comments (str "x1.y").
Proof. split; [vm_compute; reflexivity|]. by vm_compute. Qed.

(** The same tokens of valid C, told apart: [&& &b] and [&&&b]. *)
Lemma address_told_apart :
  c_tokens (str "a && &b") = c_tokens (str "a&&&b") /\
  o9_c_without_ws_comments (str "a && &b") <> o9_c_without_ws_comments (str "a&&&b").
Proof. split; [vm_compute; reflexivity|]. by vm_compute. Qed.
