(* ===== verification/Journal.v ===== *)
(** * Journals, status files and the ledger ([o9_runtime.c], the build grid)

    The workers of the build grid keep their state in text files: a journal to
    which every event appends a line of tab-separated fields, status files of
    key and value, tables with one row, and the ledger of equivalent mutants.
    [o9_append_event] and [o9_journal_split] are the two ends of the journal;
    the theorem says that what the first writes the second gives back. *)
From S2P Require Import Prelude Fmt CText.

Open Scope Z_scope.

(** ** Events *)

(** The files, and the number of the process's last event. *)
Record world := World { w_files : gmap bytes bytes; w_seq : Z }.

Definition set_files (fs : gmap bytes bytes) (w : world) : world := World fs (w_seq w).

Fixpoint joined (sep : byte) (l : list bytes) : bytes :=
  match l with
  | [] => []
  | [x] => x
  | x :: l => x ++ sep :: joined sep l
  end.

Definition LINE : nat := 2048.

(** The line that an event writes: cut at the buffer, the detail left out when
    there is no room and the newline when the buffer is full. *)
Definition event_line (seq ms : Z) (origin type entity_kind entity_id detail : bytes) : bytes :=
  let head := snprint LINE (joined TAB [itoa seq; itoa ms; origin; type; entity_kind; entity_id]) in
  let line :=
    if bool_decide (detail <> []) && bool_decide (length head < LINE - 4)%nat
    then head ++ snprint (LINE - length head) (TAB :: detail) else head in
  if decide (length line < LINE - 1)%nat then line ++ [NL] else line.

Section append.
(** Which files may be opened for writing, which may be created. *)
Context (writable creatable : bytes -> bool).

(** Opens at the end, whichever of the two modes the server honours, or
    creates the file. *)
Definition append_to (path line : bytes) (fs : gmap bytes bytes) : option (gmap bytes bytes) :=
  match fs !! path with
  | Some old => if writable path then Some (<[path := old ++ line]> fs) else None
  | None => if creatable path then Some (<[path := line]> fs) else None
  end.

(** [ms]: the time, [nsec()/1000000]. *)
Definition o9_append_event (ms : Z) (path origin type entity_kind entity_id detail : option bytes) (w : world) : world :=
  match path, origin, type with
  | Some path, Some origin, Some type =>
      if decide (path = []) then w else
      let seq := i32 (w_seq w + 1) in
      let line := event_line seq ms origin type (default [] entity_kind) (default [] entity_id) (default [] detail) in
      match append_to path line (w_files w) with
      | Some fs => World fs seq
      | None => w
      end
  | _, _, _ => w
  end.

End append.

(** The fields before the [k]-th tab, and the text behind it if there is one. *)
Fixpoint split_loop (k : nat) (line : bytes) : list bytes * option bytes :=
  match k with
  | O => ([], None)
  | S k' =>
      let '(f, r) := strchr TAB line in
      match r with
      | None => ([f], None)
      | Some r => if decide (k' = 0%nat) then ([f], Some r) else let '(fs, d) := split_loop k' r in (f :: fs, d)
      end
  end.

(** What is in [fields] (all of the [nfields]) and in [*detail], and the result. *)
Definition o9_journal_split (line : option bytes) (nfields : nat) : list bytes * bytes * nat :=
  match line with
  | None => (replicate nfields [], [], 0%nat)
  | Some line =>
      let '(fs, d) := split_loop nfields line in
      (fs ++ replicate (nfields - length fs) [], default [] d, length fs)
  end.

(** ** Lines *)

(** The loop [for(line = buf; line != nil && *line != '\0'; line = next)]. *)
Fixpoint lines_loop (fuel : nat) (s : bytes) : list bytes :=
  match fuel with
  | O => []
  | S fuel =>
      if decide (s = []) then [] else
      let '(l, r) := strchr NL s in
      l :: match r with Some r => lines_loop fuel r | None => [] end
  end.
Definition lines_of (s : bytes) : list bytes := lines_loop (S (length s)) s.

(** Status files: the number behind the first line whose key is [key]. *)
Fixpoint kv_find (key : bytes) (def : Z) (ls : list bytes) : Z :=
  match ls with
  | [] => def
  | l :: ls =>
      match strchr TAB l with
      | (_, None) => kv_find key def ls
      | (k, Some v) => if streq k key then (strtol 10 v).1 else kv_find key def ls
      end
  end.

Definition o9_kv_int (fs : files) (path key : option bytes) (def : Z) : Z :=
  match path, key with
  | Some path, Some key =>
      match fs path with
      | None => def
      | Some data => kv_find key def (lines_of (cstr (take 1023 data)))
      end
  | _, _ => def
  end.

(** ** Rows *)

(** The text up to the first tab, newline or carriage return, which of them
    it was, and the text behind. *)
Fixpoint span_field (p : bytes) : bytes * option (byte * bytes) :=
  match p with
  | [] => ([], None)
  | c :: r =>
      if bool_decide (c ∈ [TAB; NL; x0d]) then ([], Some (c, r))
      else let '(f, q) := span_field r in (c :: f, q)
  end.

(** [more]: the entries of [fields] that are still free after this one; the
    last one takes the whole rest. *)
Fixpoint split_from (more : nat) (p : bytes) : list bytes :=
  match more with
  | O => [p]
  | S more =>
      match span_field p with
      | (f, Some (c, r)) => if decide (c = TAB) then f :: split_from more r else [f]
      | (f, None) => [f]
      end
  end.

Definition o9_split_tabs (line : option bytes) (max : nat) : list bytes :=
  match line, max with
  | Some line, S more => split_from more line
  | _, _ => []
  end.

(** The text before the first [c] of [s], [s] without one. *)
Definition cut_at (c : byte) (s : bytes) : bytes := (strchr c s).1.

(** One entry of [names], [outs] and [outsz]: the name, the size of the
    output buffer, or no buffer. *)
Record column := Column { q_name : option bytes; q_size : option nat }.

Definition col_index (name : bytes) (cols : list bytes) : option nat := fst <$> list_find (fun c => c = name) cols.

(** What is found for a column; [None]: its buffer stays the empty text. *)
Definition tsv_value (cols vals : list bytes) (q : column) : option bytes :=
  name ← q_name q;
  size ← q_size q;
  if decide (size = 0%nat) then None else
  j ← col_index name cols;
  take (size - 1) <$> vals !! j.

Definition o9_tsv_get_cols (fs : files) (path : option bytes) (qs : list column) : list (option bytes) :=
  match path with
  | None => (fun _ => None) <$> qs
  | Some path =>
      match fs path with
      | None => (fun _ => None) <$> qs
      | Some data =>
          let buf := cstr (take 8191 data) in
          match strchr NL buf with
          | (_, None) => (fun _ => None) <$> qs
          | (header, Some row) =>
              let row := cut_at x0d (cut_at NL row) in
              tsv_value (o9_split_tabs (Some header) 64) (o9_split_tabs (Some row) 64) <$> qs
          end
      end
  end.

(** The result of the C function. *)
Definition found (l : list (option bytes)) : Z := Z.of_nat (length (omap id l)).

Definition o9_tsv_get_col (fs : files) (path : option bytes) (name : bytes) (size : nat) : option bytes :=
  default None (head (o9_tsv_get_cols fs path [Column (Some name) (Some size)])).

(** ** Paths *)

Definition o9_has_suffix (name suffix : option bytes) : bool :=
  match name, suffix with
  | Some name, Some suffix =>
      if decide (length name < length suffix)%nat then false else streq (drop (length name - length suffix) name) suffix
  | _, _ => false
  end.

(** An entry of a directory: its name, and whether it is a directory. *)
Definition o9_count_dir (dir : bytes -> option (list (bytes * bool))) (path : option bytes) (dirs_only : bool) (suffix : option bytes) : Z :=
  match path with
  | None => 0
  | Some path =>
      let keep d := bool_decide (d.2 = dirs_only) &&
                    (bool_decide (default [] suffix = []) || o9_has_suffix (Some d.1) suffix) in
      Z.of_nat (length (List.filter keep (default [] (dir path))))
  end.

Fixpoint o9_basename_c (path : bytes) : bytes :=
  match path with
  | [] => []
  | c :: r => if bool_decide ("/"%byte ∈ path) then o9_basename_c r else path
  end.

(** The text behind the first [needle] in [s]. *)
Fixpoint after (needle s : bytes) : option bytes :=
  if starts_with needle s then Some (drop (length needle) s)
  else match s with [] => None | _ :: r => after needle r end.

Definition o9_strip_repo_prefix (path repo : bytes) : bytes :=
  if decide (repo = []) then path else
  match after repo path with
  | None => path
  | Some ("/"%byte :: trim) => trim
  | Some trim => trim
  end.

(** ** The ledger of equivalent mutants *)

Definition ledger_row (source mutant : bytes) (line : bytes) : option bytes :=
  if decide (line = [] \/ head line = Some "#"%byte) then None else
  match o9_split_tabs (Some line) 4 with
  | c0 :: c1 :: c2 :: _ =>
      if streq c0 source && (streq c1 (o9_basename_c mutant) || streq c1 mutant) then Some c2 else None
  | _ => None
  end.

(** The reason of the first row for the mutant; the size of [reason] is [rsz]. *)
Definition o9_equiv_ledger_lookup (fs : files) (path source mutant : option bytes) (rsz : nat) : option bytes :=
  match path, source, mutant with
  | Some path, Some source, Some mutant =>
      buf ← o9_read_file_c fs path (1024 * 1024);
      reason ← head (omap (ledger_row source mutant) (lines_of (cstr buf)));
      Some (snprint rsz reason)
  | _, _, _ => None
  end.

(** ** Lemmas *)

Definition no (c : byte) (s : bytes) : Prop := c ∉ s.

(** Lines as a file holds them. *)
Definition text_of (ls : list bytes) : bytes := ls ≫= (fun l => l ++ [NL]).

Lemma lines_loop_text fuel ls : Forall (no NL) ls -> (length (text_of ls) < fuel)%nat -> lines_loop fuel (text_of ls) = ls.
Proof.
  revert ls. induction fuel as [|fuel IH]; intros ls Hls Hf; [lia|]. destruct ls as [|l ls]; [done|].
  inversion_clear Hls. cbn [lines_loop]. unfold text_of in *. rewrite bind_cons in Hf |- *. rewrite !length_app in Hf. simpl in Hf.
  rewrite decide_False by by destruct l. rewrite <- app_assoc. simpl. rewrite strchr_some by done. rewrite IH; [done|done|lia].
Qed.

Lemma lines_of_text ls : Forall (no NL) ls -> lines_of (text_of ls) = ls.
Proof. intros H. apply lines_loop_text; [done|lia]. Qed.

Lemma joined_cons sep x y l : joined sep (x :: y :: l) = x ++ sep :: joined sep (y :: l).
Proof. done. Qed.

Lemma split_joined fs rest : fs <> [] -> Forall (no TAB) fs ->
  split_loop (length fs) (joined TAB fs ++ match rest with Some d => TAB :: d | None => [] end) = (fs, rest).
Proof.
  induction fs as [|x [|y fs] IH]; [done| |]; intros _ Hf; inversion_clear Hf as [|? ? Hx Hfs].
  - simpl. destruct rest as [d|]; [by rewrite strchr_some|]. by rewrite app_nil_r, strchr_none.
  - specialize (IH ltac:(done) Hfs). rewrite joined_cons, <- app_assoc, <- app_comm_cons.
    change (length (x :: y :: fs)) with (S (length (y :: fs))). set (k := length (y :: fs)) in *.
    cbn [split_loop]. rewrite strchr_some by done. rewrite decide_False by done. by rewrite IH.
Qed.

Lemma joined_elem sep l c : c ∈ joined sep l -> c = sep \/ exists x, x ∈ l /\ c ∈ x.
Proof.
  induction l as [|x [|y l] IH]; intros H; [by apply elem_of_nil in H| |].
  - right. exists x. split; [apply elem_of_cons; by left|done].
  - rewrite joined_cons, elem_of_app, elem_of_cons in H. destruct H as [H|[H|H]]; [|by left|].
    + right. exists x. set_solver.
    + destruct (IH H) as [?|(z & Hz & ?)]; [by left|]. right. exists z. set_solver.
Qed.

Lemma joined_length sep l : (length (joined sep l) <= sum_list (length <$> l) + length l)%nat.
Proof.
  induction l as [|x [|y l] IH]; [simpl; lia|simpl; lia|]. rewrite joined_cons, length_app. cbn [length fmap list_fmap sum_list] in *. simpl in *. lia.
Qed.

Lemma itoa_no z c : ~ 48 <= uchar c <= 57 -> c <> x2d -> no c (itoa z).
Proof. intros H1 H2 [?|?]%itoa_chars; done. Qed.

Lemma itoa_tab z : no TAB (itoa z).
Proof. apply itoa_no; [change (uchar TAB) with 9; lia|done]. Qed.

Lemma itoa_nl z : no NL (itoa z).
Proof. apply itoa_no; [change (uchar NL) with 10; lia|done]. Qed.

(** ** The journal *)

Record event := Event { v_ms : Z; v_origin : bytes; v_type : bytes; v_kind : bytes; v_id : bytes; v_detail : bytes }.

(** An event whose texts fit one line of the journal. *)
Record event_ok (e : event) : Prop := {
  vo_ms : - 2 ^ 63 <= v_ms e < 2 ^ 63;
  vo_plain : Forall (fun s => no TAB s /\ no NL s) [v_origin e; v_type e; v_kind e; v_id e];
  vo_detail : no NL (v_detail e);
  vo_room : (length (v_origin e) + length (v_type e) + length (v_kind e) + length (v_id e) + length (v_detail e) <= 1990)%nat;
}.

Definition event_fields (seq : Z) (e : event) : list bytes := [itoa seq; itoa (v_ms e); v_origin e; v_type e; v_kind e; v_id e].

Definition event_text (seq : Z) (e : event) : bytes :=
  joined TAB (event_fields seq e) ++ (if decide (v_detail e = []) then [] else TAB :: v_detail e).

Lemma event_head_length seq e : - 2 ^ 31 <= seq < 2 ^ 31 -> event_ok e ->
  (length (joined TAB (event_fields seq e)) + length (v_detail e) <= 2036)%nat.
Proof.
  intros Hs [Hms _ _ Hr]. pose proof (joined_length TAB (event_fields seq e)) as H. unfold event_fields in *.
  pose proof (itoa_length seq ltac:(lia)). pose proof (itoa_length (v_ms e) Hms). simpl in *. lia.
Qed.

Lemma event_line_exact seq e : - 2 ^ 31 <= seq < 2 ^ 31 -> event_ok e ->
  event_line seq (v_ms e) (v_origin e) (v_type e) (v_kind e) (v_id e) (v_detail e) = event_text seq e ++ [NL].
Proof.
  intros Hs He. pose proof (event_head_length seq e Hs He) as Hl. unfold event_line, event_text.
  fold (event_fields seq e). set (h := joined TAB (event_fields seq e)) in *. unfold snprint, LINE.
  rewrite (take_ge h) by lia. destruct (decide (v_detail e = [])) as [Ed|Ed].
  - rewrite bool_decide_false by naive_solver. simpl. rewrite app_nil_r. by rewrite decide_True by lia.
  - rewrite !bool_decide_true by (done || lia). simpl andb. cbn iota.
    rewrite take_ge by (simpl; lia). rewrite decide_True by (rewrite length_app; simpl; lia). by rewrite <- app_assoc.
Qed.

Lemma event_split seq e : event_ok e ->
  o9_journal_split (Some (event_text seq e)) 6 = (event_fields seq e, v_detail e, 6%nat).
Proof.
  intros [_ Hp _ _]. unfold o9_journal_split, event_text.
  assert (Hf : Forall (no TAB) (event_fields seq e)).
  { unfold event_fields. repeat apply Forall_cons_2; [apply itoa_tab|apply itoa_tab|..]; try constructor.
    all: repeat (inversion_clear Hp as [|? ? [? ?] Hp']; try rename Hp' into Hp; try done). }
  pose proof (split_joined (event_fields seq e) (if decide (v_detail e = []) then None else Some (v_detail e))) as H.
  change (length (event_fields seq e)) with 6%nat in H.
  destruct (decide (v_detail e = [])) as [Ed|Ed]; rewrite H by done; simpl; [by rewrite Ed|done].
Qed.

Lemma event_text_line seq e : event_ok e -> no NL (event_text seq e) /\ event_text seq e <> [].
Proof.
  intros [_ Hp Hd _]. split.
  - unfold no, event_text. rewrite elem_of_app. intros [H|H].
    + apply joined_elem in H as [?|(x & Hx & Hc)]; [done|]. rewrite Forall_forall in Hp. unfold event_fields in Hx.
      rewrite !elem_of_cons in Hx. destruct Hx as [->|[->|Hx]]; [by apply itoa_nl in Hc|by apply itoa_nl in Hc|].
      rewrite <- !elem_of_cons in Hx. by destruct (Hp x Hx).
    + destruct (decide _); [by apply elem_of_nil in H|]. apply elem_of_cons in H as [?|?]; done.
  - unfold event_text, event_fields. rewrite joined_cons. destruct (itoa seq); simpl; done.
Qed.

(** The journal after a list of events. *)
Section journal.
Context (writable creatable : bytes -> bool) (path : bytes).

Definition emit (e : event) : world -> world :=
  o9_append_event writable creatable (v_ms e) (Some path) (Some (v_origin e)) (Some (v_type e)) (Some (v_kind e)) (Some (v_id e)) (Some (v_detail e)).

Fixpoint emit_all (es : list event) (w : world) : world :=
  match es with [] => w | e :: es => emit_all es (emit e w) end.

(** The content of the journal, empty when it is not there yet. *)
Definition content (w : world) : bytes := default [] (w_files w !! path).

(** What a reader makes of a journal: the loop of the triage over its lines. *)
Definition journal_rows (data : bytes) : list (list bytes * bytes * nat) :=
  (fun l => o9_journal_split (Some l) 6) <$> List.filter (fun l => negb (bool_decide (l = []))) (lines_of data).

Fixpoint event_texts (seq : Z) (es : list event) : list bytes :=
  match es with
  | [] => []
  | e :: es => event_text (i32 (seq + 1)) e :: event_texts (i32 (seq + 1)) es
  end.

Fixpoint event_rows (seq : Z) (es : list event) : list (list bytes * bytes * nat) :=
  match es with
  | [] => []
  | e :: es => (event_fields (i32 (seq + 1)) e, v_detail e, 6%nat) :: event_rows (i32 (seq + 1)) es
  end.

Context (Hpath : path <> []) (Hw : writable path = true) (Hc : creatable path = true).

Lemma emit_exact e w : event_ok e ->
  emit e w = World (<[path := content w ++ event_text (i32 (w_seq w + 1)) e ++ [NL]]> (w_files w)) (i32 (w_seq w + 1)).
Proof.
  intros He. unfold emit, o9_append_event. rewrite decide_False by done. cbn [default from_option id].
  rewrite event_line_exact; [|by apply (wraps_range 32)|done]. unfold append_to, content.
  destruct (w_files w !! path) as [old|]; [by rewrite Hw|by rewrite Hc].
Qed.

Lemma emit_all_exact es w : Forall event_ok es ->
  content (emit_all es w) = content w ++ text_of (event_texts (w_seq w) es) /\
  (forall p, p <> path -> w_files (emit_all es w) !! p = w_files w !! p).
Proof.
  intros Hes. revert w. induction Hes as [|e es He Hes IH]; intros w; cbn [emit_all event_texts]; [by rewrite app_nil_r|].
  destruct (IH (emit e w)) as [H1 H2]. rewrite H1. rewrite emit_exact in * by done.
  unfold content at 1. simpl in *. rewrite lookup_insert_eq. split.
  - simpl. by rewrite <- !app_assoc.
  - intros p Hp. rewrite H2 by done. by rewrite lookup_insert_ne.
Qed.

Lemma event_texts_lines seq es : Forall event_ok es -> Forall (fun l => no NL l /\ l <> []) (event_texts seq es).
Proof. intros H. revert seq. induction H as [|e es He Hes IH]; intros seq; constructor; [by apply event_text_line|apply IH]. Qed.

Lemma event_texts_rows seq es : Forall event_ok es ->
  (fun l => o9_journal_split (Some l) 6) <$> event_texts seq es = event_rows seq es.
Proof. intros H. revert seq. induction H as [|e es He Hes IH]; intros seq; [done|]. cbn [event_texts event_rows fmap list_fmap]. rewrite event_split by done. by rewrite IH. Qed.

(** C35: every event appended to a journal is read back from it, each with its
    number, time, fields and detail, in order and behind the rows that were
    there; no other file changes. *)
Theorem journal_roundtrip es w old :
  Forall event_ok es -> Forall (no NL) old -> content w = text_of old ->
  journal_rows (content (emit_all es w)) = journal_rows (text_of old) ++ event_rows (w_seq w) es /\
  (forall p, p <> path -> w_files (emit_all es w) !! p = w_files w !! p).
Proof.
  intros Hes Hold Hcont. destruct (emit_all_exact es w Hes) as [H1 H2]. split; [|done].
  pose proof (event_texts_lines (w_seq w) es Hes) as Hl. rewrite H1, Hcont. unfold journal_rows.
  replace (text_of old ++ text_of (event_texts (w_seq w) es)) with (text_of (old ++ event_texts (w_seq w) es)) by apply bind_app.
  assert (Hnl : Forall (no NL) (event_texts (w_seq w) es)) by (eapply Forall_impl; [exact Hl|naive_solver]).
  rewrite !lines_of_text by (done || by apply Forall_app).
  rewrite List.filter_app, fmap_app. f_equal. rewrite <- event_texts_rows by done. f_equal.
  clear -Hl. induction Hl as [|l ls [_ Hne] _ IH]; simpl; [done|]. rewrite bool_decide_false by done. simpl. by rewrite IH.
Qed.

End journal.

Definition demo_event (id detail : string) : event := Event 17 (str "w1") (str "gate_exit") (str "task") (str id) (str detail).
Definition demo_world : world := World {[ str "journal.log" := text_of [str "head"] ]} 0.
Definition allowed (_ : bytes) : bool := true.

Lemma demo_event_ok : Forall event_ok [demo_event "t1" "result=killed"; demo_event "t2" ""].
Proof.
  repeat constructor; try (by apply (bool_decide_unpack _); vm_compute); try (cbn; lia).
Qed.

Lemma journal_roundtrip_witness :
  journal_rows (content (str "journal.log") (emit_all allowed allowed (str "journal.log") [demo_event "t1" "result=killed"; demo_event "t2" ""] demo_world)) =
  journal_rows (text_of [str "head"]) ++ event_rows 0 [demo_event "t1" "result=killed"; demo_event "t2" ""].
Proof.
  apply (journal_roundtrip allowed allowed (str "journal.log") ltac:(done) eq_refl eq_refl _ demo_world [str "head"]).
  - apply demo_event_ok.
  - by apply (bool_decide_unpack _); vm_compute.
  - by vm_compute.
Defined.

(** An event that fills the buffer loses its newline, and the next event
    becomes a part of its line. *)
Lemma long_event_swallows :
  length (journal_rows (content (str "journal.log") (emit_all allowed allowed (str "journal.log")
    [Event 17 (str "w1") (str "task_retire") (str "task") (str "t1") (replicate 2040 "x"%byte); demo_event "t2" "result=killed"]
    (World ∅ 0)))) = 1%nat.
Proof. vm_compute. reflexivity. Qed.

Example kv_example :
  o9_kv_int (fun _ => Some (str "a" ++ TAB :: str "7" ++ NL :: NL :: str "max_attempts" ++ TAB :: str "-12" ++ [NL])) (Some (str "cfg")) (Some (str "max_attempts")) 3 = -12.
Proof. vm_compute. reflexivity. Qed.

Example ledger_example :
  o9_equiv_ledger_lookup (fun _ => Some (str "# head" ++ NL :: joined TAB [str "a.c"; str "m1.c"; str "same"] ++ [NL]))
    (Some (str "equiv.tsv")) (Some (str "a.c")) (Some (str "/tmp/m/m1.c")) 64 = Some (str "same").
Proof. vm_compute. reflexivity. Qed.

(** A repository name that is a prefix of a longer one is cut out of it. *)
Lemma prefix_cut_inside : o9_strip_repo_prefix (str "/usr/o9tools/a.c") (str "/usr/o9") = str "tools/a.c".
Proof. vm_compute. reflexivity. Qed.
