(* ===== verification/Sync.v ===== *)
(** * Semaphores, wait groups and mutexes ([o9_sync_*] in [o9_runtime.c])

    Each object is a lock of the C library, a place to sleep and an [int].
    The lock is fair: [qunlock] hands it to the process that has waited
    longest, and [rwakeup] moves the process that has slept longest to the end
    of the lock's queue, where [rsleep] gets the lock back.  What a process
    does between getting and giving up the lock is one step. *)
From S2P Require Import Prelude.

Open Scope Z_scope.

Abbreviation pid := positive.

(** ** [QLock] and [Rendez] *)

Record qlock := QLock { q_holder : option pid; q_queue : list pid }.

(** [m_n]: the [int] under the lock; [m_sleep]: the queue of the [Rendez]. *)
Record monitor := Monitor { m_n : Z; m_lock : qlock; m_sleep : list pid }.

Definition set_n (n : Z) (m : monitor) : monitor := Monitor n (m_lock m) (m_sleep m).
Definition set_lock (l : qlock) (m : monitor) : monitor := Monitor (m_n m) l (m_sleep m).

Definition do_qlock (p : pid) (l : qlock) : qlock :=
  match q_holder l with
  | None => QLock (Some p) (q_queue l)
  | Some _ => QLock (q_holder l) (q_queue l ++ [p])
  end.

Definition do_qunlock (l : qlock) : qlock :=
  match q_queue l with
  | [] => QLock None []
  | p :: ps => QLock (Some p) ps
  end.

(** [rsleep]: the holder [p] goes to sleep and gives the lock up. *)
Definition rsleep (p : pid) (m : monitor) : monitor :=
  Monitor (m_n m) (do_qunlock (m_lock m)) (m_sleep m ++ [p]).

Definition rwakeup (m : monitor) : monitor :=
  match m_sleep m with
  | [] => m
  | p :: ps => Monitor (m_n m) (QLock (q_holder (m_lock m)) (q_queue (m_lock m) ++ [p])) ps
  end.

Definition unlock (m : monitor) : monitor := set_lock (do_qunlock (m_lock m)) m.

(** ** The bodies: from the lock to the return, or to sleep *)

(** An operation that a process has begun and not ended. *)
Inductive sync_op := SemAcquire | SemRelease | WgAdd (delta : Z) | WgWait.

(** The result: whether the operation has returned. *)
Definition run_body (p : pid) (op : sync_op) (m : monitor) : bool * monitor :=
  match op with
  | SemAcquire => if decide (m_n m <= 0) then (false, rsleep p m) else (true, unlock (set_n (i32 (m_n m - 1)) m))
  | SemRelease => (true, unlock (rwakeup (set_n (i32 (m_n m + 1)) m)))
  | WgAdd delta =>
      let m := set_n (i32 (m_n m + delta)) m in
      (true, unlock (if decide (m_n m <= 0) then rwakeup m else m))
  | WgWait => if decide (m_n m > 0) then (false, rsleep p m) else (true, unlock m)
  end.

(** An object, the operations in it and the operations that have returned. *)
Record sync := Sync { s_mon : monitor; s_todo : gmap pid sync_op; s_done : list (pid * sync_op) }.

Definition sync_new (n : Z) : sync := Sync (Monitor n (QLock None []) []) ∅ [].

Definition o9_sync_sem_new (count : Z) : sync := sync_new (if decide (count > 0) then i32 count else 0).
Definition o9_sync_wg_new : sync := sync_new 0.

(** A call: the process takes the lock or queues for it.  One process has one
    call at a time. *)
Definition enter (p : pid) (op : sync_op) (s : sync) : sync :=
  match s_todo s !! p with
  | Some _ => s
  | None => Sync (set_lock (do_qlock p (m_lock (s_mon s))) (s_mon s)) (<[p := op]> (s_todo s)) (s_done s)
  end.

(** The result that is there at once ([Some]), and the object after the call. *)
Definition call (p : pid) (op : sync_op) (h : option sync) : option Z * option sync :=
  match h with
  | None => (Some (-1), None)
  | Some s => (None, Some (enter p op s))
  end.

Definition o9_sync_sem_acquire (p : pid) : option sync -> option Z * option sync := call p SemAcquire.
Definition o9_sync_sem_release (p : pid) : option sync -> option Z * option sync := call p SemRelease.
Definition o9_sync_wg_add (p : pid) (delta : Z) : option sync -> option Z * option sync := call p (WgAdd delta).
Definition o9_sync_wg_done (p : pid) : option sync -> option Z * option sync := o9_sync_wg_add p (-1).
Definition o9_sync_wg_wait (p : pid) : option sync -> option Z * option sync := call p WgWait.

(** The holder of the lock runs its body. *)
Definition run (s : sync) : option sync :=
  p ← q_holder (m_lock (s_mon s));
  op ← s_todo s !! p;
  let '(fin, m) := run_body p op (s_mon s) in
  Some (if fin : bool then Sync m (delete p (s_todo s)) (s_done s ++ [(p, op)]) else Sync m (s_todo s) (s_done s)).

Inductive sync_event := Enter (p : pid) (op : sync_op) | Run.

Definition sync_do (e : sync_event) (s : sync) : sync :=
  match e with
  | Enter p op => enter p op s
  | Run => default s (run s)
  end.

Fixpoint sync_run (es : list sync_event) (s : sync) : sync :=
  match es with [] => s | e :: es => sync_run es (sync_do e s) end.

(** ** Mutexes: the lock alone *)

Definition o9_sync_mutex_new : qlock := QLock None [].
Definition o9_sync_mutex_lock (p : pid) (h : option qlock) : option qlock := do_qlock p <$> h.
Definition o9_sync_mutex_unlock (h : option qlock) : option qlock := do_qunlock <$> h.

(** [o9_sleepms]: the arguments of the calls of [sleep]. *)
Fixpoint sleepms (fuel : nat) (ms : Z) : list Z :=
  match fuel with
  | O => []
  | S fuel =>
      if decide (ms > 0) then
        let chunk := if decide (ms > 1000000000) then 1000000000 else ms in chunk :: sleepms fuel (ms - chunk)
      else []
  end.

(** ** The queues and the operations *)

(** The processes in the lock's hands, the holder first. *)
Definition in_line (m : monitor) : list pid := option_list (q_holder (m_lock m)) ++ q_queue (m_lock m).

(** Every operation is in the line or asleep, once, and the line has a head
    while it is not empty. *)
Record sync_inv (s : sync) : Prop := {
  si_nodup : NoDup (in_line (s_mon s) ++ m_sleep (s_mon s));
  si_todo : forall p, p ∈ in_line (s_mon s) ++ m_sleep (s_mon s) <-> is_Some (s_todo s !! p);
  si_head : q_holder (m_lock (s_mon s)) = None -> q_queue (m_lock (s_mon s)) = [];
}.

Lemma in_line_qlock p m : (q_holder (m_lock m) = None -> q_queue (m_lock m) = []) ->
  in_line (set_lock (do_qlock p (m_lock m)) m) = in_line m ++ [p].
Proof.
  destruct m as [n [[h|] q] sl]; unfold in_line, do_qlock; simpl; intros H; [done|]. by rewrite H.
Qed.

Lemma in_line_unlock p m : q_holder (m_lock m) = Some p -> in_line m = p :: in_line (unlock m).
Proof. destruct m as [n [h [|q qs]] sl]; unfold in_line, unlock, do_qunlock; simpl; by intros ->. Qed.

Lemma in_line_rsleep p m : q_holder (m_lock m) = Some p -> in_line m = p :: in_line (rsleep p m).
Proof. destruct m as [n [h [|q qs]] sl]; unfold in_line, rsleep, do_qunlock; simpl; by intros ->. Qed.

Lemma unlock_head m : q_holder (m_lock (unlock m)) = None -> q_queue (m_lock (unlock m)) = [].
Proof. destruct m as [n [h [|q qs]] sl]; unfold unlock, do_qunlock; simpl; done. Qed.

Lemma rwakeup_holder m : q_holder (m_lock (rwakeup m)) = q_holder (m_lock m).
Proof. unfold rwakeup. by destruct (m_sleep m). Qed.

Lemma rwakeup_members m : in_line (rwakeup m) ++ m_sleep (rwakeup m) = in_line m ++ m_sleep m.
Proof. unfold rwakeup, in_line. destruct (m_sleep m) eqn:E; simpl; rewrite ?E; [done|]. by rewrite <- !app_assoc. Qed.

Lemma rwakeup_n m : m_n (rwakeup m) = m_n m.
Proof. unfold rwakeup. by destruct (m_sleep m). Qed.

(** A body that returns takes its process out of the object, one that sleeps
    moves it. *)
Lemma run_body_members p op m fin m' : q_holder (m_lock m) = Some p -> run_body p op m = (fin, m') ->
  in_line m ++ m_sleep m ≡ₚ (if fin : bool then [p] else []) ++ in_line m' ++ m_sleep m' /\
  (q_holder (m_lock m') = None -> q_queue (m_lock m') = []).
Proof.
  intros Hh.
  assert (Hun : forall m1, q_holder (m_lock m1) = Some p -> in_line m1 ++ m_sleep m1 = in_line m ++ m_sleep m ->
    in_line m ++ m_sleep m ≡ₚ [p] ++ in_line (unlock m1) ++ m_sleep (unlock m1) /\
    (q_holder (m_lock (unlock m1)) = None -> q_queue (m_lock (unlock m1)) = [])).
  { intros m1 H1 E. split; [|apply unlock_head]. rewrite <- E, (in_line_unlock p m1) by done. done. }
  assert (Hsl : in_line m ++ m_sleep m ≡ₚ in_line (rsleep p m) ++ m_sleep (rsleep p m) /\
    (q_holder (m_lock (rsleep p m)) = None -> q_queue (m_lock (rsleep p m)) = [])).
  { split; [|apply (unlock_head m)]. rewrite (in_line_rsleep p m) by done. simpl.
    by rewrite app_assoc, <- Permutation_cons_append. }
  destruct op; simpl.
  - case_decide; intros [= <- <-]; [done|]. by apply Hun.
  - intros [= <- <-]. apply Hun; [by rewrite rwakeup_holder|by rewrite rwakeup_members].
  - intros [= <- <-]. apply Hun; case_decide; rewrite ?rwakeup_holder, ?rwakeup_members; done.
  - case_decide; intros [= <- <-]; [done|]. by apply Hun.
Qed.

#[export] Instance sync_op_eq_dec : EqDecision sync_op.
Proof. solve_decision. Defined.

(** The line and the sleepers after a call and after a body. *)
Lemma sync_inv_enter p op s : sync_inv s -> sync_inv (enter p op s).
Proof.
  intros [Hnd Htd Hh]. unfold enter. destruct (s_todo s !! p) eqn:Ep; [by split|].
  assert (Hnew : p ∉ in_line (s_mon s) ++ m_sleep (s_mon s)) by (rewrite Htd, Ep; by intros [? ?]).
  split; simpl.
  - rewrite in_line_qlock by done. rewrite <- app_assoc, Permutation_app_comm. simpl.
    apply NoDup_cons. split; [|by rewrite Permutation_app_comm]. by rewrite Permutation_app_comm.
  - intros q. rewrite in_line_qlock by done. simpl. destruct (decide (q = p)) as [->|Hq].
    + rewrite lookup_insert_eq. split; [done|]. intros _. rewrite !elem_of_app. left. right. by apply elem_of_cons; left.
    + rewrite lookup_insert_ne, <- Htd by done. rewrite !elem_of_app, elem_of_cons, elem_of_nil. naive_solver.
  - unfold do_qlock. destruct (q_holder (m_lock (s_mon s))) eqn:E; simpl; done.
Qed.

Lemma run_some s p : sync_inv s -> q_holder (m_lock (s_mon s)) = Some p ->
  exists op, s_todo s !! p = Some op /\
    run s = Some (let '(fin, m) := run_body p op (s_mon s) in
                  if fin : bool then Sync m (delete p (s_todo s)) (s_done s ++ [(p, op)]) else Sync m (s_todo s) (s_done s)).
Proof.
  intros [_ Htd _] Hp. assert (is_Some (s_todo s !! p)) as [op Eop].
  { apply Htd. unfold in_line. rewrite Hp. by apply elem_of_cons; left. }
  exists op. split; [done|]. unfold run. rewrite Hp. simpl. rewrite Eop. simpl. by destruct (run_body _ _ _).
Qed.

Lemma sync_inv_run s s' : sync_inv s -> run s = Some s' -> sync_inv s'.
Proof.
  intros Hi Hr. destruct (q_holder (m_lock (s_mon s))) as [p|] eqn:Hp; [|unfold run in Hr; by rewrite Hp in Hr].
  destruct (run_some s p Hi Hp) as (op & Eop & Hrun). rewrite Hr in Hrun. destruct Hi as [Hnd Htd Hh].
  destruct (run_body p op (s_mon s)) as [fin m] eqn:Eb. destruct (run_body_members _ _ _ _ _ Hp Eb) as [Hm Hhead].
  injection Hrun as ->. rewrite Hm in Hnd. destruct fin; simpl in *.
  - apply NoDup_cons in Hnd as [Hp' Hnd]. split; simpl; [done| |done].
    intros q. specialize (Htd q). rewrite Hm, elem_of_cons in Htd. destruct (decide (q = p)) as [->|Hq].
    + rewrite lookup_delete_eq. split; [done|by intros [? ?]].
    + rewrite lookup_delete_ne by done. naive_solver.
  - split; simpl; [done| |done]. intros q. by rewrite <- Htd, Hm.
Qed.

(** ** Semaphores *)

Definition sem_op (op : sync_op) : Prop := op = SemAcquire \/ op = SemRelease.
Definition sem_event (e : sync_event) : Prop := match e with Enter _ op => sem_op op | Run => True end.

(** How many operations of a kind have returned. *)
Definition returned (op : sync_op) (s : sync) : Z := Z.of_nat (length (filter (fun x => x.2 = op) (s_done s))).

Definition acquiring (s : sync) (p : pid) : Prop := s_todo s !! p = Some SemAcquire.
#[export] Instance acquiring_dec s p : Decision (acquiring s p).
Proof. unfold acquiring. apply _. Defined.

(** [budget]: the calls that may still come; the count never wraps. *)
Record sem_inv (init : Z) (budget total : nat) (s : sync) : Prop := {
  se_sync : sync_inv s;
  se_ops : forall p op, s_todo s !! p = Some op -> sem_op op;
  se_done : Forall (fun x => sem_op x.2) (s_done s);
  se_count : m_n (s_mon s) + returned SemAcquire s = init + returned SemRelease s;
  se_nonneg : 0 <= m_n (s_mon s);
  se_sleep : Forall (acquiring s) (m_sleep (s_mon s));
  se_awake : m_sleep (s_mon s) <> [] -> m_n (s_mon s) <= Z.of_nat (length (filter (acquiring s) (in_line (s_mon s))));
  se_budget : (length (s_done s) + size (s_todo s) + budget <= total)%nat;
}.

Lemma returned_app op s x : returned op (Sync (s_mon s) (s_todo s) (s_done s ++ [x])) = returned op s + (if decide (x.2 = op) then 1 else 0).
Proof. unfold returned. simpl. rewrite filter_app, length_app, filter_cons, filter_nil. case_decide; simpl; lia. Qed.

Lemma returned_le op s : returned op s <= Z.of_nat (length (s_done s)).
Proof. unfold returned. pose proof (length_filter (fun x : pid * sync_op => x.2 = op) (s_done s)). lia. Qed.

Lemma filter_same {A} (P Q : A -> Prop) `{!forall x, Decision (P x), !forall x, Decision (Q x)} (l : list A) :
  (forall x, x ∈ l -> P x <-> Q x) -> filter P l = filter Q l.
Proof.
  induction l as [|x l IH]; intros Hl; [done|]. rewrite !filter_cons.
  assert (filter P l = filter Q l) as -> by (apply IH; intros; apply Hl; by right).
  pose proof (Hl x ltac:(by left)). repeat case_decide; naive_solver.
Qed.

Lemma sem_inv_enter init b total p op s : sem_op op -> sem_inv init (S b) total s -> sem_inv init b total (enter p op s).
Proof.
  intros Hop Hi. pose proof (sync_inv_enter p op s (se_sync _ _ _ _ Hi)) as Hs. destruct Hi as [Hi Hops Hdone Hc Hn Hsl Haw Hb].
  unfold enter in *. destruct (s_todo s !! p) eqn:Ep; [split; try done; lia|].
  assert (Hold : forall q, q ∈ in_line (s_mon s) ++ m_sleep (s_mon s) -> q <> p).
  { intros q Hq ->. apply (si_todo _ Hi) in Hq as [? ?]. congruence. }
  assert (Hacq : forall q, q ∈ in_line (s_mon s) ++ m_sleep (s_mon s) ->
    acquiring s q <-> acquiring (Sync (set_lock (do_qlock p (m_lock (s_mon s))) (s_mon s)) (<[p := op]> (s_todo s)) (s_done s)) q).
  { intros q Hq. unfold acquiring. simpl. by rewrite lookup_insert_ne by (symmetry; by apply Hold). }
  split; [done|..]; simpl.
  - intros q o. destruct (decide (q = p)) as [->|Hq]; [rewrite lookup_insert_eq; congruence|rewrite lookup_insert_ne by done; apply Hops].
  - done.
  - done.
  - done.
  - apply Forall_forall. intros q Hq. rewrite <- Hacq by set_solver. rewrite Forall_forall in Hsl. by apply Hsl.
  - intros Hne. rewrite in_line_qlock by apply Hi. rewrite filter_app, length_app.
    rewrite (filter_same (acquiring _) (acquiring s) (in_line _)) by (intros q Hq; symmetry; apply Hacq; set_solver).
    specialize (Haw Hne). lia.
  - rewrite map_size_insert_None by done. lia.
Qed.

(** The processes that stay keep their operations when [p] leaves. *)
Lemma acquiring_delete p s m d q : q <> p -> acquiring (Sync m (delete p (s_todo s)) d) q <-> acquiring s q.
Proof. intros Hq. unfold acquiring. simpl. by rewrite lookup_delete_ne. Qed.

Lemma acquiring_delete_all p s m d l : p ∉ l ->
  (Forall (acquiring s) l -> Forall (acquiring (Sync m (delete p (s_todo s)) d)) l) /\
  filter (acquiring (Sync m (delete p (s_todo s)) d)) l = filter (acquiring s) l.
Proof.
  intros Hp. assert (forall q, q ∈ l -> q <> p) as Hl by (intros q Hq ->; done). split.
  - rewrite !Forall_forall. intros H q Hq. apply acquiring_delete; auto.
  - apply filter_same. intros q Hq. by apply acquiring_delete, Hl.
Qed.

Lemma set_n_id m : set_n (m_n m) m = m.
Proof. by destruct m. Qed.

(** The three things a body can do to a semaphore. *)
Lemma sem_body init b total p op s : init + Z.of_nat total < 2 ^ 31 -> sem_inv init b total s ->
  q_holder (m_lock (s_mon s)) = Some p -> s_todo s !! p = Some op ->
  let rest := in_line (unlock (s_mon s)) in
  exists m, in_line (s_mon s) = p :: rest /\ p ∉ rest ++ m_sleep (s_mon s) /\
  ((op = SemAcquire /\ m_n (s_mon s) = 0 /\ run s = Some (Sync m (s_todo s) (s_done s)) /\
    m_n m = 0 /\ in_line m = rest /\ m_sleep m = m_sleep (s_mon s) ++ [p]) \/
   (op = SemAcquire /\ 0 < m_n (s_mon s) /\ run s = Some (Sync m (delete p (s_todo s)) (s_done s ++ [(p, op)])) /\
    m_n m = m_n (s_mon s) - 1 /\ in_line m = rest /\ m_sleep m = m_sleep (s_mon s)) \/
   (op = SemRelease /\ run s = Some (Sync m (delete p (s_todo s)) (s_done s ++ [(p, op)])) /\
    m_n m = m_n (s_mon s) + 1 /\ in_line m = rest ++ option_list (head (m_sleep (s_mon s))) /\ m_sleep m = tail (m_sleep (s_mon s)))).
Proof.
  intros Hbd Hi Hp Eop rest. destruct (run_some s p (se_sync _ _ _ _ Hi) Hp) as (op' & Eop' & Hrun).
  assert (op' = op) as -> by congruence. clear Eop'.
  destruct Hi as [Hi Hops Hdone Hc Hn Hsl Haw Hb]. pose proof (in_line_unlock p _ Hp) as Hline. fold rest in Hline.
  pose proof (si_nodup _ Hi) as Hnd. rewrite Hline in Hnd. apply NoDup_cons in Hnd as [Hnd _].
  pose proof (returned_le SemRelease s) as Hrel. unfold returned in *.
  assert (0 < size (s_todo s))%nat as Hsize by (apply Nat.neq_0_lt_0, map_size_ne_0_lookup; eauto).
  destruct (Hops _ _ Eop) as [-> | ->]; simpl in Hrun.
  - case_decide as Hle; eexists; (split; [done|]); (split; [done|]); [left|right; left].
    + split_and!; [done|lia|done|simpl; lia|done|done].
    + split_and!; [done|lia|done| |by destruct (s_mon s)|done]. simpl. apply wraps_id; lia.
  - eexists. split; [done|]. split; [done|]. right; right. split; [done|]. split; [done|].
    rewrite wraps_id by lia. unfold rest, rwakeup, unlock, in_line, do_qunlock.
    destruct (s_mon s) as [n [h [|q qs]] [|w ws]]; simpl; rewrite ?app_nil_r; done.
Qed.

Lemma sem_inv_run init b total s s' : init + Z.of_nat total < 2 ^ 31 -> sem_inv init b total s -> run s = Some s' -> sem_inv init b total s'.
Proof.
  intros Hbd Hi Hr. pose proof (sync_inv_run _ _ (se_sync _ _ _ _ Hi) Hr) as Hs.
  destruct (q_holder (m_lock (s_mon s))) as [p|] eqn:Hp; [|unfold run in Hr; by rewrite Hp in Hr].
  destruct (run_some s p (se_sync _ _ _ _ Hi) Hp) as (op & Eop & _).
  destruct (sem_body init b total p op s Hbd Hi Hp Eop) as (m & Hline & Hout & Hcase).
  destruct Hi as [Hi Hops Hdone Hc Hn Hsl Haw Hb]. rewrite Hline in Haw. set (rest := in_line (unlock (s_mon s))) in *.
  rewrite elem_of_app in Hout. apply Decidable.not_or in Hout as [Hout1 Hout2].
  assert (Hsize : size (delete p (s_todo s)) = pred (size (s_todo s)) /\ (0 < size (s_todo s))%nat).
  { rewrite map_size_delete, Eop. split; [done|]. apply Nat.neq_0_lt_0, map_size_ne_0_lookup. eauto. }
  destruct Hcase as [(-> & H0 & Hrun & Em & El & Es)|[(-> & H0 & Hrun & Em & El & Es)|(-> & Hrun & Em & El & Es)]];
    rewrite Hr in Hrun; injection Hrun as ->.
  - split; try done; simpl; rewrite ?Em, ?El, ?Es; try (intros; lia).
    + unfold returned in *. simpl. lia.
    + apply Forall_app. split; [done|]. by repeat constructor.
  - destruct (acquiring_delete_all p s m (s_done s ++ [(p, SemAcquire)]) _ Hout2) as [Hf _].
    destruct (acquiring_delete_all p s m (s_done s ++ [(p, SemAcquire)]) _ Hout1) as [_ Hl].
    split; simpl; rewrite ?Em, ?El, ?Es; try lia; try done.
    + intros q o [_ Hq]%lookup_delete_Some. by eapply Hops.
    + apply Forall_app. split; [done|]. repeat constructor.
    + pose proof (returned_app SemAcquire s (p, SemAcquire)). pose proof (returned_app SemRelease s (p, SemAcquire)).
      unfold returned in *. simpl in *. lia.
    + by apply Hf.
    + intros Hne. specialize (Haw Hne). rewrite filter_cons_True in Haw by done. rewrite Hl. simpl in Haw. lia.
    + rewrite length_app. simpl. lia.
  - destruct (acquiring_delete_all p s m (s_done s ++ [(p, SemRelease)]) _ Hout2) as [Hf Hsl'].
    destruct (acquiring_delete_all p s m (s_done s ++ [(p, SemRelease)]) _ Hout1) as [_ Hl].
    split; simpl; rewrite ?Em, ?El, ?Es; try lia; try done.
    + intros q o [_ Hq]%lookup_delete_Some. by eapply Hops.
    + apply Forall_app. split; [done|]. constructor; [by right|constructor].
    + pose proof (returned_app SemAcquire s (p, SemRelease)). pose proof (returned_app SemRelease s (p, SemRelease)).
      unfold returned in *. simpl in *. lia.
    + apply Hf in Hsl. destruct (m_sleep (s_mon s)); [done|]. by inversion_clear Hsl.
    + intros Hne. destruct (m_sleep (s_mon s)) as [|w ws] eqn:Ew; [done|]. specialize (Haw ltac:(done)).
      rewrite filter_cons_False in Haw by (unfold acquiring; congruence).
      apply Hf in Hsl. inversion_clear Hsl as [|? ? Hw _]. simpl. rewrite filter_app, length_app, Hl, filter_cons_True by done. simpl. lia.
    + rewrite length_app. simpl. lia.
Qed.

Lemma sem_inv_new init total : 0 <= init -> sem_inv init total total (sync_new init).
Proof.
  intros Hi. split; simpl; try done; try (unfold returned; simpl; lia).
  split; simpl; [constructor| |done]. intros p. rewrite elem_of_nil, lookup_empty. split; [done|by intros [? ?]].
Qed.

Lemma sem_inv_steps init total es s : init + Z.of_nat total < 2 ^ 31 -> Forall sem_event es ->
  sem_inv init (length es) total s -> sem_inv init 0 total (sync_run es s).
Proof.
  intros Hbd Hes. revert s. induction Hes as [|e es He Hes IH]; intros s Hi; [done|]. simpl. apply IH.
  destruct e as [p op|]; simpl; [by apply sem_inv_enter|].
  destruct (run s) as [s'|] eqn:Er; simpl.
  - eapply sem_inv_run; [done| |done]. destruct Hi. split; try done. simpl in *. lia.
  - destruct Hi. split; try done. simpl in *. lia.
Qed.

(** The bodies of the processes before the first acquirer in the line are
    releases, so that the permit is still there when it gets the lock. *)
Lemma acquirer_served init total s ps p qs : init + Z.of_nat total < 2 ^ 31 -> sem_inv init 0 total s ->
  0 < m_n (s_mon s) -> in_line (s_mon s) = ps ++ p :: qs -> acquiring s p -> Forall (fun q => ~ acquiring s q) ps ->
  returned SemAcquire s < returned SemAcquire (sync_run (replicate (S (length ps)) Run) s).
Proof.
  intros Hbd. revert s qs. induction ps as [|q ps IH]; intros s qs Hi Hn Hline Hp Hps.
  - assert (q_holder (m_lock (s_mon s)) = Some p) as Hh.
    { pose proof (si_head _ (se_sync _ _ _ _ Hi)) as Hh. unfold in_line in Hline.
      destruct (q_holder (m_lock (s_mon s))) as [h|]; [by injection Hline as ->|]. by rewrite Hh in Hline. }
    destruct (sem_body _ _ _ _ _ _ Hbd Hi Hh Hp) as (m & _ & _ & [(_ & H0 & _)|[(_ & _ & Hrun & _)|(? & _)]]); [lia| |done].
    simpl. rewrite Hrun. simpl. pose proof (returned_app SemAcquire s (p, SemAcquire)) as H. unfold returned in *. simpl in *. lia.
  - inversion_clear Hps as [|? ? Hq Hps'].
    assert (q_holder (m_lock (s_mon s)) = Some q) as Hh.
    { pose proof (si_head _ (se_sync _ _ _ _ Hi)) as Hh. unfold in_line in Hline.
      destruct (q_holder (m_lock (s_mon s))) as [h|]; [by injection Hline as ->|]. by rewrite Hh in Hline. }
    destruct (run_some s q (se_sync _ _ _ _ Hi) Hh) as (op & Eop & _).
    destruct (sem_body _ _ _ _ _ _ Hbd Hi Hh Eop) as (m & Hl & Hout & [(-> & _)|[(-> & _)|(-> & Hrun & Em & El & Es)]]); [done|done|].
    pose proof (sem_inv_run _ _ _ _ _ Hbd Hi Hrun) as Hi'. rewrite Hl in Hline. injection Hline as Hrest.
    set (s' := Sync m (delete q (s_todo s)) (s_done s ++ [(q, SemRelease)])) in *.
    assert (Hkeep : forall r, r ∈ ps ++ p :: qs -> acquiring s' r <-> acquiring s r).
    { intros r Hr. apply acquiring_delete. intros ->. apply Hout. rewrite Hrest. by apply elem_of_app; left. }
    assert (returned SemAcquire s = returned SemAcquire s') as ->.
    { pose proof (returned_app SemAcquire s (q, SemRelease)) as H. unfold returned in *. simpl in *. lia. }
    cbn [length replicate sync_run sync_do]. rewrite Hrun. simpl default.
    apply (IH s' (qs ++ option_list (head (m_sleep (s_mon s))))); [done|simpl; lia|by unfold s'; simpl; rewrite El, Hrest, <- app_assoc| |].
    + apply Hkeep; [set_solver|done].
    + rewrite Forall_forall in Hps' |- *. intros r Hr. rewrite Hkeep by set_solver. auto.
Qed.

(** C33: over every interleaving of calls and bodies a semaphore has as many
    permits as it began with and were released, less those taken, and never a
    negative number; while there is one, a process that waits for one (in the
    lock's queue or asleep) is served without any further call: no wake-up is
    lost. *)
Theorem semaphore_progress count es :
  0 <= count -> count + Z.of_nat (length es) < 2 ^ 31 -> Forall sem_event es ->
  let s := sync_run es (o9_sync_sem_new count) in
  0 <= m_n (s_mon s) /\
  m_n (s_mon s) + returned SemAcquire s = count + returned SemRelease s /\
  (0 < m_n (s_mon s) -> (exists p, s_todo s !! p = Some SemAcquire) ->
   exists k, (k <= length (in_line (s_mon s)))%nat /\
     returned SemAcquire s < returned SemAcquire (sync_run (replicate k Run) s)).
Proof.
  intros Hc Hb Hes s.
  assert (Hi : sem_inv count 0 (length es) s).
  { apply sem_inv_steps; [done|done|]. unfold o9_sync_sem_new. case_decide as Hp.
    - rewrite wraps_id by lia. by apply sem_inv_new.
    - replace count with 0 by lia. by apply sem_inv_new. }
  split; [apply Hi|]. split; [apply Hi|]. intros Hn (p & Hp).
  assert (exists q, q ∈ in_line (s_mon s) /\ acquiring s q) as (q & Hq & Hacq).
  { assert (p ∈ in_line (s_mon s) ++ m_sleep (s_mon s)) as [Hl|Hsl]%elem_of_app by (apply (si_todo _ (se_sync _ _ _ _ Hi)); eauto); [by eauto|].
    pose proof (se_awake _ _ _ _ Hi) as Haw. destruct (filter (acquiring s) (in_line (s_mon s))) as [|q l] eqn:Ef.
    - simpl in Haw. destruct (m_sleep (s_mon s)); [by apply elem_of_nil in Hsl|]. specialize (Haw ltac:(done)). lia.
    - exists q. assert (q ∈ q :: l) as H by (by left). rewrite <- Ef in H. by apply list_elem_of_filter in H as [? ?]. }
  destruct (list_find (acquiring s) (in_line (s_mon s))) as [[i x]|] eqn:Ei.
  - apply list_find_Some in Ei as (Hx & Hax & Hbefore). exists (S i). split; [by apply lookup_lt_Some in Hx|].
    pose proof (lookup_lt_Some _ _ _ Hx) as Hlt.
    pose proof (acquirer_served count (length es) s (take i (in_line (s_mon s))) x (drop (S i) (in_line (s_mon s))) Hb Hi Hn) as H.
    rewrite length_take, Nat.min_l in H by lia. apply H; [|done|].
    + symmetry. by apply take_drop_middle.
    + apply Forall_forall. intros r (j & Hj)%list_elem_of_lookup. apply lookup_take_Some in Hj as [Hj Hlt']. by eapply Hbefore.
  - apply list_find_None in Ei. rewrite Forall_forall in Ei. by destruct (Ei q Hq).
Qed.

(** One permit, two acquirers, one of which sleeps, and a release. *)
Definition demo_sem : list sync_event :=
  [Enter 1 SemAcquire; Run; Enter 2 SemAcquire; Run; Enter 1 SemRelease; Enter 3 SemAcquire; Run].

Lemma semaphore_progress_witness :
  let s := sync_run demo_sem (o9_sync_sem_new 1) in
  (0 <= m_n (s_mon s) /\ in_line (s_mon s) = [3; 2]%positive) /\
  exists k, (k <= 2)%nat /\ returned SemAcquire s < returned SemAcquire (sync_run (replicate k Run) s).
Proof.
  destruct (semaphore_progress 1 demo_sem) as (H1 & _ & H2); [done|done| |].
  - repeat constructor; done.
  - split; [by split|]. apply H2; [done|]. by exists 2%positive.
Defined.

(** ** What they get wrong *)

(** [o9_sync_wg_add] wakes one waiter, and nothing wakes the others: the count
    is zero, the second waiter sleeps and nobody holds the lock. *)
Lemma wg_waiter_stranded :
  let s := sync_run [Enter 1 (WgAdd 1); Run; Enter 2 WgWait; Run; Enter 3 WgWait; Run; Enter 1 (WgAdd (-1)); Run; Run] o9_sync_wg_new in
  m_n (s_mon s) = 0 /\ m_sleep (s_mon s) = [3%positive] /\ s_todo s !! 3%positive = Some WgWait /\ in_line (s_mon s) = [] /\ run s = None.
Proof. vm_compute. auto. Qed.

(** The count is stored in an [int]: 2^31 permits are a negative number. *)
Lemma sem_count_truncated : m_n (s_mon (o9_sync_sem_new (2 ^ 31))) < 0 /\ m_n (s_mon (o9_sync_sem_new (2 ^ 32))) = 0.
Proof. vm_compute. auto. Qed.

(** [o9_sleepms] sleeps for the whole time, in steps that fit an [int]. *)
Lemma sleepms_exact fuel ms : Z.of_nat fuel * 1000000000 >= ms ->
  foldr Z.add 0 (sleepms fuel ms) = Z.max 0 ms /\ Forall (fun c => 0 < c <= 1000000000) (sleepms fuel ms).
Proof.
  revert ms. induction fuel as [|fuel IH]; intros ms Hf; simpl; [split; [lia|constructor]|].
  destruct (decide (ms > 0)); [|split; [simpl; lia|constructor]].
  destruct (IH (ms - (if decide (ms > 1000000000) then 1000000000 else ms))) as [H1 H2]; [case_decide; lia|].
  split; [simpl; rewrite H1; case_decide; lia|]. constructor; [case_decide; lia|done].
Qed.
