(* ===== verification/Stores.v ===== *)
(** * Object, method and state stores ([o9_object_*], [o9_method_*], [o9_state_*]
    in [o9_runtime.c])

    Three stores keep their records as rows of tables of the class [libtab]:
    the objects that a process knows, with their addresses and generations;
    the methods of its classes, with their thunks; and the public state of an
    object.  Addresses and numbers are stored as text.  Allocation succeeds. *)
From S2P Require Import Prelude Fmt O9Str Tabula.

Open Scope Z_scope.

(** ** Numbers as text *)

(** An address; 0 is nil. *)
Definition o9_object_addr_text (addr : Z) : bytes :=
  if decide (addr = 0) then [] else snprint 64 (str "0x" ++ utoa 16 addr).

(** The loop over the hexadecimal digits, in either case. *)
Fixpoint hex_loop (v : Z) (s : bytes) : Z :=
  match s with
  | [] => v
  | c :: s =>
      match digit_val c with
      | Some d => if decide (d < 16) then hex_loop (Z.lor (u64 (Z.shiftl v 4)) d) s else v
      | None => v
      end
  end.

Definition o9_object_parse_addr (s : bytes) : Z :=
  match s with
  | x30 :: x78 :: s' | x30 :: x58 :: s' => hex_loop 0 s'
  | _ => hex_loop 0 s
  end.

Section stores.
Context {L : libtab}.

(** ** Rows *)

(** [tab_search] and the first row. *)
Definition first_row (t : tab) (col val : bytes) : option row :=
  match tab_search t col (Some val) with
  | None => None
  | Some it => (tab_iter_next t it).1
  end.

(** A chain of [tab_set(...) < 0 || ...]. *)
Fixpoint set_all (t : tab) (r : row) (l : list (bytes * bytes)) : Z * tab :=
  match l with
  | [] => (0, t)
  | (c, v) :: l => let '(z, t) := tab_set t r c v in if decide (z < 0) then (-1, t) else set_all t r l
  end.

Definition o9_tab_serialize_into (t : option tab) (nout : nat) : bytes :=
  take (nout - 1) (default [] (t ≫= tab_serialize)).

(** ** Objects *)

Record O9ObjectStore := ObjectStore { os_tab : tab; os_path : bytes }.

Definition set_os (t : tab) (s : O9ObjectStore) : O9ObjectStore := ObjectStore t (os_path s).

Definition o9_object_cols : list bytes :=
  str <$> ["oid"; "typename"; "class"; "state"; "value"; "addr"; "gen"; "ns"; "path"; "dial"; "locality"; "owner"; "flags"]%string.

Definition o9_object_find_row (s : O9ObjectStore) (oid : bytes) : option row := first_row (os_tab s) (str "oid") oid.

Definition o9_object_ensure_row (s : O9ObjectStore) (oid : bytes) : option (row * O9ObjectStore) :=
  match o9_object_find_row s oid with
  | Some r => Some (r, s)
  | None =>
      if decide (oid = []) then None else
      (fun x => (x.1, set_os x.2 s)) <$> tab_add_row (os_tab s) (str "oid") oid
  end.

Definition o9_object_set_col (s : O9ObjectStore) (r : row) (col : bytes) (val : option bytes) : Z * O9ObjectStore :=
  let '(z, t) := tab_set (os_tab s) r col (default [] val) in (z, set_os t s).

Definition o9_object_store_create (path : bytes) : option O9ObjectStore :=
  if decide (path = []) then None else
  (fun t => ObjectStore t path) <$> tab_create path (str "o9objects") (plain_col <$> o9_object_cols).

Definition o9_object_store_create_path (root app : option bytes) : option O9ObjectStore :=
  if decide (default [] root = []) then None else
  let app := if decide (default [] app = []) then str "app" else default [] app in
  o9_object_store_create (snprint 256 (str "/dev/null/o9." ++ app ++ str ".objects.tab")).

(** The arguments of [o9_object_record] behind the store and the identity. *)
Record node := Node {
  n_typename : option bytes; n_class : option bytes; n_state : option bytes; n_value : option bytes; n_addr : Z; n_gen : Z;
  n_ns : option bytes; n_path : option bytes; n_dial : option bytes; n_locality : option bytes; n_owner : option bytes; n_flags : option bytes;
}.

(** The columns in the order in which they are written. *)
Definition node_cols (n : node) : list (bytes * bytes) :=
  let get := default [] in
  [(str "typename", get (n_typename n)); (str "class", get (n_class n)); (str "state", default (str "live") (n_state n));
   (str "value", get (n_value n)); (str "ns", get (n_ns n)); (str "path", get (n_path n)); (str "dial", get (n_dial n));
   (str "locality", default (str "same") (n_locality n)); (str "owner", get (n_owner n)); (str "flags", get (n_flags n));
   (str "addr", o9_object_addr_text (n_addr n)); (str "gen", snprint 64 (itoa (n_gen n)))].

Definition o9_object_record (s : O9ObjectStore) (oid : bytes) (n : node) : Z * O9ObjectStore :=
  if decide (oid = []) then (-1, s) else
  match o9_object_ensure_row s oid with
  | None => (-1, s)
  | Some (r, s) => let '(z, t) := set_all (os_tab s) r (node_cols n) in (z, set_os t s)
  end.

Definition o9_object_get (s : O9ObjectStore) (oid col : bytes) : option bytes :=
  r ← o9_object_find_row s oid; tab_get (os_tab s) r col.

Definition o9_object_generation (s : O9ObjectStore) (oid : bytes) : Z :=
  match o9_object_get s oid (str "gen") with
  | None | Some [] => 0
  | Some v => (strtoll 0 v).1
  end.

Definition o9_object_register_local (pid : Z) (s : O9ObjectStore) (oid : bytes) (typename class : option bytes) (addr : Z) (ns path : option bytes) : Z * O9ObjectStore :=
  let gen := i64 (o9_object_generation s oid + 1) in
  o9_object_record s oid
    (Node typename class (Some (str "live")) None addr gen ns path None (Some (str "same")) (Some (snprint 64 (itoa pid))) (Some (str "local"))).

Definition set_one (s : O9ObjectStore) (oid col : bytes) (v : option bytes) : Z * O9ObjectStore :=
  match o9_object_find_row s oid with
  | None => (-1, s)
  | Some r => let '(z, s) := o9_object_set_col s r col v in (if decide (z < 0) then -1 else 0, s)
  end.

Definition o9_object_set_value (s : O9ObjectStore) (oid : bytes) (v : option bytes) : Z * O9ObjectStore := set_one s oid (str "value") v.
Definition o9_object_set_state (s : O9ObjectStore) (oid : bytes) (v : option bytes) : Z * O9ObjectStore := set_one s oid (str "state") v.

Definition o9_object_addr (s : O9ObjectStore) (oid : bytes) (gen : Z) : Z :=
  if bool_decide (gen <> 0) && bool_decide (o9_object_generation s oid <> gen) then 0 else
  match o9_object_get s oid (str "addr") with
  | None | Some [] => 0
  | Some v => o9_object_parse_addr v
  end.

Definition o9_object_store_serialize (s : option O9ObjectStore) (nout : nat) : bytes := o9_tab_serialize_into (os_tab <$> s) nout.

(** ** Methods *)

Record O9MethodStore := MethodStore { ms_tab : tab; ms_path : bytes }.

Definition o9_method_cols : list bytes := str <$> ["key"; "class"; "method"; "sel"; "argc"; "ret"; "sig"; "addr"; "gen"]%string.

(** [o9_methods]: the store of the process. *)
Definition o9_method_store_init (root app : option bytes) (o9_methods : option O9MethodStore) : Z * option O9MethodStore :=
  match o9_methods with
  | Some _ => (0, o9_methods)
  | None =>
      if decide (default [] root = []) then (-1, None) else
      let app := if decide (default [] app = []) then str "app" else default [] app in
      let path := snprint 256 (str "/dev/null/o9." ++ app ++ str ".methods.tab") in
      match tab_create path (str "o9methods") (plain_col <$> o9_method_cols) with
      | None => (-1, None)
      | Some t => (0, Some (MethodStore t path))
      end
  end.

Definition sel_text (sel : Z) : bytes := str "0x" ++ utoa 16 sel.
Definition method_key (class : bytes) (sel : Z) : bytes := snprint 160 (class ++ str "/" ++ sel_text sel).

Definition o9_method_row (class : bytes) (sel : Z) (s : O9MethodStore) : option row :=
  first_row (ms_tab s) (str "key") (method_key class sel).

Record method := Method { m_class : bytes; m_method : bytes; m_sel : Z; m_argc : Z; m_ret : option bytes; m_sig : option bytes; m_thunk : Z }.

Definition method_cols (pid : Z) (m : method) : list (bytes * bytes) :=
  [(str "class", m_class m); (str "method", m_method m); (str "sel", snprint 64 (sel_text (m_sel m)));
   (str "ret", default (str "void") (m_ret m)); (str "sig", default [] (m_sig m)); (str "argc", snprint 64 (itoa (m_argc m)));
   (str "addr", o9_object_addr_text (m_thunk m)); (str "gen", snprint 64 (itoa pid))].

Definition o9_method_register (pid : Z) (m : method) (s : option O9MethodStore) : Z * option O9MethodStore :=
  match s with
  | None => (-1, None)
  | Some s =>
      let fill r t := let '(z, t) := set_all t r (method_cols pid m) in (z, Some (MethodStore t (ms_path s))) in
      match o9_method_row (m_class m) (m_sel m) s with
      | Some r => fill r (ms_tab s)
      | None =>
          match tab_add_row (ms_tab s) (str "key") (method_key (m_class m) (m_sel m)) with
          | None => (-1, Some s)
          | Some (r, t) => fill r t
          end
      end
  end.

(** The address of the thunk, 0 for none or one of an earlier process. *)
Definition o9_method_thunk (pid : Z) (class : bytes) (sel : Z) (s : option O9MethodStore) : Z :=
  match s with
  | None => 0
  | Some s =>
      match o9_method_row class sel s with
      | None => 0
      | Some r =>
          match tab_get (ms_tab s) r (str "gen") with
          | None => 0
          | Some g =>
              if decide ((strtol 0 g).1 <> pid) then 0 else
              match tab_get (ms_tab s) r (str "addr") with
              | None | Some [] => 0
              | Some v => o9_object_parse_addr v
              end
          end
      end
  end.

Definition method_line (t : tab) (r : row) : bytes :=
  let get c d := default (str d) (tab_get t r (str c)) in
  str "method " ++ get "method" "" ++ str " sel " ++ get "sel" "" ++ str " argc " ++ get "argc" "0" ++
  str " ret " ++ get "ret" "void" ++ str " sig " ++ get "sig" "" ++ [NL].

(** [p += snprint(p, buf+nbuf-p, ...)] for each row. *)
Fixpoint method_text (t : tab) (rs : list row) (room : nat) : bytes :=
  match rs with
  | [] => []
  | r :: rs => let l := snprint room (method_line t r) in l ++ method_text t rs (room - length l)
  end.

Definition o9_method_serialize (class : option bytes) (nbuf : nat) (s : option O9MethodStore) : option bytes :=
  match s, class with
  | Some s, Some class =>
      if decide (nbuf = 0%nat) then None else
      match tab_search (ms_tab s) (str "class") (Some class) with
      | None => Some []
      | Some it => Some (method_text (ms_tab s) (iterate (ms_tab s) it) nbuf)
      end
  | _, _ => None
  end.

Definition o9_method_store_serialize (s : option O9MethodStore) (nbuf : nat) : bytes := o9_tab_serialize_into (ms_tab <$> s) nbuf.

(** [o9_method_ret_type]: the return type of the first method of a name. *)
Definition o9_method_ret_type (method : bytes) (s : option O9MethodStore) : option bytes :=
  s ← s; r ← first_row (ms_tab s) (str "method") method; tab_get (ms_tab s) r (str "ret").

(** ** States *)

Record O9State := State { st_tab : tab; st_row : row; st_path : bytes }.

Definition o9_state_col_seen (cols : list (option bytes)) (name : option bytes) : bool :=
  match name with
  | None => true
  | Some _ => bool_decide (name ∈ cols)
  end.

(** The columns that are no repetition of an earlier one. *)
Fixpoint fresh_cols (seen cols : list (option bytes)) : list bytes :=
  match cols with
  | [] => []
  | c :: cols =>
      match c with
      | Some name => if o9_state_col_seen seen c then fresh_cols (seen ++ [c]) cols else name :: fresh_cols (seen ++ [c]) cols
      | None => fresh_cols (seen ++ [c]) cols
      end
  end.

Definition o9_state_tab_has_col (t : tab) (name : bytes) : bool :=
  existsb (fun i => bool_decide (tab_colname t i = Some name)) (seq 0 (tab_ncolumns t)).

Definition o9_state_schema_matches (t : tab) (cols : list (option bytes)) : bool :=
  o9_state_tab_has_col t (str "id") && forallb (o9_state_tab_has_col t) (fresh_cols [] cols).

Definition o9_state_find_row (t : tab) (instname : bytes) : option row := first_row t (str "id") instname.

Definition o9_state_create_common (root classname instname : option bytes) (cols : list (option bytes)) : option O9State :=
  let classname := if decide (default [] classname = []) then str "object" else default [] classname in
  let instname := if decide (default [] instname = []) then classname else default [] instname in
  let root := default [] root in
  let path := snprint 256 ((if decide (root = []) then [] else root ++ str "/state/") ++ classname ++ str "." ++ instname ++ str ".tab") in
  t ← tab_create path classname (plain_col <$> str "id" :: fresh_cols [] cols);
  match o9_state_find_row t instname with
  | Some r => Some (State t r path)
  | None => (fun x => State x.2 x.1 path) <$> tab_add_row t (str "id") instname
  end.

Definition o9_state_create (classname instname : option bytes) (cols : list (option bytes)) : option O9State :=
  o9_state_create_common None classname instname cols.
Definition o9_state_create_path (root classname instname : option bytes) (cols : list (option bytes)) : option O9State :=
  o9_state_create_common root classname instname cols.

Definition o9_state_set (s : O9State) (col : option bytes) (value : option bytes) : O9State :=
  match col with
  | None => s
  | Some col => State (tab_set (st_tab s) (st_row s) col (default [] value)).2 (st_row s) (st_path s)
  end.

Definition o9_state_get (s : O9State) (col : option bytes) : option bytes := col ← col; tab_get (st_tab s) (st_row s) col.
Definition o9_state_set_int (s : O9State) (col : option bytes) (value : Z) : O9State := o9_state_set s col (Some (snprint 64 (itoa value))).
Definition o9_state_get_int (s : O9State) (col : option bytes) : Z :=
  match o9_state_get s col with None => 0 | Some v => (strtoll 0 v).1 end.

Definition o9_state_serialize (s : option O9State) (nout : nat) : bytes := o9_tab_serialize_into (st_tab <$> s) nout.

(** [write]: what creating the file and writing the text into it returns,
    [None] when it cannot be created. *)
Definition o9_state_flush (write : bytes -> bytes -> option Z) (s : option O9State) (path : option bytes) : Z :=
  match s, path with
  | Some s, Some path =>
      if decide (path = []) then -1 else
      match tab_serialize (st_tab s) with
      | None => -1
      | Some buf =>
          match write path buf with
          | None => -1
          | Some n => if decide (n <> Z.of_nat (length buf)) then -1 else 0
          end
      end
  | _, _ => -1
  end.

End stores.
