(* ===== verification/StoresSpec.v ===== *)
(** * The stores as maps

    The object store as a map from identities to nodes, and the method store as
    a map from classes and selectors to thunks, for every table library that
    keeps the laws of [Tabula] and keeps the empty text apart from nil. *)
From S2P Require Import Prelude Fmt O9Str Tabula Mono Stores.

Open Scope Z_scope.

(** A nil value is not an empty text (docs/TABULA.md): storing one is like
    storing any other. *)
Class keeps_empty (L : libtab) {LL : libtab_laws L} := {
  emptied t r c : r ∈ rows t -> column t c -> tab_colname t 0 <> Some c ->
    exists t', tab_set t r c [] = (0, t') /\ same_schema t t' /\ rows t' = rows t /\
      forall r' c', r' ∈ rows t -> tab_get t' r' c' = if decide (r' = r /\ c' = c) then Some [] else tab_get t r' c';
}.

Definition text_ok (v : bytes) : Prop := v = [] \/ value_ok v.

(** ** Numbers as text *)

Lemma hex_step v d : 0 <= v -> 0 <= d < 16 -> v * 16 + d < 2 ^ 64 -> Z.lor (u64 (Z.shiftl v 4)) d = v * 16 + d.
Proof.
  intros Hv Hd Hb. unfold wrapu. rewrite Z.shiftl_mul_pow2 by lia. change (2 ^ 4) with 16. rewrite Z.mod_small by lia.
  rewrite Z.lor_comm. change 16 with (2 ^ 4) at 1. rewrite <- Z.shiftl_mul_pow2 by lia. rewrite lor_add by lia. lia.
Qed.

Lemma scan_ge s acc : 0 <= acc -> acc <= (scan 16 acc s).1.
Proof.
  revert acc. induction s as [|c s IH]; intros acc Ha; simpl; [done|].
  destruct (digit_val c) as [d|] eqn:E; [|simpl; lia]. case_decide; [|simpl; lia].
  assert (0 <= d) by (unfold digit_val in E; repeat case_decide; simplify_eq; lia).
  specialize (IH (acc * 16 + d)). lia.
Qed.

Lemma hex_loop_scan s acc : 0 <= acc -> (scan 16 acc s).1 < 2 ^ 64 -> hex_loop acc s = (scan 16 acc s).1.
Proof.
  revert acc. induction s as [|c s IH]; intros acc Ha; simpl; [done|].
  destruct (digit_val c) as [d|] eqn:E; [|done]. case_decide; [|done]. intros Hb.
  assert (0 <= d) by (unfold digit_val in E; repeat case_decide; simplify_eq; lia).
  pose proof (scan_ge s (acc * 16 + d)). rewrite hex_step by lia. apply IH; lia.
Qed.

Lemma hex_loop_utoa n : 0 <= n < 2 ^ 64 -> hex_loop 0 (utoa 16 n) = n.
Proof.
  intros Hn. assert (Hs : forall x, scan 16 x [] = (x, [])) by done.
  assert (Hr : 0 <= n < 16 ^ Z.of_nat 64) by (change (16 ^ Z.of_nat 64) with (2 ^ 64 * 2 ^ 192); lia).
  pose proof (digits_scan 64 16 n 0 [] ltac:(lia) Hr ltac:(lia)) as H.
  rewrite app_nil_r, Hs, Z.mul_0_l, Z.add_0_l in H. fold (utoa 16 n) in H.
  rewrite hex_loop_scan; [by rewrite H|lia|]. rewrite H. cbn [fst]. lia.
Qed.

Lemma hex_digits_length fuel n m : 0 <= n < 16 ^ Z.of_nat m -> (0 < m)%nat -> (length (digits fuel 16 n) <= m)%nat.
Proof.
  revert n m. induction fuel as [|fuel IH]; intros n m Hn Hm; simpl; [lia|].
  case_decide; [simpl; lia|]. destruct m as [|[|m]]; [lia| |].
  - change (16 ^ Z.of_nat 1) with 16 in Hn. lia.
  - rewrite length_app. simpl. rewrite Nat2Z.inj_succ, Z.pow_succ_r in Hn by lia.
    assert (0 <= n / 16 < 16 ^ Z.of_nat (S m)).
    { split; [apply Z.div_pos; lia|]. apply Z.div_lt_upper_bound; lia. }
    specialize (IH (n / 16) (S m)). lia.
Qed.

Lemma addr_text_fits n : 0 <= n < 2 ^ 64 -> snprint 64 (str "0x" ++ utoa 16 n) = str "0x" ++ utoa 16 n.
Proof.
  intros Hn. unfold snprint. apply take_ge. rewrite length_app. unfold utoa.
  pose proof (hex_digits_length 64 n 16 ltac:(change (16 ^ Z.of_nat 16) with (2 ^ 64); lia) ltac:(lia)).
  change (length (str "0x")) with 2%nat. lia.
Qed.

(** An address is read back from its text. *)
Lemma addr_roundtrip n : 0 <= n < 2 ^ 64 ->
  match o9_object_addr_text n with [] => 0 | v => o9_object_parse_addr v end = n.
Proof.
  intros Hn. unfold o9_object_addr_text. destruct (decide (n = 0)) as [->|]; [done|].
  rewrite addr_text_fits by done. simpl. by rewrite hex_loop_utoa.
Qed.

Lemma plain_value s : s <> [] -> (forall c, c ∈ s -> 32 <= uchar c /\ uchar c <> 127) -> value_ok s.
Proof. intros H1 H2. split; [done|]. by apply Forall_forall. Qed.

Lemma itoa_value z : - 2 ^ 63 <= z < 2 ^ 63 -> value_ok (itoa z).
Proof.
  intros Hz. destruct (itoa_head z Hz) as (c & s & E). apply plain_value; [by rewrite E|].
  intros d [-> |?]%itoa_chars; [vm_compute; split; discriminate|lia].
Qed.

Lemma utoa_hex_chars n : 0 <= n < 2 ^ 64 -> forall c, c ∈ utoa 16 n -> 32 <= uchar c /\ uchar c <> 127.
Proof.
  intros Hn c Hc. pose proof (digits_chars 64 16 n ltac:(lia) ltac:(lia)) as Hf. rewrite Forall_forall in Hf.
  destruct (Hf c Hc) as (d & Hd & ->). rewrite uchar_digit by lia. case_decide; lia.
Qed.

Lemma hex_value n : 0 <= n < 2 ^ 64 -> value_ok (str "0x" ++ utoa 16 n).
Proof.
  intros Hn. apply plain_value; [done|]. intros c. rewrite elem_of_app. intros [Hc|Hc]; [|by eapply utoa_hex_chars].
  change (str "0x") with [x30; x78] in Hc. rewrite !elem_of_cons, elem_of_nil in Hc. destruct Hc as [->|[->|[]]]; vm_compute; split; discriminate.
Qed.

Lemma addr_text_ok n : 0 <= n < 2 ^ 64 -> text_ok (o9_object_addr_text n).
Proof.
  intros Hn. unfold o9_object_addr_text. destruct (decide (n = 0)); [by left|]. right. rewrite addr_text_fits by done. by apply hex_value.
Qed.

Lemma itoa_fits z : - 2 ^ 63 <= z < 2 ^ 63 -> snprint 64 (itoa z) = itoa z.
Proof. intros Hz. unfold snprint. apply take_ge. pose proof (itoa_length z Hz). lia. Qed.

(** ** Rows of a table that stands for a document *)

Section rows.
Context {L : libtab} {LL : libtab_laws L} {LE : keeps_empty L} (head : bytes) (cols : list bytes) (Hcols : head ∉ cols).

Abbreviation stands := (stands head cols).
Abbreviation row_for := (row_for head).

Lemma stored_text t r c v : r ∈ rows t -> column t c -> tab_colname t 0 <> Some c -> text_ok v ->
  exists t', tab_set t r c v = (0, t') /\ same_schema t t' /\ rows t' = rows t /\
    forall r' c', r' ∈ rows t -> tab_get t' r' c' = if decide (r' = r /\ c' = c) then Some v else tab_get t r' c'.
Proof. intros Hr Hc Hh [-> |Hv]; [by apply emptied|by apply stored]. Qed.

(** The row [r] of the entry [id] with the values [vals]. *)
Definition holds (t : tab) (m : doc) (id : bytes) (vals : gmap bytes bytes) (r : row) : Prop :=
  stands t m /\ m !! id = Some vals /\ row_for t id r /\ forall c, c ∈ cols -> tab_get t r c = vals !! c.

Lemma text_stored t m id vals r c v : holds t m id vals r -> c ∈ cols -> text_ok v ->
  exists t', tab_set t r c v = (0, t') /\ holds t' (<[id := <[c := v]> vals]> m) id (<[c := v]> vals) r.
Proof.
  intros (S & Hm & Hr & Hvals) Hc Hv. assert (Hne : c <> head) by (intros ->; done).
  pose proof (st_schema _ _ _ _ S) as [S1 S2].
  destruct (stored_text t r c v (proj1 Hr)) as (t' & E & A1 & A2 & A3); [apply S2; by right|congruence|done|].
  exists t'. split; [done|].
  assert (Hv' : forall c', <[c := v]> vals !! c' = if decide (c' = c) then Some v else vals !! c')
    by (intros c'; case_decide; [subst; apply lookup_insert_eq|by apply lookup_insert_ne]).
  split; [by apply (stands_cell head cols t t' m id vals _ r c (Some v))|].
  split; [apply lookup_insert_eq|]. split.
  - destruct Hr as [Hr1 Hr2]. split; [by rewrite A2|]. rewrite A3, decide_False by (done || by intros [_ ?]). done.
  - intros c' Hc'. rewrite A3, Hv' by apply Hr. destruct (decide (c' = c)) as [->|]; [by rewrite decide_True|].
    rewrite decide_False by (by intros [_ ?]). by apply Hvals.
Qed.

Fixpoint put_all (l : list (bytes * bytes)) (vals : gmap bytes bytes) : gmap bytes bytes :=
  match l with [] => vals | (c, v) :: l => put_all l (<[c := v]> vals) end.

Lemma set_all_text t m id vals r l : holds t m id vals r -> Forall (fun x => x.1 ∈ cols /\ text_ok x.2) l ->
  exists t' m', set_all t r l = (0, t') /\ holds t' m' id (put_all l vals) r /\ forall i, i <> id -> m' !! i = m !! i.
Proof.
  intros H Hl. revert t m vals H. induction Hl as [|[c v] l [Hc Hv] _ IH]; intros t m vals H; [by exists t, m|].
  simpl in *. destruct (text_stored t m id vals r c v H Hc Hv) as (t1 & -> & H1). rewrite decide_False by lia.
  destruct (IH _ _ _ H1) as (t' & m' & E & H' & Hm). exists t', m'. split; [done|]. split; [done|].
  intros i Hi. rewrite Hm by done. by rewrite lookup_insert_ne.
Qed.

Lemma put_all_lookup l vals c : put_all l vals !! c = match (list_to_map (rev l) : gmap bytes bytes) !! c with Some v => Some v | None => vals !! c end.
Proof.
  revert vals. induction l as [|[c' v] l IH]; intros vals; [done|]. simpl. rewrite IH, list_to_map_app, lookup_union. simpl.
  destruct ((list_to_map (rev l) : gmap bytes bytes) !! c) as [x|].
  - by destruct (<[c' := v]> (∅ : gmap bytes bytes) !! c).
  - destruct (decide (c' = c)) as [->|Hc]; [by rewrite !lookup_insert_eq|]. by rewrite !lookup_insert_ne, lookup_empty.
Qed.

(** The first row with the identity, or a new one. *)
Lemma first_row_head t m id : stands t m ->
  match first_row t head id with
  | Some r => exists vals, holds t m id vals r
  | None => m !! id = None
  end.
Proof.
  intros S. pose proof (find_head head cols (MkTabula t None None) m id S) as H. unfold o9_tab_find_row in H. unfold first_row.
  cbn [t_tab] in H. destruct (tab_search t head (Some id)) as [it|]; [|done].
  destruct (tab_iter_next t it).1 as [r|]; [|done]. destruct H as (Hr & vals & Hm & Hv). by exists vals.
Qed.

Lemma added_row t m id : stands t m -> m !! id = None -> o9_tab_bad_row_id id = false -> value_ok id ->
  exists r t', tab_add_row t head id = Some (r, t') /\ holds t' (<[id := ∅]> m) id ∅ r.
Proof.
  intros S Hm Hb Hv. destruct (stands_new head cols Hcols t m id S Hm Hb Hv) as (r & t' & E & S' & Hr & Hn).
  exists r, t'. split; [done|]. split; [done|]. split; [apply lookup_insert_eq|]. split; [done|].
  intros c Hc. by rewrite Hn, lookup_empty.
Qed.

Lemma created_stands path schema t : tab_create path schema (plain_col <$> head :: cols) = Some t -> stands t ∅.
Proof.
  intros Hc. destruct (created _ _ _ _ Hc) as (_ & C2 & C3 & C4). split.
  - split; [by rewrite C3|]. intros c. unfold column. rewrite C2. split.
    + intros (i & _ & Hi). rewrite C3, list_lookup_fmap in Hi. destruct ((head :: cols) !! i) as [x|] eqn:Ex; [|done]. injection Hi as <-.
      by eapply list_elem_of_lookup_2.
    + intros Hin. apply list_elem_of_lookup_1 in Hin as [i Hi]. exists i. rewrite length_fmap, C3, list_lookup_fmap, Hi.
      split; [by eapply lookup_lt_Some|done].
  - intros r. rewrite C4. by intros ?%elem_of_nil.
  - intros id r r' [H _]. rewrite C4 in H. by apply elem_of_nil in H.
  - intros id vals. by rewrite lookup_empty.
  - intros id _ r [H _]. rewrite C4 in H. by apply elem_of_nil in H.
Qed.

End rows.

(** ** The object store *)

Section objects.
Context {L : libtab} {LL : libtab_laws L} {LE : keeps_empty L}.

Definition OID : bytes := str "oid".
Definition ocols : list bytes := tail o9_object_cols.

Lemma oid_not_col : OID ∉ ocols.
Proof. by apply (bool_decide_unpack _); vm_compute. Qed.

Definition node_doc (n : node) : gmap bytes bytes := put_all (node_cols n) ∅.

(** The nodes that the process knows, and what the calls answer. *)
Abbreviation objects := (gmap bytes node).

Inductive obj_op :=
  | ORegister (pid : Z) (oid : bytes) (typename class : option bytes) (addr : Z) (ns path : option bytes)
  | OSetValue (oid : bytes) (v : option bytes)
  | OSetState (oid : bytes) (v : option bytes)
  | OAddr (oid : bytes) (gen : Z)
  | OGet (oid col : bytes).

Inductive obj_ret := RInt (z : Z) | RText (v : option bytes).

Definition obj_do (s : O9ObjectStore) (op : obj_op) : obj_ret * O9ObjectStore :=
  match op with
  | ORegister pid oid typename class addr ns path =>
      let '(z, s) := o9_object_register_local pid s oid typename class addr ns path in (RInt z, s)
  | OSetValue oid v => let '(z, s) := o9_object_set_value s oid v in (RInt z, s)
  | OSetState oid v => let '(z, s) := o9_object_set_state s oid v in (RInt z, s)
  | OAddr oid gen => (RInt (o9_object_addr s oid gen), s)
  | OGet oid col => (RText (o9_object_get s oid col), s)
  end.

Definition node_gen (E : objects) (oid : bytes) : Z := from_option n_gen 0 (E !! oid).

Definition with_value (v : bytes) (n : node) : node :=
  Node (n_typename n) (n_class n) (n_state n) (Some v) (n_addr n) (n_gen n) (n_ns n) (n_path n) (n_dial n) (n_locality n) (n_owner n) (n_flags n).
Definition with_state (v : bytes) (n : node) : node :=
  Node (n_typename n) (n_class n) (Some v) (n_value n) (n_addr n) (n_gen n) (n_ns n) (n_path n) (n_dial n) (n_locality n) (n_owner n) (n_flags n).

Definition update (f : node -> node) (oid : bytes) (E : objects) : obj_ret * objects :=
  match E !! oid with
  | None => (RInt (-1), E)
  | Some n => (RInt 0, <[oid := f n]> E)
  end.

(** The specification: each registration is a new generation, an address is
    given for the current one (or for 0) only. *)
Definition spec_do (E : objects) (op : obj_op) : obj_ret * objects :=
  match op with
  | ORegister pid oid typename class addr ns path =>
      (RInt 0, <[oid := Node typename class (Some (str "live")) None addr (i64 (node_gen E oid + 1)) ns path None
                         (Some (str "same")) (Some (itoa pid)) (Some (str "local"))]> E)
  | OSetValue oid v => update (with_value (default [] v)) oid E
  | OSetState oid v => update (with_state (default [] v)) oid E
  | OAddr oid gen =>
      (RInt match E !! oid with
            | None => 0
            | Some n => if decide (gen = 0 \/ gen = n_gen n) then n_addr n else 0
            end, E)
  | OGet oid col => (RText (n ← E !! oid; if decide (col = OID) then Some oid else node_doc n !! col), E)
  end.

Definition opt_ok (v : option bytes) : Prop := match v with Some v => text_ok v | None => True end.
Definition pid_ok (pid : Z) : Prop := - 2 ^ 31 <= pid < 2 ^ 31.

Definition obj_op_ok (op : obj_op) : Prop :=
  match op with
  | ORegister pid oid typename class addr ns path =>
      pid_ok pid /\ o9_tab_bad_row_id oid = false /\ value_ok oid /\ 0 <= addr < 2 ^ 64 /\
      opt_ok typename /\ opt_ok class /\ opt_ok ns /\ opt_ok path
  | OSetValue _ v | OSetState _ v => opt_ok v
  | OAddr _ _ => True
  | OGet _ col => col ∈ OID :: ocols
  end.

(** The entry of the table under an identity is the node. *)
Definition same_entry (n : option node) (vals : option (gmap bytes bytes)) : Prop :=
  match n, vals with
  | Some n, Some vals => forall c, c ∈ ocols -> vals !! c = node_doc n !! c
  | None, None => True
  | _, _ => False
  end.

Definition node_ok (n : node) : Prop := 0 <= n_addr n < 2 ^ 64 /\ - 2 ^ 63 <= n_gen n < 2 ^ 63.

Record represents (s : O9ObjectStore) (E : objects) : Prop := {
  rp_doc : exists m, stands OID ocols (os_tab s) m /\ forall oid, same_entry (E !! oid) (m !! oid);
  rp_ok : map_Forall (fun _ n => node_ok n) E;
}.

Lemma put_all_node n vals c : c ∈ ocols -> put_all (node_cols n) vals !! c = node_doc n !! c.
Proof.
  intros Hc. unfold node_doc. rewrite !put_all_lookup.
  destruct ((list_to_map (rev (node_cols n)) : gmap bytes bytes) !! c) eqn:Em; [done|].
  apply not_elem_of_list_to_map in Em. destruct Em.
  apply list_elem_of_In. change ((rev (node_cols n)).*1) with (map fst (rev (node_cols n))). rewrite map_rev.
  apply in_rev. rewrite rev_involutive. apply list_elem_of_In.
  assert (H : forallb (fun c => bool_decide (c ∈ (node_cols n).*1)) ocols = true) by (vm_compute; reflexivity).
  rewrite forallb_forall in H. apply list_elem_of_In in Hc. by apply H, bool_decide_eq_true in Hc.
Qed.

Lemma find_object s E oid : represents s E ->
  match o9_object_find_row s oid with
  | Some r => exists n m vals, E !! oid = Some n /\ holds OID ocols (os_tab s) m oid vals r /\
                (forall i, same_entry (E !! i) (m !! i)) /\ forall c, c ∈ ocols -> tab_get (os_tab s) r c = node_doc n !! c
  | None => E !! oid = None
  end.
Proof.
  intros [(m & S & HE) _]. pose proof (first_row_head OID ocols (os_tab s) m oid S) as H. unfold o9_object_find_row.
  change (str "oid") with OID. specialize (HE oid) as Ho. destruct (first_row _ _ _) as [r|].
  - destruct H as (vals & Hh). pose proof Hh as (_ & Hm & _ & Hv). rewrite Hm in Ho.
    destruct (E !! oid) as [n|] eqn:En; [|done]. exists n, m, vals. split; [done|]. split; [done|]. split; [done|].
    intros c Hc. rewrite Hv by done. by apply Ho.
  - rewrite H in Ho. by destruct (E !! oid).
Qed.

Lemma object_get_spec s E oid col : represents s E -> col ∈ OID :: ocols ->
  o9_object_get s oid col = n ← E !! oid; if decide (col = OID) then Some oid else node_doc n !! col.
Proof.
  intros R Hc. pose proof (find_object s E oid R) as H. unfold o9_object_get.
  destruct (o9_object_find_row s oid) as [r|]; [|by rewrite H].
  destruct H as (n & m & vals & -> & Hh & _ & Hg). simpl. destruct (decide (col = OID)) as [->|Hne].
  - by destruct Hh as (_ & _ & [_ Hr] & _).
  - apply Hg. by apply elem_of_cons in Hc as [?|?].
Qed.

Lemma generation_spec s E oid : represents s E -> o9_object_generation s oid = node_gen E oid.
Proof.
  intros R. unfold o9_object_generation. rewrite (object_get_spec s E) by (done || by apply (bool_decide_unpack _); vm_compute).
  unfold node_gen. destruct (E !! oid) as [n|] eqn:En; [|done]. cbn [mbind option_bind].
  destruct (decide (str "gen" = OID)); [done|].
  pose proof (rp_ok _ _ R _ _ En) as [_ Hg].
  change (node_doc n !! str "gen") with (Some (snprint 64 (itoa (n_gen n)))). rewrite itoa_fits by done.
  destruct (itoa_head (n_gen n) Hg) as (c & t & Ei). simpl. rewrite Ei, <- Ei. unfold strtoll. by rewrite strto_itoa by (lia || by left).
Qed.

(** Replacing the entry of one identity. *)
Lemma represents_put s E oid n t m vals r : represents s E -> holds OID ocols t m oid vals r ->
  (forall c, c ∈ ocols -> vals !! c = node_doc n !! c) ->
  (forall i, i <> oid -> same_entry (E !! i) (m !! i)) -> node_ok n ->
  represents (set_os t s) (<[oid := n]> E).
Proof.
  intros [_ Hok] (S & Hm & _) Hv HE Hn. split.
  - exists m. split; [done|]. intros i. destruct (decide (i = oid)) as [->|Hi]; [by rewrite lookup_insert_eq, Hm|].
    rewrite lookup_insert_ne by done. by apply HE.
  - by apply map_Forall_insert_2.
Qed.

Lemma node_cols_ok n : node_ok n -> opt_ok (n_typename n) -> opt_ok (n_class n) -> opt_ok (n_state n) -> opt_ok (n_value n) ->
  opt_ok (n_ns n) -> opt_ok (n_path n) -> opt_ok (n_dial n) -> opt_ok (n_locality n) -> opt_ok (n_owner n) -> opt_ok (n_flags n) ->
  Forall (fun x => x.1 ∈ ocols /\ text_ok x.2) (node_cols n).
Proof.
  intros [Ha Hg] **. assert (Hk : forallb (fun c => bool_decide (c ∈ ocols)) (node_cols n).*1 = true) by (vm_compute; reflexivity).
  assert (Hopt : forall v d, opt_ok v -> text_ok d -> text_ok (default d v)) by (by intros [v|] d).
  assert (He : text_ok []) by by left.
  assert (Hl : text_ok (str "live") /\ text_ok (str "same")) by (split; right; by apply (bool_decide_unpack _); vm_compute).
  assert (Ht : Forall (fun x => text_ok x.2) (node_cols n)).
  { unfold node_cols. rewrite itoa_fits by done. repeat (apply Forall_cons; split; cbn [snd]); try (apply Hopt; tauto); [by apply addr_text_ok|right; by apply itoa_value|constructor]. }
  rewrite forallb_forall in Hk. rewrite Forall_forall in Ht |- *. intros x Hx. split; [|by apply Ht].
  apply (bool_decide_eq_true_1 _). apply Hk, list_elem_of_In. apply list_elem_of_fmap. eauto.
Qed.

Lemma record_step s E oid n : represents s E -> o9_tab_bad_row_id oid = false -> value_ok oid -> node_ok n ->
  Forall (fun x => x.1 ∈ ocols /\ text_ok x.2) (node_cols n) ->
  exists s', o9_object_record s oid n = (0, s') /\ represents s' (<[oid := n]> E).
Proof.
  intros R Hb Hv Hn Hc. unfold o9_object_record, o9_object_ensure_row. destruct Hv as [Hne Hv].
  rewrite decide_False by done. pose proof (find_object s E oid R) as H.
  assert (Hfin : forall t m vals r, holds OID ocols t m oid vals r -> (forall i, i <> oid -> same_entry (E !! i) (m !! i)) ->
    exists s', (let '(z, t') := set_all t r (node_cols n) in (z, set_os t' s)) = (0, s') /\ represents s' (<[oid := n]> E)).
  { intros t m vals r Hh HE. destruct (set_all_text OID ocols oid_not_col t m oid vals r _ Hh Hc) as (t' & m' & -> & Hh' & Hm').
    exists (set_os t' s). split; [done|]. eapply represents_put; [done|done| | |done].
    - intros c Hcc. by apply put_all_node.
    - intros i Hi. rewrite Hm' by done. by apply HE. }
  destruct (o9_object_find_row s oid) as [r|].
  - destruct H as (n0 & m & vals & _ & Hh & HE & _). by apply (Hfin _ m vals).
  - rewrite decide_False by done. destruct R as [(m & S & HE) Hok].
    assert (Hm : m !! oid = None) by (specialize (HE oid); rewrite H in HE; by destruct (m !! oid)).
    destruct (added_row OID ocols oid_not_col (os_tab s) m oid S Hm Hb (conj Hne Hv)) as (r & t & Et & Hh).
    change (str "oid") with OID. rewrite Et. cbn [fmap option_fmap option_map fst snd os_tab set_os].
    eapply Hfin; [exact Hh|]. intros i Hi. rewrite lookup_insert_ne by done. apply HE.
Qed.

Lemma set_one_step s E oid col v f : represents s E -> opt_ok v -> col ∈ ocols ->
  (forall n, node_ok n -> node_ok (f n)) ->
  (forall n c, c ∈ ocols -> node_doc (f n) !! c = if decide (c = col) then Some (default [] v) else node_doc n !! c) ->
  exists s', set_one s oid col v = (match E !! oid with Some _ => 0 | None => -1 end, s') /\ represents s' (update f oid E).2.
Proof.
  intros R Hv Hcol Hf Hdoc. unfold set_one, update. pose proof (find_object s E oid R) as H.
  destruct (o9_object_find_row s oid) as [r|]; [|rewrite H; by exists s].
  destruct H as (n & m & vals & En & Hh & HE & Hg). rewrite En. unfold o9_object_set_col.
  destruct (text_stored OID ocols oid_not_col (os_tab s) m oid vals r col (default [] v) Hh Hcol) as (t & -> & Hh'); [destruct v; [done|by left]|].
  exists (set_os t s). split; [done|]. eapply represents_put; [done|exact Hh'| | |].
  - intros c Hc. rewrite Hdoc by done. destruct (decide (c = col)) as [->|Hne]; [apply lookup_insert_eq|].
    rewrite lookup_insert_ne by done. destruct Hh as (_ & _ & _ & Hvals). rewrite <- Hvals by done. by apply Hg.
  - intros i Hi. rewrite lookup_insert_ne by done. apply HE.
  - apply Hf. by apply (rp_ok _ _ R _ _ En).
Qed.

Lemma addr_spec s E oid gen : represents s E ->
  o9_object_addr s oid gen = match E !! oid with
                             | None => 0
                             | Some n => if decide (gen = 0 \/ gen = n_gen n) then n_addr n else 0
                             end.
Proof.
  intros R. unfold o9_object_addr. rewrite (generation_spec s E) by done. unfold node_gen.
  rewrite (object_get_spec s E) by (done || by apply (bool_decide_unpack _); vm_compute).
  destruct (E !! oid) as [n|] eqn:En; cbn [from_option mbind option_bind].
  - destruct (decide (gen = 0 \/ gen = n_gen n)) as [Hg|Hg].
    + replace (bool_decide (gen <> 0) && _) with false
        by (symmetry; apply andb_false_iff; rewrite !bool_decide_eq_false; destruct Hg; subst; auto).
      destruct (decide (str "addr" = OID)); [done|].
      change (node_doc n !! str "addr") with (Some (o9_object_addr_text (n_addr n))).
      pose proof (addr_roundtrip (n_addr n) (proj1 (rp_ok _ _ R _ _ En))) as Hr. by destruct (o9_object_addr_text (n_addr n)).
    + rewrite !bool_decide_true; [done|naive_solver|naive_solver].
  - by destruct (_ && _).
Qed.

(** The setters change their own column only. *)
Lemma with_value_doc v n c : c ∈ ocols -> node_doc (with_value v n) !! c = if decide (c = str "value") then Some v else node_doc n !! c.
Proof.
  revert c. apply Forall_forall. change ocols with (str <$> tail ["oid"; "typename"; "class"; "state"; "value"; "addr"; "gen"; "ns"; "path"; "dial"; "locality"; "owner"; "flags"]%string).
  simpl tail. cbn [fmap list_fmap]. repeat (apply Forall_cons; split; [reflexivity|]). constructor.
Qed.

Lemma with_state_doc v n c : c ∈ ocols -> node_doc (with_state v n) !! c = if decide (c = str "state") then Some v else node_doc n !! c.
Proof.
  revert c. apply Forall_forall. change ocols with (str <$> tail ["oid"; "typename"; "class"; "state"; "value"; "addr"; "gen"; "ns"; "path"; "dial"; "locality"; "owner"; "flags"]%string).
  simpl tail. cbn [fmap list_fmap]. repeat (apply Forall_cons; split; [reflexivity|]). constructor.
Qed.

Lemma obj_step s E op : represents s E -> obj_op_ok op ->
  (obj_do s op).1 = (spec_do E op).1 /\ represents (obj_do s op).2 (spec_do E op).2.
Proof.
  intros R Hok. destruct op as [pid oid typename class addr ns path|oid v|oid v|oid gen|oid col]; cbn [obj_do spec_do].
  - destruct Hok as (Hpid & Hb & Hv & Ha & Ht & Hc & Hns & Hp). unfold o9_object_register_local.
    rewrite (generation_spec s E) by done. unfold pid_ok in Hpid. rewrite itoa_fits by lia.
    match goal with |- context [o9_object_record s oid ?n] => destruct (record_step s E oid n R Hb Hv) as (s' & -> & R') end.
    + split; [done|]. by apply (wraps_range 64).
    + assert (Hl : opt_ok (Some (str "live")) /\ opt_ok (Some (str "same")) /\ opt_ok (Some (str "local")))
        by (split_and!; right; by apply (bool_decide_unpack _); vm_compute).
      destruct Hl as (Hl1 & Hl2 & Hl3).
      apply node_cols_ok; try done; [|right; apply itoa_value; lia].
      split; [done|]. by apply (wraps_range 64).
    + by split.
  - destruct (set_one_step s E oid (str "value") v (with_value (default [] v)) R Hok) as (s' & E' & R');
      [by apply (bool_decide_unpack _); vm_compute|done|intros n c; apply with_value_doc|].
    unfold o9_object_set_value. rewrite E'. split; [|done]. unfold update. by destruct (E !! oid).
  - destruct (set_one_step s E oid (str "state") v (with_state (default [] v)) R Hok) as (s' & E' & R');
      [by apply (bool_decide_unpack _); vm_compute|done|intros n c; apply with_state_doc|].
    unfold o9_object_set_state. rewrite E'. split; [|done]. unfold update. by destruct (E !! oid).
  - split; [|done]. cbn. by rewrite (addr_spec s E).
  - split; [|done]. cbn. by rewrite (object_get_spec s E).
Qed.

(** C28: under every sequence of registrations, changes and look-ups the object
    store is a map from identities to nodes: each registration gives the next
    generation, an address is answered for the current generation (or for any,
    with 0) and for no earlier one, and it is the address that was
    registered. *)
Theorem object_store_refines path s ops : o9_object_store_create path = Some s -> Forall obj_op_ok ops ->
  (trace obj_do s ops).1 = (trace spec_do ∅ ops).1.
Proof.
  intros Hc Hops. assert (R : represents s ∅).
  { unfold o9_object_store_create in Hc. case_decide; [done|].
    destruct (tab_create path (str "o9objects") (plain_col <$> o9_object_cols)) as [t|] eqn:Et; [|done]. injection Hc as <-.
    split; [|apply map_Forall_empty]. exists ∅. split; [by eapply (created_stands OID ocols)|]. intros oid. by rewrite !lookup_empty. }
  clear Hc. revert s R. generalize (∅ : objects) as E. induction Hops as [|op ops Hop _ IH]; intros E s R; [done|].
  destruct (obj_step s E op R Hop) as [H1 H2]. cbn [trace].
  destruct (obj_do s op) as [r s'], (spec_do E op) as [r' E']. cbn [fst snd] in *. specialize (IH E' s' H2).
  destruct (trace obj_do s' ops), (trace spec_do E' ops). cbn [fst] in *. congruence.
Qed.

End objects.

(** ** The method store *)

Lemma utoa_hex_no_slash n : 0 <= n < 2 ^ 64 -> "/"%byte ∉ utoa 16 n.
Proof.
  intros Hn Hc. pose proof (digits_chars 64 16 n ltac:(lia) ltac:(lia)) as Hf. rewrite Forall_forall in Hf.
  destruct (Hf _ Hc) as (d & Hd & Hx). apply (f_equal uchar) in Hx. rewrite uchar_digit in Hx by lia.
  change (uchar "/"%byte) with 47 in Hx. case_decide; lia.
Qed.

Lemma last_slash (a b x y : bytes) : "/"%byte ∉ x -> "/"%byte ∉ y -> a ++ "/"%byte :: x = b ++ "/"%byte :: y -> a = b /\ x = y.
Proof.
  intros Hx Hy. revert b. induction a as [|c a IH]; intros [|d b]; simpl.
  - by intros [= ->].
  - intros E. injection E as E1 E2. destruct Hx. rewrite E2. apply elem_of_app. right. by left.
  - intros E. injection E as E1 E2. destruct Hy. rewrite <- E2. apply elem_of_app. right. by left.
  - intros E. injection E as -> E. by destruct (IH b E) as [-> ->].
Qed.

Section methods.
Context {L : libtab} {LL : libtab_laws L} {LE : keeps_empty L}.

Definition KEY : bytes := str "key".
Definition mcols : list bytes := tail o9_method_cols.

Lemma key_not_col : KEY ∉ mcols.
Proof. by apply (bool_decide_unpack _); vm_compute. Qed.

(** Classes whose key is not cut at the buffer. *)
Definition class_ok (class : bytes) : Prop := value_ok class /\ (length class <= 140)%nat.
Definition sel_ok (sel : Z) : Prop := 0 <= sel < 2 ^ 32.

Lemma key_exact class sel : class_ok class -> sel_ok sel -> method_key class sel = class ++ "/"%byte :: sel_text sel.
Proof.
  intros [_ Hl] Hs. unfold method_key, snprint, sel_text. unfold sel_ok in Hs. apply take_ge. rewrite !length_app. unfold utoa.
  pose proof (hex_digits_length 64 sel 8 ltac:(change (16 ^ Z.of_nat 8) with (2 ^ 32); lia) ltac:(lia)).
  change ("/"%byte :: str "0x" ++ digits 64 16 sel) with ([x2f; x30; x78] ++ digits 64 16 sel). rewrite length_app.
  change (length [x2f; x30; x78]) with 3%nat. lia.
Qed.

Lemma sel_text_no_slash sel : sel_ok sel -> "/"%byte ∉ sel_text sel.
Proof.
  unfold sel_ok, sel_text. intros Hs. change (str "0x") with [x30; x78]. rewrite elem_of_app, !elem_of_cons, elem_of_nil.
  intros [[?|[?|[]]]|H]; [done|done|]. by apply utoa_hex_no_slash in H; [|lia].
Qed.

Lemma key_inj c1 s1 c2 s2 : class_ok c1 -> class_ok c2 -> sel_ok s1 -> sel_ok s2 ->
  method_key c1 s1 = method_key c2 s2 -> c1 = c2 /\ s1 = s2.
Proof.
  intros H1 H2 H3 H4. rewrite !key_exact by done. intros [-> E]%last_slash; [|by apply sel_text_no_slash..].
  split; [done|]. unfold sel_text in E. apply (inj (app (str "0x"))) in E. unfold sel_ok in *.
  rewrite <- (hex_loop_utoa s1), <- (hex_loop_utoa s2) by lia. by rewrite E.
Qed.

Lemma key_row_ok class sel : class_ok class -> sel_ok sel -> o9_tab_bad_row_id (method_key class sel) = false /\ value_ok (method_key class sel).
Proof.
  intros Hc Hs. rewrite key_exact by done. destruct Hc as [[Hne Hc] _]. unfold sel_ok in Hs. split.
  - unfold o9_tab_bad_row_id, streq. rewrite !bool_decide_false; [done| |by destruct class].
    intros E. assert ("/"%byte ∈ str "nil") as H by (rewrite <- E; apply elem_of_app; right; by left).
    revert H. by apply (bool_decide_unpack _); vm_compute.
  - apply plain_value; [by destruct class|]. intros c. rewrite elem_of_app, elem_of_cons. rewrite Forall_forall in Hc.
    intros [H|[->|H]]; [by apply Hc|vm_compute; split; discriminate|].
    destruct (hex_value sel) as [_ Hv]; [lia|]. rewrite Forall_forall in Hv. by apply Hv.
Qed.

(** The thunks by class and selector, with the process that registered them. *)
Abbreviation thunks := (gmap (bytes * Z) (Z * Z)).

Inductive meth_op := MRegister (pid : Z) (m : method) | MThunk (pid : Z) (class : bytes) (sel : Z).

Definition meth_do (s : option O9MethodStore) (op : meth_op) : Z * option O9MethodStore :=
  match op with
  | MRegister pid m => o9_method_register pid m s
  | MThunk pid class sel => (o9_method_thunk pid class sel s, s)
  end.

Definition thunk_of (E : thunks) (pid : Z) (class : bytes) (sel : Z) : Z :=
  match E !! (class, sel) with Some (a, p) => if decide (p = pid) then a else 0 | None => 0 end.

Definition meth_spec (E : thunks) (op : meth_op) : Z * thunks :=
  match op with
  | MRegister pid m => (0, <[(m_class m, m_sel m) := (m_thunk m, pid)]> E)
  | MThunk pid class sel => (thunk_of E pid class sel, E)
  end.

Definition method_ok (m : method) : Prop :=
  class_ok (m_class m) /\ text_ok (m_method m) /\ sel_ok (m_sel m) /\ - 2 ^ 31 <= m_argc m < 2 ^ 31 /\
  opt_ok (m_ret m) /\ opt_ok (m_sig m) /\ 0 <= m_thunk m < 2 ^ 64.

Definition meth_op_ok (op : meth_op) : Prop :=
  match op with
  | MRegister pid m => pid_ok pid /\ method_ok m
  | MThunk pid class sel => pid_ok pid /\ class_ok class /\ sel_ok sel
  end.

Definition same_thunk (e : option (Z * Z)) (vals : option (gmap bytes bytes)) : Prop :=
  match e, vals with
  | Some (a, p), Some vals => vals !! str "gen" = Some (itoa p) /\ vals !! str "addr" = Some (o9_object_addr_text a)
  | None, None => True
  | _, _ => False
  end.

Record methods_stand (s : O9MethodStore) (E : thunks) : Prop := {
  me_doc : exists m, stands KEY mcols (ms_tab s) m /\
    forall class sel, class_ok class -> sel_ok sel -> same_thunk (E !! (class, sel)) (m !! method_key class sel);
  me_ok : map_Forall (fun k e => class_ok k.1 /\ sel_ok k.2 /\ 0 <= e.1 < 2 ^ 64 /\ pid_ok e.2) E;
}.

Lemma method_cols_ok pid m : pid_ok pid -> method_ok m -> Forall (fun x => x.1 ∈ mcols /\ text_ok x.2) (method_cols pid m).
Proof.
  unfold pid_ok. intros Hp (Hc & Hm & Hs & Ha & Hr & Hg & Ht). unfold sel_ok in Hs.
  assert (Hk : forallb (fun c => bool_decide (c ∈ mcols)) (method_cols pid m).*1 = true) by (vm_compute; reflexivity).
  assert (Hopt : forall v d, opt_ok v -> text_ok d -> text_ok (default d v)) by (by intros [v|] d).
  assert (He : text_ok []) by by left.
  assert (Hv : text_ok (str "void")) by (right; by apply (bool_decide_unpack _); vm_compute).
  assert (Htx : Forall (fun x => text_ok x.2) (method_cols pid m)).
  { unfold method_cols. rewrite !itoa_fits by lia. unfold sel_text. rewrite addr_text_fits by lia.
    repeat (apply Forall_cons; split; cbn [snd]); try (apply Hopt; done); try done.
    - right. apply Hc.
    - right. apply hex_value. lia.
    - right. apply itoa_value. lia.
    - by apply addr_text_ok.
    - right. apply itoa_value. lia. }
  rewrite forallb_forall in Hk. rewrite Forall_forall in Htx |- *. intros x Hx. split; [|by apply Htx].
  apply (bool_decide_eq_true_1 _). apply Hk, list_elem_of_In. apply list_elem_of_fmap. eauto.
Qed.

Lemma register_step s E pid m : methods_stand s E -> pid_ok pid -> method_ok m ->
  exists s', o9_method_register pid m (Some s) = (0, Some s') /\ methods_stand s' (<[(m_class m, m_sel m) := (m_thunk m, pid)]> E).
Proof.
  intros [(d & S & HE) Hok] Hp Hm. pose proof Hm as (Hc & _ & Hs & Harg & _ & _ & Ht).
  pose proof (method_cols_ok pid m Hp Hm) as Hcols. set (k := method_key (m_class m) (m_sel m)).
  assert (Hfin : forall t d1 vals r, holds KEY mcols t d1 k vals r -> (forall i, i <> k -> d1 !! i = d !! i) ->
    exists s', (let '(z, t') := set_all t r (method_cols pid m) in (z, Some (MethodStore t' (ms_path s)))) = (0, Some s') /\
      methods_stand s' (<[(m_class m, m_sel m) := (m_thunk m, pid)]> E)).
  { intros t d1 vals r Hh Hd1. destruct (set_all_text KEY mcols key_not_col t d1 k vals r _ Hh Hcols) as (t' & d' & -> & Hh' & Hd').
    exists (MethodStore t' (ms_path s)). split; [done|]. destruct Hh' as (S' & Hk' & _). split.
    - exists d'. split; [done|]. intros class sel Hcl Hsl. destruct (decide ((class, sel) = (m_class m, m_sel m))) as [E1|Hne].
      + injection E1 as -> ->. rewrite lookup_insert_eq. fold k. rewrite Hk'.
        assert (Hpid : - 2 ^ 63 <= pid < 2 ^ 63) by (unfold pid_ok in Hp; lia). cbn [same_thunk].
        unfold method_cols. rewrite (itoa_fits pid), !put_all_lookup by done. by split.
      + rewrite lookup_insert_ne by done. assert (method_key class sel <> k) as Hkk.
        { intros E1. apply Hne. destruct Hm as (Hc1 & _ & Hs1 & _). by destruct (key_inj _ _ _ _ Hcl Hc1 Hsl Hs1 E1) as [-> ->]. }
        rewrite Hd', Hd1 by done. by apply HE.
    - apply map_Forall_insert_2; [|done]. done. }
  unfold o9_method_register, o9_method_row. fold k. pose proof (first_row_head KEY mcols (ms_tab s) d k S) as H.
  change (str "key") with KEY. destruct (first_row (ms_tab s) KEY k) as [r|].
  - destruct H as (vals & Hh). by apply (Hfin _ d vals).
  - destruct (key_row_ok (m_class m) (m_sel m) Hc Hs) as [Hb Hv]. fold k in Hb, Hv.
    destruct (added_row KEY mcols key_not_col (ms_tab s) d k S H Hb Hv) as (r & t & -> & Hh).
    eapply Hfin; [exact Hh|]. intros i Hi. by rewrite lookup_insert_ne.
Qed.

Lemma thunk_spec s E pid class sel : methods_stand s E -> pid_ok pid -> class_ok class -> sel_ok sel ->
  o9_method_thunk pid class sel (Some s) = thunk_of E pid class sel.
Proof.
  intros [(d & S & HE) Hok] Hp Hc Hs. unfold o9_method_thunk, o9_method_row, thunk_of. specialize (HE class sel Hc Hs).
  pose proof (first_row_head KEY mcols (ms_tab s) d (method_key class sel) S) as H. change (str "key") with KEY.
  destruct (first_row _ _ _) as [r|].
  - destruct H as (vals & _ & Hd & _ & Hv). rewrite Hd in HE. destruct (E !! (class, sel)) as [[a p]|] eqn:Ee; [|done].
    destruct HE as [Hgen Haddr]. pose proof (Hok _ _ Ee) as (_ & _ & Ha & Hpp). cbn [fst snd] in *. unfold pid_ok in *.
    rewrite !Hv, Hgen, Haddr by (by apply (bool_decide_unpack _); vm_compute). unfold strtol. rewrite strto_itoa by (lia || by left).
    cbn [fst]. destruct (decide (p = pid)) as [->|Hne]; [rewrite decide_False by tauto|by rewrite decide_True].
    pose proof (addr_roundtrip a Ha) as Hr. by destruct (o9_object_addr_text a).
  - rewrite H in HE. by destruct (E !! (class, sel)) as [[]|].
Qed.

Lemma init_stands root app s : o9_method_store_init root app None = (0, Some s) -> methods_stand s ∅.
Proof.
  unfold o9_method_store_init. case_decide; [done|]. destruct (tab_create _ _ _) as [t|] eqn:Et; [|done]. intros [= <-].
  split; [|apply map_Forall_empty]. exists ∅. split; [by eapply (created_stands KEY mcols)|]. intros class sel _ _. by rewrite !lookup_empty.
Qed.

Lemma meth_step s E op : methods_stand s E -> meth_op_ok op ->
  exists s', (meth_do (Some s) op) = ((meth_spec E op).1, Some s') /\ methods_stand s' (meth_spec E op).2.
Proof.
  intros R. destruct op as [pid m|pid class sel]; cbn [meth_do meth_spec meth_op_ok].
  - intros [Hp Hm]. by apply register_step.
  - intros (Hp & Hc & Hs). exists s. by rewrite (thunk_spec s E).
Qed.

End methods.

(** ** The implementation of [Tabula] keeps the empty text *)

#[export] Instance list_keeps_empty : @keeps_empty ListTab.impl ListTab.laws.
Proof.
  constructor. intros t r c Hr _ _. change (r ∈ remove_dups (ListTab.ids t)) in Hr. eexists. split; [reflexivity|]. split; [done|].
  split; [exact (f_equal remove_dups (ListTab.ids_map_row _ _ _))|]. intros r' c' _. unfold tab_get, ListTab.impl. rewrite ListTab.get_map_row. unfold ListTab.get.
  destruct (decide (r' = r)) as [->|Hne].
  - rewrite elem_of_remove_dups in Hr. destruct (ListTab.cell_elem t r Hr) as [m Hm]. rewrite Hm, decide_True by done.
    cbn [fmap option_fmap option_map mbind option_bind]. case_decide as D; [destruct D as [_ ->]|].
    + apply lookup_insert_eq.
    + rewrite lookup_insert_ne; [done|]. intros ->. by apply D.
  - rewrite decide_False by done. rewrite decide_False; [done|]. by intros [? _].
Qed.

(** Two registrations of one identity: the first address is dead. *)
Definition demo_objects : list obj_op :=
  [ORegister 7 (str "acct") (Some (str "Account")) (Some (str "Account")) 4096 None None; OAddr (str "acct") 1;
   ORegister 7 (str "acct") (Some (str "Account")) (Some (str "Account")) 61440 None None; OAddr (str "acct") 1; OAddr (str "acct") 2;
   OSetState (str "acct") (Some (str "reaped")); OGet (str "acct") (str "state"); OSetValue (str "none") None].

Lemma object_store_refines_witness :
  exists s, @o9_object_store_create ListTab.impl (str "objects.tab") = Some s /\
    (trace (@obj_do ListTab.impl) s demo_objects).1 =
      [RInt 0; RInt 4096; RInt 0; RInt 0; RInt 61440; RInt 0; RText (Some (str "reaped")); RInt (-1)].
Proof.
  exists (@ObjectStore ListTab.impl (ListTab.Table (str "o9objects") (plain_col <$> o9_object_cols) [] 0) (str "objects.tab")).
  split; [reflexivity|].
  rewrite (@object_store_refines ListTab.impl ListTab.laws _ (str "objects.tab") _ demo_objects eq_refl).
  - vm_compute. reflexivity.
  - repeat (apply Forall_cons; split); cbn; try (split_and!); try done; try lia; try (right; by apply (bool_decide_unpack _); vm_compute);
      try (by apply (bool_decide_unpack _); vm_compute).
Defined.
