(* ===== verification/Dispatch.v ===== *)
(** * The dispatch caches of client handles ([o9_dispatch.c] and
    [o9_init_client*], [o9_cache_fill] in [o9_runtime.c])

    A client handle has two caches of 64 entries, indexed by the low bits of a
    hash: addresses of public fields and thunks of methods.  A miss asks the
    method store of the process, then the status text of the server.  The
    assembly versions of the dispatch functions are said to be identical to
    the C ones modelled here. *)
From S2P Require Import Prelude Fmt O9Str Tabula Mono Stores StoresSpec CText Journal.

Open Scope Z_scope.

(** ** Data *)

(** An address is a [Z], 0 is nil. *)
Record O9CacheEntry := CacheEntry { e_hash : Z; e_ptr : Z }.

Abbreviation cache := (list O9CacheEntry).
Record o9_AsmTable := AsmTable { t_data : cache; t_ctrl : cache }.

Definition cache0 : cache := replicate 64 (CacheEntry 0 0).
Definition table0 : o9_AsmTable := AsmTable cache0 cache0.

(** What a client handle keeps for dispatch. *)
Record client := Client { c_srvname : bytes; c_cachepath : bytes; c_table : option o9_AsmTable; c_fd : option bytes; c_shm_base : Z }.

Definition set_table (t : option o9_AsmTable) (c : client) : client := Client (c_srvname c) (c_cachepath c) t (c_fd c) (c_shm_base c).

(** [hash & 63]. *)
Definition slot (hash : Z) : nat := Z.to_nat (Z.land hash 63).

Definition cache_get (hash : Z) (c : cache) : Z :=
  match c !! slot hash with
  | Some e => if bool_decide (e_hash e = hash) then e_ptr e else 0
  | None => 0
  end.

Definition cache_set (hash ptr : Z) (c : cache) : cache := <[slot hash := CacheEntry hash ptr]> c.

(** ** The status text *)

(** [strtoul] with a base; [ulong] has 32 bits. *)
Definition strtoul (base : Z) (s : bytes) : Z :=
  let v := (strto (- 2 ^ 64) (2 ^ 64) base s).1 in
  if decide (2 ^ 32 <= Z.abs v) then 2 ^ 32 - 1 else u32 v.

Definition status_line (t : o9_AsmTable) (l : bytes) : o9_AsmTable :=
  match strchr ":"%byte l with
  | (_, None) => t
  | (key, Some val) =>
      match key with
      | "d"%byte :: h => AsmTable (cache_set (strtoul 10 h) (u64 (strtol 10 val).1) (t_data t)) (t_ctrl t)
      | "c"%byte :: h => AsmTable (t_data t) (cache_set (strtoul 10 h) (strtoul 16 val) (t_ctrl t))
      | _ => t
      end
  end.

(** [Brdstr] gives every line, the last one also without a newline. *)
Definition o9_fill_from_buf (data : bytes) (t : o9_AsmTable) : o9_AsmTable := foldl status_line t (cstr <$> lines_of data).

(** ** Setting a handle up *)

(** The entries that are not nil become absolute. *)
Definition rebase (base : Z) (c : cache) : cache :=
  (fun e => if decide (e_ptr e = 0) then e else CacheEntry (e_hash e) (u64 (base + e_ptr e))) <$> c.

(** [segattach]: the address of the segment of a name, -1 when there is none. *)
Definition o9_init_client_cache (fs : files) (segattach : bytes -> Z) (cachepath srvname : option bytes) (c : client) : Z * client :=
  match cachepath, srvname with
  | Some cachepath, Some srvname =>
      let c := Client (strncpy 64 srvname) (strncpy 128 cachepath) (c_table c) (c_fd c) (c_shm_base c) in
      match fs cachepath with
      | None => (-1, c)
      | Some data =>
          match c_table c with
          | None => (0, Client (c_srvname c) (c_cachepath c) None (Some cachepath) (c_shm_base c))
          | Some t =>
              let t := o9_fill_from_buf data t in
              let base := segattach (snprint 64 (str "o9/" ++ srvname)) in
              let base := if decide (base = -1) then 0 else base in
              let t := if decide (base = 0) then t else AsmTable (rebase base (t_data t)) (t_ctrl t) in
              (0, Client (c_srvname c) (c_cachepath c) (Some t) None base)
          end
      end
  | _, _ => (-1, c)
  end.

Definition o9_init_client (fs : files) (segattach : bytes -> Z) (srvname : option bytes) (c : client) : Z * client :=
  match srvname with
  | None => (-1, c)
  | Some name => o9_init_client_cache fs segattach (Some (snprint 256 (str "/srv/" ++ name ++ str "/status"))) srvname c
  end.

Definition o9_init_client_path (fs : files) (segattach : bytes -> Z) (path srvname : option bytes) (c : client) : Z * client :=
  match path, srvname with
  | Some path, Some _ => o9_init_client_cache fs segattach (Some (snprint 256 (path ++ str "/status"))) srvname c
  | _, _ => (-1, c)
  end.

(** ** Filling and dispatch *)

Section dispatch.
Context {L : libtab} (fs : files) (pid : Z).

Definition o9_cache_fill (ms : option O9MethodStore) (hash : Z) (is_ctrl : bool) (c : client) : client :=
  if decide (c_srvname c = []) then c else
  let thunk := if is_ctrl && bool_decide (is_Some (c_table c)) then o9_method_thunk pid (c_srvname c) hash ms else 0 in
  match c_table c with
  | Some t =>
      if decide (thunk <> 0) then set_table (Some (AsmTable (t_data t) (cache_set hash thunk (t_ctrl t)))) c
      else
        let path := if decide (c_cachepath c = []) then snprint 256 (str "/srv/" ++ c_srvname c ++ str "/status") else strncpy 256 (c_cachepath c) in
        match fs path with
        | None => c
        | Some data => set_table (Some (o9_fill_from_buf data t)) c
        end
  | None => c
  end.

Definition cached (which : o9_AsmTable -> cache) (hash : Z) (c : client) : Z :=
  match c_table c with Some t => cache_get hash (which t) | None => 0 end.

(** The address of a public field, 0 when there is none. *)
Definition o9_dispatch_data (ms : option O9MethodStore) (hash : Z) (c : client) : Z * client :=
  match c_table c with
  | None => (0, c)
  | Some _ =>
      if decide (cached t_data hash c <> 0) then (cached t_data hash c, c) else
      let c := o9_cache_fill ms hash false c in (cached t_data hash c, c)
  end.

(** The thunk that is called, [None] when nil is returned instead. *)
Definition o9_dispatch_call (ms : option O9MethodStore) (hash : Z) (c : client) : option Z * client :=
  match c_table c with
  | None => (None, c)
  | Some _ =>
      if decide (cached t_ctrl hash c <> 0) then (Some (cached t_ctrl hash c), c) else
      let c := o9_cache_fill ms hash true c in
      (if decide (cached t_ctrl hash c <> 0) then Some (cached t_ctrl hash c) else None, c)
  end.

End dispatch.

(** ** What is called *)

Lemma cache_get_set hash ptr c h : length c = 64%nat ->
  cache_get h (cache_set hash ptr c) = if decide (slot h = slot hash) then (if decide (h = hash) then ptr else 0) else cache_get h c.
Proof.
  intros Hl. unfold cache_get, cache_set. destruct (decide (slot h = slot hash)) as [E|E].
  - rewrite E, list_lookup_insert_eq.
    + simpl. destruct (decide (h = hash)) as [->|Hne]; [by rewrite bool_decide_true|by rewrite bool_decide_false by congruence].
    + rewrite Hl. unfold slot. pose proof (Z.land_ones hash 6 ltac:(lia)) as H. change (Z.ones 6) with 63 in H. rewrite H.
      pose proof (Z.mod_pos_bound hash (2 ^ 6)). lia.
  - by rewrite list_lookup_insert_ne by congruence.
Qed.

(** A line of a status text that names a thunk. *)
Definition listed (data : bytes) (hash ptr : Z) : Prop :=
  exists l h val, l ∈ cstr <$> lines_of data /\ strchr ":"%byte l = ("c"%byte :: h, Some val) /\ hash = strtoul 10 h /\ ptr = strtoul 16 val.

Section calls.
Context {L : libtab} {LL : libtab_laws L} {LE : keeps_empty L} (fs : files) (pid : Z) (Hpid : pid_ok pid).

(** The thunk is a method's that this process registered for the class, or a
    status text names it. *)
Definition known (class : bytes) (hist : list method) (hash ptr : Z) : Prop :=
  (exists m, m ∈ hist /\ m_class m = class /\ m_sel m = hash /\ m_thunk m = ptr) \/
  (exists path data, fs path = Some data /\ listed data hash ptr).

Definition table_ok (class : bytes) (hist : list method) (t : o9_AsmTable) : Prop :=
  length (t_ctrl t) = 64%nat /\ forall h, cache_get h (t_ctrl t) <> 0 -> known class hist h (cache_get h (t_ctrl t)).

Lemma table_ok_set class hist t hash ptr d : table_ok class hist t -> known class hist hash ptr ->
  table_ok class hist (AsmTable d (cache_set hash ptr (t_ctrl t))).
Proof.
  intros [Hl Hk] Hn. split; [by unfold cache_set; simpl; rewrite length_insert|]. simpl. intros h.
  rewrite cache_get_set by done. destruct (decide (slot h = slot hash)); [|apply Hk].
  destruct (decide (h = hash)) as [->|]; done.
Qed.

Lemma fill_ok class hist path data t : fs path = Some data -> table_ok class hist t -> table_ok class hist (o9_fill_from_buf data t).
Proof.
  intros Hf. unfold o9_fill_from_buf. assert (Hall : forall l, l ∈ cstr <$> lines_of data -> l ∈ cstr <$> lines_of data) by done.
  revert Hall t. generalize (cstr <$> lines_of data) at 1 3 as ls. induction ls as [|l ls IH]; intros Hall t Ht; [done|].
  simpl. apply IH; [intros; apply Hall; by right|]. unfold status_line.
  destruct (strchr ":"%byte l) as [key [val|]] eqn:El; [|done]. destruct key as [|k h]; [done|].
  destruct (decide (k = "c"%byte)) as [->|Hc].
  - apply table_ok_set; [done|]. right. exists path, data. split; [done|]. exists l, h, val. split; [apply Hall; by left|done].
  - destruct k; try done; (destruct Ht; split; done).
Qed.

(** What other processes and calls do to the store and the handle. *)
Inductive disp_event := DRegister (m : method) | DCall (hash : Z) | DData (hash : Z).

Definition disp_do (e : disp_event) (s : option O9MethodStore * client) : option O9MethodStore * client :=
  match e with
  | DRegister m => ((o9_method_register pid m s.1).2, s.2)
  | DCall hash => (s.1, (o9_dispatch_call fs pid s.1 hash s.2).2)
  | DData hash => (s.1, (o9_dispatch_data fs pid s.1 hash s.2).2)
  end.

Fixpoint disp_run (es : list disp_event) (s : option O9MethodStore * client) : option O9MethodStore * client :=
  match es with [] => s | e :: es => disp_run es (disp_do e s) end.

Definition registered (es : list disp_event) : list method := omap (fun e => match e with DRegister m => Some m | _ => None end) es.

(** The thunks after a list of registrations. *)
Definition thunks_of (hist : list method) : gmap (bytes * Z) (Z * Z) :=
  foldl (fun E m => (meth_spec E (MRegister pid m)).2) ∅ hist.

Definition disp_ok (class : bytes) (hist : list method) (s : option O9MethodStore * client) : Prop :=
  c_srvname s.2 = class /\
  (exists ms, s.1 = Some ms /\ methods_stand ms (thunks_of hist)) /\
  (exists t, c_table s.2 = Some t /\ table_ok class hist t).

Lemma thunks_known class hist hash : thunk_of (thunks_of hist) pid class hash <> 0 ->
  known class hist hash (thunk_of (thunks_of hist) pid class hash).
Proof.
  intros H. left. unfold thunk_of in *.
  destruct (thunks_of hist !! (class, hash)) as [[a p]|] eqn:E; [|done]. destruct (decide (p = pid)) as [->|]; [|done]. clear H.
  unfold thunks_of in E. revert E. induction hist as [|m hist IH] using rev_ind; [simpl; by rewrite lookup_empty|].
  rewrite foldl_app. simpl. rewrite lookup_insert. case_decide as Hk.
  - injection Hk as <- <-. intros [= <-]. exists m. split; [apply elem_of_app; right; by left|done].
  - intros (m' & Hm & ?)%IH. exists m'. split; [apply elem_of_app; by left|done].
Qed.

Lemma cache_fill_ok class hist ms hash b c : class_ok class -> sel_ok hash -> disp_ok class hist (ms, c) ->
  let c' := o9_cache_fill fs pid ms hash b c in
  disp_ok class hist (ms, c') /\
  (b = true -> thunk_of (thunks_of hist) pid class hash <> 0 -> cached t_ctrl hash c' = thunk_of (thunks_of hist) pid class hash).
Proof.
  intros Hc Hs (Hsrv & (m & Hm & Hst) & (t & Ht & Hok)). simpl in *. subst ms. unfold o9_cache_fill.
  destruct (decide (c_srvname c = [])) as [E|_]; [destruct Hc as [[? _] _]; congruence|].
  rewrite Ht, Hsrv. replace (bool_decide (is_Some (Some t))) with true by (symmetry; by apply bool_decide_eq_true).
  rewrite (thunk_spec m (thunks_of hist)) by done. rewrite andb_true_r.
  assert (Hfile : forall path, disp_ok class hist (Some m, match fs path with None => c | Some data => set_table (Some (o9_fill_from_buf data t)) c end)).
  { intros path. destruct (fs path) as [data|] eqn:Ed; (split; [done|]); (split; [by exists m|]); simpl.
    - exists (o9_fill_from_buf data t). split; [done|]. by eapply fill_ok.
    - by exists t. }
  destruct b.
  - destruct (decide (thunk_of (thunks_of hist) pid class hash <> 0)) as [Hne|He].
    + split; [|intros _ _; unfold cached; simpl].
      * split; [done|]. split; [by exists m|]. eexists. split; [done|]. apply table_ok_set; [done|]. by apply thunks_known.
      * rewrite cache_get_set by apply Hok. by rewrite !decide_True.
    + split; [apply Hfile|done].
  - rewrite decide_False by tauto. split; [apply Hfile|done].
Qed.

Lemma disp_step class hist e s : class_ok class -> disp_ok class hist s ->
  match e with DRegister m => method_ok m | DCall hash | DData hash => sel_ok hash end ->
  disp_ok class (hist ++ registered [e]) (disp_do e s).
Proof.
  intros Hc Hd He. destruct s as [ms c]. destruct e as [m|hash|hash]; simpl.
  - destruct Hd as (Hsrv & (ms0 & Hm & Hst) & (t & Ht & [Hl Hk])). simpl in *. subst ms.
    destruct (register_step ms0 _ pid m Hst Hpid He) as (s' & Er & Hst'). rewrite Er. split; [done|]. split.
    + exists s'. split; [done|]. unfold thunks_of in *. by rewrite foldl_app.
    + exists t. split; [done|]. split; [done|]. intros h Hh. destruct (Hk h Hh) as [(m' & Hm' & ?)|?]; [|by right].
      left. exists m'. split; [apply elem_of_app; by left|done].
  - rewrite app_nil_r. unfold o9_dispatch_call. pose proof Hd as (_ & _ & (t & Ht & _)). simpl in Ht. rewrite Ht.
    case_decide; [done|]. by apply cache_fill_ok.
  - rewrite app_nil_r. unfold o9_dispatch_data. pose proof Hd as (_ & _ & (t & Ht & _)). simpl in Ht. rewrite Ht.
    case_decide; [done|]. by apply cache_fill_ok.
Qed.

Definition disp_event_ok (e : disp_event) : Prop :=
  match e with DRegister m => method_ok m | DCall hash | DData hash => sel_ok hash end.

Lemma disp_run_ok class hist es s : class_ok class -> disp_ok class hist s -> Forall disp_event_ok es ->
  disp_ok class (hist ++ registered es) (disp_run es s).
Proof.
  intros Hc Hd Hes. revert hist s Hd. induction Hes as [|e es He _ IH]; intros hist s Hd; [by rewrite app_nil_r|].
  assert (registered (e :: es) = registered [e] ++ registered es) as -> by (by destruct e).
  rewrite app_assoc. cbn [disp_run]. apply IH. by apply disp_step.
Qed.

(** C29: a call through the caches runs only a thunk that this process has
    registered for the class and the very selector, or that a status text
    names for it, whatever was registered, called and fetched before and
    whichever hashes share a slot; it returns nil only when the last thunk
    registered for them is nil or there was none. *)
Theorem dispatch_calls_method class ms path data0 seg es hash :
  class_ok class -> (length class <= 63)%nat -> methods_stand ms ∅ -> is_cstr class ->
  fs path = Some data0 -> Forall disp_event_ok es -> sel_ok hash ->
  let c0 := (o9_init_client_cache fs seg (Some path) (Some class) (Client [] [] (Some table0) None 0)).2 in
  let '(ms, c) := disp_run es (Some ms, c0) in
  match (o9_dispatch_call fs pid ms hash c).1 with
  | Some p => p <> 0 /\ known class (registered es) hash p
  | None => thunk_of (thunks_of (registered es)) pid class hash = 0
  end.
Proof.
  intros Hc Hlen Hms Hcs Hf Hes Hs c0.
  assert (H0 : disp_ok class [] (Some ms, c0)).
  { unfold c0, o9_init_client_cache. rewrite Hf. simpl. split; [|split; [by exists ms|]].
    - simpl. unfold strncpy. rewrite cstr_id by done. apply take_ge. lia.
    - assert (Ht : table_ok class [] (o9_fill_from_buf data0 table0)).
      { eapply fill_ok; [done|]. split; [done|]. intros h. unfold cache_get, table0, cache0. cbn [t_ctrl].
        destruct (replicate 64 (CacheEntry 0 0) !! slot h) as [e|] eqn:Er; [|done].
        apply lookup_replicate in Er as [-> _]. simpl. by case_match. }
      simpl. repeat case_decide; (eexists; split; [reflexivity|]); try exact Ht; destruct Ht; split; done. }
  pose proof (disp_run_ok class [] es _ Hc H0 Hes) as Hd. rewrite app_nil_l in Hd.
  destruct (disp_run es (Some ms, c0)) as [ms' c]. unfold o9_dispatch_call.
  pose proof Hd as (_ & _ & (t & Ht & [_ Hk])). simpl in Ht. rewrite Ht.
  destruct (decide (cached t_ctrl hash c <> 0)) as [Hn|Hn].
  - simpl. split; [done|]. unfold cached in *. rewrite Ht in *. by apply Hk.
  - destruct (cache_fill_ok class _ ms' hash true c Hc Hs Hd) as [(_ & _ & (t' & Ht' & [_ Hk'])) Hfill]. simpl in Ht'.
    destruct (decide (cached t_ctrl hash _ <> 0)) as [Hn'|Hn'].
    + simpl. split; [done|]. unfold cached in *. rewrite Ht' in *. by apply Hk'.
    + simpl. destruct (decide (thunk_of (thunks_of (registered es)) pid class hash = 0)); [done|].
      exfalso. apply Hn'. rewrite Hfill; done.
Qed.

End calls.

#[local] Existing Instances ListTab.impl ListTab.laws.

Definition demo_method (name : string) (sel thunk : Z) : method := Method (str "Account") (str name) sel 1 None None thunk.
Definition demo_store : @O9MethodStore ListTab.impl :=
  @MethodStore ListTab.impl (ListTab.Table (str "o9methods") (plain_col <$> o9_method_cols) [] 0) (str "/dev/null/o9.app.methods.tab").

Lemma demo_store_stands : methods_stand demo_store ∅.
Proof. by apply (init_stands (Some (str "/mnt/o9/app")) (Some (str "app"))). Qed.

(** Two methods whose selectors share a slot. *)
Definition demo_calls : list disp_event :=
  [DRegister (demo_method "open" 5 4096); DRegister (demo_method "close" 69 8192); DCall 5; DCall 69; DData 5].

Definition demo_client (base : Z) : client :=
  (o9_init_client_cache (fun _ => Some (str "d7:16" ++ [NL])) (fun _ => base) (Some (str "/srv/Account/status")) (Some (str "Account")) (Client [] [] (Some table0) None 0)).2.

Lemma dispatch_calls_method_witness :
  let '(ms, c) := disp_run (fun _ => Some (str "d7:16" ++ [NL])) 7 demo_calls (Some demo_store, demo_client (-1)) in
  match (o9_dispatch_call (fun _ => Some (str "d7:16" ++ [NL])) 7 ms 5 c).1 with
  | Some p => p <> 0 /\ known (fun _ => Some (str "d7:16" ++ [NL])) (str "Account") (registered demo_calls) 5 p
  | None => thunk_of (thunks_of 7 (registered demo_calls)) 7 (str "Account") 5 = 0
  end.
Proof.
  apply (dispatch_calls_method (fun _ => Some (str "d7:16" ++ [NL])) 7 ltac:(by split) (str "Account") demo_store (str "/srv/Account/status")
    (str "d7:16" ++ [NL]) (fun _ => -1) demo_calls 5).
  - split; [by apply (bool_decide_unpack _); vm_compute|cbn; lia].
  - cbn. lia.
  - apply demo_store_stands.
  - by apply (bool_decide_unpack _); vm_compute.
  - done.
  - repeat (apply Forall_cons; split); try done; unfold disp_event_ok, method_ok, class_ok; cbn; split_and!; try done; try lia;
      try (right; by apply (bool_decide_unpack _); vm_compute); try (by apply (bool_decide_unpack _); vm_compute).
  - done.
Defined.

Lemma demo_dispatch :
  let fs := fun _ => Some (str "d7:16" ++ [NL]) in
  let '(ms, c) := disp_run fs 7 demo_calls (Some demo_store, demo_client (-1)) in
  (o9_dispatch_call fs 7 ms 5 c).1 = Some 4096 /\ (o9_dispatch_call fs 7 ms 6 c).1 = None.
Proof. vm_compute. auto. Qed.

(** ** What they get wrong *)

(** A miss reads the status text again and puts the bare offsets where the
    addresses were: field 7 was at base + 16, and is at 16 after any miss. *)
Lemma refill_loses_base :
  let fs := fun _ => Some (str "d7:16" ++ [NL]) in
  (o9_dispatch_data fs 7 None 7 (demo_client 1048576)).1 = 1048592 /\
  (o9_dispatch_data fs 7 None 7 (o9_dispatch_data fs 7 None 8 (demo_client 1048576)).2).1 = 16.
Proof. vm_compute. auto. Qed.

(** A thunk is found by the proc that registered it and by no other, although
    all procs of a program share it. *)
Lemma thunk_of_other_proc :
  let s := (o9_method_register 7 (demo_method "open" 5 4096) (Some demo_store)).2 in
  o9_method_thunk 7 (str "Account") 5 s = 4096 /\ o9_method_thunk 8 (str "Account") 5 s = 0.
Proof. vm_compute. auto. Qed.

(** A method that is registered again is called at its old address by a handle
    that has called it before. *)
Lemma cached_thunk_stays :
  let fs := fun _ => None in
  let '(ms, c) := disp_run fs 7 [DRegister (demo_method "open" 5 4096); DCall 5; DRegister (demo_method "open" 5 8192)] (Some demo_store, demo_client (-1)) in
  o9_method_thunk 7 (str "Account") 5 ms = 8192 /\ (o9_dispatch_call fs 7 ms 5 c).1 = Some 4096.
Proof. vm_compute. auto. Qed.
