(* ===== verification/Messages.v ===== *)
(** * Channel messages and the text front end of calls ([o9_chan_*],
    [o9_send], [o9_ledger_*] in [o9_runtime.c])

    A value that goes through a channel of the language is packed into a
    counted message; whoever takes it owns what is in it, and a message that
    nobody took drops it.  [o9_send] turns a line of text into a call. *)
From S2P Require Import Prelude Fmt O9Str Slice ObjTable CallGraph Registry Pending Send Tabula Stores Journal.

Open Scope Z_scope.

(** ** Channel messages *)

(** The bytes behind the header: plain ones, a string pointer, a slice. *)
Inductive payload := PBytes (b : bytes) | PString (p : option strptr) | PSlice (s : O9Slice).
Inductive drop_fn := DropNone | DropString | DropSlice.

Record O9ChanMsg := ChanMsg { k_n : Z; k_data : payload; k_taken : bool; k_drop : drop_fn }.

Definition SIZE_PTR : Z := 8.
Definition SIZE_SLICE : Z := 32.

(** [alloc]: whether [mallocz] has the memory. [src] is read for [n] bytes. *)
Definition o9_chan_pack (alloc : bool) (src : payload) (n : Z) : option O9ChanMsg :=
  if alloc then Some (ChanMsg (Z.max 0 n) src false DropNone) else None.

Definition o9_chan_pack_string (alloc : bool) (s : option strptr) (h : strheap) : option O9ChanMsg * strheap :=
  let h := o9_string_retain s h in
  match o9_chan_pack alloc (PString s) SIZE_PTR with
  | None => (None, o9_string_release s h)
  | Some m => (Some (ChanMsg (k_n m) (k_data m) (k_taken m) DropString), h)
  end.

(** The copy holds the cells in use and no more; [alloc_data], [alloc]: the two
    allocations. *)
Definition copy_slice (s : option O9Slice) : O9Slice :=
  match s with
  | None => MkSlice [] 0 0 0
  | Some s => MkSlice (take (Z.to_nat (sl_len s * sl_elemsize s)) (sl_data s)) (sl_len s) (sl_len s) (sl_elemsize s)
  end.

Definition o9_chan_pack_slice (alloc_data alloc : bool) (s : option O9Slice) : option O9ChanMsg :=
  let tmp := copy_slice s in
  if bool_decide (sl_data tmp <> []) && negb alloc_data then None else
  (fun m => ChanMsg (k_n m) (k_data m) (k_taken m) DropSlice) <$> o9_chan_pack alloc (PSlice tmp) SIZE_SLICE.

(** What is copied out, and the message; [None]: the result is -1. *)
Definition o9_chan_take (m : O9ChanMsg) (n : Z) : option payload * O9ChanMsg :=
  if bool_decide (n < 0) || bool_decide (n <> k_n m) then (None, m)
  else (Some (k_data m), ChanMsg (k_n m) (k_data m) true (k_drop m)).

Definition o9_chan_drop_string (d : payload) (h : strheap) : strheap :=
  match d with PString p => o9_string_release p h | _ => h end.

(** Frees the message; the string heap after it. A slice's block goes with it. *)
Definition o9_chan_free (m : O9ChanMsg) (h : strheap) : strheap :=
  if k_taken m then h else
  match k_drop m with DropString => o9_chan_drop_string (k_data m) h | _ => h end.

Lemma retain_release p o (h : strheap) : h !! p = Some o -> 0 < so_ref o -> o9_string_release (Some p) (o9_string_retain (Some p) h) = h.
Proof.
  intros Hp Hr. unfold o9_string_retain. rewrite Hp, decide_True by lia. unfold o9_string_release.
  rewrite lookup_insert_eq. cbn [so_ref so_data]. rewrite !decide_False by lia. rewrite insert_insert_eq.
  apply insert_id. rewrite Hp. destruct o; simpl. do 2 f_equal. lia.
Qed.

(** A string that is sent has one reference more while it is under way, and
    none is lost or left over: when the sender cannot pack it, when nobody
    takes it, and when the receiver takes it and releases it. *)
Lemma string_message_balanced p o h : h !! p = Some o -> 0 < so_ref o ->
  (o9_chan_pack_string false (Some p) h = (None, h)) /\
  exists m h', o9_chan_pack_string true (Some p) h = (Some m, h') /\
    h' !! p = Some (MkStr (so_data o) (so_ref o + 1)) /\
    o9_chan_free m h' = h /\
    (exists m', o9_chan_take m SIZE_PTR = (Some (PString (Some p)), m') /\ o9_string_release (Some p) (o9_chan_free m' h') = h).
Proof.
  intros Hp Hr. pose proof (retain_release p o h Hp Hr) as Hb. unfold o9_chan_pack_string. simpl o9_chan_pack. cbv zeta iota.
  rewrite Hb. split; [done|]. eexists _, _. split; [reflexivity|]. split.
  { simpl. rewrite Hp, decide_True by lia. by rewrite lookup_insert_eq. }
  split; [exact Hb|]. eexists. split; [reflexivity|exact Hb].
Qed.

(** What is packed comes out, once the sizes agree. *)
Lemma chan_roundtrip src n m : 0 <= n -> o9_chan_pack true src n = Some m ->
  (o9_chan_take m n).1 = Some src /\ forall n', n' <> n -> o9_chan_take m n' = (None, m).
Proof.
  intros Hn [= <-]. unfold o9_chan_take. simpl. rewrite Z.max_r by done. split.
  - by rewrite !bool_decide_false by (lia || naive_solver).
  - intros n' Hn'. by rewrite (bool_decide_true (n' <> n)), orb_true_r.
Qed.

(** ** Lines of text as calls *)

Definition is_blank (c : byte) : bool := bool_decide (c ∈ [x20; x09; x0d; x0a]).

(** The C library's [tokenize]: fields between blanks, quoted as in rc. *)
Fixpoint qtoken (quoting : bool) (t : bytes) : bytes * bytes :=
  match t with
  | [] => ([], [])
  | c :: r =>
      if negb quoting && is_blank c then ([], r)
      else if negb (bool_decide (c = x27)) then let '(f, rest) := qtoken quoting r in (c :: f, rest)
      else if negb quoting then qtoken true r
      else match r with
           | d :: r' => if bool_decide (d = x27) then let '(f, rest) := qtoken true r' in (x27 :: f, rest) else qtoken false r
           | [] => ([], [])
           end
  end.

Fixpoint skip_blank (s : bytes) : bytes :=
  match s with c :: r => if is_blank c then skip_blank r else s | [] => [] end.

Fixpoint tokenize (max : nat) (s : bytes) : list bytes :=
  match max with
  | O => []
  | S max =>
      match skip_blank s with
      | [] => []
      | s => let '(f, rest) := qtoken false s in f :: tokenize max rest
      end
  end.

(** The number behind the [=], or the field as a number. *)
Definition send_arg (f : bytes) : Z := (strtoll 0 (match strchr "="%byte f with (_, Some v) => v | (_, None) => f end)).1.

(** The method and the arguments of a line, at most 8 of them. *)
Definition send_parse (line : bytes) : option (bytes * list Z) :=
  match tokenize 16 (strncpy 1024 line) with
  | verb :: _ :: name :: args => if streq verb (str "method") then Some (name, take 8 (send_arg <$> args)) else None
  | _ => None
  end.

(** What [o9_send] returns: nil, a text, or the string that the method gave. *)
Inductive send_ret := SendNil | SendText (s : bytes) | SendString (p : Z).

(** [msgSendN]: the call with the hash of the name, [Send.obj9_msgSendN] on
    the array of the arguments. [remote]: the handle has a connection and no
    dispatch channel. *)
Definition o9_send `{L : libtab} {W : Type} (msgSendN : bytes -> Z -> list Z -> W -> Z * W) (ms : option O9MethodStore)
    (remote : bool) (line : option bytes) (w : W) : send_ret * W :=
  match line with
  | None => (SendNil, w)
  | Some line =>
      if remote then (SendText (str "error: object method dispatch is local-only; exchange Tabula data over 9P"), w) else
      match send_parse (cstr line) with
      | None => (SendText (str "error: send wants 'method <inst> <name> [argN=v ...]'"), w)
      | Some (name, args) =>
          let '(rv, w) := msgSendN name (o9_hash name) args w in
          match o9_method_ret_type name ms with
          | Some ret =>
              if streq ret (str "string") || streq ret (str "O9String*")
              then (if decide (rv = 0) then SendText [] else SendString rv, w)
              else (SendText (itoa rv), w)
          | None => (SendText (itoa rv), w)
          end
      end
  end.

Section wrappers.
Context (O : outside).

(** [obj9_msgSend] and [obj9_msgSend_name]: one argument or none. *)
Definition obj9_msgSend (obj : o9_Object) (method : option bytes) (sel : Z) (args : option ptr) (w : Send.world) : Z * Send.world :=
  obj9_msgSendN O obj method sel args (if args then 1 else 0) w.
Definition obj9_msgSend_name (obj : o9_Object) (method : option bytes) (sel : Z) (args : option ptr) (w : Send.world) : Z * Send.world :=
  obj9_msgSendN O obj method sel args (if args then 1 else 0) w.
End wrappers.

(** [o9_ledger_update]: one atomic step for each unit; [long] has 32 bits. *)
Fixpoint repeat_step (n : nat) (f : Z -> Z) (r : Z) : Z := match n with O => r | S n => repeat_step n f (f r) end.
Definition o9_ledger_update (delta ref : Z) : Z :=
  if decide (0 < delta) then repeat_step (Z.to_nat delta) (fun r => i32 (r + 1)) ref
  else repeat_step (Z.to_nat (- delta)) (fun r => i32 (r - 1)) ref.

(** ** Reading a line back *)

Definition plain_token (f : bytes) : Prop := f <> [] /\ Forall (fun c => is_blank c = false /\ c <> x27) f.

Lemma qtoken_plain f rest : plain_token f -> qtoken false (f ++ match rest with Some r => x20 :: r | None => [] end) = (f, default [] rest).
Proof.
  intros [_ Hf]. induction Hf as [|c f [Hb Hq] _ IH]; [by destruct rest|]. cbn [app qtoken].
  rewrite Hb, bool_decide_false by done. simpl. by rewrite IH.
Qed.

Lemma tokenize_joined max fs : Forall plain_token fs -> (length fs <= max)%nat -> tokenize max (joined x20 fs) = fs.
Proof.
  intros Hf. revert max. induction Hf as [|f fs Hp Hfs IH]; intros [|max] Hl; simpl in Hl; try done; try lia.
  assert (Hskip : forall r, skip_blank (f ++ r) = f ++ r).
  { intros r. destruct Hp as [Hne Hp]. destruct Hp as [|c f [Hb _] _]; [done|]. simpl. by rewrite Hb. }
  assert (Hcase : joined x20 (f :: fs) = f ++ match fs with [] => [] | _ => x20 :: joined x20 fs end) by (destruct fs; [by rewrite app_nil_r|done]).
  cbn [tokenize]. rewrite Hcase, Hskip. pose proof (qtoken_plain f (match fs with [] => None | _ => Some (joined x20 fs) end) Hp) as Hq.
  destruct Hp as [Hne _]. destruct fs as [|g fs].
  - destruct f as [|c f]; [done|]. rewrite app_nil_r in *. rewrite Hq. simpl. by destruct max.
  - destruct f as [|c f]; [done|]. cbn [app] in *. rewrite Hq. f_equal. apply IH. lia.
Qed.

(** A call as the documentation writes it: [method inst name arg1=v ...]. *)
Definition call_line (inst name : bytes) (args : list (bytes * Z)) : bytes :=
  joined x20 (str "method" :: inst :: name :: ((fun a => a.1 ++ str "=" ++ itoa a.2) <$> args)).

Lemma arg_read x v : "="%byte ∉ x -> - 2 ^ 63 <= v < 2 ^ 63 -> send_arg (x ++ str "=" ++ itoa v) = v.
Proof.
  intros Hx Hv. unfold send_arg. change (str "=" ++ itoa v) with ("="%byte :: itoa v). rewrite strchr_some by done.
  unfold strtoll. by rewrite strto_itoa by (lia || by left).
Qed.

Lemma arg_plain x v : Forall (fun c => is_blank c = false /\ c <> x27) x -> plain_token (x ++ str "=" ++ itoa v).
Proof.
  intros Hx. split; [by destruct x|]. apply Forall_app. split; [done|]. apply Forall_app. split; [by repeat constructor|].
  apply Forall_forall. intros c [-> |Hc]%itoa_chars; [by split|]. split.
  - unfold is_blank. apply bool_decide_eq_false. rewrite !elem_of_cons, elem_of_nil.
    intros [->|[->|[->|[->|[]]]]]; vm_compute in Hc; by destruct Hc.
  - intros ->. vm_compute in Hc. by destruct Hc.
Qed.

(** Up to eight arguments of any 64-bit value are read as they were written,
    under any names, as long as the line fits its buffer. *)
Lemma send_parse_exact inst name args : plain_token inst -> plain_token name ->
  Forall (fun a => Forall (fun c => is_blank c = false /\ c <> x27) a.1 /\ "="%byte ∉ a.1 /\ - 2 ^ 63 <= a.2 < 2 ^ 63) args ->
  (length args <= 8)%nat -> is_cstr (call_line inst name args) -> (length (call_line inst name args) <= 1023)%nat ->
  send_parse (call_line inst name args) = Some (name, args.*2).
Proof.
  intros Hi Hn Ha Hl Hc Hlen. unfold send_parse, strncpy. rewrite cstr_id, take_ge by (done || lia).
  unfold call_line. rewrite tokenize_joined.
  - cbn [fmap list_fmap]. unfold streq. rewrite bool_decide_true by done. do 2 f_equal. rewrite take_ge by (rewrite !length_fmap; lia).
    rewrite <- list_fmap_compose. apply list_fmap_ext. intros i a Hx. simpl. rewrite Forall_forall in Ha.
    destruct (Ha a) as (_ & H2 & H3); [by eapply list_elem_of_lookup_2|]. by apply arg_read.
  - constructor; [split; [done|]; by repeat constructor|]. constructor; [done|]. constructor; [done|].
    apply Forall_fmap. eapply Forall_impl; [exact Ha|]. intros a (H1 & _). by apply arg_plain.
  - simpl. rewrite length_fmap. lia.
Qed.

(** A ninth argument is dropped without an error. *)
Lemma ninth_argument_dropped :
  send_parse (str "method o m a=1 b=2 c=3 d=4 e=5 f=6 g=7 h=8 i=9") = Some (str "m", [1; 2; 3; 4; 5; 6; 7; 8]).
Proof. vm_compute. reflexivity. Qed.

(** A line longer than the buffer is cut in the middle of a number. *)
Lemma long_line_cut :
  send_parse (str "method " ++ replicate 1006 "o"%byte ++ str " m a=123456") = Some (str "m", [12345]).
Proof. vm_compute. reflexivity. Qed.

Lemma ledger_update_exact delta ref : - 2 ^ 31 <= ref < 2 ^ 31 -> - 2 ^ 31 <= ref + delta < 2 ^ 31 -> o9_ledger_update delta ref = ref + delta.
Proof.
  assert (Hup : forall n r, - 2 ^ 31 <= r -> r + Z.of_nat n < 2 ^ 31 -> repeat_step n (fun r => i32 (r + 1)) r = r + Z.of_nat n).
  { induction n as [|n IH]; intros r H1 H2; simpl repeat_step; [lia|]. rewrite (wraps_id 32) by (change (2 ^ (32 - 1)) with (2 ^ 31); lia). rewrite IH; lia. }
  assert (Hdown : forall n r, - 2 ^ 31 <= r - Z.of_nat n -> r < 2 ^ 31 -> repeat_step n (fun r => i32 (r - 1)) r = r - Z.of_nat n).
  { induction n as [|n IH]; intros r H1 H2; simpl repeat_step; [lia|]. rewrite (wraps_id 32) by (change (2 ^ (32 - 1)) with (2 ^ 31); lia). rewrite IH; lia. }
  intros H1 H2. unfold o9_ledger_update. case_decide.
  - rewrite Hup; lia.
  - rewrite Hdown; lia.
Qed.
