(* ===== verification/Files.v ===== *)
(** * Files, directories and the application's name space ([o9_readfile] and
    its neighbours, [o9_ns_*] in [o9_runtime.c], the vault's file functions in
    [o9_crypto.c])

    The builtins of the language over the file system, which is a map from
    paths to files and directories.  What may be opened, how much a [read]
    gives at a time, whether it fails and how much a [write] takes is left
    open: the record [os]. *)
From S2P Require Import Prelude Fmt O9Str Tabula Crypto Vault.

Open Scope Z_scope.

(** ** The file system *)

Inductive fnode := FFile (data : bytes) | FDir.
#[export] Instance fnode_eq_dec : EqDecision fnode.
Proof. solve_decision. Defined.
Abbreviation fsys := (gmap bytes fnode).

Record os := OS {
  os_readable : bytes -> bool;
  os_writable : bytes -> bool;
  os_creatable : bytes -> bool;
  os_removable : bytes -> bool;
  os_chunk : nat -> nat;            (** [read] number [i] gives at most [S (os_chunk i)] bytes *)
  os_readfails : nat -> bool;
  os_writes : bytes -> nat;         (** how much of a text one [write] takes *)
  os_alloc : Z -> bool;             (** [realloc] *)
  os_dirdata : bytes -> bytes;      (** what reading a directory gives *)
}.

Section files.
Context (o : os) (w : Z).

Definition sys_read (i want : nat) (rest : bytes) : bytes :=
  if os_readfails o i then [] else take (Nat.min want (S (os_chunk o i))) rest.

Definition open_read (fs : fsys) (p : bytes) : option bytes :=
  if os_readable o p then match fs !! p with Some (FFile d) => Some d | Some FDir => Some (os_dirdata o p) | None => None end else None.

(** [create(p, OWRITE, 0644)]: truncates a file, makes one. *)
Definition create (p : bytes) (fs : fsys) : option fsys :=
  match fs !! p with
  | Some FDir => None
  | Some (FFile _) => if os_writable o p then Some (<[p := FFile []]> fs) else None
  | None => if os_creatable o p then Some (<[p := FFile []]> fs) else None
  end.

(** [open(p, OWRITE)]. *)
Definition open_write (p : bytes) (fs : fsys) : bool :=
  match fs !! p with Some (FFile _) => os_writable o p | _ => false end.

(** [write] at the end of the file: the result. *)
Definition write_end (p d : bytes) (fs : fsys) : Z * fsys :=
  let d' := take (os_writes o d) d in
  (Z.of_nat (length d'), alter (fun n => match n with FFile old => FFile (old ++ d') | FDir => FDir end) p fs).

(** ** Reading and writing files *)

Fixpoint readfile_loop (fuel i : nat) (cap : Z) (buf rest : bytes) : bytes :=
  match fuel with
  | O => buf
  | S fuel =>
      let got := sys_read i (Z.to_nat (cap - Z.of_nat (length buf) - 1)) rest in
      if decide (got = []) then buf else
      let buf := buf ++ got in
      let rest := drop (length got) rest in
      if decide (cap <= Z.of_nat (length buf) + 1) then
        let cap := cap * 2 in
        if os_alloc o cap then readfile_loop fuel (S i) cap buf rest else buf
      else readfile_loop fuel (S i) cap buf rest
  end.

Definition o9_readfile (fs : fsys) (path : ostring) : ostring :=
  match path with
  | None => None
  | Some p =>
      match open_read fs (cstr p) with
      | None => None
      | Some data =>
          let buf := readfile_loop (S (length data)) 0 8192 [] data in
          o9_string_new w (Some buf) (Z.of_nat (length buf))
      end
  end.

Definition o9_writefile (path s : ostring) (fs : fsys) : Z * fsys :=
  match path, s with
  | Some p, Some s =>
      match create (cstr p) fs with
      | None => (-1, fs)
      | Some fs =>
          let '(n, fs) := write_end (cstr p) s fs in (if decide (n <> Z.of_nat (length s)) then -1 else 0, fs)
      end
  | _, _ => (-1, fs)
  end.

Definition o9_appendfile (path s : ostring) (fs : fsys) : Z * fsys :=
  match path, s with
  | Some p, Some s =>
      let p := cstr p in
      match (if open_write p fs then Some fs else create p fs) with
      | None => (-1, fs)
      | Some fs => let '(n, fs) := write_end p s fs in (if decide (n <> Z.of_nat (length s)) then -1 else 0, fs)
      end
  | _, _ => (-1, fs)
  end.

Definition o9_fileexists (fs : fsys) (path : ostring) : bool :=
  match path with None => false | Some p => bool_decide (is_Some (fs !! cstr p)) end.

Definition o9_filesize (fs : fsys) (path : ostring) : Z :=
  match path with
  | None => -1
  | Some p => match fs !! cstr p with Some (FFile d) => Z.of_nat (length d) | Some FDir => 0 | None => -1 end
  end.

Definition o9_isdir (fs : fsys) (path : ostring) : bool :=
  match path with None => false | Some p => bool_decide (fs !! cstr p = Some FDir) end.

(** [create(p, OREAD, DMDIR|0755)]. *)
Definition create_dir (p : bytes) (fs : fsys) : option fsys :=
  match fs !! p with
  | Some _ => None
  | None => if os_creatable o p then Some (<[p := FDir]> fs) else None
  end.

Definition o9_mkdir (path : ostring) (fs : fsys) : Z * fsys :=
  match path with
  | None => (-1, fs)
  | Some p =>
      match fs !! cstr p with
      | Some FDir => (0, fs)
      | Some (FFile _) => (-1, fs)
      | None => match create_dir (cstr p) fs with Some fs => (0, fs) | None => (-1, fs) end
      end
  end.

Definition sys_remove (p : bytes) (fs : fsys) : Z * fsys :=
  if bool_decide (is_Some (fs !! p)) && os_removable o p then (0, delete p fs) else (-1, fs).

Definition o9_removefile (path : ostring) (fs : fsys) : Z * fsys :=
  match path with None => (-1, fs) | Some p => sys_remove (cstr p) fs end.

(** ** The environment: its variables *)

Definition o9_getenv (vars : gmap bytes bytes) (name : ostring) : ostring :=
  match name with
  | None => o9_string_from_c w (Some [])
  | Some n => match vars !! cstr n with Some v => o9_string_from_c w (Some v) | None => o9_string_from_c w (Some []) end
  end.

Definition good_var (n : bytes) : bool := bool_decide (n <> []) && negb (bool_decide ("/"%byte ∈ n)).

Definition o9_setenv (name value : ostring) (vars : gmap bytes bytes) : Z * gmap bytes bytes :=
  match name, value with
  | Some n, Some v => if good_var (cstr n) then (0, <[cstr n := cstr v]> vars) else (-1, vars)
  | _, _ => (-1, vars)
  end.

(** The variable is the file /env/name, cut at 255 bytes; where there is none
    the fallback makes the variable empty. *)
Definition o9_unsetenv (name : ostring) (vars : gmap bytes bytes) : Z * gmap bytes bytes :=
  match name with
  | None => (-1, vars)
  | Some n =>
      if good_var (cstr n) then
        let file := drop 5 (snprint 256 (str "/env/" ++ cstr n)) in
        match vars !! file with
        | Some _ => (0, delete file vars)
        | None => (0, <[cstr n := []]> vars)
        end
      else (-1, vars)
  end.

(** ** Lines and arguments *)

(** [o9_readline]: up to a newline or 4095 bytes of the input, and what is
    left of it; nil at the end. *)
Fixpoint readline_loop (room : nat) (s : bytes) : bytes * bytes :=
  match room, s with
  | O, _ => ([], s)
  | _, [] => ([], [])
  | S room, c :: s => if decide (c = NL) then ([], s) else let '(l, r) := readline_loop room s in (c :: l, r)
  end.

Definition o9_readline (input : bytes) : ostring * bytes :=
  match input with
  | [] => (None, [])
  | _ => let '(l, r) := readline_loop 4095 input in (o9_string_new w (Some l) (Z.of_nat (length l)), r)
  end.

Definition o9_process_set_args (argv : option (list (option bytes))) : list bytes := default [] <$> default [] argv.
Definition o9_process_argc (args : list bytes) : Z := Z.of_nat (length args).
Definition o9_process_arg (args : list bytes) (index : Z) : ostring :=
  if decide (index < 0) then o9_string_new w (Some []) 0 else
  match args !! Z.to_nat index with Some a => o9_string_from_c w (Some a) | None => o9_string_new w (Some []) 0 end.

(** ** The name space of an application *)

Definition o9_ns_app_root (nbuf : nat) (app : option bytes) : option bytes :=
  if decide (nbuf = 0%nat \/ default [] app = []) then None else Some (snprint nbuf (str "/mnt/o9/" ++ default [] app)).

Definition o9_ns_service_name (nbuf : nat) (app type inst : option bytes) : option bytes :=
  if decide (nbuf = 0%nat \/ default [] app = []) then None else Some (snprint nbuf (default [] app)).

Definition ns_path (nbuf : nat) (root : option bytes) (mid : string) (name : option bytes) : option bytes :=
  if decide (nbuf = 0%nat \/ default [] root = [] \/ default [] name = []) then None
  else Some (snprint nbuf (default [] root ++ str mid ++ default [] name)).

Definition o9_ns_object_path (nbuf : nat) (root inst : option bytes) : option bytes := ns_path nbuf root "/obj/" inst.
Definition o9_ns_class_path (nbuf : nat) (root type : option bytes) : option bytes := ns_path nbuf root "/class/" type.

(** What is there and can be opened is taken for a directory. *)
Definition o9_ns_ensure_dir (path : option bytes) (fs : fsys) : Z * fsys :=
  let p := default [] path in
  if decide (p = []) then (-1, fs) else
  match open_read fs p with
  | Some _ => (0, fs)
  | None => match create_dir p fs with Some fs => (0, fs) | None => (-1, fs) end
  end.

(** The directories in turn, up to the first that fails. *)
Fixpoint ensure_all (ps : list bytes) (fs : fsys) : Z * fsys :=
  match ps with
  | [] => (0, fs)
  | p :: ps => let '(r, fs) := o9_ns_ensure_dir (Some p) fs in if decide (r < 0) then (-1, fs) else ensure_all ps fs
  end.

Definition app_dirs (root : bytes) : list bytes :=
  str "/mnt/o9" :: root :: ((fun d => snprint 256 (root ++ str d)) <$> ["/obj"; "/class"; "/lib"; "/types"; "/state"]%string).

Definition o9_ns_ensure_app (root : option bytes) (fs : fsys) : Z * fsys :=
  if decide (default [] root = []) then (-1, fs) else ensure_all (app_dirs (default [] root)) fs.

(** A line at the end of the application's recipe. *)
Definition o9_ns_recipe (root app line : option bytes) (fs : fsys) : fsys :=
  match line with
  | None => fs
  | Some line =>
      let root := default [] root in
      if decide (root = []) then fs else
      let app := if decide (default [] app = []) then str "app" else default [] app in
      let fs := (o9_ns_ensure_dir (Some (snprint 256 (root ++ str "/state"))) fs).2 in
      let p := snprint 256 (root ++ str "/state/" ++ app ++ str ".namespace") in
      match (if open_write p fs then Some fs else create p fs) with
      | None => fs
      | Some fs => (write_end p (line ++ [NL]) fs).2
      end
  end.

(** [busy]: the view controller runs ([o9_view_dispatch_busy]); [bind]: what
    the bind of the two paths returns. *)
Definition o9_ns_bind_obj (busy : bool) (bind : bytes -> bytes -> Z) (mount root inst : option bytes) (fs : fsys) : Z * fsys :=
  match mount, root, inst with
  | Some mount, Some root, Some inst =>
      if busy then (-1, fs) else
      let src := snprint 256 (mount ++ str "/" ++ inst) in
      let dst := snprint 256 (root ++ str "/obj/" ++ inst) in
      let '(r, fs) := o9_ns_ensure_dir (Some dst) fs in
      if decide (r < 0) then (-1, fs) else (bind src dst, fs)
  | _, _, _ => (-1, fs)
  end.

(** ** Vaults and files *)

Section vault_files.
Context {cv : curves} {L : libtab}.

Definition o9_vault_seal_file (e : env) (v : vault) (path data : ostring) (fs : fsys) : Z * fsys :=
  match v, path, data with
  | Some _, Some _, Some _ =>
      match o9_vault_seal e v data with
      | None => (-1, fs)
      | Some blob => o9_writefile path (Some blob) fs
      end
  | _, _, _ => (-1, fs)
  end.

Definition o9_vault_open_file (e : env) (v : vault) (path : ostring) (fs : fsys) : ostring :=
  match v, path with
  | Some _, Some _ =>
      match o9_readfile fs path with
      | None => None
      | Some blob => o9_vault_open w e v (Some blob)
      end
  | _, _ => None
  end.

(** [text]: what [o9_tab_serialize] gives. *)
Definition o9_vault_seal_tab (e : env) (v : vault) (path text : ostring) (fs : fsys) : Z * fsys :=
  match v, path, text with
  | Some _, Some _, Some _ => o9_vault_seal_file e v path text fs
  | _, _, _ => (-1, fs)
  end.

(** [opened]: what [o9_tab_open] makes of a file; the plain text stands in the
    temporary file while it runs. The file system in between is returned, too. *)
Definition o9_vault_open_tab (opened : fsys -> bytes -> option O9Tabula) (e : env) (pid seq : Z) (v : vault) (path : ostring) (fs : fsys) : option O9Tabula * fsys :=
  match o9_vault_open_file e v path fs with
  | None => (None, fs)
  | Some pt =>
      let temp := snprint 128 (str "/tmp/o9vtab." ++ itoa pid ++ str "." ++ itoa seq) in
      match create temp fs with
      | None => (None, fs)
      | Some fs1 =>
          let '(n, fs2) := write_end temp pt fs1 in
          if decide (n <> Z.of_nat (length pt)) then (None, (sys_remove temp fs2).2)
          else (opened fs2 temp, (sys_remove temp fs2).2)
      end
  end.
End vault_files.

End files.

(** ** Reading gives the whole file *)

Lemma sys_read_prefix o i want rest : os_readfails o i = false -> (0 < want)%nat ->
  exists k, sys_read o i want rest = take k rest /\ (1 <= k)%nat /\ (k <= want)%nat.
Proof. intros Hf Hw. unfold sys_read. rewrite Hf. eexists. split; [reflexivity|]. lia. Qed.

Lemma readfile_loop_whole o fuel i cap buf rest :
  (forall i, os_readfails o i = false) -> (forall n, os_alloc o n = true) ->
  (length rest < fuel)%nat -> Z.of_nat (length buf) + 1 < cap ->
  readfile_loop o fuel i cap buf rest = buf ++ rest.
Proof.
  intros Hf Ha. revert i cap buf rest. induction fuel as [|fuel IH]; intros i cap buf rest Hl Hc; [lia|]. cbn [readfile_loop].
  destruct (sys_read_prefix o i (Z.to_nat (cap - Z.of_nat (length buf) - 1)) rest (Hf i) ltac:(lia)) as (k & -> & Hk & Hkw).
  destruct (decide (take k rest = [])) as [E|E].
  - destruct rest; [by rewrite app_nil_r|]. destruct k; [lia|done].
  - set (n := length (take k rest)). assert (Hn : n = Nat.min k (length rest)) by apply length_take.
    assert (Hnz : (1 <= n)%nat) by (unfold n; destruct (take k rest); simpl; [done|lia]).
    assert (Hd : take k rest ++ drop n rest = rest).
    { rewrite Hn. destruct (decide (k <= length rest)%nat); [by rewrite Nat.min_l, take_drop by done|].
      rewrite Nat.min_r, drop_all, take_ge, app_nil_r by lia. done. }
    assert (Hlen : (length (drop n rest) < fuel)%nat) by (rewrite length_drop; lia).
    destruct (decide (cap <= Z.of_nat (length (buf ++ take k rest)) + 1)) as [Hfull|Hroom].
    + rewrite Ha. rewrite IH; [by rewrite <- app_assoc, Hd|done|]. rewrite length_app in *. fold n in Hfull |- *. lia.
    + rewrite IH; [by rewrite <- app_assoc, Hd|done|lia].
Qed.

(** A file system that does what it is asked. *)
Record os_works (o : os) (p : bytes) : Prop := {
  ow_read : os_readable o p = true;
  ow_write : os_writable o p = true;
  ow_create : os_creatable o p = true;
  ow_nofail : forall i, os_readfails o i = false;
  ow_writes : forall d, (length d <= os_writes o d)%nat;
  ow_alloc : forall n, os_alloc o n = true;
}.

Section roundtrip.
Context (o : os) (w : Z) (Hw : w = 32 \/ w = 64).

Lemma readfile_file fs p data : os_works o (cstr p) -> fs !! cstr p = Some (FFile data) -> Z.of_nat (length data) < LIMIT w ->
  o9_readfile o w fs (Some p) = Some data.
Proof.
  intros [Hr _ _ Hf _ Ha] Hp Hl. unfold o9_readfile, open_read. rewrite Hr, Hp.
  rewrite (readfile_loop_whole o) by (done || lia). simpl app. unfold o9_string_new.
  rewrite decide_False by lia. destruct (string_room_some w (Z.of_nat (length data)) Hw ltac:(lia)) as [cap ->].
  simpl. by rewrite Nat2Z.id, take_ge.
Qed.

Lemma write_end_whole p d fs old : os_works o p -> fs !! p = Some (FFile old) ->
  write_end o p d fs = (Z.of_nat (length d), <[p := FFile (old ++ d)]> fs).
Proof.
  intros [_ _ _ _ Hws _] Hp. unfold write_end. rewrite take_ge by apply Hws. f_equal.
  apply map_eq. intros q. destruct (decide (q = p)) as [->|Hq]; [by rewrite lookup_alter_eq, Hp, lookup_insert_eq|].
  by rewrite lookup_alter_ne, lookup_insert_ne.
Qed.

Lemma create_file p fs : os_works o p -> fs !! p <> Some FDir -> create o p fs = Some (<[p := FFile []]> fs).
Proof.
  intros [_ Hwr Hc _ _ _] Hd. unfold create. destruct (fs !! p) as [[d|]|] eqn:E; [by rewrite Hwr|done|by rewrite Hc].
Qed.

Lemma writefile_exact fs p s : os_works o (cstr p) -> fs !! cstr p <> Some FDir ->
  o9_writefile o (Some p) (Some s) fs = (0, <[cstr p := FFile s]> fs).
Proof.
  intros Ho Hd. unfold o9_writefile. rewrite create_file by done.
  rewrite (write_end_whole _ _ _ []) by (done || apply lookup_insert_eq). rewrite decide_False by lia.
  by rewrite insert_insert_eq, app_nil_l.
Qed.

Lemma appendfile_exact fs p s old : os_works o (cstr p) -> fs !! cstr p = Some (FFile old) \/ (fs !! cstr p = None /\ old = []) ->
  o9_appendfile o (Some p) (Some s) fs = (0, <[cstr p := FFile (old ++ s)]> fs).
Proof.
  intros Ho Hf. unfold o9_appendfile, open_write. pose proof (ow_write _ _ Ho) as Hwr. destruct Hf as [Hf|[Hf ->]]; rewrite Hf.
  - rewrite Hwr, (write_end_whole _ _ _ old) by done. by rewrite decide_False by lia.
  - rewrite create_file by (done || congruence). rewrite (write_end_whole _ _ _ []) by (done || apply lookup_insert_eq).
    by rewrite decide_False, insert_insert_eq by lia.
Qed.

(** A file that is written and then appended to is read back whole, byte
    for byte and whatever its bytes are, with its size, for every way in which
    the reads are cut; no other path changes. *)
Theorem file_roundtrip fs p s t : os_works o (cstr p) -> fs !! cstr p <> Some FDir ->
  Z.of_nat (length s) + Z.of_nat (length t) < LIMIT w ->
  let fs1 := (o9_writefile o (Some p) (Some s) fs).2 in
  let fs2 := (o9_appendfile o (Some p) (Some t) fs1).2 in
  (o9_writefile o (Some p) (Some s) fs).1 = 0 /\ (o9_appendfile o (Some p) (Some t) fs1).1 = 0 /\
  o9_readfile o w fs1 (Some p) = Some s /\ o9_readfile o w fs2 (Some p) = Some (s ++ t) /\
  o9_filesize fs2 (Some p) = Z.of_nat (length s) + Z.of_nat (length t) /\
  forall q, q <> cstr p -> fs2 !! q = fs !! q.
Proof.
  intros Ho Hd Hl fs1 fs2. pose proof (writefile_exact fs p s Ho Hd) as Hwf.
  assert (Hfs1 : fs1 = <[cstr p := FFile s]> fs) by (unfold fs1; by rewrite Hwf).
  assert (Haf : o9_appendfile o (Some p) (Some t) fs1 = (0, <[cstr p := FFile (s ++ t)]> fs1))
    by (apply appendfile_exact; [done|left; rewrite Hfs1; apply lookup_insert_eq]).
  assert (Hfs2 : fs2 = <[cstr p := FFile (s ++ t)]> fs) by (unfold fs2; rewrite Haf, Hfs1; apply insert_insert_eq).
  split_and!; [by rewrite Hwf|by rewrite Haf| | | |].
  - apply readfile_file; [done|rewrite Hfs1; apply lookup_insert_eq|lia].
  - apply readfile_file; [done|rewrite Hfs2; apply lookup_insert_eq|rewrite length_app; lia].
  - unfold o9_filesize. rewrite Hfs2, lookup_insert_eq, length_app. lia.
  - intros q Hq. by rewrite Hfs2, lookup_insert_ne.
Qed.

(** What a vault seals into a file another vault of the same key opens, and
    only the file changes. *)
Lemma vault_file_roundtrip (cv : curves) e1 e2 e3 e4 v1 v2 m nonce fs p :
  (exists pw salt, o9_vault_new_pass e1 pw salt = Some v1 /\ o9_vault_new_pass e2 pw salt = Some v2) \/
  (exists k, israwhex (cstr k) = true /\ o9_vault_new_key e1 (Some k) = Some v1 /\ o9_vault_new_key e2 (Some k) = Some v2) ->
  (forall n, malloc e3 n = true) -> (forall n, malloc e4 n = true) -> o9_randbytes (e_dev e3) 24 = Some nonce ->
  80 + 2 * Z.of_nat (length m) < LIMIT w -> os_works o (cstr p) -> fs !! cstr p <> Some FDir ->
  (forall blob, o9_vault_seal e3 (Some v1) (Some m) = Some blob -> Z.of_nat (length blob) < LIMIT w) ->
  exists fs', o9_vault_seal_file o e3 (Some v1) (Some p) (Some m) fs = (0, fs') /\
    o9_vault_open_file o w e4 (Some v2) (Some p) fs' = Some m /\ forall q, q <> cstr p -> fs' !! q = fs !! q.
Proof.
  intros Hnew Hm3 Hm4 Hn Hl Ho Hd Hb.
  destruct (vault_reopens cv w e1 e2 e3 e4 v1 v2 m nonce Hw Hnew Hm3 Hm4 Hn Hl) as [(blob & Hs & Hop) _].
  exists (<[cstr p := FFile blob]> fs). unfold o9_vault_seal_file, o9_vault_open_file. rewrite Hs.
  split; [by apply writefile_exact|]. split.
  - rewrite (readfile_file _ _ blob) by (done || apply lookup_insert_eq || by apply Hb). done.
  - intros q Hq. by rewrite lookup_insert_ne.
Qed.

End roundtrip.

Definition demo_os : os := OS (fun _ => true) (fun _ => true) (fun _ => true) (fun _ => true) (fun i => i) (fun _ => false) (fun d => length d) (fun _ => true) (fun _ => []).

Lemma demo_os_works p : os_works demo_os p.
Proof. by split. Qed.

Lemma file_roundtrip_witness :
  o9_readfile demo_os 64 (o9_appendfile demo_os (Some (str "log")) (Some [x00; x0a]) (o9_writefile demo_os (Some (str "log")) (Some (str "first")) ∅).2).2 (Some (str "log")) =
  Some (str "first" ++ [x00; x0a]).
Proof.
  apply (file_roundtrip demo_os 64 (or_intror eq_refl) ∅ (str "log") (str "first") [x00; x0a]); [by split|done|done].
Defined.

(** ** What they get wrong *)

(** A read that fails ends the text as the end of the file does: the caller
    gets a part of the file and no error. *)
Lemma failed_read_truncates :
  let o := OS (fun _ => true) (fun _ => true) (fun _ => true) (fun _ => true) (fun _ => 2%nat) (fun i => bool_decide (i = 1%nat)) (fun d => length d) (fun _ => true) (fun _ => []) in
  readfile_loop o 7 0 8192 [] (str "abcdef") = str "abc".
Proof. vm_compute. reflexivity. Qed.

(** Unsetting a variable that is not there creates it. *)
Lemma unsetenv_creates : (o9_unsetenv (Some (str "x")) ∅).2 !! str "x" = Some [].
Proof. change ((<[str "x" := []]> (∅ : gmap bytes bytes)) !! str "x" = Some []). apply lookup_insert_eq. Qed.

(** A file in the place of a directory passes for it. *)
Lemma file_passes_for_dir fs p : p <> [] -> fs !! p = Some (FFile []) -> o9_ns_ensure_dir demo_os (Some p) fs = (0, fs).
Proof. intros Hp Hf. unfold o9_ns_ensure_dir, open_read. simpl. by rewrite decide_False, Hf. Qed.
